(* ===== verification/_CoqProject ===== *)
-Q . S2P
Prelude.v
DsError.v
Key.v
Json.v
KeyMap.v
Serialization.v
Deserialization.v
DataStore.v
Memory.v
Filesystem.v
StoreMeta.v
Generator.v
Controller.v
ApiServer.v
GptPrio.v
Signpost.v
BTree.v
ApiClient.v
Numbers.v
Chars.v
Sundog.v
TharBeSettings.v
IndexMap.v
Bootconfig.v
ParseDatetime.v
UpdateMetadata.v
Updog.v
UpdateStatus.v
MigratorData.v
Migrator.v
Storewolf.v
Whippet.v
NetConfig.v
Networkd.v
Netdog.v
Regex.v
SchnauzerHelpers.v
Schnauzer.v
Bloodhound.v
BloodhoundChecks.v
Machine.v
HostContainers.v
BootstrapContainers.v
BootstrapCommands.v
StaticPods.v
Corndog.v
Imdsclient.v
Pluto.v
Registries.v
ManifestFile.v
Updata.v
ExecServer.v
ExecClient.v
Exec.v
ExecFlow.v
ExecOutput.v
ExecSession.v
