(* ===== verification/Prelude.v ===== *)
(** * Verification of the Bottlerocket core kit

    This library models the parts of the Bottlerocket core kit that keep a host's
    settings, update it and migrate its data, and proves what makes them correct.
    File names below are relative to [sources/].

    ** How the program is put together

    - The _data store_ ([api/datastore]) keeps settings and their metadata under
      dotted keys, live or in named pending transactions.  Its trait has two
      implementations: in memory (tests, and the working copy of migrations) and on
      the file system (the running host).
    - The _API server_ ([api/apiserver]) turns HTTP requests into operations of the
      data store; a commit first checks the strengths of the settings.  The other
      programs talk to it over a socket through _apiclient_ ([api/apiclient]).
    - _exec_ runs a command in a container for apiclient, over a WebSocket to the API
      server; threads on both sides move input, output and the exit code.
    - At boot _storewolf_ ([api/storewolf]) creates the data store and fills in
      defaults, _sundog_ ([api/sundog]) runs the generators of settings that have no
      value, _settings-committer_ ([api/settings-committer]) commits them, and
      _thar-be-settings_ ([api/thar-be-settings]) renders configuration files and
      restarts services, as it does after every later commit.
    - _updog_ ([updater/updog]) chooses an update from the manifest
      ([updater/update_metadata]), writes its images to the inactive partition set
      and switches the boot flags through _signpost_ ([updater/signpost]).
      _thar-be-updates_ ([api/thar-be-updates]) runs updog for the API and keeps a
      status file.
    - After the reboot the _migrator_ ([api/migration/migrator]) brings the data
      store to the new version by running the migrations that updog fetched and
      flipping a chain of links.
    - _whippet_ ([whippet]) compiles the D-Bus policy files for the broker.
    - _netdog_ ([netdog]) turns the network configuration of the boot media or the
      kernel command line into files of systemd-networkd and keeps the node's
      address, host name and resolver files; _dogtag_ ([dogtag]) finds host names.
    - _schnauzer_ ([api/schnauzer]) renders templates, with settings fetched from the
      API server and helpers; thar-be-settings uses it for configuration files.
    - Restarted after a change of their settings: _host-containers_ and
      _bootstrap-containers_ ([api/]), _bootstrap-commands_ and _static-pods_ write
      files and handle systemd's units; _corndog_ ([api/corndog]) sets sysctls and
      the lockdown mode; _thar-be-registries_ ([api/]) configures containerd.
    - _pluto_ ([api/pluto]) is the generator of Kubernetes settings on AWS; it asks the
      metadata service through _imdsclient_ ([imdsclient]).
    - _bloodhound_ ([bloodhound]) checks the host against benchmarks and reports.
      _updata_ ([updater/updog/src/bin/updata.rs]) edits the manifest of a repository.

    ** Files, and the code they model

    - [Prelude]: Rust's [Result], methods on [&mut self], strings; the tactic
      [rinv].  [Numbers]: unsigned integers and their text.  [BTree], [KeyMap],
      [IndexMap]: the standard collections, and [indexmap], as the code uses them.
    - [Key], [DsError], [Json], [Serialization], [Deserialization]:
      [api/datastore/src/key.rs], [error.rs], [lib.rs], [serialization/],
      [deserialization/].
    - [DataStore]: the trait of [lib.rs] (the class [DataStore]), its provided
      methods, and the contract [DataStoreSpec].  [Memory] and [Filesystem]:
      [memory.rs] and [filesystem.rs]; both are instances of the contract.
      [StoreMeta]: the contract on live metadata, which the file system's store keeps.
    - [Generator], [Controller]: [models/src/generator.rs] and
      [api/apiserver/src/server/controller.rs], proved against the contract.
    - [GptPrio], [Signpost]: [updater/signpost/src/gptprio.rs], [guid.rs],
      [set.rs], [state.rs], [main.rs].
    - [ParseDatetime], [UpdateMetadata]: [parse-datetime/src/lib.rs],
      [updater/update_metadata/src/].
    - [Updog]: [updater/updog/src/].  [UpdateStatus]:
      [api/thar-be-updates/src/].
    - [MigratorData], [Migrator]: [api/migration/migrator/src/].
    - [Whippet]: [whippet/src/policy.rs], [dbus_policy.rs] and their composition
      in [main.rs].
    - [Chars], [Bootconfig]: the characters of strings (UTF-8, trimming, lines,
      slices that can panic); [api/prairiedog/src/bootconfig.rs], [initrd.rs].
    - [ApiServer]: the handlers of [api/apiserver/src/server/mod.rs] over any data
      store with transactions ([DataStoreTx]), and the routes to them.
    - [ApiClient]: [api/apiclient/src/] ([lib.rs], [get.rs], [set.rs], [apply.rs],
      [update.rs] and the simple actions) and [api/settings-committer].
    - [Storewolf], [Sundog], [TharBeSettings]: [api/storewolf/src/],
      [api/sundog/src/main.rs], [api/thar-be-settings/src/], each as a whole run.
    - [NetConfig]: [netdog/src/interface_id.rs], [addressing/], [bonding.rs],
      [vlan_id.rs] and [net_config/].  [Networkd]: [networkd/] and the text of
      [systemd-derive].  [Netdog]: [cli/], [dns.rs], [networkd_status.rs] and [dogtag].
    - [Regex], [SchnauzerHelpers], [Schnauzer]: the [regex] crate's matching;
      [api/schnauzer/src/helpers/]; [v2/], [v1.rs] and the two programs.
    - [Bloodhound], [BloodhoundChecks]: [bloodhound/src/] and its checkers in [bin/].
    - [Machine]: the machine that the following programs share.  [HostContainers],
      [BootstrapContainers], [BootstrapCommands], [StaticPods], [Corndog], [Pluto],
      [Registries]: the programs of the same names (thar-be-registries), each as a whole run.
    - [Imdsclient]: [imdsclient/src/lib.rs].
    - [ManifestFile], [Updata]: [update_metadata/src/de.rs], [se.rs] and [updata.rs].
    - [ExecServer], [ExecClient]: the two sides of exec, [apiserver/src/server/exec.rs],
      [exec/] and [apiclient/src/exec.rs].  [Exec]: both connected, as one step relation,
      with invariants; [ExecFlow], [ExecOutput], [ExecSession]: what follows from them.

    Structures are records and enumerations inductive types, with the names of the
    code.  A method that takes [&mut self] is a state-passing function to a new
    state and a [result] ([stres]); a panic that can be reached is an error of
    its own ([Panicked], [SpPanicked]).  A session of exec is a
    step relation whose theorems are proved by induction over its runs.  A run that can
    stop anywhere takes the outcomes of its system calls as a list, and a theorem about all lists is a
    theorem about a failure, or a power cut, at any point.

    ** What the theorems show

    - Settings: keys parse back and keep their shape ([Key]); JSON is flattened to
      exactly its leaves ([Serialization]) and deserialization ends
      ([Deserialization]); both data stores behave as a map per transaction
      ([fs_refines_map]), with the outcome of the file-system commit and of every
      conflict between nested keys ([fs_commit_outcome], [nested_keys_conflict],
      [set_then_unset]); a commit never weakens a strong setting in
      either store ([commit_never_weakens]) and in memory makes exactly the
      transaction live ([commit_makes_live]).
    - Updates: a sequence of signpost commands never leaves a host without a
      partition set that boots ([never_unbootable], [signpost_commands_refine]);
      neither does an updog run, wherever it stops ([update_run_safe]); the chosen
      update is the right one ([update_required_best]); the status file stays
      consistent ([status_file_consistent]); the wave of a host's seed decides when an
      update is ready, which it then stays ([update_ready_monotone]).
    - Migrations: the search follows the manifest and ends
      ([find_migrations_chain], [find_migrations_terminates]); updog fetches what
      the migrator needs ([retrieve_covers_migrator]); a run of the migrator never
      loses data ([run_never_loses_data], [flip_is_atomic],
      [copy_keeps_settings]).
    - Policies: the compiled D-Bus policy decides as the last rule of the files
      ([connect_verdict_is_last_rule], [user_rules_come_first]).
    - Boot settings: the boot configuration written to disk reads back as the same
      settings ([boot_config_roundtrip], [initrd_read_back]), its parser does not
      panic on ASCII text ([parse_never_panics]) and the host reboots exactly when
      the settings changed ([reboot_exactly_on_change]).
    - Requests: every request has exactly its effect on the data store and
      transactions do not affect each other ([request_has_effect],
      [requests_isolated]); the client merges answers as stated
      ([get_prefixes_settings]), applies several inputs in one transaction
      ([apply_one_transaction]) and waits for its own update ([wait_request_confirmed]).
    - Boot: storewolf adds the missing defaults and nothing else
      ([storewolf_run_fills_defaults], [create_new_datastore_atomic]); sundog sends
      only outputs of generators that succeeded ([sundog_run_sound]);
      thar-be-settings writes before it restarts and stops at the first failure
      ([tbs_run_ordered], [affected_services_spec]).
    - Network: every interface of the configuration gets its files, distinct and with
      the links to its bond and VLANs ([network_files_spec], [network_files_distinct]),
      whose lines are exactly those of its sections ([unit_file_lines]); the commands replace state files
      atomically ([commit_atomic], [generate_net_config_writes]).
    - Templates: a template sees only the settings of the extensions it requires
      ([template_sees_only_required]); a template's requirements parse back
      ([requirement_roundtrip]); reserved processors follow their rule ([kube_cpu_exact]).
    - Reports: the counts and verdict of a report are those of its checks
      ([report_correct]) and a run reports each checker once
      ([bloodhound_reports_checks]).
    - Programs on the machine: units, files and directories after a run are what the
      settings say ([host_containers_run]; [static_pods_sync], as far as writes are
      complete), in order ([bootstrap_commands_ordered]) and at once
      ([registries_replaced_at_once], for hosts that are single path components); the
      lockdown mode is only raised ([lockdown_only_raised]).
    - AWS: requests follow the protocol of sessions ([fetch_imds_session]); pluto sets
      only what has no value in the API's answer ([pluto_fills_missing]).
    - Manifest files: they are read back as written ([manifest_roundtrip]) and each
      command of updata changes just its entries ([updata_edits]); a write that fails may
      leave a part of the new text.
    - Exec: however the threads interleave, input arrives in order within its
      capacity and nobody waits for nothing ([exec_input_flow]); the exit code comes after
      all the output ([exec_code_after_output]).  One message more than fits may be
      sent ([obedient_client_refused]).

    ** Fuel and bounds

    Recursion that is not structural has fuel, and running out is an error that no
    other branch returns.  Deserialization has [FUEL], one more than a key name
    can nest, and never runs out ([from_map_terminates]).  The search for
    migrations has one more than the number of entries of the manifest
    ([migration_fuel]) and runs out only when an entry does not lead upwards
    ([find_migrations_terminates]).  Integers keep their width: the flags of a
    partition are fields of a 64-bit word, offsets and versions are parsed with
    overflow, and the priorities of whippet are 64-bit ([wrap]; its theorems have
    fewer than 2^61 rules).  Repeated trimming has the length of the text, and so has a
    repetition in a regular expression, whose rounds each consume a character
    ([Regex]).  The share of processors that a template reserves is checked
    against its rule for fewer than [MAX_CPUS] of them.

    ** Parameters

    What is not the program's code is a class or an argument, with the documented
    behaviour that the code relies on: the iteration order of hash maps
    ([HashOrder]), [serde_json]'s text ([SerdeJson]), the settings model
    ([SettingsModel]), the partition table and bit fields ([Gpt], [BitField]),
    version text and order ([VersionText], [SemVer], [TotalOrd]), the unstable
    sort ([UnstableSort]), chrono's division ([TimeDiv]), percent encoding
    ([PercentEncoding]), the types of boot settings ([BootTypes]), of defaults
    ([TomlTypes]) and of requests ([ApiTypes]), floating-point text ([Float64]), the
    text of addresses and the order of VLANs ([IpText], [VlanOrder]), [net.toml]
    ([NetToml]), the directories and files that programs touch ([StoreDir], [Host]),
    parsers of TOML, [getpwnam], TUF repositories, [lz4], and the outcomes of system
    calls.  For the programs on one machine ([Machine.machine]: files, directories and
    the commands that ran) whether an operation succeeds, and how much of its text a failed
    write leaves, is [MachineOps], other crates
    are [CtrLib], and the TOML of each configuration is [HostConfig],
    [BootstrapConfig], [CommandsConfig], [PodConfig], [KernelHost], [RegistryToml].
    Schnauzer has the template engine and the parsers of its templates
    ([TemplateSyntax]), other crates and the host of its helpers ([HelperLib],
    [HelperHost]); bloodhound the text of JSON and YAML ([JsonText], [Yaml]) and the
    system it checks ([SystemAccess], [Host]).  The metadata service's answers are
    [Imds], the text of exec's control messages [ExecText], the answers of EKS and EC2 [PlutoHost]; URLs are [UrlLib], the text of a manifest
    [ManifestText] and its clock and TOML [UpdataHost].  The witnesses instantiate them.

    ** Not modelled

    Sockets, processes, D-Bus and HTTP, logging, command-line parsing apart from
    what decides a run, signature checks (in [tough]), SELinux and block devices
    beyond the boot flags.  Of the file system, links, permissions and spurious
    errors in [Filesystem] (errors are in [Updog], [UpdateStatus],
    [Migrator] and [Netdog]).
    [get_os_*], [apply_changes] and [dispatch_update_command] of the controller
    start processes or read release files.  In a [Deserialize] type an optional
    compound is not modelled.  Of apiclient and the API server,
    ephemeral storage, the URI resolvers and the command line are not modelled, nor
    are the JSON output, mounts and crash dumps of prairiedog, and what
    signpost reads from [/sys].
    Not modelled at all: certdog, driverdog, ghostdog, logdog, metricdog, brush, rottweiler,
    early-boot-config, shibaken, cfsignal, xfscli, pciclient, the image verifiers and
    smaller tools, which are system calls, devices, child processes, network requests
    and argument parsing.
    The host containers' Go program, the package definitions and patches are not
    Rust. *)
From stdpp Require Import base list strings gmap.
From Stdlib Require Import Ascii.
From stdpp Require Import options.

(** ** Results: Rust's [Result<A, E>] *)

Inductive result (E A : Type) : Type :=
| Ok (a : A)
| Err (e : E).
Arguments Ok {E A} a.
Arguments Err {E A} e.

Global Instance result_ret {E} : MRet (result E) := λ A a, Ok a.
Global Instance result_bind {E} : MBind (result E) := λ A B f m,
  match m with Ok a => f a | Err e => Err e end.
Global Instance result_fmap {E} : FMap (result E) := λ A B f m,
  match m with Ok a => Ok (f a) | Err e => Err e end.

Global Instance result_eq_dec {E A} `{EqDecision E, EqDecision A} :
  EqDecision (result E A).
Proof. solve_decision. Defined.

(** [snafu]'s [ensure!(b, e)]. *)
Definition ensure {E} (b : bool) (e : E) : result E unit :=
  if b then Ok tt else Err e.

(** [Option::ok_or] and [OptionExt::context]. *)
Definition ok_or {E A} (o : option A) (e : E) : result E A :=
  match o with Some a => Ok a | None => Err e end.

(** [Result::map_err] (and [ResultExt::context], which wraps the source). *)
Definition map_err {E F A} (f : E → F) (r : result E A) : result F A :=
  match r with Ok a => Ok a | Err e => Err (f e) end.

Definition is_ok {E A} (r : result E A) : bool :=
  match r with Ok _ => true | Err _ => false end.

(** [Result::ok]. *)
Definition ok {E A} (r : result E A) : option A :=
  match r with Ok a => Some a | Err _ => None end.

(** ** Methods that take [&mut self] and return a [Result]

    The receiver is threaded through, and an early return with [?] keeps the
    modifications made so far. *)
Definition stres (S E A : Type) : Type := S → S * result E A.

Definition st_ret {S E A} (a : A) : stres S E A := λ s, (s, Ok a).
Definition st_bind {S E A B} (m : stres S E A) (k : A → stres S E B) : stres S E B :=
  λ s, match m s with
       | (s', Ok a) => k a s'
       | (s', Err e) => (s', Err e)
       end.
(** A call through [&self]: the receiver is only read. *)
Definition st_read {S E A} (f : S → result E A) : stres S E A := λ s, (s, f s).
(** A fallible computation that does not touch the receiver. *)
Definition st_lift {S E A} (r : result E A) : stres S E A := λ s, (s, r).
Definition st_map_err {S E F A} (f : E → F) (m : stres S E A) : stres S F A :=
  λ s, let '(s', r) := m s in (s', map_err f r).
(** A [for] loop whose body may return early with an error. *)
Fixpoint st_forM {S E A} (l : list A) (f : A → stres S E unit) : stres S E unit :=
  match l with
  | [] => st_ret tt
  | x :: l => st_bind (f x) (λ _, st_forM l f)
  end.

Declare Scope rust_scope.
Delimit Scope rust_scope with rust.
Notation "'let?' x := m 'in' k" := (mbind (M := result _) (λ x, k) m)
  (at level 10, x pattern, m at level 100, k at level 200,
   format "'[v' 'let?'  x  :=  m  'in' '/' k ']'") : rust_scope.
Notation "'let!' x := m 'in' k" := (st_bind m (λ x, k))
  (at level 10, x pattern, m at level 100, k at level 200,
   format "'[v' 'let!'  x  :=  m  'in' '/' k ']'") : rust_scope.
Open Scope rust_scope.

(** The shape invariant of keys. *)
Create HintDb keys.

(** ** Rust strings

    A [&str] is the sequence of its UTF-8 bytes, an [ascii] each. *)

#[global] Arguments String.append : simpl nomatch.

(** [str::is_empty], [str::len] (in bytes), [str::starts_with]. *)
Definition str_is_empty (s : string) : bool :=
  match s with EmptyString => true | _ => false end.
Abbreviation str_len := String.length.
Abbreviation str_starts_with s p := (String.prefix p s).

Fixpoint str_forallb (f : ascii → bool) (s : string) : bool :=
  match s with EmptyString => true | String c s => f c && str_forallb f s end.
Fixpoint str_existsb (f : ascii → bool) (s : string) : bool :=
  match s with EmptyString => false | String c s => f c || str_existsb f s end.

(** [String::push]. *)
Definition str_push (s : string) (c : ascii) : string := s +:+ String c EmptyString.

(** The suffix from byte [n] on, [&s[n..]]. *)
Fixpoint str_drop (n : nat) (s : string) : string :=
  match n, s with
  | 0, _ => s
  | S n, String _ s => str_drop n s
  | S _, EmptyString => EmptyString
  end.

(** [s.replacen(pat, rep, 1)] for a non-empty pattern. *)
Fixpoint str_replace_first (pat rep s : string) : string :=
  if str_starts_with s pat then rep +:+ str_drop (str_len pat) s
  else match s with
       | EmptyString => EmptyString
       | String c s => String c (str_replace_first pat rep s)
       end.

(** [slice::join]. *)
Fixpoint str_join (sep : string) (l : list string) : string :=
  match l with
  | [] => EmptyString
  | [x] => x
  | x :: l => x +:+ sep +:+ str_join sep l
  end.

(** [str::split(c)]: never empty. *)
Fixpoint str_split (c : ascii) (s : string) : list string :=
  match s with
  | EmptyString => [EmptyString]
  | String a s =>
      if decide (a = c) then EmptyString :: str_split c s
      else match str_split c s with
           | [] => [String a EmptyString]
           | x :: l => String a x :: l
           end
  end.

(** [str::splitn(2, c)]: the part before the first [c] and, when there is
    one, the rest after it. *)
Fixpoint str_splitn2 (c : ascii) (s : string) : string * option string :=
  match s with
  | EmptyString => (EmptyString, None)
  | String a s =>
      if decide (a = c) then (EmptyString, Some s)
      else let '(x, r) := str_splitn2 c s in (String a x, r)
  end.

(** ** Lemmas on results *)

Lemma bind_Ok {E A B} (f : A → result E B) m b :
  mbind (M := result E) f m = Ok b ↔ ∃ a, m = Ok a ∧ f a = Ok b.
Proof. destruct m; naive_solver. Qed.

Lemma ensure_Ok {E} b (e : E) u : ensure b e = Ok u ↔ b = true.
Proof. destruct b, u; naive_solver. Qed.

Lemma ok_or_Ok {E A} (o : option A) (e : E) a : ok_or o e = Ok a ↔ o = Some a.
Proof. destruct o; naive_solver. Qed.

Lemma map_err_Ok {E F A} (f : E → F) (r : result E A) a : map_err f r = Ok a ↔ r = Ok a.
Proof. destruct r; naive_solver. Qed.

Lemma st_bind_Ok {S E A B} (m : stres S E A) (k : A → stres S E B) s s' b :
  st_bind m k s = (s', Ok b) ↔ ∃ s1 a, m s = (s1, Ok a) ∧ k a s1 = (s', Ok b).
Proof. unfold st_bind. destruct (m s) as [? []]; naive_solver. Qed.

Lemma st_bind_inv {S E A B} (m : stres S E A) (k : A → stres S E B) s s' r :
  st_bind m k s = (s', r) →
  (∃ e, m s = (s', Err e) ∧ r = Err e) ∨ (∃ s1 a, m s = (s1, Ok a) ∧ k a s1 = (s', r)).
Proof. unfold st_bind. destruct (m s) as [? []]; naive_solver. Qed.

Lemma st_lift_inv {S E A B} (x : result E A) (k : A → stres S E B) s s' r :
  st_bind (st_lift x) k s = (s', r) →
  (∃ e, x = Err e ∧ s' = s ∧ r = Err e) ∨ (∃ a, x = Ok a ∧ k a s = (s', r)).
Proof. unfold st_bind, st_lift. destruct x; naive_solver. Qed.

Lemma st_lift_Ok {S E A} (r : result E A) (s s' : S) a :
  st_lift r s = (s', Ok a) ↔ s' = s ∧ r = Ok a.
Proof. unfold st_lift. naive_solver. Qed.

Lemma st_map_err_Ok {S E F A} (f : E → F) (m : stres S E A) s s' a :
  st_map_err f m s = (s', Ok a) ↔ m s = (s', Ok a).
Proof.
  unfold st_map_err. destruct (m s) as [s1 [a1|e1]]; cbn; naive_solver.
Qed.

Lemma st_forM_app {S E A} (l1 l2 : list A) (f : A → stres S E unit) s :
  st_forM (l1 ++ l2) f s = st_bind (st_forM l1 f) (λ _, st_forM l2 f) s.
Proof.
  revert s; induction l1 as [|x l1 IH]; intros s; [done|].
  cbn. unfold st_bind in *. destruct (f x s) as [s' [|]]; [apply IH|done].
Qed.

Lemma ok_default {E A} (r : result E A) a : is_ok r = true → r = Ok (default a (ok r)).
Proof. by destruct r. Qed.

(** *** Computations that append to a log *)

(** What is appended satisfies [P], whatever the outcome. *)
Definition st_appends {S E Ev A} (P : Ev → Prop) (m : stres (S * list Ev) E A) : Prop :=
  ∀ s log s' log' r, m (s, log) = ((s', log'), r) → ∃ ext, log' = log ++ ext ∧ Forall P ext.

Lemma st_appends_lift {S E Ev A} (P : Ev → Prop) (r : result E A) : st_appends (S := S) P (st_lift r).
Proof. intros s log s' log' r' [= _ <- _]. exists []. by rewrite app_nil_r. Qed.

Lemma st_appends_ret {S E Ev A} (P : Ev → Prop) (a : A) : st_appends (S := S) (E := E) P (st_ret a).
Proof. exact (st_appends_lift P (Ok a)). Qed.

Lemma st_appends_map_err {S E F Ev A} (P : Ev → Prop) (f : E → F) (m : stres (S * list Ev) E A) :
  st_appends P m → st_appends P (st_map_err f m).
Proof.
  intros Hm s log s' log' r. unfold st_map_err. destruct (m (s, log)) as [[s1 log1] r1] eqn:E1.
  intros [= _ <- _]. by eapply Hm.
Qed.

Lemma st_appends_bind {S E Ev A B} (P : Ev → Prop) (m : stres (S * list Ev) E A) (k : A → stres (S * list Ev) E B) :
  st_appends P m → (∀ a, st_appends P (k a)) → st_appends P (st_bind m k).
Proof.
  intros Hm Hk s log s' log' r [(e & Hr & ->)|([s1 log1] & a & Hr & Hr')]%st_bind_inv; [by eapply Hm|].
  apply Hm in Hr as (ext1 & -> & H1). apply Hk in Hr' as (ext2 & -> & H2). exists (ext1 ++ ext2).
  split; [by rewrite app_assoc|by apply Forall_app_2].
Qed.

Create HintDb appends.
#[export] Hint Resolve st_appends_lift st_appends_ret st_appends_map_err st_appends_bind : appends.

(** What is appended satisfies [P] and goes well, but for its last event when the
    outcome is an error. *)
Definition fail_stop {E Ev A} (ok : Ev → Prop) (ext : list Ev) (r : result E A) : Prop :=
  match r with
  | Ok _ => Forall ok ext
  | Err _ => ∃ l l', ext = l ++ l' ∧ Forall ok l ∧ length l' ≤ 1
  end.
Definition st_fail_stop {S E Ev A} (P ok : Ev → Prop) (m : stres (S * list Ev) E A) : Prop :=
  ∀ s log s' log' r, m (s, log) = ((s', log'), r) → ∃ ext, log' = log ++ ext ∧ Forall P ext ∧ fail_stop ok ext r.

Lemma fail_stop_nil {E Ev A} (ok : Ev → Prop) (r : result E A) : fail_stop ok [] r.
Proof. destruct r; [constructor|]. exists [], []. split; [done|]. split; [constructor|cbn; lia]. Qed.

Lemma fail_stop_last {E Ev A} (ok : Ev → Prop) x (e : E) : fail_stop (A := A) ok [x] (Err e).
Proof. exists [], [x]. split; [done|]. split; [constructor|cbn; lia]. Qed.

Lemma fail_stop_app {E Ev A} (ok : Ev → Prop) ext1 ext2 (r : result E A) :
  Forall ok ext1 → fail_stop ok ext2 r → fail_stop ok (ext1 ++ ext2) r.
Proof.
  intros H1. destruct r; cbn; [by apply Forall_app_2|]. intros (l & l' & -> & Hl & Hl').
  exists (ext1 ++ l), l'. split; [by rewrite app_assoc|]. split; [by apply Forall_app_2|done].
Qed.

Lemma fail_stop_err {E F Ev A B} (ok : Ev → Prop) ext (r : result E A) (e : F) :
  fail_stop ok ext r → fail_stop (A := B) ok ext (Err e).
Proof.
  destruct r; [|done]. intros Hf. exists ext, []. rewrite app_nil_r. split; [done|]. split; [done|cbn; lia].
Qed.

Lemma st_fail_stop_lift {S E Ev A} (P ok : Ev → Prop) (r : result E A) : st_fail_stop (S := S) P ok (st_lift r).
Proof.
  intros s log s' log' r' [= _ <- <-]. exists []. rewrite app_nil_r. split; [done|]. split; [done|apply fail_stop_nil].
Qed.

Lemma st_fail_stop_ret {S E Ev A} (P ok : Ev → Prop) (a : A) : st_fail_stop (S := S) (E := E) P ok (st_ret a).
Proof. exact (st_fail_stop_lift P ok (Ok a)). Qed.

Lemma st_fail_stop_map_err {S E F Ev A} (P ok : Ev → Prop) (f : E → F) (m : stres (S * list Ev) E A) :
  st_fail_stop P ok m → st_fail_stop P ok (st_map_err f m).
Proof.
  intros Hm s log s' log' r. unfold st_map_err. destruct (m (s, log)) as [[s1 log1] r1] eqn:E1.
  intros [= _ <- <-]. apply Hm in E1 as (ext & -> & HP & Hf). exists ext. split; [done|]. split; [done|].
  destruct r1; [done|]. exact Hf.
Qed.

Lemma st_fail_stop_bind {S E Ev A B} (P ok : Ev → Prop) (m : stres (S * list Ev) E A) (k : A → stres (S * list Ev) E B) :
  st_fail_stop P ok m → (∀ a, st_fail_stop P ok (k a)) → st_fail_stop P ok (st_bind m k).
Proof.
  intros Hm Hk s log s' log' r [(e & Hr & ->)|([s1 log1] & a & Hr & Hr')]%st_bind_inv;
    apply Hm in Hr as (ext1 & -> & H1 & Hf1).
  { exists ext1. split; [done|]. split; [done|]. exact Hf1. }
  apply Hk in Hr' as (ext2 & -> & H2 & Hf2). exists (ext1 ++ ext2).
  split; [by rewrite app_assoc|]. split; [by apply Forall_app_2|by apply fail_stop_app].
Qed.

Lemma st_fail_stop_forM {S E Ev A} (P ok : Ev → Prop) (l : list A) (f : A → stres (S * list Ev) E unit) :
  (∀ x, st_fail_stop P ok (f x)) → st_fail_stop P ok (st_forM l f).
Proof.
  intros Hf. induction l as [|x l IH]; cbn [st_forM]; [apply st_fail_stop_ret|].
  by apply st_fail_stop_bind.
Qed.

#[export] Hint Resolve st_fail_stop_lift st_fail_stop_ret st_fail_stop_map_err st_fail_stop_bind
  st_fail_stop_forM : appends.

(** A loop all of whose bodies succeed is a fold over the receiver. *)
Lemma st_forM_fold {S E A} (g : S → A → S) (l : list A) (f : A → stres S E unit) s :
  (∀ x s, f x s = (g s x, Ok tt)) →
  st_forM l f s = (fold_left g l s, Ok tt).
Proof.
  intros Hf. revert s; induction l as [|x l IH]; intros s; [done|].
  cbn. unfold st_bind. rewrite Hf. apply IH.
Qed.

(** Case analysis on the success of a chain of [let?]. *)
Ltac rinv :=
  repeat match goal with
  | H : mbind (M := result _) _ _ = Ok _ |- _ =>
      apply bind_Ok in H; destruct H as (?&?&H)
  | H : ensure _ _ = Ok _ |- _ => apply ensure_Ok in H
  | H : ok_or _ _ = Ok _ |- _ => apply ok_or_Ok in H
  | H : map_err _ _ = Ok _ |- _ => apply map_err_Ok in H
  | H : Ok _ = Ok _ |- _ => injection H; clear H; intros
  | H : Ok _ = Err _ |- _ => discriminate H
  | H : Err _ = Ok _ |- _ => discriminate H
  | H : st_bind _ _ _ = (_, Ok _) |- _ =>
      apply st_bind_Ok in H; destruct H as (?&?&?&H)
  end; simplify_eq.

(** [rinv] through the lifts of results to methods. *)
Ltac sinv :=
  repeat (rinv; try match goal with
  | H : st_lift _ _ = (_, Ok _) |- _ => apply st_lift_Ok in H as [-> ?]
  | H : st_read _ _ = (_, Ok _) |- _ => injection H as <- ?
  | H : st_map_err _ _ _ = (_, Ok _) |- _ => apply st_map_err_Ok in H
  end).

(** ** Lemmas on strings *)

Lemma str_app_nil_r s : s +:+ EmptyString = s.
Proof. induction s as [|c s IH]; [done|]. cbn. by f_equal. Qed.

Lemma str_app_assoc s1 s2 s3 : s1 +:+ (s2 +:+ s3) = (s1 +:+ s2) +:+ s3.
Proof. induction s1 as [|c s IH]; [done|]. cbn. by f_equal. Qed.

Lemma str_app_cons c s1 s2 : String c s1 +:+ s2 = String c (s1 +:+ s2).
Proof. done. Qed.

Lemma str_app_nil_l s : EmptyString +:+ s = s.
Proof. done. Qed.

Lemma str_len_app s1 s2 : str_len (s1 +:+ s2) = str_len s1 + str_len s2.
Proof. induction s1 as [|c s IH]; [done|]. cbn. by f_equal. Qed.

Lemma str_push_app s c t : str_push s c +:+ t = s +:+ String c t.
Proof. unfold str_push. by rewrite <-str_app_assoc. Qed.

Lemma str_drop_app s t : str_drop (str_len s) (s +:+ t) = t.
Proof. by induction s. Qed.

Lemma str_forallb_app f s t : str_forallb f (s +:+ t) = str_forallb f s && str_forallb f t.
Proof. induction s as [|c s IH]; [done|]. cbn. by rewrite IH, andb_assoc. Qed.

Lemma str_existsb_app f s t : str_existsb f (s +:+ t) = str_existsb f s || str_existsb f t.
Proof. induction s as [|c s IH]; [done|]. cbn. by rewrite IH, orb_assoc. Qed.

Lemma str_app_inj_l s t1 t2 : s +:+ t1 = s +:+ t2 → t1 = t2.
Proof. induction s; cbn; naive_solver. Qed.

Lemma str_starts_with_spec s p : str_starts_with s p = true ↔ ∃ t, s = p +:+ t.
Proof.
  revert s. induction p as [|a p IH]; intros s.
  { split; [by exists s|by destruct s]. }
  destruct s as [|b s]; cbn; [naive_solver|].
  destruct (ascii_dec a b) as [->|]; [rewrite IH|]; naive_solver.
Qed.

Lemma str_starts_with_app p t : str_starts_with (p +:+ t) p = true.
Proof. apply str_starts_with_spec. eauto. Qed.

Lemma str_replace_first_starts pat rep s :
  str_starts_with s pat = true →
  str_replace_first pat rep s = rep +:+ str_drop (str_len pat) s.
Proof.
  intros H. destruct s; unfold str_replace_first; fold str_replace_first; by rewrite H.
Qed.

Lemma str_replace_first_prefix pat rep t :
  str_replace_first pat rep (pat +:+ t) = rep +:+ t.
Proof. by rewrite str_replace_first_starts, str_drop_app by apply str_starts_with_app. Qed.

Lemma str_join_cons sep x y l :
  str_join sep (x :: y :: l) = x +:+ sep +:+ str_join sep (y :: l).
Proof. done. Qed.

Lemma str_join_app sep x l1 l2 :
  l2 ≠ [] → str_join sep ((x :: l1) ++ l2) = str_join sep (x :: l1) +:+ sep +:+ str_join sep l2.
Proof.
  intros Hl2. revert x. induction l1 as [|y l1 IH]; intros x.
  - cbn [app]. by destruct l2.
  - cbn [app] in *. rewrite !str_join_cons, IH. by rewrite !str_app_assoc.
Qed.

(** *** Splitting and joining *)

(** The string does not contain the character. *)
Definition no_char (c : ascii) (s : string) : Prop := str_existsb (λ a, bool_decide (a = c)) s = false.

#[global] Instance no_char_dec c s : Decision (no_char c s).
Proof. unfold no_char. solve_decision. Defined.

Lemma str_split_ne c s : str_split c s ≠ [].
Proof. destruct s; cbn; [done|]. case_decide; [done|]. by destruct (str_split c s). Qed.

Lemma str_split_sep c a b : str_split c (a +:+ String c b) = str_split c a ++ str_split c b.
Proof.
  induction a as [|x a IH]; cbn.
  - by rewrite decide_True.
  - rewrite IH. case_decide; [done|]. pose proof (str_split_ne c a). by destruct (str_split c a).
Qed.

Lemma str_split_none c s : no_char c s → str_split c s = [s].
Proof.
  unfold no_char. induction s as [|x s IH]; cbn; [done|]. rewrite orb_false_iff, bool_decide_eq_false.
  intros [Hx Hs]. by rewrite decide_False, IH.
Qed.

Lemma str_split_join c l :
  l ≠ [] → Forall (no_char c) l → str_split c (str_join (String c EmptyString) l) = l.
Proof.
  intros Hne Hl. destruct l as [|x l]; [done|]. clear Hne.
  revert x Hl. induction l as [|y l IH]; intros x Hl; apply Forall_cons in Hl as [Hx Hl].
  - by apply str_split_none.
  - rewrite str_join_cons. change (String c EmptyString +:+ ?s) with (String c s).
    rewrite str_split_sep, str_split_none, IH by done. done.
Qed.

Lemma str_splitn2_no_char c s : no_char c s → str_splitn2 c s = (s, None).
Proof.
  unfold no_char. induction s as [|x s IH]; cbn; [done|]. rewrite orb_false_iff, bool_decide_eq_false.
  intros [Hx Hs]. by rewrite decide_False, IH.
Qed.

Lemma str_splitn2_char c s t : no_char c s → str_splitn2 c (s +:+ String c t) = (s, Some t).
Proof.
  unfold no_char. induction s as [|x s IH]; cbn; [by rewrite decide_True|].
  rewrite orb_false_iff, bool_decide_eq_false. intros [Hx Hs]. by rewrite decide_False, IH.
Qed.

Lemma str_splitn2_has c s : ¬ no_char c s → ∃ x t, str_splitn2 c s = (x, Some t).
Proof.
  unfold no_char. induction s as [|x s IH]; cbn; [done|]. case_decide; [by eexists _, _|].
  rewrite bool_decide_false by done. intros (y & t & ->)%IH. by eexists _, _.
Qed.

Lemma str_splitn2_Some c s x t :
  str_splitn2 c s = (x, Some t) → s = x +:+ String c t ∧ no_char c x.
Proof.
  revert x. induction s as [|a s IH]; intros x; cbn [str_splitn2]; [done|]. case_decide as Ha.
  { intros [= <- <-]. by subst. }
  destruct (str_splitn2 c s) as [y r]. intros [= <- ->]. destruct (IH y eq_refl) as [-> Hy].
  split; [done|]. unfold no_char in *. cbn. by rewrite bool_decide_eq_false_2.
Qed.

Lemma no_char_app c s t : no_char c (s +:+ t) ↔ no_char c s ∧ no_char c t.
Proof. unfold no_char. by rewrite str_existsb_app, orb_false_iff. Qed.

Lemma no_char_join c sep l :
  no_char c sep → Forall (no_char c) l → no_char c (str_join sep l).
Proof.
  intros Hs. induction 1 as [|x l Hx Hl IH]; [done|]. destruct l; [done|].
  rewrite str_join_cons, !no_char_app. done.
Qed.

Lemma join_no_char c sep l : no_char c (str_join sep l) → Forall (no_char c) l.
Proof.
  induction l as [|x l IH]; intros Hj; [constructor|]. destruct l as [|y l].
  - by repeat constructor.
  - rewrite str_join_cons, !no_char_app in Hj. destruct Hj as (Hx & _ & Hl). constructor; auto.
Qed.
