(* ===== verification/DsError.v ===== *)
(** * The data store's error type ([sources/api/datastore/src/error.rs])

    The constructors are the variants of [Error].  A variant's [source] error
    from another crate carries no information the code branches on and is left
    out; a [std::io::Error] is kept as its kind, which the code does branch on.
    The text of an [InvalidKey] message is kept as the case it reports.  One
    more constructor, [Panicked], stands for a Rust panic. *)
From S2P Require Import Prelude.
From stdpp Require Import base list strings gmap.
From stdpp Require Import options.

(** The [io::ErrorKind]s (and [raw_os_error() == Some(39)], "directory not
    empty") that the file-system operations of the data store can meet. *)
Inductive io_error :=
| NotFound
| NotADirectory
| IsADirectory
| AlreadyExists
| DirectoryNotEmpty.

Global Instance io_error_eq_dec : EqDecision io_error.
Proof. solve_decision. Defined.

(** A [PathBuf], as the list of its components. *)
Abbreviation path := (list string) (only parsing).

Inductive invalid_key_msg :=
| MsgCannotBeEmpty            (* "cannot be empty" *)
| MsgEmptySegment             (* "empty key segment" *)
| MsgInvalidCharacter         (* "invalid character in key: '{c}'" *)
| MsgUnbalancedQuotes         (* "unbalanced quotes" *)
| MsgEndsWithSeparator        (* "ends with separator" *)
| MsgSegmentInvalidCharacter  (* "Segment '{segment}' contains invalid character '{chr}'" *)
| MsgDataNoSegment            (* "data keys must have at least one segment" *)
| MsgMetaOneSegment           (* "meta keys may only have one segment" *)
| MsgStripMatchesKey.         (* "strip_prefix of '{prefix}' matches key" *)

Inductive error :=
| Serialization (given : string)
| SerializeScalar (given : string)
| PathTraversal (name : string)
| KeyRead (key : string) (source : io_error)
| DeleteKey (at_path : path) (source : io_error)
| Io (at_path : path) (source : io_error)
| NonUnicodeFile (file ctx : string)
| Internal (msg : string)
| Corruption (msg : string) (at_path : path)
| PathError
| ListKeys
| ListedKeyNotPresent (key : string)
| ListedMetaNotPresent (meta_key data_key : string)
| InvalidKey (name : string) (msg : invalid_key_msg)
| KeyTooLong (name : string) (max : nat)
| Serialize
| CheckConstraintExecution
| ConstraintCheckReject (err : string)
(** Not a variant of [Error]: a Rust panic, which unwinds through the callers. *)
| Panicked.

Global Instance invalid_key_msg_eq_dec : EqDecision invalid_key_msg.
Proof. solve_decision. Defined.
Global Instance error_eq_dec : EqDecision error.
Proof. solve_decision. Defined.
