(* ===== verification/Key.v ===== *)
(** * Data store keys ([sources/api/datastore/src/key.rs])

    A key is a dotted name together with the list of segments the name stands
    for; a segment that contains the separator is quoted in the name.  The
    segments are what keys are compared by.

    This file holds the key operations and their properties: parsing inverts
    encoding, the shape invariant of keys, its preservation by every operation,
    and the relation between the operations on names and on segments. *)
From S2P Require Import Prelude DsError.
From stdpp Require Import base list strings gmap.
From Stdlib Require Import Ascii.
From stdpp Require Import options.

(** ** Definitions *)

Definition KEY_SEPARATOR : ascii := ".".
Definition KEY_SEPARATOR_STR : string := ".".
Definition MAX_KEY_NAME_LENGTH : nat := 255.
Definition QUOTE : ascii := "034".

Inductive KeyType := Data | Meta.

Global Instance KeyType_eq_dec : EqDecision KeyType.
Proof. solve_decision. Defined.

Record Key := mk_key { name : string; segments : list string }.

Global Instance Key_eq_dec : EqDecision Key.
Proof. solve_decision. Defined.

(** [impl PartialEq for Key]: only the segments are compared. *)
Definition key_eqb (k1 k2 : Key) : bool := bool_decide (segments k1 = segments k2).

Definition in_range (lo hi c : ascii) : bool :=
  (nat_of_ascii lo <=? nat_of_ascii c)%nat && (nat_of_ascii c <=? nat_of_ascii hi)%nat.

Definition valid_character (c : ascii) : bool :=
  in_range "a" "z" c || in_range "A" "Z" c || in_range "0" "9" c
  || bool_decide (c = "_"%char) || bool_decide (c = "-"%char) || bool_decide (c = "/"%char).

(** The loop of [parse_name_segments] over the characters of [name]; the
    accumulators are the code's [segments], [segment] and [in_quotes]. *)
Fixpoint parse_loop (name : string) (cs : string)
    (segments : list string) (segment : string) (in_quotes : bool) :
    result error (list string * string * bool) :=
  match cs with
  | EmptyString => Ok (segments, segment, in_quotes)
  | String c cs =>
      if decide (c = QUOTE) then parse_loop name cs segments segment (negb in_quotes)
      else if decide (c = KEY_SEPARATOR) then
        if in_quotes then parse_loop name cs segments (str_push segment c) in_quotes
        else
          let? _ := ensure (negb (str_is_empty segment)) (InvalidKey name MsgEmptySegment) in
          parse_loop name cs (segments ++ [segment]) EmptyString in_quotes
      else if valid_character c then parse_loop name cs segments (str_push segment c) in_quotes
      else Err (InvalidKey name MsgInvalidCharacter)
  end.

Definition parse_name_segments (name : string) : result error (list string) :=
  let? _ := ensure (negb (str_is_empty name)) (InvalidKey name MsgCannotBeEmpty) in
  let? (segments, segment, in_quotes) := parse_loop name name [] EmptyString false in
  let? _ := ensure (negb in_quotes) (InvalidKey name MsgUnbalancedQuotes) in
  let? _ := ensure (negb (str_is_empty segment)) (InvalidKey name MsgEndsWithSeparator) in
  Ok (segments ++ [segment]).

(** The characters [encode_name_segments] accepts in a segment. *)
Definition segment_character (c : ascii) : bool :=
  bool_decide (c = KEY_SEPARATOR) || valid_character c.

Definition quote_segment (segment : string) : string :=
  if str_existsb (λ c, bool_decide (c = KEY_SEPARATOR)) segment
  then String QUOTE EmptyString +:+ segment +:+ String QUOTE EmptyString
  else segment.

(** The loop of [encode_name_segments]; [all] names the key in the error. *)
Fixpoint encode_loop (all : list string) (segs : list string) : result error (list string) :=
  match segs with
  | [] => Ok []
  | segment :: segs =>
      let? _ := ensure (str_forallb segment_character segment)
                  (InvalidKey (str_join "." all) MsgSegmentInvalidCharacter) in
      let? outputs := encode_loop all segs in
      Ok (quote_segment segment :: outputs)
  end.

Definition encode_name_segments (segs : list string) : result error string :=
  let? outputs := encode_loop segs segs in
  Ok (str_join KEY_SEPARATOR_STR outputs).

Definition check_key (key_type : KeyType) (name : string) (segs : list string) :
    result error unit :=
  let? _ := ensure (str_len name <=? MAX_KEY_NAME_LENGTH)%nat
              (KeyTooLong name MAX_KEY_NAME_LENGTH) in
  match key_type with
  | Data => ensure (negb (bool_decide (segs = []))) (InvalidKey name MsgDataNoSegment)
  | Meta => ensure (length segs =? 1)%nat (InvalidKey name MsgMetaOneSegment)
  end.

Definition key_new (key_type : KeyType) (name : string) : result error Key :=
  let? segs := parse_name_segments name in
  let? _ := check_key key_type name segs in
  Ok (mk_key name segs).

Definition from_segments (key_type : KeyType) (segs : list string) : result error Key :=
  let? name := encode_name_segments segs in
  let? _ := check_key key_type name segs in
  Ok (mk_key name segs).

Definition strip_prefix (self : Key) (prefix : string) : result error Key :=
  let? _ := ensure (negb (bool_decide (prefix = name self)))
              (InvalidKey EmptyString MsgStripMatchesKey) in
  let strip := prefix +:+ "." in
  let new_name :=
    if str_starts_with (name self) strip then str_replace_first strip EmptyString (name self)
    else name self in
  key_new Data new_name.

(** The comparison loop of [strip_prefix_segments]: does every given segment
    match ours? *)
Fixpoint segments_match (ours theirs : list string) {struct theirs} : bool :=
  match theirs with
  | [] => true
  | t :: theirs =>
      match ours with
      | [] => false
      | o :: ours => if decide (o = t) then segments_match ours theirs else false
      end
  end.

Definition strip_prefix_segments (self : Key) (prefix : list string) : result error Key :=
  if segments_match (segments self) prefix
  then from_segments Data (drop (length prefix) (segments self))
  else Ok self.

Definition append_segments (self : Key) (segs : list string) : result error Key :=
  from_segments Data (segments self ++ segs).

Definition append_key (self key : Key) : result error Key :=
  from_segments Data (segments self ++ segments key).

Definition starts_with_segments (self : Key) (segs : list string) : bool :=
  if (length (segments self) <? length segs)%nat then false
  else forallb (λ '(a, b), bool_decide (a = b))
         (zip (take (length segs) (segments self)) segs).

(** ** Characters and quoting *)

(** The characters of every segment are acceptable. *)
Definition segment_ok (s : string) : Prop := str_forallb segment_character s = true.
Definition has_separator (s : string) : bool :=
  str_existsb (λ c, bool_decide (c = KEY_SEPARATOR)) s.
(** A segment made of valid characters only: it needs no quotes. *)
Definition plain (s : string) : Prop := str_forallb valid_character s = true.

Global Instance segment_ok_dec s : Decision (segment_ok s).
Proof. apply bool_eq_dec. Defined.
Global Instance plain_dec s : Decision (plain s).
Proof. apply bool_eq_dec. Defined.

Lemma valid_character_not_special c :
  valid_character c = true → c ≠ QUOTE ∧ c ≠ KEY_SEPARATOR.
Proof. intros H. split; intros ->; vm_compute in H; discriminate. Qed.

Lemma segment_character_not_quote c : segment_character c = true → c ≠ QUOTE.
Proof. intros H ->. vm_compute in H. discriminate. Qed.

Lemma plain_iff s : plain s ↔ segment_ok s ∧ has_separator s = false.
Proof.
  unfold plain, segment_ok, has_separator, segment_character.
  induction s as [|c s IH]; [done|]. cbn.
  rewrite !andb_true_iff, orb_false_iff, orb_true_iff, bool_decide_eq_true,
    bool_decide_eq_false, IH.
  split; [|naive_solver]. intros (Hc&?&?). apply valid_character_not_special in Hc as Hs.
  naive_solver.
Qed.

Lemma quote_segment_plain s : plain s → quote_segment s = s.
Proof. intros [_ H]%plain_iff. unfold quote_segment. by fold (has_separator s); rewrite H. Qed.

Lemma quote_segment_len s :
  str_len (quote_segment s) = str_len s + if has_separator s then 2 else 0.
Proof.
  unfold quote_segment, has_separator. destruct (str_existsb _ _); [|lia].
  rewrite !str_len_app. cbn. lia.
Qed.

(** ** The parsing loop *)

Lemma parse_loop_app n s1 s2 segs seg q :
  parse_loop n (s1 +:+ s2) segs seg q =
  (let? (segs', seg', q') := parse_loop n s1 segs seg q in
   parse_loop n s2 segs' seg' q').
Proof.
  revert segs seg q. induction s1 as [|c s1 IH]; intros segs seg q; [done|].
  cbn. repeat case_decide; [apply IH| |by destruct (valid_character c); [apply IH|]].
  destruct q; [apply IH|]. destruct (str_is_empty seg); [done|]. apply IH.
Qed.

Lemma parse_loop_plain n s segs seg q :
  plain s → parse_loop n s segs seg q = Ok (segs, seg +:+ s, q).
Proof.
  unfold plain. revert seg. induction s as [|c s IH]; intros seg; cbn.
  { intros _. by rewrite str_app_nil_r. }
  intros [Hc Hs]%andb_true_iff. apply valid_character_not_special in Hc as Hn.
  rewrite !decide_False, Hc, IH, str_push_app by naive_solver. done.
Qed.

Lemma parse_loop_in_quotes n s segs seg :
  segment_ok s → parse_loop n s segs seg true = Ok (segs, seg +:+ s, true).
Proof.
  unfold segment_ok. revert seg. induction s as [|c s IH]; intros seg; cbn.
  { intros _. by rewrite str_app_nil_r. }
  intros [Hc Hs]%andb_true_iff. apply segment_character_not_quote in Hc as Hq.
  rewrite decide_False by done. rewrite IH, str_push_app by done.
  unfold segment_character in Hc. apply orb_true_iff in Hc as [Hc|Hc].
  - apply bool_decide_eq_true in Hc. by rewrite decide_True.
  - rewrite Hc. by case_decide.
Qed.

Lemma parse_loop_quoted n s segs :
  segment_ok s → parse_loop n (quote_segment s) segs EmptyString false = Ok (segs, s, false).
Proof.
  intros Hs. unfold quote_segment. fold (has_separator s).
  destruct (has_separator s) eqn:Hd.
  - cbn [String.append parse_loop]. rewrite decide_True by done. cbn [negb].
    rewrite parse_loop_app, parse_loop_in_quotes by done. done.
  - by rewrite parse_loop_plain by by apply plain_iff.
Qed.

Lemma parse_loop_join n x l segs :
  Forall segment_ok (x :: l) → Forall (λ s, s ≠ EmptyString) (x :: l) →
  ∃ init s, x :: l = init ++ [s] ∧
    parse_loop n (str_join KEY_SEPARATOR_STR (quote_segment <$> x :: l)) segs EmptyString false
    = Ok (segs ++ init, s, false).
Proof.
  revert x segs. induction l as [|y l IH]; intros x segs Hok Hne.
  - exists [], x. split; [done|]. cbn. rewrite app_nil_r.
    apply parse_loop_quoted. by apply Forall_cons_1 in Hok as [].
  - apply Forall_cons_1 in Hok as [Hx Hok], Hne as [Hnx Hne].
    destruct (IH y (segs ++ [x]) Hok Hne) as (init & s & Hs & Hp).
    exists (x :: init), s. rewrite Hs. split; [done|]. rewrite <-Hs.
    rewrite !fmap_cons, str_join_cons, <-fmap_cons, parse_loop_app, parse_loop_quoted by done.
    cbn -[str_join fmap]. destruct x; [done|]. cbn -[str_join fmap].
    by rewrite Hp, <-app_assoc.
Qed.

Lemma encode_loop_Ok all segs outs :
  encode_loop all segs = Ok outs ↔ Forall segment_ok segs ∧ outs = quote_segment <$> segs.
Proof.
  revert outs. induction segs as [|s segs IH]; intros outs; cbn.
  { split; [naive_solver|]. by intros [_ ->]. }
  unfold ensure. destruct (str_forallb segment_character s) eqn:Hs; cbn.
  - rewrite bind_Ok. split.
    + intros (o & [Hok ->]%IH & [= <-]). by split; [constructor|].
    + intros [[_ Hok]%Forall_cons_1 ->]. exists (quote_segment <$> segs). by rewrite IH.
  - split; [done|]. intros [[H _]%Forall_cons_1 _]. unfold segment_ok in H. congruence.
Qed.

Lemma encode_name_segments_Ok segs n :
  encode_name_segments segs = Ok n ↔
  Forall segment_ok segs ∧ n = str_join KEY_SEPARATOR_STR (quote_segment <$> segs).
Proof.
  unfold encode_name_segments. rewrite bind_Ok. split.
  - intros (o & [? ->]%encode_loop_Ok & [= <-]). done.
  - intros [? ->]. eexists. by rewrite encode_loop_Ok.
Qed.

Lemma parse_encode segs n :
  segs ≠ [] → Forall (λ s, s ≠ EmptyString) segs →
  encode_name_segments segs = Ok n → parse_name_segments n = Ok segs.
Proof.
  intros Hnil Hne [Hok ->]%encode_name_segments_Ok.
  destruct segs as [|x l]; [done|].
  destruct (parse_loop_join
    (str_join KEY_SEPARATOR_STR (quote_segment <$> x :: l)) x l [] Hok Hne)
    as (init & s & Hs & Hp).
  unfold parse_name_segments. rewrite Hp.
  assert (s ≠ EmptyString) as Hsne.
  { rewrite Forall_forall in Hne. apply Hne. rewrite Hs. set_solver. }
  assert (str_is_empty (str_join KEY_SEPARATOR_STR (quote_segment <$> x :: l)) = false) as ->.
  { apply Forall_cons_1 in Hne as [Hx _]. destruct x as [|c x]; [done|].
    rewrite fmap_cons. unfold quote_segment at 1.
    destruct (str_existsb _ _), l; done. }
  cbn. destruct s; [done|]. cbn. by rewrite <-Hs.
Qed.

(** ** What parsing guarantees

    The quoted form is the shortest name of its segments: a separator inside a
    segment cost the parsed name two quotes as well.  [credit] bounds what the
    name has spent on the segment that is being read. *)
Definition weight (segs : list string) : nat :=
  sum_list_with (λ s, S (str_len (quote_segment s))) segs.
Definition credit (seg : string) (in_quotes : bool) : nat :=
  str_len seg +
  match has_separator seg, in_quotes with
  | true, false => 2
  | true, true | false, true => 1
  | false, false => 0
  end.

Lemma credit_push seg c q :
  (c = KEY_SEPARATOR → q = true) → credit (str_push seg c) q ≤ S (credit seg q).
Proof.
  intros Hc. unfold credit, str_push, has_separator.
  rewrite str_len_app, str_existsb_app. cbn. rewrite orb_false_r.
  case_bool_decide; [rewrite Hc by done|]; destruct (str_existsb _ seg), q; cbn; lia.
Qed.

Lemma segment_ok_push seg c :
  segment_ok seg → segment_character c = true → segment_ok (str_push seg c).
Proof.
  unfold segment_ok, str_push. intros Hs Hc. rewrite str_forallb_app, Hs. cbn. by rewrite Hc.
Qed.

Record loop_inv (segs : list string) (seg : string) : Prop := {
  li_ok : Forall segment_ok segs;
  li_ne : Forall (λ s, s ≠ EmptyString) segs;
  li_seg : segment_ok seg }.

Lemma loop_inv_push segs seg c :
  loop_inv segs seg → segment_character c = true → loop_inv segs (str_push seg c).
Proof. intros [] Hc. split; eauto using segment_ok_push. Qed.

Lemma loop_inv_next segs seg :
  loop_inv segs seg → seg ≠ EmptyString → loop_inv (segs ++ [seg]) EmptyString.
Proof. intros [] ?. split; [apply Forall_app..|done]; eauto. Qed.

Lemma parse_loop_inv n cs segs seg q segs' seg' q' :
  parse_loop n cs segs seg q = Ok (segs', seg', q') → loop_inv segs seg →
  loop_inv segs' seg' ∧
  weight segs' + credit seg' q' ≤ weight segs + credit seg q + str_len cs.
Proof.
  revert segs seg q. induction cs as [|c cs IH]; intros segs seg q; cbn.
  { intros [= <- <- <-] ?. split; [done|lia]. }
  intros H Hinv. repeat case_decide.
  - apply IH in H as [? H]; [|done]. split; [done|].
    revert H. unfold credit. destruct (has_separator seg), q; cbn; lia.
  - destruct q.
    + subst c. apply IH in H as [? H]; [|by apply loop_inv_push]. split; [done|].
      pose proof (credit_push seg KEY_SEPARATOR true). naive_solver lia.
    + rinv. apply IH in H as [? H]; [|apply loop_inv_next; [done|by intros ->]].
      split; [done|]. revert H. unfold weight. rewrite sum_list_with_app. cbn.
      rewrite quote_segment_len. unfold credit. cbn. destruct (has_separator seg); lia.
  - destruct (valid_character c) eqn:Hc; [|done].
    apply IH in H as [? H]; last first.
    { apply loop_inv_push; [done|]. unfold segment_character. by rewrite Hc, orb_true_r. }
    split; [done|]. pose proof (credit_push seg c q). naive_solver lia.
Qed.

Lemma str_join_weight x l :
  S (str_len (str_join KEY_SEPARATOR_STR (quote_segment <$> x :: l))) = weight (x :: l).
Proof.
  revert x. induction l as [|y l IH]; intros x; [unfold weight; cbn; lia|].
  rewrite !fmap_cons, str_join_cons, <-fmap_cons, !str_len_app.
  specialize (IH y). unfold weight in *. cbn in *. lia.
Qed.

(** The segments a successful parse returns are encodable, in a name no longer
    than the one that was parsed. *)
Lemma parse_name_segments_spec n segs :
  parse_name_segments n = Ok segs →
  segs ≠ [] ∧ Forall segment_ok segs ∧ Forall (λ s, s ≠ EmptyString) segs ∧
  str_len (str_join KEY_SEPARATOR_STR (quote_segment <$> segs)) ≤ str_len n.
Proof.
  unfold parse_name_segments. intros H. rinv.
  destruct x0 as [[segs0 seg] q]. rinv. destruct q; [done|].
  match goal with H : parse_loop _ _ _ _ _ = _ |- _ => rename H into Hp end.
  apply parse_loop_inv in Hp as [[] Hw]; [|by split; constructor].
  assert (seg ≠ EmptyString) by by intros ->.
  destruct (segs0 ++ [seg]) as [|y l] eqn:E; [by destruct segs0|].
  rewrite <-E. split; [by intros [_ ?]%app_nil|]. rewrite !Forall_app, !Forall_singleton.
  split_and!; [done..|]. rewrite E.
  apply le_S_n. rewrite str_join_weight, <-E. unfold weight in *.
  rewrite sum_list_with_app. cbn in *. rewrite quote_segment_len. unfold credit in Hw.
  destruct (has_separator seg); lia.
Qed.

(** ** The invariant of keys *)

(** The name [encode_name_segments] gives to acceptable segments. *)
Definition encoded (segs : list string) : string :=
  str_join KEY_SEPARATOR_STR (quote_segment <$> segs).

Record key_wf (k : Key) : Prop := {
  wf_ne : segments k ≠ [];
  wf_ok : Forall segment_ok (segments k);
  wf_len : str_len (encoded (segments k)) ≤ MAX_KEY_NAME_LENGTH;
  wf_name : parse_name_segments (name k) = Ok (segments k) ∨ name k = encoded (segments k);
  wf_name_len : str_len (name k) ≤ MAX_KEY_NAME_LENGTH }.

Lemma check_key_Ok t n segs u :
  check_key t n segs = Ok u ↔
  str_len n ≤ MAX_KEY_NAME_LENGTH ∧ match t with Data => segs ≠ [] | Meta => length segs = 1 end.
Proof.
  unfold check_key, ensure. destruct u, (Nat.leb_spec (str_len n) MAX_KEY_NAME_LENGTH); cbn.
  - destruct t; [case_bool_decide|destruct (Nat.eqb_spec (length segs) 1)]; naive_solver.
  - split; [done|lia].
Qed.

Lemma key_new_Ok t n k :
  key_new t n = Ok k ↔
  parse_name_segments n = Ok (segments k) ∧ name k = n ∧
  check_key t n (segments k) = Ok tt.
Proof.
  unfold key_new. split.
  - intros H. rinv. by destruct x0.
  - destruct k as [n' segs]; cbn. by intros (-> & -> & Hc); cbn; rewrite Hc.
Qed.

Lemma from_segments_Ok t segs k :
  from_segments t segs = Ok k ↔
  Forall segment_ok segs ∧ k = mk_key (encoded segs) segs ∧
  check_key t (encoded segs) segs = Ok tt.
Proof.
  unfold from_segments. split.
  - intros H. rinv. destruct x0.
    match goal with H : encode_name_segments _ = _ |- _ => rename H into He end.
    by apply encode_name_segments_Ok in He as [? ->].
  - intros (Hok & -> & Hc).
    rewrite (proj2 (encode_name_segments_Ok segs (encoded segs))) by done. cbn. by rewrite Hc.
Qed.

Lemma from_segments_Data segs k :
  from_segments Data segs = Ok k ↔
  segs ≠ [] ∧ Forall segment_ok segs ∧ str_len (encoded segs) ≤ MAX_KEY_NAME_LENGTH ∧
  k = mk_key (encoded segs) segs.
Proof. rewrite from_segments_Ok, check_key_Ok. naive_solver. Qed.

Lemma from_segments_Data_ok segs :
  segs ≠ [] → Forall segment_ok segs → str_len (encoded segs) ≤ MAX_KEY_NAME_LENGTH →
  from_segments Data segs = Ok (mk_key (encoded segs) segs).
Proof. intros. by apply from_segments_Data. Qed.

Lemma check_key_ne t n segs u : check_key t n segs = Ok u → segs ≠ [].
Proof. rewrite check_key_Ok. destruct t; [naive_solver|]. by intros [? ?] ->. Qed.

Lemma key_new_wf t n k : key_new t n = Ok k → key_wf k.
Proof.
  intros (Hp & <- & Hc)%key_new_Ok.
  apply check_key_Ok in Hc as [Hl Hc].
  apply parse_name_segments_spec in Hp as Hs. destruct Hs as (? & ? & ? & ?).
  split; [done..| |by left|done]. unfold encoded. lia.
Qed.

Lemma from_segments_wf t segs k : from_segments t segs = Ok k → key_wf k.
Proof.
  intros (Hok & -> & Hc)%from_segments_Ok. apply check_key_ne in Hc as Hne.
  apply check_key_Ok in Hc as [Hl Hc]. split; cbn; auto.
Qed.

Lemma strip_prefix_wf k p k' : strip_prefix k p = Ok k' → key_wf k'.
Proof. unfold strip_prefix. intros H. rinv. eauto using key_new_wf. Qed.

Lemma strip_prefix_segments_wf k p k' :
  key_wf k → strip_prefix_segments k p = Ok k' → key_wf k'.
Proof.
  unfold strip_prefix_segments. destruct (segments_match _ _);
    [eauto using from_segments_wf|by intros ? [= <-]].
Qed.

#[export] Hint Resolve key_new_wf from_segments_wf strip_prefix_wf strip_prefix_segments_wf
  : keys.

(** A key that a store can hold: no empty segments. *)
Definition proper_key (k : Key) : Prop := key_wf k ∧ Forall (λ s, s ≠ EmptyString) (segments k).

Lemma key_new_proper t n k : key_new t n = Ok k → proper_key k.
Proof.
  intros Hk. split; [by eapply key_new_wf|]. apply key_new_Ok in Hk as (Hp & _ & _).
  by apply parse_name_segments_spec in Hp as (_ & _ & ? & _).
Qed.

Lemma append_key_proper p k k' :
  proper_key p → proper_key k → append_key p k = Ok k' → proper_key k'.
Proof.
  unfold append_key. intros [_ Hp] [_ Hk] Ha. split; [by eapply from_segments_wf|].
  apply from_segments_Ok in Ha as (_ & -> & _). cbn. by apply Forall_app_2.
Qed.

#[export] Hint Resolve key_new_proper append_key_proper : keys.

(** Dropping segments never makes the name longer. *)
Lemma encoded_sublist pre segs post :
  segs ≠ [] → str_len (encoded segs) ≤ str_len (encoded (pre ++ segs ++ post)).
Proof.
  intros Hne. destruct segs as [|x l]; [done|].
  destruct (pre ++ (x :: l) ++ post) as [|y l'] eqn:E; [by destruct pre|].
  unfold encoded. apply le_S_n. rewrite !str_join_weight, <-E.
  unfold weight. rewrite !sum_list_with_app. lia.
Qed.

(** Any non-empty run of consecutive segments of a key is a key. *)
Lemma from_segments_sublist k pre segs post :
  key_wf k → segments k = pre ++ segs ++ post → segs ≠ [] →
  from_segments Data segs = Ok (mk_key (encoded segs) segs).
Proof.
  intros [] Hs Hne. apply from_segments_Data. split_and!; [done| | |done].
  - rewrite Hs, !Forall_app in wf_ok0. naive_solver.
  - rewrite Hs in wf_len0. etrans; [by apply encoded_sublist|done].
Qed.

Lemma from_segments_take k i :
  key_wf k → 0 < i →
  from_segments Data (take i (segments k))
  = Ok (mk_key (encoded (take i (segments k))) (take i (segments k))).
Proof.
  intros Hk Hi. apply (from_segments_sublist k [] _ (drop i (segments k))); [done| |].
  - by rewrite app_nil_l, take_drop.
  - pose proof (wf_ne k Hk). destruct (segments k), i; naive_solver lia.
Qed.

Lemma segments_match_spec ours theirs :
  segments_match ours theirs = true ↔ theirs `prefix_of` ours.
Proof.
  revert ours. induction theirs as [|t theirs IH]; intros ours; cbn.
  { split; [intros _; apply prefix_nil|done]. }
  destruct ours as [|o ours].
  - split; [done|]. by intros ?%prefix_nil_not.
  - case_decide; [subst; rewrite IH; split; [apply prefix_cons|apply prefix_cons_inv_2]|].
    split; [done|]. intros ?%prefix_cons_inv_1. congruence.
Qed.

Lemma starts_with_segments_spec k segs :
  starts_with_segments k segs = true ↔ segs `prefix_of` segments k.
Proof.
  unfold starts_with_segments.
  destruct (Nat.ltb_spec (length (segments k)) (length segs)) as [Hl|Hl].
  { split; [done|]. intros ?%prefix_length. lia. }
  rewrite <-segments_match_spec. revert Hl. generalize (segments k) as ours.
  induction segs as [|t segs IH]; intros ours Hl; [done|].
  destruct ours as [|o ours]; cbn in *; [lia|].
  rewrite andb_true_iff, bool_decide_eq_true, IH by lia. case_decide; naive_solver.
Qed.

(** ** Removing and adding segments *)

Lemma encoded_cons s rest :
  rest ≠ [] → encoded (s :: rest) = quote_segment s +:+ KEY_SEPARATOR_STR +:+ encoded rest.
Proof. by destruct rest. Qed.

Lemma strip_prefix_segments_prefix k rest p :
  key_wf k → segments k = p ++ rest → rest ≠ [] →
  strip_prefix_segments k p = Ok (mk_key (encoded rest) rest).
Proof.
  intros Hk Hs Hne. unfold strip_prefix_segments.
  rewrite (proj2 (segments_match_spec _ _)) by (rewrite Hs; by apply prefix_app_r).
  rewrite Hs, drop_app_length.
  apply (from_segments_sublist k p rest []); [done| |done]. by rewrite app_nil_r.
Qed.

Lemma key_new_encoded segs :
  segs ≠ [] → Forall segment_ok segs → Forall (λ s, s ≠ EmptyString) segs →
  str_len (encoded segs) ≤ MAX_KEY_NAME_LENGTH →
  key_new Data (encoded segs) = Ok (mk_key (encoded segs) segs).
Proof.
  intros Hne Hok Hns Hl. apply key_new_Ok. cbn. split_and!; [|done|by apply check_key_Ok].
  apply parse_encode; [done..|]. by apply encode_name_segments_Ok.
Qed.

(** A plain string is not a prefix of a quoted one. *)
Lemma not_starts_with_quote s t u :
  segment_ok s → s ≠ EmptyString → str_starts_with (String QUOTE t) (s +:+ u) = false.
Proof.
  destruct s as [|c s]; [done|]. intros Hs _. cbn.
  destruct (ascii_dec c QUOTE) as [->|]; [|done]. done.
Qed.

(** ** Properties *)

(** The keys the library can build, from a name, from segments, and from other
    keys. *)
Inductive reachable_key : Key → Prop :=
| reach_new t n k : key_new t n = Ok k → reachable_key k
| reach_from_segments t segs k : from_segments t segs = Ok k → reachable_key k
| reach_strip k p k' : reachable_key k → strip_prefix k p = Ok k' → reachable_key k'
| reach_strip_segments k p k' :
    reachable_key k → strip_prefix_segments k p = Ok k' → reachable_key k'
| reach_append_segments k segs k' :
    reachable_key k → append_segments k segs = Ok k' → reachable_key k'
| reach_append_key k1 k2 k' :
    reachable_key k1 → reachable_key k2 → append_key k1 k2 = Ok k' → reachable_key k'.

(** C38. Every key the library builds satisfies the invariant: at least one
    segment, only acceptable characters, a name of at most 255 bytes that
    denotes the segments, and a canonical (quoted) name of at most 255 bytes. *)
Theorem reachable_key_wf k : reachable_key k → key_wf k.
Proof.
  induction 1; unfold append_segments, append_key in *; eauto with keys.
Qed.

Lemma reachable_key_wf_witness :
  key_wf (mk_key "b.c" ["b"; "c"]).
Proof.
  apply reachable_key_wf.
  apply (reach_strip (mk_key "a.b.c" ["a"; "b"; "c"]) "a"); [|reflexivity].
  apply (reach_new Data "a.b.c"). reflexivity.
Defined.

(** Parsing inverts encoding: a key built from non-empty segments is
    rebuilt exactly from its own name, for data and metadata keys. *)
Lemma from_segments_parses_back t segs k :
  Forall (λ s, s ≠ EmptyString) segs → from_segments t segs = Ok k →
  key_new t (name k) = Ok k.
Proof.
  intros Hne (Hok & -> & Hc)%from_segments_Ok. apply key_new_Ok. cbn.
  split_and!; [|done..]. apply parse_encode; [by eapply check_key_ne|done|].
  by apply encode_name_segments_Ok.
Qed.

Lemma from_segments_parses_back_witness :
  from_segments Data ["a"; "b.c"; "d"] =
    Ok (mk_key (encoded ["a"; "b.c"; "d"]) ["a"; "b.c"; "d"]) ∧
  key_new Data (encoded ["a"; "b.c"; "d"]) =
    Ok (mk_key (encoded ["a"; "b.c"; "d"]) ["a"; "b.c"; "d"]).
Proof.
  split; [reflexivity|].
  apply (from_segments_parses_back Data ["a"; "b.c"; "d"]
           (mk_key (encoded ["a"; "b.c"; "d"]) ["a"; "b.c"; "d"]));
    [repeat constructor; discriminate|reflexivity].
Defined.

(** The quoted name is canonical: whatever valid name a key was parsed
    from, encoding its segments succeeds, gives an equal key, and the name is
    not longer than the one that was parsed. *)
Lemma key_new_canonical t n k :
  key_new t n = Ok k →
  ∃ k', from_segments t (segments k) = Ok k' ∧ key_eqb k' k = true ∧
        str_len (name k') ≤ str_len n.
Proof.
  intros (Hp & Hn & Hc)%key_new_Ok. apply parse_name_segments_spec in Hp as (? & ? & ? & ?).
  exists (mk_key (encoded (segments k)) (segments k)). split_and!; [|by apply bool_decide_eq_true|done].
  apply from_segments_Ok. split_and!; [done..|]. apply check_key_Ok in Hc as [? ?].
  apply check_key_Ok. split; [unfold encoded; lia|done].
Qed.

(** The parsed name spells its first segment with needless quotes. *)
Definition quoted_a : string := String QUOTE (String "a" (String QUOTE ".b")).

Lemma key_new_canonical_witness :
  ∃ k', from_segments Data ["a"; "b"] = Ok k' ∧
        key_eqb k' (mk_key quoted_a ["a"; "b"]) = true ∧ str_len (name k') ≤ 5.
Proof.
  apply (key_new_canonical Data quoted_a (mk_key quoted_a ["a"; "b"])). reflexivity.
Defined.

(** [strip_prefix_segments] on every branch: the whole key as prefix is
    the only error; a proper prefix is removed exactly; any other list of
    segments leaves the key as it is. *)
Lemma strip_prefix_segments_outcome k p :
  key_wf k →
  (strip_prefix_segments k p = Err (InvalidKey EmptyString MsgDataNoSegment) ↔ p = segments k) ∧
  (∀ rest, segments k = p ++ rest → rest ≠ [] →
     strip_prefix_segments k p = Ok (mk_key (encoded rest) rest)) ∧
  (¬ p `prefix_of` segments k → strip_prefix_segments k p = Ok k).
Proof.
  intros Hk. split_and!; [|intros; by apply strip_prefix_segments_prefix|].
  - split; [|intros ->; unfold strip_prefix_segments].
    + intros He. destruct (decide (p `prefix_of` segments k)) as [[rest Hr]|Hn].
      * destruct rest as [|x rest]; [by rewrite app_nil_r in Hr|].
        by rewrite (strip_prefix_segments_prefix k (x :: rest)) in He.
      * unfold strip_prefix_segments in He. rewrite <-segments_match_spec in Hn.
        by destruct (segments_match _ _).
    + by rewrite (proj2 (segments_match_spec _ _)), drop_all.
  - intros Hn. unfold strip_prefix_segments. rewrite <-segments_match_spec in Hn.
    by destruct (segments_match _ _).
Qed.

Lemma strip_prefix_segments_outcome_witness :
  strip_prefix_segments (mk_key "a.b" ["a"; "b"]) ["a"] = Ok (mk_key "b" ["b"]).
Proof.
  assert (key_wf (mk_key "a.b" ["a"; "b"])) as Hk
    by (apply (key_new_wf Data "a.b"); reflexivity).
  destruct (strip_prefix_segments_outcome _ ["a"] Hk) as (_ & H & _).
  apply (H ["b"]); [reflexivity|discriminate].
Defined.

(** Appending a key and removing the prefix again gives back an equal
    key, and the appended key starts with the prefix. *)
Lemma append_key_strip p k k' :
  key_wf k → append_key p k = Ok k' →
  starts_with_segments k' (segments p) = true ∧
  ∃ k'', strip_prefix_segments k' (segments p) = Ok k'' ∧ key_eqb k'' k = true.
Proof.
  intros Hk Ha. assert (key_wf k') as Hk' by (eapply from_segments_wf; exact Ha).
  apply from_segments_Data in Ha as (_ & _ & _ & ->).
  split; [apply starts_with_segments_spec; by apply prefix_app_r|].
  eexists. rewrite (strip_prefix_segments_prefix _ (segments k)); [|done..|apply Hk].
  split; [done|]. by apply bool_decide_eq_true.
Qed.

Lemma append_key_strip_witness :
  append_key (mk_key "a" ["a"]) (mk_key "b" ["b"]) = Ok (mk_key "a.b" ["a"; "b"]) ∧
  starts_with_segments (mk_key "a.b" ["a"; "b"]) ["a"] = true.
Proof.
  split; [reflexivity|].
  apply (append_key_strip (mk_key "a" ["a"]) (mk_key "b" ["b"])); [|reflexivity].
  apply (key_new_wf Data "b"). reflexivity.
Defined.

(** [strip_prefix] by the text of the first segment of a canonical key:
    it removes the segment when the segment is plain, and silently leaves the
    key unchanged when the segment contains a separator, because the name then
    starts with a quote. *)
Lemma strip_prefix_first_segment k s rest :
  key_wf k → name k = encoded (segments k) → segments k = s :: rest → rest ≠ [] →
  Forall (λ s, s ≠ EmptyString) (s :: rest) →
  strip_prefix k s =
    if has_separator s then Ok k else Ok (mk_key (encoded rest) rest).
Proof.
  intros Hk Hn Hs Hne Hns. pose proof Hk as [_ Hok Hl _ _]. rewrite Hs in *.
  apply Forall_cons in Hok as [Hs1 Hok], Hns as [Hs2 Hns].
  assert (key_wf (mk_key (encoded rest) rest)) as [].
  { eapply from_segments_wf. apply (from_segments_sublist k [s] rest []); [done| |done].
    by rewrite Hs, app_nil_r. }
  unfold strip_prefix. rewrite Hn, encoded_cons by done. unfold quote_segment.
  fold (has_separator s). destruct (has_separator s) eqn:Hd.
  - cbn [String.append]. rewrite bool_decide_eq_false_2, not_starts_with_quote; [|done..|].
    2: { intros He. rewrite He in Hs1. discriminate Hs1. }
    cbn [negb ensure mbind result_bind].
    replace (String QUOTE ((s +:+ String QUOTE "") +:+ KEY_SEPARATOR_STR +:+ encoded rest))
      with (encoded (s :: rest)).
    2: { rewrite encoded_cons by done. unfold quote_segment. fold (has_separator s). by rewrite Hd. }
    rewrite key_new_encoded; [|done|by constructor|by constructor|done].
    destruct k; cbn in *; congruence.
  - rewrite bool_decide_eq_false_2.
    2: { intros He. apply (f_equal str_len) in He. rewrite !str_len_app in He. cbn in He. lia. }
    cbn [negb ensure mbind result_bind]. unfold KEY_SEPARATOR_STR.
    rewrite str_app_assoc, str_starts_with_app, str_replace_first_prefix.
    apply key_new_encoded; done.
Qed.

Lemma strip_prefix_first_segment_witness :
  let k := mk_key (encoded ["b.c"; "d"]) ["b.c"; "d"] in
  strip_prefix k "b.c" = Ok k.
Proof.
  intros k. apply (strip_prefix_first_segment k "b.c" ["d"]);
    [apply (from_segments_wf Data ["b.c"; "d"]); reflexivity|reflexivity..|discriminate|].
  repeat constructor; discriminate.
Defined.

(** [from_segments] does not reject an empty segment, which no name can
    denote: the resulting key's own name does not parse back. *)
Lemma from_segments_accepts_empty_segment :
  from_segments Data ["a"; EmptyString] = Ok (mk_key "a." ["a"; EmptyString]) ∧
  key_new Data "a." = Err (InvalidKey "a." MsgEndsWithSeparator).
Proof. split; reflexivity. Qed.
