(* ===== verification/Json.v ===== *)
(** * JSON values ([serde_json::Value]) and their text form

    The data store keeps every scalar as JSON text ([serialize_scalar] and
    [deserialize_scalar] of [sources/api/datastore/src/lib.rs]) and the API
    model travels through [serde_json::Value].  The value type is written out;
    the text printer and parser belong to the [serde_json] crate and are
    operations of the class [SerdeJson], with the one promise the code relies
    on: a printed value parses back. *)
From S2P Require Import Prelude.
From Stdlib Require Import Ascii String.
From stdpp Require Import base list strings gmap countable.
From stdpp Require Import options.
Local Open Scope string_scope.

(** ** Values *)

Inductive number :=
| PosInt (n : Z)
| NegInt (n : Z)
| Float (bits : Z).

(** An object is the list of its entries in iteration order, which is the order
    of the keys (a [BTreeMap]). *)
Inductive json :=
| JNull
| JBool (b : bool)
| JNumber (n : number)
| JString (s : string)
| JArray (l : list json)
| JObject (m : list (string * json)).

Lemma json_ind' (P : json → Prop) :
  P JNull → (∀ b, P (JBool b)) → (∀ n, P (JNumber n)) → (∀ s, P (JString s)) →
  (∀ l, Forall P l → P (JArray l)) → (∀ m, Forall (λ kv, P kv.2) m → P (JObject m)) →
  ∀ v, P v.
Proof.
  intros Hn Hb Hnum Hs Ha Ho. fix IH 1. intros [|b|n|s|l|m].
  - exact Hn.
  - apply Hb.
  - apply Hnum.
  - apply Hs.
  - apply Ha. induction l as [|x l IHl]; [constructor|]. constructor; [apply IH|apply IHl].
  - apply Ho. induction m as [|[k x] m IHm]; [constructor|]. constructor; [apply IH|apply IHm].
Qed.

(** [Map::insert]: replaces the value of an existing key, keeps the entries in
    key order. *)
Fixpoint obj_insert {A} (k : string) (v : A) (m : list (string * A)) : list (string * A) :=
  match m with
  | [] => [(k, v)]
  | (k', v') :: m' =>
      match String.compare k k' with
      | Lt => (k, v) :: m
      | Eq => (k, v) :: m'
      | Gt => (k', v') :: obj_insert k v m'
      end
  end.

Fixpoint obj_get {A} (k : string) (m : list (string * A)) : option A :=
  match m with
  | [] => None
  | (k', v') :: m' => if decide (k = k') then Some v' else obj_get k m'
  end.

(** [Value::as_str] *)
Definition as_str (v : json) : option string := match v with JString s => Some s | _ => None end.

Lemma string_compare_refl s : String.compare s s = Eq.
Proof. induction s as [|c s IH]; cbn; [done|]. unfold Ascii.compare. by rewrite N.compare_refl. Qed.

Lemma obj_get_insert {A} k k' (v : A) m :
  obj_get k (obj_insert k' v m) = if decide (k = k') then Some v else obj_get k m.
Proof.
  induction m as [|[k0 v0] m IH]; cbn; [done|].
  destruct (String.compare k' k0) eqn:E; cbn.
  - apply String.compare_eq_iff in E as ->. by case_decide.
  - done.
  - rewrite IH. destruct (decide (k = k0)) as [->|]; [|done].
    case_decide as E2; [|done]. subst k'. by rewrite string_compare_refl in E.
Qed.

(** ** Text *)

(** The integers a [Number] can hold; floating-point numbers are left out of
    the round trip. *)
Definition number_wf (n : number) : Prop :=
  match n with
  | PosInt z => (0 ≤ z < 2 ^ 64)%Z
  | NegInt z => (- 2 ^ 63 ≤ z < 0)%Z
  | Float _ => False
  end.

Fixpoint json_wf (v : json) : Prop :=
  match v with
  | JNumber n => number_wf n
  | JArray l => foldr (λ v P, json_wf v ∧ P) True l
  | JObject m => NoDup m.*1 ∧ foldr (λ kv P, json_wf kv.2 ∧ P) True m
  | _ => True
  end.

(** The error of [serde_json], of which nothing but its presence matters. *)
Inductive json_error := JsonError.

Class SerdeJson := {
  json_to_string : json → result json_error string;
  json_from_str : string → result json_error json;
  (** [Deserializer::from_str(s).deserialize_any(..)]: the first value of the
      text; what follows it is not looked at. *)
  json_first_value : string → result json_error json;
  json_roundtrip v :
    json_wf v → ∃ s, json_to_string v = Ok s ∧ json_from_str s = Ok v;
  json_first_value_whole s v : json_from_str s = Ok v → json_first_value s = Ok v }.

(** [serialize_scalar] and [deserialize_scalar] at type [Value]. *)
Definition serialize_scalar `{SerdeJson} (v : json) : result json_error string :=
  json_to_string v.
Definition deserialize_scalar `{SerdeJson} (s : string) : result json_error json :=
  json_from_str s.

(** ** A concrete printer and parser *)

Global Instance number_eq_dec : EqDecision number.
Proof. solve_decision. Defined.

Definition tree := gen_tree (bool + (Z + (Z + (Z + string)))).
Fixpoint json_to_tree (v : json) : tree :=
  match v with
  | JNull => GenNode 0 []
  | JBool b => GenLeaf (inl b)
  | JNumber (PosInt z) => GenLeaf (inr (inl z))
  | JNumber (NegInt z) => GenLeaf (inr (inr (inl z)))
  | JNumber (Float z) => GenLeaf (inr (inr (inr (inl z))))
  | JString s => GenLeaf (inr (inr (inr (inr s))))
  | JArray l => GenNode 1 (json_to_tree <$> l)
  | JObject m =>
      GenNode 2 ((λ kv, GenNode 3 [GenLeaf (inr (inr (inr (inr kv.1)))); json_to_tree kv.2]) <$> m)
  end.
Fixpoint json_of_tree (t : tree) : json :=
  match t with
  | GenLeaf (inl b) => JBool b
  | GenLeaf (inr (inl z)) => JNumber (PosInt z)
  | GenLeaf (inr (inr (inl z))) => JNumber (NegInt z)
  | GenLeaf (inr (inr (inr (inl z)))) => JNumber (Float z)
  | GenLeaf (inr (inr (inr (inr s)))) => JString s
  | GenNode 1 l => JArray (json_of_tree <$> l)
  | GenNode 2 l =>
      JObject ((λ t, match t with
                     | GenNode _ [GenLeaf (inr (inr (inr (inr k)))); t] => (k, json_of_tree t)
                     | _ => (EmptyString, JNull)
                     end) <$> l)
  | GenNode _ _ => JNull
  end.

Lemma json_of_to_tree v : json_of_tree (json_to_tree v) = v.
Proof.
  induction v as [|b|[]|s|l IH|m IH] using json_ind'; cbn; try done; f_equal.
  - induction IH as [|x l Hx _ IHl]; cbn; [done|]. by rewrite Hx, IHl.
  - induction IH as [|[k x] m Hx _ IHm]; cbn in *; [done|]. by rewrite Hx, IHm.
Qed.

(** Strings are printed between quotes; the other values as the binary digits of
    a code. *)
Fixpoint bits_to_string (p : positive) : string :=
  match p with
  | xH => EmptyString
  | xO p => String "0"%char (bits_to_string p)
  | xI p => String "1"%char (bits_to_string p)
  end.
Fixpoint bits_of_string (s : string) : positive :=
  match s with
  | EmptyString => xH
  | String c s => if ascii_dec c "0"%char then xO (bits_of_string s) else xI (bits_of_string s)
  end.
Fixpoint but_last (s : string) : string :=
  match s with
  | EmptyString | String _ EmptyString => EmptyString
  | String c s => String c (but_last s)
  end.

Definition example_to_string (v : json) : string :=
  match v with
  | JString s => String "034"%char (str_push s "034"%char)
  | _ => bits_to_string (encode (json_to_tree v))
  end.
Definition example_from_str (s : string) : result json_error json :=
  match s with
  | String "034"%char s => Ok (JString (but_last s))
  | _ =>
      match decode (bits_of_string s) with
      | Some t => Ok (json_of_tree t)
      | None => Err JsonError
      end
  end.

Lemma bits_of_to_string p : bits_of_string (bits_to_string p) = p.
Proof. induction p as [p IH|p IH|]; cbn; congruence. Qed.

Lemma but_last_push s c : but_last (str_push s c) = s.
Proof.
  induction s as [|c' s IH]; [done|]. unfold str_push in *. cbn. rewrite IH. by destruct s.
Qed.

Lemma example_bits p : example_from_str (bits_to_string p) =
  match decode p with Some t => Ok (json_of_tree t) | None => Err JsonError end.
Proof.
  unfold example_from_str. rewrite bits_of_to_string. by destruct p.
Qed.

Definition example_json : SerdeJson.
Proof.
  refine {| json_to_string v := Ok (example_to_string v); json_from_str := example_from_str;
            json_first_value := example_from_str |}; [|done].
  intros v _. eexists. split; [done|]. destruct v as [| | |s| |]; cbn [example_to_string].
  4: { cbn. by rewrite but_last_push. }
  all: rewrite example_bits, decode_encode; by rewrite json_of_to_tree.
Defined.
