(* ===== verification/KeyMap.v ===== *)
(** * [HashMap<Key, V>] and [HashSet<Key>] of the standard library

    [Key] implements [Eq] and [Hash] on its segments alone, so the standard
    collections find an entry by segments while the entry keeps the key object
    it was first inserted with, name included.  A map is therefore a finite map
    from segments to the stored key and value.

    The iteration order of the standard collections is unspecified: it is a
    parameter ([HashOrder]) of every definition that iterates, and every
    theorem holds for all orders. *)
From S2P Require Import Prelude DsError Key.
From stdpp Require Import base list strings gmap.
From stdpp Require Import options.

Abbreviation key_map V := (gmap (list string) (Key * V)).
Abbreviation key_set := (gmap (list string) Key).

(** The order in which a collection yields its entries. *)
Class HashOrder := {
  hash_iter : ∀ {K : Type} `{Countable K} {A : Type}, gmap K A → list A;
  hash_iter_perm : ∀ `{Countable K} {A} (m : gmap K A),
    hash_iter m ≡ₚ (map_to_list m).*2 }.

(** The entries of a [HashMap<String, _>]. *)
Definition map_iter `{HashOrder} {A} (m : gmap string A) : list (string * A) :=
  hash_iter (map_imap (λ k v, Some (k, v)) m).

(** The entries of any other [HashMap]. *)
Definition hash_entries `{HashOrder} `{Countable K} {A} (m : gmap K A) : list (K * A) :=
  hash_iter (map_imap (λ k v, Some (k, v)) m).

(** One such order, for evaluating the definitions. *)
Definition example_order : HashOrder.
Proof.
  refine {| hash_iter K _ _ A m := (map_to_list m).*2 |}. done.
Defined.

Section key_map.
Context {V : Type}.
Implicit Types (m : key_map V) (k : Key) (v : V).

(** [HashMap::get], [contains_key]. *)
Definition hm_get (k : Key) m : option V := snd <$> m !! segments k.
Definition hm_contains_key (k : Key) m : bool := bool_decide (is_Some (m !! segments k)).

(** [HashMap::insert]: the value is replaced, the stored key is not. *)
Definition hm_insert (k : Key) (v : V) m : key_map V :=
  match m !! segments k with
  | Some (k0, _) => <[segments k := (k0, v)]> m
  | None => <[segments k := (k, v)]> m
  end.

(** [*map.entry(k).or_insert(d)] updated by [f]. *)
Definition hm_entry (k : Key) (d : V) (f : V → V) m : key_map V :=
  match m !! segments k with
  | Some (k0, v) => <[segments k := (k0, f v)]> m
  | None => <[segments k := (k, f d)]> m
  end.

Definition hm_remove (k : Key) m : key_map V := delete (segments k) m.

(** Every entry is filed under the segments of its key. *)
Definition hm_wf m : Prop := map_Forall (λ segs kv, segments kv.1 = segs) m.

(** What a reader can observe of a map: the values by segments. *)
Definition hm_view m : gmap (list string) V := snd <$> m.

Lemma hm_get_view k m : hm_get k m = hm_view m !! segments k.
Proof. unfold hm_get, hm_view. by rewrite lookup_fmap. Qed.

Lemma hm_view_insert k v m : hm_view (hm_insert k v m) = <[segments k := v]> (hm_view m).
Proof.
  unfold hm_view, hm_insert. destruct (m !! segments k) as [[k0 v0]|];
    by rewrite fmap_insert.
Qed.

Lemma hm_view_entry k d f m :
  hm_view (hm_entry k d f m) = <[segments k := f (default d (hm_view m !! segments k))]> (hm_view m).
Proof.
  unfold hm_view, hm_entry. rewrite lookup_fmap.
  destruct (m !! segments k) as [[k0 v0]|]; by rewrite fmap_insert.
Qed.

Lemma hm_view_remove k m : hm_view (hm_remove k m) = delete (segments k) (hm_view m).
Proof. unfold hm_view, hm_remove. by rewrite fmap_delete. Qed.

Lemma hm_wf_empty : hm_wf ∅.
Proof. apply map_Forall_empty. Qed.

Lemma hm_wf_insert k v m : hm_wf m → hm_wf (hm_insert k v m).
Proof.
  unfold hm_wf, hm_insert. intros Hm. destruct (m !! segments k) as [[k0 v0]|] eqn:E.
  - apply map_Forall_insert_2; [|done]. apply (Hm _ _ E).
  - by apply map_Forall_insert_2.
Qed.

Lemma hm_wf_entry k d f m : hm_wf m → hm_wf (hm_entry k d f m).
Proof.
  unfold hm_wf, hm_entry. intros Hm. destruct (m !! segments k) as [[k0 v0]|] eqn:E.
  - apply map_Forall_insert_2; [|done]. apply (Hm _ _ E).
  - by apply map_Forall_insert_2.
Qed.

Lemma hm_wf_remove k m : hm_wf m → hm_wf (hm_remove k m).
Proof. apply map_Forall_delete. Qed.
End key_map.

#[global] Arguments hm_view {V} m : simpl never.
#[global] Arguments hm_get {V} k m : simpl never.
#[global] Arguments hm_insert {V} k v m : simpl never.
#[global] Arguments hm_entry {V} k d f m : simpl never.
#[global] Arguments hm_remove {V} k m : simpl never.

(** [HashSet::insert]: an equal key that is already there stays. *)
Definition hs_insert (k : Key) (s : key_set) : key_set :=
  match s !! segments k with
  | Some _ => s
  | None => <[segments k := k]> s
  end.

Definition hs_contains (k : Key) (s : key_set) : bool :=
  bool_decide (is_Some (s !! segments k)).

(** [Iterator::collect] into a [HashSet<Key>], [HashMap<Key, V>]. *)
Definition hs_collect (l : list Key) : key_set := foldl (λ s k, hs_insert k s) ∅ l.
Definition hm_collect {V} (l : list (Key * V)) : key_map V :=
  foldl (λ m '(k, v), hm_insert k v m) ∅ l.

Definition hs_wf (s : key_set) : Prop := map_Forall (λ segs k, segments k = segs) s.

Section iter.
Context `{HashOrder}.

(** [HashMap::iter], [keys], [into_iter] and [HashSet::iter]. *)
Definition hm_iter {V} (m : key_map V) : list (Key * V) := hash_iter m.
Definition hm_keys {V} (m : key_map V) : list Key := (hash_iter m).*1.
Definition hs_iter (s : key_set) : list Key := hash_iter s.

Lemma elem_of_hash_iter `{Countable K} {A} (m : gmap K A) a :
  a ∈ hash_iter m ↔ ∃ i, m !! i = Some a.
Proof.
  rewrite hash_iter_perm, list_elem_of_fmap. split.
  - intros ([i a'] & -> & ?%elem_of_map_to_list). eauto.
  - intros [i Hi]. exists (i, a). by rewrite elem_of_map_to_list.
Qed.

Lemma elem_of_map_iter {A} (m : gmap string A) k v : (k, v) ∈ map_iter m ↔ m !! k = Some v.
Proof.
  unfold map_iter. rewrite elem_of_hash_iter. setoid_rewrite map_lookup_imap. split.
  - intros (i & Hi). destruct (m !! i) eqn:E; naive_solver.
  - intros Hk. exists k. by rewrite Hk.
Qed.

Lemma elem_of_hash_entries `{Countable K} {A} (m : gmap K A) k v : (k, v) ∈ hash_entries m ↔ m !! k = Some v.
Proof.
  unfold hash_entries. rewrite elem_of_hash_iter. setoid_rewrite map_lookup_imap. split.
  - intros [i Hi]. destruct (m !! i) eqn:E; [|done]. cbn in Hi. by simplify_eq.
  - intros Hk. exists k. by rewrite Hk.
Qed.

Lemma map_iter_NoDup {A} (m : gmap string A) : NoDup (map_iter m).*1.
Proof.
  unfold map_iter. rewrite hash_iter_perm, <-list_fmap_compose.
  rewrite (list_fmap_ext _ fst); [apply NoDup_fst_map_to_list|].
  intros i [k kv] Hi. apply list_elem_of_lookup_2, elem_of_map_to_list in Hi.
  rewrite map_lookup_imap in Hi. cbn. destruct (m !! k); naive_solver.
Qed.

Lemma elem_of_hm_iter {V} (m : key_map V) k v :
  hm_wf m → (k, v) ∈ hm_iter m ↔ m !! segments k = Some (k, v).
Proof.
  intros Hm. unfold hm_iter. rewrite elem_of_hash_iter. split; [|eauto].
  intros [i Hi]. by rewrite <-(Hm _ _ Hi) in Hi.
Qed.

Lemma hash_iter_nil `{Countable K} {A} (m : gmap K A) : hash_iter m = [] ↔ m = ∅.
Proof.
  rewrite <-map_to_list_empty_iff. pose proof (hash_iter_perm m) as Hp. split; intros E.
  - rewrite E in Hp. apply Permutation_nil_l in Hp. by eapply fmap_nil_inv.
  - rewrite E in Hp. by apply Permutation_nil_r in Hp.
Qed.

(** The segments of the entries are pairwise different. *)
Lemma hm_iter_NoDup {V} (m : key_map V) :
  hm_wf m → NoDup ((λ kv, segments kv.1) <$> hm_iter m).
Proof.
  intros Hm. unfold hm_iter. rewrite hash_iter_perm, <-list_fmap_compose.
  rewrite (list_fmap_ext _ fst); [apply NoDup_fst_map_to_list|].
  intros i [segs kv] Hi. cbn. apply Hm.
  apply elem_of_map_to_list, (list_elem_of_lookup_2 _ i), Hi.
Qed.

Lemma hs_iter_NoDup (s : key_set) : hs_wf s → NoDup (segments <$> hs_iter s).
Proof.
  intros Hs. unfold hs_iter. rewrite hash_iter_perm, <-list_fmap_compose.
  rewrite (list_fmap_ext _ fst); [apply NoDup_fst_map_to_list|].
  intros i [segs k] Hi. cbn. apply Hs.
  apply elem_of_map_to_list, (list_elem_of_lookup_2 _ i), Hi.
Qed.
End iter.

(** ** Collecting *)

Lemma hs_wf_insert k s : hs_wf s → hs_wf (hs_insert k s).
Proof.
  unfold hs_wf, hs_insert. intros Hs. destruct (s !! segments k) eqn:E; [done|].
  by apply map_Forall_insert_2.
Qed.

Lemma hs_insert_lookup k s segs :
  hs_insert k s !! segs = match s !! segs with
                          | Some k0 => Some k0
                          | None => if decide (segments k = segs) then Some k else None
                          end.
Proof.
  unfold hs_insert. destruct (s !! segments k) eqn:E.
  - case_decide; subst; [by rewrite E|]. by destruct (s !! segs).
  - rewrite lookup_insert. case_decide; subst; [by rewrite E|]. by destruct (s !! segs).
Qed.

Lemma hs_collect_gen l s segs :
  NoDup (segments <$> l) → (∀ k, k ∈ l → s !! segments k = None) →
  foldl (λ s k, hs_insert k s) s l !! segs =
  match s !! segs with
  | Some k => Some k
  | None => list_find (λ k, segments k = segs) l ≫= λ '(_, k), Some k
  end.
Proof.
  revert s. induction l as [|k l IH]; intros s Hnd Hs; cbn.
  { by destruct (s !! segs). }
  apply NoDup_cons in Hnd as [Hk Hnd]. rewrite IH; [|done|].
  - rewrite hs_insert_lookup. destruct (s !! segs); [done|].
    case_decide; [done|]. by destruct (list_find _ l) as [[]|].
  - intros k' Hk'. rewrite hs_insert_lookup, (Hs k') by set_solver.
    rewrite decide_False; [done|]. intros E. apply Hk. rewrite E. set_solver.
Qed.

(** Collecting keys that are pairwise different keeps exactly those keys. *)
Lemma hs_collect_elem l segs k :
  NoDup (segments <$> l) → hs_collect l !! segs = Some k ↔ k ∈ l ∧ segments k = segs.
Proof.
  intros Hnd. unfold hs_collect. rewrite hs_collect_gen by (done || intros; apply lookup_empty).
  rewrite lookup_empty. split.
  - intros ([i k'] & (Hi & Hs & _)%list_find_Some & [= <-])%bind_Some.
    split; [by eapply list_elem_of_lookup_2|done].
  - intros [Hin <-]. destruct (list_find_elem_of (λ k', segments k' = segments k) l k)
      as [[i k'] Hf]; [done..|]. rewrite Hf. cbn. f_equal.
    apply list_find_Some in Hf as (Hi & Hs & _).
    apply list_elem_of_lookup in Hin as [j Hj].
    assert (i = j) as ->; [|congruence].
    eapply (NoDup_lookup (segments <$> l)); [done|..]; rewrite list_lookup_fmap.
    + by rewrite Hi.
    + by rewrite Hj; cbn; rewrite Hs.
Qed.

(** So does collecting keys that are equal when their segments are. *)
Lemma hs_collect_canonical l segs k :
  (∀ k1 k2, k1 ∈ l → k2 ∈ l → segments k1 = segments k2 → k1 = k2) →
  hs_collect l !! segs = Some k ↔ k ∈ l ∧ segments k = segs.
Proof.
  intros Hl. unfold hs_collect.
  assert (∀ s, (∀ k k0, k ∈ l → s !! segments k = Some k0 → k0 = k) →
    foldl (λ s k, hs_insert k s) s l !! segs = Some k ↔
    s !! segs = Some k ∨ (k ∈ l ∧ segments k = segs)) as Hgen.
  { clear -Hl. induction l as [|k0 l IH]; intros s Hs; cbn; [set_solver|].
    rewrite IH, hs_insert_lookup.
    - destruct (s !! segs) as [k1|] eqn:E.
      + split; [naive_solver set_solver|]. intros [?|[Hin Hk]]; [by left|].
        left. f_equal. apply (Hs k k1); [done|]. by rewrite Hk.
      + rewrite elem_of_cons. case_decide; naive_solver.
    - intros. apply Hl; [by right|by right|done].
    - intros k1 k2 Hin. rewrite hs_insert_lookup. destruct (s !! segments k1) eqn:E.
      + intros [= <-]. apply (Hs k1); [by right|done].
      + case_decide; [|done]. intros [= <-]. apply Hl; [by left|by right|done]. }
  rewrite Hgen; [|done]. rewrite lookup_empty. naive_solver.
Qed.

Lemma hs_collect_wf l : hs_wf (hs_collect l).
Proof.
  unfold hs_collect. assert (hs_wf ∅) as Hs by apply map_Forall_empty. revert Hs.
  generalize (∅ : key_set) as s. induction l; intros s Hs; [done|].
  cbn. eauto using hs_wf_insert.
Qed.

(** Inserting a list of pairs with pairwise different keys, in any order. *)
Definition hm_extend {V} (l : list (Key * V)) (m : key_map V) : key_map V :=
  foldl (λ m '(k, v), hm_insert k v m) m l.

Lemma hm_view_extend {V} (l : list (Key * V)) m :
  NoDup ((λ kv, segments kv.1) <$> l) →
  hm_view (hm_extend l m) = list_to_map ((λ '(k, v), (segments k, v)) <$> l) ∪ hm_view m.
Proof.
  unfold hm_extend. revert m. induction l as [|[k v] l IH]; intros m Hnd; cbn.
  { by rewrite (left_id_L ∅ (∪)). }
  apply NoDup_cons in Hnd as [Hk Hnd]. rewrite IH by done.
  rewrite hm_view_insert, <-insert_union_l, <-insert_union_r; [done|].
  apply not_elem_of_list_to_map_1. rewrite <-list_fmap_compose.
  intros ([k' v'] & ? & ?)%list_elem_of_fmap. apply Hk, list_elem_of_fmap. by exists (k', v').
Qed.

Lemma hm_view_extend_iter `{HashOrder} {V} (m1 m2 : key_map V) :
  hm_wf m1 → hm_view (hm_extend (hm_iter m1) m2) = hm_view m1 ∪ hm_view m2.
Proof.
  intros Hm. rewrite hm_view_extend by by apply hm_iter_NoDup. f_equal.
  apply map_eq. intros segs. apply option_eq. intros v.
  rewrite <-elem_of_list_to_map.
  2: { rewrite <-list_fmap_compose. rewrite (list_fmap_ext _ (λ kv, segments kv.1));
       [by apply hm_iter_NoDup|by intros ? [] ?]. }
  unfold hm_view. rewrite lookup_fmap, fmap_Some, list_elem_of_fmap. split.
  - intros ([k v'] & [= -> ->] & Hin%elem_of_hm_iter); [|done]. eauto.
  - intros ([k v'] & Hl & ->). exists (k, v'). pose proof (Hm _ _ Hl) as Hs; cbn in *.
    split; [by rewrite Hs|]. apply elem_of_hm_iter; [done|]. by rewrite Hs.
Qed.

Lemma hm_wf_extend {V} (l : list (Key * V)) m : hm_wf m → hm_wf (hm_extend l m).
Proof.
  revert m. induction l as [|[k v] l IH]; intros m Hm; [done|]. cbn. eauto using hm_wf_insert.
Qed.

(** Inserting pairwise different keys that are not in the map yet. *)
Lemma hm_extend_fresh {V} (l : list (Key * V)) (m : key_map V) :
  NoDup ((λ kv, segments kv.1) <$> l) → (∀ kv, kv ∈ l → m !! segments kv.1 = None) →
  hm_extend l m = list_to_map ((λ kv, (segments kv.1, kv)) <$> l) ∪ m.
Proof.
  unfold hm_extend. revert m. induction l as [|[k v] l IH]; intros m Hnd Hm; cbn.
  { by rewrite (left_id_L ∅ (∪)). }
  apply NoDup_cons in Hnd as [Hk Hnd].
  assert (hm_insert k v m = <[segments k := (k, v)]> m) as Hi.
  { unfold hm_insert. specialize (Hm (k, v)). cbn in Hm. by rewrite Hm by set_solver. }
  rewrite Hi, IH; [|done|].
  - rewrite <-insert_union_l, <-insert_union_r; [done|].
    apply not_elem_of_list_to_map_1. rewrite <-list_fmap_compose. done.
  - intros kv Hkv. rewrite lookup_insert_ne; [set_solver|].
    intros E. apply Hk. cbn. rewrite E. set_solver.
Qed.

Lemma hm_collect_elem {V} (l : list (Key * V)) segs kv :
  NoDup ((λ kv, segments kv.1) <$> l) →
  hm_collect l !! segs = Some kv ↔ kv ∈ l ∧ segments kv.1 = segs.
Proof.
  intros Hnd. change (hm_collect l) with (hm_extend l ∅).
  rewrite hm_extend_fresh, (right_id_L ∅ (∪)) by done.
  rewrite <-elem_of_list_to_map by by rewrite <-list_fmap_compose.
  rewrite list_elem_of_fmap. naive_solver.
Qed.

Lemma hm_keys_NoDup `{HashOrder} {V} (m : key_map V) : hm_wf m → NoDup (segments <$> hm_keys m).
Proof.
  intros Hm. unfold hm_keys. rewrite <-list_fmap_compose. by apply hm_iter_NoDup.
Qed.

Lemma elem_of_hm_keys `{HashOrder} {V} (m : key_map V) k :
  hm_wf m → k ∈ hm_keys m ↔ ∃ v, m !! segments k = Some (k, v).
Proof.
  intros Hm. unfold hm_keys. rewrite list_elem_of_fmap. split.
  - intros ([k' v] & -> & Hin). exists v. by apply elem_of_hm_iter.
  - intros [v Hv]. exists (k, v). split; [done|]. by apply elem_of_hm_iter.
Qed.

(** The keys of a map that satisfy [P], collected into a set. *)
Lemma hs_collect_filter_keys `{HashOrder} {V} (P : Key → Prop) `{∀ k, Decision (P k)}
    (m : key_map V) :
  hm_wf m → hs_collect (filter P (hm_keys m)) = fst <$> filter (λ e, P e.2.1) m.
Proof.
  intros Hm. apply map_eq. intros segs. apply option_eq. intros k.
  assert (NoDup (segments <$> filter P (hm_keys m))) as Hnd.
  { eapply sublist_NoDup; [by apply (hm_keys_NoDup m)|]. apply fmap_sublist, sublist_filter. }
  rewrite hs_collect_elem, list_elem_of_filter, elem_of_hm_keys, lookup_fmap_Some by done.
  setoid_rewrite map_lookup_filter_Some. split.
  - intros [[Hp [v Hv]] <-]. by exists (k, v).
  - intros ([k' v] & E & Hv & Hp). cbn in *. subst k'.
    pose proof (Hm _ _ Hv) as Hs. cbn in Hs. subst segs. eauto.
Qed.

Lemma hs_collect_keys `{HashOrder} {V} (m : key_map V) :
  hm_wf m → hs_collect (hm_keys m) = fst <$> m.
Proof.
  intros Hm. apply map_eq. intros segs. apply option_eq. intros k.
  rewrite hs_collect_elem, elem_of_hm_keys, lookup_fmap_Some by (done || by apply hm_keys_NoDup).
  split.
  - intros [[v Hv] <-]. by exists (k, v).
  - intros ([k' v] & E & Hv). cbn in E. subst k'.
    pose proof (Hm _ _ Hv) as Hs. cbn in Hs. subst segs. eauto.
Qed.

(** Inserting entries one by one: a key that was already in the map stays, with
    its new value; the other keys are untouched. *)
Lemma hm_extend_lookup_notin {V} (l : list (Key * V)) (m : key_map V) segs :
  segs ∉ (λ kv, segments kv.1) <$> l → hm_extend l m !! segs = m !! segs.
Proof.
  unfold hm_extend. revert m. induction l as [|[k0 v0] l IH]; intros m Hl; [done|].
  apply not_elem_of_cons in Hl as [Hk Hl]. cbn in *. rewrite IH by done.
  unfold hm_insert. destruct (m !! segments k0) as [[]|]; by rewrite lookup_insert_ne.
Qed.

Lemma hm_extend_lookup_in {V} (l : list (Key * V)) (m : key_map V) k v :
  NoDup ((λ kv, segments kv.1) <$> l) → (k, v) ∈ l →
  hm_extend l m !! segments k = Some (from_option fst k (m !! segments k), v).
Proof.
  revert m. induction l as [|[k0 v0] l IH]; intros m Hnd Hin;
    [by apply not_elem_of_nil in Hin|].
  apply NoDup_cons in Hnd as [Hk0 Hnd].
  change (hm_extend ((k0, v0) :: l) m) with (hm_extend l (hm_insert k0 v0 m)).
  apply elem_of_cons in Hin as [[= -> ->]|Hl].
  - rewrite hm_extend_lookup_notin by done.
    unfold hm_insert. destruct (m !! segments k0) as [[]|]; by rewrite lookup_insert_eq.
  - rewrite IH by done. do 2 f_equal. assert (segments k0 ≠ segments k) as Hne.
    { intros E. apply Hk0, list_elem_of_fmap. by exists (k, v). }
    unfold hm_insert. destruct (m !! segments k0) as [[]|]; by rewrite lookup_insert_ne.
Qed.

(** The order of the insertions does not matter. *)
Lemma hm_extend_perm {V} (l1 l2 : list (Key * V)) (m : key_map V) :
  NoDup ((λ kv, segments kv.1) <$> l1) → l1 ≡ₚ l2 → hm_extend l1 m = hm_extend l2 m.
Proof.
  intros Hnd Hp. assert (NoDup ((λ kv, segments kv.1) <$> l2)) as Hnd2 by by rewrite <-Hp.
  apply map_eq. intros segs.
  destruct (decide (segs ∈ (λ kv, segments kv.1) <$> l1)) as [He|Hn].
  - apply list_elem_of_fmap in He as ([k v] & -> & Hin). cbn.
    assert ((k, v) ∈ l2) by (by rewrite <-Hp).
    by rewrite (hm_extend_lookup_in l1 m k v), (hm_extend_lookup_in l2 m k v).
  - assert (segs ∉ (λ kv, segments kv.1) <$> l2) by (by rewrite <-Hp).
    by rewrite !hm_extend_lookup_notin.
Qed.

Lemma hm_iter_order {V} (H1 H2 : HashOrder) (m : key_map V) :
  @hm_iter H1 V m ≡ₚ @hm_iter H2 V m.
Proof. unfold hm_iter. by rewrite !hash_iter_perm. Qed.
