(* ===== verification/Serialization.v ===== *)
(** * Serialization into key/value pairs
    ([sources/api/datastore/src/serialization/])

    [to_pairs] and [to_pairs_with_prefix] flatten a [serde_json::Value] into
    data store keys and JSON texts.  [serialize] is the composition of
    [Value::serialize] with the [Serializer] of [pairs.rs]: each arm is the
    callback serde makes for that kind of value.  [leaves] is the specification:
    the non-null scalars and arrays of the value with their paths. *)
From S2P Require Import Prelude DsError Key Json KeyMap.
From stdpp Require Import base list strings gmap.
From stdpp Require Import options.

(** ** Definitions *)

(** [serialization::Error]; the message of [InvalidKey] is kept as the data
    store error it is made from. *)
Inductive ser_error :=
| SeMessage (msg : string)
| SeInternal (msg : string)
| SeInvalidKey (source : error)
| SeMissingPrefix (value : string)
| SeSerialization (given : string)
| SeDeserialization (given : string)
| SeInvalidType (typename : string)
| SeBadMapKey (typename : string).

Definition expect_prefix (maybe_prefix : option Key) (value : string) : result ser_error Key :=
  ok_or maybe_prefix (SeMissingPrefix value).

Definition key_append_or_create (old_prefix : option Key) (key : Key) : result ser_error Key :=
  match old_prefix with
  | Some old_prefix => map_err SeInvalidKey (append_key old_prefix key)
  | None => Ok key
  end.

(** [MapKeySerializer::serialize_str]. *)
Definition map_key_serialize_str (value : string) : result ser_error string :=
  let? key := map_err SeInvalidKey (from_segments Data [value]) in
  Ok (name key).

Section serializer.
Context `{SerdeJson}.

(** The macro [concrete_output!]. *)
Definition concrete_output (prefix : option Key) (value : json) (output : key_map string) :
    result ser_error (key_map string) :=
  let? value := map_err (λ _, SeSerialization "concrete value") (serialize_scalar value) in
  let? prefix := expect_prefix prefix value in
  Ok (hm_insert prefix value output).

(** [SerializeMap::serialize_key]: the key under which the next value goes. *)
Definition serialize_key (prefix : option Key) (key : string) : result ser_error Key :=
  let? key_str := map_key_serialize_str key in
  let? key := map_err SeInvalidKey (key_new Data key_str) in
  key_append_or_create prefix key.

(** [FlatSerializer::serialize_element]. *)
Definition serialize_element (value : json) : result ser_error string :=
  map_err (λ _, SeSerialization "list element") (json_to_string value).

(** [FlatSerializer::end]: parse the elements back and print the list. *)
Definition flat_end (list : list string) (prefix : Key) (output : key_map string) :
    result ser_error (key_map string) :=
  let? originals :=
    mapM (λ original, map_err (λ _, SeDeserialization "list element") (json_from_str original))
      list in
  let? text := map_err (λ _, SeSerialization "list") (json_to_string (JArray originals)) in
  Ok (hm_insert prefix text output).

Fixpoint serialize (value : json) (prefix : option Key) (output : key_map string) :
    result ser_error (key_map string) :=
  match value with
  | JNull => Ok output
  | JBool _ | JNumber _ | JString _ => concrete_output prefix value output
  | JArray elements =>
      let? prefix := expect_prefix prefix "seq" in
      let? list := mapM serialize_element elements in
      flat_end list prefix output
  | JObject entries =>
      (fix serialize_entries (entries : list (string * json)) (output : key_map string) :=
         match entries with
         | [] => Ok output
         | (key, value) :: entries =>
             let? key := serialize_key prefix key in
             let? output := serialize value (Some key) output in
             serialize_entries entries output
         end) entries output
  end.

Definition to_pairs (value : json) : result ser_error (key_map string) :=
  serialize value None ∅.

Definition to_pairs_with_prefix (prefix : string) (value : json) :
    result ser_error (key_map string) :=
  let? prefix_key := map_err SeInvalidKey (key_new Data prefix) in
  serialize value (Some prefix_key) ∅.
End serializer.

(** ** Specification *)

(** The non-null scalars and the arrays of a value, with their paths. *)
Fixpoint leaves (v : json) : list (list string * json) :=
  match v with
  | JNull => []
  | JObject m => foldr (λ kv l, ((λ pv, (kv.1 :: pv.1, pv.2)) <$> leaves kv.2) ++ l) [] m
  | _ => [([], v)]
  end.

(** The paths of all object entries. *)
Fixpoint nodes (v : json) : list (list string) :=
  match v with
  | JObject m => foldr (λ kv l, ([kv.1] :: (cons kv.1 <$> nodes kv.2)) ++ l) [] m
  | _ => []
  end.

Definition path_ok (prefix path : list string) : Prop :=
  Forall (λ s, segment_ok s ∧ s ≠ EmptyString) path ∧
  str_len (encoded (prefix ++ path)) ≤ MAX_KEY_NAME_LENGTH.

Definition entries_fold `{SerdeJson} (prefix : option Key) :=
  fix serialize_entries (entries : list (string * json)) (output : key_map string) :
      result ser_error (key_map string) :=
    match entries with
    | [] => Ok output
    | (key, value) :: entries =>
        let? key := serialize_key prefix key in
        let? output := serialize value (Some key) output in
        serialize_entries entries output
    end.

Definition text `{SerdeJson} (v : json) : string := default EmptyString (ok (json_to_string v)).

(** Writing leaves under a prefix, one after the other. *)
Definition write_leaves `{SerdeJson} (prefix : list string) (l : list (list string * json))
    (m : gmap (list string) string) : gmap (list string) string :=
  foldl (λ m pv, <[prefix ++ pv.1 := text pv.2]> m) m l.

(** ** Facts *)

Global Instance path_ok_dec prefix path : Decision (path_ok prefix path).
Proof. apply _. Defined.

Section facts.
Context `{SerdeJson}.

Lemma serialize_object m prefix output :
  serialize (JObject m) prefix output = entries_fold prefix m output.
Proof. done. Qed.

Lemma json_wf_text v : json_wf v → json_to_string v = Ok (text v).
Proof. unfold text. intros (s & -> & _)%json_roundtrip. done. Qed.

(** One map key below a prefix: accepted when it is a non-empty segment and the
    whole name is short enough. *)
Lemma serialize_key_outcome p k :
  Forall segment_ok (segments p) →
  if decide (path_ok (segments p) [k])
  then serialize_key (Some p) k =
         Ok (mk_key (encoded (segments p ++ [k])) (segments p ++ [k]))
  else ∃ e, serialize_key (Some p) k = Err (SeInvalidKey e).
Proof.
  intros Hp. unfold serialize_key, map_key_serialize_str. case_decide as Hok.
  - destruct Hok as [Hk Hl]. apply Forall_singleton in Hk as [Hk Hne].
    assert (str_len (encoded [k]) ≤ MAX_KEY_NAME_LENGTH) as Hlk.
    { etrans; [|exact Hl]. rewrite <-(app_nil_r [k]) at 2. by apply encoded_sublist. }
    assert (Forall segment_ok [k]) as Hks by by apply Forall_singleton.
    rewrite from_segments_Data_ok by done.
    cbn [name map_err mbind result_bind].
    rewrite key_new_encoded by (done || by apply Forall_singleton). cbn. unfold append_key. rewrite from_segments_Data_ok; [done|by destruct (segments p)|by apply Forall_app_2|done].
  - destruct (from_segments Data [k]) as [k1|e] eqn:E1; cbn; [|by eexists].
    apply from_segments_Data in E1 as (_ & Hk & _ & ->). cbn.
    change (quote_segment k) with (encoded [k]).
    destruct (key_new Data (encoded [k])) as [k2|e] eqn:E2; cbn; [|by eexists].
    unfold append_key. destruct (from_segments _ _) as [k3|e] eqn:E3; cbn; [|by eexists].
    destruct Hok. apply key_new_Ok in E2 as (E2 & _ & _).
    assert (k ≠ EmptyString) as Hne by (by intros ->).
    rewrite parse_encode with (segs := [k]) in E2; [|done|by apply Forall_singleton|
      by apply encode_name_segments_Ok]. injection E2 as E2. rewrite <-E2 in E3.
    apply from_segments_Data in E3 as (_ & _ & Hl & _).
    split; [|done]. apply Forall_singleton. split; [|done]. by apply Forall_singleton.
Qed.

Lemma mapM_Ok {A B E} (f : A → result E B) l l' :
  Forall2 (λ x y, f x = Ok y) l l' → mapM f l = Ok l'.
Proof. induction 1 as [|x y l l' Hx _ IH]; cbn; [done|]. by rewrite Hx; cbn; rewrite IH. Qed.

(** Printing the elements, parsing them back and printing the list again is
    printing the list. *)
Lemma array_text l p output :
  json_wf (JArray l) →
  (let? list := mapM serialize_element l in flat_end list p output) =
  Ok (hm_insert p (text (JArray l)) output).
Proof.
  intros Hwf. rewrite (mapM_Ok _ _ (text <$> l)).
  - cbn. unfold flat_end. rewrite (mapM_Ok _ _ l).
    + cbn -[text json_wf]. rewrite json_wf_text by done. done.
    + cbn in Hwf. induction l as [|x l IH]; cbn in *; constructor; [|naive_solver].
      destruct Hwf as [(s & Hs & Hp)%json_roundtrip _]. unfold text. by rewrite Hs; cbn; rewrite Hp.
  - cbn in Hwf. induction l as [|x l IH]; cbn in *; constructor; [|naive_solver].
    unfold serialize_element. rewrite json_wf_text; naive_solver.
Qed.

Lemma path_ok_cons prefix k path :
  path_ok (prefix ++ [k]) path → path_ok prefix [k] → path_ok prefix (k :: path).
Proof.
  intros [Hp Hl] [Hk _]. apply Forall_cons in Hk as [Hk _]. rewrite <-app_assoc in Hl.
  split; [by apply Forall_cons|done].
Qed.

Lemma path_ok_cons_inv prefix k path :
  path_ok prefix (k :: path) → path_ok (prefix ++ [k]) path.
Proof. intros [Hp Hl]. rewrite cons_middle, app_assoc in Hl. apply Forall_cons in Hp as [_ Hp]. done. Qed.

Lemma write_leaves_app prefix l1 l2 m :
  write_leaves prefix (l1 ++ l2) m = write_leaves prefix l2 (write_leaves prefix l1 m).
Proof. apply foldl_app. Qed.

Lemma write_leaves_cons prefix k l m :
  write_leaves prefix ((λ pv, (k :: pv.1, pv.2)) <$> l) m = write_leaves (prefix ++ [k]) l m.
Proof.
  unfold write_leaves. revert m. induction l as [|[path v] l IH]; intros m; [done|].
  cbn. by rewrite IH, <-app_assoc.
Qed.

Lemma nodes_cons prefix k v m :
  Forall (path_ok prefix) (nodes (JObject ((k, v) :: m))) ↔
  path_ok prefix [k] ∧ Forall (path_ok (prefix ++ [k])) (nodes v) ∧
  Forall (path_ok prefix) (nodes (JObject m)).
Proof.
  cbn. rewrite Forall_cons, Forall_app, Forall_fmap. split; intros (Hk & Hv & Hm); split_and!; try done.
  - eapply Forall_impl; [exact Hv|]. intros path. apply path_ok_cons_inv.
  - eapply Forall_impl; [exact Hv|]. intros path ?. by apply path_ok_cons.
Qed.

(** Serializing below a prefix writes the leaves when every path makes a key,
    and fails on an invalid key otherwise. *)
Lemma serialize_outcome v p output :
  json_wf v → Forall segment_ok (segments p) →
  if decide (Forall (path_ok (segments p)) (nodes v))
  then ∃ output', serialize v (Some p) output = Ok output' ∧
         hm_view output' = write_leaves (segments p) (leaves v) (hm_view output) ∧
         (hm_wf output → hm_wf output')
  else ∃ e, serialize v (Some p) output = Err (SeInvalidKey e).
Proof.
  revert p output. induction v as [|b|n|s|l IH|m IH] using json_ind'; intros p output Hwf Hp.
  1: rewrite decide_True by constructor; by exists output.
  1-3: rewrite decide_True by constructor; cbn [serialize]; unfold concrete_output, serialize_scalar;
    rewrite json_wf_text by done; eexists; split; [done|];
    (split; [by rewrite hm_view_insert; cbn; rewrite app_nil_r|apply hm_wf_insert]).
  { rewrite decide_True by constructor. cbn [serialize]. cbn [expect_prefix ok_or mbind result_bind].
    rewrite array_text by done. eexists. split; [done|].
    (split; [by rewrite hm_view_insert; cbn; rewrite app_nil_r|apply hm_wf_insert]). }
  rewrite serialize_object. cbn in Hwf. destruct Hwf as [_ Hwf].
  revert output. induction IH as [|[k v] m Hv _ IHm]; intros output.
  { rewrite decide_True by constructor. by exists output. }
  cbn [entries_fold]. cbn in Hv, Hwf. destruct Hwf as [Hwv Hwf].
  pose proof (serialize_key_outcome p k Hp) as Hkey. pose proof (nodes_cons (segments p) k v m) as Hn.
  destruct (decide (path_ok (segments p) [k])) as [Hk|Hk].
  2: { rewrite decide_False by (by intros (? & _)%Hn). destruct Hkey as [e ->]. by exists e. }
  rewrite Hkey. cbn [mbind result_bind].
  assert (Forall segment_ok (segments p ++ [k])) as Hp'.
  { apply Forall_app_2, Forall_singleton; [done|]. destruct Hk as [Hk _]. by apply Forall_cons in Hk as [[] _]. }
  specialize (Hv (mk_key (encoded (segments p ++ [k])) (segments p ++ [k])) output Hwv Hp').
  cbn [segments] in Hv. destruct (decide (Forall _ (nodes v))) as [Hnv|Hnv].
  2: { rewrite decide_False by (by intros (_ & ? & _)%Hn). destruct Hv as [e ->]. by exists e. }
  destruct Hv as (o1 & -> & Hview & Hwf1). cbn [mbind result_bind]. specialize (IHm Hwf o1).
  destruct (decide (Forall _ (nodes (JObject m)))) as [Hm|Hm].
  - rewrite decide_True by (by apply Hn). destruct IHm as (o2 & -> & Hv2 & Hw2).
    exists o2. split; [done|]. split; [|auto].
    rewrite Hv2, Hview. cbn [leaves foldr fst snd]. by rewrite write_leaves_app, write_leaves_cons.
  - rewrite decide_False by (by intros (_ & _ & ?)%Hn). exact IHm.
Qed.
End facts.

(** Every pair the serializer writes has a proper key, filed under its segments. *)
Definition out_wf (m : key_map string) : Prop :=
  map_Forall (λ segs kv, segments kv.1 = segs ∧ proper_key kv.1) m.

Lemma out_wf_insert k v m : out_wf m → proper_key k → out_wf (hm_insert k v m).
Proof.
  unfold out_wf, hm_insert. intros Hm Hk. destruct (m !! segments k) as [[k0 v0]|] eqn:E.
  - apply map_Forall_insert_2; [|done]. apply (Hm _ _ E).
  - by apply map_Forall_insert_2.
Qed.

Lemma serialize_key_wf p k k' :
  from_option proper_key True p → serialize_key p k = Ok k' → proper_key k'.
Proof.
  unfold serialize_key, key_append_or_create. intros Hp Hs. rinv. destruct p as [p|]; rinv.
  - eauto with keys.
  - eauto with keys.
Qed.

Lemma serialize_out_wf `{SerdeJson} v p out out' :
  from_option proper_key True p → out_wf out → serialize v p out = Ok out' → out_wf out'.
Proof.
  revert p out out'. induction v as [| | | |l IH|m IH] using json_ind'; intros p out out' Hp Ho Hs.
  1: by injection Hs as <-.
  1-3: cbn [serialize] in Hs; unfold concrete_output, expect_prefix in Hs; destruct p as [p|]; rinv;
    by apply out_wf_insert.
  - cbn [serialize] in Hs. unfold flat_end, expect_prefix in Hs. destruct p as [p|]; rinv.
    by apply out_wf_insert.
  - rewrite serialize_object in Hs. revert out Ho Hs. induction IH as [|[k v] m Hv _ IHm];
      intros out Ho Hs; cbn [entries_fold] in Hs; [by injection Hs as <-|].
    destruct (serialize_key p k) as [k'|] eqn:Ek; [|done]. cbn [mbind result_bind] in Hs.
    destruct (serialize v (Some k') out) as [o|] eqn:Eo; [|done]. cbn [mbind result_bind] in Hs.
    apply (IHm o); [|done]. apply (Hv (Some k') out); [|done|done]. by eapply serialize_key_wf.
Qed.

Lemma to_pairs_with_prefix_wf `{SerdeJson} prefix v out :
  to_pairs_with_prefix prefix v = Ok out → out_wf out.
Proof.
  unfold to_pairs_with_prefix. intros Hs. destruct (key_new Data prefix) as [p|] eqn:E; [|done].
  apply (serialize_out_wf v (Some p) ∅); [by eapply key_new_proper|apply map_Forall_empty|exact Hs].
Qed.

Lemma to_pairs_wf `{SerdeJson} v out : to_pairs v = Ok out → out_wf out.
Proof. apply (serialize_out_wf v None ∅); [done|apply map_Forall_empty]. Qed.

Lemma out_wf_hm_wf m : out_wf m → hm_wf m.
Proof. intros Hm. eapply map_Forall_impl; [exact Hm|]. naive_solver. Qed.

(** ** The pairs are the leaves *)

Lemma leaves_object_elem m path leaf :
  (path, leaf) ∈ leaves (JObject m) ↔
  ∃ k v path', (k, v) ∈ m ∧ path = k :: path' ∧ (path', leaf) ∈ leaves v.
Proof.
  induction m as [|[k v] m IH]; cbn.
  { split; [by intros ?%not_elem_of_nil|]. by intros (? & ? & ? & ?%not_elem_of_nil & _). }
  fold (leaves (JObject m)). rewrite elem_of_app, list_elem_of_fmap, IH. split.
  - intros [([path' leaf'] & [= -> ->] & Hin)|(k' & v' & path' & Hin & -> & Hl)].
    + exists k, v, path'. split_and!; [by left|done|done].
    + exists k', v', path'. split_and!; [by right|done|done].
  - intros (k' & v' & path' & [[= -> ->]|Hin]%elem_of_cons & -> & Hl).
    + left. by exists (path', leaf).
    + right. by exists k', v', path'.
Qed.

Lemma json_wf_object k v m :
  json_wf (JObject ((k, v) :: m)) ↔ (k ∉ m.*1) ∧ json_wf v ∧ json_wf (JObject m).
Proof. cbn. rewrite NoDup_cons. naive_solver. Qed.

Lemma leaves_NoDup v : json_wf v → NoDup (leaves v).*1.
Proof.
  induction v as [| | | |l IH|m IH] using json_ind'; intros Hwf;
    try (apply NoDup_singleton || apply NoDup_nil_2).
  induction IH as [|[k v] m Hv _ IHm]; [apply NoDup_nil_2|]. cbn in Hv.
  apply json_wf_object in Hwf as (Hk & Hwv & Hwm). cbn. fold (leaves (JObject m)).
  rewrite fmap_app. apply NoDup_app. split_and!; [|intros path Hp|by apply IHm].
  - rewrite <-list_fmap_compose.
    rewrite (list_fmap_ext _ (cons k ∘ fst)) by done. rewrite list_fmap_compose.
    apply NoDup_fmap_2; [by intros ?? [= ->]|by apply Hv].
  - apply list_elem_of_fmap in Hp as ([path' leaf] & -> & Hp).
    apply list_elem_of_fmap in Hp as ([path'' leaf''] & [= -> ->] & _).
    intros ([path3 leaf3] & E & Hl)%list_elem_of_fmap. cbn in E. subst path3.
    apply leaves_object_elem in Hl as (k' & v' & ? & Hin & [= <- _] & _).
    apply Hk, list_elem_of_fmap. by exists (k, v').
Qed.

Lemma leaves_wf v path leaf : json_wf v → (path, leaf) ∈ leaves v → json_wf leaf.
Proof.
  revert path. induction v as [| | | |l IH|m IH] using json_ind'; intros path Hwf Hin;
    try (apply list_elem_of_singleton in Hin as [= -> ->]; done);
    [by apply not_elem_of_nil in Hin|].
  apply leaves_object_elem in Hin as (k & v & path' & Hin & -> & Hl).
  rewrite Forall_forall in IH. apply (IH (k, v) Hin path'); [|done].
  clear IH. induction m as [|[k' v'] m IHm]; [by apply not_elem_of_nil in Hin|].
  apply json_wf_object in Hwf as (_ & ? & ?).
  apply elem_of_cons in Hin as [[= -> ->]|Hin]; [done|by apply IHm].
Qed.

Lemma write_leaves_lookup `{SerdeJson} prefix l m segs t :
  NoDup l.*1 → (∀ path, path ∈ l.*1 → m !! (prefix ++ path) = None) →
  write_leaves prefix l m !! segs = Some t ↔
  (∃ path leaf, (path, leaf) ∈ l ∧ segs = prefix ++ path ∧ t = text leaf) ∨ m !! segs = Some t.
Proof.
  unfold write_leaves. revert m. induction l as [|[path leaf] l IH]; intros m Hnd Hm; cbn.
  { split; [by right|]. by intros [(? & ? & ?%not_elem_of_nil & _)|?]. }
  apply NoDup_cons in Hnd as [Hp Hnd]. rewrite IH; [|done|].
  - destruct (decide (segs = prefix ++ path)) as [->|Hne].
    + rewrite lookup_insert_eq, (Hm path) by (apply elem_of_cons; by left). split.
      * intros [(p' & l' & Hin & Heq & ->)|[= <-]]; left.
        -- exists p', l'. by split_and!; [right| |].
        -- exists path, leaf. by split_and!; [left| |].
      * intros [(p' & l' & [[= -> ->]|Hin]%elem_of_cons & Heq & ->)|?]; [by right| |done].
        left. by exists p', l'.
    + rewrite lookup_insert_ne by done. split.
      * intros [(p' & l' & Hin & -> & ->)|?]; [|by right]. left. exists p', l'.
        by split_and!; [right| |].
      * intros [(p' & l' & [[= -> ->]|Hin]%elem_of_cons & -> & ->)|?]; [done| |by right].
        left. by exists p', l'.
  - intros path' Hin. rewrite lookup_insert_ne; [apply Hm; by right|].
    intros Heq%(inj (app prefix)). by subst path'.
Qed.

(** C37. [to_pairs_with_prefix] on a well-formed value: when every path of the
    value makes a valid key, the result holds exactly the non-null scalars and
    arrays of the value, each under its full path and in its JSON text; when some
    path does not, the result is an invalid-key error. *)
Theorem to_pairs_with_prefix_leaves `{SerdeJson} prefix p v :
  key_new Data prefix = Ok p → json_wf v →
  if decide (Forall (path_ok (segments p)) (nodes v))
  then ∃ out, to_pairs_with_prefix prefix v = Ok out ∧ hm_wf out ∧
         ∀ segs t, hm_view out !! segs = Some t ↔
           ∃ path leaf, (path, leaf) ∈ leaves v ∧ segs = segments p ++ path ∧
             json_to_string leaf = Ok t
  else ∃ e, to_pairs_with_prefix prefix v = Err (SeInvalidKey e).
Proof.
  intros Hp Hwf. unfold to_pairs_with_prefix. rewrite Hp. cbn [map_err mbind result_bind].
  pose proof (serialize_outcome v p ∅ Hwf (wf_ok _ (key_new_wf _ _ _ Hp))) as Hs.
  case_decide; [|done]. destruct Hs as (out & -> & Hv & Hw). exists out.
  split_and!; [done|apply Hw, hm_wf_empty|]. intros segs t. rewrite Hv, write_leaves_lookup.
  - split.
    + intros [(path & leaf & Hin & -> & ->)|He]; [|done]. exists path, leaf.
      split_and!; [done|done|]. by eapply json_wf_text, leaves_wf.
    + intros (path & leaf & Hin & -> & Ht). left. exists path, leaf. split_and!; [done|done|].
      unfold text. by rewrite Ht.
  - by apply leaves_NoDup.
  - done.
Qed.

Lemma to_pairs_with_prefix_leaves_witness :
  let v := JObject [("motd", JString "hi"); ("ntp", JObject [("x", JNull)])] in
  ∃ out, @to_pairs_with_prefix example_json "settings" v = Ok out ∧ hm_wf out ∧
    ∀ segs t, hm_view out !! segs = Some t ↔
      ∃ path leaf, (path, leaf) ∈ leaves v ∧ segs = ["settings"] ++ path ∧
        @json_to_string example_json leaf = Ok t.
Proof.
  intros v.
  pose proof (@to_pairs_with_prefix_leaves example_json "settings"
    (mk_key "settings" ["settings"]) v eq_refl) as Hw.
  assert (json_wf v) as Hv.
  { cbn. split_and!; try done; apply (bool_decide_unpack _); vm_compute; exact I. }
  specialize (Hw Hv). rewrite decide_True in Hw; [exact Hw|].
  apply (bool_decide_unpack _). vm_compute. exact I.
Defined.
