(* ===== verification/Deserialization.v ===== *)
(** * Deserialization of key/value pairs
    ([sources/api/datastore/src/deserialization/pairs.rs])

    [from_map] and [from_map_with_prefix] rebuild a structure from dotted keys.
    serde's driving of the [CompoundDeserializer] is made explicit: the target
    type makes one call at the root ([de_call]) and is then given the entries
    of a map, whose values are scalars or further maps ([content]).  A rejected
    entry ends the deserialization; entries are read before they are visited. *)
From S2P Require Import Prelude DsError Key Json KeyMap.
From Stdlib Require Import Ascii.
From stdpp Require Import base list strings gmap.
From stdpp Require Import options.

(** ** Definitions *)

Inductive de_error :=
| DeMessage (msg : string)
| DeDeserializeScalar
| DeBadRoot
| DeStripPrefix (prefix name : string) (source : error)
| DeInvalidPrefix (prefix : string) (source : error)
(** Not a variant of [Error]: the recursion bound of the model was reached. *)
| DeOutOfFuel.

(** What a [ValueDeserializer] yields. *)
Inductive content :=
| Scalar (v : json)
| Compound (entries : list (string * content)).

(** The first call a type makes on its deserializer. *)
Inductive de_call :=
| CallStruct (name : string)
| CallMap
| CallAny.

Class Deserialize (T : Type) := {
  de_root : de_call;
  de_visit_map : list (string * content) → result string T }.

(** [str::to_lowercase] on ASCII letters. *)
Definition ascii_to_lower (c : ascii) : ascii :=
  let n := nat_of_ascii c in
  if (65 <=? n)%nat && (n <=? 90)%nat then ascii_of_nat (n + 32) else c.
Fixpoint to_lowercase (s : string) : string :=
  match s with
  | EmptyString => EmptyString
  | String c s => String (ascii_to_lower c) (to_lowercase s)
  end.

Section deserializer.
Context `{HashOrder} `{SerdeJson}.

(** The path [deserialize_struct] works with: at the root it is made from the
    struct's name. *)
Definition struct_path (name : string) (path : option Key) : result de_error (option Key) :=
  if str_is_empty name then Ok path
  else
    match path with
    | Some path => Ok (Some path)
    | None =>
        let? key := map_err (DeInvalidPrefix name) (from_segments Data [to_lowercase name]) in
        Ok (Some key)
    end.

(** Remove the known path from the beginning of the keys. *)
Fixpoint strip_path_loop (path : Key) (keys : list Key) (new_keys : key_set) :
    result de_error key_set :=
  match keys with
  | [] => Ok new_keys
  | key :: keys =>
      let? stripped := map_err (DeStripPrefix (Key.name path) (Key.name key))
                         (strip_prefix_segments key (segments path)) in
      strip_path_loop path keys (hs_insert stripped new_keys)
  end.

Definition strip_path (path : option Key) (keys : key_set) : result de_error key_set :=
  match path with
  | Some path => strip_path_loop path (hs_iter keys) ∅
  | None => Ok keys
  end.

(** The path of an entry. *)
Definition entry_path (path : option Key) (struct_name : string) : result error Key :=
  match path with
  | None => from_segments Data [struct_name]
  | Some old_path => append_segments old_path [struct_name]
  end.

(** The keys handed to the recursive call for [struct_name]. *)
Definition sub_keys (struct_name : string) (keys : key_set) : key_set :=
  hs_collect (omap (λ new_key, ok (Key.strip_prefix new_key struct_name))
    (filter (λ new_key, starts_with_segments new_key [struct_name] = true) (hs_iter keys))).

(** The closure of [filter_map] run over the keys, with the value each entry's
    deserializer yields; [recurse] is the nested [deserialize_struct]. *)
Fixpoint visit_keys (recurse : key_set → Key → result de_error (list (string * content)))
    (map : key_map string) (all_keys : key_set) (path : option Key)
    (todo : list Key) (structs_done : gset string) :
    result de_error (list (string * content)) :=
  match todo with
  | [] => Ok []
  | key :: todo =>
      match segments key with
      | [] => visit_keys recurse map all_keys path todo structs_done
      | struct_name :: segs =>
          match entry_path path struct_name with
          | Err _ => visit_keys recurse map all_keys path todo structs_done
          | Ok new_path =>
              if negb (bool_decide (segs = [])) then
                if bool_decide (struct_name ∈ structs_done)
                then visit_keys recurse map all_keys path todo structs_done
                else
                  let? entries := recurse (sub_keys struct_name all_keys) new_path in
                  let? rest := visit_keys recurse map all_keys path todo
                                 ({[struct_name]} ∪ structs_done) in
                  Ok ((struct_name, Compound entries) :: rest)
              else
                match hm_get new_path map with
                | None => visit_keys recurse map all_keys path todo structs_done
                | Some val =>
                    let? v := map_err (λ _, DeDeserializeScalar) (json_first_value val) in
                    let? rest := visit_keys recurse map all_keys path todo structs_done in
                    Ok ((struct_name, Scalar v) :: rest)
                end
          end
      end
  end.

(** The nested call is [deserialize_map] with a path, which is
    [deserialize_struct] without a name. *)
Fixpoint deserialize_struct (fuel : nat) (map : key_map string) (keys : key_set)
    (path : option Key) (name : string) : result de_error (list (string * content)) :=
  match fuel with
  | 0 => Err DeOutOfFuel
  | S fuel =>
      let? path := struct_path name path in
      let? keys := strip_path path keys in
      visit_keys (λ keys path, deserialize_struct fuel map keys (Some path) EmptyString)
        map keys path (hs_iter keys) ∅
  end.

Definition deserialize_map (fuel : nat) (map : key_map string) (keys : key_set)
    (path : option Key) : result de_error (list (string * content)) :=
  match path with
  | Some _ => deserialize_struct fuel map keys path EmptyString
  | None => Err DeBadRoot
  end.

Definition deserialize_any (fuel : nat) (map : key_map string) (keys : key_set)
    (path : option Key) : result de_error (list (string * content)) :=
  match path with
  | None => deserialize_struct fuel map keys path "settings"
  | Some _ => Err DeBadRoot
  end.

(** Every nested path is longer than the one above it, and a path has at most
    [MAX_KEY_NAME_LENGTH] bytes. *)
Definition FUEL : nat := MAX_KEY_NAME_LENGTH + 2.

(** [T::deserialize(de)] for the [CompoundDeserializer] of the root. *)
Definition root_deserialize {T} `{Deserialize T} (map : key_map string) (path : option Key) :
    result de_error T :=
  let keys := hs_collect (hm_keys map) in
  let? entries :=
    match de_root with
    | CallStruct name => deserialize_struct FUEL map keys path name
    | CallMap => deserialize_map FUEL map keys path
    | CallAny => deserialize_any FUEL map keys path
    end in
  map_err DeMessage (de_visit_map entries).

Definition from_map {T} `{Deserialize T} (map : key_map string) : result de_error T :=
  root_deserialize map None.

Definition from_map_with_prefix {T} `{Deserialize T} (prefix : option string)
    (map : key_map string) : result de_error T :=
  let? key_prefix :=
    match prefix with
    | None => Ok None
    | Some p => let? k := map_err (DeInvalidPrefix p) (key_new Data p) in Ok (Some k)
    end in
  root_deserialize map key_prefix.
End deserializer.

(** [serde_json::Value] as a target: a map becomes an object. *)
Fixpoint content_value (c : content) : json :=
  match c with
  | Scalar v => v
  | Compound entries =>
      JObject (foldl (λ m kv, obj_insert kv.1 kv.2 m) []
                ((λ kv, (kv.1, content_value kv.2)) <$> entries))
  end.

Global Instance value_deserialize : Deserialize json := {|
  de_root := CallAny;
  de_visit_map entries := Ok (content_value (Compound entries)) |}.

(** ** The recursion ends *)

Lemma encoded_snoc_len segs s :
  segs ≠ [] → str_len (encoded segs) < str_len (encoded (segs ++ [s])).
Proof.
  intros Hne. destruct segs as [|x l]; [done|]. unfold encoded.
  cbn [app]. apply (proj2 (Nat.succ_lt_mono _ _)). rewrite !str_join_weight.
  change (x :: (l ++ [s])) with ((x :: l) ++ [s]). unfold weight. rewrite sum_list_with_app. cbn. lia.
Qed.

Section fuel.
Context `{HashOrder} `{SerdeJson}.

Lemma visit_keys_fuel recurse map all_keys path todo structs_done :
  (∀ keys s p, entry_path path s = Ok p → recurse keys p ≠ Err DeOutOfFuel) →
  visit_keys recurse map all_keys path todo structs_done ≠ Err DeOutOfFuel.
Proof.
  intros Hrec. revert structs_done.
  induction todo as [|key todo IH]; intros structs_done; cbn; [done|].
  destruct (segments key) as [|s segs]; [done|].
  destruct (entry_path path s) as [p|e] eqn:Ep; [|done].
  destruct (negb _).
  - case_bool_decide; [done|]. specialize (Hrec (sub_keys s all_keys) s p Ep).
    destruct (recurse _ p) as [entries|e]; cbn; [|congruence].
    specialize (IH ({[s]} ∪ structs_done)).
    destruct (visit_keys _ _ _ _ _ _); cbn; congruence.
  - destruct (hm_get p map); [|done]. destruct (json_first_value _); cbn; [|done].
    specialize (IH structs_done). destruct (visit_keys _ _ _ _ _ _); cbn; congruence.
Qed.

Lemma strip_path_fuel path keys : strip_path path keys ≠ Err DeOutOfFuel.
Proof.
  destruct path as [p|]; [|done]. cbn. generalize (∅ : key_set).
  induction (hs_iter keys) as [|k l IH]; intros m; cbn; [done|].
  destruct (strip_prefix_segments _ _); cbn; done.
Qed.

Lemma deserialize_struct_path_fuel fuel map keys p :
  key_wf p → MAX_KEY_NAME_LENGTH < fuel + str_len (encoded (segments p)) →
  deserialize_struct fuel map keys (Some p) EmptyString ≠ Err DeOutOfFuel.
Proof.
  revert keys p. induction fuel as [|fuel IH]; intros keys p Hp Hf.
  { destruct Hp. lia. }
  cbn. pose proof (strip_path_fuel (Some p) keys) as Hs. cbn in Hs.
  destruct (strip_path_loop _ _ _) as [keys'|e]; cbn; [|congruence].
  apply visit_keys_fuel. intros keys'' s p' Hp'. cbn in Hp'. apply IH; [by eapply from_segments_wf|].
  unfold append_segments in Hp'. apply from_segments_Data in Hp' as (_ & _ & _ & ->). cbn [segments].
  pose proof (encoded_snoc_len (segments p) s (wf_ne _ Hp)). lia.
Qed.

Lemma deserialize_struct_fuel map keys path name :
  from_option key_wf True path →
  deserialize_struct FUEL map keys path name ≠ Err DeOutOfFuel.
Proof.
  intros Hp. assert (∃ fuel, FUEL = S fuel ∧ MAX_KEY_NAME_LENGTH < fuel) as (fuel & -> & Hf).
  { exists (S MAX_KEY_NAME_LENGTH). split; [apply Nat.add_comm|lia]. }
  cbn [deserialize_struct]. destruct (struct_path name path) as [path'|e] eqn:Es; cbn.
  2: { unfold struct_path in Es. destruct (str_is_empty name), path; try done.
       destruct (from_segments _ _); cbn in Es; congruence. }
  assert (from_option key_wf True path') as Hp'.
  { unfold struct_path in Es. destruct (str_is_empty name), path; try (by injection Es as <-).
    destruct (from_segments _ _) as [k|] eqn:Ek; [|done]. injection Es as <-.
    by eapply from_segments_wf. }
  pose proof (strip_path_fuel path' keys) as Hs.
  destruct (strip_path path' keys) as [keys'|e]; cbn; [|congruence].
  apply visit_keys_fuel. intros keys'' s p Hs'. apply deserialize_struct_path_fuel.
  - destruct path'; eapply from_segments_wf; exact Hs'.
  - lia.
Qed.
End fuel.

(** C40. Deserialization always ends: the recursion of [deserialize_struct] is
    bounded by the length of a key name, so [from_map] and
    [from_map_with_prefix] never run out of the model's fuel, whatever the
    input map and the iteration order of the sets are. *)
Theorem from_map_terminates `{HashOrder} `{SerdeJson} `{Deserialize T} prefix map :
  from_map map ≠ @Err _ T DeOutOfFuel ∧
  from_map_with_prefix prefix map ≠ @Err _ T DeOutOfFuel.
Proof.
  assert (∀ path, from_option key_wf True path → root_deserialize map path ≠ @Err _ T DeOutOfFuel)
    as Hroot.
  { intros path Hp. unfold root_deserialize, deserialize_map, deserialize_any.
    set (keys := hs_collect _). clearbody keys.
    assert (∀ name, deserialize_struct FUEL map keys path name ≠ Err DeOutOfFuel) as Hs
      by (intros; by apply deserialize_struct_fuel).
    destruct de_root as [name| |].
    - specialize (Hs name). destruct (deserialize_struct _ _ _ _ _); cbn; [|congruence].
      by destruct (de_visit_map _).
    - destruct path as [p|]; [|done]. specialize (Hs EmptyString).
      destruct (deserialize_struct _ _ _ _ _); cbn; [|congruence]. by destruct (de_visit_map _).
    - destruct path as [p|]; [done|]. specialize (Hs "settings").
      destruct (deserialize_struct _ _ _ _ _); cbn; [|congruence]. by destruct (de_visit_map _). }
  split; [by apply Hroot|]. unfold from_map_with_prefix. destruct prefix as [p|]; cbn; [|by apply Hroot].
  destruct (key_new Data p) as [k|e] eqn:Ek; cbn; [|done]. apply Hroot. by eapply key_new_wf.
Qed.

(** A key segment that holds the separator and has children is not read back.
    The nested keys are made with [strip_prefix], which compares text: the
    quoted segment in the name never equals the plain one, nothing is stripped,
    and the same entry nests until the path is too long. *)
Example dotted_parent_not_stripped :
  sub_keys (H := example_order) "a.b"
    {[ ["a.b"; "x"] := mk_key (encoded ["a.b"; "x"]) ["a.b"; "x"] ]}
  = {[ ["a.b"; "x"] := mk_key (encoded ["a.b"; "x"]) ["a.b"; "x"] ]}.
Proof. vm_compute. reflexivity. Qed.

(** The path is removed again from keys that are already relative to it: with
    three repeated segments the value below is lost. *)
Example repeated_path_loses_value :
  let segs := ["settings"; "settings"; "settings"; "settings"; "a"] in
  @from_map example_order example_json json _
    {[ segs := (mk_key (encoded segs) segs, example_to_string (JBool true)) ]}
  = Ok (JObject [("settings", JObject [])]).
Proof. vm_compute. reflexivity. Qed.
