(* ===== verification/DataStore.v ===== *)
(** * The [DataStore] trait ([sources/api/datastore/src/lib.rs] and
    [constraints_check.rs])

    The trait's required methods are the fields of the class [DataStore]; its
    provided methods ([get_metadata], [set_keys], [unset_keys], [get_prefix],
    [get_metadata_prefix]) are generic definitions over the class.

    [DataStoreSpec] states what a data store promises about its data: its
    operations act on a map of entries per [Committed].  The generic lemmas of
    this file and the controller's properties are proved against that
    interface; the implementations discharge it. *)
From S2P Require Import Prelude DsError Key KeyMap.
From stdpp Require Import base list strings gmap.
From stdpp Require Import options.

(** ** Definitions *)

Inductive Committed :=
| Live
| Pending (tx : string).

Global Instance Committed_eq_dec : EqDecision Committed.
Proof. solve_decision. Defined.

(** *** [constraints_check.rs] *)

Record ApprovedWrite := {
  aw_settings : key_map string;
  aw_metadata : list (Key * Key * string) }.

Inductive ConstraintCheckResult :=
| Reject (reason : string)
| Approve (write : ApprovedWrite).

(** [ApprovedWrite::try_from]. *)
Definition approved_write_try_from (r : ConstraintCheckResult) : result error ApprovedWrite :=
  match r with
  | Reject err => Err (ConstraintCheckReject err)
  | Approve w => Ok w
  end.

(** [ConstraintCheckResult::from(Option<ApprovedWrite>)]. *)
Definition check_result_from (o : option ApprovedWrite) : ConstraintCheckResult :=
  match o with
  | None => Reject "The write for the given transaction is rejected"
  | Some w => Approve w
  end.

(** *** The trait *)

Class DataStore (D : Type) := {
  key_populated : D → Key → Committed → result error bool;
  list_populated_keys : D → string → Committed → result error key_set;
  list_populated_metadata :
    D → string → Committed → option string → result error (key_map key_set);
  get_key : D → Key → Committed → result error (option string);
  set_key : Key → string → Committed → stres D error unit;
  unset_key : Key → Committed → stres D error unit;
  get_metadata_raw : D → Key → Key → Committed → result error (option string);
  set_metadata : Key → Key → string → Committed → stres D error unit;
  unset_metadata : Key → Key → stres D error unit;
  commit_transaction : ∀ {BE : Type},
    string → (Committed → stres D BE ConstraintCheckResult) → stres D error key_set;
  delete_transaction : string → stres D error key_set;
  list_transactions : D → result error (gset string) }.

Section provided.
Context `{HashOrder} `{DataStore D}.

(** The loop of [get_metadata] over the segments of the data key. *)
Fixpoint get_metadata_loop (self : D) (metadata_key : Key) (committed : Committed)
    (current_path todo : list string) (res : option string) :
    result error (option string) :=
  match todo with
  | [] => Ok res
  | component :: todo =>
      let current_path := current_path ++ [component] in
      match from_segments Data current_path with
      | Err _ => Err Panicked
      | Ok data_key =>
          let? md := get_metadata_raw self metadata_key data_key committed in
          get_metadata_loop self metadata_key committed current_path todo
            (match md with Some md => Some md | None => res end)
      end
  end.

Definition get_metadata (self : D) (metadata_key data_key : Key) (committed : Committed) :
    result error (option string) :=
  get_metadata_loop self metadata_key committed [] (segments data_key) None.

Definition set_keys (pairs : key_map string) (committed : Committed) : stres D error unit :=
  st_forM (hm_iter pairs) (λ '(key, value), set_key key value committed).

Definition unset_keys (keys : key_set) (committed : Committed) : stres D error unit :=
  st_forM (hs_iter keys) (λ key, unset_key key committed).

Fixpoint get_prefix_loop (self : D) (committed : Committed) (keys : list Key)
    (res : key_map string) : result error (key_map string) :=
  match keys with
  | [] => Ok res
  | key :: keys =>
      let? o := get_key self key committed in
      let? value := ok_or o (ListedKeyNotPresent (name key)) in
      get_prefix_loop self committed keys (hm_insert key value res)
  end.

Definition get_prefix (self : D) (find_prefix : string) (committed : Committed) :
    result error (key_map string) :=
  let? keys := list_populated_keys self find_prefix committed in
  if decide (keys = ∅) then Ok ∅
  else get_prefix_loop self committed (hs_iter keys) ∅.

(** Whether a metadata key has the requested name, if one was requested. *)
Definition name_requested (metadata_key_name : option string) (meta_key : Key) : bool :=
  match metadata_key_name with
  | Some n => bool_decide (n = name meta_key)
  | None => true
  end.

(** The inner loop of [get_metadata_prefix], over the metadata keys of one
    data key. *)
Fixpoint get_metadata_prefix_inner (self : D) (committed : Committed)
    (metadata_key_name : option string) (data_key : Key) (meta_keys : list Key)
    (res : key_map (key_map string)) : result error (key_map (key_map string)) :=
  match meta_keys with
  | [] => Ok res
  | meta_key :: meta_keys =>
      if negb (name_requested metadata_key_name meta_key)
      then get_metadata_prefix_inner self committed metadata_key_name data_key meta_keys res
      else
        let? o := get_metadata self meta_key data_key committed in
        let? value := ok_or o (ListedMetaNotPresent (name meta_key) (name data_key)) in
        get_metadata_prefix_inner self committed metadata_key_name data_key meta_keys
          (hm_entry data_key ∅ (hm_insert meta_key value) res)
  end.

Fixpoint get_metadata_prefix_outer (self : D) (committed : Committed)
    (metadata_key_name : option string) (meta_map : list (Key * key_set))
    (res : key_map (key_map string)) : result error (key_map (key_map string)) :=
  match meta_map with
  | [] => Ok res
  | (data_key, meta_keys) :: meta_map =>
      let? res := get_metadata_prefix_inner self committed metadata_key_name data_key
                    (hs_iter meta_keys) res in
      get_metadata_prefix_outer self committed metadata_key_name meta_map res
  end.

Definition get_metadata_prefix (self : D) (find_prefix : string) (committed : Committed)
    (metadata_key_name : option string) : result error (key_map (key_map string)) :=
  let? meta_map := list_populated_metadata self find_prefix committed metadata_key_name in
  if decide (meta_map = ∅) then Ok ∅
  else get_metadata_prefix_outer self committed metadata_key_name (hm_iter meta_map) ∅.
End provided.

(** ** Metadata inheritance *)

Section get_metadata.
Context `{HashOrder} `{DataStore D}.

(** The metadata found along the prefixes of a key, the last one winning. *)
Definition inherited (raw : list string → option string) (segs : list string) : option string :=
  foldl (λ res i, match raw (take (S i) segs) with Some md => Some md | None => res end)
    None (seq 0 (length segs)).

Lemma get_metadata_loop_spec d mk c raw path todo res :
  (∀ i, 0 < i → ∃ k, from_segments Data (take i (path ++ todo)) = Ok k) →
  (∀ k, get_metadata_raw d mk k c = Ok (raw (segments k))) →
  get_metadata_loop d mk c path todo res
  = Ok (foldl (λ res i, match raw (take (S i) (path ++ todo)) with
                        | Some md => Some md | None => res end)
          res (seq (length path) (length todo))).
Proof.
  intros Hp Hraw. revert path res Hp. induction todo as [|s todo IH]; intros path res Hp; [done|].
  rewrite cons_middle, app_assoc in *. cbn -[take].
  destruct (Hp (S (length path))) as [k Hk]; [lia|].
  assert (take (S (length path)) ((path ++ [s]) ++ todo) = path ++ [s]) as Ht.
  { apply take_app_length'. rewrite length_app. cbn. lia. }
  rewrite Ht in *. rewrite Hk. pose proof Hk as (_ & -> & _)%from_segments_Ok.
  rewrite Hraw. cbn -[take]. rewrite IH by done.
  by rewrite length_app, Nat.add_comm.
Qed.

(** [get_metadata] never reaches its [unreachable!] on a well-formed key and
    returns the metadata of the longest prefix that has any. *)
Lemma get_metadata_inherited d mk k c raw :
  key_wf k → (∀ k, get_metadata_raw d mk k c = Ok (raw (segments k))) →
  get_metadata d mk k c = Ok (inherited raw (segments k)).
Proof.
  intros Hk Hraw. unfold get_metadata. rewrite (get_metadata_loop_spec _ _ _ raw); [done| |done].
  intros i Hi. rewrite app_nil_l, from_segments_take by done. eauto.
Qed.
End get_metadata.

Lemma inherited_Some raw segs v :
  inherited raw segs = Some v ↔
  ∃ i, i < length segs ∧ raw (take (S i) segs) = Some v ∧
       ∀ j, i < j < length segs → raw (take (S j) segs) = None.
Proof.
  unfold inherited. generalize (length segs) as n. intros n. induction n as [|n IH].
  { cbn. split; [done|]. intros (i & ? & _). lia. }
  rewrite seq_S, foldl_app. cbn -[take]. destruct (raw (take (S n) segs)) as [w|] eqn:E.
  - split.
    + intros [= <-]. exists n. split_and!; [lia|done|lia].
    + intros (i & Hi & Hv & Hj). destruct (decide (i = n)) as [->|]; [congruence|].
      rewrite Hj in E by lia. done.
  - rewrite IH. split; intros (i & Hi & Hv & Hj); exists i.
    + split_and!; [lia|done|]. intros j ?. destruct (decide (j = n)); [congruence|apply Hj; lia].
    + split_and!; [destruct (decide (i = n)); [congruence|lia]|done|intros; apply Hj; lia].
Qed.

Lemma inherited_None raw segs :
  inherited raw segs = None ↔ ∀ i, i < length segs → raw (take (S i) segs) = None.
Proof.
  unfold inherited. generalize (length segs) as n. intros n. induction n as [|n IH].
  { cbn. split; [lia|done]. }
  rewrite seq_S, foldl_app. cbn -[take]. destruct (raw (take (S n) segs)) as [w|] eqn:E.
  - split; [done|]. intros Hn. rewrite Hn in E by lia. done.
  - rewrite IH. split; intros Hn i Hi; [|apply Hn; lia].
    destruct (decide (i = n)); [congruence|apply Hn; lia].
Qed.

(** ** What [get_metadata_prefix] collects *)

Definition has_meta (res : key_map (key_map string)) (dk mk : Key) (v : string) : Prop :=
  ∃ m, res !! segments dk = Some (dk, m) ∧ m !! segments mk = Some (mk, v).

(** The entry of [dk], if there is one, is filed with [dk] and holds none of the
    metadata keys [mks]. *)
Definition fresh_for (res : key_map (key_map string)) (dk : Key) (mks : list Key) : Prop :=
  ∀ k0 m, res !! segments dk = Some (k0, m) →
    k0 = dk ∧ ∀ mk, mk ∈ mks → m !! segments mk = None.

Lemma has_meta_insert res dk mks mk v :
  fresh_for res dk (mk :: mks) →
  has_meta (hm_entry dk ∅ (hm_insert mk v) res) dk mk v.
Proof.
  unfold has_meta, hm_entry, hm_insert. intros Hf.
  destruct (res !! segments dk) as [[k0 m]|] eqn:E.
  - destruct (Hf _ _ E) as [-> Hm]. rewrite (Hm mk) by (by left).
    eexists. split; apply lookup_insert_eq.
  - eexists. split; [apply lookup_insert_eq|]. rewrite lookup_empty. apply lookup_insert_eq.
Qed.

Lemma has_meta_insert_ne res dk mk v dk0 mk0 v0 :
  has_meta res dk0 mk0 v0 → segments dk0 ≠ segments dk ∨ segments mk0 ≠ segments mk →
  has_meta (hm_entry dk ∅ (hm_insert mk v) res) dk0 mk0 v0.
Proof.
  unfold has_meta, hm_entry. intros (m & Hm & Hv) Hne.
  destruct (decide (segments dk0 = segments dk)) as [E|Hd].
  - destruct Hne as [|Hne]; [done|]. rewrite <-E, Hm. eexists.
    split; [apply lookup_insert_eq|].
    unfold hm_insert. destruct (m !! segments mk) as [[]|]; by rewrite lookup_insert_ne.
  - exists m. split; [|done]. destruct (res !! segments dk) as [[]|]; by rewrite lookup_insert_ne.
Qed.

Lemma fresh_for_insert res dk mks mk v :
  segments mk ∉ segments <$> mks → fresh_for res dk (mk :: mks) →
  fresh_for (hm_entry dk ∅ (hm_insert mk v) res) dk mks.
Proof.
  unfold fresh_for, hm_entry. intros Hnd Hf k0 m Hm.
  assert (∀ mk0, mk0 ∈ mks → segments mk ≠ segments mk0) as Hne.
  { intros mk0 Hin E. apply Hnd. rewrite E. by apply list_elem_of_fmap_2. }
  destruct (res !! segments dk) as [[k1 m1]|] eqn:E; rewrite lookup_insert_eq in Hm;
    injection Hm as <- <-.
  - destruct (Hf _ _ eq_refl) as [-> Hm1]. split; [done|]. intros mk0 Hin. unfold hm_insert.
    rewrite (Hm1 mk) by (by left). rewrite lookup_insert_ne by auto. apply Hm1. by right.
  - split; [done|]. intros mk0 Hin. unfold hm_insert. rewrite lookup_empty, lookup_insert_ne by auto.
    done.
Qed.

Section get_metadata_prefix.
Context `{HashOrder} `{DataStore D}.

Lemma inner_keep d c n dk mks res res' dk0 mk0 v0 :
  get_metadata_prefix_inner d c n dk mks res = Ok res' → has_meta res dk0 mk0 v0 →
  segments dk0 ≠ segments dk ∨ (segments mk0 ∉ segments <$> mks) → has_meta res' dk0 mk0 v0.
Proof.
  revert res. induction mks as [|mk mks IH]; intros res Hi Hm Hne; cbn in Hi.
  { by injection Hi as <-. }
  assert (segments dk0 ≠ segments dk ∨ segments mk0 ≠ segments mk) as Hne1.
  { destruct Hne as [|Hne]; [by left|right]. by apply not_elem_of_cons in Hne as [? _]. }
  assert (segments dk0 ≠ segments dk ∨ (segments mk0 ∉ segments <$> mks)) as Hne2.
  { destruct Hne as [|Hne]; [by left|right]. by apply not_elem_of_cons in Hne as [_ ?]. }
  destruct (negb _); [by eapply IH|]. rinv. eapply IH; [exact Hi| |done].
  by apply has_meta_insert_ne.
Qed.

Lemma inner_has d c n dk mks res res' mk :
  get_metadata_prefix_inner d c n dk mks res = Ok res' → NoDup (segments <$> mks) →
  fresh_for res dk mks → mk ∈ mks → name_requested n mk = true →
  ∃ v, get_metadata d mk dk c = Ok (Some v) ∧ has_meta res' dk mk v.
Proof.
  revert res. induction mks as [|mk0 mks IH]; intros res Hi Hnd Hf Hin Hn; cbn in Hi.
  { by apply not_elem_of_nil in Hin. }
  apply NoDup_cons in Hnd as [Hmk0 Hnd]. apply elem_of_cons in Hin as [->|Hin].
  - rewrite Hn in Hi. cbn [negb] in Hi. rinv. eexists. split; [done|].
    eapply inner_keep; [exact Hi|by eapply has_meta_insert|by right].
  - destruct (negb _).
    + eapply IH; [exact Hi|done| |done|done]. intros k0 m Hm. destruct (Hf _ _ Hm) as [-> Hf'].
      split; [done|]. intros. apply Hf'. by right.
    + rinv. eapply IH; [exact Hi|done| |done|done]. by apply fresh_for_insert.
Qed.

Lemma inner_other d c n dk mks res res' segs :
  get_metadata_prefix_inner d c n dk mks res = Ok res' → segs ≠ segments dk →
  res' !! segs = res !! segs.
Proof.
  revert res. induction mks as [|mk0 mks IH]; intros res Hi Hne; cbn in Hi.
  { by injection Hi as <-. }
  destruct (negb _); [by eapply IH|]. rinv. rewrite (IH _ Hi Hne). unfold hm_entry.
  destruct (res !! segments dk) as [[]|]; by rewrite lookup_insert_ne.
Qed.

Lemma outer_keep d c n l res res' dk mk v :
  get_metadata_prefix_outer d c n l res = Ok res' → has_meta res dk mk v →
  (segments dk ∉ (λ e, segments e.1) <$> l) → has_meta res' dk mk v.
Proof.
  revert res. induction l as [|[dk0 mks] l IH]; intros res Ho Hm Hd; cbn in Ho.
  { by injection Ho as <-. }
  rinv. apply not_elem_of_cons in Hd as [Hd0 Hd]. eapply IH; [exact Ho| |done].
  eapply inner_keep; [eassumption|done|by left].
Qed.

Lemma outer_has d c n l res res' dk mks mk :
  get_metadata_prefix_outer d c n l res = Ok res' →
  NoDup ((λ e, segments e.1) <$> l) → (∀ e, e ∈ l → res !! segments e.1 = None) →
  (dk, mks) ∈ l → hs_wf mks → mks !! segments mk = Some mk → name_requested n mk = true →
  ∃ v, get_metadata d mk dk c = Ok (Some v) ∧ has_meta res' dk mk v.
Proof.
  intros Ho Hnd Hf Hin Hwf Hmk Hn. revert res Ho Hf.
  induction l as [|[dk0 mks0] l IH]; intros res Ho Hf; cbn in Ho.
  { by apply not_elem_of_nil in Hin. }
  rinv. match goal with H : get_metadata_prefix_inner _ _ _ _ _ _ = _ |- _ => rename H into Hi end.
  apply NoDup_cons in Hnd as [Hd0 Hnd]. apply elem_of_cons in Hin as [[= <- <-]|Hin].
  - eapply inner_has in Hi as (v & Hg & Hm); [|by apply hs_iter_NoDup| | |done].
    + exists v. split; [done|]. by eapply outer_keep.
    + intros k0 m Hm. pose proof (Hf (dk, mks) ltac:(by left)) as Hn0. cbn in Hn0. congruence.
    + apply elem_of_hash_iter. by eexists.
  - eapply IH; [done..|exact Ho|]. intros e He. rewrite (inner_other _ _ _ _ _ _ _ _ Hi).
    + apply Hf. by right.
    + intros E. apply Hd0. cbn. rewrite <-E. by apply (list_elem_of_fmap_2 (λ e, segments e.1)).
Qed.

(** When [get_metadata_prefix] succeeds, every listed pair of keys that was
    requested is in its answer with the value [get_metadata] finds. *)
Lemma get_metadata_prefix_has d p c n meta_map res dk mks mk :
  list_populated_metadata d p c n = Ok meta_map → hm_wf meta_map →
  get_metadata_prefix d p c n = Ok res →
  meta_map !! segments dk = Some (dk, mks) → hs_wf mks → mks !! segments mk = Some mk →
  name_requested n mk = true →
  ∃ v, get_metadata d mk dk c = Ok (Some v) ∧ has_meta res dk mk v.
Proof.
  intros Hl Hwf Hg Hd Hmks Hmk Hn. unfold get_metadata_prefix in Hg. rewrite Hl in Hg.
  cbn [mbind result_bind] in Hg. case_decide as E; [by subst|].
  eapply outer_has; [exact Hg|by apply hm_iter_NoDup|done| |done|done|done].
  by apply elem_of_hm_iter.
Qed.
End get_metadata_prefix.

(** ** What a data store promises *)

Class DataStoreSpec (D : Type) `{HashOrder} `{DataStore D} := {
  (** The invariant of the store, the keys and the transactions it is used with,
      and the entries it holds for each [Committed]. *)
  ds_inv : D → Prop;
  ds_key : Key → Prop;
  ds_committed : Committed → Prop;
  ds_entries : D → Committed → key_map string;
  ds_committed_live : ds_committed Live;
  ds_committed_listed d txs tx :
    ds_inv d → list_transactions d = Ok txs → tx ∈ txs → ds_committed (Pending tx);
  ds_entries_wf d c : ds_inv d → hm_wf (ds_entries d c);
  ds_entries_key d c segs k v :
    ds_inv d → ds_committed c → ds_entries d c !! segs = Some (k, v) → ds_key k;
  ds_get_key d k c o :
    ds_inv d → ds_key k → ds_committed c → get_key d k c = Ok o → o = hm_get k (ds_entries d c);
  ds_set_key d k v c d' u :
    ds_inv d → ds_key k → ds_committed c → set_key k v c d = (d', Ok u) →
    ds_inv d' ∧
    hm_view (ds_entries d' c) = <[segments k := v]> (hm_view (ds_entries d c)) ∧
    ∀ c', ds_committed c' → c' ≠ c → ds_entries d' c' = ds_entries d c';
  ds_unset_key d k c d' u :
    ds_inv d → ds_key k → ds_committed c → unset_key k c d = (d', Ok u) →
    ds_inv d' ∧
    hm_view (ds_entries d' c) = delete (segments k) (hm_view (ds_entries d c)) ∧
    ∀ c', ds_committed c' → c' ≠ c → ds_entries d' c' = ds_entries d c';
  ds_set_metadata d mk k v c d' u :
    ds_inv d → ds_key k → ds_committed c → set_metadata mk k v c d = (d', Ok u) →
    ds_inv d' ∧ ∀ c', ds_committed c' → ds_entries d' c' = ds_entries d c';
  ds_list_keys d p c ks :
    ds_inv d → ds_committed c → list_populated_keys d p c = Ok ks →
    ks = fst <$> filter (λ e, str_starts_with (name e.2.1) p = true) (ds_entries d c);
  ds_list_metadata_key d p c n md segs dk mks :
    ds_inv d → ds_committed c → list_populated_metadata d p c n = Ok md →
    md !! segs = Some (dk, mks) → ds_key dk }.

(** What a data store promises about transactions, next to its data.  The check of a
    commit only reads the store. *)
Class DataStoreTx (D : Type) `{DataStoreSpec D} := {
  ds_commit {BE} tx (check : Committed → stres D BE ConstraintCheckResult) d d' keys r :
    ds_inv d → ds_committed (Pending tx) → check (Pending tx) d = (d, r) →
    commit_transaction tx check d = (d', Ok keys) →
    (keys = ∅ ∧ d' = d ∧ ds_entries d (Pending tx) = ∅) ∨
    ∃ aw, r = Ok (Approve aw) ∧
      (hm_wf (aw_settings aw) → (∀ segs k v, aw_settings aw !! segs = Some (k, v) → ds_key k) →
       Forall (λ e, ds_key e.1.2) (aw_metadata aw) →
       keys = fst <$> aw_settings aw ∧ ds_inv d' ∧
       hm_view (ds_entries d' Live) = hm_view (aw_settings aw) ∪ hm_view (ds_entries d Live) ∧
       ds_entries d' (Pending tx) = ∅ ∧
       ∀ c, ds_committed c → c ≠ Live → c ≠ Pending tx → ds_entries d' c = ds_entries d c);
  ds_delete tx d d' keys :
    ds_inv d → ds_committed (Pending tx) → delete_transaction tx d = (d', Ok keys) →
    ds_inv d' ∧ ds_entries d' (Pending tx) = ∅ ∧
    ∀ c, ds_committed c → c ≠ Pending tx → ds_entries d' c = ds_entries d c }.

(** What a data store promises about commits that its constraint check does not
    approve: the commit of a listed transaction fails and changes nothing. *)
Class DataStoreGuard (D : Type) `{HashOrder} `{DataStore D} :=
  ds_commit_refused : ∀ {BE} tx (check : Committed → stres D BE ConstraintCheckResult) d txs r,
    list_transactions d = Ok txs → tx ∈ txs → check (Pending tx) d = (d, r) →
    (∀ aw, r ≠ Ok (Approve aw)) → ∃ e, commit_transaction tx check d = (d, Err e).

Section generic.
Context `{DataStoreSpec D}.

Lemma get_prefix_loop_Ok d c keys res m :
  get_prefix_loop d c keys res = Ok m →
  ∃ vals, Forall2 (λ k v, get_key d k c = Ok (Some v)) keys vals ∧
          m = hm_extend (zip keys vals) res.
Proof.
  revert res. induction keys as [|k keys IH]; intros res; cbn.
  { intros [= <-]. by exists []. }
  intros Hl. rinv. apply IH in Hl as (vals & Hv & ->).
  eexists (_ :: vals). split; [by constructor|done].
Qed.

(** [get_prefix] returns the entries whose key names start with the prefix. *)
Lemma get_prefix_entries d p c m :
  ds_inv d → ds_committed c → get_prefix d p c = Ok m →
  m = filter (λ e, str_starts_with (name e.2.1) p = true) (ds_entries d c).
Proof.
  unfold get_prefix. intros Hd Hcm Hg. rinv.
  match goal with H : list_populated_keys _ _ _ = _ |- _ =>
    apply ds_list_keys in H as ->; [|done..] end.
  pose proof (ds_entries_wf d c Hd) as Hwf.
  case_decide as Hempty; rinv.
  { symmetry. by eapply fmap_empty_inv. }
  apply get_prefix_loop_Ok in Hg as (vals & Hv & ->).
  set (es := filter _ _) in *.
  assert (hs_wf (fst <$> es)) as Hes.
  { intros segs k (kv & <- & Hkv)%lookup_fmap_Some. apply map_lookup_filter_Some in Hkv as [Hkv _].
    exact (Hwf _ _ Hkv). }
  assert ((zip (hs_iter (fst <$> es)) vals).*1 = hs_iter (fst <$> es)) as Hz.
  { apply fst_zip. apply Forall2_length in Hv. lia. }
  assert (NoDup ((λ kv, segments kv.1) <$> zip (hs_iter (fst <$> es)) vals)) as Hnd.
  { change (λ kv, _) with (segments ∘ @fst Key string).
    rewrite list_fmap_compose, Hz. by apply hs_iter_NoDup. }
  change (hm_extend ?l ∅) with (hm_collect l). apply map_eq. intros segs.
  apply option_eq. intros [k v]. rewrite hm_collect_elem by done.
  assert (∀ k v, (k, v) ∈ zip (hs_iter (fst <$> es)) vals →
            es !! segments k = Some (k, v)) as Hin.
  { intros k0 v0 (i & Hi)%list_elem_of_lookup.
    apply lookup_zip_with_Some in Hi as (k1 & v1 & [= <- <-] & Hk & Hv0).
    pose proof (Forall2_lookup_lr _ _ _ _ _ _ Hv Hk Hv0) as Hget.
    apply list_elem_of_lookup_2, elem_of_hash_iter in Hk as [segs0 Hs0].
    pose proof (Hes _ _ Hs0) as Hsegs. cbn in Hsegs. rewrite <-Hsegs in Hs0.
    apply lookup_fmap_Some in Hs0 as ([k1 v1] & Hk1 & Hes1). cbn in Hk1. subst k1.
    pose proof Hes1 as [He _]%map_lookup_filter_Some.
    apply ds_get_key in Hget; [|done|by eapply ds_entries_key|done].
    unfold hm_get in Hget. rewrite He in Hget. cbn in Hget. congruence. }
  split.
  - intros [Hkv <-]. cbn. by apply Hin.
  - intros Hes1. assert (segments k = segs) as <-.
    { pose proof Hes1 as [He _]%map_lookup_filter_Some. exact (Hwf _ _ He). }
    split; [|done]. assert (k ∈ hs_iter (fst <$> es)) as Hk.
    { apply elem_of_hash_iter. exists (segments k). by rewrite lookup_fmap, Hes1. }
    rewrite <-Hz in Hk. apply list_elem_of_fmap in Hk as ([k' v'] & E & Hk'). cbn in E. subst k'.
    pose proof (Hin _ _ Hk') as Hes2. rewrite Hes1 in Hes2. by injection Hes2 as ->.
Qed.

(** The data keys of the metadata of a store are keys it is used with. *)
Lemma get_metadata_prefix_keys d p c n md :
  ds_inv d → ds_committed c → get_metadata_prefix d p c n = Ok md →
  map_Forall (λ _ e, ds_key e.1) md.
Proof.
  intros Hd Hcm. unfold get_metadata_prefix. intros Hg.
  destruct (list_populated_metadata d p c n) as [mm|] eqn:E; [|done].
  cbn [mbind result_bind] in Hg. case_decide; [by injection Hg as <-|].
  assert (Forall (λ e, ds_key e.1) (hm_iter mm)) as Hl.
  { apply Forall_forall. intros [dk mks] [segs Hs]%elem_of_hash_iter.
    by eapply ds_list_metadata_key. }
  assert (map_Forall (λ (_ : list string) e, ds_key e.1) (∅ : key_map (key_map string))) as Hres by apply map_Forall_empty.
  revert Hg Hres. generalize (∅ : key_map (key_map string)) as res.
  induction Hl as [|[dk mks] l Hk Hl IH]; intros res Hg Hres; cbn in Hg; [by injection Hg as <-|].
  rinv. eapply IH; [exact Hg|]. match goal with H : _ = Ok ?x |- map_Forall _ ?x => revert H end.
  clear IH Hg. revert res Hres. induction (hs_iter mks) as [|mk mks' IH]; intros res Hres Hi;
    cbn in Hi; [by injection Hi as <-|].
  destruct (negb _); [by eapply IH|]. rinv. eapply IH; [|exact Hi]. unfold hm_entry.
  destruct (res !! segments dk) as [[k0 m]|] eqn:E0; apply map_Forall_insert_2; try done.
  exact (Hres _ _ E0).
Qed.

Lemma set_keys_list d c l d' u :
  ds_inv d → ds_committed c → Forall (λ kv, ds_key kv.1) l →
  st_forM l (λ '(key, value), set_key key value c) d = (d', Ok u) →
  ds_inv d' ∧
  hm_view (ds_entries d' c) =
    foldl (λ m '(k, v), <[segments k := v]> m) (hm_view (ds_entries d c)) l ∧
  ∀ c', ds_committed c' → c' ≠ c → ds_entries d' c' = ds_entries d c'.
Proof.
  intros Hd Hcm. revert d Hd. induction l as [|[k v] l IH]; intros d Hd Hl Hs; cbn in Hs.
  { by injection Hs as <- _. }
  rinv. apply Forall_cons in Hl as [Hk Hl].
  match goal with H : set_key _ _ _ _ = _ |- _ =>
    apply ds_set_key in H as (Hd1 & Hv1 & Ho1); [|done..] end.
  apply IH in Hs as (Hd' & Hv & Ho); [|done..]. split_and!; [done| |].
  - by rewrite Hv, Hv1.
  - intros c' Hcm' Hc'. by rewrite Ho, Ho1.
Qed.

Lemma foldl_insert_extend (l : list (Key * string)) (m : key_map string) :
  foldl (λ m '(k, v), <[segments k := v]> m) (hm_view m) l = hm_view (hm_extend l m).
Proof.
  unfold hm_extend. revert m. induction l as [|[k v] l IH]; intros m; [done|].
  cbn. by rewrite <-IH, hm_view_insert.
Qed.

(** [set_keys] writes all the given pairs, in whatever order they come. *)
Lemma set_keys_view d pairs c d' u :
  ds_inv d → ds_committed c → hm_wf pairs → (∀ segs k v, pairs !! segs = Some (k, v) → ds_key k) →
  set_keys pairs c d = (d', Ok u) →
  ds_inv d' ∧
  hm_view (ds_entries d' c) = hm_view pairs ∪ hm_view (ds_entries d c) ∧
  ∀ c', ds_committed c' → c' ≠ c → ds_entries d' c' = ds_entries d c'.
Proof.
  intros Hd Hcm Hp Hk Hs. unfold set_keys in Hs. apply set_keys_list in Hs as (? & Hv & ?); [|done|done|].
  - rewrite foldl_insert_extend, hm_view_extend_iter in Hv by done. done.
  - apply Forall_forall. intros [k v] Hin%elem_of_hash_iter. destruct Hin as [segs Hin]. eauto.
Qed.
End generic.

(** ** Properties *)

(** [get_metadata], the trait's inheriting lookup, on a well-formed key of
    any store whose raw lookups succeed: it never reaches its [unreachable!], it
    returns the metadata of the longest prefix of the key that has any, and
    nothing only when no prefix has any. *)
Lemma get_metadata_longest_prefix `{HashOrder} `{DataStore D} (d : D) mk k c raw :
  key_wf k → (∀ k, get_metadata_raw d mk k c = Ok (raw (segments k))) →
  match get_metadata d mk k c with
  | Ok (Some v) =>
      ∃ i, 0 < i ≤ length (segments k) ∧ raw (take i (segments k)) = Some v ∧
        ∀ j, i < j ≤ length (segments k) → raw (take j (segments k)) = None
  | Ok None => ∀ i, 0 < i ≤ length (segments k) → raw (take i (segments k)) = None
  | Err _ => False
  end.
Proof.
  intros Hk Hraw. rewrite (get_metadata_inherited d mk k c raw) by done.
  destruct (inherited raw (segments k)) as [v|] eqn:E.
  - apply inherited_Some in E as (i & Hi & Hv & Hj). exists (S i). split_and!; [lia|lia|done|].
    intros [|j] Hlt; [lia|]. apply Hj. lia.
  - intros [|i] Hi; [lia|]. apply (proj1 (inherited_None raw (segments k)) E). lia.
Qed.
