(* ===== verification/Memory.v ===== *)
(** * The in-memory data store ([sources/api/datastore/src/memory.rs])

    The whole of [MemoryDataStore], as an instance of [DataStore], and the
    proof that it keeps the promises of [DataStoreSpec]. *)
From S2P Require Import Prelude DsError Key KeyMap DataStore.
From stdpp Require Import base list strings gmap.
From stdpp Require Import options.

(** ** Definitions *)

Record MemoryDataStore := mk_memory {
  pending : gmap string (key_map string);
  live : key_map string;
  metadata : key_map (key_map string);
  pending_metadata : key_map (key_map string) }.

(** [MemoryDataStore::new]. *)
Definition memory_new : MemoryDataStore := mk_memory ∅ ∅ ∅ ∅.

Definition dataset (self : MemoryDataStore) (committed : Committed) : option (key_map string) :=
  match committed with
  | Live => Some (live self)
  | Pending tx => pending self !! tx
  end.

(** [dataset_mut], with the update [f] its callers apply to the reference; the
    [Pending] case creates the transaction ([entry(tx).or_default()]). *)
Definition dataset_mut (f : key_map string → key_map string) (committed : Committed)
    (self : MemoryDataStore) : MemoryDataStore :=
  match committed with
  | Live => mk_memory (pending self) (f (live self)) (metadata self) (pending_metadata self)
  | Pending tx =>
      mk_memory (<[tx := f (default ∅ (pending self !! tx))]> (pending self))
        (live self) (metadata self) (pending_metadata self)
  end.

Definition set_metadata_raw (metadata_to_use : key_map (key_map string))
    (metadata_key data_key : Key) (value : string) : key_map (key_map string) :=
  hm_entry data_key ∅ (hm_insert metadata_key value) metadata_to_use.

Definition metadata_to_use (self : MemoryDataStore) (committed : Committed) :
    key_map (key_map string) :=
  match committed with
  | Live => metadata self
  | Pending _ => pending_metadata self
  end.

Section memory.
Context `{HashOrder}.

Definition mem_list_populated_keys (self : MemoryDataStore) (prefix : string)
    (committed : Committed) : result error key_set :=
  let ds := default ∅ (dataset self committed) in
  Ok (hs_collect (filter (λ k, str_starts_with (name k) prefix = true) (hm_keys ds))).

(** The metadata keys of one data key that match the requested name. *)
Definition meta_for_data (meta_map : key_map string) (metadata_key_name : option string) :
    key_set :=
  hs_collect (filter (λ mk, name_requested metadata_key_name mk = true) (hm_keys meta_map)).

Definition mem_list_populated_metadata (self : MemoryDataStore) (prefix : string)
    (committed : Committed) (metadata_key_name : option string) :
    result error (key_map key_set) :=
  Ok (foldl (λ res '(data_key, meta_map),
        if negb (str_starts_with (name data_key) prefix) then res
        else
          let mfd := meta_for_data meta_map metadata_key_name in
          if decide (mfd = ∅) then res else hm_insert data_key mfd res)
      ∅ (hm_iter (metadata_to_use self committed))).

Definition mem_get_key (self : MemoryDataStore) (key : Key) (committed : Committed) :
    result error (option string) :=
  Ok (hm_get key (default ∅ (dataset self committed))).

Definition mem_set_key (key : Key) (value : string) (committed : Committed) :
    stres MemoryDataStore error unit :=
  λ self, (dataset_mut (hm_insert key value) committed self, Ok tt).

Definition mem_unset_key (key : Key) (committed : Committed) :
    stres MemoryDataStore error unit :=
  λ self, (dataset_mut (hm_remove key) committed self, Ok tt).

Definition mem_key_populated (self : MemoryDataStore) (key : Key) (committed : Committed) :
    result error bool :=
  Ok (hm_contains_key key (default ∅ (dataset self committed))).

Definition mem_get_metadata_raw (self : MemoryDataStore) (metadata_key data_key : Key)
    (committed : Committed) : result error (option string) :=
  Ok (hm_get data_key (metadata_to_use self committed) ≫= hm_get metadata_key).

Definition mem_set_metadata (metadata_key data_key : Key) (value : string)
    (committed : Committed) : stres MemoryDataStore error unit :=
  λ self,
    match committed with
    | Live =>
        (mk_memory (pending self) (live self)
           (set_metadata_raw (metadata self) metadata_key data_key value)
           (pending_metadata self), Ok tt)
    | Pending _ =>
        (mk_memory (pending self) (live self) (metadata self)
           (set_metadata_raw (pending_metadata self) metadata_key data_key value), Ok tt)
    end.

Definition mem_unset_metadata (metadata_key data_key : Key) :
    stres MemoryDataStore error unit :=
  λ self,
    match metadata self !! segments data_key with
    | Some (k0, metadata_for_data) =>
        (mk_memory (pending self) (live self)
           (<[segments data_key := (k0, hm_remove metadata_key metadata_for_data)]>
              (metadata self))
           (pending_metadata self), Ok tt)
    | None => (self, Ok tt)
    end.

(** [self.set_keys(&settings, &Committed::Live)], the trait's provided method
    for this store. *)
Definition mem_set_keys (pairs : key_map string) (committed : Committed) :
    stres MemoryDataStore error unit :=
  st_forM (hm_iter pairs) (λ '(key, value), mem_set_key key value committed).

Definition mem_remove_pending (tx : string) (self : MemoryDataStore) : MemoryDataStore :=
  mk_memory (delete tx (pending self)) (live self) (metadata self) (pending_metadata self).

Definition mem_commit_transaction {BE} (transaction : string)
    (constraint_check : Committed → stres MemoryDataStore BE ConstraintCheckResult) :
    stres MemoryDataStore error key_set :=
  λ self,
    let '(self, r) := constraint_check (Pending transaction) self in
    let constraint_check_result :=
      match r with
      | Ok c => c
      | Err _ =>
          Reject "Check constraint function rejected the transaction. Aborting commit"
      end in
    match approved_write_try_from constraint_check_result with
    | Err e => (self, Err e)
    | Ok approved_write =>
        if decide (aw_settings approved_write = ∅)
        then (mem_remove_pending transaction self, Ok ∅)
        else
          match mem_set_keys (aw_settings approved_write) Live self with
          | (self, Err e) => (self, Err e)
          | (self, Ok _) =>
              (mem_remove_pending transaction self,
               Ok (hs_collect (hm_keys (aw_settings approved_write))))
          end
    end.

Definition mem_delete_transaction (transaction : string) :
    stres MemoryDataStore error key_set :=
  λ self,
    match pending self !! transaction with
    | Some p => (mem_remove_pending transaction self, Ok (hs_collect (hm_keys p)))
    | None => (self, Ok ∅)
    end.

Definition mem_list_transactions (self : MemoryDataStore) : result error (gset string) :=
  Ok (dom (pending self)).

#[global] Instance memory_data_store : DataStore MemoryDataStore := {|
  key_populated := mem_key_populated;
  list_populated_keys := mem_list_populated_keys;
  list_populated_metadata := mem_list_populated_metadata;
  get_key := mem_get_key;
  set_key := mem_set_key;
  unset_key := mem_unset_key;
  get_metadata_raw := mem_get_metadata_raw;
  set_metadata := mem_set_metadata;
  unset_metadata := mem_unset_metadata;
  commit_transaction _ := mem_commit_transaction;
  delete_transaction := mem_delete_transaction;
  list_transactions := mem_list_transactions |}.
End memory.

(** ** The store keeps its promises *)

(** Every map of the store files its entries under the segments of their keys. *)
Record mem_inv (d : MemoryDataStore) : Prop := {
  inv_live : hm_wf (live d);
  inv_pending : map_Forall (λ _, hm_wf) (pending d) }.

Definition mem_entries (d : MemoryDataStore) (c : Committed) : key_map string :=
  default ∅ (dataset d c).

Lemma mem_entries_wf d c : mem_inv d → hm_wf (mem_entries d c).
Proof.
  intros [Hl Hp]. unfold mem_entries. destruct c as [|tx]; cbn; [done|].
  destruct (pending d !! tx) eqn:E; cbn; [by eapply Hp|apply hm_wf_empty].
Qed.

Lemma mem_entries_mut f c d c' :
  mem_entries (dataset_mut f c d) c' =
  if decide (c' = c) then f (mem_entries d c) else mem_entries d c'.
Proof.
  unfold mem_entries. case_decide as E; subst.
  - destruct c; cbn; [done|]. by rewrite lookup_insert_eq.
  - destruct c, c'; cbn; try done. rewrite lookup_insert_ne; [done|congruence].
Qed.

Lemma mem_inv_mut f c d :
  mem_inv d → (∀ m, hm_wf m → hm_wf (f m)) → mem_inv (dataset_mut f c d).
Proof.
  intros Hd Hf. pose proof (mem_entries_wf d c Hd) as He. destruct Hd as [Hl Hp].
  destruct c as [|tx]; split; cbn; auto.
  apply map_Forall_insert_2; [|done]. by apply Hf.
Qed.

Section memory_spec.
Context `{HashOrder}.

Lemma mem_list_keys d p c ks :
  mem_inv d → mem_list_populated_keys d p c = Ok ks →
  ks = fst <$> filter (λ e, str_starts_with (name e.2.1) p = true) (mem_entries d c).
Proof.
  intros Hd [= <-]. pose proof (mem_entries_wf d c Hd) as Hwf. fold (mem_entries d c).
  exact (hs_collect_filter_keys (λ k, str_starts_with (name k) p = true) (mem_entries d c) Hwf).
Qed.

#[global] Program Instance memory_data_store_spec : DataStoreSpec MemoryDataStore := {|
  ds_inv := mem_inv;
  ds_key _ := True;
  ds_committed _ := True;
  ds_entries := mem_entries |}.
Next Obligation. done. Qed.
Next Obligation. done. Qed.
Next Obligation. intros. by apply mem_entries_wf. Qed.
Next Obligation. done. Qed.
Next Obligation. intros d k c o _ _ _ [= <-]. done. Qed.
Next Obligation.
  intros d k v c d' u Hd _ _ [= <- _]. split_and!.
  - apply mem_inv_mut; [done|]. intros. by apply hm_wf_insert.
  - rewrite mem_entries_mut, decide_True by done. apply hm_view_insert.
  - intros c' _ ?. by rewrite mem_entries_mut, decide_False.
Qed.
Next Obligation.
  intros d k c d' u Hd _ _ [= <- _]. split_and!.
  - apply mem_inv_mut; [done|]. intros. by apply hm_wf_remove.
  - rewrite mem_entries_mut, decide_True by done. apply hm_view_remove.
  - intros c' _ ?. by rewrite mem_entries_mut, decide_False.
Qed.
Next Obligation.
  intros d mk k v c d' u [Hl Hp] _ _ Hs. destruct c; injection Hs as <- _; by split.
Qed.
Next Obligation. intros. by apply mem_list_keys. Qed.
Next Obligation. done. Qed.
End memory_spec.

(** ** Properties *)

Section memory_facts.
Context `{HashOrder}.

Lemma mem_set_keys_fold pairs c d :
  mem_set_keys pairs c d =
  (foldl (λ d '(k, v), dataset_mut (hm_insert k v) c d) d (hm_iter pairs), Ok tt).
Proof.
  unfold mem_set_keys.
  rewrite (st_forM_fold (λ d '(k, v), dataset_mut (hm_insert k v) c d)); [|by intros [] ?].
  f_equal. generalize (hm_iter pairs). intros l. revert d.
  induction l as [|[k v] l IH]; intros d; [done|]. apply IH.
Qed.

Lemma dataset_mut_compose f g c d :
  dataset_mut g c (dataset_mut f c d) = dataset_mut (g ∘ f) c d.
Proof. destruct c; [done|]. cbn. by rewrite lookup_insert_eq, insert_insert_eq. Qed.

Lemma dataset_mut_ext f g c d :
  f (mem_entries d c) = g (mem_entries d c) → dataset_mut f c d = dataset_mut g c d.
Proof. unfold mem_entries. destruct c; cbn; congruence. Qed.

Lemma foldl_dataset_mut kv l c d :
  foldl (λ d '(k, v), dataset_mut (hm_insert k v) c d) d (kv :: l) =
  dataset_mut (hm_extend (kv :: l)) c d.
Proof.
  revert kv d. induction l as [|kv' l IH]; intros kv d; [by destruct kv|].
  cbn [foldl] in *. rewrite IH. destruct kv as [k v]. by rewrite dataset_mut_compose.
Qed.

(** The listed metadata of one data key, when there are any. *)
Definition listed (prefix : string) (n : option string) (e : Key * key_map string) :
    option (Key * key_set) :=
  if str_starts_with (name e.1) prefix
  then if decide (meta_for_data e.2 n = ∅) then None else Some (e.1, meta_for_data e.2 n)
  else None.

Lemma mem_list_metadata_omap d prefix c n :
  mem_list_populated_metadata d prefix c n =
  Ok (hm_collect (omap (listed prefix n) (hm_iter (metadata_to_use d c)))).
Proof.
  unfold mem_list_populated_metadata, hm_collect, hm_extend. f_equal.
  generalize (∅ : key_map key_set) as acc. generalize (hm_iter (metadata_to_use d c)) as l.
  induction l as [|[k m] l IH]; intros acc; [done|]. cbn. rewrite IH. unfold listed. cbn.
  destruct (str_starts_with (name k) prefix); cbn; [|done]. by case_decide.
Qed.

Lemma listed_NoDup prefix n l :
  NoDup ((λ e : Key * key_map string, segments e.1) <$> l) →
  NoDup ((λ e, segments e.1) <$> omap (listed prefix n) l).
Proof.
  induction l as [|[k m] l IH]; intros Hnd; cbn; [constructor|].
  apply NoDup_cons in Hnd as [Hk Hnd].
  destruct (listed prefix n (k, m)) as [[k' s]|] eqn:E; [|by apply IH]. cbn.
  apply NoDup_cons. split; [|by apply IH].
  assert (k' = k) as ->.
  { unfold listed in E. cbn in E. destruct (str_starts_with _ _); [|done]. by case_decide; simplify_eq. }
  intros ([k1 s1] & Ek & ([k2 m2] & Hin & E2)%list_elem_of_omap)%list_elem_of_fmap. cbn in Ek.
  apply Hk, list_elem_of_fmap. exists (k2, m2). split; [|done]. cbn.
  etrans; [exact Ek|]. unfold listed in E2. cbn in E2. destruct (str_starts_with _ _); [|done]. by case_decide; simplify_eq.
Qed.

(** A metadata entry with a matching data key is listed. *)
Lemma mem_list_metadata_has d prefix c k m mk v :
  hm_wf (metadata_to_use d c) → metadata_to_use d c !! segments k = Some (k, m) →
  hm_wf m → m !! segments mk = Some (mk, v) → str_starts_with (name k) prefix = true →
  ∃ meta_map mks, mem_list_populated_metadata d prefix c None = Ok meta_map ∧
    hm_wf meta_map ∧ meta_map !! segments k = Some (k, mks) ∧ hs_wf mks ∧
    mks !! segments mk = Some mk.
Proof.
  intros Hwf Hk Hm Hmk Hp. rewrite mem_list_metadata_omap. eexists _, (meta_for_data m None).
  split; [done|].
  assert (meta_for_data m None !! segments mk = Some mk) as Hmks.
  { unfold meta_for_data.
    rewrite (hs_collect_filter_keys (λ mk, name_requested None mk = true)) by done.
    rewrite lookup_fmap, (map_lookup_filter_Some_2 _ m _ (mk, v)); done. }
  assert (NoDup ((λ e, segments e.1) <$> omap (listed prefix None) (hm_iter (metadata_to_use d c))))
    as Hnd by (apply listed_NoDup; by apply hm_iter_NoDup).
  split_and!; [by apply hm_wf_extend, hm_wf_empty| |apply hs_collect_wf|done].
  apply hm_collect_elem; [done|]. split; [|done]. apply list_elem_of_omap. exists (k, m). split.
  - by apply elem_of_hm_iter.
  - unfold listed. cbn. rewrite Hp. rewrite decide_False; [done|]. intros E. by rewrite E in Hmks.
Qed.

(** A commit whose constraint check approves a write. *)
Lemma mem_commit_approve {BE} tx
    (check : Committed → stres MemoryDataStore BE ConstraintCheckResult) d d1 aw :
  hm_wf (aw_settings aw) → check (Pending tx) d = (d1, Ok (Approve aw)) →
  ∃ d', mem_commit_transaction tx check d = (d', Ok (fst <$> aw_settings aw)) ∧
    hm_view (live d') = hm_view (aw_settings aw) ∪ hm_view (live d1) ∧
    pending d' = delete tx (pending d1) ∧ metadata d' = metadata d1 ∧
    (hm_wf (live d1) → hm_wf (live d')).
Proof.
  intros Haw Hc. unfold mem_commit_transaction. rewrite Hc. cbn. case_decide as E.
  - eexists. rewrite E. split; [by rewrite fmap_empty|]. split_and!; [|done..].
    unfold hm_view. by rewrite fmap_empty, (left_id_L ∅ (∪)).
  - rewrite mem_set_keys_fold. eexists. split; [by rewrite hs_collect_keys|].
    rewrite <-hm_view_extend_iter by done.
    destruct (hm_iter (aw_settings aw)) as [|kv l] eqn:El;
      [by apply hash_iter_nil in El|].
    rewrite foldl_dataset_mut. split_and!; [done..|]. apply hm_wf_extend.
Qed.
End memory_facts.

#[global] Program Instance memory_data_store_tx `{HashOrder} : DataStoreTx MemoryDataStore.
Next Obligation.
  intros ? BE tx check d d' keys r [Hlive Hpend] _ Hc Hr. right.
  change (mem_commit_transaction tx check d = (d', Ok keys)) in Hr.
  destruct r as [[why|aw]|e]; [unfold mem_commit_transaction in Hr; by rewrite Hc in Hr| |
    unfold mem_commit_transaction in Hr; by rewrite Hc in Hr].
  exists aw. split; [done|]. intros Haw _ _.
  destruct (mem_commit_approve tx check d d aw Haw Hc) as (d1 & Hr1 & Hl & Hp & _ & Hwf).
  rewrite Hr in Hr1. injection Hr1 as <- ->. cbn. unfold mem_entries. split_and!; [done| |done| |].
  - split; [by apply Hwf|]. rewrite Hp. by apply map_Forall_delete.
  - cbn. by rewrite Hp, lookup_delete_eq.
  - intros [|tx'] _ Hl' Hne; [done|]. cbn. rewrite Hp, lookup_delete_ne; congruence.
Qed.
Next Obligation.
  intros ? tx d d' keys [Hl Hp] _ Hr. cbn in Hr. unfold mem_delete_transaction in Hr.
  destruct (pending d !! tx) as [p|] eqn:E; injection Hr as <- _.
  - split; [split; [done|by apply map_Forall_delete]|]. cbn. unfold mem_entries. cbn.
    rewrite lookup_delete_eq. split; [done|]. intros [|tx'] _ Hne; [done|]. cbn.
    rewrite lookup_delete_ne; congruence.
  - split; [done|]. cbn. unfold mem_entries. cbn. by rewrite E.
Qed.

#[global] Instance memory_data_store_guard `{HashOrder} : DataStoreGuard MemoryDataStore.
Proof.
  intros BE tx check d txs r _ _ Hc Hr. change (∃ e, mem_commit_transaction tx check d = (d, Err e)).
  unfold mem_commit_transaction. rewrite Hc. destruct r as [[why|aw]|e]; [by eexists|by destruct (Hr aw)|by eexists].
Qed.

(** The outcome of [MemoryDataStore::commit_transaction] for every answer
    of the constraint check.  An approved write becomes live, over the old live
    data, the transaction is removed and the others are kept, and exactly the
    approved keys are reported; a rejection or a failed check is an error that
    changes nothing. *)
Lemma mem_commit_outcome `{HashOrder} {BE} tx
    (check : Committed → stres MemoryDataStore BE ConstraintCheckResult) d d1 r :
  check (Pending tx) d = (d1, r) →
  match r with
  | Ok (Approve aw) =>
      hm_wf (aw_settings aw) →
      ∃ d', mem_commit_transaction tx check d = (d', Ok (fst <$> aw_settings aw)) ∧
        hm_view (live d') = hm_view (aw_settings aw) ∪ hm_view (live d1) ∧
        pending d' = delete tx (pending d1) ∧ metadata d' = metadata d1
  | Ok (Reject why) =>
      mem_commit_transaction tx check d = (d1, Err (ConstraintCheckReject why))
  | Err _ =>
      mem_commit_transaction tx check d =
      (d1, Err (ConstraintCheckReject
                  "Check constraint function rejected the transaction. Aborting commit"))
  end.
Proof.
  intros Hc. destruct r as [[why|aw]|e]; [|intros Haw|]; [unfold mem_commit_transaction; by rewrite Hc| |
    unfold mem_commit_transaction; by rewrite Hc].
  destruct (mem_commit_approve tx check d d1 aw Haw Hc) as (d' & ? & ? & ? & ? & _). by exists d'.
Qed.

Lemma mem_commit_outcome_witness :
  let k := mk_key "settings.motd" ["settings"; "motd"] in
  let p : key_map string := {[ ["settings"; "motd"] := (k, "hi") ]} in
  let d := mk_memory {[ "tx" := p; "other" := ∅ ]} ∅ ∅ ∅ in
  let check : Committed → stres MemoryDataStore unit ConstraintCheckResult :=
    λ c s, (s, Ok (Approve {| aw_settings := default ∅ (dataset s c); aw_metadata := [] |})) in
  ∃ d', @mem_commit_transaction example_order _ "tx" check d = (d', Ok {[ ["settings"; "motd"] := k ]}) ∧
    hm_view (live d') = {[ ["settings"; "motd"] := "hi" ]} ∧
    pending d' = {[ "other" := ∅ ]} ∧ metadata d' = ∅.
Proof.
  intros k p d check.
  destruct (@mem_commit_outcome example_order unit "tx" check d d
    (Ok (Approve {| aw_settings := p; aw_metadata := [] |})) eq_refl) as (d' & H1 & H2 & H3 & H4).
  - apply map_Forall_singleton. reflexivity.
  - exists d'. repeat split; [exact H1|rewrite H2; reflexivity|rewrite H3; reflexivity|exact H4].
Defined.

(** Writing a map of pairs does not depend on the order in which the
    standard library iterates over it: for any two iteration orders the stores
    are equal. *)
Lemma mem_set_keys_order_irrelevant (H1 H2 : HashOrder) pairs c d :
  hm_wf pairs → @mem_set_keys H1 pairs c d = @mem_set_keys H2 pairs c d.
Proof.
  intros Hp. rewrite !mem_set_keys_fold. f_equal.
  pose proof (hm_iter_order H1 H2 pairs) as Hperm.
  pose proof (@hm_iter_NoDup H1 _ pairs Hp) as Hnd.
  destruct (@hm_iter H1 _ pairs) as [|kv1 l1], (@hm_iter H2 _ pairs) as [|kv2 l2];
    [done|by apply Permutation_nil_cons in Hperm|
     by symmetry in Hperm; apply Permutation_nil_cons in Hperm|].
  rewrite !foldl_dataset_mut. apply dataset_mut_ext. by apply hm_extend_perm.
Qed.

(** A second order: the reverse of the example order. *)
Definition reverse_order : HashOrder.
Proof.
  refine {| hash_iter K _ _ A m := reverse (map_to_list m).*2 |}.
  intros. apply reverse_Permutation.
Defined.

Lemma mem_set_keys_order_irrelevant_witness :
  let pairs : key_map string :=
    {[ ["a"] := (mk_key "a" ["a"], "1"); ["b"] := (mk_key "b" ["b"], "2") ]} in
  @mem_set_keys example_order pairs Live memory_new =
  @mem_set_keys reverse_order pairs Live memory_new.
Proof.
  intros pairs. apply mem_set_keys_order_irrelevant.
  apply map_Forall_insert_2; [reflexivity|]. apply map_Forall_singleton. reflexivity.
Defined.

(** Metadata on [settings] is inherited by [settings.motd]. *)
Lemma get_metadata_longest_prefix_witness :
  let s := mk_key "settings" ["settings"] in
  let k := mk_key "settings.motd" ["settings"; "motd"] in
  let mk := mk_key "affected" ["affected"] in
  let d := mk_memory ∅ ∅ {[ ["settings"] := (s, {[ ["affected"] := (mk, "x") ]}) ]} ∅ in
  let raw := λ segs, (snd <$> metadata d !! segs) ≫= hm_get mk in
  @get_metadata _ (@memory_data_store example_order) d mk k Live = Ok (Some "x") ∧
  ∃ i, 0 < i ≤ 2 ∧ raw (take i ["settings"; "motd"]) = Some "x" ∧
    ∀ j, i < j ≤ 2 → raw (take j ["settings"; "motd"]) = None.
Proof.
  intros s k mk d raw. split; [reflexivity|].
  apply (@get_metadata_longest_prefix example_order _ (@memory_data_store example_order) d mk k Live raw).
  - apply (key_new_wf Data "settings.motd"). reflexivity.
  - reflexivity.
Defined.
