(* ===== verification/Filesystem.v ===== *)
(** * The file-system data store ([sources/api/datastore/src/filesystem.rs])

    The whole of [FilesystemDataStore]: data keys are files below a base directory,
    one path component per segment, and metadata keys are files next to them with a
    dot in their name.  It is an instance of [DataStore] and keeps the promises of
    [DataStoreSpec].

    The disk is a tree of directories and files with the errors of the calls of
    [std::fs] that the store makes; there are no links, no permissions and no
    spurious I/O errors, and file names are UTF-8.  A [PathBuf] is its text.  The
    percent encoding of the crate percent-encoding is the class
    [PercentEncoding]. *)
From S2P Require Import Prelude DsError Key KeyMap DataStore.
From Stdlib Require Import Ascii.
From stdpp Require Import base numbers list strings gmap.
From stdpp Require Import options.

(** ** Definitions *)

Definition SLASH : ascii := ascii_of_nat 47.
Definition DOT : ascii := KEY_SEPARATOR.
Definition PERCENT : ascii := ascii_of_nat 37.

(** *** Paths *)

(** [Path::components] of an absolute path. *)
Definition components (p : string) : list string :=
  filter (λ c, c ≠ EmptyString ∧ c ≠ String DOT EmptyString) (str_split SLASH p).

Fixpoint str_ends_with (s : string) (c : ascii) : bool :=
  match s with
  | EmptyString => false
  | String a EmptyString => bool_decide (a = c)
  | String _ s => str_ends_with s c
  end.

(** [Path::join]: an absolute suffix replaces the path. *)
Definition path_join (base suffix : string) : string :=
  match suffix with
  | String a _ => if decide (a = SLASH) then suffix else
      if str_is_empty base || str_ends_with base SLASH then base +:+ suffix
      else base +:+ String SLASH suffix
  | EmptyString =>
      if str_is_empty base || str_ends_with base SLASH then base else base +:+ String SLASH EmptyString
  end.

(** [Path::ancestors], by components: the path first. *)
Definition ancestors (p : list string) : list (list string) :=
  (λ i, take i p) <$> reverse (seq 0 (S (length p))).
Definition parent (p : list string) : option (list string) :=
  match p with [] => None | _ => Some (take (pred (length p)) p) end.

(** *** The disk *)

Inductive node :=
| Dir
| File (content : string).
Global Instance node_eq_dec : EqDecision node.
Proof. solve_decision. Defined.
Abbreviation disk := (gmap (list string) node).

Definition is_file (n : option node) : bool := match n with Some (File _) => true | _ => false end.

(** The error for a path that is not there: on the way there may be a file. *)
Definition missing (d : disk) (p : list string) : io_error :=
  if existsb (λ i, is_file (d !! take i p)) (seq 0 (length p)) then NotADirectory else NotFound.

(** [Path::exists], [fs::read_to_string], [fs::write], [fs::create_dir_all],
    [fs::remove_file], [fs::remove_dir] and [fs::remove_dir_all]. *)
Definition fs_exists (d : disk) (p : list string) : bool := bool_decide (is_Some (d !! p)).

Definition fs_read (d : disk) (p : list string) : result io_error string :=
  match d !! p with
  | Some (File s) => Ok s
  | Some Dir => Err IsADirectory
  | None => Err (missing d p)
  end.

Definition fs_write (p : list string) (data : string) : stres disk io_error () := λ d,
  match d !! p with
  | Some Dir => (d, Err IsADirectory)
  | _ =>
      match parent p with
      | Some q =>
          match d !! q with
          | Some Dir => (<[p := File data]> d, Ok tt)
          | _ => (d, Err (missing d p))
          end
      | None => (d, Err IsADirectory)
      end
  end.

Definition make_dirs (p : list string) (d : disk) : disk :=
  foldr (λ i d, match d !! take i p with Some _ => d | None => <[take i p := Dir]> d end)
    d (seq 0 (S (length p))).
Definition fs_create_dir_all (p : list string) : stres disk io_error () := λ d,
  if is_file (d !! p) then (d, Err AlreadyExists)
  else if existsb (λ i, is_file (d !! take i p)) (seq 0 (length p)) then (d, Err NotADirectory)
  else (make_dirs p d, Ok tt).

Definition fs_remove_file (p : list string) : stres disk io_error () := λ d,
  match d !! p with
  | Some (File _) => (delete p d, Ok tt)
  | Some Dir => (d, Err IsADirectory)
  | None => (d, Err (missing d p))
  end.

Definition below (p q : list string) : Prop := ∃ x r, q = p ++ x :: r.
#[global] Instance below_dec p q : Decision (below p q).
Proof.
  refine (cast_if (decide (take (length p) q = p ∧ length p < length q))).
  - destruct a as [Ht Hl]. rewrite <- (take_drop (length p) q), Ht.
    destruct (drop (length p) q) as [|x r] eqn:E; [|by exists x, r].
    apply (f_equal length) in E. rewrite length_drop in E. cbn in E. lia.
  - intros (x & r & ->). apply n. rewrite take_app_length, length_app. cbn. split; [done|lia].
Defined.

Definition fs_remove_dir (p : list string) : stres disk io_error () := λ d,
  match d !! p with
  | Some Dir =>
      if decide (map_Exists (λ q _, below p q) d) then (d, Err DirectoryNotEmpty) else (delete p d, Ok tt)
  | Some (File _) => (d, Err NotADirectory)
  | None => (d, Err (missing d p))
  end.

Definition fs_remove_dir_all (p : list string) : stres disk io_error () := λ d,
  match d !! p with
  | Some Dir => (filter (λ e, ¬ (e.1 = p ∨ below p e.1)) d, Ok tt)
  | Some (File _) => (d, Err NotADirectory)
  | None => (d, Err (missing d p))
  end.

(** *** Encoding *)

(** [utf8_percent_encode] with the characters that are kept as they are, and
    [percent_decode_str] with [decode_utf8]: what is not kept becomes a percent
    sign and two hexadecimal digits. *)
Definition is_hex (c : ascii) : bool :=
  let n := nat_of_ascii c in ((48 <=? n) && (n <=? 57) || (65 <=? n) && (n <=? 70))%nat.
Class PercentEncoding := {
  utf8_percent_encode : (ascii → bool) → string → string;
  percent_decode_str : string → option string;
  encode_chars keep s :
    str_forallb (λ c, keep c || bool_decide (c = PERCENT) || is_hex c) (utf8_percent_encode keep s) = true;
  encode_kept keep s : str_forallb keep s = true → utf8_percent_encode keep s = s;
  encode_escaped keep s :
    str_forallb keep s = false →
    str_existsb (λ c, bool_decide (c = PERCENT)) (utf8_percent_encode keep s) = true;
  decode_encode keep s :
    keep PERCENT = false → percent_decode_str (utf8_percent_encode keep s) = Some s }.

(** [ENCODE_CHARACTERS]: alphanumeric characters, [_] and [-] are kept. *)
Definition ENCODE_CHARACTERS (c : ascii) : bool :=
  let n := nat_of_ascii c in
  ((48 <=? n) && (n <=? 57) || (65 <=? n) && (n <=? 90) || (97 <=? n) && (n <=? 122) ||
   (n =? 95) || (n =? 45))%nat.

(** *** The store *)

Record FilesystemDataStore := mk_fs {
  live_path : string;
  pending_base_path : string;
  fs_disk : disk }.

(** [FilesystemDataStore::new], on a disk. *)
Definition filesystem_new (base_path : string) (d : disk) : FilesystemDataStore :=
  mk_fs (path_join base_path "live") (path_join base_path "pending") d.

Definition with_disk (d : disk) (self : FilesystemDataStore) : FilesystemDataStore :=
  mk_fs (live_path self) (pending_base_path self) d.

(** An operation of the disk as one of the store. *)
Definition on_disk {A} (f : io_error → error) (m : stres disk io_error A) :
    stres FilesystemDataStore error A := λ self,
  let '(d, r) := m (fs_disk self) in (with_disk d self, map_err f r).

(** A path to a data or metadata key, relative to the base. *)
Record KeyPath := mk_key_path { data_key : Key; metadata_key : option Key }.

Definition kp_key_type (kp : KeyPath) : KeyType :=
  match metadata_key kp with Some _ => Meta | None => Data end.

(** [HashSet<KeyPath>]. *)
Abbreviation key_path_set := (gmap (list string * option (list string)) KeyPath).
Definition kp_insert (kp : KeyPath) (s : key_path_set) : key_path_set :=
  let i := (segments (data_key kp), segments <$> metadata_key kp) in
  match s !! i with Some _ => s | None => <[i := kp]> s end.

Section filesystem.
Context `{HashOrder} `{PercentEncoding}.

Definition encode_path_component (segment : string) : string :=
  utf8_percent_encode ENCODE_CHARACTERS segment.

Definition decode_path_component (segment : string) (at_path : list string) : result error string :=
  ok_or (percent_decode_str segment) (Corruption "invalid UTF-8 in encoded segment" at_path).

Definition base_path (self : FilesystemDataStore) (committed : Committed) : string :=
  match committed with
  | Pending tx => path_join (pending_base_path self) (encode_path_component tx)
  | Live => live_path self
  end.

Definition data_path (self : FilesystemDataStore) (key : Key) (committed : Committed) :
    result error string :=
  let base_path := base_path self committed in
  let encoded := encode_path_component <$> segments key in
  let path_suffix := str_join "/" encoded in
  let path := path_join base_path path_suffix in
  let? _ := ensure (negb (bool_decide (components path = components base_path)) &&
                    bool_decide (components base_path `prefix_of` components path))
              (PathTraversal (name key)) in
  Ok path.

Definition metadata_path (self : FilesystemDataStore) (metadata_key data_key : Key)
    (committed : Committed) : result error string :=
  let? path_str := data_path self data_key committed in
  let? raw_key_name := ok_or (head (segments metadata_key)) (Internal "metadata key with no segments") in
  let encoded_meta := encode_path_component raw_key_name in
  Ok (path_str +:+ "." +:+ encoded_meta).

(** The loop that removes empty directories, up to the base. *)
Fixpoint remove_empty (base : list string) (ancestors : list (list string)) (d : disk) : disk :=
  match ancestors with
  | [] => d
  | parent :: ancestors =>
      if decide (parent = base) then d
      else match fs_remove_dir parent d with
           | (d, Ok _) => remove_empty base ancestors d
           | (d, Err NotFound) => remove_empty base ancestors d
           | (d, Err _) => d
           end
  end.

Definition delete_key_path (path : string) (committed : Committed) :
    stres FilesystemDataStore error () := λ self,
  let p := components path in
  match fs_remove_file p (fs_disk self) with
  | (d, Err e) =>
      if decide (e = NotFound) then
        (with_disk (match parent p with
                    | Some q => remove_empty (components (base_path self committed)) (ancestors q) d
                    | None => d
                    end) self, Ok tt)
      else (with_disk d self, Err (DeleteKey p e))
  | (d, Ok _) =>
      (with_disk (match parent p with
                  | Some q => remove_empty (components (base_path self committed)) (ancestors q) d
                  | None => d
                  end) self, Ok tt)
  end.

Definition read_file_for_key (self : FilesystemDataStore) (key : Key) (path : string) :
    result error (option string) :=
  match fs_read (fs_disk self) (components path) with
  | Ok s => Ok (Some s)
  | Err e => if decide (e = NotFound) then Ok None else Err (KeyRead (name key) e)
  end.

Definition write_file_mkdir (path : string) (data : string) : stres FilesystemDataStore error () :=
  let! dirname := st_lift (ok_or (parent (components path))
                             (Internal "Given path to write without proper prefix")) in
  let! _ := on_disk (Io dirname) (fs_create_dir_all dirname) in
  on_disk (Io (components path)) (fs_write (components path) data).

(** [KeyPath::from_path], of the components of a relative path. *)
Definition from_path (path : list string) : result error KeyPath :=
  let '(data_key_raw, meta) := str_splitn2 DOT (str_join "/" path) in
  let? data_segments := mapM (λ s, decode_path_component s path) (str_split SLASH data_key_raw) in
  let? data_key := from_segments Data data_segments in
  let? metadata_key :=
    match meta with
    | Some meta_key_str => let? k := key_new Meta meta_key_str in Ok (Some k)
    | None => Ok None
    end in
  Ok (mk_key_path data_key metadata_key).

(** The entries at and below a path, as [WalkDir] lists them (their order does not
    matter: they go into a set). *)
Definition walk (d : disk) (base : list string) : list (list string * node) :=
  filter (λ e, e.1 = base ∨ below base e.1) (map_to_list d).

Definition from_entry (base : list string) (entry : list string * node) : option KeyPath :=
  match entry.2 with
  | File _ => ok (from_path (drop (length base) entry.1))
  | Dir => None
  end.

Definition find_populated_key_paths (self : FilesystemDataStore) (key_type : KeyType)
    (prefix : string) (committed : Committed) : result error key_path_set :=
  let base := components (base_path self committed) in
  if negb (fs_exists (fs_disk self) base) then
    match committed with
    | Live => Err (Corruption "Live datastore missing" base)
    | Pending _ => Ok ∅
    end
  else
    Ok (foldl (λ key_paths entry,
      match from_entry base entry with
      | Some kp =>
          if negb (str_starts_with (name (data_key kp)) prefix) then key_paths
          else if decide (kp_key_type kp = key_type) then kp_insert kp key_paths
          else key_paths
      | None => key_paths
      end) ∅ (walk (fs_disk self) base)).

(** *** The operations of the trait *)

Definition fs_key_populated (self : FilesystemDataStore) (key : Key) (committed : Committed) :
    result error bool :=
  let? path := data_path self key committed in
  Ok (fs_exists (fs_disk self) (components path)).

Definition fs_list_populated_keys (self : FilesystemDataStore) (prefix : string)
    (committed : Committed) : result error key_set :=
  let? key_paths := find_populated_key_paths self Data prefix committed in
  Ok (hs_collect (data_key <$> hash_iter key_paths)).

Fixpoint list_metadata_loop (metadata_key_name : option string) (key_paths : list KeyPath)
    (res : key_map key_set) : result error (key_map key_set) :=
  match key_paths with
  | [] => Ok res
  | key_path :: key_paths =>
      let? meta_key := ok_or (metadata_key key_path) (Internal "Found meta key path with no dot") in
      if negb (name_requested metadata_key_name meta_key)
      then list_metadata_loop metadata_key_name key_paths res
      else list_metadata_loop metadata_key_name key_paths
             (hm_entry (data_key key_path) ∅ (hs_insert meta_key) res)
  end.
Definition fs_list_populated_metadata (self : FilesystemDataStore) (prefix : string)
    (committed : Committed) (metadata_key_name : option string) : result error (key_map key_set) :=
  let? key_paths := find_populated_key_paths self Meta prefix committed in
  list_metadata_loop metadata_key_name (hash_iter key_paths) ∅.

Definition fs_get_key (self : FilesystemDataStore) (key : Key) (committed : Committed) :
    result error (option string) :=
  let? path := data_path self key committed in
  read_file_for_key self key path.

Definition fs_set_key (key : Key) (value : string) (committed : Committed) :
    stres FilesystemDataStore error () :=
  let! path := st_read (λ self, data_path self key committed) in
  write_file_mkdir path value.

Definition fs_unset_key (key : Key) (committed : Committed) : stres FilesystemDataStore error () :=
  let! path := st_read (λ self, data_path self key committed) in
  delete_key_path path committed.

Definition fs_get_metadata_raw (self : FilesystemDataStore) (metadata_key data_key : Key)
    (committed : Committed) : result error (option string) :=
  let? path := metadata_path self metadata_key data_key committed in
  read_file_for_key self metadata_key path.

Definition fs_set_metadata (metadata_key data_key : Key) (value : string) (committed : Committed) :
    stres FilesystemDataStore error () :=
  let! path := st_read (λ self, metadata_path self metadata_key data_key committed) in
  write_file_mkdir path value.

Definition fs_unset_metadata (metadata_key data_key : Key) : stres FilesystemDataStore error () :=
  let! path := st_read (λ self, metadata_path self metadata_key data_key Live) in
  delete_key_path path Live.

Fixpoint list_transactions_loop (entries : list (list string * node)) (transactions : gset string) :
    result error (gset string) :=
  match entries with
  | [] => Ok transactions
  | (p, Dir) :: entries =>
      let? transaction := decode_path_component (default EmptyString (last p)) p in
      list_transactions_loop entries ({[ transaction ]} ∪ transactions)
  | (_, File _) :: entries => list_transactions_loop entries transactions
  end.
Definition fs_list_transactions (self : FilesystemDataStore) : result error (gset string) :=
  let base := components (pending_base_path self) in
  list_transactions_loop
    (filter (λ e, length e.1 = S (length base)) (walk (fs_disk self) base)) ∅.

(** [set_keys] and [get_prefix], the trait's provided methods for this store. *)
Definition fs_set_keys (pairs : key_map string) (committed : Committed) :
    stres FilesystemDataStore error () :=
  st_forM (hm_iter pairs) (λ '(key, value), fs_set_key key value committed).

Fixpoint fs_get_prefix_loop (self : FilesystemDataStore) (committed : Committed) (keys : list Key)
    (res : key_map string) : result error (key_map string) :=
  match keys with
  | [] => Ok res
  | key :: keys =>
      let? o := fs_get_key self key committed in
      let? value := ok_or o (ListedKeyNotPresent (name key)) in
      fs_get_prefix_loop self committed keys (hm_insert key value res)
  end.
Definition fs_get_prefix (self : FilesystemDataStore) (find_prefix : string) (committed : Committed) :
    result error (key_map string) :=
  let? keys := fs_list_populated_keys self find_prefix committed in
  if decide (keys = ∅) then Ok ∅ else fs_get_prefix_loop self committed (hs_iter keys) ∅.

Definition fs_commit_transaction {BE} (transaction : string)
    (constraint_check : Committed → stres FilesystemDataStore BE ConstraintCheckResult) :
    stres FilesystemDataStore error key_set :=
  let! transactions := st_read fs_list_transactions in
  if negb (bool_decide (transaction ∈ transactions)) then st_ret ∅
  else
    let pending := Pending transaction in
    let! constraints_check_result := st_map_err (λ _, CheckConstraintExecution) (constraint_check pending) in
    let! approved_write := st_lift (approved_write_try_from constraints_check_result) in
    let! _ := st_forM (aw_metadata approved_write) (λ '(metadata_key, data_key, value),
                fs_set_metadata metadata_key data_key value Live) in
    let pending_data := aw_settings approved_write in
    let! pending_keys :=
      if decide (pending_data = ∅) then st_ret ∅
      else let! _ := fs_set_keys pending_data Live in
           st_ret (hs_collect (hm_keys pending_data)) in
    let! path := st_read (λ self, Ok (components (base_path self pending))) in
    let! _ := on_disk (Io path) (fs_remove_dir_all path) in
    st_ret pending_keys.

Definition fs_delete_transaction (transaction : string) : stres FilesystemDataStore error key_set :=
  let pending := Pending transaction in
  let! pending_data := st_read (λ self, fs_get_prefix self "settings." pending) in
  let pending_keys := hs_collect (hm_keys pending_data) in
  let! path := st_read (λ self, Ok (components (base_path self pending))) in
  λ self,
    match fs_remove_dir_all path (fs_disk self) with
    | (d, Err e) =>
        if decide (e = NotFound) then (with_disk d self, Ok pending_keys)
        else (with_disk d self, Err (Io path e))
    | (d, Ok _) => (with_disk d self, Ok pending_keys)
    end.

#[global] Instance filesystem_data_store : DataStore FilesystemDataStore := {|
  key_populated := fs_key_populated;
  list_populated_keys := fs_list_populated_keys;
  list_populated_metadata := fs_list_populated_metadata;
  get_key := fs_get_key;
  set_key := fs_set_key;
  unset_key := fs_unset_key;
  get_metadata_raw := fs_get_metadata_raw;
  set_metadata := fs_set_metadata;
  unset_metadata := fs_unset_metadata;
  commit_transaction _ := fs_commit_transaction;
  delete_transaction := fs_delete_transaction;
  list_transactions := fs_list_transactions |}.
End filesystem.

(** ** Paths *)

(** A component that a path can have. *)
Record comp_ok (x : string) : Prop := {
  comp_ne : x ≠ EmptyString;
  comp_not_dot : x ≠ String DOT EmptyString;
  comp_no_slash : no_char SLASH x }.

Lemma components_sep a b : components (a +:+ String SLASH b) = components a ++ components b.
Proof. unfold components. by rewrite str_split_sep, filter_app. Qed.

Lemma components_ok x : comp_ok x → components x = [x].
Proof.
  intros [H1 H2 H3]. unfold components. rewrite str_split_none by done.
  rewrite filter_cons, decide_True by done. done.
Qed.

Lemma components_join l : Forall comp_ok l → components (str_join "/" l) = l.
Proof.
  induction 1 as [|x l Hx Hl IH]; [done|]. destruct l; [by apply components_ok|].
  rewrite str_join_cons. change ("/" +:+ ?s) with (String SLASH s).
  by rewrite components_sep, components_ok, IH.
Qed.

Lemma ends_with_split s c : str_ends_with s c = true → ∃ t, s = t +:+ String c EmptyString.
Proof.
  induction s as [|x s IH]; [done|]. destruct s as [|y s]; cbn -[String.append].
  - rewrite bool_decide_eq_true. intros ->. by exists EmptyString.
  - intros (t & E)%IH. exists (String x t). cbn. by rewrite <- E.
Qed.

(** Joining a relative path appends its components. *)
Lemma components_path_join base s :
  str_starts_with s "/" = false → components (path_join base s) = components base ++ components s.
Proof.
  intros Hs. assert (∀ t, (str_is_empty base || str_ends_with base SLASH) = true →
    components (base +:+ t) = components base ++ components t) as Hb.
  { intros t [He|(b & ->)%ends_with_split]%orb_prop; [by destruct base|].
    rewrite <- str_app_assoc. cbn [String.append]. rewrite !components_sep. cbn.
    change (components EmptyString) with (@nil string). by rewrite app_nil_r. }
  destruct s as [|a s]; cbn -[components].
  - destruct (_ || _).
    + change (components EmptyString) with (@nil string). by rewrite app_nil_r.
    + by rewrite components_sep.
  - rewrite decide_False; [|intros ->; cbn in Hs; by destruct s].
    destruct (_ || _) eqn:E; [by apply Hb|]. by rewrite components_sep.
Qed.

(** ** The disk *)

(** Everything on the disk is in a directory. *)
Definition tree (d : disk) : Prop := ∀ p x n, d !! (p ++ [x]) = Some n → d !! p = Some Dir.

(** [q] is a proper prefix of [p]. *)
Lemma take_below p q i : q = take i p → i < length p → below q p.
Proof.
  intros -> Hi. destruct (drop i p) as [|x r] eqn:E.
  - apply (f_equal length) in E. rewrite length_drop in E. cbn in E. lia.
  - exists x, r. by rewrite <- E, take_drop.
Qed.

Lemma below_take p q : below q p → ∃ i, i < length p ∧ q = take i p.
Proof.
  intros (x & r & ->). exists (length q). rewrite length_app, take_app_length. cbn. split; [lia|done].
Qed.

Lemma not_below_self p : ¬ below p p.
Proof. intros (x & r & E). apply (f_equal length) in E. rewrite length_app in E. cbn in E. lia. Qed.

Lemma below_app p q r : below (p ++ q) r → below p r.
Proof. intros (x & s & ->). destruct q as [|y q]; [by rewrite app_nil_r; exists x, s|].
  exists y, (q ++ x :: s). by rewrite <- app_assoc. Qed.

Lemma below_snoc (p q : list string) x : below q (p ++ [x]) ↔ q = p ∨ below q p.
Proof.
  split.
  - intros (y & r & E). destruct r as [|z r _] using rev_ind.
    + apply app_inj_tail in E as [-> _]. by left.
    + rewrite app_comm_cons, app_assoc in E. apply app_inj_tail in E as [-> _]. right. by exists y, r.
  - intros [->|(y & r & ->)]; [by exists x, []|]. exists y, (r ++ [x]). by rewrite <- app_assoc.
Qed.

Lemma tree_below d p q n : tree d → d !! p = Some n → below q p → d !! q = Some Dir.
Proof.
  intros Ht. revert n. induction p as [|x p IH] using rev_ind; intros n Hp Hq.
  - destruct Hq as (y & r & E). by destruct q.
  - apply Ht in Hp as Hd. apply below_snoc in Hq as [->|Hq]; [done|]. by eapply IH.
Qed.

(** What [make_dirs] adds: the directories on the way. *)
Lemma make_dirs_fold (p : list string) (d : disk) q l :
  foldr (λ i d, match d !! take i p with Some _ => d | None => <[take i p := Dir]> d end) d l !! q
  = match d !! q with
    | Some n => Some n
    | None => if decide (q ∈ (λ i, take i p) <$> l) then Some Dir else None
    end.
Proof.
  induction l as [|i l IH]; cbn -[decide].
  { destruct (d !! q); [done|]. by rewrite decide_False by apply not_elem_of_nil. }
  set (d0 := foldr _ d l) in *.
  assert (q ≠ take i p ∨ is_Some (d0 !! q) →
    d0 !! q = match d !! q with Some n => Some n | None =>
      if decide (q ∈ take i p :: ((λ i, take i p) <$> l)) then Some Dir else None end) as Hsame.
  { rewrite IH. intros Hq. destruct (d !! q); [done|]. apply decide_ext. rewrite elem_of_cons.
    destruct Hq as [?|[n Hn]]; [naive_solver|]. case_decide; naive_solver. }
  destruct (decide (q = take i p)) as [->|Hne].
  - destruct (d0 !! take i p) as [n|] eqn:E; [rewrite E; apply Hsame; by right|].
    rewrite lookup_insert_eq. destruct (d !! take i p); [done|]. by rewrite decide_True by by left.
  - rewrite <- Hsame by by left. destruct (d0 !! take i p); [done|]. by rewrite lookup_insert_ne.
Qed.

Lemma make_dirs_lookup p d q :
  make_dirs p d !! q =
  match d !! q with
  | Some n => Some n
  | None => if decide (q = p ∨ below q p) then Some Dir else None
  end.
Proof.
  unfold make_dirs. rewrite make_dirs_fold. destruct (d !! q); [done|]. apply decide_ext.
  rewrite list_elem_of_fmap. split.
  - intros (i & -> & [_ Hi]%elem_of_seq). destruct (decide (i = length p)) as [->|].
    + left. by rewrite firstn_all.
    + right. eapply take_below; [done|]. lia.
  - intros [->|(i & Hi & ->)%below_take].
    + exists (length p). rewrite elem_of_seq, firstn_all. split; [done|lia].
    + exists i. rewrite elem_of_seq. split; [done|lia].
Qed.

(** The disk after a file was written: the directories on the way are there. *)
Definition wrote (p : list string) (data : string) (d d' : disk) : Prop :=
  ∀ q, d' !! q =
    if decide (q = p) then Some (File data)
    else match d !! q with
         | Some n => Some n
         | None => if decide (below q p) then Some Dir else None
         end.
(** Nothing is in the way of a file: no file above it, no directory in its place. *)
Definition can_write (p : list string) (d : disk) : Prop :=
  (∀ q, below q p → is_file (d !! q) = false) ∧ d !! p ≠ Some Dir.

Lemma file_above_false (p : list string) (d : disk) :
  existsb (λ i, is_file (d !! take i p)) (seq 0 (length p)) = false ↔
  ∀ q, below q p → is_file (d !! q) = false.
Proof.
  rewrite <- not_true_iff_false, existsb_exists. split.
  - intros Hn q (i & Hi & ->)%below_take. apply not_true_iff_false. intros Hf. apply Hn.
    exists i. split; [apply in_seq; lia|done].
  - intros Hq (i & [_ Hi]%in_seq & Hf). rewrite Hq in Hf; [done|]. by eapply take_below.
Qed.

Lemma parent_snoc (p : list string) x : parent (p ++ [x]) = Some p.
Proof.
  unfold parent. destruct (p ++ [x]) as [|y l] eqn:E; [by destruct p|]. rewrite <- E.
  rewrite length_app. cbn. rewrite Nat.add_1_r. cbn [pred]. by rewrite take_app_length.
Qed.

Definition write_result (p : list string) (d : disk) : result error () :=
  if decide (d !! p = Some Dir) then Err (Io p IsADirectory)
  else match parent p with
       | Some q => if is_file (d !! q) then Err (Io q AlreadyExists) else
           if existsb (λ i, is_file (d !! take i q)) (seq 0 (length q)) then Err (Io q NotADirectory)
           else Ok tt
       | None => Err (Internal "Given path to write without proper prefix")
       end.

Lemma write_result_Ok p x d u : write_result (p ++ [x]) d = Ok u ↔ can_write (p ++ [x]) d.
Proof.
  unfold write_result, can_write. rewrite parent_snoc. case_decide as Hd.
  { split; [done|]. by intros []. }
  assert ((∀ q, below q (p ++ [x]) → is_file (d !! q) = false) ↔
    is_file (d !! p) = false ∧ ∀ q, below q p → is_file (d !! q) = false) as ->.
  { setoid_rewrite below_snoc. naive_solver. }
  rewrite <- file_above_false. destruct (is_file (d !! p)); [naive_solver|].
  destruct (existsb _ _), u; naive_solver.
Qed.

Section writing.
Context `{HashOrder} `{PercentEncoding}.

(** What [write_file_mkdir] does: it fails, and changes nothing, when something is
    in the way. *)
Lemma write_file_mkdir_spec p x path data self :
  tree (fs_disk self) → components path = p ++ [x] →
  ∃ d', write_file_mkdir path data self = (with_disk d' self, write_result (p ++ [x]) (fs_disk self)) ∧
    match write_result (p ++ [x]) (fs_disk self) with
    | Ok _ => wrote (p ++ [x]) data (fs_disk self) d'
    | Err _ => d' = fs_disk self
    end.
Proof.
  intros Ht Hc. unfold write_file_mkdir. rewrite Hc, parent_snoc. unfold st_bind, st_lift. cbn [ok_or].
  unfold on_disk at 1, fs_create_dir_all. unfold write_result. rewrite parent_snoc.
  destruct (decide (fs_disk self !! (p ++ [x]) = Some Dir)) as [Hd|Hd].
  { pose proof (Ht _ _ _ Hd) as Hp.
    assert (∀ q, below q p → is_file (fs_disk self !! q) = false) as Hq.
    { intros q Hq. by rewrite (tree_below _ _ _ _ Ht Hp Hq). }
    apply file_above_false in Hq as ->. rewrite Hp. cbn [is_file map_err].
    assert (make_dirs p (fs_disk self) = fs_disk self) as ->.
    { apply map_eq. intros q. rewrite make_dirs_lookup. destruct (fs_disk self !! q) eqn:E; [done|].
      rewrite decide_False; [done|]. intros [->|Hq']; [congruence|].
      by rewrite (tree_below _ _ _ _ Ht Hp Hq') in E. }
    unfold on_disk, fs_write. cbn. rewrite Hd. cbn. by eexists. }
  destruct (is_file (fs_disk self !! p)) eqn:Hp; [by eexists|].
  destruct (existsb _ _) eqn:He; [by eexists|]. cbn [map_err].
  unfold on_disk, fs_write. cbn [fs_disk with_disk]. rewrite parent_snoc.
  set (d1 := make_dirs p (fs_disk self)).
  assert (d1 !! p = Some Dir) as ->.
  { unfold d1. rewrite make_dirs_lookup. destruct (fs_disk self !! p) as [[]|]; [done..|].
    by rewrite decide_True by by left. }
  assert (d1 !! (p ++ [x]) = fs_disk self !! (p ++ [x])) as Hpx.
  { unfold d1. rewrite make_dirs_lookup. destruct (fs_disk self !! (p ++ [x])); [done|].
    rewrite decide_False; [done|]. intros [E|E].
    - apply (f_equal length) in E. rewrite length_app in E. cbn in E. lia.
    - by apply below_app, not_below_self in E. }
  exists (<[p ++ [x] := File data]> d1). split.
  { rewrite Hpx. destruct (fs_disk self !! (p ++ [x])) as [[]|]; done. }
  intros q. destruct (decide (q = p ++ [x])) as [->|Hne]; [by rewrite lookup_insert_eq|].
  rewrite lookup_insert_ne by done. unfold d1. rewrite make_dirs_lookup.
  destruct (fs_disk self !! q); [done|]. apply decide_ext. by rewrite below_snoc.
Qed.
End writing.

(** The disk after some empty directories were removed. *)
Definition pruned (d d' : disk) : Prop :=
  ∀ q, d' !! q = d !! q ∨ (d !! q = Some Dir ∧ d' !! q = None).

Lemma remove_dir_spec p d d' r :
  fs_remove_dir p d = (d', r) → tree d →
  tree d' ∧ pruned d d' ∧ match r with Ok _ => d' = delete p d | Err _ => d' = d end.
Proof.
  unfold fs_remove_dir. intros Hr Ht. assert (pruned d d) as Hp by (intros q; by left).
  destruct (d !! p) as [[|s]|] eqn:E; [|injection Hr as <- <-..]; [|done..].
  case_decide as Hb; injection Hr as <- <-; [done|]. split_and!; [| |done].
  - intros q x n. rewrite !lookup_delete_Some. intros [Hne Hq]. split; [|by eapply Ht].
    intros <-. apply Hb. exists (p ++ [x]), n. split; [done|]. by exists x, [].
  - intros q. destruct (decide (p = q)) as [<-|]; [right; by rewrite lookup_delete_eq|].
    left. by rewrite lookup_delete_ne.
Qed.

Lemma pruned_trans d1 d2 d3 : pruned d1 d2 → pruned d2 d3 → pruned d1 d3.
Proof. intros H1 H2 q. destruct (H1 q) as [E|[]], (H2 q) as [E2|[]]; naive_solver congruence. Qed.

Lemma remove_empty_spec base l d :
  tree d → tree (remove_empty base l d) ∧ pruned d (remove_empty base l d).
Proof.
  revert d. induction l as [|p l IH]; intros d Ht; cbn.
  { split; [done|]. intros q. by left. }
  case_decide; [split; [done|intros q; by left]|].
  destruct (fs_remove_dir p d) as [d1 r] eqn:E.
  destruct (remove_dir_spec _ _ _ _ E Ht) as (Ht1 & Hp1 & _).
  destruct (IH d1 Ht1) as [Ht2 Hp2].
  destruct r as [u|[]]; split; try done; by eapply pruned_trans.
Qed.

Section deleting.
Context `{HashOrder} `{PercentEncoding}.

Lemma remove_file_spec p d d' r :
  fs_remove_file p d = (d', r) → tree d →
  tree d' ∧
  match r with
  | Ok _ => is_file (d !! p) = true ∧ d' = delete p d
  | Err e => d' = d ∧ (e = NotFound → d !! p = None)
  end.
Proof.
  unfold fs_remove_file. intros Hr Ht.
  destruct (d !! p) as [[|s]|] eqn:E; injection Hr as <- <-; [done| |done].
  split; [|done]. intros q x n. rewrite !lookup_delete_Some. intros [Hne Hq].
  split; [|by eapply Ht]. intros <-. apply Ht in Hq. congruence.
Qed.

(** What [delete_key_path] does when it succeeds: the file is gone, and some empty
    directories. *)
Lemma delete_key_path_Ok path c self self' u :
  delete_key_path path c self = (self', Ok u) → tree (fs_disk self) →
  ∃ d', self' = with_disk d' self ∧ tree d' ∧
    pruned (delete (components path) (fs_disk self)) d' ∧
    fs_disk self !! components path ≠ Some Dir.
Proof.
  unfold delete_key_path. intros Hd Ht.
  destruct (fs_remove_file _ _) as [d1 r] eqn:E.
  destruct (remove_file_spec _ _ _ _ E Ht) as [Ht1 Hr].
  assert (∀ d : disk, tree d →
    let d2 := match parent (components path) with
              | Some q => remove_empty (components (base_path self c)) (ancestors q) d
              | None => d
              end in tree d2 ∧ pruned d d2) as Hrm.
  { intros d Hd1. cbn. destruct (parent _); [by apply remove_empty_spec|].
    split; [done|]. intros q. by left. }
  destruct (Hrm d1 Ht1) as [Ht2 Hp2].
  destruct r as [u'|e].
  - injection Hd as <-. eexists. split; [done|]. destruct Hr as [Hf ->]. split_and!; [done..|].
    intros Hdir. by rewrite Hdir in Hf.
  - destruct Hr as [-> He]. case_decide; [|done]. specialize (He ltac:(done)).
    injection Hd as <-. eexists. split; [done|]. rewrite delete_id by done.
    split_and!; [done..|congruence].
Qed.
End deleting.

(** ** Where the keys are *)

Section encoding.
Context `{HashOrder} `{PercentEncoding}.

Lemma encode_not_percent : ENCODE_CHARACTERS PERCENT = false.
Proof. reflexivity. Qed.

Lemma decode_encode_component s p : decode_path_component (encode_path_component s) p = Ok s.
Proof.
  unfold decode_path_component, encode_path_component.
  by rewrite (decode_encode _ _ encode_not_percent).
Qed.

#[global] Instance encode_inj : Inj (=) (=) encode_path_component.
Proof.
  intros s t E. pose proof (decode_encode_component s []) as Hs.
  rewrite E, decode_encode_component in Hs. by injection Hs.
Qed.

Lemma encode_no_char c s :
  ENCODE_CHARACTERS c || bool_decide (c = PERCENT) || is_hex c = false →
  no_char c (encode_path_component s).
Proof.
  intros Hc. unfold no_char, encode_path_component. pose proof (encode_chars ENCODE_CHARACTERS s) as He.
  induction (utf8_percent_encode _ s) as [|a t IH]; [done|]. cbn in *.
  apply andb_true_iff in He as [Ha He]. rewrite (IH He), orb_false_r.
  apply bool_decide_eq_false. intros ->. congruence.
Qed.

Lemma encode_no_dot s : no_char DOT (encode_path_component s).
Proof. by apply encode_no_char. Qed.

Lemma encode_no_slash s : no_char SLASH (encode_path_component s).
Proof. by apply encode_no_char. Qed.

Lemma encode_ne s : s ≠ EmptyString → encode_path_component s ≠ EmptyString.
Proof.
  intros Hs He. apply Hs, encode_inj. rewrite He. symmetry. by apply encode_kept.
Qed.

Lemma encode_comp_ok s : s ≠ EmptyString → comp_ok (encode_path_component s).
Proof.
  intros Hs. split; [by apply encode_ne| |apply encode_no_slash].
  intros E. pose proof (encode_no_dot s) as Hd. by rewrite E in Hd.
Qed.
End encoding.

(** A transaction with an empty name would be the directory of all of them. *)
Definition fs_committed (c : Committed) : Prop :=
  match c with Live => True | Pending tx => tx ≠ EmptyString end.

Section places.
Context `{HashOrder} `{PercentEncoding}.

Definition key_rel (k : Key) : list string := encode_path_component <$> segments k.

(** The base of a transaction or of the live data. *)
Definition base_of (base : list string) (c : Committed) : list string :=
  base ++ match c with Live => ["live"] | Pending tx => ["pending"; encode_path_component tx] end.

Lemma base_of_disjoint base c1 c2 r1 r2 :
  base_of base c1 ++ r1 = base_of base c2 ++ r2 → c1 = c2 ∧ r1 = r2.
Proof.
  unfold base_of. rewrite <- !app_assoc. intros E%app_inv_head.
  destruct c1, c2; cbn in E; simplify_eq; done.
Qed.

(** The store's paths hang off one base. *)
Definition based (base : list string) (self : FilesystemDataStore) : Prop :=
  ∃ b, components b = base ∧ live_path self = path_join b "live" ∧
       pending_base_path self = path_join b "pending".

Lemma new_based b d : based (components b) (filesystem_new b d).
Proof. by exists b. Qed.

Lemma with_disk_based base d self : based base (with_disk d self) ↔ based base self.
Proof. done. Qed.

Lemma relative_head a t : a ≠ SLASH → str_starts_with (String a t) "/" = false.
Proof.
  intros Ha. apply not_true_iff_false. intros (t' & E)%str_starts_with_spec. by injection E as -> _.
Qed.

Lemma no_slash_relative s : no_char SLASH s → str_starts_with s "/" = false.
Proof.
  destruct s as [|a s]; [done|]. unfold no_char. cbn -[String.prefix].
  rewrite orb_false_iff, bool_decide_eq_false. intros [Ha _]. by apply relative_head.
Qed.

Lemma base_path_components base self c :
  based base self → fs_committed c → components (base_path self c) = base_of base c.
Proof.
  intros (b & <- & Hl & Hp) Hc. unfold base_of, base_path. destruct c as [|tx].
  - rewrite Hl, components_path_join by done. done.
  - rewrite components_path_join by (apply no_slash_relative, encode_no_slash).
    rewrite Hp, components_path_join by done.
    rewrite (components_ok (encode_path_component tx)) by (by apply encode_comp_ok).
    by rewrite <- app_assoc.
Qed.

Lemma key_rel_ok k : proper_key k → Forall comp_ok (key_rel k).
Proof.
  intros [_ Hk]. unfold key_rel. apply Forall_fmap. eapply Forall_impl; [exact Hk|].
  intros s Hs. by apply encode_comp_ok.
Qed.

Lemma key_rel_ne k : proper_key k → key_rel k ≠ [].
Proof. intros [[Hne _ _ _ _] _] E. by apply fmap_nil_inv in E. Qed.

Lemma join_relative x l : comp_ok x → str_starts_with (str_join "/" (x :: l)) "/" = false.
Proof.
  intros [Hx _ Hs]. destruct x as [|a x]; [done|]. unfold no_char in Hs. cbn in Hs.
  apply orb_false_iff in Hs as [Ha _]. apply bool_decide_eq_false in Ha.
  destruct l; by apply relative_head.
Qed.

Lemma prefix_eq_false (p q : list string) : q ≠ [] →
  negb (bool_decide (p ++ q = p)) && bool_decide (p `prefix_of` p ++ q) = true.
Proof.
  intros Hq. rewrite bool_decide_false, bool_decide_true; [done| |].
  - by apply prefix_app_r.
  - intros E. apply Hq. rewrite <- (app_nil_r p) in E at 2. by apply app_inv_head in E.
Qed.

(** The path of a data key: one component per segment below the base. *)
Lemma data_path_spec base self k c :
  based base self → fs_committed c → proper_key k →
  ∃ path, data_path self k c = Ok path ∧ components path = base_of base c ++ key_rel k ∧
    path = path_join (base_path self c) (str_join "/" (key_rel k)).
Proof.
  intros Hb Hc Hk. pose proof (key_rel_ok k Hk) as Hok. pose proof (key_rel_ne k Hk) as Hne.
  unfold data_path. fold (key_rel k).
  assert (components (path_join (base_path self c) (str_join "/" (key_rel k))) =
    base_of base c ++ key_rel k) as Hcp.
  { rewrite components_path_join, components_join, (base_path_components base) ; [done..|].
    destruct (key_rel k); [done|]. apply join_relative. by apply Forall_cons in Hok as []. }
  rewrite Hcp, (base_path_components base), prefix_eq_false by done. cbn. by eexists.
Qed.

Lemma str_join_last sep pre l t :
  str_join sep (pre ++ [l]) +:+ t = str_join sep (pre ++ [l +:+ t]).
Proof.
  induction pre as [|x pre IH]; [done|].
  assert (∃ y pre', pre ++ [l] = y :: pre') as (y & pre' & E) by (destruct pre; eauto).
  assert (∃ y pre', pre ++ [l +:+ t] = y :: pre') as (y2 & pre2 & E2) by (destruct pre; eauto).
  cbn [app]. rewrite E, E2 in *. rewrite !str_join_cons, <- IH. by rewrite !str_app_assoc.
Qed.

Lemma path_join_app b a s t : a ≠ SLASH →
  path_join b (String a s) +:+ t = path_join b (String a (s +:+ t)).
Proof.
  intros Ha. unfold path_join. rewrite !decide_False by done.
  destruct (str_is_empty b || str_ends_with b SLASH); by rewrite <- str_app_assoc.
Qed.

(** The path of a metadata key: the path of the data key with a suffix. *)
Definition meta_rel (k : Key) (m : string) : list string :=
  match last (key_rel k) with
  | Some l => take (pred (length (key_rel k))) (key_rel k) ++ [l +:+ "." +:+ encode_path_component m]
  | None => []
  end.

Lemma meta_rel_snoc k m pre l : key_rel k = pre ++ [l] →
  meta_rel k m = pre ++ [l +:+ "." +:+ encode_path_component m].
Proof.
  intros E. unfold meta_rel. rewrite E, last_snoc, length_app. cbn. rewrite Nat.add_1_r.
  cbn [pred]. by rewrite take_app_length.
Qed.

Lemma rel_snoc k : proper_key k → ∃ pre l, key_rel k = pre ++ [l] ∧ comp_ok l ∧ no_char DOT l ∧ Forall comp_ok pre.
Proof.
  intros Hk. pose proof (key_rel_ok k Hk) as Hok. pose proof (key_rel_ne k Hk) as Hne.
  assert (Forall (no_char DOT) (key_rel k)) as Hd.
  { unfold key_rel. apply Forall_fmap, Forall_true. intros s. apply encode_no_dot. }
  destruct (key_rel k) as [|l pre _] using rev_ind; [done|]. exists pre, l.
  apply Forall_app in Hok as [? [? _]%Forall_cons]. apply Forall_app in Hd as [_ [? _]%Forall_cons].
  done.
Qed.

Lemma meta_comp_ok l m : comp_ok l → no_char DOT l → comp_ok (l +:+ "." +:+ encode_path_component m).
Proof.
  intros [Hne Hnd Hs] Hd. split.
  - by destruct l.
  - destruct l as [|a [|b l]]; [done|..]; intros E; by injection E.
  - rewrite !no_char_app. split_and!; [done|done|apply encode_no_slash].
Qed.

Lemma metadata_path_spec base self mk m ms k c :
  based base self → fs_committed c → proper_key k → segments mk = m :: ms →
  ∃ path, metadata_path self mk k c = Ok path ∧ components path = base_of base c ++ meta_rel k m.
Proof.
  intros Hb Hc Hk Hm. destruct (data_path_spec base self k c Hb Hc Hk) as (path & Hp & _ & ->).
  unfold metadata_path. rewrite Hp, Hm. cbn [mbind result_bind head ok_or]. eexists. split; [done|].
  destruct (rel_snoc k Hk) as (pre & l & E & Hl & Hd & Hpre). rewrite (meta_rel_snoc k m pre l E), E.
  assert (Forall comp_ok (pre ++ [l])) as Hall by (by rewrite Forall_app, Forall_singleton).
  pose proof (str_join_last "/" pre l ("." +:+ encode_path_component m)) as Hj.
  assert (str_starts_with (str_join "/" (pre ++ [l])) "/" = false) as Hrel.
  { destruct (pre ++ [l]); [done|]. apply join_relative. by apply Forall_cons in Hall as []. }
  assert (str_join "/" (pre ++ [l]) ≠ EmptyString) as Hjne.
  { intros Ej. apply (f_equal components) in Ej. rewrite components_join in Ej by done. by destruct pre. }
  destruct (str_join "/" (pre ++ [l])) as [|a s]; [done|].
  rewrite path_join_app by (intros ->; by destruct s). rewrite str_app_cons in Hj. rewrite Hj.
  rewrite components_path_join, components_join, (base_path_components base); [done|done|done| |].
  - rewrite Forall_app, Forall_singleton. split; [done|by apply meta_comp_ok].
  - rewrite <- Hj. apply relative_head. intros ->. by destruct s.
Qed.

(** *** Reading a path back *)

Definition canonical (k : Key) : Key := mk_key (encoded (segments k)) (segments k).

Lemma from_segments_canonical k : key_wf k → from_segments Data (segments k) = Ok (canonical k).
Proof.
  intros [Hne Hok Hlen _ _]. apply from_segments_Ok. split_and!; [done|done|].
  by apply check_key_Ok.
Qed.

Lemma decode_segments p l :
  mapM (M := result error) (λ s, decode_path_component s p) (encode_path_component <$> l) = Ok l.
Proof.
  induction l as [|s l IH]; [done|]. rewrite fmap_cons.
  change (mapM ?f (?x :: ?l)) with (y ← f x; k ← mapM f l; mret (y :: k)).
  cbv beta. by rewrite decode_encode_component, IH.
Qed.

Lemma split_rel k : proper_key k → str_split SLASH (str_join "/" (key_rel k)) = key_rel k.
Proof.
  intros Hk. apply (str_split_join SLASH); [by apply key_rel_ne|].
  eapply Forall_impl; [by apply key_rel_ok|]. by intros x [].
Qed.

Lemma join_rel_no_dot k : no_char DOT (str_join "/" (key_rel k)).
Proof.
  apply no_char_join; [done|]. unfold key_rel. apply Forall_fmap, Forall_true.
  intros s. apply encode_no_dot.
Qed.

Lemma from_path_data k : proper_key k → from_path (key_rel k) = Ok (mk_key_path (canonical k) None).
Proof.
  intros Hk. unfold from_path. rewrite str_splitn2_no_char by apply join_rel_no_dot.
  rewrite split_rel by done. unfold key_rel. rewrite decode_segments. cbn [mbind result_bind].
  rewrite from_segments_canonical by apply Hk. done.
Qed.

Lemma from_path_meta k m : proper_key k →
  from_path (meta_rel k m) =
  (let? mk := key_new Meta (encode_path_component m) in Ok (mk_key_path (canonical k) (Some mk))).
Proof.
  intros Hk. destruct (rel_snoc k Hk) as (pre & l & E & _).
  rewrite (meta_rel_snoc k m pre l E). unfold from_path. rewrite <- str_join_last, <- E.
  change ("." +:+ ?s) with (String DOT s). rewrite (str_splitn2_char DOT) by apply join_rel_no_dot.
  rewrite split_rel by done. unfold key_rel. rewrite decode_segments. cbn [mbind result_bind].
  rewrite from_segments_canonical by apply Hk. cbn [mbind result_bind].
  by destruct (key_new _ _).
Qed.

End places.

(** ** The store keeps its promises *)

Section entries.
Context `{HashOrder} `{PercentEncoding}.

(** The paths below a base that hold the files of keys and of their metadata. *)
Definition good_rel (rel : list string) : Prop :=
  (∃ k, proper_key k ∧ rel = key_rel k) ∨ (∃ k m, proper_key k ∧ rel = meta_rel k m).

(** The invariant of the store: its files are in directories; below a base a file
    is the file of a key or of a metadata key; a directory of a transaction is named
    by it. *)
Record fs_inv_at (base : list string) (self : FilesystemDataStore) : Prop := {
  inv_based : based base self;
  inv_tree : tree (fs_disk self);
  inv_files c rel s :
    fs_committed c → fs_disk self !! (base_of base c ++ rel) = Some (File s) → good_rel rel;
  inv_transactions x :
    fs_disk self !! (base ++ ["pending"; x]) = Some Dir →
    ∃ tx, tx ≠ EmptyString ∧ x = encode_path_component tx }.

Definition fs_inv (self : FilesystemDataStore) : Prop := ∃ base, fs_inv_at base self.

(** The entry a file of the disk stands for. *)
Definition entry_of (base : list string) (e : list string * node) :
    option (list string * (Key * string)) :=
  match e.2 with
  | File s =>
      match from_path (drop (length base) e.1) with
      | Ok kp => if decide (kp_key_type kp = Data)
                 then Some (segments (data_key kp), (data_key kp, s)) else None
      | Err _ => None
      end
  | Dir => None
  end.

Definition fs_entries (self : FilesystemDataStore) (c : Committed) : key_map string :=
  let base := components (base_path self c) in
  list_to_map (omap (entry_of base) (walk (fs_disk self) base)).

Lemma fs_entries_wf self c : hm_wf (fs_entries self c).
Proof.
  intros segs kv Hs. unfold fs_entries in Hs. apply elem_of_list_to_map_2 in Hs.
  apply list_elem_of_omap in Hs as ([p n] & _ & He). unfold entry_of in He. cbn in He.
  destruct n; [done|]. destruct (from_path _) as [kp|]; [|done]. case_decide; [|done].
  by injection He as <- <-.
Qed.

Lemma elem_of_walk d base p n :
  (p, n) ∈ walk d base ↔ d !! p = Some n ∧ ∃ rel, p = base ++ rel.
Proof.
  unfold walk. rewrite list_elem_of_filter, elem_of_map_to_list. cbn. split.
  - intros [[->|(x & r & ->)] Hp]; (split; [done|]); [exists []; by rewrite app_nil_r|by eexists].
  - intros [Hp [[|x r] ->]]; (split; [|done]); [left; by rewrite app_nil_r|right; by exists x, r].
Qed.

Lemma key_rel_inj k1 k2 : key_rel k1 = key_rel k2 → segments k1 = segments k2.
Proof. unfold key_rel. apply list_fmap_eq_inj, encode_inj. Qed.

(** A file below a base that stands for a data key is at the path of that key. *)
Lemma data_file base self c rel s kp :
  fs_inv_at base self → fs_committed c →
  fs_disk self !! (base_of base c ++ rel) = Some (File s) →
  from_path rel = Ok kp → kp_key_type kp = Data →
  ∃ k, proper_key k ∧ rel = key_rel k ∧ kp = mk_key_path (canonical k) None.
Proof.
  intros Hinv Hc Hd Hf Hk. destruct (inv_files _ _ Hinv _ _ _ Hc Hd) as [(k & Hkk & ->)|(k & m & Hkk & ->)].
  - rewrite from_path_data in Hf by done. injection Hf as <-. by exists k.
  - rewrite from_path_meta in Hf by done. by rinv.
Qed.

Lemma elem_of_fs_entries base self c segs k v :
  fs_inv_at base self → fs_committed c →
  (segs, (k, v)) ∈ omap (entry_of (components (base_path self c)))
                     (walk (fs_disk self) (components (base_path self c))) ↔
  ∃ k0, proper_key k0 ∧ segs = segments k0 ∧ k = canonical k0 ∧
        fs_disk self !! (base_of base c ++ key_rel k0) = Some (File v).
Proof.
  intros Hinv Hc. rewrite (base_path_components base); [|by destruct Hinv|done].
  rewrite list_elem_of_omap. split.
  - intros ([p n] & [Hp [rel ->]]%elem_of_walk & He). unfold entry_of in He. cbn in He.
    destruct n as [|s]; [done|]. rewrite drop_app_length in He.
    destruct (from_path rel) as [kp|] eqn:Ef; [|done]. case_decide as Hk; [|done].
    destruct (data_file _ _ _ _ _ _ Hinv Hc Hp Ef Hk) as (k0 & Hk0 & -> & ->).
    injection He as <- <- <-. by exists k0.
  - intros (k0 & Hk0 & -> & -> & Hd). eexists (_, File v). rewrite elem_of_walk. split; [by eauto|].
    unfold entry_of. cbn. rewrite drop_app_length, from_path_data by done. done.
Qed.

(** The entries of a store are its files. *)
Lemma fs_entries_lookup base self c segs k v :
  fs_inv_at base self → fs_committed c →
  fs_entries self c !! segs = Some (k, v) ↔
  ∃ k0, proper_key k0 ∧ segs = segments k0 ∧ k = canonical k0 ∧
        fs_disk self !! (base_of base c ++ key_rel k0) = Some (File v).
Proof.
  intros Hinv Hc. rewrite <- (elem_of_fs_entries base) by done. split.
  - by intros Hl%elem_of_list_to_map_2.
  - intros Hin. unfold fs_entries. apply elem_of_list_to_map_1'; [|done].
    intros [k' v'] Hin'. rewrite (elem_of_fs_entries base) in Hin, Hin' by done.
    destruct Hin as (k1 & Hk1 & -> & -> & Hd1), Hin' as (k2 & Hk2 & Hs & -> & Hd2).
    unfold key_rel in Hd1, Hd2. unfold canonical. rewrite <- Hs in *. congruence.
Qed.

Lemma hm_view_entries base self c k :
  fs_inv_at base self → fs_committed c → proper_key k →
  hm_view (fs_entries self c) !! segments k =
  match fs_disk self !! (base_of base c ++ key_rel k) with Some (File v) => Some v | _ => None end.
Proof.
  intros Hinv Hc Hk. unfold hm_view. rewrite lookup_fmap.
  destruct (fs_entries self c !! segments k) as [[k' v']|] eqn:E; cbn.
  - rewrite (fs_entries_lookup base) in E by done. destruct E as (k0 & _ & Hs & _ & Hd).
    unfold key_rel in *. by rewrite Hs, Hd.
  - destruct (fs_disk self !! (base_of base c ++ key_rel k)) as [[|v]|] eqn:Ed; [done| |done].
    exfalso. assert (fs_entries self c !! segments k = Some (canonical k, v)); [|congruence].
    apply (fs_entries_lookup base); [done..|]. by exists k.
Qed.

(** Only keys of the store have entries. *)
Lemma hm_view_entries_key base self c segs v :
  fs_inv_at base self → fs_committed c → hm_view (fs_entries self c) !! segs = Some v →
  ∃ k, proper_key k ∧ segs = segments k.
Proof.
  unfold hm_view. rewrite lookup_fmap. intros Hinv Hc ([k' v'] & E & _)%fmap_Some.
  rewrite (fs_entries_lookup base) in E by done. destruct E as (k0 & ? & ? & _). by exists k0.
Qed.

(** Stores with the same files have the same entries. *)
Lemma fs_entries_ext base self self' c :
  fs_inv_at base self → fs_inv_at base self' → fs_committed c →
  (∀ k v, proper_key k → fs_disk self !! (base_of base c ++ key_rel k) = Some (File v) ↔
                     fs_disk self' !! (base_of base c ++ key_rel k) = Some (File v)) →
  fs_entries self c = fs_entries self' c.
Proof.
  intros H1 H2 Hc Hd. apply map_eq. intros segs. apply option_eq. intros [k v].
  rewrite !(fs_entries_lookup base) by done.
  split; intros (k0 & ? & ? & ? & ?); exists k0; (split_and!; [done..|]); by apply Hd.
Qed.
End entries.

Section promises.
Context `{HashOrder} `{PercentEncoding}.

Lemma wrote_tree p data d d' : tree d → can_write p d → wrote p data d d' → tree d'.
Proof.
  intros Ht [Ha Hp] Hw q x n Hq. rewrite Hw in Hq.
  assert (∀ p', below q p' → p' = p ∨ below p' p → d' !! q = Some Dir) as Hon.
  { intros p' Hb Hp'. assert (below q p) as Hbq.
    { destruct Hp' as [->|(y & r & ->)]; [done|]. destruct Hb as (y' & r' & ->).
      exists y', (r' ++ y :: r). by rewrite <- app_assoc. }
    rewrite Hw, decide_False by (intros ->; by apply not_below_self in Hbq).
    specialize (Ha q Hbq). destruct (d !! q) as [[]|]; [done|done|]. by rewrite decide_True. }
  assert (below q (q ++ [x])) as Hb by by exists x, [].
  case_decide as E; [apply (Hon _ Hb); by left|].
  destruct (d !! (q ++ [x])) as [m|] eqn:Eq.
  - apply Ht in Eq. rewrite Hw, decide_False by congruence. by rewrite Eq.
  - case_decide; [|done]. apply (Hon _ Hb). by right.
Qed.

Lemma wrote_inv base self d' c rel data :
  fs_inv_at base self → fs_committed c → good_rel rel → rel ≠ [] →
  can_write (base_of base c ++ rel) (fs_disk self) →
  wrote (base_of base c ++ rel) data (fs_disk self) d' →
  fs_inv_at base (with_disk d' self).
Proof.
  intros Hinv Hc Hrel Hne Hcan Hw. split.
  - apply Hinv.
  - eapply wrote_tree; [|done..]. apply Hinv.
  - cbn. intros c' rel' s Hc' Hd. rewrite Hw in Hd. case_decide as E.
    + apply base_of_disjoint in E as [-> ->]. done.
    + destruct (fs_disk self !! (base_of base c' ++ rel')) as [n|] eqn:En.
      * injection Hd as ->. by eapply inv_files.
      * by case_decide.
  - cbn. intros x Hd. rewrite Hw in Hd. case_decide as E; [done|].
    destruct (fs_disk self !! (base ++ ["pending"; x])) as [n|] eqn:En.
    + injection Hd as ->. by eapply inv_transactions.
    + case_decide as Hb; [|done]. destruct Hb as (y & r & Hb). destruct c as [|tx].
      * unfold base_of in Hb. rewrite <- !app_assoc in Hb. apply app_inv_head in Hb. done.
      * unfold base_of in Hb. rewrite <- !app_assoc in Hb. apply app_inv_head in Hb.
        injection Hb as <- _. by exists tx.
Qed.

Lemma pruned_inv base self d' p :
  fs_inv_at base self → tree d' → pruned (delete p (fs_disk self)) d' →
  fs_inv_at base (with_disk d' self).
Proof.
  intros Hinv Ht Hp.
  assert (∀ q n, d' !! q = Some n → fs_disk self !! q = Some n) as Hsub.
  { intros q n Hq. destruct (Hp q) as [E|[_ E]]; [|congruence].
    rewrite Hq in E. symmetry in E. by apply lookup_delete_Some in E as [_ ?]. }
  split; cbn; [apply Hinv|done|..].
  - intros c rel s Hc Hd%Hsub. by eapply inv_files.
  - intros x Hd%Hsub. by eapply inv_transactions.
Qed.

Lemma hm_view_Some base self c segs v :
  fs_inv_at base self → fs_committed c →
  hm_view (fs_entries self c) !! segs = Some v ↔
  ∃ k, proper_key k ∧ segs = segments k ∧
       fs_disk self !! (base_of base c ++ key_rel k) = Some (File v).
Proof.
  intros Hinv Hc. unfold hm_view. rewrite lookup_fmap_Some. split.
  - intros ([k' v'] & <- & E). rewrite (fs_entries_lookup base) in E by done.
    destruct E as (k0 & ? & ? & _ & ?). by exists k0.
  - intros (k & Hk & -> & Hd). exists (canonical k, v). split; [done|].
    apply (fs_entries_lookup base); [done..|]. by exists k.
Qed.

(** [set_key] in full: the outcome for every key, and the disk. *)
Lemma fs_set_key_spec base self k v c :
  fs_inv_at base self → fs_committed c → proper_key k →
  let p := base_of base c ++ key_rel k in
  ∃ d', fs_set_key k v c self = (with_disk d' self, write_result p (fs_disk self)) ∧
    match write_result p (fs_disk self) with
    | Ok _ => can_write p (fs_disk self) ∧ wrote p v (fs_disk self) d'
    | Err _ => d' = fs_disk self
    end.
Proof.
  intros Hinv Hc Hk. cbn. destruct (data_path_spec base self k c) as (path & Hp & Hcp & _); [by destruct Hinv|done..|].
  destruct (rel_snoc k Hk) as (pre & l & E & _). rewrite E in *. rewrite app_assoc in *.
  destruct (write_file_mkdir_spec (base_of base c ++ pre) l path v self) as (d' & Hw & Hr);
    [by destruct Hinv|done|].
  exists d'. split.
  - unfold fs_set_key, st_bind, st_read. by rewrite Hp.
  - destruct (write_result _ _) eqn:Er; [|done]. split; [|done]. by eapply write_result_Ok.
Qed.

Lemma fs_set_key_Ok base self self' k v c u :
  fs_inv_at base self → fs_committed c → proper_key k → fs_set_key k v c self = (self', Ok u) →
  ∃ d', self' = with_disk d' self ∧ can_write (base_of base c ++ key_rel k) (fs_disk self) ∧
    wrote (base_of base c ++ key_rel k) v (fs_disk self) d' ∧ fs_inv_at base self'.
Proof.
  intros Hinv Hc Hk Hs. destruct (fs_set_key_spec base self k v c) as (d' & Hs' & Hr); [done..|].
  rewrite Hs in Hs'. injection Hs' as -> Hu. rewrite <- Hu in Hr. destruct Hr as [Hcan Hw].
  exists d'. split_and!; [done..|]. eapply wrote_inv; [done|done| |by apply key_rel_ne|done..].
  left. by exists k.
Qed.

Lemma fs_set_metadata_Ok base self self' mk k v c u :
  fs_inv_at base self → fs_committed c → proper_key k → fs_set_metadata mk k v c self = (self', Ok u) →
  ∃ d' m, self' = with_disk d' self ∧ head (segments mk) = Some m ∧
    can_write (base_of base c ++ meta_rel k m) (fs_disk self) ∧
    wrote (base_of base c ++ meta_rel k m) v (fs_disk self) d' ∧ fs_inv_at base self'.
Proof.
  intros Hinv Hc Hk Hs. destruct (segments mk) as [|m ms] eqn:Em.
  { unfold fs_set_metadata, st_bind, st_read, metadata_path in Hs. rewrite Em in Hs.
    by destruct (data_path self k c). }
  destruct (metadata_path_spec base self mk m ms k c) as (path & Hp & Hcp); [by destruct Hinv|done..|].
  unfold fs_set_metadata, st_bind, st_read in Hs. rewrite Hp in Hs.
  destruct (rel_snoc k Hk) as (pre & l & E & Hl & Hd & Hpre).
  rewrite (meta_rel_snoc k m pre l E) in Hcp.
  destruct (write_file_mkdir_spec (base_of base c ++ pre) (l +:+ "." +:+ encode_path_component m)
    path v self) as (d' & Hw & Hr); [by destruct Hinv|by rewrite Hcp, app_assoc|].
  rewrite Hs in Hw. destruct (write_result _ _) as [u'|] eqn:Hu; [|done]. injection Hw as -> _.
  apply write_result_Ok in Hu. rewrite <- app_assoc in Hr, Hu.
  exists d', m. rewrite (meta_rel_snoc k m pre l E). split_and!; [done..|].
  eapply wrote_inv; [done|done| | |done..].
  - right. exists k, m. by rewrite (meta_rel_snoc k m pre l E).
  - by destruct pre.
Qed.

Lemma fs_unset_key_Ok base self self' k c u :
  fs_inv_at base self → fs_committed c → proper_key k → fs_unset_key k c self = (self', Ok u) →
  ∃ d', self' = with_disk d' self ∧
    pruned (delete (base_of base c ++ key_rel k) (fs_disk self)) d' ∧ fs_inv_at base self'.
Proof.
  intros Hinv Hc Hk Hs. destruct (data_path_spec base self k c) as (path & Hp & Hcp & _); [by destruct Hinv|done..|].
  unfold fs_unset_key, st_bind, st_read in Hs. rewrite Hp in Hs.
  apply delete_key_path_Ok in Hs as (d' & -> & Ht & Hpr & _); [|by destruct Hinv].
  rewrite Hcp in Hpr. exists d'. split_and!; [done..|]. by eapply pruned_inv.
Qed.
End promises.

(** *** Listing *)

Section listing.
Context `{HashOrder} `{PercentEncoding}.

Definition kp_index (kp : KeyPath) : list string * option (list string) :=
  (segments (data_key kp), segments <$> metadata_key kp).

Lemma kp_collect_elem l kp :
  (∀ kp1 kp2, kp1 ∈ l → kp2 ∈ l → kp_index kp1 = kp_index kp2 → kp1 = kp2) →
  kp ∈ hash_iter (foldl (λ s kp, kp_insert kp s) ∅ l) ↔ kp ∈ l.
Proof.
  intros Hl. rewrite elem_of_hash_iter.
  assert (∀ s : key_path_set, (∀ i kp, s !! i = Some kp → i = kp_index kp) →
    (∀ kp i kp0, kp ∈ l → s !! i = Some kp0 → i = kp_index kp → kp0 = kp) →
    (∃ i, foldl (λ s kp, kp_insert kp s) s l !! i = Some kp) ↔ (∃ i, s !! i = Some kp) ∨ kp ∈ l) as Hg.
  { clear -Hl. induction l as [|kp0 l IH]; intros s Hi Hs; cbn.
    { split; [by left|]. by intros [?|?%not_elem_of_nil]. }
    unfold kp_insert at 2. fold (kp_index kp0). destruct (s !! kp_index kp0) as [kp1|] eqn:E.
    - assert (kp1 = kp0) as -> by (apply (Hs kp0 (kp_index kp0)); [by left|done|done]).
      rewrite IH; [|intros; apply Hl; [by right|by right|done]|done|intros ????; apply Hs; by right].
      rewrite elem_of_cons. split; [naive_solver|]. intros [?|[->|?]]; [by left|left; by eexists|by right].
    - rewrite IH; [|intros; apply Hl; [by right|by right|done]| |].
      + rewrite elem_of_cons. split.
        * intros [[i [[<- <-]|[_ ?]]%lookup_insert_Some]|?]; [right; by left|left; by eexists|by right; right].
        * intros [[i ?]|[->|?]]; [left; exists i; rewrite lookup_insert_ne; congruence
            |left; eexists; apply lookup_insert_eq|by right].
      + intros i kp2 [[<- <-]|[_ ?]]%lookup_insert_Some; [done|by apply Hi].
      + intros kp2 i kp3 Hin [[<- <-]|[_ ?]]%lookup_insert_Some Hix.
        * apply Hl; [by left|by right|done].
        * apply (Hs kp2 i); [by right|done|done]. }
  rewrite Hg; [|done|done]. split; [|by right]. intros [[i ?]|?]; [done|done].
Qed.

(** The key paths among the entries that the caller asked for. *)
Definition wanted (base : list string) (key_type : KeyType) (prefix : string)
    (e : list string * node) : option KeyPath :=
  match from_entry base e with
  | Some kp => if str_starts_with (name (data_key kp)) prefix && bool_decide (kp_key_type kp = key_type)
               then Some kp else None
  | None => None
  end.

Lemma find_populated_spec base self t prefix c kps :
  fs_inv_at base self → fs_committed c → find_populated_key_paths self t prefix c = Ok kps →
  kps = foldl (λ s kp, kp_insert kp s) ∅
          (omap (wanted (base_of base c) t prefix) (walk (fs_disk self) (base_of base c))).
Proof.
  intros Hinv Hc. unfold find_populated_key_paths.
  rewrite (base_path_components base); [|by destruct Hinv|done].
  assert (∀ l acc, foldl (λ key_paths entry,
      match from_entry (base_of base c) entry with
      | Some kp =>
          if negb (str_starts_with (name (data_key kp)) prefix) then key_paths
          else if decide (kp_key_type kp = t) then kp_insert kp key_paths
          else key_paths
      | None => key_paths
      end) acc l = foldl (λ s kp, kp_insert kp s) acc (omap (wanted (base_of base c) t prefix) l)) as Hf.
  { induction l as [|e l IH]; intros acc; [done|]. cbn. rewrite IH. unfold wanted.
    destruct (from_entry _ e) as [kp|]; [|done]. destruct (str_starts_with _ _); [|done].
    cbn. case_bool_decide; [by rewrite decide_True|by rewrite decide_False]. }
  rewrite Hf. destruct (fs_exists _ _) eqn:Ee; cbn; [by intros [= <-]|].
  assert (walk (fs_disk self) (base_of base c) = []) as ->.
  { destruct (walk _ _) as [|[p n] l] eqn:Ew; [done|]. exfalso.
    assert ((p, n) ∈ walk (fs_disk self) (base_of base c)) as Hin by (rewrite Ew; by left).
    apply elem_of_walk in Hin as [Hp [rel ->]]. unfold fs_exists in Ee. apply bool_decide_eq_false in Ee.
    apply Ee. destruct rel as [|x r]; [rewrite app_nil_r in Hp; by eexists|].
    exists Dir. eapply tree_below; [by apply (inv_tree base)|exact Hp|by exists x, r]. }
  destruct c; [done|]. by intros [= <-].
Qed.

Lemma fs_list_keys base self prefix c ks :
  fs_inv_at base self → fs_committed c → fs_list_populated_keys self prefix c = Ok ks →
  ks = fst <$> filter (λ e, str_starts_with (name e.2.1) prefix = true) (fs_entries self c).
Proof.
  intros Hinv Hc Hl. unfold fs_list_populated_keys in Hl. rinv.
  match goal with H : find_populated_key_paths _ _ _ _ = _ |- _ =>
    apply (find_populated_spec base) in H as ->; [|done..] end.
  set (l := omap _ _).
  assert (∀ kp, kp ∈ l ↔ ∃ k v, proper_key k ∧ kp = mk_key_path (canonical k) None ∧
    str_starts_with (name (canonical k)) prefix = true ∧
    fs_disk self !! (base_of base c ++ key_rel k) = Some (File v)) as Hin.
  { intros kp. unfold l. rewrite list_elem_of_omap. split.
    - intros ([p [|v]] & [Hp [rel ->]]%elem_of_walk & Hw); [done|].
      unfold wanted, from_entry in Hw. cbn in Hw. rewrite drop_app_length in Hw.
      destruct (from_path rel) as [kp'|] eqn:Ef; [|done]. cbn in Hw.
      destruct (_ && _) eqn:Hb; [|done]. injection Hw as ->.
      apply andb_true_iff in Hb as [Hpre Ht]. apply bool_decide_eq_true in Ht.
      destruct (data_file _ _ _ _ _ _ Hinv Hc Hp Ef Ht) as (k & Hk & -> & ->). by exists k, v.
    - intros (k & v & Hk & -> & Hpre & Hd). eexists (_, File v). rewrite elem_of_walk. split; [by eauto|].
      unfold wanted, from_entry. cbn. rewrite drop_app_length, from_path_data by done. cbn in Hpre |- *.
      by rewrite Hpre. }
  assert (∀ kp, kp ∈ hash_iter (foldl (λ s kp, kp_insert kp s) ∅ l) ↔ kp ∈ l) as Hit.
  { intros kp. apply kp_collect_elem. intros kp1 kp2 (k1 & v1 & _ & -> & _)%Hin (k2 & v2 & _ & -> & _)%Hin E.
    injection E as E. unfold canonical. by rewrite E. }
  apply map_eq. intros segs. apply option_eq. intros k. rewrite hs_collect_canonical.
  - rewrite list_elem_of_fmap, lookup_fmap_Some. split.
    + intros [(kp & -> & (k0 & v & Hk0 & -> & Hpre & Hd)%Hit%Hin) <-].
      exists (canonical k0, v). split; [done|]. apply map_lookup_filter_Some. split; [|done].
      apply (fs_entries_lookup base); [done..|]. by exists k0.
    + intros ([k' v] & <- & [He Hpre]%map_lookup_filter_Some).
      apply (fs_entries_lookup base) in He as (k0 & Hk0 & -> & -> & Hd); [|done..].
      split; [|done]. exists (mk_key_path (canonical k0) None). split; [done|].
      apply Hit, Hin. by exists k0, v.
  - intros k1 k2 (kp1 & -> & (a & ? & _ & -> & _)%Hit%Hin)%list_elem_of_fmap
      (kp2 & -> & (b & ? & _ & -> & _)%Hit%Hin)%list_elem_of_fmap E.
    cbn in *. unfold canonical. by rewrite E.
Qed.

(** The data keys whose metadata is listed are proper. *)
Lemma list_metadata_loop_keys (P : Key → Prop) n l res md :
  list_metadata_loop n l res = Ok md → (∀ kp, kp ∈ l → P (data_key kp)) →
  map_Forall (λ _ e, P e.1) res → map_Forall (λ _ e, P e.1) md.
Proof.
  revert res. induction l as [|kp l IH]; intros res Hl Hp Hres; cbn in Hl; [by injection Hl as <-|].
  rinv. assert (∀ kp, kp ∈ l → P (data_key kp)) as Hp' by (intros; apply Hp; by right).
  destruct (negb _); [by eapply IH|]. eapply IH; [exact Hl|done|]. unfold hm_entry.
  destruct (res !! segments (data_key kp)) as [[k0 m]|] eqn:E; apply map_Forall_insert_2; try done.
  - exact (Hres _ _ E).
  - apply Hp. by left.
Qed.

Lemma fs_list_metadata_keys base self prefix c n md segs dk mks :
  fs_inv_at base self → fs_committed c → fs_list_populated_metadata self prefix c n = Ok md →
  md !! segs = Some (dk, mks) → proper_key dk.
Proof.
  intros Hinv Hc Hl Hs. unfold fs_list_populated_metadata in Hl. rinv.
  match goal with H : find_populated_key_paths _ _ _ _ = _ |- _ =>
    apply (find_populated_spec base) in H as ->; [|done..] end.
  apply (list_metadata_loop_keys proper_key) in Hl; [exact (Hl _ _ Hs)| |done].
  intros kp [i Hkp]%elem_of_hash_iter.
  assert (∀ l (s : key_path_set), map_Forall (λ _ kp, proper_key (data_key kp)) s →
    (∀ kp, kp ∈ l → proper_key (data_key kp)) →
    map_Forall (λ _ kp, proper_key (data_key kp)) (foldl (λ s kp, kp_insert kp s) s l)) as Hf.
  { induction l as [|kp0 l IH]; intros s Hs0 Hl0; [done|]. apply IH.
    - unfold kp_insert. destruct (s !! _); [done|]. apply map_Forall_insert_2; [|done].
      apply Hl0. by left.
    - intros; apply Hl0; by right. }
  refine (Hf _ ∅ _ _ i kp Hkp); [done|]. clear kp i Hkp.
  intros kp ([p [|v]] & [Hp [rel ->]]%elem_of_walk & Hw)%list_elem_of_omap; [done|].
  unfold wanted, from_entry in Hw. cbn in Hw. rewrite drop_app_length in Hw.
  destruct (from_path rel) as [kp'|] eqn:Ef; [|done]. cbn in Hw.
  destruct (_ && _); [|done]. injection Hw as ->.
  assert (∀ k, proper_key k → proper_key (canonical k)) as Hcan.
  { intros k [Hk Hne]. split; [|done]. apply (from_segments_wf Data (segments k)).
    by apply from_segments_canonical. }
  destruct (inv_files _ _ Hinv _ _ _ Hc Hp) as [(k & Hk & ->)|(k & m & Hk & ->)].
  - rewrite from_path_data in Ef by done. injection Ef as <-. by apply Hcan.
  - rewrite from_path_meta in Ef by done. rinv. by apply Hcan.
Qed.

(** Every listed transaction has a name. *)
Lemma list_transactions_loop_elem entries acc txs tx :
  list_transactions_loop entries acc = Ok txs → tx ∈ txs →
  tx ∈ acc ∨ ∃ p, (p, Dir) ∈ entries ∧
    percent_decode_str (default EmptyString (last p)) = Some tx.
Proof.
  revert acc. induction entries as [|[p [|s]] l IH]; intros acc Hl Htx; cbn in Hl.
  - injection Hl as <-. by left.
  - rinv. match goal with H : decode_path_component _ _ = _ |- _ =>
      unfold decode_path_component in H; apply ok_or_Ok in H end.
    destruct (IH _ Hl Htx) as [[->%elem_of_singleton|Ha]%elem_of_union|(q & Hq & Hd)].
    + right. exists p. split; [by left|done].
    + by left.
    + right. exists q. split; [by right|done].
  - destruct (IH _ Hl Htx) as [Ha|(q & Hq & Hd)]; [by left|].
    right. exists q. split; [by right|done].
Qed.

(** Every directory of a transaction is listed. *)
Lemma list_transactions_loop_all entries acc txs p :
  list_transactions_loop entries acc = Ok txs → (p, Dir) ∈ entries →
  acc ⊆ txs ∧ ∃ tx, percent_decode_str (default EmptyString (last p)) = Some tx ∧ tx ∈ txs.
Proof.
  assert (∀ entries acc, list_transactions_loop entries acc = Ok txs → acc ⊆ txs) as Hsub.
  { clear. induction entries as [|[q [|s]] l IH]; intros acc Hl; cbn in Hl; [by injection Hl as <-|rinv|by apply IH].
    apply IH in Hl. set_solver. }
  intros Hl Hp. split; [by eapply Hsub|]. revert acc Hl. induction entries as [|[q n] l IH]; intros acc Hl;
    [by apply not_elem_of_nil in Hp|]. apply elem_of_cons in Hp as [[= <- <-]|Hp]; cbn in Hl.
  - rinv. match goal with H : decode_path_component _ _ = Ok ?tx |- _ =>
      unfold decode_path_component in H; apply ok_or_Ok in H; exists tx; split; [exact H|] end.
    apply Hsub in Hl. set_solver.
  - destruct n; [rinv|]; by eapply IH.
Qed.

Lemma pending_components base self :
  based base self → components (pending_base_path self) = base ++ ["pending"].
Proof. intros (b & <- & _ & ->). by rewrite components_path_join. Qed.

Lemma fs_list_transactions_named base self txs tx :
  fs_inv_at base self → fs_list_transactions self = Ok txs → tx ∈ txs → tx ≠ EmptyString.
Proof.
  intros Hinv Hl Htx. unfold fs_list_transactions in Hl.
  destruct (list_transactions_loop_elem _ _ _ _ Hl Htx) as [?%not_elem_of_empty|(p & Hp & Hd)]; [done|].
  rewrite (pending_components base) in Hp by by destruct Hinv.
  apply list_elem_of_filter in Hp as [Hlen [Hp [rel ->]]%elem_of_walk]. cbn in Hlen.
  rewrite length_app in Hlen. destruct rel as [|x [|y rel]]; cbn in Hlen; [lia| |lia].
  rewrite last_snoc in Hd. cbn in Hd. rewrite <- app_assoc in Hp. cbn in Hp.
  destruct (inv_transactions _ _ Hinv _ Hp) as (tx' & Hne & ->).
  unfold encode_path_component in Hd. rewrite (decode_encode _ _ encode_not_percent) in Hd.
  by injection Hd as <-.
Qed.
End listing.

(** *** The interface *)

Section spec.
Context `{HashOrder} `{PercentEncoding}.

Lemma fs_get_key_entry base self k c o :
  fs_inv_at base self → fs_committed c → proper_key k → fs_get_key self k c = Ok o →
  o = hm_view (fs_entries self c) !! segments k.
Proof.
  intros Hinv Hc Hk Hg. destruct (data_path_spec base self k c) as (path & Hp & Hcp & _); [by destruct Hinv|done..|].
  unfold fs_get_key in Hg. rewrite Hp in Hg. cbn in Hg. unfold read_file_for_key, fs_read in Hg.
  rewrite Hcp in Hg. rewrite (hm_view_entries base) by done.
  destruct (fs_disk self !! _) as [[|s]|]; cbn in Hg; [done|by injection Hg as <-|].
  case_decide; [by injection Hg as <-|done].
Qed.

(** Writing a file outside the keys of a base keeps the entries of the base. *)
Lemma wrote_entries base self d' c c' rel data :
  fs_inv_at base self → fs_inv_at base (with_disk d' self) → fs_committed c' →
  wrote (base_of base c ++ rel) data (fs_disk self) d' →
  (∀ k, proper_key k → c' = c → rel ≠ key_rel k) →
  fs_entries (with_disk d' self) c' = fs_entries self c'.
Proof.
  intros Hinv Hinv' Hc' Hw Hne. apply (fs_entries_ext base); [done..|]. intros k v Hk. cbn.
  rewrite Hw, decide_False.
  - destruct (fs_disk self !! _); [done|]. by case_decide.
  - intros [-> E]%base_of_disjoint. by apply (Hne k Hk).
Qed.

Lemma fs_set_key_view base self d' k v c :
  fs_inv_at base self → fs_inv_at base (with_disk d' self) → fs_committed c → proper_key k →
  wrote (base_of base c ++ key_rel k) v (fs_disk self) d' →
  hm_view (fs_entries (with_disk d' self) c) = <[segments k := v]> (hm_view (fs_entries self c)).
Proof.
  intros Hinv Hinv' Hc Hk Hw. apply map_eq. intros segs. apply option_eq. intros x.
  rewrite lookup_insert_Some, !(hm_view_Some base) by done. cbn. split.
  - intros (k0 & Hk0 & -> & Hd). rewrite Hw in Hd. case_decide as E.
    + apply app_inv_head, key_rel_inj in E. injection Hd as <-. by left.
    + right. split; [intros Es; apply E; unfold key_rel; by rewrite Es|]. exists k0. split_and!; [done..|].
      destruct (fs_disk self !! _); [done|]. by case_decide.
  - intros [[<- <-]|[Hne (k0 & Hk0 & -> & Hd)]].
    + exists k. split_and!; [done..|]. by rewrite Hw, decide_True.
    + exists k0. split_and!; [done..|]. rewrite Hw, decide_False, Hd; [done|].
      intros E%app_inv_head%key_rel_inj. by rewrite E in Hne.
Qed.

Lemma pruned_file d d' p q v :
  pruned (delete p d) d' → d' !! q = Some (File v) ↔ q ≠ p ∧ d !! q = Some (File v).
Proof.
  intros Hp. destruct (decide (q = p)) as [->|Hne].
  - destruct (Hp p) as [E|[E _]]; rewrite lookup_delete_eq in E; [rewrite E; naive_solver|done].
  - destruct (Hp q) as [E|[E1 E2]]; rewrite lookup_delete_ne in * by done; [rewrite E; naive_solver|].
    rewrite E1, E2. naive_solver.
Qed.

Lemma fs_unset_key_view base self d' k c :
  fs_inv_at base self → fs_inv_at base (with_disk d' self) → fs_committed c → proper_key k →
  pruned (delete (base_of base c ++ key_rel k) (fs_disk self)) d' →
  hm_view (fs_entries (with_disk d' self) c) = delete (segments k) (hm_view (fs_entries self c)) ∧
  ∀ c', fs_committed c' → c' ≠ c → fs_entries (with_disk d' self) c' = fs_entries self c'.
Proof.
  intros Hinv Hinv' Hc Hk Hp. split.
  - apply map_eq. intros segs. apply option_eq. intros x.
    rewrite lookup_delete_Some, !(hm_view_Some base) by done. cbn. split.
    + intros (k0 & Hk0 & -> & Hd). rewrite (pruned_file _ _ _ _ _ Hp) in Hd. destruct Hd as [Hne Hd].
      split; [intros Es; apply Hne; unfold key_rel; by rewrite Es|]. by exists k0.
    + intros (Hne & k0 & Hk0 & -> & Hd). exists k0. split_and!; [done..|].
      rewrite (pruned_file _ _ _ _ _ Hp). split; [|done]. intros E%app_inv_head%key_rel_inj. by rewrite E in Hne.
  - intros c' Hc' Hne. apply (fs_entries_ext base); [done..|]. intros k0 v Hk0. cbn.
    rewrite (pruned_file _ _ _ _ _ Hp). split; [naive_solver|]. intros Hd. split; [|done].
    by intros [-> _]%base_of_disjoint.
Qed.

#[global] Program Instance filesystem_data_store_spec : DataStoreSpec FilesystemDataStore := {|
  ds_inv := fs_inv;
  ds_key := proper_key;
  ds_committed := fs_committed;
  ds_entries := fs_entries |}.
Next Obligation. done. Qed.
Next Obligation. intros d txs tx [base Hd] Hl Htx. by eapply fs_list_transactions_named. Qed.
Next Obligation. intros. apply fs_entries_wf. Qed.
Next Obligation.
  intros d c segs k v [base Hd] Hc (k0 & [Hk Hne] & -> & -> & _)%(fs_entries_lookup base); [|done..].
  split; [|done]. apply (from_segments_wf Data (segments k0)). by apply from_segments_canonical.
Qed.
Next Obligation.
  intros d k c o [base Hd] Hk Hc Hg. rewrite hm_get_view. by eapply fs_get_key_entry.
Qed.
Next Obligation.
  intros d k v c d' u [base Hd] Hk Hc Hs.
  destruct (fs_set_key_Ok base _ _ _ _ _ _ Hd Hc Hk Hs) as (d1 & -> & _ & Hw & Hinv').
  split_and!; [by exists base|by eapply fs_set_key_view|].
  intros c' Hc' Hne. by eapply wrote_entries.
Qed.
Next Obligation.
  intros d k c d' u [base Hd] Hk Hc Hs.
  destruct (fs_unset_key_Ok base _ _ _ _ _ Hd Hc Hk Hs) as (d1 & -> & Hp & Hinv').
  split; [by exists base|by eapply fs_unset_key_view].
Qed.
Next Obligation.
  intros d mk k v c d' u [base Hd] Hk Hc Hs.
  destruct (fs_set_metadata_Ok base _ _ _ _ _ _ _ Hd Hc Hk Hs) as (d1 & m & -> & _ & _ & Hw & Hinv').
  split; [by exists base|]. intros c' Hc'. eapply wrote_entries; [done..|].
  intros k0 Hk0 _ E. pose proof (join_rel_no_dot k0) as Hd0. rewrite <- E in Hd0.
  destruct (rel_snoc k Hk) as (pre & l & El & _). rewrite (meta_rel_snoc k m pre l El) in Hd0.
  apply join_no_char, Forall_app in Hd0 as [_ [Hl _]%Forall_cons].
  change ("." +:+ ?s) with (String DOT s) in Hl. apply no_char_app in Hl as [_ Hl].
  unfold no_char in Hl. cbn in Hl. done.
Qed.
Next Obligation. intros d p c ks [base Hd] Hc Hl. by eapply fs_list_keys. Qed.
Next Obligation. intros d p c n md segs dk mks [base Hd] Hc Hl Hs. exact (fs_list_metadata_keys base d p c n md segs dk mks Hd Hc Hl Hs). Qed.
End spec.

(** ** Properties *)

(** *** What the store refines *)

(** The operations that change data, with the arguments of the trait. *)
Inductive store_op :=
| SetKey (key : Key) (value : string) (committed : Committed)
| UnsetKey (key : Key) (committed : Committed)
| SetMetadata (metadata_key data_key : Key) (value : string) (committed : Committed).

Definition op_ok (op : store_op) : Prop :=
  match op with
  | SetKey k _ c | UnsetKey k c | SetMetadata _ k _ c => proper_key k ∧ fs_committed c
  end.

Definition run_op `{HashOrder} `{PercentEncoding} (op : store_op) :
    stres FilesystemDataStore error () :=
  match op with
  | SetKey k v c => set_key k v c
  | UnsetKey k c => unset_key k c
  | SetMetadata mk k v c => set_metadata mk k v c
  end.

(** The same operations on one map of segments to values per [Committed]. *)
Definition apply_op (op : store_op) (m : Committed → gmap (list string) string) :
    Committed → gmap (list string) string :=
  match op with
  | SetKey k v c => λ c', if decide (c' = c) then <[segments k := v]> (m c') else m c'
  | UnsetKey k c => λ c', if decide (c' = c) then delete (segments k) (m c') else m c'
  | SetMetadata _ _ _ _ => m
  end.

Section refines.
Context `{HashOrder} `{PercentEncoding}.

Lemma run_ops_view ops d d' u m :
  fs_inv d → Forall op_ok ops → st_forM ops run_op d = (d', Ok u) →
  (∀ c, fs_committed c → hm_view (fs_entries d c) = m c) →
  fs_inv d' ∧ ∀ c, fs_committed c →
    hm_view (fs_entries d' c) = foldl (λ m op, apply_op op m) m ops c.
Proof.
  revert d m. induction ops as [|op ops IH]; intros d m Hd Hops Hr Hm; cbn in Hr.
  { injection Hr as <- _. done. }
  apply Forall_cons in Hops as [Hop Hops]. apply st_bind_Ok in Hr as (d1 & [] & Hr1 & Hr).
  assert (fs_inv d1 ∧ ∀ c, fs_committed c → hm_view (fs_entries d1 c) = apply_op op m c) as [Hd1 Hm1].
  { destruct op as [k v c|k c|mk k v c]; destruct Hop as [Hk Hc]; cbn [run_op] in Hr1; cbn [apply_op].
    - apply (ds_set_key (D := FilesystemDataStore)) in Hr1 as (Hd1 & Hv & Ho); [|done..].
      split; [done|]. intros c' Hc'. rewrite <- (Hm c') by done. case_decide; subst; [done|f_equal; by apply Ho].
    - apply (ds_unset_key (D := FilesystemDataStore)) in Hr1 as (Hd1 & Hv & Ho); [|done..].
      split; [done|]. intros c' Hc'. rewrite <- (Hm c') by done. case_decide; subst; [done|f_equal; by apply Ho].
    - apply (ds_set_metadata (D := FilesystemDataStore)) in Hr1 as (Hd1 & Ho); [|done..].
      split; [done|]. intros c' Hc'. rewrite <- Hm by done. f_equal. by apply Ho. }
  by apply (IH d1).
Qed.
End refines.

(** C30. The file-system store refines a plain map per [Committed].  Run any
    sequence of [set_key], [unset_key] and [set_metadata] on a store that satisfies
    its invariant, for keys without empty segments and transactions with a name;
    when they succeed, the invariant holds again, [get_key] answers what the map
    holds after the same operations, and [get_prefix] returns exactly the map's
    entries whose key name starts with the prefix. *)
Theorem fs_refines_map `{HashOrder} `{PercentEncoding} ops d d' u m :
  fs_inv d → Forall op_ok ops → st_forM ops run_op d = (d', Ok u) →
  (∀ c, fs_committed c → hm_view (fs_entries d c) = m c) →
  let m' := foldl (λ m op, apply_op op m) m ops in
  fs_inv d' ∧
  (∀ k c o, proper_key k → fs_committed c → get_key d' k c = Ok o → o = m' c !! segments k) ∧
  (∀ p c r, fs_committed c → get_prefix d' p c = Ok r →
     hm_view r = filter (λ e, str_starts_with (encoded e.1) p = true) (m' c)).
Proof.
  intros Hd Hops Hr Hm m'. destruct (run_ops_view _ _ _ _ _ Hd Hops Hr Hm) as [Hd' Hm'].
  split_and!; [done|..].
  - intros k c o Hk Hc Hg. apply (ds_get_key (D := FilesystemDataStore)) in Hg; [|done..].
    by rewrite Hg, hm_get_view, <- Hm' by done.
  - intros p c r Hc Hg. apply get_prefix_entries in Hg as ->; [|done..]. unfold m'. rewrite <- Hm' by done.
    destruct Hd' as [base Hinv]. apply map_eq. intros segs. apply option_eq. intros v.
    unfold hm_view. rewrite map_lookup_filter_Some, !lookup_fmap_Some. cbn.
    setoid_rewrite map_lookup_filter_Some. cbn.
    assert (∀ k v, fs_entries d' c !! segs = Some (k, v) → name k = encoded segs) as Hn.
    { intros k w (k0 & _ & -> & -> & _)%(fs_entries_lookup base); done. }
    split.
    + intros ([k w] & <- & He & Hp). cbn in Hp. rewrite (Hn _ _ He) in Hp. split; [by exists (k, w)|done].
    + intros ([[k w] [<- He]] & Hp). exists (k, w). split; [done|]. split; [done|].
      cbn. by rewrite (Hn _ _ He).
Qed.

(** *** Paths and keys *)

Lemma key_new_plain m :
  str_forallb ENCODE_CHARACTERS m = true → m ≠ EmptyString → str_len m ≤ MAX_KEY_NAME_LENGTH →
  key_new Meta m = Ok (mk_key m [m]).
Proof.
  intros Hm Hne Hlen. assert (plain m) as Hp.
  { unfold plain. clear Hne Hlen. induction m as [|a m IH]; [done|]. cbn in *.
    apply andb_true_iff in Hm as [Ha Hm]. rewrite (IH Hm), andb_true_r. revert Ha.
    by destruct a as [[] [] [] [] [] [] [] []]; vm_compute. }
  unfold key_new, parse_name_segments. rewrite parse_loop_plain by done. destruct m as [|a m]; [done|].
  cbn -[check_key]. unfold check_key. rewrite (proj2 (Nat.leb_le _ _)) by done. done.
Qed.

(** A name with a percent sign is not the name of a key. *)
Lemma parse_loop_invalid n s segs seg q :
  str_existsb (λ c, bool_decide (c = PERCENT)) s = true → is_ok (parse_loop n s segs seg q) = false.
Proof.
  revert segs seg q. induction s as [|a s IH]; intros segs seg q; cbn; [done|].
  intros [->%bool_decide_eq_true|Hs]%orb_prop; [reflexivity|].
  case_decide; [by apply IH|]. case_decide.
  - destruct q; [by apply IH|]. destruct (str_is_empty seg); [done|by apply IH].
  - by destruct (valid_character a); [apply IH|].
Qed.

(** Paths and keys.  The path of a data key, read back relative to the base,
    is that key.  The path of a metadata key reads back as the data key with the
    metadata key when the metadata's name is made of the characters that paths
    keep; any other name is written percent-encoded and its path does not read
    back as a key at all, because the listing does not decode it. *)
Lemma key_path_roundtrip `{HashOrder} `{PercentEncoding} base self mk m k c :
  based base self → fs_committed c → proper_key k → segments mk = [m] → m ≠ EmptyString →
  str_len m ≤ MAX_KEY_NAME_LENGTH →
  let n := length (components (base_path self c)) in
  (∃ path, data_path self k c = Ok path ∧
     from_path (drop n (components path)) = Ok (mk_key_path (canonical k) None)) ∧
  ∃ path, metadata_path self mk k c = Ok path ∧
    if str_forallb ENCODE_CHARACTERS m
    then from_path (drop n (components path)) = Ok (mk_key_path (canonical k) (Some (mk_key m [m])))
    else is_ok (from_path (drop n (components path))) = false.
Proof.
  intros Hb Hc Hk Hm Hne Hlen n. unfold n. rewrite (base_path_components base) by done. split.
  - destruct (data_path_spec base self k c) as (path & Hp & Hcp & _); [done..|].
    exists path. rewrite Hcp, drop_app_length. split; [done|by apply from_path_data].
  - destruct (metadata_path_spec base self mk m [] k c) as (path & Hp & Hcp); [done..|].
    exists path. rewrite Hcp, drop_app_length, from_path_meta by done. split; [done|].
    unfold encode_path_component. destruct (str_forallb ENCODE_CHARACTERS m) eqn:E.
    + rewrite encode_kept by done. by rewrite key_new_plain.
    + apply encode_escaped in E. pose proof (parse_loop_invalid
        (utf8_percent_encode ENCODE_CHARACTERS m) _ [] EmptyString false E) as Hi.
      unfold key_new, parse_name_segments. destruct (str_is_empty _); [done|]. cbn.
      by destruct (parse_loop _ _ _ _ _).
Qed.

(** *** Keys below keys *)

Section nested.
Context `{HashOrder} `{PercentEncoding}.

Lemma missing_below_file (d : disk) p q s :
  d !! p = Some (File s) → below p q → missing d q = NotADirectory.
Proof.
  intros Hp Hb. unfold missing. rewrite (proj2 (existsb_exists _ _)); [done|].
  apply below_take in Hb as (i & Hi & ->). exists i. rewrite in_seq, Hp. split; [lia|done].
Qed.

Lemma tree_below_file d p q s : tree d → d !! p = Some (File s) → below p q → d !! q = None.
Proof.
  intros Ht Hp Hb. destruct (d !! q) eqn:E; [|done].
  rewrite (tree_below _ _ _ _ Ht E Hb) in Hp. done.
Qed.

Lemma key_rel_below base c k1 k2 s l :
  segments k2 = segments k1 ++ s :: l →
  below (base_of base c ++ key_rel k1) (base_of base c ++ key_rel k2).
Proof.
  intros E. unfold key_rel. rewrite E, fmap_app, fmap_cons, app_assoc. by eexists _, _.
Qed.

Lemma get_key_file base self k c v :
  fs_inv_at base self → fs_committed c → proper_key k → get_key self k c = Ok (Some v) →
  fs_disk self !! (base_of base c ++ key_rel k) = Some (File v).
Proof.
  intros Hinv Hc Hk Hg. apply (fs_get_key_entry base) in Hg; [|done..].
  rewrite (hm_view_entries base) in Hg by done. destruct (fs_disk self !! _) as [[]|]; congruence.
Qed.

Lemma with_same_disk self : with_disk (fs_disk self) self = self.
Proof. by destruct self. Qed.

(** A path that cannot be read, or removed, is an error of the operation. *)
Lemma fs_get_key_error base self k c e :
  fs_inv_at base self → fs_committed c → proper_key k → e ≠ NotFound →
  fs_read (fs_disk self) (base_of base c ++ key_rel k) = Err e →
  get_key self k c = Err (KeyRead (name k) e).
Proof.
  intros Hinv Hc Hk He Hr. destruct (data_path_spec base self k c) as (p & Hp & Hcp & _);
    [by destruct Hinv|done..|].
  cbn. unfold fs_get_key. rewrite Hp. cbn. unfold read_file_for_key.
  by rewrite Hcp, Hr, decide_False.
Qed.

Lemma fs_unset_key_error base self k c e :
  fs_inv_at base self → fs_committed c → proper_key k → e ≠ NotFound →
  fs_remove_file (base_of base c ++ key_rel k) (fs_disk self) = (fs_disk self, Err e) →
  unset_key k c self = (self, Err (DeleteKey (base_of base c ++ key_rel k) e)).
Proof.
  intros Hinv Hc Hk He Hr. destruct (data_path_spec base self k c) as (p & Hp & Hcp & _);
    [by destruct Hinv|done..|].
  cbn. unfold fs_unset_key, st_bind, st_read. rewrite Hp. unfold delete_key_path.
  by rewrite Hcp, Hr, decide_False, with_same_disk.
Qed.
End nested.

(** C32. A key cannot be populated together with a key below it (the in-memory
    store allows it).  While [a] is populated, reading, writing and unsetting any
    [a.b] are errors that change nothing, though the comments promise that a key
    that does not exist reads as nothing and is unset without an error; and while
    some [a.b] is populated, [a] is neither read, written nor unset, and counts as
    populated. *)
Theorem nested_keys_conflict `{HashOrder} `{PercentEncoding} self k1 k2 s l c v w :
  fs_inv self → fs_committed c → proper_key k1 → proper_key k2 → segments k2 = segments k1 ++ s :: l →
  (get_key self k1 c = Ok (Some v) →
     get_key self k2 c = Err (KeyRead (name k2) NotADirectory) ∧
     (∃ e, set_key k2 w c self = (self, Err e)) ∧
     (∃ p, unset_key k2 c self = (self, Err (DeleteKey p NotADirectory)))) ∧
  (get_key self k2 c = Ok (Some v) →
     get_key self k1 c = Err (KeyRead (name k1) IsADirectory) ∧
     (∃ p, set_key k1 w c self = (self, Err (Io p IsADirectory))) ∧
     (∃ p, unset_key k1 c self = (self, Err (DeleteKey p IsADirectory))) ∧
     key_populated self k1 c = Ok true).
Proof.
  intros [base Hinv] Hc Hk1 Hk2 Hs. pose proof (key_rel_below base c k1 k2 s l Hs) as Hb.
  pose proof (inv_tree _ _ Hinv) as Ht.
  split; intros Hg; (apply (get_key_file base) in Hg; [|done..]).
  - pose proof (tree_below_file _ _ _ _ Ht Hg Hb) as Hn.
    pose proof (missing_below_file _ _ _ _ Hg Hb) as Hm. split_and!.
    + apply (fs_get_key_error base); [done..|]. unfold fs_read. by rewrite Hn, Hm.
    + destruct (fs_set_key_spec base self k2 w c) as (d' & Hset & Hr); [done..|].
      destruct (write_result _ _) as [u|e] eqn:E.
      * destruct Hr as [[Hr _] _]. specialize (Hr _ Hb). by rewrite Hg in Hr.
      * exists e. etransitivity; [exact Hset|]. by rewrite Hr, with_same_disk.
    + eexists. apply (fs_unset_key_error base); [done..|]. unfold fs_remove_file. by rewrite Hn, Hm.
  - pose proof (tree_below _ _ _ _ Ht Hg Hb) as Hd. split_and!.
    + apply (fs_get_key_error base); [done..|]. unfold fs_read. by rewrite Hd.
    + destruct (fs_set_key_spec base self k1 w c) as (d' & Hset & Hr); [done..|].
      unfold write_result in *. rewrite decide_True in * by done. eexists.
      etransitivity; [exact Hset|]. by rewrite Hr, with_same_disk.
    + eexists. apply (fs_unset_key_error base); [done..|]. unfold fs_remove_file. by rewrite Hd.
    + destruct (data_path_spec base self k1 c) as (p & Hp & Hcp & _); [by destruct Hinv|done..|].
      cbn. unfold fs_key_populated. rewrite Hp. cbn. unfold fs_exists. by rewrite Hcp, Hd.
Qed.

(** *** Setting and unsetting a key *)

(** Every directory below the base has something in it. *)
Definition no_empty_dirs (base : list string) (d : disk) : Prop :=
  ∀ q, below base q → d !! q = Some Dir → ∃ r, below q r ∧ is_Some (d !! r).

Section restore.
Context `{HashOrder} `{PercentEncoding}.

Lemma ancestors_snoc (p : list string) (x : string) : ancestors (p ++ [x]) = (p ++ [x]) :: ancestors p.
Proof.
  unfold ancestors. rewrite length_app. cbn [length]. rewrite Nat.add_1_r, seq_S, reverse_app, fmap_app.
  cbn [plus]. rewrite reverse_singleton. cbn [fmap list_fmap app].
  f_equal; [by rewrite firstn_all2 by (rewrite length_app; cbn; lia)|].
  apply list_fmap_ext. intros i n Hn. apply list_elem_of_lookup_2 in Hn.
  rewrite elem_of_reverse, elem_of_seq in Hn. apply take_app_le. lia.
Qed.

Lemma make_dirs_snoc (p : list string) (x : string) (d : disk) :
  tree d → d !! (p ++ [x]) = None → make_dirs (p ++ [x]) d = <[p ++ [x] := Dir]> (make_dirs p d).
Proof.
  intros Ht Hn. apply map_eq. intros q. destruct (decide (q = p ++ [x])) as [->|Hne].
  - rewrite lookup_insert_eq, make_dirs_lookup, Hn, decide_True by by left. done.
  - rewrite lookup_insert_ne, !make_dirs_lookup by done. destruct (d !! q); [done|].
    apply decide_ext. rewrite below_snoc. naive_solver.
Qed.

Lemma make_dirs_id (p : list string) (d : disk) : tree d → is_Some (d !! p) → make_dirs p d = d.
Proof.
  intros Ht [n Hp]. apply map_eq. intros q. rewrite make_dirs_lookup.
  destruct (d !! q) eqn:E; [done|]. rewrite decide_False; [done|]. intros [->|Hb]; [congruence|].
  by rewrite (tree_below _ _ _ _ Ht Hp Hb) in E.
Qed.

(** Removing empty directories up to the base undoes [make_dirs]. *)
Lemma remove_empty_make_dirs (base p : list string) (d : disk) :
  tree d → d !! base = Some Dir → no_empty_dirs base d → p = base ∨ below base p →
  (∀ q, q = p ∨ below q p → is_file (d !! q) = false) →
  remove_empty base (ancestors p) (make_dirs p d) = d.
Proof.
  intros Ht Hb Hne. induction p as [|x p IH] using rev_ind; intros Hp Hf.
  - destruct Hp as [<-|(y & r & E)]; [|by destruct base]. by rewrite make_dirs_id.
  - rewrite ancestors_snoc. cbn [remove_empty]. case_decide as E; [subst; by rewrite make_dirs_id|].
    destruct Hp as [Hp|Hp]; [by rewrite Hp in E|].
    destruct (d !! (p ++ [x])) as [[|s]|] eqn:Ed; [| |].
    + rewrite make_dirs_id by done. unfold fs_remove_dir. rewrite Ed.
      destruct (Hne _ Hp Ed) as (r & Hr & [n Hn]). rewrite decide_True; [done|]. by exists r, n.
    + specialize (Hf (p ++ [x]) ltac:(by left)). by rewrite Ed in Hf.
    + rewrite make_dirs_snoc by done. unfold fs_remove_dir. rewrite lookup_insert_eq, decide_False.
      * rewrite delete_insert_id.
        -- apply IH; [by apply below_snoc in Hp as [<-|?]; [left|right]|].
           intros q Hq. apply Hf. right. by apply below_snoc.
        -- rewrite make_dirs_lookup, Ed, decide_False; [done|]. intros [Eq|Hq].
           ++ apply (f_equal length) in Eq. rewrite length_app in Eq. cbn in Eq. lia.
           ++ by apply below_app, not_below_self in Hq.
      * intros (r & n & Hn & Hr). rewrite lookup_insert_ne in Hn by (intros <-; by apply not_below_self in Hr).
        rewrite make_dirs_lookup in Hn. destruct (d !! r) eqn:Er.
        -- by rewrite (tree_below _ _ _ _ Ht Er Hr) in Ed.
        -- case_decide as Hd; [|done]. destruct Hr as (y & l & ->).
           destruct Hd as [Eq|Hq]; [apply (f_equal length) in Eq; rewrite !length_app in Eq; cbn in Eq; lia|].
           rewrite <- app_assoc in Hq. by apply below_app, not_below_self in Hq.
Qed.
End restore.

Section set_unset.
Context `{HashOrder} `{PercentEncoding}.

Lemma wrote_delete (p : list string) (x v : string) (d d' : disk) :
  d !! (p ++ [x]) = None → wrote (p ++ [x]) v d d' → delete (p ++ [x]) d' = make_dirs p d.
Proof.
  intros Hn Hw. apply map_eq. intros q. rewrite make_dirs_lookup.
  destruct (decide (q = p ++ [x])) as [->|Hne].
  - rewrite lookup_delete_eq, Hn, decide_False; [done|]. intros [E|E].
    + apply (f_equal length) in E. rewrite length_app in E. cbn in E. lia.
    + by apply below_app, not_below_self in E.
  - rewrite lookup_delete_ne, Hw, decide_False by done. destruct (d !! q); [done|].
    apply decide_ext. by rewrite below_snoc.
Qed.
End set_unset.

(** Setting a key that is not there and unsetting it again leaves the store
    exactly as it was, directories included, when the base directory is there and
    no directory below it is empty: the loop of [delete_key_path] removes the
    directories that the key needed, and only those. *)
Lemma set_then_unset `{HashOrder} `{PercentEncoding} self k v c self1 u :
  fs_inv self → fs_committed c → proper_key k →
  fs_disk self !! components (base_path self c) = Some Dir →
  no_empty_dirs (components (base_path self c)) (fs_disk self) →
  key_populated self k c = Ok false → set_key k v c self = (self1, Ok u) →
  unset_key k c self1 = (self, Ok tt).
Proof.
  intros [base Hinv] Hc Hk Hb Hne Hn Hs. pose proof (inv_based _ _ Hinv) as Hbase.
  rewrite (base_path_components base) in Hb, Hne by done.
  destruct (data_path_spec base self k c) as (path & Hp & Hcp & _); [done..|].
  change (fs_key_populated self k c = Ok false) in Hn. unfold fs_key_populated in Hn. rewrite Hp in Hn.
  cbn in Hn. injection Hn as Hn. unfold fs_exists in Hn. apply bool_decide_eq_false, eq_None_not_Some in Hn.
  destruct (fs_set_key_Ok base self self1 k v c u) as (d' & -> & [Hcan _] & Hw & _); [done..|].
  destruct (rel_snoc k Hk) as (pre & l & E & _). rewrite E, app_assoc in *. rewrite Hcp in Hn.
  change (fs_unset_key k c (with_disk d' self) = (self, Ok tt)). unfold fs_unset_key, st_bind, st_read.
  change (data_path (with_disk d' self) k c) with (data_path self k c). rewrite Hp.
  unfold delete_key_path. rewrite Hcp. cbn [fs_disk with_disk]. unfold fs_remove_file.
  rewrite (Hw (_ ++ _)), decide_True, parent_snoc by done.
  rewrite (wrote_delete _ _ v (fs_disk self)) by done.
  change (base_path (with_disk d' self) c) with (base_path self c).
  rewrite (base_path_components base), remove_empty_make_dirs; [| |done|done| | |done|done].
  - f_equal. by destruct self.
  - by destruct Hinv.
  - destruct pre as [|x pre]; [left; apply app_nil_r|right; by eexists _, _].
  - intros q Hq. apply Hcan. by apply below_snoc.
Qed.

(** *** Transactions *)

Section transactions.
Context `{HashOrder} `{PercentEncoding}.

(** No file of a key lies below a path that is not there. *)
Lemma tree_absent (d : disk) p r : tree d → d !! p = None → d !! (p ++ r) = None.
Proof.
  intros Ht Hp. induction r as [|x r IH] using rev_ind; [by rewrite app_nil_r|].
  destruct (d !! (p ++ r ++ [x])) eqn:E; [|done]. rewrite app_assoc in E. apply Ht in E. congruence.
Qed.

(** A transaction none of whose files is on the disk is empty. *)
Lemma no_files_no_entries base s c :
  fs_inv_at base s → fs_committed c →
  (∀ k v, proper_key k → fs_disk s !! (base_of base c ++ key_rel k) ≠ Some (File v)) → fs_entries s c = ∅.
Proof.
  intros Hinv Hc Hf. apply map_eq. intros segs. rewrite lookup_empty. apply eq_None_not_Some. intros [[k v] He].
  apply (fs_entries_lookup base) in He as (k0 & Hk & _ & _ & Hd); [|done..]. by eapply Hf.
Qed.

Lemma remove_dir_all_inv base self p d' u :
  fs_inv_at base self → fs_remove_dir_all p (fs_disk self) = (d', Ok u) →
  fs_inv_at base (with_disk d' self).
Proof.
  intros Hinv Hr. unfold fs_remove_dir_all in Hr.
  destruct (fs_disk self !! p) as [[|s]|] eqn:E; [|done..]. injection Hr as <- _. split; cbn.
  - apply Hinv.
  - intros q x n [Hq Hne]%map_lookup_filter_Some. cbn in Hne. apply map_lookup_filter_Some. cbn.
    split; [by eapply (inv_tree base)|]. intros [->|(y & r & ->)]; apply Hne; right; [by exists x, []|].
    exists y, (r ++ [x]). by rewrite <- app_assoc.
  - intros c rel s Hc [Hd _]%map_lookup_filter_Some. by eapply inv_files.
  - intros x [Hd _]%map_lookup_filter_Some. by eapply inv_transactions.
Qed.

(** Removing the directory of a transaction removes its entries and no others. *)
Lemma remove_pending_entries base self tx d' u :
  fs_inv_at base self → tx ≠ EmptyString →
  fs_remove_dir_all (base_of base (Pending tx)) (fs_disk self) = (d', Ok u) →
  fs_entries (with_disk d' self) (Pending tx) = ∅ ∧
  ∀ c, fs_committed c → c ≠ Pending tx → fs_entries (with_disk d' self) c = fs_entries self c.
Proof.
  intros Hinv Htx Hr. pose proof (remove_dir_all_inv _ _ _ _ _ Hinv Hr) as Hinv'.
  unfold fs_remove_dir_all in Hr. destruct (fs_disk self !! _) as [[|s]|]; [|done..]. injection Hr as <- _.
  split.
  - apply map_eq. intros segs. rewrite lookup_empty. apply eq_None_not_Some. intros [[k v] He].
    apply (fs_entries_lookup base) in He as (k0 & Hk0 & _ & _ & Hd); [|done..]. cbn in Hd.
    apply map_lookup_filter_Some in Hd as [_ Hne]. apply Hne. right.
    destruct (rel_snoc k0 Hk0) as ([|y pre] & l & E & _); rewrite E; by eexists _, _.
  - intros c Hc Hne. apply (fs_entries_ext base); [done..|]. intros k v Hk. cbn.
    rewrite map_lookup_filter_Some. split; [naive_solver|]. intros Hd. split; [done|]. cbn.
    intros [E|(y & r & E)].
    + rewrite <- (app_nil_r (base_of base (Pending tx))) in E. by apply base_of_disjoint in E as [-> _].
    + by apply base_of_disjoint in E as [-> _].
Qed.

Lemma set_metadata_list base l self self' u :
  fs_inv_at base self → Forall (λ e, proper_key e.1.2) l →
  st_forM l (λ '(metadata_key, data_key, value), fs_set_metadata metadata_key data_key value Live) self
    = (self', Ok u) →
  fs_inv self' ∧ ∀ c, fs_committed c → fs_entries self' c = fs_entries self c.
Proof using H H0.
  intros Hinv Hl Hr. assert (fs_inv self) as Hi by by exists base. clear Hinv. revert self Hi Hr.
  induction Hl as [|[[mk k] v] l Hk _ IH]; intros self Hi Hr; cbn in Hr.
  { by injection Hr as <- _. }
  apply st_bind_Ok in Hr as (d1 & [] & Hr1 & Hr).
  change (set_metadata mk k v Live self = (d1, Ok ())) in Hr1.
  apply (ds_set_metadata (D := FilesystemDataStore)) in Hr1 as [Hi1 Ho1]; [|done..].
  destruct (IH d1 Hi1 Hr) as [Hi' Ho]. split; [done|]. intros c Hc. rewrite Ho by done. by apply Ho1.
Qed.
End transactions.

Lemma fs_commit_spec `{HashOrder} `{PercentEncoding} {BE} tx
    (check : Committed → stres FilesystemDataStore BE ConstraintCheckResult) d d1 r txs :
  fs_inv d → list_transactions d = Ok txs → check (Pending tx) d = (d1, r) → fs_inv d1 →
  if decide (tx ∈ txs) then
    match r with
    | Err _ => commit_transaction tx check d = (d1, Err CheckConstraintExecution)
    | Ok (Reject why) => commit_transaction tx check d = (d1, Err (ConstraintCheckReject why))
    | Ok (Approve aw) =>
        hm_wf (aw_settings aw) → (∀ segs k v, aw_settings aw !! segs = Some (k, v) → proper_key k) →
        Forall (λ e, proper_key e.1.2) (aw_metadata aw) →
        ∀ d' keys, commit_transaction tx check d = (d', Ok keys) →
          keys = fst <$> aw_settings aw ∧ fs_inv d' ∧
          hm_view (fs_entries d' Live) = hm_view (aw_settings aw) ∪ hm_view (fs_entries d1 Live) ∧
          fs_entries d' (Pending tx) = ∅ ∧
          ∀ tx', tx' ≠ EmptyString → tx' ≠ tx →
            fs_entries d' (Pending tx') = fs_entries d1 (Pending tx')
    end
  else commit_transaction tx check d = (d, Ok ∅).
Proof.
  intros Hd Ht Hc [base Hd1].
  change (commit_transaction tx check d) with (fs_commit_transaction tx check d).
  unfold fs_commit_transaction, st_bind, st_read, st_map_err. change (fs_list_transactions d = Ok txs) in Ht.
  rewrite Ht. destruct (decide (tx ∈ txs)) as [Hin|Hin];
    [rewrite bool_decide_true by done|by rewrite bool_decide_false].
  cbn [negb]. rewrite Hc. destruct r as [[why|aw]|e]; [done| |done]. cbn [map_err].
  intros Hwf Hkeys Hmeta d' keys. cbn [st_lift approved_write_try_from].
  assert (tx ≠ EmptyString) as Htx by (destruct Hd as [b Hd]; exact (fs_list_transactions_named _ _ _ _ Hd Ht Hin)).
  destruct (st_forM (aw_metadata aw) _ d1) as [d2 [[]|]] eqn:Em; [|done].
  destruct (set_metadata_list base _ _ _ _ Hd1 Hmeta Em) as [Hd2 Ho2].
  set (m := if decide _ then _ else _). destruct (m d2) as [d3 [ks|]] eqn:Es; [|done].
  assert (fs_inv d3 ∧ ks = fst <$> aw_settings aw ∧
    hm_view (fs_entries d3 Live) = hm_view (aw_settings aw) ∪ hm_view (fs_entries d1 Live) ∧
    ∀ c, fs_committed c → c ≠ Live → fs_entries d3 c = fs_entries d1 c) as ([base' Hd3] & -> & Hv3 & Ho3).
  { unfold m in Es. case_decide as Ee.
    - injection Es as <- <-. rewrite Ee, fmap_empty. split_and!; [done..| |].
      + rewrite Ho2 by done. unfold hm_view. by rewrite fmap_empty, (left_id_L ∅ (∪)).
      + intros c Hcc _. by apply Ho2.
    - destruct (fs_set_keys (aw_settings aw) Live d2) as [d3' [[]|]] eqn:Eset; [|done].
      injection Es as <- <-. change (set_keys (aw_settings aw) Live d2 = (d3', Ok ())) in Eset.
      apply (set_keys_view (D := FilesystemDataStore)) in Eset as (Hi & Hv & Ho); [|done..].
      split_and!; [done|by apply hs_collect_keys| |].
      + rewrite <- (Ho2 Live) by done. exact Hv.
      + intros c Hcc Hne. rewrite <- Ho2 by done. by apply Ho. }
  unfold on_disk. rewrite (base_path_components base') by (done || by destruct Hd3).
  destruct (fs_remove_dir_all _ _) as [d4 [[]|]] eqn:Er; [|done]. cbn [map_err]. intros [= <- <-].
  destruct (remove_pending_entries _ _ _ _ _ Hd3 Htx Er) as [He Ho]. split_and!; [done|..|done|].
  - exists base'. by eapply remove_dir_all_inv.
  - rewrite Ho by done. exact Hv3.
  - intros tx' Htx' Hne. rewrite Ho, Ho3; [done..|congruence].
Qed.

(** A transaction without a directory has no entries. *)
Lemma unlisted_empty `{HashOrder} `{PercentEncoding} d txs tx :
  fs_inv d → list_transactions d = Ok txs → tx ∉ txs → tx ≠ EmptyString → fs_entries d (Pending tx) = ∅.
Proof.
  intros [base Hinv] Hl Hin Hne. apply (no_files_no_entries base); [done..|]. intros k v Hk Hf.
  assert (fs_disk d !! ((base ++ ["pending"]) ++ [encode_path_component tx]) = Some Dir) as Hdir.
  { destruct (rel_snoc k Hk) as (pre & l & E & _). rewrite E in Hf. unfold base_of in Hf.
    assert (base ++ ["pending"; encode_path_component tx] = (base ++ ["pending"]) ++ [encode_path_component tx]) as Ep
      by by rewrite <- app_assoc.
    rewrite Ep in Hf. eapply tree_below; [apply Hinv|exact Hf|].
    destruct pre as [|y pre]; [by exists l, []|by exists y, (pre ++ [l])]. }
  unfold list_transactions in Hl. cbn in Hl. unfold fs_list_transactions in Hl.
  rewrite (pending_components base) in Hl by apply Hinv.
  destruct (list_transactions_loop_all _ _ _ ((base ++ ["pending"]) ++ [encode_path_component tx]) Hl)
    as (_ & tx' & Hd & Htx).
  - apply list_elem_of_filter. cbn. rewrite !length_app. cbn. split; [lia|].
    apply elem_of_walk. split; [done|]. by eexists.
  - rewrite last_snoc in Hd. cbn in Hd. unfold encode_path_component in Hd.
    rewrite (decode_encode _ _ encode_not_percent) in Hd. by injection Hd as <-.
Qed.

#[global] Program Instance filesystem_data_store_tx `{HashOrder} `{PercentEncoding} :
  DataStoreTx FilesystemDataStore.
Next Obligation.
  intros ? ? BE tx check d d' keys r Hd Hc Hr Hcommit.
  destruct (list_transactions d) as [txs|e] eqn:Ht; cycle 1.
  { change (fs_commit_transaction tx check d = (d', Ok keys)) in Hcommit. change (fs_list_transactions d = Err e) in Ht.
    unfold fs_commit_transaction, st_bind, st_read in Hcommit. by rewrite Ht in Hcommit. }
  pose proof (fs_commit_spec tx check d d r txs Hd Ht Hr Hd) as Hs. case_decide as Hin; cycle 1.
  { left. rewrite Hs in Hcommit. injection Hcommit as <- <-. split_and!; [done..|]. by eapply unlisted_empty. }
  right. destruct r as [[why|aw]|e]; [congruence| |congruence]. exists aw. split; [done|].
  intros Hwf Hkeys Hmeta. destruct (Hs Hwf Hkeys Hmeta d' keys Hcommit) as (-> & Hd' & Hl & He & Ho).
  split_and!; [done..|]. intros [|tx'] Hc' Hne Hne'; [done|]. apply Ho; [done|congruence].
Qed.
Next Obligation.
  intros ? ? tx d d' keys [base Hd] Hc Hr. change (fs_delete_transaction tx d = (d', Ok keys)) in Hr.
  unfold fs_delete_transaction in Hr. apply st_bind_Ok in Hr as (d1 & pd & [= <- _] & Hr).
  apply st_bind_Ok in Hr as (d1 & path & [= <- <-] & Hr).
  change (path_join _ _) with (base_path d (Pending tx)) in Hr.
  rewrite (base_path_components base) in Hr by (done || apply Hd).
  destruct (fs_remove_dir_all _ _) as [d2 [[]|e]] eqn:Er.
  - injection Hr as <- _. destruct (remove_pending_entries _ _ _ _ _ Hd Hc Er) as [He Ho].
    split_and!; [|done|done]. exists base. by eapply remove_dir_all_inv.
  - case_decide as Ee; [|done]. injection Hr as <- _. subst e. unfold fs_remove_dir_all in Er.
    destruct (fs_disk d !! _) as [[|]|] eqn:E; try done. injection Er as <- _.
    assert (with_disk (fs_disk d) d = d) as -> by by destruct d.
    split_and!; [by exists base| |done]. apply (no_files_no_entries base); [done..|].
    intros k v _. rewrite tree_absent; [done|apply Hd|done].
Qed.

#[global] Instance filesystem_data_store_guard `{HashOrder} `{PercentEncoding} : DataStoreGuard FilesystemDataStore.
Proof.
  intros BE tx check d txs r Ht Hin Hc Hr. change (∃ e, fs_commit_transaction tx check d = (d, Err e)).
  change (fs_list_transactions d = Ok txs) in Ht.
  unfold fs_commit_transaction, st_bind, st_read, st_map_err. rewrite Ht, bool_decide_true by done.
  cbn [negb]. rewrite Hc. destruct r as [[why|aw]|e]; [by eexists|by destruct (Hr aw)|by eexists].
Qed.

(** C31. The outcome of [FilesystemDataStore::commit_transaction].  A transaction
    that has no directory is committed without a check and changes nothing; a
    rejection and a failed check are errors that change nothing more; and when an
    approved write is committed without an I/O error, the approved settings are
    live over the old live data, the transaction is empty, every other transaction
    is as it was, and exactly the approved keys are reported. *)
Theorem fs_commit_outcome `{HashOrder} `{PercentEncoding} {BE} tx
    (check : Committed → stres FilesystemDataStore BE ConstraintCheckResult) d d1 r txs :
  fs_inv d → list_transactions d = Ok txs → check (Pending tx) d = (d1, r) → fs_inv d1 →
  if decide (tx ∈ txs) then
    match r with
    | Err _ => commit_transaction tx check d = (d1, Err CheckConstraintExecution)
    | Ok (Reject why) => commit_transaction tx check d = (d1, Err (ConstraintCheckReject why))
    | Ok (Approve aw) =>
        hm_wf (aw_settings aw) → (∀ segs k v, aw_settings aw !! segs = Some (k, v) → proper_key k) →
        Forall (λ e, proper_key e.1.2) (aw_metadata aw) →
        ∀ d' keys, commit_transaction tx check d = (d', Ok keys) →
          keys = fst <$> aw_settings aw ∧ fs_inv d' ∧
          hm_view (fs_entries d' Live) = hm_view (aw_settings aw) ∪ hm_view (fs_entries d1 Live) ∧
          fs_entries d' (Pending tx) = ∅ ∧
          ∀ tx', tx' ≠ EmptyString → tx' ≠ tx →
            fs_entries d' (Pending tx') = fs_entries d1 (Pending tx')
    end
  else commit_transaction tx check d = (d, Ok ∅).
Proof. apply fs_commit_spec. Qed.

(** ** A concrete encoding, and the properties at work on it *)

Definition hex_digit (n : nat) : ascii := ascii_of_nat (if (n <? 10)%nat then 48 + n else 55 + n).
Definition hex_value (c : ascii) : nat :=
  let n := nat_of_ascii c in if (n <? 65)%nat then n - 48 else n - 55.

Fixpoint example_encode (keep : ascii → bool) (s : string) : string :=
  match s with
  | EmptyString => EmptyString
  | String c s =>
      let n := nat_of_ascii c in
      if keep c then String c (example_encode keep s)
      else String PERCENT (String (hex_digit (n / 16)) (String (hex_digit (n mod 16))
             (example_encode keep s)))
  end.

Fixpoint example_decode (s : string) : string :=
  match s with
  | String a ((String x (String y r)) as t) =>
      if decide (a = PERCENT) then String (ascii_of_nat (16 * hex_value x + hex_value y)) (example_decode r)
      else String a (example_decode t)
  | String a t => String a (example_decode t)
  | EmptyString => EmptyString
  end.

(** Every byte is written in two digits and read back. *)
Lemma hex_roundtrip c :
  let n := nat_of_ascii c in
  is_hex (hex_digit (n / 16)) = true ∧ is_hex (hex_digit (n mod 16)) = true ∧
  ascii_of_nat (16 * hex_value (hex_digit (n / 16)) + hex_value (hex_digit (n mod 16))) = c.
Proof. destruct c as [[] [] [] [] [] [] [] []]; vm_compute; repeat split. Qed.

Lemma example_decode_kept a t : a ≠ PERCENT → example_decode (String a t) = String a (example_decode t).
Proof. intros Ha. destruct t as [|x [|y t]]; [done..|]. cbn [example_decode]. by rewrite decide_False. Qed.

#[local] Program Instance example_percent : PercentEncoding := {|
  utf8_percent_encode := example_encode;
  percent_decode_str s := Some (example_decode s) |}.
Next Obligation.
  intros keep s. induction s as [|c s IH]; [done|]. cbn [example_encode].
  destruct (keep c) eqn:E; cbn [str_forallb].
  - by rewrite E, IH.
  - destruct (hex_roundtrip c) as (H1 & H2 & _). rewrite H1, H2, IH.
    rewrite (bool_decide_true (PERCENT = PERCENT)) by done. by rewrite !orb_true_r.
Qed.
Next Obligation.
  intros keep s. induction s as [|c s IH]; [done|]. cbn.
  intros [-> ->%IH]%andb_true_iff. done.
Qed.
Next Obligation.
  intros keep s. induction s as [|c s IH]; [done|]. cbn [example_encode str_forallb].
  destruct (keep c); cbn [str_existsb andb]; [|by rewrite bool_decide_true].
  intros Hs. by rewrite (IH Hs), orb_true_r.
Qed.
Next Obligation.
  intros keep s Hp. assert (example_decode (example_encode keep s) = s) as Hs; [|by rewrite <- Hs at 2].
  induction s as [|c s IH]; [done|]. cbn [example_encode].
  destruct (keep c) eqn:E.
  - rewrite example_decode_kept, IH; [done|]. intros ->. congruence.
  - cbn [example_decode]. rewrite decide_True, IH by done. by destruct (hex_roundtrip c) as (_ & _ & ->).
Qed.

#[local] Existing Instance example_order.

(** The disk of a store that was just made. *)
Definition new_disk (b : string) : disk :=
  make_dirs (components b ++ ["pending"]) (make_dirs (components b ++ ["live"]) ∅).

Lemma new_disk_lookup b q n :
  new_disk b !! q = Some n ↔
  n = Dir ∧ ∃ x, (x = "live" ∨ x = "pending") ∧ (q = components b ++ [x] ∨ below q (components b ++ [x])).
Proof.
  unfold new_disk. rewrite !make_dirs_lookup, lookup_empty. split.
  - destruct (decide (q = components b ++ ["live"] ∨ _)) as [Hl|_].
    + intros [= <-]. split; [done|]. exists "live". split; [by left|done].
    + case_decide as Hp; [|done]. intros [= <-]. split; [done|]. exists "pending". split; [by right|done].
  - intros (-> & x & [-> | ->] & Hq); [by rewrite decide_True|].
    case_decide; [done|]. by rewrite decide_True.
Qed.

Lemma new_store_inv b : fs_inv (filesystem_new b (new_disk b)).
Proof.
  exists (components b). split.
  - by exists b.
  - intros p x n (-> & y & Hy & Hq)%new_disk_lookup. apply new_disk_lookup. split; [done|].
    exists y. split; [done|]. right. destruct Hq as [E|Hq].
    + rewrite <- E. by exists x, [].
    + destruct Hq as (z & r & ->). exists x, (z :: r). by rewrite <- app_assoc.
  - by intros c rel s _ (? & _)%new_disk_lookup.
  - intros x (_ & y & _ & Hq)%new_disk_lookup. exfalso.
    assert (length (components b ++ ["pending"; x]) ≤ length (components b ++ [y])) as Hlen.
    { destruct Hq as [-> |(z & r & ->)]; [done|]. rewrite !length_app. cbn. lia. }
    rewrite !length_app in Hlen. cbn in Hlen. lia.
Qed.

Definition example_fs : FilesystemDataStore := filesystem_new "/data" (new_disk "/data").
Definition example_motd : Key := mk_key "settings.motd" ["settings"; "motd"].
Definition example_ntp : Key := mk_key "settings.ntp.servers" ["settings"; "ntp"; "servers"].

Lemma example_motd_key : proper_key example_motd.
Proof. split; [by apply (key_new_wf Data "settings.motd")|repeat constructor; done]. Qed.

Lemma example_ntp_key : proper_key example_ntp.
Proof. split; [by apply (key_new_wf Data "settings.ntp.servers")|repeat constructor; done]. Qed.

Definition example_ops : list store_op :=
  [SetKey example_motd "hi" (Pending "a b"); SetKey example_ntp "[]" (Pending "a b");
   SetMetadata (mk_key "setting-generator" ["setting-generator"]) example_ntp "x" Live;
   SetKey example_motd "hello" Live; UnsetKey example_ntp (Pending "a b")].

Lemma example_ops_ok : Forall op_ok example_ops.
Proof.
  repeat apply Forall_cons_2; try apply Forall_nil_2;
    (split; [apply example_motd_key || apply example_ntp_key|vm_compute; congruence || exact I]).
Qed.

Definition example_after : FilesystemDataStore := (st_forM example_ops run_op example_fs).1.

Lemma example_ops_run : st_forM example_ops run_op example_fs = (example_after, Ok ()).
Proof. vm_cast_no_check (eq_refl (example_after, @Ok error () ())). Qed.

Lemma fs_refines_map_witness :
  fs_inv example_after ∧
  fs_disk example_after !! ["data"; "pending"; "a%20b"; "settings"; "motd"] = Some (File "hi") ∧
  ∀ o, get_key example_after example_motd Live = Ok o → o = Some "hello".
Proof.
  destruct (fs_refines_map example_ops example_fs example_after ()
    (λ c, hm_view (fs_entries example_fs c)) (new_store_inv _) example_ops_ok example_ops_run
    (λ c _, eq_refl)) as (Hinv & Hget & Hpre).
  split_and!; [exact Hinv|vm_compute; reflexivity|].
  intros o Ho. rewrite (Hget example_motd Live o example_motd_key I Ho). vm_compute. reflexivity.
Defined.

Lemma key_path_roundtrip_witness :
  let m := mk_key "a.b" ["a.b"] in
  let c := Pending "tx" in
  (∃ path, data_path example_fs example_motd c = Ok path ∧
     from_path (drop 3 (components path)) = Ok (mk_key_path example_motd None)) ∧
  ∃ path, metadata_path example_fs m example_motd c = Ok path ∧
    path = "/data/pending/tx/settings/motd.a%2Eb" ∧ is_ok (from_path (drop 3 (components path))) = false.
Proof.
  intros m c. destruct (key_path_roundtrip ["data"] example_fs m "a.b" example_motd c)
    as [(p1 & H1 & H2) (p2 & H3 & H4)].
  - exists "/data". repeat split.
  - discriminate.
  - apply example_motd_key.
  - reflexivity.
  - discriminate.
  - apply Nat.leb_le. reflexivity.
  - split; [exists p1; split; [exact H1|exact H2]|]. exists p2. split; [exact H3|]. split; [|exact H4].
    vm_compute in H3. injection H3 as <-. reflexivity.
Defined.

Lemma example_after_inv : fs_inv example_after.
Proof.
  eapply (run_ops_view example_ops example_fs example_after);
    [apply new_store_inv|apply example_ops_ok|apply example_ops_run|done].
Qed.

(** A setting cannot be below the message of the day. *)
Lemma nested_keys_conflict_witness :
  let k := mk_key "settings.motd.x" ["settings"; "motd"; "x"] in
  get_key example_after example_motd Live = Ok (Some "hello") ∧
  get_key example_after k Live = Err (KeyRead "settings.motd.x" NotADirectory) ∧
  (∃ e, set_key k "v" Live example_after = (example_after, Err e)) ∧
  (∃ p, unset_key k Live example_after = (example_after, Err (DeleteKey p NotADirectory))).
Proof.
  intros k. assert (get_key example_after example_motd Live = Ok (Some "hello")) as Hg
    by (vm_cast_no_check (@eq_refl (result error (option string)) (Ok (Some "hello")))).
  assert (proper_key k) as Hk by (split;
    [apply (key_new_wf Data "settings.motd.x"); reflexivity|repeat constructor; discriminate]).
  destruct (nested_keys_conflict example_after example_motd k "x" [] Live "hello" "v"
    example_after_inv I example_motd_key Hk eq_refl) as [Hc _].
  split; [exact Hg|exact (Hc Hg)].
Defined.

Lemma example_no_empty_dirs : no_empty_dirs ["data"; "live"] (new_disk "/data").
Proof.
  intros q (x & r & ->) (_ & y & _ & Hq)%new_disk_lookup. change (components "/data") with ["data"] in Hq.
  exfalso. (destruct Hq as [E|(z & l & E)]; apply (f_equal length) in E; rewrite ?length_app in E; cbn in E; lia).
Qed.

Lemma set_then_unset_witness :
  let self1 := (set_key example_ntp "[]" Live example_fs).1 in
  fs_disk self1 !! ["data"; "live"; "settings"; "ntp"] = Some Dir ∧
  unset_key example_ntp Live self1 = (example_fs, Ok ()).
Proof.
  intros self1. split; [vm_cast_no_check (@eq_refl (option node) (Some Dir))|].
  apply (set_then_unset example_fs example_ntp "[]" Live self1 ()).
  - apply new_store_inv.
  - exact I.
  - apply example_ntp_key.
  - vm_cast_no_check (@eq_refl (option node) (Some Dir)).
  - exact example_no_empty_dirs.
  - vm_cast_no_check (@eq_refl (result error bool) (Ok false)).
  - vm_cast_no_check (eq_refl (self1, @Ok error () ())).
Defined.

Definition example_check (c : Committed) : stres FilesystemDataStore () ConstraintCheckResult := λ d,
  (d, Ok (Approve {| aw_settings := {[ segments example_motd := (example_motd, "hi") ]};
                     aw_metadata := [(mk_key "why" ["why"], example_motd, "x")] |})).

Lemma fs_commit_outcome_witness :
  let res := commit_transaction "a b" example_check example_after in
  res.2 = Ok {[ segments example_motd := example_motd ]} ∧ fs_inv res.1 ∧
  fs_entries res.1 (Pending "a b") = ∅ ∧
  hm_view (fs_entries res.1 Live) =
    {[ segments example_motd := "hi" ]} ∪ hm_view (fs_entries example_after Live).
Proof.
  intros res.
  assert (res = (res.1, Ok {[ segments example_motd := example_motd ]})) as Hres
    by (vm_cast_no_check (eq_refl res)).
  pose proof (fs_commit_outcome "a b" example_check example_after example_after
    (Ok (Approve {| aw_settings := {[ segments example_motd := (example_motd, "hi") ]};
                     aw_metadata := [(mk_key "why" ["why"], example_motd, "x")] |})) {[ "a b" ]}
    example_after_inv) as Ho.
  assert (list_transactions example_after = Ok {[ "a b" ]}) as Ht
    by (vm_cast_no_check (@eq_refl (result error (gset string)) (Ok {[ "a b" ]}))).
  specialize (Ho Ht eq_refl example_after_inv). rewrite decide_True in Ho by (by apply elem_of_singleton).
  destruct (Ho ltac:(apply map_Forall_singleton; reflexivity)
    ltac:(intros segs k v Hl; cbn in Hl; apply lookup_singleton_Some in Hl as [_ [= <- _]];
          apply example_motd_key)
    ltac:(apply Forall_singleton; apply example_motd_key) res.1 _ Hres) as (Hk & Hi & Hl & Hp & _).
  split_and!; [rewrite Hres; reflexivity|exact Hi|exact Hp|rewrite Hl; reflexivity].
Defined.

(** What the empty transaction name, which the API accepts as [?tx=], does: it
    stands for the directory of all transactions.  A key that is set in it becomes
    a key of a transaction named like its first segment, and deleting it deletes
    every transaction. *)
Lemma empty_transaction_is_all :
  let d1 := (set_key example_motd "hi" (Pending "tx") example_fs).1 in
  let d2 := (set_key example_motd "hi" (Pending "") d1).1 in
  list_transactions d1 = Ok {[ "tx" ]} ∧
  list_transactions d2 = Ok {[ "settings"; "tx" ]} ∧
  get_key (delete_transaction "" d1).1 example_motd (Pending "tx") = Ok None ∧
  list_transactions (delete_transaction "" d1).1 = Ok ∅.
Proof.
  split_and!; [vm_cast_no_check (@eq_refl (result error (gset string)) (Ok {[ "tx" ]}))
    |vm_cast_no_check (@eq_refl (result error (gset string)) (Ok {[ "settings"; "tx" ]}))
    |vm_cast_no_check (@eq_refl (result error (option string)) (Ok None))
    |vm_cast_no_check (@eq_refl (result error (gset string)) (Ok ∅))].
Qed.
