(* ===== verification/StoreMeta.v ===== *)
(** * The live metadata of a data store

    What a data store promises about its metadata ([DataStoreMeta]), next to
    [DataStoreSpec]: a metadata key is written for one data key, writes of data leave
    it alone, and [list_populated_metadata] lists what is there.
    [FilesystemDataStore] ([sources/api/datastore/src/filesystem.rs]) keeps the
    promises, with one limit that its listing has: only a metadata key whose name is
    made of characters that paths keep is listed under its own name. *)
From S2P Require Import Prelude DsError Key KeyMap DataStore Filesystem.
From stdpp Require Import base list strings gmap.
From stdpp Require Import options.

(** A metadata key has one segment. *)
Definition meta_key (mk : Key) : Prop := ∃ m, segments mk = [m].

Lemma key_new_meta n mk : key_new Meta n = Ok mk → meta_key mk.
Proof.
  intros (_ & _ & [_ Hl]%check_key_Ok)%key_new_Ok. unfold meta_key.
  destruct (segments mk) as [|m [|]]; [done|by exists m|done].
Qed.

(** The live value of a metadata key for a data key. *)
Definition live_meta `{DataStore D} (s : D) (mk k : Key) : option string :=
  match get_metadata_raw s mk k Live with Ok o => o | Err _ => None end.

(** A listing has the metadata key for the data key. *)
Definition meta_listed (md : key_map key_set) (k mk : Key) : Prop :=
  ∃ i dk mks j mk', md !! i = Some (dk, mks) ∧ mks !! j = Some mk' ∧
    segments dk = segments k ∧ segments mk' = segments mk.

Class DataStoreMeta (D : Type) `{DataStoreSpec D} := {
  (** The metadata keys that the store lists under their own names. *)
  dm_own_name : Key → Prop;
  dm_set_metadata d mk k v d' u mk' k' :
    ds_inv d → ds_key (D := D) k → meta_key mk → set_metadata mk k v Live d = (d', Ok u) →
    ds_key (D := D) k' → meta_key mk' →
    live_meta d' mk' k' =
      if decide (segments mk' = segments mk ∧ segments k' = segments k) then Some v
      else live_meta d mk' k';
  dm_set_key d k v c d' u mk k' :
    ds_inv d → ds_key (D := D) k → ds_committed (D := D) c → set_key k v c d = (d', Ok u) →
    ds_key (D := D) k' → meta_key mk → live_meta d' mk k' = live_meta d mk k';
  dm_list d md mk k :
    ds_inv d → list_populated_metadata d EmptyString Live None = Ok md →
    ds_key (D := D) k → meta_key mk → dm_own_name mk →
    meta_listed md k mk ↔ is_Some (live_meta d mk k) }.

(** ** The file system's *)

Section filesystem.
Context `{HashOrder} `{PercentEncoding}.

Lemma meta_rel_inj k1 k2 m1 m2 :
  proper_key k1 → proper_key k2 → meta_rel k1 m1 = meta_rel k2 m2 →
  segments k1 = segments k2 ∧ m1 = m2.
Proof.
  intros Hk1 Hk2 E.
  destruct (rel_snoc k1 Hk1) as (p1 & l1 & E1 & _ & D1 & _), (rel_snoc k2 Hk2) as (p2 & l2 & E2 & _ & D2 & _).
  rewrite (meta_rel_snoc k1 m1 p1 l1 E1), (meta_rel_snoc k2 m2 p2 l2 E2) in E.
  apply app_inj_tail in E as [-> El]. apply (f_equal (str_splitn2 DOT)) in El.
  change ("." +:+ ?s) with (String DOT s) in El. rewrite !str_splitn2_char in El by done.
  injection El as <- Hm. split; [apply key_rel_inj; congruence|by apply (inj encode_path_component) in Hm].
Qed.

Lemma meta_rel_not_key k k' m : proper_key k → meta_rel k m ≠ key_rel k'.
Proof.
  intros Hk E. pose proof (join_rel_no_dot k') as Hd. rewrite <- E in Hd.
  destruct (rel_snoc k Hk) as (pre & l & El & _). rewrite (meta_rel_snoc k m pre l El) in Hd.
  apply join_no_char, Forall_app in Hd as [_ [Hl _]%Forall_cons].
  change ("." +:+ ?s) with (String DOT s) in Hl. apply no_char_app in Hl as [_ Hl].
  unfold no_char in Hl. cbn in Hl. done.
Qed.

(** The value is the text of a file. *)
Lemma fs_live_meta base self mk m k :
  fs_inv_at base self → proper_key k → segments mk = [m] →
  live_meta self mk k =
    match fs_disk self !! (base_of base Live ++ meta_rel k m) with Some (File v) => Some v | _ => None end.
Proof.
  intros Hinv Hk Hm. destruct (metadata_path_spec base self mk m [] k Live) as (path & Hp & Hcp);
    [by destruct Hinv|done..|].
  unfold live_meta. cbn. unfold fs_get_metadata_raw. rewrite Hp. cbn. unfold read_file_for_key, fs_read.
  rewrite Hcp. destruct (fs_disk self !! _) as [[|v]|]; [done|done|]. by case_decide.
Qed.

(** A file written elsewhere. *)
Lemma wrote_live_meta base self d' mk m k p v :
  fs_inv_at base self → fs_inv_at base (with_disk d' self) → proper_key k → segments mk = [m] →
  wrote p v (fs_disk self) d' →
  live_meta (with_disk d' self) mk k =
    if decide (base_of base Live ++ meta_rel k m = p) then Some v else live_meta self mk k.
Proof.
  intros Hinv Hinv' Hk Hm Hw. rewrite !(fs_live_meta base _ mk m k) by done. cbn. rewrite Hw.
  case_decide; [done|]. destruct (fs_disk self !! _); [done|]. by case_decide.
Qed.

Lemma fs_set_metadata_meta self mk k v self' u mk' k' :
  fs_inv self → proper_key k → meta_key mk → fs_set_metadata mk k v Live self = (self', Ok u) →
  proper_key k' → meta_key mk' →
  live_meta self' mk' k' =
    if decide (segments mk' = segments mk ∧ segments k' = segments k) then Some v else live_meta self mk' k'.
Proof.
  intros [base Hinv] Hk [m Hm] Hs Hk' [m' Hm'].
  destruct (fs_set_metadata_Ok base self self' mk k v Live u Hinv I Hk Hs) as (d' & m0 & -> & Hh & _ & Hw & Hinv').
  rewrite Hm in Hh. injection Hh as <-. rewrite (wrote_live_meta base _ d' mk' m' k' _ v) by done.
  rewrite Hm, Hm'. apply decide_ext. split.
  - intros [_ [-> ->]%meta_rel_inj]%base_of_disjoint; done.
  - intros [[= ->] E]. unfold meta_rel, key_rel. by rewrite E.
Qed.

Lemma fs_set_key_meta self k v c self' u mk k' :
  fs_inv self → proper_key k → fs_committed c → fs_set_key k v c self = (self', Ok u) →
  proper_key k' → meta_key mk → live_meta self' mk k' = live_meta self mk k'.
Proof.
  intros [base Hinv] Hk Hc Hs Hk' [m Hm].
  destruct (fs_set_key_Ok base _ _ _ _ _ _ Hinv Hc Hk Hs) as (d' & -> & _ & Hw & Hinv').
  rewrite (wrote_live_meta base _ d' mk m k' _ v) by done. apply decide_False.
  intros [_ E]%base_of_disjoint. by eapply meta_rel_not_key.
Qed.

(** *** The listing *)

(** A metadata key that reads back from its path. *)
Definition fs_own_name (mk : Key) : Prop :=
  match segments mk with
  | [m] => str_forallb ENCODE_CHARACTERS m = true ∧ m ≠ EmptyString ∧ str_len m ≤ MAX_KEY_NAME_LENGTH
  | _ => False
  end.

Lemma key_new_meta_encoded m mk :
  key_new Meta (encode_path_component m) = Ok mk → str_forallb ENCODE_CHARACTERS m = true ∧ mk = mk_key m [m].
Proof.
  intros Hk. unfold encode_path_component in Hk. destruct (str_forallb ENCODE_CHARACTERS m) eqn:E.
  - split; [done|]. rewrite encode_kept in Hk by done.
    assert (m ≠ EmptyString) as Hne by (intros ->; done).
    pose proof Hk as (_ & _ & [Hl _]%check_key_Ok)%key_new_Ok.
    rewrite key_new_plain in Hk by done. by injection Hk as <-.
  - exfalso. apply encode_escaped in E. pose proof (parse_loop_invalid
      (utf8_percent_encode ENCODE_CHARACTERS m) _ [] EmptyString false E) as Hi.
    unfold key_new, parse_name_segments in Hk. destruct (str_is_empty _); [done|]. cbn in Hk.
    by destruct (parse_loop _ _ _ _ _).
Qed.

Definition meta_wf (md : key_map key_set) : Prop := hm_wf md ∧ map_Forall (λ _ e, hs_wf e.2) md.

Lemma meta_listed_lookup md k mk :
  meta_wf md → meta_listed md k mk ↔
  ∃ dk mks mk', md !! segments k = Some (dk, mks) ∧ mks !! segments mk = Some mk'.
Proof.
  intros [Hwf Hs]. split.
  - intros (i & dk & mks & j & mk' & Hd & Hm & <- & <-). exists dk, mks, mk'.
    pose proof (Hwf _ _ Hd) as Ei. pose proof (Hs _ _ Hd _ _ Hm) as Ej. cbn in Ei, Ej. by subst.
  - intros (dk & mks & mk' & Hd & Hm). exists (segments k), dk, mks, (segments mk), mk'.
    split_and!; [done..|exact (Hwf _ _ Hd)|exact (Hs _ _ Hd _ _ Hm)].
Qed.

Lemma hs_insert_wf k s : hs_wf s → hs_wf (hs_insert k s).
Proof. intros Hs. unfold hs_insert. destruct (s !! _); [done|]. by apply map_Forall_insert_2. Qed.

Lemma hs_insert_is_Some k s i : is_Some (hs_insert k s !! i) ↔ is_Some (s !! i) ∨ segments k = i.
Proof.
  unfold hs_insert. destruct (s !! segments k) eqn:E.
  - split; [by left|]. intros [?|<-]; [done|by eexists].
  - rewrite lookup_insert_is_Some'. naive_solver.
Qed.

(** One more pair of keys. *)
Lemma meta_entry dk0 mk0 md :
  meta_wf md → meta_wf (hm_entry dk0 ∅ (hs_insert mk0) md) ∧
  ∀ k mk, meta_listed (hm_entry dk0 ∅ (hs_insert mk0) md) k mk ↔
    meta_listed md k mk ∨ segments dk0 = segments k ∧ segments mk0 = segments mk.
Proof.
  intros Hwf. assert (meta_wf (hm_entry dk0 ∅ (hs_insert mk0) md)) as Hwf'.
  { destruct Hwf as [Hwf Hs]. unfold hm_entry. destruct (md !! segments dk0) as [[k0 ks]|] eqn:E; split;
      apply map_Forall_insert_2; try done; try apply hs_insert_wf; try done.
    - exact (Hwf _ _ E).
    - exact (Hs _ _ E). }
  split; [done|]. intros k mk. rewrite !meta_listed_lookup by done. unfold hm_entry.
  destruct (decide (segments dk0 = segments k)) as [Ek|Ek].
  - destruct (md !! segments dk0) as [[k0 ks]|] eqn:E; rewrite Ek in *; rewrite lookup_insert_eq.
    + transitivity (is_Some (hs_insert mk0 ks !! segments mk)); [split; [naive_solver|intros [x ?]; naive_solver]|].
      rewrite hs_insert_is_Some, E. split; [intros [[x ?]|?]; [left; naive_solver|by right]|].
      intros [(? & ? & x & [= <- <-] & ?)|[_ ?]]; [left; by eexists|by right].
    + transitivity (is_Some (hs_insert mk0 ∅ !! segments mk)); [split; [naive_solver|intros [x ?]; naive_solver]|].
      rewrite hs_insert_is_Some, E, lookup_empty. split; [intros [[]%is_Some_None|?]; by right|].
      intros [(? & ? & ? & ? & _)|[_ ?]]; [done|by right].
  - transitivity (∃ dk mks mk', md !! segments k = Some (dk, mks) ∧ mks !! segments mk = Some mk'); [|naive_solver].
    by destruct (md !! segments dk0) as [[k0 ks]|]; rewrite lookup_insert_ne.
Qed.

Lemma list_metadata_loop_listed l res md :
  list_metadata_loop None l res = Ok md → meta_wf res →
  ∀ k mk, meta_listed md k mk ↔
    meta_listed res k mk ∨
    ∃ kp mk', kp ∈ l ∧ metadata_key kp = Some mk' ∧ segments (data_key kp) = segments k ∧
      segments mk' = segments mk.
Proof.
  revert res. induction l as [|kp l IH]; intros res Hl Hwf k mk; cbn in Hl.
  { injection Hl as <-. split; [by left|]. intros [?|(? & ? & []%not_elem_of_nil & _)]. done. }
  destruct (metadata_key kp) as [mk0|] eqn:Hkp; [|done]. cbn in Hl.
  destruct (meta_entry (data_key kp) mk0 res Hwf) as [Hwf1 He]. rewrite (IH _ Hl Hwf1), He.
  split.
  - intros [[?|[? ?]]|(kp' & mk' & ? & ?)]; [by left|right; exists kp, mk0; by split_and!; [left|..]|].
    right. exists kp', mk'. by split; [right|].
  - intros [?|(kp' & mk' & [->|?]%elem_of_cons & E & ? & ?)]; [by left; left|left; right; naive_solver|].
    right. by exists kp', mk'.
Qed.

Lemma fs_list_meta self md mk k :
  fs_inv self → fs_list_populated_metadata self EmptyString Live None = Ok md →
  proper_key k → meta_key mk → fs_own_name mk →
  meta_listed md k mk ↔ is_Some (live_meta self mk k).
Proof.
  intros [base Hinv] Hl Hk [m Hm] Hown. unfold fs_own_name in Hown. rewrite Hm in Hown.
  destruct Hown as (Hplain & Hne & Hlen).
  rewrite (fs_live_meta base self mk m k) by done. unfold fs_list_populated_metadata in Hl. rinv.
  match goal with H : find_populated_key_paths _ _ _ _ = _ |- _ =>
    apply (find_populated_spec base) in H as ->; [|done..] end.
  set (l := omap _ _) in Hl.
  assert (∀ kp, kp ∈ l ↔ ∃ k m v, proper_key k ∧ key_new Meta (encode_path_component m) = Ok (mk_key m [m]) ∧
    kp = mk_key_path (canonical k) (Some (mk_key m [m])) ∧
    fs_disk self !! (base_of base Live ++ meta_rel k m) = Some (File v)) as Hin.
  { intros kp. unfold l. rewrite list_elem_of_omap. split.
    - intros ([p [|v]] & [Hp [rel ->]]%elem_of_walk & Hw); [done|].
      unfold wanted, from_entry in Hw. cbn in Hw. rewrite drop_app_length in Hw.
      destruct (inv_files _ _ Hinv Live _ _ I Hp) as [(k0 & Hk0 & ->)|(k0 & m0 & Hk0 & ->)].
      + rewrite from_path_data in Hw by done. cbn in Hw. by destruct (str_starts_with _ _).
      + rewrite from_path_meta in Hw by done. destruct (key_new _ _) as [mk0|] eqn:Ek; [|done]. cbn in Hw.
        destruct (_ && _); [|done]. injection Hw as <-. exists k0, m0, v.
        apply key_new_meta_encoded in Ek as Hmk. destruct Hmk as [_ ->]. done.
    - intros (k0 & m0 & v & Hk0 & Ek & -> & Hd). eexists (_, File v). rewrite elem_of_walk. split; [by eauto|].
      unfold wanted, from_entry. cbn. rewrite drop_app_length, from_path_meta, Ek by done. cbn.
      by destruct (encoded _). }
  assert (∀ kp, kp ∈ hash_iter (foldl (λ s kp, kp_insert kp s) ∅ l) ↔ kp ∈ l) as Hit.
  { intros kp. apply kp_collect_elem. intros kp1 kp2 (k1 & m1 & v1 & _ & _ & -> & _)%Hin (k2 & m2 & v2 & _ & _ & -> & _)%Hin E.
    injection E as E ->. unfold canonical. by rewrite E. }
  rewrite (list_metadata_loop_listed _ _ _ Hl) by done. split.
  - intros [(? & ? & ? & ? & ? & ? & _)|(kp & mk' & (k0 & m0 & v & Hk0 & _ & -> & Hd)%Hit%Hin & E & Es & Em)]; [done|].
    cbn in E, Es. injection E as <-. cbn in Em. rewrite Hm in Em. injection Em as ->.
    unfold meta_rel, key_rel in *. rewrite Es in Hd. rewrite Hd. by eexists.
  - intros [v Hv]. destruct (fs_disk self !! _) as [[|v']|] eqn:Hd; try done. right.
    exists (mk_key_path (canonical k) (Some (mk_key m [m]))), (mk_key m [m]). split_and!; [|done|done|done].
    apply Hit, Hin. exists k, m, v'. split_and!; [done| |done..].
    unfold encode_path_component. rewrite encode_kept by done. by apply key_new_plain.
Qed.

#[global] Instance filesystem_data_store_meta : DataStoreMeta FilesystemDataStore := {|
  dm_own_name := fs_own_name;
  dm_set_metadata := fs_set_metadata_meta;
  dm_set_key := fs_set_key_meta;
  dm_list := fs_list_meta |}.
End filesystem.
