(* ===== verification/Generator.v ===== *)
(** * Setting generators and strengths ([sources/models/src/generator.rs])

    [Strength], the two generator structures and their serde conversions, which
    accept either a string (the command) or a map. *)
From S2P Require Import Prelude Json.
From stdpp Require Import base list strings gmap.
From stdpp Require Import options.

(** ** Definitions *)

Inductive Strength := Strong | Weak.

Global Instance strength_eq_dec : EqDecision Strength.
Proof. solve_decision. Defined.

(** [#[default]]. *)
Definition strength_default : Strength := Strong.

(** [Display]. *)
Definition strength_to_string (s : Strength) : string :=
  match s with Strong => "strong" | Weak => "weak" end.

(** The derived [Serialize] and [Deserialize] (kebab-case unit variants). *)
Definition strength_to_json (s : Strength) : json := JString (strength_to_string s).
Definition strength_of_json (v : json) : result json_error Strength :=
  match v with
  | JString s =>
      if decide (s = "strong") then Ok Strong
      else if decide (s = "weak") then Ok Weak
      else Err JsonError
  | _ => Err JsonError
  end.

Record RawSettingsGenerator := mk_raw {
  raw_command : string;
  raw_strength : Strength;
  raw_depth : Z  (* u32 *) }.

Definition is_weak (self : RawSettingsGenerator) : bool :=
  bool_decide (raw_strength self = Weak).

Definition string_of_json (v : json) : result json_error string :=
  match v with JString s => Ok s | _ => Err JsonError end.
Definition u32_of_json (v : json) : result json_error Z :=
  match v with
  | JNumber (PosInt n) => if (n <? 2 ^ 32)%Z then Ok n else Err JsonError
  | _ => Err JsonError
  end.

(** [visit_map] of [RawSettingsGenerator]'s visitor: the loop over the entries. *)
Fixpoint raw_visit_map (entries : list (string * json))
    (command : option string) (strength : option Strength) (depth : option Z) :
    result json_error RawSettingsGenerator :=
  match entries with
  | [] =>
      let? command := ok_or command JsonError in
      Ok (mk_raw command (default strength_default strength) (default 0%Z depth))
  | (key, value) :: entries =>
      if decide (key = "command") then
        let? c := string_of_json value in raw_visit_map entries (Some c) strength depth
      else if decide (key = "strength") then
        let? s := strength_of_json value in raw_visit_map entries command (Some s) depth
      else if decide (key = "depth") then
        let? d := u32_of_json value in raw_visit_map entries command strength (Some d)
      else Err JsonError
  end.

Definition raw_settings_generator_of_json (v : json) : result json_error RawSettingsGenerator :=
  match v with
  | JString command => Ok (mk_raw command strength_default 0%Z)
  | JObject entries => raw_visit_map entries None None None
  | _ => Err JsonError
  end.

Record SettingsGenerator := mk_generator {
  gen_command : string;
  gen_strength : Strength }.

(** [From<RawSettingsGenerator>]. *)
Definition settings_generator_from (value : RawSettingsGenerator) : SettingsGenerator :=
  mk_generator (raw_command value) (raw_strength value).

Fixpoint generator_visit_map (entries : list (string * json))
    (command : option string) (strength : option Strength) :
    result json_error SettingsGenerator :=
  match entries with
  | [] =>
      let? command := ok_or command JsonError in
      Ok (mk_generator command (default strength_default strength))
  | (key, value) :: entries =>
      if decide (key = "command") then
        let? c := string_of_json value in generator_visit_map entries (Some c) strength
      else if decide (key = "strength") then
        let? s := strength_of_json value in generator_visit_map entries command (Some s)
      else Err JsonError
  end.

Definition settings_generator_of_json (v : json) : result json_error SettingsGenerator :=
  match v with
  | JString command => Ok (mk_generator command strength_default)
  | JObject entries => generator_visit_map entries None None
  | _ => Err JsonError
  end.

(** The derived [Serialize] of [SettingsGenerator]. *)
Definition settings_generator_to_json (g : SettingsGenerator) : json :=
  JObject [("command", JString (gen_command g)); ("strength", strength_to_json (gen_strength g))].

(** ** Facts *)

Lemma strength_roundtrip s : strength_of_json (strength_to_json s) = Ok s.
Proof. by destruct s. Qed.

Lemma settings_generator_roundtrip g :
  settings_generator_of_json (settings_generator_to_json g) = Ok g.
Proof. by destruct g as [c []]. Qed.
