(* ===== verification/Controller.v ===== *)
(** * The API server's controller ([sources/api/apiserver/src/server/controller.rs])

    The functions between the HTTP handlers and the data store, written against
    the [DataStore] interface: reading settings, services and configuration
    files, writing settings to a transaction, the metadata queries and the
    expansion of settings generators, and the commit with its strength check.
    The settings model itself is a plugin loaded at run time; its type, its
    default and its conversions are the class [SettingsModel]. *)
From S2P Require Import Prelude DsError Key Json KeyMap Serialization Deserialization DataStore Memory Filesystem Generator.
From stdpp Require Import base list strings gmap sorting.
From stdpp Require Import options.

(** ** Definitions *)

(** The controller's variants of [server::error::Error]. *)
Inductive api_error :=
| MissingData (prefix : string)
| ApiListKeys (requested : string)
| ApiDataStore (op : string) (source : error)
| ApiDeserialization (given : string) (source : de_error)
| DeserializeStrength
| ApiSerialize
| SettingsToJson
| DataStoreSerialization (given : string) (source : ser_error)
| NewKey (key_type name : string) (source : error)
| InvalidMetadata (key data_key : string)
| InvalidKeyPair (input : string)
| DeserializeSettingsGenerator.

(** [BottlerocketSettings]: the settings plugin. *)
Class SettingsModel (Settings : Type) := {
  settings_deserialize :: Deserialize Settings;
  settings_default : Settings;
  settings_to_json : Settings → result json_error json }.

(** A [HashSet<&str>] in iteration order. *)
Definition str_iter `{HashOrder} (s : gset string) : list string :=
  hash_iter (set_to_map (λ x, (x, x)) s : gmap string string).

Definition check_prefix (given expected : string) : option string :=
  if str_starts_with expected given then Some expected
  else if str_starts_with given expected then Some given
  else None.

(** [SettingsMetadata::from]. *)
Definition settings_metadata_from `{HashOrder} (transaction_metadata : key_map (key_map string)) :
    gmap string (gmap string string) :=
  foldl (λ metadata '(key, value),
    <[name key := foldl (λ inner_map '(inner_key, inner_value),
                     <[name inner_key := inner_value]> inner_map) ∅ (hm_iter value)]> metadata)
    ∅ (hm_iter transaction_metadata).

(** [sort_by] on the number of segments (a stable sort). *)
Fixpoint insert_by_len {A} (x : Key * A) (l : list (Key * A)) : list (Key * A) :=
  match l with
  | [] => [x]
  | y :: l' =>
      if (length (segments y.1) <? length (segments x.1))%nat
      then y :: insert_by_len x l'
      else x :: l
  end.

Definition sort_metadata `{HashOrder} (metadata : key_map (key_map string)) :
    list (Key * key_map string) :=
  foldr insert_by_len [] (hm_iter metadata).

(** What the strength check decides for one metadata entry. *)
Inductive decision := CommitStrength | RejectStrength | KeepStrength.

Definition strength_decision (pending_strength committed_strength : Strength)
    (may_be_value : option string) : decision :=
  match pending_strength, committed_strength, may_be_value with
  | Weak, Strong, None
  | Strong, Weak, Some _
  | Strong, Weak, None => CommitStrength
  | Weak, Strong, Some _ => RejectStrength
  | Weak, Weak, _ => KeepStrength
  | Strong, Strong, _ => KeepStrength
  end.

Section controller.
Context `{HashOrder} `{SerdeJson} `{DataStore D}.

Definition ctl_list_transactions (datastore : D) : result api_error (gset string) :=
  map_err (ApiDataStore "list_transactions") (list_transactions datastore).

(** The helper [get_prefix]. *)
Definition ctl_get_prefix {T} `{Deserialize T} (datastore : D) (committed : Committed)
    (find_prefix : string) (map_prefix : option string) : result api_error (option T) :=
  let? data := map_err (ApiDataStore "get_prefix") (get_prefix datastore find_prefix committed) in
  if decide (data = ∅) then Ok None
  else
    map_err (ApiDeserialization find_prefix)
      (let? t := from_map_with_prefix map_prefix data in Ok (Some t)).

Definition get_transaction_metadata (datastore : D) (transaction : string)
    (metadata_key_name : option string) : result api_error (gmap string (gmap string string)) :=
  let pending := Pending transaction in
  let? metadata := map_err (ApiDataStore "get_metadata_prefix")
      (get_metadata_prefix datastore "settings." pending metadata_key_name) in
  Ok (settings_metadata_from metadata).

Definition ctl_delete_transaction (transaction : string) : stres D api_error key_set :=
  st_map_err (ApiDataStore "delete_pending") (delete_transaction transaction).

(** [.transpose().context(MissingData)?]: finding nothing is an error. *)
Definition required {T} (prefix : string) (r : result api_error (option T)) :
    result api_error T :=
  let? o := r in ok_or o (MissingData prefix).

Section model.
Context `{SettingsModel Settings}.

Definition get_transaction (datastore : D) (transaction : string) :
    result api_error Settings :=
  let pending := Pending transaction in
  let? maybe_settings := ctl_get_prefix datastore pending "settings." None in
  Ok (default settings_default maybe_settings).

Definition get_settings (datastore : D) (committed : Committed) : result api_error Settings :=
  required "settings" (ctl_get_prefix datastore committed "settings." None).

Definition get_settings_prefix (datastore : D) (prefix : string) (committed : Committed) :
    result api_error (option Settings) :=
  match check_prefix prefix "settings." with
  | None => Ok None
  | Some prefix => ctl_get_prefix datastore committed prefix None
  end.

(** The loop of [get_settings_keys] over the requested names. *)
Fixpoint get_settings_keys_loop (datastore : D) (committed : Committed) (keys : list string)
    (data : key_map string) : result api_error (key_map string) :=
  match keys with
  | [] => Ok data
  | key_str :: keys =>
      let? key := map_err (NewKey "data" key_str) (key_new Data key_str) in
      let? o := map_err (ApiDataStore "get_key") (get_key datastore key committed) in
      match o with
      | Some value => get_settings_keys_loop datastore committed keys (hm_insert key value data)
      | None => get_settings_keys_loop datastore committed keys data
      end
  end.

Definition get_settings_keys (datastore : D) (keys : gset string) (committed : Committed) :
    result api_error Settings :=
  let? data := get_settings_keys_loop datastore committed (str_iter keys) ∅ in
  map_err (ApiDeserialization "given keys") (from_map data).

(** The key is built inside the loop, once per pair. *)
Definition set_strength (strength : Strength) (pending : Committed) (key : Key) :
    stres D api_error unit :=
  let! metadata_key_strength :=
    st_lift (map_err (NewKey "meta" "strength") (key_new Meta "strength")) in
  let! metadata_value :=
    st_lift (map_err (λ _, ApiSerialize)
               (serialize_scalar (JString (strength_to_string strength)))) in
  st_map_err (ApiDataStore "Failure in setting metadata.")
    (set_metadata metadata_key_strength key metadata_value pending).

Definition set_settings (settings : Settings) (transaction : string) (strength : Strength) :
    stres D api_error unit :=
  let! settings_json := st_lift (map_err (λ _, SettingsToJson) (settings_to_json settings)) in
  let! pairs := st_lift (map_err (DataStoreSerialization "Settings")
                           (to_pairs_with_prefix "settings" settings_json)) in
  let pending := Pending transaction in
  let! _ := st_forM (hm_keys pairs) (set_strength strength pending) in
  st_map_err (ApiDataStore "set_keys") (set_keys pairs pending).
End model.

(** Services and configuration files: [T] is the [HashMap] type of the model. *)
Definition get_services {T} `{Deserialize T} (datastore : D) : result api_error T :=
  required "services" (ctl_get_prefix datastore Live "services." (Some "services")).

Definition get_services_prefix {T} `{Deserialize T} (datastore : D) (prefix : string) :
    result api_error (option T) :=
  match check_prefix prefix "services." with
  | None => Ok None
  | Some prefix => ctl_get_prefix datastore Live prefix (Some "services")
  end.

Definition get_configuration_files {T} `{Deserialize T} (datastore : D) : result api_error T :=
  required "configuration-files"
    (ctl_get_prefix datastore Live "configuration-files" (Some "configuration-files")).

Definition get_configuration_files_prefix {T} `{Deserialize T} (datastore : D)
    (prefix : string) : result api_error (option T) :=
  match check_prefix prefix "configuration-files." with
  | None => Ok None
  | Some prefix => ctl_get_prefix datastore Live prefix (Some "configuration-files")
  end.

Fixpoint get_map_loop {T} `{Deserialize T} (datastore : D) (prefix : string)
    (committed : Committed) (names : list string) (res : gmap string T) :
    result api_error (gmap string T) :=
  match names with
  | [] => Ok res
  | name :: names =>
      let item_prefix := prefix +:+ name in
      let? item_data := map_err (ApiDataStore "get_prefix")
                          (get_prefix datastore item_prefix committed) in
      let? _ := ensure (negb (bool_decide (item_data = ∅))) (ApiListKeys item_prefix) in
      let? item := map_err (ApiDeserialization item_prefix)
                     (from_map_with_prefix (Some item_prefix) item_data) in
      get_map_loop datastore prefix committed names (<[name := item]> res)
  end.

Definition get_map_from_prefix {T} `{Deserialize T} (datastore : D) (prefix : string)
    (names : gset string) (committed : Committed) : result api_error (gmap string T) :=
  get_map_loop datastore prefix committed (str_iter names) ∅.

Definition get_services_names {T} `{Deserialize T} (datastore : D) (names : gset string)
    (committed : Committed) : result api_error (gmap string T) :=
  get_map_from_prefix datastore "services." names committed.

Definition get_configuration_files_names {T} `{Deserialize T} (datastore : D)
    (names : gset string) (committed : Committed) : result api_error (gmap string T) :=
  get_map_from_prefix datastore "configuration-files." names committed.

(** *** Metadata *)

Fixpoint get_metadata_for_data_keys_loop (datastore : D) (md_key : Key)
    (data_key_strs : list string) (res : gmap string json) :
    result api_error (gmap string json) :=
  match data_key_strs with
  | [] => Ok res
  | data_key_str :: data_key_strs =>
      let? data_key := map_err (NewKey "data" data_key_str) (key_new Data data_key_str) in
      match get_metadata datastore md_key data_key Live with
      | Ok (Some value_str) =>
          let? value := map_err (λ _, InvalidMetadata (name md_key) (name data_key))
                          (deserialize_scalar value_str) in
          get_metadata_for_data_keys_loop datastore md_key data_key_strs
            (<[name data_key := value]> res)
      | Ok None => get_metadata_for_data_keys_loop datastore md_key data_key_strs res
      | Err _ => get_metadata_for_data_keys_loop datastore md_key data_key_strs res
      end
  end.

Definition get_metadata_for_data_keys (datastore : D) (md_key_str : string)
    (data_key_strs : gset string) : result api_error (gmap string json) :=
  let? md_key := map_err (NewKey "meta" md_key_str) (key_new Meta md_key_str) in
  get_metadata_for_data_keys_loop datastore md_key (str_iter data_key_strs) ∅.

Definition get_metadata_for_all_data_keys (datastore : D) (md_key_str : string) :
    result api_error (key_map (key_map string)) :=
  map_err (ApiDataStore "get_metadata_prefix")
    (get_metadata_prefix datastore EmptyString Live (Some md_key_str)).

(** [slice.get(..n)]. *)
Definition slice_to (n : nat) (l : list string) : option (list string) :=
  if (n <=? length l)%nat then Some (take n l) else None.

(** The key a populated key stands for at the target depth: its leading
    segments with the last of them replaced by the leaf. *)
Definition child_key_at (final_segment_length : nat) (leaf : string) (child_key : Key) :
    option (result api_error Key) :=
  child_segments ← slice_to final_segment_length (segments child_key);
  Some (map_err (ApiDataStore "Key from segments")
          (from_segments Data (removelast child_segments ++ [leaf]))).

Definition expand_setting_generator (datastore : D) (data_key : Key)
    (raw_setting_generator : RawSettingsGenerator) (res : gmap string json) :
    result api_error (gmap string json) :=
  let depth := raw_depth raw_setting_generator in
  let metadata_value :=
    settings_generator_to_json (settings_generator_from raw_setting_generator) in
  if (depth =? 0)%Z then Ok (<[name data_key := metadata_value]> res)
  else
    let segs := segments data_key in
    let? data_key_for_metadata := ok_or (last segs) (InvalidKeyPair (name data_key)) in
    let? parent_key := map_err (ApiDataStore "Unable to create key from segments")
                         (from_segments Data (take (length segs - 1) segs)) in
    let? all_child_keys := map_err (ApiDataStore "Unable to get the populated keys")
                             (list_populated_keys datastore (name parent_key) Live) in
    let final_segment_length := length segs + Z.to_nat depth in
    let? child_keys_at_target_depth :=
      mapM id (omap (child_key_at final_segment_length data_key_for_metadata)
                 (hs_iter all_child_keys)) in
    Ok (foldl (λ res child_key, <[name child_key := metadata_value]> res) res
          (hs_iter (hs_collect child_keys_at_target_depth))).

(** The two nested loops of [get_settings_generator_metadata], as one over the
    entries in order. *)
Fixpoint expand_loop (datastore : D) (entries : list (Key * (Key * string)))
    (res : gmap string json) : result api_error (gmap string json) :=
  match entries with
  | [] => Ok res
  | (data_key, (meta_key, value_str)) :: entries =>
      let? value := map_err (λ _, InvalidMetadata (name meta_key) (name data_key))
                      (deserialize_scalar value_str) in
      let? setting_generator := map_err (λ _, DeserializeSettingsGenerator)
                                  (raw_settings_generator_of_json value) in
      let? res := expand_setting_generator datastore data_key setting_generator res in
      expand_loop datastore entries res
  end.

Definition flatten_metadata (metadata : list (Key * key_map string)) :
    list (Key * (Key * string)) :=
  metadata ≫= λ '(data_key, m), (λ kv, (data_key, kv)) <$> hm_iter m.

Definition get_settings_generator_metadata (datastore : D) (md_key_str : string) :
    result api_error (gmap string json) :=
  let? meta_map := get_metadata_for_all_data_keys datastore md_key_str in
  let sorted_metadata := sort_metadata meta_map in
  expand_loop datastore (flatten_metadata sorted_metadata) ∅.

(** *** Committing *)

(** [deserialize_scalar::<Strength, _>]. *)
Definition deserialize_strength (s : string) : result api_error Strength :=
  map_err (λ _, DeserializeStrength) (let? v := deserialize_scalar s in strength_of_json v).

(** The two nested loops of [datastore_transaction_check], as one over the
    entries; [inl] is the early return of a rejection. *)
Fixpoint check_loop (datastore : D) (entries : list (Key * (Key * string)))
    (metadata_to_commit : list (Key * Key * string)) :
    result api_error (string + list (Key * Key * string)) :=
  match entries with
  | [] => Ok (inr metadata_to_commit)
  | (key, (metadata_key, metadata_value)) :: entries =>
      if negb (bool_decide (name metadata_key = "strength"))
      then check_loop datastore entries metadata_to_commit
      else
        let? pending_strength := deserialize_strength metadata_value in
        let? committed_value := map_err (ApiDataStore "get_metadata")
                                  (get_metadata datastore metadata_key key Live) in
        let? committed_strength :=
          match committed_value with
          | Some x => deserialize_strength x
          | None => Ok strength_default
          end in
        let? may_be_value := map_err (ApiDataStore "get_key") (get_key datastore key Live) in
        match strength_decision pending_strength committed_strength may_be_value with
        | CommitStrength =>
            let? met_value := map_err (λ _, ApiSerialize)
                                (serialize_scalar (strength_to_json pending_strength)) in
            check_loop datastore entries (metadata_to_commit ++ [(metadata_key, key, met_value)])
        | RejectStrength =>
            Ok (inl ("Cannot change setting " +:+ name key +:+
                     " strength from strong to weak"))
        | KeepStrength => check_loop datastore entries metadata_to_commit
        end
  end.

Definition datastore_transaction_check (datastore : D) (committed : Committed) :
    result api_error ConstraintCheckResult :=
  let? settings_to_commit := map_err (ApiDataStore "get_prefix")
                               (get_prefix datastore "settings." committed) in
  let? transaction_metadata := map_err (ApiDataStore "get_metadata_prefix")
      (get_metadata_prefix datastore "settings." committed None) in
  let? r := check_loop datastore (flatten_metadata (hm_iter transaction_metadata)) [] in
  match r with
  | inl reason => Ok (Reject reason)
  | inr metadata_to_commit =>
      Ok (check_result_from (Some {| aw_settings := settings_to_commit;
                                     aw_metadata := metadata_to_commit |}))
  end.

(** The wrapper only boxes the error. *)
Definition datastore_transaction_check_wrapper (committed : Committed) :
    stres D api_error ConstraintCheckResult :=
  st_read (λ datastore, datastore_transaction_check datastore committed).

Definition ctl_commit_transaction (transaction : string) : stres D api_error key_set :=
  st_map_err (ApiDataStore "commit")
    (commit_transaction transaction datastore_transaction_check_wrapper).
End controller.

(** ** Prefix queries *)

Lemma starts_with_trans n p q :
  str_starts_with n p = true → str_starts_with p q = true → str_starts_with n q = true.
Proof.
  rewrite !str_starts_with_spec. intros [t ->] [u ->]. exists (u +:+ t). by rewrite str_app_assoc.
Qed.

(** Two prefixes of the same string are comparable. *)
Lemma starts_with_comparable n p q :
  str_starts_with n p = true → str_starts_with n q = true →
  str_starts_with p q = true ∨ str_starts_with q p = true.
Proof.
  rewrite !str_starts_with_spec. intros [t ->] [u Hu]. revert q u Hu.
  induction p as [|c p IH]; intros q u Hu.
  { right. by exists q. }
  destruct q as [|c' q]; [left; by exists (String c p)|].
  cbn in Hu. injection Hu as <- Hu.
  destruct (IH q u Hu) as [[v ->]|[v ->]]; [left|right]; by exists v.
Qed.

(** [check_prefix] finds the one prefix to search with: the keys under the
    returned prefix are exactly the keys under both the given and the expected
    prefix, and when it returns nothing no key is under both. *)
Lemma check_prefix_correct given expected n :
  str_starts_with n given && str_starts_with n expected =
  match check_prefix given expected with
  | Some p => str_starts_with n p
  | None => false
  end.
Proof.
  unfold check_prefix. destruct (str_starts_with expected given) eqn:E1.
  { destruct (str_starts_with n expected) eqn:E; [|by rewrite andb_false_r].
    by rewrite (starts_with_trans n expected given). }
  destruct (str_starts_with given expected) eqn:E2.
  { destruct (str_starts_with n given) eqn:E; [|done].
    by rewrite (starts_with_trans n given expected). }
  destruct (str_starts_with n given) eqn:E3, (str_starts_with n expected) eqn:E4; try done.
  destruct (starts_with_comparable n given expected E3 E4); congruence.
Qed.

(** ** Sorting metadata *)

Section sort.
Context {A : Type}.
Let len (x : Key * A) : nat := length (segments x.1).

Lemma insert_by_len_perm (x : Key * A) l : insert_by_len x l ≡ₚ x :: l.
Proof.
  induction l as [|y l IH]; cbn [insert_by_len]; [done|].
  destruct (Nat.ltb (length (segments y.1)) (length (segments x.1))); [|done].
  rewrite IH. apply Permutation_swap.
Qed.

Lemma insert_by_len_sorted (x : Key * A) l :
  StronglySorted (λ a b, len a ≤ len b) l →
  StronglySorted (λ a b, len a ≤ len b) (insert_by_len x l).
Proof.
  induction 1 as [|y l Hs IH Hy]; cbn [insert_by_len]; [by repeat constructor|].
  destruct (Nat.ltb_spec (length (segments y.1)) (length (segments x.1))) as [Hlt|Hge].
  - constructor; [done|]. rewrite insert_by_len_perm. constructor; [unfold len; lia|done].
  - constructor; [by constructor|]. constructor; [done|].
    eapply Forall_impl; [exact Hy|]. unfold len. cbn. lia.
Qed.

Lemma foldr_insert_by_len (l : list (Key * A)) :
  foldr insert_by_len [] l ≡ₚ l ∧
  StronglySorted (λ a b, len a ≤ len b) (foldr insert_by_len [] l).
Proof.
  induction l as [|x l [IHp IHs]]; cbn; [split; [done|constructor]|]. split.
  - by rewrite insert_by_len_perm, IHp.
  - by apply insert_by_len_sorted.
Qed.
End sort.

Lemma StronglySorted_lookup {A} (R : A → A → Prop) l i j x y :
  StronglySorted R l → l !! i = Some x → l !! j = Some y → i < j → R x y.
Proof.
  intros Hs. revert i j. induction Hs as [|z l Hs IH Hz]; intros i j Hi Hj Hij; [done|].
  destruct i as [|i], j as [|j]; cbn in *; try lia.
  - injection Hi as <-. rewrite Forall_forall in Hz. by eapply Hz, list_elem_of_lookup_2.
  - eapply IH; [done..|lia].
Qed.

(** [sort_metadata] keeps every entry once and puts a key before all the keys
    below it, so that what a parent generates is overridden by its children. *)
Lemma sort_metadata_parents_first `{HashOrder} m :
  sort_metadata m ≡ₚ hm_iter m ∧
  ∀ i j k1 m1 k2 m2,
    sort_metadata m !! i = Some (k1, m1) → sort_metadata m !! j = Some (k2, m2) →
    segments k1 `prefix_of` segments k2 → segments k1 ≠ segments k2 → i < j.
Proof.
  destruct (foldr_insert_by_len (hm_iter m)) as [Hp Hs]. split; [exact Hp|].
  intros i j k1 m1 k2 m2 Hi Hj [t Ht] Hne. apply dec_stable. intros Hlt.
  assert (t ≠ []) as Htn by (intros ->; by rewrite app_nil_r in Ht).
  assert (length (segments k1) < length (segments k2)) as Hl.
  { rewrite Ht, length_app. destruct t; [done|cbn; lia]. }
  destruct (decide (i = j)) as [->|Hij]; [congruence|].
  pose proof (StronglySorted_lookup _ _ j i _ _ Hs Hj Hi) as Hle. cbn in Hle. lia.
Qed.

(** ** Writing settings *)

Section set_settings.
Context `{DataStoreSpec D} `{SerdeJson} `{SettingsModel Settings}.

Lemma set_strength_entries strength c k d d' u :
  ds_inv d → ds_key k → ds_committed c → set_strength strength c k d = (d', Ok u) →
  ds_inv d' ∧ ∀ c', ds_committed c' → ds_entries d' c' = ds_entries d c'.
Proof.
  intros Hd Hk Hcm Hs. unfold set_strength in Hs. sinv. by eapply ds_set_metadata.
Qed.

Lemma set_strengths_entries strength c l d d' u :
  ds_inv d → Forall ds_key l → ds_committed c → st_forM l (set_strength strength c) d = (d', Ok u) →
  ds_inv d' ∧ ∀ c', ds_committed c' → ds_entries d' c' = ds_entries d c'.
Proof.
  intros Hd Hl Hcm. revert d Hd Hl. induction l as [|k l IH]; intros d Hd Hl Hs; cbn in Hs.
  { by injection Hs as <- _. }
  rinv. apply Forall_cons in Hl as [Hk Hl].
  match goal with H : set_strength _ _ _ _ = _ |- _ =>
    apply set_strength_entries in H as [Hd1 He1]; [|done..] end.
  apply IH in Hs as [Hd' He']; [|done..]. split; [done|]. intros c' Hc'. by rewrite He', He1.
Qed.
End set_settings.

(** On any store that keeps the promises of [DataStoreSpec] for proper
    keys, a successful [set_settings] puts exactly the serialized pairs of the
    settings over the pending data of its transaction, and changes neither the
    live data nor any other transaction. *)
Lemma set_settings_pending `{DataStoreSpec D} `{SerdeJson} `{SettingsModel Settings}
    (settings : Settings) tx strength (d d' : D) u :
  (∀ k, proper_key k → ds_key k) → ds_committed (D := D) (Pending tx) → ds_inv d →
  set_settings settings tx strength d = (d', Ok u) →
  ∃ v pairs, settings_to_json settings = Ok v ∧ to_pairs_with_prefix "settings" v = Ok pairs ∧
    ds_inv d' ∧
    hm_view (ds_entries d' (Pending tx)) =
      hm_view pairs ∪ hm_view (ds_entries d (Pending tx)) ∧
    ∀ c, ds_committed (D := D) c → c ≠ Pending tx → ds_entries d' c = ds_entries d c.
Proof.
  intros Hkey Hcm Hd Hs. unfold set_settings in Hs. sinv.
  match goal with H : settings_to_json _ = Ok ?v, H' : to_pairs_with_prefix _ _ = Ok ?p |- _ =>
    exists v, p; pose proof (to_pairs_with_prefix_wf _ _ _ H') as Hwf; rename p into pairs end.
  split; [done|]. split; [done|].
  pose proof (out_wf_hm_wf _ Hwf) as Hpairs.
  match goal with H : st_forM _ _ _ = _ |- _ =>
    apply set_strengths_entries in H as [Hd1 He1]; [|done| |done] end.
  - apply set_keys_view in Hs as (Hd' & Hv & Ho); [|done|done|done|].
    + split; [done|]. rewrite Hv, He1 by done. split; [done|]. intros c Hcm' Hc. by rewrite Ho, He1.
    + intros segs k v Hk. apply Hkey. by apply (Hwf _ _ Hk).
  - apply Forall_forall. intros k [v Hk]%elem_of_hm_keys; [|done]. apply Hkey. by apply (Hwf _ _ Hk).
Qed.

(** A settings model for evaluation: the settings are a JSON value. *)
Definition example_model : SettingsModel json := {|
  settings_deserialize := value_deserialize;
  settings_default := JObject [];
  settings_to_json v := Ok v |}.

Lemma set_settings_pending_witness :
  let v := JObject [("motd", JString "hi")] in
  ∃ d' pairs,
    @set_settings example_order example_json _ (@memory_data_store example_order) _ example_model
      v "tx" Weak memory_new = (d', Ok tt) ∧
    @to_pairs_with_prefix example_json "settings" v = Ok pairs ∧
    hm_view (mem_entries d' (Pending "tx")) = hm_view pairs ∪ ∅ ∧
    mem_entries d' Live = ∅.
Proof.
  intros v.
  set (d' := fst (@set_settings example_order example_json _ (@memory_data_store example_order) _
                    example_model v "tx" Weak memory_new)).
  assert (@set_settings example_order example_json _ (@memory_data_store example_order) _
            example_model v "tx" Weak memory_new = (d', Ok tt)) as Hs by reflexivity.
  destruct (@set_settings_pending _ example_order (@memory_data_store example_order)
      (@memory_data_store_spec example_order) example_json _ example_model
      v "tx" Weak memory_new d' tt) as (j & pairs & [= <-] & Hp & _ & Hv & Ho).
  - done.
  - exact I.
  - split; [apply hm_wf_empty|apply map_Forall_empty].
  - exact Hs.
  - exists d', pairs. split_and!; [exact Hs|exact Hp|exact Hv|exact (Ho Live I ltac:(done))].
Defined.

(** ** The strength check *)

Section check.
Context `{HashOrder} `{SerdeJson} `{DataStore D}.

(** The strength a live setting has; strong when nothing is recorded. *)
Definition live_strength (d : D) (mk k : Key) : result api_error Strength :=
  let? o := map_err (ApiDataStore "get_metadata") (get_metadata d mk k Live) in
  match o with
  | Some x => deserialize_strength x
  | None => Ok strength_default
  end.

(** A pending entry that would weaken a strong setting that has a live value. *)
Definition weakens (d : D) (e : Key * (Key * string)) : Prop :=
  name e.2.1 = "strength" ∧ deserialize_strength e.2.2 = Ok Weak ∧
  live_strength d e.2.1 e.1 = Ok Strong ∧ ∃ v, get_key d e.1 Live = Ok (Some v).

(** A metadata write that changes the strength of a setting. *)
Definition strength_change (d : D) (entries : list (Key * (Key * string)))
    (w : Key * Key * string) : Prop :=
  ∃ t pending committed,
    (w.1.2, (w.1.1, t)) ∈ entries ∧ deserialize_strength t = Ok pending ∧
    live_strength d w.1.1 w.1.2 = Ok committed ∧ committed ≠ pending ∧
    serialize_scalar (strength_to_json pending) = Ok w.2.

Lemma check_loop_step d k mk v entries acc r :
  check_loop d ((k, (mk, v)) :: entries) acc = Ok r →
  (name mk ≠ "strength" ∧ check_loop d entries acc = Ok r) ∨
  (name mk = "strength" ∧ ∃ pending committed value,
     deserialize_strength v = Ok pending ∧ live_strength d mk k = Ok committed ∧
     get_key d k Live = Ok value ∧
     match strength_decision pending committed value with
     | CommitStrength => ∃ t, serialize_scalar (strength_to_json pending) = Ok t ∧
         check_loop d entries (acc ++ [(mk, k, t)]) = Ok r
     | RejectStrength => ∃ reason, r = inl reason
     | KeepStrength => check_loop d entries acc = Ok r
     end).
Proof.
  cbn [check_loop]. intros Hc. case_bool_decide as Hn; cbn [negb] in Hc; [right|by left].
  split; [done|].
  destruct (deserialize_strength v) as [pending|] eqn:Ep; [|done]. cbn [mbind result_bind] in Hc.
  unfold live_strength.
  destruct (get_metadata d mk k Live) as [o|]; [|done]. cbn [map_err mbind result_bind] in *.
  destruct (match o with Some x => deserialize_strength x | None => Ok strength_default end)
    as [committed|] eqn:Ec; [|done]. cbn [mbind result_bind] in *.
  destruct (get_key d k Live) as [value|]; [|done]. cbn [map_err mbind result_bind] in *.
  exists pending, committed, value. split_and!; [done..|].
  destruct (strength_decision _ _ _); [|rinv; by eexists|done].
  destruct (serialize_scalar _) as [t|]; [|done]. by exists t.
Qed.

Lemma check_loop_approve d all entries acc w :
  (∀ e, e ∈ entries → e ∈ all) → Forall (strength_change d all) acc →
  check_loop d entries acc = Ok (inr w) →
  Forall (λ e, ¬ weakens d e) entries ∧ Forall (strength_change d all) w.
Proof.
  revert acc. induction entries as [|[k [mk v]] entries IH]; intros acc Hall Hacc Hc.
  { injection Hc as <-. by split. }
  assert (∀ e, e ∈ entries → e ∈ all) as Hall' by (intros; apply Hall; by right).
  apply check_loop_step in Hc as
    [[Hn Hc]|(Hn & pending & committed & value & Hp & Hl & Hg & Hc)].
  { apply IH in Hc as [Hf Hw]; [|done..]. split; [|done]. constructor; [|done].
    by intros (? & _). }
  assert (¬ weakens d (k, (mk, v)) ∧
          ∃ acc', Forall (strength_change d all) acc' ∧ check_loop d entries acc' = Ok (inr w))
    as (Hw & acc' & Hacc' & Hc').
  { destruct (strength_decision pending committed value) eqn:Ed; [|naive_solver|].
    - destruct Hc as (t & Ht & Hc). split.
      + intros (_ & Hw & Hls & x & Hx). cbn in *. assert (pending = Weak) as -> by congruence.
        assert (committed = Strong) as -> by congruence.
        assert (value = Some x) as -> by congruence. done.
      + exists (acc ++ [(mk, k, t)]). split; [|done]. apply Forall_app_2; [done|].
        apply Forall_singleton. exists v, pending, committed.
        split_and!; [apply Hall; by left|done|done| |done].
        intros ->. by destruct pending.
    - split; [|by exists acc]. intros (_ & Hw & Hls & x & Hx). cbn in *.
      assert (pending = Weak) as -> by congruence.
      assert (committed = Strong) as -> by congruence.
      assert (value = Some x) as -> by congruence. done. }
  apply IH in Hc' as [Hf Hw']; [|done..]. split; [by constructor|done].
Qed.

Lemma check_loop_reject d entries acc reason :
  check_loop d entries acc = Ok (inl reason) → Exists (weakens d) entries.
Proof.
  revert acc. induction entries as [|[k [mk v]] entries IH]; intros acc Hc; [done|].
  apply check_loop_step in Hc as
    [[Hn Hc]|(Hn & pending & committed & value & Hp & Hl & Hg & Hc)].
  { apply Exists_cons_tl. by eapply IH. }
  destruct (strength_decision pending committed value) eqn:Ed.
  - destruct Hc as (t & _ & Hc). apply Exists_cons_tl. by eapply IH.
  - apply Exists_cons_hd. destruct pending, committed, value as [x|]; try done.
    split_and!; [done..|]. by exists x.
  - apply Exists_cons_tl. by eapply IH.
Qed.
End check.

Lemma transaction_check_outcome `{HashOrder} `{SerdeJson} `{DataStore D} (d : D) c r :
  datastore_transaction_check d c = Ok r →
  ∃ settings md,
    get_prefix d "settings." c = Ok settings ∧
    get_metadata_prefix d "settings." c None = Ok md ∧
    let entries := flatten_metadata (hm_iter md) in
    match r with
    | Approve aw =>
        aw_settings aw = settings ∧ Forall (λ e, ¬ weakens d e) entries ∧
        Forall (strength_change d entries) (aw_metadata aw)
    | Reject _ => Exists (weakens d) entries
    end.
Proof.
  unfold datastore_transaction_check. intros Hc.
  destruct (get_prefix d "settings." c) as [settings|]; [|done].
  destruct (get_metadata_prefix d "settings." c None) as [md|]; [|done].
  cbn [map_err mbind result_bind] in Hc. exists settings, md. split; [done|]. split; [done|].
  set (entries := flatten_metadata (hm_iter md)) in *. cbn zeta.
  destruct (check_loop d entries []) as [[reason|w]|] eqn:E; [| |done]; cbn in Hc; injection Hc as <-.
  - by eapply check_loop_reject.
  - cbn. split; [done|]. by eapply check_loop_approve; [|constructor|exact E].
Qed.

(** The constraint check of a commit, on any store: it approves exactly the
    pending settings, and only when no pending metadata would weaken a strong
    setting that has a live value; the metadata it approves are the strengths
    that change.  A rejection names a real violation. *)
Lemma transaction_check_sound `{HashOrder} `{SerdeJson} `{DataStore D} (d : D) c r :
  datastore_transaction_check d c = Ok r →
  ∃ settings md,
    get_prefix d "settings." c = Ok settings ∧
    get_metadata_prefix d "settings." c None = Ok md ∧
    let entries := flatten_metadata (hm_iter md) in
    match r with
    | Approve aw =>
        aw_settings aw = settings ∧ Forall (λ e, ¬ weakens d e) entries ∧
        Forall (strength_change d entries) (aw_metadata aw)
    | Reject _ => Exists (weakens d) entries
    end.
Proof. exact (transaction_check_outcome d c r). Qed.

(** Two live strong settings and a transaction that would weaken one of them. *)
Definition strength_key : Key := mk_key "strength" ["strength"].
Definition motd_key : Key := mk_key "settings.motd" ["settings"; "motd"].
Definition example_store (pending_strength : Strength) : MemoryDataStore :=
  mk_memory
    {[ "tx" := {[ ["settings"; "motd"] := (motd_key, "new") ]} ]}
    {[ ["settings"; "motd"] := (motd_key, "old") ]}
    ∅
    {[ ["settings"; "motd"] :=
         (motd_key, {[ ["strength"] :=
            (strength_key, example_to_string (strength_to_json pending_strength)) ]}) ]}.

Lemma transaction_check_sound_witness :
  ∃ settings md,
    @get_prefix example_order _ (@memory_data_store example_order) (example_store Weak)
      "settings." (Pending "tx") = Ok settings ∧
    @get_metadata_prefix example_order _ (@memory_data_store example_order) (example_store Weak)
      "settings." (Pending "tx") None = Ok md ∧
    Exists (@weakens example_json _ (@memory_data_store example_order) (example_store Weak))
      (@flatten_metadata example_order (@hm_iter example_order _ md)).
Proof.
  exact (@transaction_check_sound example_order example_json _ (@memory_data_store example_order)
    (example_store Weak) (Pending "tx")
    (Reject "Cannot change setting settings.motd strength from strong to weak") eq_refl).
Defined.

(** ** Committing on the in-memory store *)

Section memory_commit.
Context `{HashOrder} `{SerdeJson}.

Lemma flatten_metadata_elem (md : key_map (key_map string)) k mk v :
  hm_wf md → (∀ segs kv, md !! segs = Some kv → hm_wf kv.2) → has_meta md k mk v →
  (k, (mk, v)) ∈ flatten_metadata (hm_iter md).
Proof.
  intros Hwf Hwf2 (m & Hm & Hv). unfold flatten_metadata. apply list_elem_of_bind.
  exists (k, m). split.
  - apply list_elem_of_fmap. exists (mk, v). split; [done|]. apply elem_of_hm_iter; [|done].
    by apply (Hwf2 _ _ Hm).
  - by apply elem_of_hm_iter.
Qed.

(** The maps [get_metadata_prefix] builds are filed by segments. *)
Definition meta_wf (md : key_map (key_map string)) : Prop :=
  hm_wf md ∧ ∀ segs kv, md !! segs = Some kv → hm_wf kv.2.

Lemma meta_wf_insert md dk mk v :
  meta_wf md → meta_wf (hm_entry dk ∅ (hm_insert mk v) md).
Proof.
  intros [Hwf Hwf2]. split; [by apply hm_wf_entry|]. intros segs kv. unfold hm_entry.
  destruct (md !! segments dk) as [[k0 m0]|] eqn:E;
    (destruct (decide (segs = segments dk)) as [->|];
      [rewrite lookup_insert_eq; intros [= <-]; cbn|rewrite lookup_insert_ne by done; apply Hwf2]).
  - apply hm_wf_insert. by apply (Hwf2 _ _ E).
  - apply hm_wf_insert, hm_wf_empty.
Qed.

Lemma get_metadata_prefix_wf `{DataStore D} (d : D) p c n md :
  get_metadata_prefix d p c n = Ok md → meta_wf md.
Proof.
  assert (meta_wf ∅) as He by (split; [apply hm_wf_empty|done]).
  unfold get_metadata_prefix. intros Hg. destruct (list_populated_metadata _ _ _ _) as [mm|]; [|done].
  cbn [mbind result_bind] in Hg. case_decide; [by injection Hg as <-|].
  revert Hg He. generalize (∅ : key_map (key_map string)) as res.
  induction (hm_iter mm) as [|[dk mks] l IH]; intros res Hg Hres; cbn in Hg; [by injection Hg as <-|].
  rinv. eapply IH; [exact Hg|]. match goal with H : _ = Ok ?x |- meta_wf ?x => revert H end.
  revert Hres. clear. revert res. induction (hs_iter mks) as [|mk l IH]; intros res Hres Hi;
    cbn in Hi; [by injection Hi as <-|].
  destruct (negb _); [by eapply IH|]. rinv. eapply IH; [|exact Hi]. by apply meta_wf_insert.
Qed.

(** The metadata of a key itself wins over inherited metadata. *)
Lemma mem_get_metadata_own d mk k c m v :
  key_wf k → metadata_to_use d c !! segments k = Some (k, m) →
  hm_get mk m = Some v → get_metadata d mk k c = Ok (Some v).
Proof.
  intros Hk Hm Hv.
  rewrite (get_metadata_inherited d mk k c
    (λ segs, (snd <$> metadata_to_use d c !! segs) ≫= hm_get mk)); [|done|done].
  f_equal. apply inherited_Some. exists (length (segments k) - 1).
  pose proof (wf_ne k Hk) as Hne. assert (0 < length (segments k)) as Hl
    by (destruct (segments k); [done|cbn; lia]).
  split_and!; [lia| |lia]. rewrite take_ge by lia. by rewrite Hm.
Qed.
End memory_commit.

(** On the in-memory store, whose metadata belong to no transaction: pending metadata
    that say "weak" for a strong setting with a live value block every commit. *)
Lemma mem_commit_never_weakens `{HashOrder} `{SerdeJson} d tx k m t value :
  hm_wf (pending_metadata d) → hm_wf m → key_wf k →
  str_starts_with (name k) "settings." = true →
  pending_metadata d !! segments k = Some (k, m) →
  m !! ["strength"] = Some (strength_key, t) → deserialize_strength t = Ok Weak →
  live_strength d strength_key k = Ok Strong → hm_get k (live d) = Some value →
  ∃ why, ctl_commit_transaction tx d = (d, Err (ApiDataStore "commit" (ConstraintCheckReject why))).
Proof.
  intros Hwf Hm Hk Hp Hpm Ht Hweak Hlive Hval.
  unfold ctl_commit_transaction, st_map_err. cbn [commit_transaction memory_data_store].
  unfold mem_commit_transaction, datastore_transaction_check_wrapper, st_read.
  destruct (datastore_transaction_check d (Pending tx)) as [[why|aw]|e] eqn:Ec; [by exists why| |by eexists].
  exfalso. apply transaction_check_outcome in Ec as (settings & md & _ & Hmd & _ & Hno & _).
  destruct (mem_list_metadata_has d "settings." (Pending tx) k m strength_key t)
    as (mm & mks & Hl & Hmm & Hmk & Hmks & Hstr); [done..|].
  destruct (get_metadata_prefix_has d "settings." (Pending tx) None mm md k mks strength_key)
    as (v & Hg & Hhas); [done..|].
  rewrite (mem_get_metadata_own d strength_key k (Pending tx) m t) in Hg; [|done|done|].
  2: { unfold hm_get. cbn [segments strength_key]. by rewrite Ht. }
  injection Hg as <-. rewrite Forall_forall in Hno.
  destruct (get_metadata_prefix_wf _ _ _ _ _ Hmd) as [Hw1 Hw2].
  apply (Hno _ (flatten_metadata_elem md k strength_key t Hw1 Hw2 Hhas)).
  split_and!; [done|done|done|]. exists value. cbn. unfold mem_get_key. cbn. by rewrite Hval.
Qed.

(** C2. A strong setting is not weakened by a commit, on any store that keeps the
    promise of [DataStoreGuard] (the file-system store of the API server and the
    in-memory store do): when the pending metadata of a transaction say "weak" for a
    setting that has a live value and whose live strength is strong (recorded,
    inherited or by default), committing the transaction fails and the store is
    unchanged. *)
Theorem commit_never_weakens `{DataStoreGuard D} `{SerdeJson} (d : D) tx txs md k mk t value :
  list_transactions d = Ok txs → tx ∈ txs →
  get_metadata_prefix d "settings." (Pending tx) None = Ok md → has_meta md k mk t →
  name mk = "strength" → deserialize_strength t = Ok Weak →
  live_strength d mk k = Ok Strong → get_key d k Live = Ok (Some value) →
  ∃ e, ctl_commit_transaction tx d = (d, Err (ApiDataStore "commit" e)).
Proof.
  intros Ht Hin Hmd Hhas Hmk Hweak Hlive Hval. unfold ctl_commit_transaction, st_map_err.
  destruct (ds_commit_refused tx datastore_transaction_check_wrapper d txs
    (datastore_transaction_check d (Pending tx)) Ht Hin eq_refl) as [e ->]; [|by exists e].
  intros aw Ec. apply transaction_check_outcome in Ec as (settings & md' & _ & Hmd' & _ & Hno & _).
  rewrite Hmd in Hmd'. injection Hmd' as <-. rewrite Forall_forall in Hno.
  destruct (get_metadata_prefix_wf _ _ _ _ _ Hmd) as [Hw1 Hw2].
  apply (Hno _ (flatten_metadata_elem md k mk t Hw1 Hw2 Hhas)). split_and!; [done..|]. by exists value.
Qed.

(** A file-system store with a live setting and a transaction that would weaken it. *)
Definition weakening_ops : list store_op :=
  [SetKey example_motd "old" Live; SetKey example_motd "new" (Pending "tx");
   SetMetadata strength_key example_motd (example_to_string (strength_to_json Weak)) (Pending "tx")].
Definition weakening_store : FilesystemDataStore :=
  (st_forM weakening_ops (@run_op example_order example_percent) example_fs).1.

Lemma commit_never_weakens_witness :
  ∃ e, @ctl_commit_transaction example_order example_json _
    (@filesystem_data_store example_order example_percent) "tx" weakening_store
  = (weakening_store, Err (ApiDataStore "commit" e)).
Proof.
  apply (@commit_never_weakens _ example_order (@filesystem_data_store example_order example_percent)
    (@filesystem_data_store_guard example_order example_percent) example_json weakening_store "tx" {[ "tx" ]}
    {[ ["settings"; "motd"] := (example_motd, {[ ["strength"] :=
         (strength_key, example_to_string (strength_to_json Weak)) ]}) ]}
    example_motd strength_key (example_to_string (strength_to_json Weak)) "old").
  - vm_cast_no_check (@eq_refl (result error (gset string)) (Ok {[ "tx" ]})).
  - by apply elem_of_singleton.
  - vm_cast_no_check (@eq_refl (result error (key_map (key_map string)))
      (Ok {[ ["settings"; "motd"] := (example_motd, {[ ["strength"] :=
         (strength_key, example_to_string (strength_to_json Weak)) ]}) ]})).
  - eexists. split; reflexivity.
  - reflexivity.
  - reflexivity.
  - vm_cast_no_check (@eq_refl (result api_error Strength) (Ok Strong)).
  - vm_cast_no_check (@eq_refl (result error (option string)) (Ok (Some "old"))).
Defined.

(** A successful commit on the in-memory store: exactly the settings of the
    transaction become live over the old live data and are reported, the
    transaction is gone and the other transactions are untouched.  The approved
    strengths are not recorded: the live metadata stay as they were. *)
Lemma commit_makes_live `{HashOrder} `{SerdeJson} d tx d' ks :
  mem_inv d → ctl_commit_transaction tx d = (d', Ok ks) →
  let p := filter (λ e, str_starts_with (name e.2.1) "settings." = true)
             (mem_entries d (Pending tx)) in
  ks = fst <$> p ∧ hm_view (live d') = hm_view p ∪ hm_view (live d) ∧
  pending d' = delete tx (pending d) ∧ metadata d' = metadata d.
Proof.
  intros Hd Hc p. unfold ctl_commit_transaction in Hc. apply st_map_err_Ok in Hc.
  cbn [commit_transaction memory_data_store] in Hc.
  destruct (datastore_transaction_check d (Pending tx)) as [[why|aw]|e] eqn:Ec.
  - unfold mem_commit_transaction, datastore_transaction_check_wrapper, st_read in Hc.
    by rewrite Ec in Hc.
  - pose proof Ec as (settings & md & Hs & _ & Haw & _)%transaction_check_outcome. subst settings.
    apply get_prefix_entries in Hs; [|done|exact I]. change (aw_settings aw = p) in Hs.
    assert (hm_wf p) as Hp.
    { intros segs kv [Hkv _]%map_lookup_filter_Some. by apply (mem_entries_wf d (Pending tx) Hd). }
    destruct (mem_commit_approve tx datastore_transaction_check_wrapper d d aw) as (d1 & Hc1 & ? & ? & ? & _).
    + by rewrite Hs.
    + unfold datastore_transaction_check_wrapper, st_read. by rewrite Ec.
    + rewrite Hc1 in Hc. injection Hc as <- <-. by rewrite <-Hs.
  - unfold mem_commit_transaction, datastore_transaction_check_wrapper, st_read in Hc.
    by rewrite Ec in Hc.
Qed.

Lemma commit_makes_live_witness :
  ∃ d', @ctl_commit_transaction example_order example_json _ (@memory_data_store example_order)
          "tx" (example_store Strong) = (d', Ok {[ ["settings"; "motd"] := motd_key ]}) ∧
    hm_view (live d') = {[ ["settings"; "motd"] := "new" ]} ∧ pending d' = ∅.
Proof.
  set (r := @ctl_commit_transaction example_order example_json _ (@memory_data_store example_order)
              "tx" (example_store Strong)).
  assert (r = (fst r, Ok {[ ["settings"; "motd"] := motd_key ]})) as Hr by reflexivity.
  exists (fst r). split; [exact Hr|].
  assert (mem_inv (example_store Strong)) as Hi.
  { split; [apply map_Forall_singleton; reflexivity|].
    apply map_Forall_singleton. apply map_Forall_singleton. reflexivity. }
  destruct (@commit_makes_live example_order example_json (example_store Strong) "tx" (fst r) _ Hi Hr)
    as (_ & Hl & Hp & _).
  split; [rewrite Hl; reflexivity|rewrite Hp; reflexivity].
Defined.

(** ** Expanding generators *)

Section expand.
Context `{HashOrder} `{SerdeJson} `{DataStore D}.

(** The keys a generator on [data_key] with a positive depth is expanded to. *)
Definition expanded (children : key_set) (data_key : Key) (leaf : string) (depth : nat)
    (n : string) : Prop :=
  ∃ segs child, children !! segs = Some child ∧
    length (segments data_key) + depth ≤ length (segments child) ∧
    n = encoded (take (length (segments data_key) + depth - 1) (segments child) ++ [leaf]).

Lemma foldl_insert_names (v : json) l (res : gmap string json) n :
  foldl (λ res child_key, <[name child_key := v]> res) res l !! n =
  if decide (n ∈ name <$> l) then Some v else res !! n.
Proof.
  revert res. induction l as [|k l IH]; intros res; cbn.
  { by rewrite decide_False by apply not_elem_of_nil. }
  rewrite IH. destruct (decide (n ∈ name <$> l)) as [Hl|Hl],
    (decide (n ∈ name k :: (name <$> l))) as [Hk|Hk].
  - done.
  - destruct Hk. by right.
  - apply elem_of_cons in Hk as [->|]; [|done]. apply lookup_insert_eq.
  - apply lookup_insert_ne. intros E. apply Hk. rewrite E. by left.
Qed.

Lemma mapM_id_Ok {A E} (l : list (result E A)) l' :
  mapM id l = Ok l' → l = Ok <$> l'.
Proof.
  revert l'. induction l as [|x l IH]; intros l' Hm; cbn in Hm; [by injection Hm as <-|].
  destruct x as [a|]; [|done]. cbn in Hm. destruct (mapM id l) as [l1|]; [|done].
  injection Hm as <-. cbn. f_equal. by apply IH.
Qed.

Lemma removelast_take {A} (l : list A) n : n ≤ length l → removelast (take n l) = take (n - 1) l.
Proof.
  intros Hn. destruct n as [|n]; [done|].
  destruct (lookup_lt_is_Some_2 l n) as [x Hx]; [lia|].
  rewrite (take_S_r l n x), removelast_last by done. by rewrite Nat.sub_1_r.
Qed.

(** The names of the keys in a successfully computed set of child keys. *)
Lemma child_keys_names (children : key_set) data_key leaf depth l n :
  mapM id (omap (child_key_at (length (segments data_key) + depth) leaf) (hs_iter children))
    = Ok l →
  n ∈ name <$> hs_iter (hs_collect l) ↔ expanded children data_key leaf depth n.
Proof.
  intros Hl%mapM_id_Ok.
  assert (∀ k, k ∈ l ↔ ∃ child, child ∈ hs_iter children ∧
    child_key_at (length (segments data_key) + depth) leaf child = Some (Ok k)) as Hin.
  { intros k. rewrite <-list_elem_of_omap, Hl. split.
    - intros. by apply list_elem_of_fmap_2.
    - intros (? & [= <-] & ?)%list_elem_of_fmap. done. }
  assert (∀ k, k ∈ l → k = mk_key (encoded (segments k)) (segments k)) as Hcanon.
  { intros k (child & _ & Hc)%Hin. unfold child_key_at in Hc.
    destruct (slice_to _ _); [|done]. cbn in Hc. injection Hc as Hc. rinv.
    match goal with H : from_segments _ _ = _ |- _ =>
      apply from_segments_Data in H as (_ & _ & _ & ->) end. done. }
  assert (∀ k, k ∈ hs_iter (hs_collect l) ↔ k ∈ l) as Hset.
  { intros k. unfold hs_iter. rewrite elem_of_hash_iter.
    setoid_rewrite hs_collect_canonical; [naive_solver|].
    intros k1 k2 H1k H2k E. rewrite (Hcanon k1 H1k), (Hcanon k2 H2k). by rewrite E. }
  rewrite list_elem_of_fmap. setoid_rewrite Hset. setoid_rewrite Hin. split.
  - intros (k & -> & child & Hc & Hk).
    apply elem_of_hash_iter in Hc as [segs Hc]. exists segs, child. split; [done|].
    unfold child_key_at, slice_to in Hk.
    destruct (Nat.leb_spec (length (segments data_key) + depth) (length (segments child)));
      [|done]. cbn [mbind option_bind] in Hk. split; [done|]. injection Hk as Hk. rinv.
    match goal with H : from_segments _ _ = _ |- _ =>
      apply from_segments_Data in H as (_ & _ & _ & ->) end.
    cbn [name]. by rewrite removelast_take.
  - intros (segs & child & Hc & Hle & ->).
    assert (child ∈ hs_iter children) as Hci by (apply elem_of_hash_iter; by eexists).
    assert (∃ r, child_key_at (length (segments data_key) + depth) leaf child = Some r) as [r Hr].
    { unfold child_key_at, slice_to. destruct (Nat.leb_spec (length (segments data_key) + depth)
        (length (segments child))); [by eexists|lia]. }
    assert (r ∈ Ok <$> l) as (k & -> & Hk)%list_elem_of_fmap.
    { rewrite <-Hl. apply list_elem_of_omap. by exists child. }
    exists k. split; [|by exists child]. unfold child_key_at, slice_to in Hr.
    destruct (Nat.leb_spec (length (segments data_key) + depth) (length (segments child)));
      [|lia]. cbn [mbind option_bind] in Hr. injection Hr as Hr. rinv.
    match goal with H : from_segments _ _ = _ |- _ =>
      apply from_segments_Data in H as (_ & _ & _ & ->) end.
    cbn [name]. by rewrite removelast_take.
Qed.
End expand.

(** [expand_setting_generator]: with depth 0 the generator is recorded for
    its own key; with a positive depth it is recorded for exactly the keys got
    from the live keys listed under the parent's name by cutting them at the
    target depth and putting the leaf of the generator's key at the end.  All
    other entries of the result are kept. *)
Lemma expand_setting_generator_result `{HashOrder} `{SerdeJson} `{DataStore D} (d : D)
    data_key g res res' n :
  expand_setting_generator d data_key g res = Ok res' →
  let value := settings_generator_to_json (settings_generator_from g) in
  if decide (raw_depth g = 0%Z)
  then res' = <[name data_key := value]> res
  else ∃ leaf parent children,
    last (segments data_key) = Some leaf ∧
    from_segments Data (take (length (segments data_key) - 1) (segments data_key)) = Ok parent ∧
    list_populated_keys d (name parent) Live = Ok children ∧
    (expanded children data_key leaf (Z.to_nat (raw_depth g)) n → res' !! n = Some value) ∧
    (¬ expanded children data_key leaf (Z.to_nat (raw_depth g)) n → res' !! n = res !! n).
Proof.
  intros He value. unfold expand_setting_generator in He. fold value in He.
  destruct (Z.eqb_spec (raw_depth g) 0) as [Hz|Hz].
  { rewrite decide_True by done. by injection He as <-. }
  rewrite decide_False by done. rinv.
  match goal with H : mapM id _ = Ok ?l, Hn : last _ = Some ?leaf |- _ =>
    pose proof (child_keys_names _ data_key leaf _ l n H) as Hnames end.
  do 3 eexists. split_and!; [eassumption..| |].
  - intros Hx. rewrite foldl_insert_names, decide_True; [done|]. by apply Hnames.
  - intros Hx. rewrite foldl_insert_names, decide_False; [done|]. by rewrite Hnames.
Qed.

(** Three live settings: one is a sibling whose name merely starts with the text
    of the parent's name. *)
Definition generator_store : MemoryDataStore :=
  mk_memory ∅
    (hm_collect ((λ segs, (mk_key (encoded segs) segs, "1")) <$>
       [["settings"; "hc"; "admin"; "enabled"]; ["settings"; "hcx"; "y"; "z"]]))
    ∅ ∅.

Lemma expand_setting_generator_result_witness :
  let g := mk_raw "cmd" Weak 1 in
  let k := mk_key "settings.hc.source" ["settings"; "hc"; "source"] in
  let value := JObject [("command", JString "cmd"); ("strength", JString "weak")] in
  ∃ res', @expand_setting_generator example_order _ (@memory_data_store example_order)
    generator_store k g ∅ = Ok res' ∧
  res' !! "settings.hc.admin.source" = Some value.
Proof.
  intros g k value.
  assert (is_ok (@expand_setting_generator example_order _ (@memory_data_store example_order)
    generator_store k g ∅) = true) as Hok by (vm_compute; reflexivity).
  destruct (@expand_setting_generator example_order _ (@memory_data_store example_order)
    generator_store k g ∅) as [res'|e] eqn:E; [|discriminate Hok].
  exists res'. split; [reflexivity|].
  pose proof (@expand_setting_generator_result example_order example_json _
    (@memory_data_store example_order) generator_store k g ∅ res'
    "settings.hc.admin.source" E) as Hw.
  cbn zeta in Hw. rewrite decide_False in Hw by (intros [=]).
  destruct Hw as (leaf & parent & children & Hleaf & Hpar & Hch & Hyes & _).
  injection Hleaf as <-.
  assert (ok (from_segments Data ["settings"; "hc"]) = Some parent) as Hpar2
    by (by change (from_segments Data ["settings"; "hc"] = Ok parent) in Hpar; rewrite Hpar).
  assert (parent = mk_key "settings.hc" ["settings"; "hc"]) as -> by (symmetry; by injection Hpar2).
  assert (ok (list_populated_keys generator_store "settings.hc" Live) = Some children) as Hch2
    by (cbn [name] in Hch; by rewrite Hch).
  apply Hyes. exists ["settings"; "hc"; "admin"; "enabled"].
  exists (mk_key "settings.hc.admin.enabled" ["settings"; "hc"; "admin"; "enabled"]).
  split; [|split; [vm_compute; lia|vm_compute; reflexivity]].
  change (Some children ≫= lookup ["settings"; "hc"; "admin"; "enabled"] =
          Some (mk_key "settings.hc.admin.enabled" ["settings"; "hc"; "admin"; "enabled"])).
  rewrite <-Hch2. vm_compute. reflexivity.
Defined.

(** The listing compares names as text, so the sibling [settings.hcx] is expanded
    as if it were below [settings.hc]. *)
Example expand_reaches_siblings :
  match @expand_setting_generator example_order _ (@memory_data_store example_order)
          generator_store (mk_key "settings.hc.source" ["settings"; "hc"; "source"])
          (mk_raw "cmd" Weak 1) ∅ with
  | Ok res => bool_decide (is_Some (res !! "settings.hcx.y.source"))
  | Err _ => false
  end = true.
Proof. vm_compute. reflexivity. Qed.
