(* ===== verification/ApiServer.v ===== *)
(** * The API server's handlers ([sources/api/apiserver/src/server/mod.rs])

    From a request's query string and body to the controller and back to a response
    or an error with its HTTP status.  The state of the server is the data store
    behind its lock; the settings appliers that a request starts are recorded.

    The router, the extraction of queries and bodies and the text of responses are
    actix's.  Handlers that only start a process (updates, reports, reboot,
    lockdown, network, ephemeral storage) are not modelled. *)
From S2P Require Import Prelude DsError Key Json KeyMap Serialization Deserialization DataStore Memory Generator Controller.
From Stdlib Require Import Ascii.
From stdpp Require Import base list strings gmap.
From stdpp Require Import options.

(** ** Definitions *)

(** [server::error::Error]; the controller's variants are those of [api_error]. *)
Inductive server_error :=
| MissingInput (input : string)
| EmptyInput (input : string)
| DataStoreLock
| ResponseSerialization
| CommitWithNoPending
| ReleaseData
| ControllerError (e : api_error)
| DeserializeMap (source : de_error)
| InvalidPrefix (prefix : string) (source : error)
| InvalidStrength (strength : string)
| ConfigApplierStart
| DeserializeJson
| DisallowStrongToWeakStrength (key : string)
(** Not a variant: an index out of bounds. *)
| ServerPanic.

(** [error_response]: the status of an error. *)
Definition error_status (e : server_error) : Z :=
  match e with
  | MissingInput _ | EmptyInput _ | DeserializeMap _ | InvalidPrefix _ _ | InvalidStrength _
  | DeserializeJson | DisallowStrongToWeakStrength _ => 400
  | CommitWithNoPending => 422
  | DataStoreLock | ResponseSerialization | ReleaseData | ConfigApplierStart | ServerPanic => 500
  | ControllerError e =>
      match e with
      | NewKey _ _ _ | ApiSerialize | InvalidKeyPair _ | DeserializeStrength => 400
      | MissingData _ | ApiListKeys _ => 404
      | ApiDataStore _ _ | ApiDeserialization _ _ | SettingsToJson | DataStoreSerialization _ _
      | InvalidMetadata _ _ | DeserializeSettingsGenerator => 500
      end
  end.

(** [web::Query<HashMap<String, String>>]. *)
Abbreviation query := (gmap string string).

(** The model's types besides the settings: a service and a configuration file, the
    maps of them, and their JSON. *)
Class ApiTypes := {
  Service : Type;
  File : Type;
  services_deserialize :: Deserialize (gmap string Service);
  service_deserialize :: Deserialize Service;
  files_deserialize :: Deserialize (gmap string File);
  file_deserialize :: Deserialize File;
  services_to_json : gmap string Service → json;
  files_to_json : gmap string File → json }.

(** [f64::from] of a 64-bit integer, as the bits of the result. *)
Class Float64 := { f64_of_int : Z → Z }.

(** *** Helpers *)

Definition comma_separated (key_name input : string) : result server_error (gset string) :=
  if str_is_empty input then Err (EmptyInput key_name)
  else Ok (list_to_set (str_split "," input)).

Definition transaction_name (q : query) : string := default "default" (q !! "tx").

Definition query_strength (q : query) : result server_error Strength :=
  match q !! "strength" with
  | Some strength =>
      map_err (λ _, InvalidStrength strength) (strength_of_json (JString strength))
  | None => Ok strength_default
  end.

(** The prefix that a path implies is added when the request does not start with
    its name. *)
Definition with_prefix (what prefix : string) : string :=
  if negb (str_starts_with prefix what) then what +:+ "." +:+ prefix else prefix.

Section massage.
Context `{HashOrder} `{SerdeJson} `{Float64}.

(** The value that is stored for the text of an input. *)
Definition massaged (in_val : string) : json :=
  match json_from_str in_val with
  | Ok (JBool b) => JBool b
  | Ok (JNumber (PosInt u)) => JNumber (PosInt u)
  | Ok (JNumber (NegInt n)) => JNumber (Float (f64_of_int n))
  | Ok (JNumber (Float f)) => JNumber (Float f)
  | _ => JString in_val
  end.

Fixpoint massage_loop (input : list (Key * string)) (massaged_map : key_map string) :
    result server_error (key_map string) :=
  match input with
  | [] => Ok massaged_map
  | (key, in_val) :: input =>
      let? serialized := map_err (λ _, ControllerError ApiSerialize) (serialize_scalar (massaged in_val)) in
      massage_loop input (hm_insert key serialized massaged_map)
  end.

Definition massage_set_input (input_map : key_map string) : result server_error (key_map string) :=
  massage_loop (hm_iter input_map) ∅.

(** One [key=value] of a request. *)
Definition parse_key_pair (settings_key_pair : string) : result server_error (Key * string) :=
  match str_splitn2 "=" settings_key_pair with
  | (_, None) => Err (ControllerError (InvalidKeyPair settings_key_pair))
  | (raw_key, Some value) =>
      let? key := map_err (InvalidPrefix raw_key) (key_new Data raw_key) in
      let? key_prefix := ok_or (head (segments key)) ServerPanic in
      if negb (bool_decide (key_prefix = "settings")) then
        let? key := map_err (InvalidPrefix raw_key) (from_segments Data ("settings" :: segments key)) in
        Ok (key, value)
      else Ok (key, value)
  end.

Fixpoint key_pair_loop (settings_key_pair_vec : list string) (settings_key_pair_map : key_map string) :
    result server_error (key_map string) :=
  match settings_key_pair_vec with
  | [] => Ok settings_key_pair_map
  | settings_key_pair :: settings_key_pair_vec =>
      let? kv := parse_key_pair settings_key_pair in
      key_pair_loop settings_key_pair_vec (hm_insert kv.1 kv.2 settings_key_pair_map)
  end.

Definition construct_key_pair_map (settings_key_pair_vec : list string) :
    result server_error (key_map string) :=
  let? m := key_pair_loop settings_key_pair_vec ∅ in massage_set_input m.
End massage.

(** *** The server *)

(** [ds] is the data store, [poisoned] says whether a panic poisoned its lock, and
    [applied] are the key sets that settings appliers were started for. *)
Record Server (D : Type) := mk_server {
  ds : D;
  poisoned : bool;
  applied : list (option (gset string)) }.
Arguments mk_server {D}.
Arguments ds {D}.
Arguments poisoned {D}.
Arguments applied {D}.

Section server.
Context `{HashOrder} `{SerdeJson} `{Float64} `{ApiTypes} `{DataStore D} `{SettingsModel Settings}.
Abbreviation SV := (stres (Server D) server_error).

(** A handler under the read lock, and under the write lock. *)
Definition with_read {A} (f : D → result server_error A) : SV A := λ s,
  if poisoned s then (s, Err DataStoreLock) else (s, f (ds s)).
Definition with_write {A} (m : stres D server_error A) : SV A := λ s,
  if poisoned s then (s, Err DataStoreLock)
  else let '(d, r) := m (ds s) in (mk_server d (poisoned s) (applied s), r).

Definition ctl {A} (r : result api_error A) : result server_error A := map_err ControllerError r.

(** The JSON of a [Model]: fields that are [None] are left out. *)
Definition model_to_json (settings : option json) (services files os : option json) : json :=
  JObject (omap (λ kv, match kv.2 with Some v => Some (kv.1, v) | None => None end)
    [("settings", settings); ("services", services); ("configuration-files", files); ("os", os)]).

Inductive response :=
| ModelResponse (v : json)
| SettingsResponse (s : Settings)
| SettingsResponseWithMetadata (s : Settings) (metadata : gmap string (gmap string string))
| TransactionListResponse (txs : gset string)
| ChangedKeysResponse (keys : key_set)
| MetadataResponse (m : gmap string json)
| ServicesResponse (m : gmap string Service)
| ConfigurationFilesResponse (m : gmap string File)
| BottlerocketReleaseResponse (v : json)
| NoContent.

(** [controller::get_os_info] and [get_os_prefix] read release files;
    [start_applier] starts the settings applier. *)
Variable os_info : result api_error json.
Variable os_prefix : string → result api_error (option json).
Variable start_applier : option (gset string) → bool.

(** [serde_json::to_value] of the settings, which the code expects to work. *)
Definition settings_value (s : Settings) : result server_error json :=
  map_err (λ _, ServerPanic) (settings_to_json s).

Definition get_model_prefix (prefix : string) : SV response :=
  if str_is_empty prefix then st_lift (Err (EmptyInput "prefix"))
  else with_read (λ datastore,
    let? settings := ctl (get_settings_prefix datastore prefix Live) in
    let? services := ctl (get_services_prefix (T := gmap string Service) datastore prefix) in
    let? files := ctl (get_configuration_files_prefix (T := gmap string File) datastore prefix) in
    let? settings := match settings with
                     | Some s => let? v := settings_value s in Ok (Some v)
                     | None => Ok None
                     end in
    let? os := ctl (os_prefix prefix) in
    Ok (ModelResponse (model_to_json settings (services_to_json <$> services) (files_to_json <$> files) os))).

Definition get_model (q : query) : SV response :=
  match q !! "prefix" with
  | Some prefix => get_model_prefix prefix
  | None => with_read (λ datastore,
      let? settings := ctl (get_settings datastore Live) in
      let? services := ctl (get_services (T := gmap string Service) datastore) in
      let? files := ctl (get_configuration_files (T := gmap string File) datastore) in
      let? os := map_err (λ _, ReleaseData) os_info in
      let? settings := settings_value settings in
      Ok (ModelResponse (model_to_json (Some settings) (Some (services_to_json services))
                           (Some (files_to_json files)) (Some os))))
  end.

Definition handle_get_settings (q : query) : SV response :=
  with_read (λ datastore,
    let? settings :=
      match q !! "keys", q !! "prefix" with
      | Some keys_str, _ =>
          let? keys := comma_separated "keys" keys_str in
          ctl (get_settings_keys datastore keys Live)
      | None, Some prefix =>
          let? _ := ensure (negb (str_is_empty prefix)) (EmptyInput "prefix") in
          let? o := ctl (get_settings_prefix datastore (with_prefix "settings" prefix) Live) in
          Ok (default settings_default o)
      | None, None => ctl (get_settings datastore Live)
      end in
    Ok (SettingsResponse settings)).

Definition patch_settings (settings : Settings) (q : query) : SV response :=
  let! strength := st_lift (query_strength q) in
  let! _ := with_write (st_map_err ControllerError (set_settings settings (transaction_name q) strength)) in
  st_ret NoContent.

Definition patch_settings_key_pair (request_payload : list string) (q : query) : SV response :=
  let! settings_key_pair_map := st_lift (construct_key_pair_map request_payload) in
  let! strength := st_lift (query_strength q) in
  let! _ := with_write (
    let! settings_model := st_lift (map_err DeserializeMap (from_map settings_key_pair_map)) in
    st_map_err ControllerError (set_settings settings_model (transaction_name q) strength)) in
  st_ret NoContent.

Definition get_transaction_list : SV response :=
  with_read (λ datastore, let? data := ctl (ctl_list_transactions datastore) in
                          Ok (TransactionListResponse data)).

Definition handle_get_transaction (q : query) : SV response :=
  with_read (λ datastore, let? data := ctl (get_transaction datastore (transaction_name q)) in
                          Ok (SettingsResponse data)).

Definition get_transaction_v2 (q : query) : SV response :=
  with_read (λ datastore,
    let? settings := ctl (get_transaction datastore (transaction_name q)) in
    let? metadata := ctl (get_transaction_metadata datastore (transaction_name q) None) in
    Ok (SettingsResponseWithMetadata settings metadata)).

Definition handle_delete_transaction (q : query) : SV response :=
  let! deleted := with_write (st_map_err ControllerError (ctl_delete_transaction (transaction_name q))) in
  st_ret (ChangedKeysResponse deleted).

(** The commit that [commit_transaction] and [commit_transaction_and_apply] share. *)
Definition commit_changes (q : query) : SV key_set :=
  with_write (
    let! changes := st_map_err ControllerError (ctl_commit_transaction (transaction_name q)) in
    let! _ := st_lift (ensure (negb (bool_decide (changes = ∅))) CommitWithNoPending) in
    st_ret changes).

Definition handle_commit_transaction (q : query) : SV response :=
  let! changes := commit_changes q in
  st_ret (ChangedKeysResponse changes).

(** [controller::apply_changes]. *)
Definition apply_keys (keys : option (gset string)) : SV () := λ s,
  if start_applier keys then (mk_server (ds s) (poisoned s) (applied s ++ [keys]), Ok tt)
  else (s, Err ConfigApplierStart).

Definition apply_changes (q : query) : SV response :=
  let! keys := st_lift match q !! "keys" with
                       | Some keys_str => let? keys := comma_separated "keys" keys_str in Ok (Some keys)
                       | None => Ok None
                       end in
  let! _ := apply_keys keys in
  st_ret NoContent.

Definition commit_transaction_and_apply (q : query) : SV response :=
  let! changes := commit_changes q in
  let key_names : gset string := list_to_set (name <$> hs_iter changes) in
  let! _ := apply_keys (Some key_names) in
  st_ret (ChangedKeysResponse changes).

Definition handle_get_os_info (q : query) : SV response :=
  st_lift (
    let? os :=
      match q !! "prefix" with
      | Some prefix =>
          let? _ := ensure (negb (str_is_empty prefix)) (EmptyInput "prefix") in
          let? o := ctl (os_prefix (with_prefix "os" prefix)) in
          Ok (default (JObject []) o)
      | None => map_err (λ _, ReleaseData) os_info
      end in
    Ok (BottlerocketReleaseResponse os)).

(** [get_affected_services] and [get_templates], which differ in the metadata key. *)
Definition get_metadata_of (md_key : string) (q : query) : SV response :=
  match q !! "keys" with
  | Some keys_str =>
      let! data_keys := st_lift (comma_separated "keys" keys_str) in
      with_read (λ datastore, let? resp := ctl (get_metadata_for_data_keys datastore md_key data_keys) in
                              Ok (MetadataResponse resp))
  | None => st_lift (Err (MissingInput "keys"))
  end.
Definition get_affected_services : query → SV response := get_metadata_of "affected-services".
Definition get_templates : query → SV response := get_metadata_of "template".

(** The strong generators, as their commands. *)
Fixpoint strong_generators (metadata_for_keys : list (string * json)) (resp : gmap string json) :
    result server_error (gmap string json) :=
  match metadata_for_keys with
  | [] => Ok resp
  | (key, value) :: metadata_for_keys =>
      let? setting_generator := map_err (λ _, ControllerError DeserializeSettingsGenerator)
                                  (raw_settings_generator_of_json value) in
      strong_generators metadata_for_keys
        (if bool_decide (raw_strength setting_generator = Strong)
         then <[key := JString (raw_command setting_generator)]> resp else resp)
  end.

Definition get_setting_generators : SV response :=
  with_read (λ datastore,
    let? metadata_for_keys := ctl (get_settings_generator_metadata datastore "setting-generator") in
    let? resp := strong_generators (map_to_list metadata_for_keys) ∅ in
    Ok (MetadataResponse resp)).

Definition get_setting_generators_v2 : SV response :=
  with_read (λ datastore,
    let? resp := ctl (get_settings_generator_metadata datastore "setting-generator") in
    Ok (MetadataResponse resp)).

Definition handle_get_services (q : query) : SV response :=
  with_read (λ datastore,
    let? resp :=
      match q !! "names", q !! "prefix" with
      | Some names_str, _ =>
          let? names := comma_separated "names" names_str in
          ctl (get_services_names (T := Service) datastore names Live)
      | None, Some prefix =>
          let? _ := ensure (negb (str_is_empty prefix)) (EmptyInput "prefix") in
          let? o := ctl (get_services_prefix (T := gmap string Service) datastore
                           (with_prefix "services" prefix)) in
          Ok (default ∅ o)
      | None, None => ctl (get_services (T := gmap string Service) datastore)
      end in
    Ok (ServicesResponse resp)).

Definition handle_get_configuration_files (q : query) : SV response :=
  with_read (λ datastore,
    let? resp :=
      match q !! "names", q !! "prefix" with
      | Some names_str, _ =>
          let? names := comma_separated "names" names_str in
          ctl (get_configuration_files_names (T := File) datastore names Live)
      | None, Some prefix =>
          let? _ := ensure (negb (str_is_empty prefix)) (EmptyInput "prefix") in
          let? o := ctl (get_configuration_files_prefix (T := gmap string File) datastore
                           (with_prefix "configuration-files" prefix)) in
          Ok (default ∅ o)
      | None, None => ctl (get_configuration_files (T := gmap string File) datastore)
      end in
    Ok (ConfigurationFilesResponse resp)).

(** The routes of the application. *)
Inductive request :=
| GetModel (q : query)
| GetSettings (q : query)
| PatchSettings (settings : Settings) (q : query)
| PatchKeyPairs (request_payload : list string) (q : query)
| GetTransactionList
| GetTransaction (q : query)
| GetTransactionV2 (q : query)
| DeleteTransaction (q : query)
| CommitTransaction (q : query)
| ApplyChanges (q : query)
| CommitAndApply (q : query)
| GetOs (q : query)
| GetAffectedServices (q : query)
| GetSettingGenerators
| GetSettingGeneratorsV2
| GetTemplates (q : query)
| GetServices (q : query)
| GetConfigurationFiles (q : query).

Definition handle (r : request) : SV response :=
  match r with
  | GetModel q => get_model q
  | GetSettings q => handle_get_settings q
  | PatchSettings settings q => patch_settings settings q
  | PatchKeyPairs payload q => patch_settings_key_pair payload q
  | GetTransactionList => get_transaction_list
  | GetTransaction q => handle_get_transaction q
  | GetTransactionV2 q => get_transaction_v2 q
  | DeleteTransaction q => handle_delete_transaction q
  | CommitTransaction q => handle_commit_transaction q
  | ApplyChanges q => apply_changes q
  | CommitAndApply q => commit_transaction_and_apply q
  | GetOs q => handle_get_os_info q
  | GetAffectedServices q => get_affected_services q
  | GetSettingGenerators => get_setting_generators
  | GetSettingGeneratorsV2 => get_setting_generators_v2
  | GetTemplates q => get_templates q
  | GetServices q => handle_get_services q
  | GetConfigurationFiles q => handle_get_configuration_files q
  end.

(** A sequence of requests, and the responses. *)
Fixpoint serve (rs : list request) (s : Server D) : Server D * list (result server_error response) :=
  match rs with
  | [] => (s, [])
  | r :: rs =>
      let '(s, resp) := handle r s in
      let '(s, resps) := serve rs s in
      (s, resp :: resps)
  end.
End server.

(** ** Commits on any store *)

Lemma ctl_commit_outcome `{DataStoreTx D} `{SerdeJson} tx (d d' : D) keys :
  ds_inv d → ds_committed (D := D) (Pending tx) → ctl_commit_transaction tx d = (d', Ok keys) →
  (keys = ∅ ∧ d' = d ∧ ds_entries d (Pending tx) = ∅) ∨
  (let staged := filter (λ e, str_starts_with (name e.2.1) "settings." = true) (ds_entries d (Pending tx)) in
   keys = fst <$> staged ∧ ds_inv d' ∧
   hm_view (ds_entries d' Live) = hm_view staged ∪ hm_view (ds_entries d Live) ∧
   ds_entries d' (Pending tx) = ∅ ∧
   ∀ c, ds_committed (D := D) c → c ≠ Live → c ≠ Pending tx → ds_entries d' c = ds_entries d c).
Proof.
  intros Hd Hcm Hc. unfold ctl_commit_transaction in Hc. apply st_map_err_Ok in Hc.
  eapply ds_commit in Hc as [Hc|(aw & Er & Hc)]; [by left| |done|done|reflexivity].
  right. apply transaction_check_outcome in Er as (settings & md & Hs & Hmd & Haws & _ & Haw).
  pose proof (get_metadata_prefix_keys _ _ _ _ _ Hd Hcm Hmd) as Hk.
  apply get_prefix_entries in Hs; [|done|done]. cbv zeta. rewrite <- Haws in Hs. rewrite <- Hs. apply Hc.
  - rewrite Hs. intros segs kv [Hkv _]%map_lookup_filter_Some. by apply (ds_entries_wf d (Pending tx) Hd).
  - rewrite Hs. intros segs k v [Hkv _]%map_lookup_filter_Some. by eapply ds_entries_key.
  - eapply Forall_impl; [exact Haw|]. intros w (t & ? & ? & Hin & _).
    apply list_elem_of_bind in Hin as ([dk m] & Hin & [segs Hm]%elem_of_hash_iter).
    apply list_elem_of_fmap in Hin as (kv & [= -> _] & _). exact (Hk _ _ Hm).
Qed.

(** ** The lock *)

Lemma with_write_Ok {D A} (m : stres D server_error A) (s s' : Server D) a :
  with_write m s = (s', Ok a) ↔
  poisoned s = false ∧ ∃ d', m (ds s) = (d', Ok a) ∧ s' = mk_server d' false (applied s).
Proof.
  unfold with_write. destruct s as [d [] ap]; cbn; [split; [done|by intros [? _]]|].
  destruct (m d) as [d1 r]. split; [|by intros (_ & ? & [= -> ->] & ->)].
  intros [= <- ->]. split; [done|]. by exists d1.
Qed.

Lemma with_read_Ok {D A} (f : D → result server_error A) (s s' : Server D) a :
  with_read f s = (s', Ok a) ↔ s' = s ∧ poisoned s = false ∧ f (ds s) = Ok a.
Proof.
  unfold with_read. destruct s as [d [] ap]; cbn; [split; [done|by intros (_ & ? & _)]|].
  split; [by intros [= <- ->]|by intros (-> & _ & ->)].
Qed.

(** ** What each request does *)

Section effects.
Context `{Htx : DataStoreTx D} `{SerdeJson} `{Float64} `{ApiTypes} `{SettingsModel Settings}.
Implicit Types (d : D) (s : Server D).

(** The live data and the transactions other than [tx] are kept. *)
Definition keeps_others (tx : string) d d' : Prop :=
  ∀ c, ds_committed (D := D) c → c ≠ Pending tx → ds_entries d' c = ds_entries d c.

(** The settings, as pairs, go over what the transaction holds. *)
Definition stages (settings : Settings) (tx : string) d d' : Prop :=
  ∃ v pairs, settings_to_json settings = Ok v ∧ to_pairs_with_prefix "settings" v = Ok pairs ∧
    hm_view (ds_entries d' (Pending tx)) = hm_view pairs ∪ hm_view (ds_entries d (Pending tx)) ∧
    keeps_others tx d d'.

(** The settings of the transaction go over the live data, and the transaction is
    emptied. *)
Definition publishes (tx : string) d d' (keys : key_set) : Prop :=
  let staged := filter (λ e, str_starts_with (name e.2.1) "settings." = true) (ds_entries d (Pending tx)) in
  keys ≠ ∅ ∧ keys = fst <$> staged ∧
  hm_view (ds_entries d' Live) = hm_view staged ∪ hm_view (ds_entries d Live) ∧
  ds_entries d' (Pending tx) = ∅ ∧
  ∀ c, ds_committed (D := D) c → c ≠ Live → c ≠ Pending tx → ds_entries d' c = ds_entries d c.

(** What a request that succeeds does to the server, and what it answers. *)
Definition request_effect (r : request (Settings := Settings)) s s' (resp : response (Settings := Settings)) : Prop :=
  match r with
  | PatchSettings settings q =>
      resp = NoContent ∧ stages settings (transaction_name q) (ds s) (ds s') ∧ applied s' = applied s
  | PatchKeyPairs payload q =>
      resp = NoContent ∧ applied s' = applied s ∧
      ∃ pairs settings, construct_key_pair_map payload = Ok pairs ∧ from_map pairs = Ok settings ∧
        stages settings (transaction_name q) (ds s) (ds s')
  | DeleteTransaction q =>
      ds_entries (ds s') (Pending (transaction_name q)) = ∅ ∧
      keeps_others (transaction_name q) (ds s) (ds s') ∧ applied s' = applied s
  | CommitTransaction q =>
      ∃ keys, resp = ChangedKeysResponse keys ∧ publishes (transaction_name q) (ds s) (ds s') keys ∧
        applied s' = applied s
  | CommitAndApply q =>
      ∃ keys, resp = ChangedKeysResponse keys ∧ publishes (transaction_name q) (ds s) (ds s') keys ∧
        applied s' = applied s ++ [Some (list_to_set (name <$> hs_iter keys))]
  | ApplyChanges q =>
      ds s' = ds s ∧
      ∃ keys, applied s' = applied s ++ [keys] ∧
        match q !! "keys", keys with
        | Some keys_str, Some keys => keys_str ≠ EmptyString ∧ keys = list_to_set (str_split "," keys_str)
        | None, None => True
        | _, _ => False
        end
  | _ => s' = s
  end.

(** The transaction that a request writes. *)
Definition written_tx (r : request (Settings := Settings)) : option string :=
  match r with
  | PatchSettings _ q | PatchKeyPairs _ q | DeleteTransaction q | CommitTransaction q
  | CommitAndApply q => Some (transaction_name q)
  | _ => None
  end.
Definition is_commit (r : request (Settings := Settings)) : bool :=
  match r with CommitTransaction _ | CommitAndApply _ => true | _ => false end.

Variable os_info : result api_error json.
Variable os_prefix : string → result api_error (option json).
Variable start_applier : option (gset string) → bool.
Hypothesis Hkey : ∀ k, proper_key k → ds_key (D := D) k.

Lemma set_settings_stages settings tx strength d d' u :
  ds_committed (D := D) (Pending tx) → ds_inv d → set_settings settings tx strength d = (d', Ok u) →
  ds_inv d' ∧ stages settings tx d d'.
Proof using Hkey.
  intros Hcm Hd Hs. apply set_settings_pending in Hs as (v & pairs & ? & ? & ? & ? & ?); [|done..].
  split; [done|]. by exists v, pairs.
Qed.

Lemma commit_changes_publishes q s s' keys :
  ds_committed (D := D) (Pending (transaction_name q)) → ds_inv (ds s) →
  commit_changes q s = (s', Ok keys) →
  ds_inv (ds s') ∧ publishes (transaction_name q) (ds s) (ds s') keys ∧ applied s' = applied s.
Proof using Htx.
  intros Hcm Hd (_ & d' & Hc & ->)%with_write_Ok. sinv. injection Hc as <- <-. cbn.
  match goal with H : _ = true |- _ => apply negb_true_iff, bool_decide_eq_false in H as Hne end.
  match goal with H : ctl_commit_transaction _ _ = _ |- _ =>
    apply ctl_commit_outcome in H as [(-> & _)|(-> & Hd' & Hc)]; [done| |done..] end.
  by repeat split; try apply Hc.
Qed.

Lemma apply_keys_Ok keys s s' u :
  apply_keys start_applier keys s = (s', Ok u) → ds s' = ds s ∧ applied s' = applied s ++ [keys].
Proof. unfold apply_keys. destruct (start_applier keys); [|done]. by intros [= <- _]. Qed.

(** A successful request that reads changes nothing. *)
Lemma reads_keep r s s' resp :
  handle os_info os_prefix start_applier r s = (s', Ok resp) → written_tx r = None → (∀ q, r ≠ ApplyChanges q) → s' = s.
Proof.
  destruct r; cbn [handle written_tx]; intros Hh Hw Hn; try done; try by destruct (Hn q).
  all: try by apply with_read_Ok in Hh as [-> _].
  - unfold get_model, get_model_prefix in Hh. destruct (q !! "prefix"); [destruct (str_is_empty _); [done|]|];
      by apply with_read_Ok in Hh as [-> _].
  - by injection Hh as <- _.
  - unfold get_affected_services, get_metadata_of in Hh. destruct (q !! "keys"); [|done].
    rinv. sinv. by match goal with H : with_read _ _ = _ |- _ => apply with_read_Ok in H as [-> _] end.
  - unfold get_templates, get_metadata_of in Hh. destruct (q !! "keys"); [|done].
    rinv. sinv. by match goal with H : with_read _ _ = _ |- _ => apply with_read_Ok in H as [-> _] end.
Qed.

(** The transactions of the requests are ones the store is used with. *)
Definition tx_ok (r : request (Settings := Settings)) : Prop :=
  ∀ tx, written_tx r = Some tx → ds_committed (D := D) (Pending tx).

Lemma request_outcome r s s' resp :
  ds_inv (ds s) → tx_ok r → handle os_info os_prefix start_applier r s = (s', Ok resp) →
  ds_inv (ds s') ∧ request_effect r s s' resp.
Proof using Hkey Htx.
  intros Hd Htxr Hh. destruct (written_tx r) as [tx|] eqn:Ew.
  { pose proof (Htxr tx Ew) as Hcm. clear Htxr. destruct r; cbn in Ew; simplify_eq; cbn [handle] in Hh.
    - unfold patch_settings in Hh. sinv. injection Hh as <- <-.
      match goal with H : with_write _ _ = _ |- _ => apply with_write_Ok in H as (_ & d' & Hs & ->) end.
      apply st_map_err_Ok, set_settings_stages in Hs as [? ?]; [|done..]. by split_and!.
    - unfold patch_settings_key_pair in Hh. sinv. injection Hh as <- <-.
      match goal with H : with_write _ _ = _ |- _ => apply with_write_Ok in H as (_ & d' & Hs & ->) end.
      sinv. apply set_settings_stages in Hs as [? ?]; [|done..]. split_and!; [done..|]. cbn. split_and!; [done..|]. eexists _, _. by split_and!.
    - unfold handle_delete_transaction in Hh. sinv. injection Hh as <- <-.
      match goal with H : with_write _ _ = _ |- _ => apply with_write_Ok in H as (_ & d' & Hs & ->) end.
      apply st_map_err_Ok in Hs. unfold ctl_delete_transaction in Hs. apply st_map_err_Ok in Hs.
      apply ds_delete in Hs as (? & ? & ?); [|done..]. by split_and!.
    - unfold handle_commit_transaction in Hh. sinv. injection Hh as <- <-.
      match goal with H : commit_changes _ _ = _ |- _ => apply commit_changes_publishes in H as (? & ? & ?) end;
        [|done..]. split; [done|]. by eexists.
    - unfold commit_transaction_and_apply in Hh. sinv. injection Hh as <- <-.
      match goal with H : commit_changes _ _ = _, H' : apply_keys _ _ _ = _ |- _ =>
        apply commit_changes_publishes in H as (? & ? & Ha); [|done..]; apply apply_keys_Ok in H' as [E Ha'] end.
      rewrite Ha in Ha'. unfold request_effect. rewrite E, Ha'. split; [done|]. eexists. by split_and!. }
  assert ((∃ q, r = ApplyChanges q) ∨ ∀ q, r ≠ ApplyChanges q) as [[q ->]|Hne].
  { destruct r; try (right; done). left. by eexists. }
  - cbn [handle] in Hh. unfold apply_changes in Hh. sinv. injection Hh as <- <-.
    match goal with H : apply_keys _ ?keys _ = _ |- _ => apply apply_keys_Ok in H as [E Ha]; rename keys into ks end.
    unfold request_effect. rewrite E. split; [done|]. split; [done|]. exists ks. split; [done|].
    destruct (q !! "keys") as [str|]; rinv; [|done].
    unfold comma_separated in *. by destruct str; cbn in *; simplify_eq.
  - pose proof (reads_keep _ _ _ _ Hh Ew Hne) as ->. split; [done|].
    destruct r; cbn in Ew |- *; try done. by destruct (Hne q).
Qed.

(** What one request leaves alone. *)
Lemma request_isolated r s s' resp :
  request_effect r s s' resp →
  (∀ tx, ds_committed (D := D) (Pending tx) → written_tx r ≠ Some tx →
     ds_entries (ds s') (Pending tx) = ds_entries (ds s) (Pending tx)) ∧
  (is_commit r = false → ds_entries (ds s') Live = ds_entries (ds s) Live) ∧
  (written_tx r = None → ds s' = ds s).
Proof.
  intros He. pose proof (ds_committed_live (D := D)) as Hl.
  assert (∀ tx tx', Some tx ≠ Some tx' → Pending tx' ≠ Pending tx) as Hn by congruence.
  unfold request_effect in He. destruct r; cbn [written_tx is_commit]; try by subst.
  - destruct He as (_ & (v & pairs & _ & _ & _ & Ho) & _). split_and!; [|intros _; by apply Ho|done].
    intros tx Hc Hw. by apply Ho, Hn.
  - destruct He as (_ & _ & ps & st & _ & _ & (v & pairs & _ & _ & _ & Ho)).
    split_and!; [|intros _; by apply Ho|done]. intros tx Hc Hw. by apply Ho, Hn.
  - destruct He as (_ & Ho & _). split_and!; [|intros _; by apply Ho|done].
    intros tx Hc Hw. by apply Ho, Hn.
  - destruct He as (keys & _ & (_ & _ & _ & _ & Ho) & _). split_and!; [|done|done].
    intros tx Hc Hw. by apply Ho, Hn.
  - destruct He as [-> _]. by split_and!.
  - destruct He as (keys & _ & (_ & _ & _ & _ & Ho) & _). split_and!; [|done|done].
    intros tx Hc Hw. by apply Ho, Hn.
Qed.

Lemma serve_isolated rs s s' resps :
  ds_inv (ds s) → Forall tx_ok rs → serve os_info os_prefix start_applier rs s = (s', resps) →
  Forall (λ r, is_ok r = true) resps →
  ds_inv (ds s') ∧
  (∀ tx, ds_committed (D := D) (Pending tx) → Forall (λ r, written_tx r ≠ Some tx) rs →
     ds_entries (ds s') (Pending tx) = ds_entries (ds s) (Pending tx)) ∧
  (Forall (λ r, is_commit r = false) rs → ds_entries (ds s') Live = ds_entries (ds s) Live) ∧
  (Forall (λ r, written_tx r = None) rs → ds s' = ds s).
Proof using Hkey Htx.
  revert s resps. induction rs as [|r rs IH]; intros s resps Hd Hr Hs Hok; cbn [serve] in Hs.
  { injection Hs as <- <-. by split_and!. }
  destruct (handle os_info os_prefix start_applier r s) as [s1 resp] eqn:Eh. destruct (serve _ _ _ rs s1) as [s2 resps2] eqn:Es.
  injection Hs as -> <-. apply Forall_cons in Hok as [Ho Hok], Hr as [Hr1 Hr].
  destruct resp as [resp|]; [|done].
  apply request_outcome in Eh as [Hd1 He]; [|done..]. apply request_isolated in He as (E1 & E2 & E3).
  destruct (IH s1 _ Hd1 Hr Es Hok) as (Hd2 & F1 & F2 & F3). split; [done|]. split_and!.
  - intros tx Hc [? ?]%Forall_cons. rewrite F1, E1; done.
  - intros [? ?]%Forall_cons. rewrite F2, E2; done.
  - intros [? ?]%Forall_cons. rewrite F3, E3; done.
Qed.
End effects.

(** ** Key-value input *)

Section key_pairs.
Context `{HashOrder} `{SerdeJson} `{Float64}.

Lemma key_pair_loop_Ok vec acc m :
  key_pair_loop vec acc = Ok m ↔
  ∃ kvs, Forall2 (λ s kv, parse_key_pair s = Ok kv) vec kvs ∧ m = hm_extend kvs acc.
Proof.
  revert acc. induction vec as [|s vec IH]; intros acc; cbn [key_pair_loop].
  { split; [intros [= <-]; by exists []|]. by intros (kvs & ->%Forall2_nil_inv_l & ->). }
  split.
  - intros Hl. rinv. apply IH in Hl as (kvs & Hkvs & ->). eexists (_ :: kvs). split; [by constructor|].
    by destruct x.
  - intros (kvs & (kv & kvs' & Hkv & Hkvs & ->)%Forall2_cons_inv_l & ->). rewrite Hkv. cbn [mbind result_bind].
    apply IH. exists kvs'. split; [done|]. by destruct kv.
Qed.

Lemma massage_loop_Ok input acc m :
  massage_loop input acc = Ok m →
  ∃ out, Forall2 (λ kv kt, kt.1 = kv.1 ∧ serialize_scalar (massaged kv.2) = Ok kt.2) input out ∧
    m = hm_extend out acc.
Proof.
  revert acc. induction input as [|[k v] input IH]; intros acc Hl; cbn [massage_loop] in Hl.
  { injection Hl as <-. by exists []. }
  rinv. apply IH in Hl as (out & Hout & ->). exists ((k, x) :: out). split; [by constructor|done].
Qed.

Lemma massage_set_input_view m m' segs :
  hm_wf m → massage_set_input m = Ok m' →
  match hm_view m !! segs with
  | Some v => ∃ t, serialize_scalar (massaged v) = Ok t ∧ hm_view m' !! segs = Some t
  | None => hm_view m' !! segs = None
  end.
Proof.
  intros Hwf (out & Hout & ->)%massage_loop_Ok.
  assert (NoDup ((λ kv, segments kv.1) <$> out)) as Hnd.
  { assert ((λ kv, segments kv.1) <$> out = (λ kv, segments kv.1) <$> hm_iter m) as ->;
      [|by apply hm_iter_NoDup].
    clear Hwf. induction Hout as [|kv kt l l' [E _] _ IH]; [done|]. cbn. by rewrite E, IH. }
  change (hm_extend out ∅) with (hm_collect out). unfold hm_view. rewrite !lookup_fmap.
  destruct (m !! segs) as [[k v]|] eqn:E; cbn.
  - pose proof (Hwf _ _ E) as Hk. cbn in Hk. subst segs.
    assert ((k, v) ∈ hm_iter m) as Hin by (by apply elem_of_hm_iter).
    apply list_elem_of_lookup in Hin as [i Hi].
    destruct (Forall2_lookup_l _ _ _ _ _ Hout Hi) as ([k' t] & Ho & [Ek Ht]). cbn in Ek, Ht. subst k'.
    exists t. split; [done|]. apply list_elem_of_lookup_2 in Ho.
    by rewrite (proj2 (hm_collect_elem out (segments k) (k, t) Hnd)).
  - destruct (hm_collect out !! segs) as [kt|] eqn:Eo; [|done]. exfalso.
    apply hm_collect_elem in Eo as [Ho <-]; [|done].
    apply list_elem_of_lookup in Ho as [i Hi].
    destruct (Forall2_lookup_r _ _ _ _ _ Hout Hi) as ([k' v] & Hin & [Ek _]). cbn in Ek.
    apply list_elem_of_lookup_2, elem_of_hm_iter in Hin; [|done]. rewrite Ek in E. congruence.
Qed.

(** A pair is split at its first equals sign; the key gets the prefix of the settings
    when it lacks it. *)
Lemma parse_key_pair_Ok (s : string) key value :
  parse_key_pair s = Ok (key, value) →
  proper_key key ∧ head (segments key) = Some "settings" ∧
  ∃ raw k0, s = raw +:+ "=" +:+ value ∧ no_char "=" raw ∧ key_new Data raw = Ok k0 ∧
    segments key = if bool_decide (head (segments k0) = Some "settings")
                   then segments k0 else "settings" :: segments k0.
Proof.
  unfold parse_key_pair. destruct (str_splitn2 "=" s) as [raw [v|]] eqn:Es; [|done]. intros Hp. rinv.
  apply str_splitn2_Some in Es as [-> Hraw].
  match goal with H : key_new Data raw = Ok ?k, H' : head (segments ?k) = Some ?p |- _ =>
    rename k into k0, p into key_prefix; pose proof (key_new_proper _ _ _ H) as Hk0; rename H into Hnew, H' into Hh end.
  case_bool_decide as E; cbn [negb] in Hp.
  - injection Hp as <- <-. subst key_prefix. split; [done|]. split; [done|]. exists raw, k0.
    split_and!; [done..|]. by rewrite bool_decide_eq_true_2.
  - rinv. match goal with H : from_segments _ _ = Ok _ |- _ => rename H into Hf end.
    pose proof (from_segments_wf _ _ _ Hf) as Hwf. apply from_segments_Ok in Hf as (_ & -> & _). cbn.
    split; [split; [done|]; constructor; [done|apply Hk0]|]. split; [done|]. exists raw, k0.
    split_and!; [done..|]. rewrite bool_decide_eq_false_2; [done|]. rewrite Hh. by intros [=].
Qed.

Lemma hm_extend_last {V} (kvs : list (Key * V)) (m : key_map V) segs :
  hm_view (hm_extend kvs m) !! segs =
  match last (filter (λ kv, segments kv.1 = segs) kvs) with
  | Some kv => Some kv.2
  | None => hm_view m !! segs
  end.
Proof.
  induction kvs as [|kv kvs IH] using rev_ind; [done|].
  rewrite filter_app, filter_cons. unfold hm_extend in *. rewrite foldl_app. destruct kv as [k v]. cbn.
  rewrite hm_view_insert. case_decide as E.
  - subst segs. by rewrite lookup_insert_eq, last_snoc.
  - rewrite lookup_insert_ne by done. cbn. by rewrite app_nil_r, IH.
Qed.
End key_pairs.

(** ** Properties *)

(** C4. Every request that succeeds, on any store that keeps the promises of the
    [DataStore] interface, does exactly its effect: a patch puts the serialized pairs
    of its settings over what its transaction holds; a key-value patch does that for
    the settings its pairs stand for; a delete empties its transaction; a commit makes
    the settings of its transaction live, empties the transaction, reports the keys, of
    which there is at least one, and with an apply starts the applier for these keys;
    every other request leaves the store as it was. *)
Theorem request_has_effect `{DataStoreTx D} `{SerdeJson} `{Float64} `{ApiTypes}
    `{SettingsModel Settings} os_info os_prefix start_applier (r : request (Settings := Settings))
    (s s' : Server D) resp :
  (∀ k, proper_key k → ds_key k) → ds_inv (ds s) →
  (∀ tx, written_tx r = Some tx → ds_committed (D := D) (Pending tx)) →
  handle os_info os_prefix start_applier r s = (s', Ok resp) →
  ds_inv (ds s') ∧ request_effect r s s' resp.
Proof. intros Hk Hd Ht Hh. exact (request_outcome _ _ _ Hk r s s' resp Hd Ht Hh). Qed.

(** C5. Requests are isolated: in any sequence of requests that all succeed, a
    transaction that no request writes keeps its data, the live data stay as they
    were until a commit, and requests that write no transaction change nothing. *)
Theorem requests_isolated `{DataStoreTx D} `{SerdeJson} `{Float64} `{ApiTypes}
    `{SettingsModel Settings} os_info os_prefix start_applier
    (rs : list (request (Settings := Settings))) (s s' : Server D) resps :
  (∀ k, proper_key k → ds_key k) → ds_inv (ds s) →
  Forall (λ r, ∀ tx, written_tx r = Some tx → ds_committed (D := D) (Pending tx)) rs →
  serve os_info os_prefix start_applier rs s = (s', resps) → Forall (λ r, is_ok r = true) resps →
  ds_inv (ds s') ∧
  (∀ tx, ds_committed (D := D) (Pending tx) → Forall (λ r, written_tx r ≠ Some tx) rs →
     ds_entries (ds s') (Pending tx) = ds_entries (ds s) (Pending tx)) ∧
  (Forall (λ r, is_commit r = false) rs → ds_entries (ds s') Live = ds_entries (ds s) Live) ∧
  (Forall (λ r, written_tx r = None) rs → ds s' = ds s).
Proof. intros Hk Hd Ht Hs Ho. exact (serve_isolated _ _ _ Hk rs s s' resps Hd Ht Hs Ho). Qed.

(** The key-value form of a patch: every pair is split at its first equals sign
    and its key, which gets the prefix [settings] unless it has it, is proper; for each
    key the last pair given for it decides, and what is stored for it is the text of
    the boolean, number or string that the value stands for, which reads back as such. *)
Lemma construct_key_pair_map_spec `{HashOrder} `{SerdeJson} `{Float64} vec m segs :
  construct_key_pair_map vec = Ok m →
  ∃ kvs, Forall2 (λ s kv, parse_key_pair s = Ok kv) vec kvs ∧
    Forall (λ kv, proper_key kv.1 ∧ head (segments kv.1) = Some "settings") kvs ∧
    match last (filter (λ kv, segments kv.1 = segs) kvs) with
    | Some kv => ∃ t, serialize_scalar (massaged kv.2) = Ok t ∧ hm_view m !! segs = Some t ∧
                   (json_wf (massaged kv.2) → deserialize_scalar t = Ok (massaged kv.2))
    | None => hm_view m !! segs = None
    end.
Proof.
  unfold construct_key_pair_map. intros Hc. rinv.
  match goal with H : key_pair_loop _ _ = Ok _ |- _ => apply key_pair_loop_Ok in H as (kvs & Hkvs & ->) end.
  exists kvs. split; [done|]. split.
  { apply Forall_forall. intros [k v] [i Hi]%list_elem_of_lookup.
    destruct (Forall2_lookup_r _ _ _ _ _ Hkvs Hi) as (s & _ & Hp).
    by apply parse_key_pair_Ok in Hp as (? & ? & _). }
  apply (massage_set_input_view _ _ segs) in Hc; [|apply hm_wf_extend, hm_wf_empty].
  rewrite hm_extend_last in Hc. destruct (last _) as [kv|]; [|done].
  destruct Hc as (t & Ht & Hv). exists t. split_and!; [done..|]. intros Hwf.
  destruct (json_roundtrip (massaged kv.2) Hwf) as (t' & Ht' & Hb). unfold serialize_scalar in Ht.
  unfold deserialize_scalar. congruence.
Qed.

(** ** Witnesses *)

#[local] Existing Instance example_order.
#[local] Existing Instance example_json.
#[local] Existing Instance example_model.

#[local] Instance example_float : Float64 := {| f64_of_int n := n |}.
#[local] Instance example_map : Deserialize (gmap string json) := {|
  de_root := CallMap;
  de_visit_map entries := Ok (list_to_map ((λ kv, (kv.1, content_value kv.2)) <$> entries)) |}.
#[local] Instance example_types : ApiTypes := {|
  Service := json;
  File := json;
  services_to_json m := JObject (map_to_list m);
  files_to_json m := JObject (map_to_list m) |}.

Definition in_tx (tx : string) : query := {[ "tx" := tx ]}.
Definition example_serve := serve (D := MemoryDataStore) (Err (MissingData "os")) (λ _, Ok None) (λ _, true).
Definition example_requests : list (request (Settings := json)) :=
  [PatchKeyPairs ["motd=hi"; "settings.ntp.servers=a"; "motd=hello=you"] (in_tx "one");
   PatchSettings (JObject [("motd", JString "other")]) (in_tx "two");
   CommitAndApply (in_tx "one");
   GetTransactionList].
Definition example_server : Server MemoryDataStore := mk_server memory_new false [].
Definition example_served := example_serve example_requests example_server.

Example example_served_ok :
  forallb is_ok example_served.2 = true ∧
  applied example_served.1 = [Some {[ "settings.motd"; "settings.ntp.servers" ]}] ∧
  hm_view (live (ds example_served.1)) =
    {[ ["settings"; "motd"] := example_to_string (JString "hello=you");
       ["settings"; "ntp"; "servers"] := example_to_string (JString "a") ]}.
Proof.
  split_and!.
  - vm_compute; reflexivity.
  - apply (bool_decide_eq_true_1 _). vm_compute; reflexivity.
  - apply (bool_decide_eq_true_1 _). vm_compute; reflexivity.
Qed.

Lemma request_has_effect_witness :
  let s' := fst (handle (Err (MissingData "os")) (λ _, Ok None) (λ _, true)
                   (CommitTransaction (Settings := json) (in_tx "tx"))
                   (mk_server (example_store Strong) false [])) in
  hm_view (live (ds s')) = {[ ["settings"; "motd"] := "new" ]} ∧
  mem_entries (ds s') (Pending "tx") = ∅.
Proof.
  set (keys := {[ ["settings"; "motd"] := motd_key ]} : key_set).
  destruct (request_has_effect (D := MemoryDataStore) (Err (MissingData "os")) (λ _, Ok None) (λ _, true)
    (CommitTransaction (Settings := json) (in_tx "tx")) (mk_server (example_store Strong) false [])
    (fst (handle (Err (MissingData "os")) (λ _, Ok None) (λ _, true)
            (CommitTransaction (Settings := json) (in_tx "tx"))
            (mk_server (example_store Strong) false [])))
    (ChangedKeysResponse keys)) as (_ & ks & _ & (_ & _ & Hl & Hp & _) & _).
  - done.
  - split; [apply map_Forall_singleton; reflexivity|].
    apply map_Forall_singleton. apply map_Forall_singleton. reflexivity.
  - done.
  - reflexivity.
  - split; [exact Hl|exact Hp].
Defined.

Lemma requests_isolated_witness :
  mem_inv (ds example_served.1) ∧ hm_view (mem_entries (ds example_served.1) (Pending "three")) = ∅.
Proof.
  destruct (requests_isolated (D := MemoryDataStore) (Err (MissingData "os")) (λ _, Ok None) (λ _, true)
    example_requests example_server example_served.1 example_served.2) as (Hi & Ht & _).
  - done.
  - split; [apply hm_wf_empty|apply map_Forall_empty].
  - by repeat constructor.
  - exact (surjective_pairing example_served).
  - apply Forall_forall. intros r Hr. destruct example_served_ok as [Hok _].
    rewrite forallb_forall in Hok. exact (Hok r (proj1 (list_elem_of_In _ _) Hr)).
  - split; [exact Hi|]. change (mem_entries ?d ?c) with (ds_entries d c). rewrite (Ht "three"); [reflexivity|exact I|].
    repeat constructor; vm_compute; congruence.
Defined.

Definition example_pairs := construct_key_pair_map ["motd=hi"; "settings.motd=hello=you"].

Lemma construct_key_pair_map_spec_witness :
  ∃ m kvs, construct_key_pair_map ["motd=hi"; "settings.motd=hello=you"] = Ok m ∧
    Forall2 (λ s kv, parse_key_pair s = Ok kv) ["motd=hi"; "settings.motd=hello=you"] kvs ∧
    hm_view m !! ["settings"; "motd"] = Some (example_to_string (JString "hello=you")).
Proof.
  assert (construct_key_pair_map ["motd=hi"; "settings.motd=hello=you"] = Ok (default ∅ (ok example_pairs))) as Hm
    by (apply ok_default; vm_compute; reflexivity).
  destruct (construct_key_pair_map_spec _ _ ["settings"; "motd"] Hm) as (kvs & Hkvs & _).
  exists (default ∅ (ok example_pairs)), kvs. split; [exact Hm|]. split; [exact Hkvs|].
  vm_compute; reflexivity.
Defined.
