(* ===== verification/GptPrio.v ===== *)
(** * Boot priority flags ([sources/updater/signpost/src/gptprio.rs], [guid.rs])

    A [GptPrio] is the 64-bit attribute field of a GPT partition: bits 48-51 hold
    the priority, 52-55 the tries left, 56 "successful", 57 "boot has
    succeeded".  The bit operations come from the [bit_field] crate and are the
    class [BitField], specified bit by bit. *)
From S2P Require Import Prelude.
From stdpp Require Import base numbers list.
From stdpp Require Import options.
Local Open Scope Z_scope.

(** ** Definitions *)

(** [bit_field::BitField] on [u64]: the range [lo..hi] and the bit [i] are within
    the 64 bits. *)
Class BitField := {
  get_bit : Z → Z → bool;
  set_bit : Z → Z → bool → Z;
  get_bits : Z → Z → Z → Z;
  set_bits : Z → Z → Z → Z → Z;
  get_bit_spec v i : 0 ≤ i → get_bit v i = Z.testbit v i;
  set_bit_spec v i b j : 0 ≤ i → 0 ≤ j →
    Z.testbit (set_bit v i b) j = if decide (j = i) then b else Z.testbit v j;
  get_bits_spec v lo hi j : 0 ≤ lo ≤ hi → 0 ≤ j →
    Z.testbit (get_bits v lo hi) j = if decide (j < hi - lo) then Z.testbit v (lo + j) else false;
  set_bits_spec v lo hi x j : 0 ≤ lo ≤ hi → 0 ≤ x < 2 ^ (hi - lo) → 0 ≤ j →
    Z.testbit (set_bits v lo hi x) j =
      if decide (lo ≤ j < hi) then Z.testbit x (j - lo) else Z.testbit v j;
  set_bit_nonneg v i b : 0 ≤ v → 0 ≤ set_bit v i b;
  get_bits_nonneg v lo hi : 0 ≤ v → 0 ≤ get_bits v lo hi;
  set_bits_nonneg v lo hi x : 0 ≤ v → 0 ≤ x → 0 ≤ set_bits v lo hi x }.

(** A [GptPrio] is its [u64]; the conversions from and to [u64] are the identity. *)
Definition GptPrio : Type := Z.

Section gptprio.
Context `{BitField}.

Definition priority (self : GptPrio) : Z := get_bits self 48 52.
Definition set_priority (self : GptPrio) (priority : Z) : GptPrio :=
  set_bits self 48 52 priority.
Definition tries_left (self : GptPrio) : Z := get_bits self 52 56.
Definition set_tries_left (self : GptPrio) (tries_left : Z) : GptPrio :=
  set_bits self 52 56 tries_left.
Definition successful (self : GptPrio) : bool := get_bit self 56.
Definition set_successful (self : GptPrio) (successful : bool) : GptPrio :=
  set_bit self 56 successful.
Definition will_boot (self : GptPrio) : bool :=
  ((0 <? priority self) && (0 <? tries_left self)) || successful self.
Definition boot_has_succeeded (self : GptPrio) : GptPrio := set_bit self 57 true.
Definition has_boot_succeeded (self : GptPrio) : bool := get_bit self 57.
End gptprio.

(** [uuid_to_guid]: the mixed-endian byte order of GPT. *)
Definition uuid_to_guid {A} (uuid : list A) : option (list A) :=
  match uuid with
  | [u0; u1; u2; u3; u4; u5; u6; u7; u8; u9; u10; u11; u12; u13; u14; u15] =>
      Some [u3; u2; u1; u0; u5; u4; u7; u6; u8; u9; u10; u11; u12; u13; u14; u15]
  | _ => None
  end.

(** ** The operations by shifting and masking *)

Definition z_set_bits (v lo hi x : Z) : Z :=
  Z.lor (Z.ldiff v (Z.shiftl (Z.ones (hi - lo)) lo))
        (Z.shiftl (Z.land x (Z.ones (hi - lo))) lo).

Definition z_bit_field : BitField.
Proof.
  refine {| get_bit v i := Z.testbit v i;
            set_bit v i b := if b then Z.setbit v i else Z.clearbit v i;
            get_bits v lo hi := Z.land (Z.shiftr v lo) (Z.ones (hi - lo));
            set_bits := z_set_bits |}.
  - done.
  - intros v i b j Hi Hj. destruct b; [rewrite Z.setbit_eqb|rewrite Z.clearbit_eqb]; try lia;
      destruct (Z.eqb_spec i j), (decide (j = i)); try lia; try done; by rewrite ?andb_true_r.
  - intros v lo hi j Hl Hj. rewrite Z.land_spec, Z.shiftr_spec by lia. rewrite Z.add_comm.
    case_decide; [rewrite Z.ones_spec_low by lia|rewrite Z.ones_spec_high by lia].
    + by rewrite andb_true_r.
    + by rewrite andb_false_r.
  - intros v lo hi x j Hl Hx Hj. unfold z_set_bits.
    rewrite Z.lor_spec, Z.ldiff_spec, !Z.shiftl_spec by lia. case_decide as Hd.
    + rewrite Z.ones_spec_low, andb_false_r by lia. rewrite Z.land_spec, Z.ones_spec_low by lia.
      by rewrite andb_true_r.
    + destruct (decide (j < lo)).
      * rewrite !(Z.testbit_neg_r _ (j - lo)) by lia. by rewrite andb_true_r, orb_false_r.
      * rewrite Z.land_spec, !Z.ones_spec_high by lia. by rewrite andb_true_r, andb_false_r, orb_false_r.
  - intros v i [] Hv.
    + apply Z.lor_nonneg. split; [done|]. apply Z.shiftl_nonneg. lia.
    + apply Z.ldiff_nonneg. by left.
  - intros v lo hi Hv. apply Z.land_nonneg. left. by apply Z.shiftr_nonneg.
  - intros v lo hi x Hv Hx. apply Z.lor_nonneg. split; [apply Z.ldiff_nonneg; by left|].
    apply Z.shiftl_nonneg, Z.land_nonneg. by left.
Defined.

(** ** Reading back *)

Section facts.
Context `{BitField}.

Lemma testbit_get_bits_lt v lo hi : 0 ≤ v → 0 ≤ lo ≤ hi → 0 ≤ get_bits v lo hi < 2 ^ (hi - lo).
Proof.
  intros Hv Hl. split; [by apply get_bits_nonneg|].
  assert (get_bits v lo hi = get_bits v lo hi mod 2 ^ (hi - lo)) as ->.
  { apply Z.bits_inj_iff'. intros j Hj. rewrite Z.testbit_mod_pow2 by lia.
    rewrite get_bits_spec by lia. case_decide; [by rewrite (proj2 (Z.ltb_lt j (hi - lo)))|].
    by rewrite (proj2 (Z.ltb_ge j (hi - lo))) by lia. }
  apply Z.mod_pos_bound. lia.
Qed.

Lemma get_set_bits v lo hi x :
  0 ≤ lo ≤ hi → 0 ≤ x < 2 ^ (hi - lo) → get_bits (set_bits v lo hi x) lo hi = x.
Proof.
  intros Hl Hx. apply Z.bits_inj_iff'. intros j Hj. rewrite get_bits_spec by lia. case_decide.
  - rewrite set_bits_spec, decide_True by lia. f_equal. lia.
  - destruct (decide (x = 0)) as [->|]; [by rewrite Z.bits_0|].
    rewrite Z.bits_above_log2; [done|lia|]. apply Z.log2_lt_pow2; [lia|].
    apply (Z.lt_le_trans _ (2 ^ (hi - lo))); [lia|]. apply Z.pow_le_mono_r; lia.
Qed.

(** Two values that agree on a range have equal fields there. *)
Lemma get_bits_ext v w lo hi :
  0 ≤ lo ≤ hi → (∀ j, lo ≤ j < hi → Z.testbit v j = Z.testbit w j) →
  get_bits v lo hi = get_bits w lo hi.
Proof.
  intros Hl Hvw. apply Z.bits_inj_iff'. intros j Hj. rewrite !get_bits_spec by lia.
  case_decide; [|done]. apply Hvw. lia.
Qed.

(** Writes of one field seen through the others. *)
Lemma priority_set_priority v x : 0 ≤ x < 16 → priority (set_priority v x) = x.
Proof. intros. apply get_set_bits; lia. Qed.
Lemma tries_set_tries v x : 0 ≤ x < 16 → tries_left (set_tries_left v x) = x.
Proof. intros. apply get_set_bits; lia. Qed.
Lemma successful_set_successful v b : successful (set_successful v b) = b.
Proof.
  unfold successful, set_successful. rewrite get_bit_spec, set_bit_spec by lia.
  by rewrite decide_True.
Qed.
Lemma priority_set_tries v x : 0 ≤ x < 16 → priority (set_tries_left v x) = priority v.
Proof.
  intros. apply get_bits_ext; [lia|]. intros j Hj. unfold set_tries_left.
  by rewrite set_bits_spec, decide_False by lia.
Qed.
Lemma tries_set_priority v x : 0 ≤ x < 16 → tries_left (set_priority v x) = tries_left v.
Proof.
  intros. apply get_bits_ext; [lia|]. intros j Hj. unfold set_priority.
  by rewrite set_bits_spec, decide_False by lia.
Qed.
Lemma successful_set_priority v x : 0 ≤ x < 16 → successful (set_priority v x) = successful v.
Proof.
  intros. unfold successful, set_priority.
  by rewrite !get_bit_spec, set_bits_spec, decide_False by lia.
Qed.
Lemma successful_set_tries v x : 0 ≤ x < 16 → successful (set_tries_left v x) = successful v.
Proof.
  intros. unfold successful, set_tries_left.
  by rewrite !get_bit_spec, set_bits_spec, decide_False by lia.
Qed.
Lemma priority_set_successful v b : priority (set_successful v b) = priority v.
Proof.
  apply get_bits_ext; [lia|]. intros j Hj. unfold set_successful.
  by rewrite set_bit_spec, decide_False by lia.
Qed.
Lemma tries_set_successful v b : tries_left (set_successful v b) = tries_left v.
Proof.
  apply get_bits_ext; [lia|]. intros j Hj. unfold set_successful.
  by rewrite set_bit_spec, decide_False by lia.
Qed.
Lemma has_succeeded_boot v : has_boot_succeeded (boot_has_succeeded v) = true.
Proof.
  unfold has_boot_succeeded, boot_has_succeeded. rewrite get_bit_spec, set_bit_spec by lia.
  by rewrite decide_True.
Qed.
End facts.

(** Rewriting with the field lemmas. *)
Create Rewrite HintDb gptprio.
#[export] Hint Rewrite @priority_set_priority @tries_set_tries @priority_set_tries
  @tries_set_priority @successful_set_priority @successful_set_tries using lia : gptprio.
#[export] Hint Rewrite @successful_set_successful @priority_set_successful
  @tries_set_successful @has_succeeded_boot : gptprio.

(** The fields of the flags are independent: writing the priority, the
    tries left or "successful" reads back the written value, and leaves every bit
    outside that field as it was (in particular the other fields, and the
    attribute bits that belong to the GPT standard). *)
Lemma gptprio_fields_independent `{BitField} (v : GptPrio) x b j :
  0 ≤ x < 16 → 0 ≤ j →
  priority (set_priority v x) = x ∧ tries_left (set_tries_left v x) = x ∧
  successful (set_successful v b) = b ∧
  (¬ 48 ≤ j < 52 → Z.testbit (set_priority v x) j = Z.testbit v j) ∧
  (¬ 52 ≤ j < 56 → Z.testbit (set_tries_left v x) j = Z.testbit v j) ∧
  (j ≠ 56 → Z.testbit (set_successful v b) j = Z.testbit v j) ∧
  (j ≠ 57 → Z.testbit (boot_has_succeeded v) j = Z.testbit v j).
Proof.
  intros Hx Hj. autorewrite with gptprio.
  unfold set_priority, set_tries_left, set_successful, boot_has_succeeded.
  split_and!; try done; intros Hn; by rewrite ?set_bits_spec, ?set_bit_spec, decide_False by lia.
Qed.

Lemma gptprio_fields_independent_witness :
  @priority z_bit_field (@set_priority z_bit_field 0x5555555555555555 0) = 0 ∧
  Z.testbit (@set_priority z_bit_field 0x5555555555555555 0) 0 = true.
Proof.
  destruct (@gptprio_fields_independent z_bit_field 0x5555555555555555 0 true 0)
    as (H1 & _ & _ & H2 & _); [lia|lia|].
  split; [exact H1|]. rewrite H2 by lia. reflexivity.
Defined.
