(* ===== verification/Signpost.v ===== *)
(** * Partition sets and boot selection ([sources/updater/signpost/src/])

    [State] holds the parsed partition table and which of the two partition sets
    is running.  The partition table belongs to the [gptman] crate and is the
    class [Gpt]; indexing it with a missing partition number panics there, which
    is the error [SpPanicked] here.  [load_sets] is [State::load] from the point
    where the disk, its table and the running partition are known. *)
From S2P Require Import Prelude GptPrio.
From stdpp Require Import base numbers list strings gmap relations.
From stdpp Require Import options.

(** ** Definitions *)

Inductive SetSelect := A | B.

Global Instance set_select_eq_dec : EqDecision SetSelect.
Proof. solve_decision. Defined.

Definition idx (self : SetSelect) : nat := match self with A => 0 | B => 1 end.
Definition set_not (self : SetSelect) : SetSelect := match self with A => B | B => A end.

Record PartitionSet := mk_set {
  boot : string;
  root : string;
  hash : string }.

Definition set_contains (self : PartitionSet) (device : string) : bool :=
  bool_decide (boot self = device) || bool_decide (root self = device) ||
  bool_decide (hash self = device).

Inductive PartitionSets :=
| Single (set : PartitionSet)
| Dual (sets : PartitionSet * PartitionSet) (active : SetSelect).

(** [sets[select.idx()]] of the two-element array. *)
Definition set_at (sets : PartitionSet * PartitionSet) (select : SetSelect) : PartitionSet :=
  match select with A => sets.1 | B => sets.2 end.

Inductive sp_error :=
| PartitionMissingFromSet (set : string)
| PartitionFromDisk
| PartitionNotFoundOnDevice (num : Z)
| ActiveNotInSet (active_partition : string)
| InactiveNotAvailable
| InactiveAlreadyMarked
| InactiveNotValid
| InactiveInvalidRollback (priority tries_left : Z) (successful : bool)
(** A Rust panic. *)
| SpPanicked.

(** The partition type GUIDs, as the UUIDs they are made from. *)
Inductive part_type :=
| BOTTLEROCKET_BOOT
| BOTTLEROCKET_ROOT
| BOTTLEROCKET_HASH
| BOTTLEROCKET_PRIVATE
| OtherType (guid : Z).

Global Instance part_type_eq_dec : EqDecision part_type.
Proof. solve_decision. Defined.

(** [gptman::GPT]: numbered partition entries with a type and attribute bits. *)
Class Gpt (G : Type) := {
  gpt_iter : G → list (Z * part_type);
  attribute_bits : G → Z → option Z;
  set_attribute_bits : Z → Z → G → option G;
  gpt_iter_NoDup g : NoDup (gpt_iter g).*1;
  gpt_iter_bits g n t : (n, t) ∈ gpt_iter g → is_Some (attribute_bits g n);
  gpt_set_is_Some g n v : is_Some (attribute_bits g n) → is_Some (set_attribute_bits n v g);
  gpt_set_iter g n v g' : set_attribute_bits n v g = Some g' → gpt_iter g' = gpt_iter g;
  gpt_get_set g n v g' m : set_attribute_bits n v g = Some g' →
    attribute_bits g' m = if decide (m = n) then Some v else attribute_bits g m }.

Record State (G : Type) := mk_state {
  os_disk : string;
  private_partition_num : Z;
  sets : PartitionSets;
  boot_partition_nums : list Z;
  table : G }.
Arguments mk_state {G}.
Arguments os_disk {G}.
Arguments private_partition_num {G}.
Arguments sets {G}.
Arguments boot_partition_nums {G}.
Arguments table {G}.

Section state.
Context `{BitField} `{Gpt G}.

(** *** Loading *)

(** Finds the nth partition on the table with the given type. *)
Definition nth_guid (table : G) (guid : part_type) (n : nat) : option Z :=
  fst <$> filter (λ p, p.2 = guid) (gpt_iter table) !! n.

Definition required_guid (table : G) (guid : part_type) (n : nat) : result sp_error Z :=
  ok_or (nth_guid table guid n) (PartitionMissingFromSet (if decide (n = 0) then "A" else "B")).

(** [os_disk.partition(num)] is given by [partition]. *)
Definition device_from_part_num (partition : Z → result sp_error (option string)) (num : Z) :
    result sp_error string :=
  let? p := partition num in ok_or p (PartitionNotFoundOnDevice num).

Definition load_set (partition : Z → result sp_error (option string)) (table : G)
    (boot_num : Z) (n : nat) : result sp_error PartitionSet :=
  let? b := device_from_part_num partition boot_num in
  let? root_num := required_guid table BOTTLEROCKET_ROOT n in
  let? r := device_from_part_num partition root_num in
  let? hash_num := required_guid table BOTTLEROCKET_HASH n in
  let? h := device_from_part_num partition hash_num in
  Ok (mk_set b r h).

Definition load_sets (os_disk active_partition : string)
    (partition : Z → result sp_error (option string)) (table : G) :
    result sp_error (State G) :=
  let? a := required_guid table BOTTLEROCKET_BOOT 0 in
  let boot_partition_nums :=
    a :: match nth_guid table BOTTLEROCKET_BOOT 1 with Some b => [b] | None => [] end in
  let? set_a := load_set partition table a 0 in
  let? sets :=
    match boot_partition_nums with
    | [_; b] =>
        let? set_b := load_set partition table b 1 in
        if set_contains set_a active_partition then Ok (Dual (set_a, set_b) A)
        else if set_contains set_b active_partition then Ok (Dual (set_a, set_b) B)
        else Err (ActiveNotInSet active_partition)
    | _ => Ok (Single set_a)
    end in
  let? private_num := required_guid table BOTTLEROCKET_PRIVATE 0 in
  Ok (mk_state os_disk private_num sets boot_partition_nums table).

(** *** Reading the flags *)

Definition gpt_attributes (self : State G) (num_part : Z) : result sp_error GptPrio :=
  ok_or (attribute_bits (table self) num_part) SpPanicked.

Definition boot_num (self : State G) (select : SetSelect) : result sp_error Z :=
  ok_or (boot_partition_nums self !! idx select) SpPanicked.

Definition gptprio (self : State G) (select : SetSelect) : result sp_error GptPrio :=
  let? n := boot_num self select in gpt_attributes self n.

Definition set_gpt_attributes (num_part : Z) (flags : GptPrio) : stres (State G) sp_error unit :=
  λ self,
    match set_attribute_bits num_part flags (table self) with
    | Some t =>
        (mk_state (os_disk self) (private_partition_num self) (sets self)
           (boot_partition_nums self) t, Ok tt)
    | None => (self, Err SpPanicked)
    end.

Definition set_gptprio (select : SetSelect) (flags : GptPrio) : stres (State G) sp_error unit :=
  let! n := st_read (λ self, boot_num self select) in
  set_gpt_attributes n flags.

Definition active (self : State G) : SetSelect :=
  match sets self with Dual _ active => active | Single _ => A end.

Definition inactive (self : State G) : option SetSelect :=
  match sets self with Dual _ active => Some (set_not active) | Single _ => None end.

Definition active_set (self : State G) : PartitionSet :=
  match sets self with Dual s active => set_at s active | Single set => set end.

Definition inactive_set (self : State G) : option PartitionSet :=
  match sets self with Dual s active => Some (set_at s (set_not active)) | Single _ => None end.

Definition next (self : State G) : result sp_error (option SetSelect) :=
  match sets self with
  | Single _ =>
      let? a := gptprio self A in
      Ok (if will_boot a then Some A else None)
  | Dual _ _ =>
      let? gptprio_a := gptprio self A in
      let? gptprio_b := gptprio self B in
      Ok (match will_boot gptprio_a, will_boot gptprio_b with
          | true, true =>
              if (priority gptprio_b <=? priority gptprio_a)%Z then Some A else Some B
          | true, false => Some A
          | false, true => Some B
          | false, false => None
          end)
  end.

(** *** Changing the flags *)

Definition mark_successful_boot : stres (State G) sp_error unit :=
  let! flags := st_read (λ self, gptprio self (active self)) in
  let! sel := st_read (λ self, Ok (active self)) in
  let! _ := set_gptprio sel (set_successful flags true) in
  let! private_flags :=
    st_read (λ self, gpt_attributes self (private_partition_num self)) in
  let! num := st_read (λ self, Ok (private_partition_num self)) in
  set_gpt_attributes num (boot_has_succeeded private_flags).

(** [self.inactive().context(InactiveNotAvailable)?] *)
Definition require_inactive : stres (State G) sp_error SetSelect :=
  st_read (λ self, ok_or (inactive self) InactiveNotAvailable).

(** [let mut flags = self.gptprio(select); ..; self.set_gptprio(select, flags)] *)
Definition update_flags (select : SetSelect) (f : GptPrio → GptPrio) :
    stres (State G) sp_error unit :=
  let! flags := st_read (λ self, gptprio self select) in
  set_gptprio select (f flags).

Definition update_active (f : GptPrio → GptPrio) : stres (State G) sp_error unit :=
  let! sel := st_read (λ self, Ok (active self)) in update_flags sel f.

Definition clear_inactive : stres (State G) sp_error unit :=
  let! inactive := require_inactive in
  update_flags inactive (λ flags,
    set_successful (set_tries_left (set_priority flags 0) 0) false).

Definition mark_inactive_valid : stres (State G) sp_error unit :=
  let! inactive := require_inactive in
  update_flags inactive (λ flags, set_tries_left flags 1).

Definition upgrade_to_inactive : stres (State G) sp_error unit :=
  let! inactive := require_inactive in
  let! inactive_flags := st_read (λ self, gptprio self inactive) in
  let! _ := st_lift (ensure ((priority inactive_flags =? 0)%Z && negb (successful inactive_flags))
                       InactiveAlreadyMarked) in
  let! _ := st_lift (ensure (0 <? tries_left inactive_flags)%Z InactiveNotValid) in
  let! _ := set_gptprio inactive (set_successful (set_priority inactive_flags 2) false) in
  update_active (λ flags, set_priority flags 1).

Definition cancel_upgrade : stres (State G) sp_error unit :=
  let! inactive := require_inactive in
  let! _ := update_flags inactive (λ flags, set_priority flags 0) in
  update_active (λ flags, set_priority flags 2).

Definition rollback_to_inactive : stres (State G) sp_error unit :=
  let! inactive := require_inactive in
  let! inactive_flags := st_read (λ self, gptprio self inactive) in
  let! _ := st_lift (ensure (will_boot inactive_flags)
              (InactiveInvalidRollback (priority inactive_flags) (tries_left inactive_flags)
                 (successful inactive_flags))) in
  let! _ := set_gptprio inactive (set_priority inactive_flags 2) in
  update_active (λ flags, set_priority flags 1).

(** [State::has_boot_succeeded]. *)
Definition state_has_boot_succeeded (self : State G) : result sp_error bool :=
  let? private_flags := gpt_attributes self (private_partition_num self) in
  Ok (has_boot_succeeded private_flags).

(** *** The commands of [main.rs] *)

Inductive Command :=
| Status
| MarkSuccessfulBoot
| MarkInactiveValid
| ClearInactive
| UpgradeToInactive
| CancelUpgrade
| RollbackToInactive
| HasBootEverSucceeded
| RewriteTable.

(** The state change of a command; the table is written back after a success
    of every command but [Status] and [HasBootEverSucceeded]. *)
Definition run_command (command : Command) : stres (State G) sp_error unit :=
  match command with
  | Status => st_ret tt
  | ClearInactive => clear_inactive
  | MarkSuccessfulBoot => mark_successful_boot
  | MarkInactiveValid => mark_inactive_valid
  | UpgradeToInactive => upgrade_to_inactive
  | CancelUpgrade => cancel_upgrade
  | RollbackToInactive => rollback_to_inactive
  | HasBootEverSucceeded => st_ret tt
  | RewriteTable => st_ret tt
  end.
End state.

(** ** Specification: the flags of the two sets *)

Record flags := mk_flags { f_priority : Z; f_tries : Z; f_successful : bool }.
Record view := mk_view { v_active : flags; v_inactive : flags; v_boot_succeeded : bool }.

Definition flags_will_boot (f : flags) : bool :=
  ((0 <? f_priority f)%Z && (0 <? f_tries f)%Z) || f_successful f.

(** What each command means on a disk with two sets. *)
Definition spec_command (c : Command) (v : view) : result sp_error view :=
  let '(mk_view a i ok) := v in
  match c with
  | Status | HasBootEverSucceeded | RewriteTable => Ok v
  | MarkSuccessfulBoot => Ok (mk_view (mk_flags (f_priority a) (f_tries a) true) i true)
  | ClearInactive => Ok (mk_view a (mk_flags 0 0 false) ok)
  | MarkInactiveValid => Ok (mk_view a (mk_flags (f_priority i) 1 (f_successful i)) ok)
  | UpgradeToInactive =>
      if negb ((f_priority i =? 0)%Z && negb (f_successful i)) then Err InactiveAlreadyMarked
      else if negb (0 <? f_tries i)%Z then Err InactiveNotValid
      else Ok (mk_view (mk_flags 1 (f_tries a) (f_successful a)) (mk_flags 2 (f_tries i) false) ok)
  | CancelUpgrade =>
      Ok (mk_view (mk_flags 2 (f_tries a) (f_successful a))
            (mk_flags 0 (f_tries i) (f_successful i)) ok)
  | RollbackToInactive =>
      if negb (flags_will_boot i)
      then Err (InactiveInvalidRollback (f_priority i) (f_tries i) (f_successful i))
      else Ok (mk_view (mk_flags 1 (f_tries a) (f_successful a))
                 (mk_flags 2 (f_tries i) (f_successful i)) ok)
  end.

(** Which set boots next, relative to the running one. *)
Definition spec_next (act : SetSelect) (v : view) : option SetSelect :=
  let a := match act with A => v_active v | B => v_inactive v end in
  let b := match act with A => v_inactive v | B => v_active v end in
  match flags_will_boot a, flags_will_boot b with
  | true, true => if (f_priority b <=? f_priority a)%Z then Some A else Some B
  | true, false => Some A
  | false, true => Some B
  | false, false => None
  end.

(** ** The state invariant *)

Section facts.
Context `{BitField} `{Gpt G}.

Definition decode (v : GptPrio) : flags := mk_flags (priority v) (tries_left v) (successful v).

(** The partitions the state points at exist and are different. *)
Record st_wf (st : State G) : Prop := {
  wf_shape : match sets st with
             | Single _ => length (boot_partition_nums st) = 1
             | Dual _ _ => length (boot_partition_nums st) = 2
             end;
  wf_nums : NoDup (private_partition_num st :: boot_partition_nums st);
  wf_bits : Forall (λ n, is_Some (attribute_bits (table st) n))
              (private_partition_num st :: boot_partition_nums st) }.

(** The flags of a state with two sets. *)
Definition has_view (st : State G) (v : view) : Prop :=
  ∃ s act a i p,
    sets st = Dual s act ∧ gptprio st act = Ok a ∧ gptprio st (set_not act) = Ok i ∧
    gpt_attributes st (private_partition_num st) = Ok p ∧
    v = mk_view (decode a) (decode i) (has_boot_succeeded p).

(** What an operation may not touch. *)
Record same_disk (st st' : State G) : Prop := {
  sd_disk : os_disk st' = os_disk st;
  sd_private : private_partition_num st' = private_partition_num st;
  sd_sets : sets st' = sets st;
  sd_nums : boot_partition_nums st' = boot_partition_nums st;
  sd_iter : gpt_iter (table st') = gpt_iter (table st);
  sd_other : ∀ n, n ∉ private_partition_num st :: boot_partition_nums st →
    attribute_bits (table st') n = attribute_bits (table st) n }.

#[global] Instance same_disk_preorder : PreOrder same_disk.
Proof.
  split.
  - by intros st; split.
  - intros st1 st2 st3 [] []. split; try congruence. intros n Hn.
    rewrite sd_other1; [by apply sd_other0|]. congruence.
Qed.

Lemma set_gpt_attributes_spec st n v :
  st_wf st → n ∈ private_partition_num st :: boot_partition_nums st →
  ∃ st', set_gpt_attributes n v st = (st', Ok tt) ∧ same_disk st st' ∧ st_wf st' ∧
    ∀ m, attribute_bits (table st') m = if decide (m = n) then Some v else attribute_bits (table st) m.
Proof.
  intros [Hs Hn Hb] Hin. rewrite Forall_forall in Hb.
  destruct (gpt_set_is_Some (table st) n v (Hb n Hin)) as [t Ht].
  unfold set_gpt_attributes. rewrite Ht. eexists. split; [done|].
  pose proof (gpt_get_set (table st) n v t) as Hget. specialize (λ m, Hget m Ht).
  split_and!.
  - split; try done; cbn; [by eapply gpt_set_iter|]. intros m Hm. rewrite Hget, decide_False; [done|].
    by intros ->.
  - split; cbn; [done|done|]. apply Forall_forall. intros m Hm. rewrite Hget.
    case_decide; [done|]. by apply Hb.
  - done.
Qed.

Definition dual (st : State G) : Prop := ∃ s act, sets st = Dual s act.

Lemma boot_num_dual st sel :
  st_wf st → dual st → ∃ n, boot_num st sel = Ok n ∧ boot_partition_nums st !! idx sel = Some n.
Proof.
  intros [Hs _ _] (s & act & Hd). rewrite Hd in Hs. unfold boot_num.
  destruct (boot_partition_nums st) as [|a [|b [|]]]; try done.
  destruct sel; by eexists.
Qed.

Lemma set_gptprio_spec st sel v :
  st_wf st → dual st →
  ∃ st', set_gptprio sel v st = (st', Ok tt) ∧ same_disk st st' ∧ st_wf st' ∧
    gptprio st' sel = Ok v ∧ (∀ sel', sel' ≠ sel → gptprio st' sel' = gptprio st sel') ∧
    gpt_attributes st' (private_partition_num st) = gpt_attributes st (private_partition_num st).
Proof.
  intros Hwf Hd. destruct (boot_num_dual st sel Hwf Hd) as (n & Hn & Hi).
  assert (n ∈ boot_partition_nums st) as Hin by (by eapply list_elem_of_lookup_2).
  destruct (set_gpt_attributes_spec st n v Hwf) as (st' & Hs & Hsd & Hwf' & Hget); [by right|].
  exists st'. unfold set_gptprio, st_bind, st_read. rewrite Hn, Hs. destruct Hsd as [].
  assert (st_wf st) as [_ Hnd _] by done. apply NoDup_cons in Hnd as [Hp Hnd].
  split_and!; try done.
  - unfold gptprio, boot_num, gpt_attributes. rewrite sd_nums0, Hi. cbn.
    by rewrite Hget, decide_True.
  - intros sel' Hne. unfold gptprio, boot_num, gpt_attributes. rewrite sd_nums0.
    destruct (boot_partition_nums st !! idx sel') as [m|] eqn:Em; [|done]. cbn.
    rewrite Hget, decide_False; [done|]. intros ->.
    pose proof (NoDup_lookup _ _ _ _ Hnd Hi Em) as E. by destruct sel, sel'.
  - unfold gpt_attributes. rewrite Hget, decide_False; [done|]. by intros <-.
Qed.

Lemma dual_same st st' : same_disk st st' → dual st → dual st'.
Proof. intros [] (s & act & Hd). exists s, act. congruence. Qed.

(** Changing the flags of one set of a state whose flags are known. *)
Lemma update_flags_spec st sel f v :
  st_wf st → dual st → gptprio st sel = Ok v →
  ∃ st', update_flags sel f st = (st', Ok tt) ∧ same_disk st st' ∧ st_wf st' ∧
    gptprio st' sel = Ok (f v) ∧ (∀ sel', sel' ≠ sel → gptprio st' sel' = gptprio st sel') ∧
    gpt_attributes st' (private_partition_num st) = gpt_attributes st (private_partition_num st).
Proof.
  intros Hwf Hd Hv. unfold update_flags, st_bind, st_read. rewrite Hv. by apply set_gptprio_spec.
Qed.

Lemma has_view_intro st s act a i p :
  sets st = Dual s act → gptprio st act = Ok a → gptprio st (set_not act) = Ok i →
  gpt_attributes st (private_partition_num st) = Ok p →
  has_view st (mk_view (decode a) (decode i) (has_boot_succeeded p)).
Proof. intros. exists s, act, a, i, p. by split_and!. Qed.

Lemma set_not_ne sel : set_not sel ≠ sel ∧ sel ≠ set_not sel.
Proof. by destruct sel. Qed.

(** First the inactive set, then the active one, as three of the commands do. *)
Lemma update_both_spec st s act a i p f g :
  st_wf st → sets st = Dual s act → gptprio st act = Ok a → gptprio st (set_not act) = Ok i →
  gpt_attributes st (private_partition_num st) = Ok p →
  ∃ st1 st2, set_gptprio (set_not act) (f i) st = (st1, Ok tt) ∧
    update_active g st1 = (st2, Ok tt) ∧ same_disk st st2 ∧ st_wf st2 ∧
    has_view st2 (mk_view (decode (g a)) (decode (f i)) (has_boot_succeeded p)).
Proof.
  intros Hwf Hd Ha Hi Hp. destruct (set_not_ne act) as [Hn1 Hn2].
  destruct (set_gptprio_spec st (set_not act) (f i) Hwf) as (st1 & E1 & S1 & W1 & V1 & O1 & P1);
    [by exists s, act|].
  assert (sets st1 = Dual s act) as Hd1 by (destruct S1; congruence).
  assert (gptprio st1 act = Ok a) as Ha1 by (by rewrite O1).
  destruct (update_flags_spec st1 act g a W1) as (st2 & E2 & S2 & W2 & V2 & O2 & P2);
    [by exists s, act|done|].
  exists st1, st2. split_and!; [done| |by etrans|done|].
  - unfold update_active, st_bind, st_read, active. by rewrite Hd1.
  - apply (has_view_intro st2 s act); [destruct S2; congruence|done|by rewrite O2|].
    destruct S1 as [_ Hpn1 _ _ _ _], S2 as [_ Hpn2 _ _ _ _]. rewrite Hpn2, P2, Hpn1, P1. done.
Qed.

Lemma inactive_dual (st : State G) s act : sets st = Dual s act → inactive (st : State G) = Some (set_not act).
Proof. unfold inactive. by intros ->. Qed.

(** An operation on the inactive set alone. *)
Lemma update_inactive_spec st s act a i p f :
  st_wf st → sets st = Dual s act → gptprio st act = Ok a → gptprio st (set_not act) = Ok i →
  gpt_attributes st (private_partition_num st) = Ok p →
  ∃ st', st_bind require_inactive (λ sel, update_flags sel f) st = (st', Ok tt) ∧
    same_disk st st' ∧ st_wf st' ∧
    has_view st' (mk_view (decode a) (decode (f i)) (has_boot_succeeded p)).
Proof.
  intros Hwf Hd Ha Hi Hp. destruct (set_not_ne act) as [Hn1 Hn2].
  destruct (update_flags_spec st (set_not act) f i Hwf) as (st1 & E1 & S1 & W1 & V1 & O1 & P1);
    [by exists s, act|done|].
  exists st1. unfold require_inactive, st_bind, st_read. rewrite (inactive_dual _ _ _ Hd).
  split_and!; [done..|]. apply (has_view_intro st1 s act); [destruct S1; congruence|by rewrite O1|done|].
  destruct S1 as [_ Hpn _ _ _ _]. by rewrite Hpn, P1.
Qed.

Lemma mark_successful_boot_spec st s act a i p :
  st_wf st → sets st = Dual s act → gptprio st act = Ok a → gptprio st (set_not act) = Ok i →
  gpt_attributes st (private_partition_num st) = Ok p →
  ∃ st', mark_successful_boot st = (st', Ok tt) ∧ same_disk st st' ∧ st_wf st' ∧
    has_view st' (mk_view (decode (set_successful a true)) (decode i) true).
Proof.
  intros Hwf Hd Ha Hi Hp. destruct (set_not_ne act) as [Hn1 Hn2].
  destruct (set_gptprio_spec st act (set_successful a true) Hwf)
    as (st1 & E1 & S1 & W1 & V1 & O1 & P1); [by exists s, act|].
  destruct (set_gpt_attributes_spec st1 (private_partition_num st1) (boot_has_succeeded p) W1)
    as (st2 & E2 & S2 & W2 & Hget); [by left|].
  assert (gpt_attributes st1 (private_partition_num st1) = Ok p) as Hp1
    by (destruct S1 as [_ Hpn _ _ _ _]; by rewrite Hpn, P1).
  exists st2. unfold mark_successful_boot, st_bind, st_read, active. rewrite Hd, Ha, E1, Hp1, E2.
  split_and!; [done|by etrans|done|].
  assert (∀ sel, gptprio st2 sel = gptprio st1 sel) as Hsame.
  { intros sel. unfold gptprio, boot_num, gpt_attributes. rewrite (sd_nums _ _ S2).
    destruct (boot_partition_nums st1 !! idx sel) as [n|] eqn:En; [|done]. cbn.
    rewrite Hget, decide_False; [done|]. destruct W1 as [_ Hnd _].
    apply NoDup_cons in Hnd as [Hnp _]. intros ->. by eapply Hnp, list_elem_of_lookup_2. }
  assert (gpt_attributes st2 (private_partition_num st2) = Ok (boot_has_succeeded p)) as Hp2.
  { unfold gpt_attributes. rewrite (sd_private _ _ S2), Hget. by rewrite decide_True. }
  pose proof (has_view_intro st2 s act (set_successful a true) i (boot_has_succeeded p)) as Hview.
  rewrite has_succeeded_boot in Hview. apply Hview.
  - by rewrite (sd_sets _ _ S2), (sd_sets _ _ S1).
  - by rewrite Hsame.
  - rewrite Hsame, O1; done.
  - done.
Qed.

(** The commands implement their specification. *)
Lemma run_command_refines st v c :
  st_wf st → has_view st v →
  match spec_command c v with
  | Ok v' => ∃ st', run_command c st = (st', Ok tt) ∧ same_disk st st' ∧ st_wf st' ∧ has_view st' v'
  | Err e => run_command c st = (st, Err e)
  end.
Proof.
  intros Hwf Hv. pose proof Hv as (s & act & a & i & p & Hd & Ha & Hi & Hp & ->).
  destruct c; cbn [run_command spec_command decode f_priority f_tries f_successful].
  1, 8-9: exists st; by split_and!.
  - destruct (mark_successful_boot_spec st s act a i p) as (st' & ? & ? & ? & Hv'); [done..|].
    exists st'. split_and!; try done. unfold decode in Hv'. by autorewrite with gptprio in Hv'.
  - destruct (update_inactive_spec st s act a i p (λ flags, set_tries_left flags 1))
      as (st' & ? & ? & ? & Hv'); [done..|].
    exists st'. split_and!; try done. unfold decode in Hv'. by autorewrite with gptprio in Hv'.
  - destruct (update_inactive_spec st s act a i p
      (λ flags, set_successful (set_tries_left (set_priority flags 0) 0) false))
      as (st' & ? & ? & ? & Hv'); [done..|].
    exists st'. split_and!; try done. unfold decode in Hv'. by autorewrite with gptprio in Hv'.
  - destruct (update_both_spec st s act a i p (λ i, set_successful (set_priority i 2) false)
      (λ flags, set_priority flags 1)) as (st1 & st2 & E1 & E2 & ? & ? & Hv'); [done..|].
    unfold upgrade_to_inactive, require_inactive, st_bind, st_read, st_lift.
    rewrite (inactive_dual _ _ _ Hd). cbn [ok_or]. rewrite Hi.
    destruct (_ && negb (successful i)); [|done]. destruct (0 <? tries_left i)%Z; [|done].
    cbn [ensure negb]. rewrite E1, E2. exists st2. split_and!; try done.
    unfold decode in Hv'. by autorewrite with gptprio in Hv'.
  - destruct (update_both_spec st s act a i p (λ i, set_priority i 0)
      (λ flags, set_priority flags 2)) as (st1 & st2 & E1 & E2 & ? & ? & Hv'); [done..|].
    unfold cancel_upgrade, require_inactive, update_flags, st_bind, st_read.
    rewrite (inactive_dual _ _ _ Hd). cbn [ok_or]. rewrite Hi, E1, E2.
    exists st2. split_and!; try done. unfold decode in Hv'. by autorewrite with gptprio in Hv'.
  - destruct (update_both_spec st s act a i p (λ i, set_priority i 2)
      (λ flags, set_priority flags 1)) as (st1 & st2 & E1 & E2 & ? & ? & Hv'); [done..|].
    unfold rollback_to_inactive, require_inactive, st_bind, st_read, st_lift.
    rewrite (inactive_dual _ _ _ Hd). cbn [ok_or]. rewrite Hi.
    change (flags_will_boot _) with (will_boot i). destruct (will_boot i); [|done].
    cbn [ensure negb]. rewrite E1, E2. exists st2. split_and!; try done.
    unfold decode in Hv'. by autorewrite with gptprio in Hv'.
Qed.

Lemma next_refines st v s act :
  has_view st v → sets st = Dual s act → next st = Ok (spec_next act v).
Proof.
  intros (s' & act' & a & i & p & Hd & Ha & Hi & _ & ->) Hd'. rewrite Hd in Hd'.
  injection Hd' as -> ->. unfold next. rewrite Hd.
  destruct act; cbn [set_not] in Hi; rewrite Ha, Hi; done.
Qed.
End facts.

(** A partition table for evaluation: entries by number. *)
Definition example_table : Type := gmap Z (part_type * Z).
Definition example_gpt : Gpt example_table.
Proof.
  refine {| gpt_iter m := map_to_list (fst <$> m);
            attribute_bits m n := snd <$> (m !! n);
            set_attribute_bits n v m := (λ tv, <[n := (tv.1, v)]> m) <$> (m !! n) |}.
  - intros m. apply NoDup_fst_map_to_list.
  - intros m n t Hin%elem_of_map_to_list. apply lookup_fmap_Some in Hin as (tv & _ & ->). by eexists.
  - intros m n v. destruct (m !! n); [by eexists|by intros []].
  - intros m n v m' Hm. destruct (m !! n) as [[t w]|] eqn:E; [|done]. injection Hm as <-.
    rewrite fmap_insert, insert_id; [done|]. by rewrite lookup_fmap, E.
  - intros m n v m' k Hm. destruct (m !! n) as [[t w]|] eqn:E; [|done]. injection Hm as <-.
    case_decide as Hk; [subst; by rewrite lookup_insert_eq|by rewrite lookup_insert_ne].
Defined.

(** A disk running set A, both sets having booted before. *)
Definition example_flags : Z := 0x0121000000000000.
Definition example_state : State example_table :=
  mk_state "/dev/sda" 7 (Dual (mk_set "a1" "a2" "a3", mk_set "b1" "b2" "b3") A) [1; 4]%Z
    {[ 1%Z := (BOTTLEROCKET_BOOT, example_flags); 4%Z := (BOTTLEROCKET_BOOT, 0%Z);
       7%Z := (BOTTLEROCKET_PRIVATE, 0%Z) ]}.
Definition example_view : view := mk_view (mk_flags 1 2 true) (mk_flags 0 0 false) false.

Lemma example_state_wf : @st_wf _ example_gpt example_state.
Proof.
  split; [reflexivity|apply (bool_decide_unpack _); vm_compute; exact I|].
  repeat (apply Forall_cons; split); try (eexists; reflexivity). by apply Forall_nil.
Qed.

Lemma example_state_view : @has_view z_bit_field _ example_gpt example_state example_view.
Proof. do 5 eexists. split_and!; reflexivity. Qed.

(** ** Properties *)

(** C34. Every signpost command implements its specification on the flags of the
    two partition sets: on a disk with two sets it succeeds with the specified
    flags or fails with the specified error and no change, never panics, and
    touches nothing but the attribute bits of the boot and private partitions. *)
Theorem signpost_commands_refine `{BitField} `{Gpt G} (st : State G) v c :
  st_wf st → has_view st v →
  match spec_command c v with
  | Ok v' => ∃ st', run_command c st = (st', Ok tt) ∧ same_disk st st' ∧ st_wf st' ∧ has_view st' v'
  | Err e => run_command c st = (st, Err e)
  end.
Proof. apply run_command_refines. Qed.

Lemma signpost_commands_refine_witness :
  @run_command z_bit_field _ example_gpt UpgradeToInactive example_state =
  (example_state, Err InactiveNotValid).
Proof.
  exact (@signpost_commands_refine z_bit_field _ example_gpt example_state example_view
    UpgradeToInactive example_state_wf example_state_view).
Defined.

Fixpoint run_commands `{BitField} `{Gpt G} (cs : list Command) : stres (State G) sp_error unit :=
  match cs with
  | [] => st_ret tt
  | c :: cs => st_bind (run_command c) (λ _, run_commands cs)
  end.

Section runs.
Context `{BitField} `{Gpt G}.

(** One command leads to a state with the specified view. *)
Lemma run_commands_cons st v v' c cs :
  st_wf st → has_view st v → spec_command c v = Ok v' →
  ∃ st', same_disk st st' ∧ st_wf st' ∧ has_view st' v' ∧
    run_commands (c :: cs) st = run_commands cs st'.
Proof.
  intros Hwf Hv Hs. pose proof (run_command_refines st v c Hwf Hv) as Hr. rewrite Hs in Hr.
  destruct Hr as (st' & Hr & ? & ? & ?). exists st'. split_and!; [done..|].
  cbn. unfold st_bind. by rewrite Hr.
Qed.

Lemma has_view_dual st v : has_view st v → ∃ s, sets st = Dual s (active st).
Proof.
  intros (s & act & a & i & p & Hd & _). exists s. unfold active. by rewrite Hd.
Qed.

Lemma next_of_view st st' v v' :
  has_view st v → same_disk st st' → has_view st' v' → next st' = Ok (spec_next (active st) v').
Proof.
  intros [s Hd]%has_view_dual Hsd Hv'. apply (next_refines st' v' s); [done|].
  by rewrite (sd_sets _ _ Hsd).
Qed.
End runs.

(** Applying an update: clearing the inactive set, marking the new image valid
    and upgrading always succeed in this order, and the inactive set boots next. *)
Lemma update_boots_inactive `{BitField} `{Gpt G} (st : State G) v :
  st_wf st → has_view st v →
  ∃ st', run_commands [ClearInactive; MarkInactiveValid; UpgradeToInactive] st = (st', Ok tt) ∧
    next st' = Ok (Some (set_not (active st))).
Proof.
  intros Hwf Hv. destruct v as [a i ok].
  destruct (run_commands_cons st _ _ ClearInactive [MarkInactiveValid; UpgradeToInactive] Hwf Hv eq_refl)
    as (st1 & S1 & W1 & V1 & ->).
  destruct (run_commands_cons st1 _ _ MarkInactiveValid [UpgradeToInactive] W1 V1 eq_refl)
    as (st2 & S2 & W2 & V2 & ->).
  destruct (run_commands_cons st2 _ _ UpgradeToInactive [] W2 V2 eq_refl)
    as (st3 & S3 & W3 & V3 & ->).
  exists st3. split; [done|]. erewrite (next_of_view st st3); [|exact Hv|by etrans; [|etrans]|exact V3].
  f_equal. unfold spec_next, flags_will_boot. cbn.
  destruct (active st); cbn; destruct (_ || f_successful a); done.
Qed.

Lemma update_boots_inactive_witness :
  ∃ st', @run_commands z_bit_field _ example_gpt
           [ClearInactive; MarkInactiveValid; UpgradeToInactive] example_state = (st', Ok tt) ∧
    @next z_bit_field _ example_gpt st' = Ok (Some B).
Proof.
  exact (@update_boots_inactive z_bit_field _ example_gpt example_state example_view
    example_state_wf example_state_view).
Defined.

(** Rolling back is refused exactly when the inactive set would not boot, and
    otherwise makes the inactive set boot next. *)
Lemma rollback_boots_inactive `{BitField} `{Gpt G} (st : State G) v :
  st_wf st → has_view st v →
  if flags_will_boot (v_inactive v)
  then ∃ st', run_command RollbackToInactive st = (st', Ok tt) ∧
         next st' = Ok (Some (set_not (active st)))
  else ∃ p t s, run_command RollbackToInactive st = (st, Err (InactiveInvalidRollback p t s)).
Proof.
  intros Hwf Hv. pose proof (run_command_refines st v RollbackToInactive Hwf Hv) as Hr.
  destruct v as [a i ok]. cbn in *. destruct (flags_will_boot i) eqn:Hi; cbn in Hr; [|by do 3 eexists].
  destruct Hr as (st' & Hr & Hsd & _ & Hv'). exists st'. split; [done|].
  erewrite (next_of_view st st'); [|exact Hv|done|exact Hv']. f_equal.
  assert (flags_will_boot (mk_flags 2 (f_tries i) (f_successful i)) = true) as Hi'.
  { unfold flags_will_boot in *. cbn in *. destruct (f_successful i); [by rewrite orb_true_r|].
    rewrite orb_false_r in *. by apply andb_true_iff in Hi as [_ ->]. }
  unfold spec_next. destruct (active st); cbn [v_active v_inactive]; rewrite Hi'.
  - by destruct (flags_will_boot (mk_flags 1 _ _)).
  - by destruct (flags_will_boot (mk_flags 1 _ _)).
Qed.

Lemma rollback_boots_inactive_witness :
  ∃ p t s, @run_command z_bit_field _ example_gpt RollbackToInactive example_state =
    (example_state, Err (InactiveInvalidRollback p t s)).
Proof.
  exact (@rollback_boots_inactive z_bit_field _ example_gpt example_state example_view
    example_state_wf example_state_view).
Defined.

(** Cancelling an upgrade: when the running set has booted successfully and
    the inactive one has not, the running set boots next after
    [cancel-upgrade]. *)
Lemma cancel_keeps_active `{BitField} `{Gpt G} (st : State G) v :
  st_wf st → has_view st v → f_successful (v_active v) = true →
  f_successful (v_inactive v) = false →
  ∃ st', run_command CancelUpgrade st = (st', Ok tt) ∧ next st' = Ok (Some (active st)).
Proof.
  intros Hwf Hv Ha Hi. pose proof (run_command_refines st v CancelUpgrade Hwf Hv) as Hr.
  destruct v as [a i ok]. cbn in Ha, Hi, Hr. destruct Hr as (st' & Hr & Hsd & _ & Hv').
  exists st'. split; [done|]. erewrite (next_of_view st st'); [|exact Hv|done|exact Hv']. f_equal.
  unfold spec_next, flags_will_boot. destruct (active st); cbn; rewrite Ha, Hi, orb_true_r; done.
Qed.

Lemma cancel_keeps_active_witness :
  ∃ st', @run_command z_bit_field _ example_gpt CancelUpgrade example_state = (st', Ok tt) ∧
    @next z_bit_field _ example_gpt st' = Ok (Some A).
Proof.
  exact (@cancel_keeps_active z_bit_field _ example_gpt example_state example_view
    example_state_wf example_state_view eq_refl eq_refl).
Defined.

(** *** Sequences of commands *)

(** One invocation of signpost on the disk, whether it succeeds or fails. *)
Inductive step `{BitField} `{Gpt G} : State G → State G → Prop :=
| step_command c st st' r : run_command c st = (st', r) → step st st'.

Section reach.
Context `{BitField} `{Gpt G}.

Lemma spec_command_successful c v v' :
  spec_command c v = Ok v' →
  (f_successful (v_active v) = true → f_successful (v_active v') = true) ∧
  (v_boot_succeeded v = true → v_boot_succeeded v' = true).
Proof.
  destruct v as [a i ok]. destruct c; cbn; intros Hs; repeat case_match; simplify_eq; done.
Qed.

Lemma reach_inv (st0 st : State G) v0 :
  st_wf st0 → has_view st0 v0 → rtc step st0 st →
  st_wf st ∧ same_disk st0 st ∧ ∃ v, has_view st v ∧
    (f_successful (v_active v0) = true → f_successful (v_active v) = true) ∧
    (v_boot_succeeded v0 = true → v_boot_succeeded v = true).
Proof.
  intros Hwf Hv Hr. revert Hr. apply (rtc_ind_r (λ st, st_wf st ∧ same_disk st0 st ∧ ∃ v, has_view st v ∧
    (f_successful (v_active v0) = true → f_successful (v_active v) = true) ∧
    (v_boot_succeeded v0 = true → v_boot_succeeded v = true)) st0).
  { split_and!; [done..|]. by exists v0. }
  intros st1 st2 _ Hst (Hw1 & Hd1 & v1 & Hv1 & Ha1 & Hb1). destruct Hst as [c st1 st2 r Hc].
  pose proof (run_command_refines st1 v1 c Hw1 Hv1) as Hr.
  destruct (spec_command c v1) as [v2|e] eqn:Hs.
  - destruct Hr as (st' & Hr & Hd2 & Hw2 & Hv2). rewrite Hc in Hr. injection Hr as -> ->.
    apply spec_command_successful in Hs as [Ha2 Hb2].
    split_and!; [done|by etrans|]. exists v2. auto.
  - rewrite Hc in Hr. injection Hr as -> ->. split_and!; [done..|]. by exists v1.
Qed.
End reach.

(** C1. The running system stays bootable: once the running set is marked as
    successfully booted, whatever signpost commands are run afterwards, in any
    order and whether they succeed or fail, some set boots next; and the record
    that boot has ever succeeded is never lost. *)
Theorem never_unbootable `{BitField} `{Gpt G} (st0 st : State G) v0 :
  st_wf st0 → has_view st0 v0 → f_successful (v_active v0) = true → rtc step st0 st →
  (∃ sel, next st = Ok (Some sel)) ∧
  (state_has_boot_succeeded st0 = Ok true → state_has_boot_succeeded st = Ok true).
Proof.
  intros Hwf Hv Hs Hr. pose proof Hv as (s0 & act0 & a0 & i0 & p0 & _ & _ & _ & Hp0 & Ev0).
  destruct (reach_inv st0 st v0 Hwf Hv Hr) as (Hw & Hd & v & Hv' & Ha & Hb). split.
  - erewrite (next_of_view st0 st); [|exact Hv|done|exact Hv'].
    assert (flags_will_boot (v_active v) = true) as Hwb.
    { unfold flags_will_boot. rewrite Ha by done. apply orb_true_r. }
    unfold spec_next. destruct (active st0); rewrite Hwb.
    + destruct (flags_will_boot (v_inactive v)); [destruct (_ <=? _)%Z|]; by eexists.
    + destruct (flags_will_boot (v_inactive v)); [destruct (_ <=? _)%Z|]; by eexists.
  - destruct Hv' as (s & act & a & i & p & _ & _ & _ & Hp & Ev). unfold state_has_boot_succeeded.
    rewrite Hp0, Hp. cbn. intros [= Hb0]. f_equal. subst v0 v. by apply Hb.
Qed.

Lemma never_unbootable_witness :
  let st := fst (@run_command z_bit_field _ example_gpt ClearInactive example_state) in
  ∃ sel, @next z_bit_field _ example_gpt st = Ok (Some sel).
Proof.
  intros st.
  apply (@never_unbootable z_bit_field _ example_gpt example_state st example_view
    example_state_wf example_state_view eq_refl).
  apply rtc_once. apply (step_command ClearInactive example_state st (Ok tt)). vm_compute. reflexivity.
Defined.

(** ** Loading *)

Section load.
Context `{BitField} `{Gpt G}.

Lemma nth_guid_elem (t : G) guid n num :
  nth_guid t guid n = Some num → (num, guid) ∈ gpt_iter t.
Proof.
  unfold nth_guid. intros ([num' guid'] & Hl & ->)%fmap_Some.
  apply list_elem_of_lookup_2, list_elem_of_filter in Hl as [Hg Hin]. cbn in *. by subst.
Qed.

(** Partitions of different types, or at different places of one type, differ. *)
Lemma nth_guid_inj (t : G) g1 n1 g2 n2 num :
  nth_guid t g1 n1 = Some num → nth_guid t g2 n2 = Some num → g1 = g2 ∧ n1 = n2.
Proof.
  intros H1 H2. pose proof (nth_guid_elem _ _ _ _ H1) as E1. pose proof (nth_guid_elem _ _ _ _ H2) as E2.
  assert (g1 = g2) as ->.
  { apply list_elem_of_lookup in E1 as [i Hi], E2 as [j Hj].
    pose proof (gpt_iter_NoDup t) as Hnd.
    assert (i = j) as ->; [|congruence].
    eapply (NoDup_lookup (gpt_iter t).*1); [done|..]; rewrite list_lookup_fmap; [by rewrite Hi|by rewrite Hj]. }
  split; [done|]. unfold nth_guid in H1, H2.
  apply fmap_Some in H1 as (p1 & H1 & ->), H2 as (p2 & H2 & Hp).
  eapply (NoDup_lookup (filter (λ p, p.2 = g2) (gpt_iter t)).*1).
  - eapply sublist_NoDup; [apply (gpt_iter_NoDup t)|]. apply fmap_sublist, sublist_filter.
  - rewrite list_lookup_fmap, H1. done.
  - rewrite list_lookup_fmap, H2. cbn. by rewrite Hp.
Qed.

Lemma required_guid_Ok (t : G) g n num :
  required_guid t g n = Ok num ↔ nth_guid t g n = Some num.
Proof. unfold required_guid. apply ok_or_Ok. Qed.

Lemma nth_guid_bits (t : G) g n num :
  nth_guid t g n = Some num → is_Some (attribute_bits t num).
Proof. intros. by eapply gpt_iter_bits, nth_guid_elem. Qed.
Lemma load_sets_spec disk act partition (t : G) st :
  load_sets disk act partition t = Ok st →
  st_wf st ∧ table st = t ∧ os_disk st = disk ∧
  match sets st with
  | Dual _ _ => set_contains (active_set st) act = true
  | Single _ => nth_guid t BOTTLEROCKET_BOOT 1 = None
  end.
Proof.
  unfold load_sets. intros Hl. rinv.
  match goal with H : required_guid _ BOTTLEROCKET_BOOT _ = Ok ?x |- _ =>
    apply required_guid_Ok in H as Ha; rename x into a end.
  match goal with H : required_guid _ BOTTLEROCKET_PRIVATE _ = Ok ?x |- _ =>
    apply required_guid_Ok in H as Hp; rename x into p end.
  assert (p ≠ a) as Hpa by (intros ->; by destruct (nth_guid_inj _ _ _ _ _ _ Ha Hp)).
  destruct (nth_guid t BOTTLEROCKET_BOOT 1) as [b|] eqn:Hb; rinv.
  - assert (p ≠ b) as Hpb by (intros ->; by destruct (nth_guid_inj _ _ _ _ _ _ Hb Hp)).
    assert (a ≠ b) as Hab by (intros ->; by destruct (nth_guid_inj _ _ _ _ _ _ Ha Hb)).
    assert (∃ sa sb sel, x1 = Dual (sa, sb) sel ∧ set_contains (set_at (sa, sb) sel) act = true)
      as (sa & sb & sel & -> & Hc).
    { repeat case_match; simplify_eq; by do 3 eexists. }
    split_and!; cbn; [|done..|done]. split; cbn; [done| |].
    + apply NoDup_cons; split; [set_solver|]. apply NoDup_cons; split; [set_solver|]. apply NoDup_singleton.
    + repeat (apply Forall_cons; split); [by eapply nth_guid_bits..|by apply Forall_nil].
  - split_and!; cbn; [|done..]. split; cbn; [done| |].
    + apply NoDup_cons; split; [set_solver|]. apply NoDup_singleton.
    + repeat (apply Forall_cons; split); [by eapply nth_guid_bits..|by apply Forall_nil].
Qed.
End load.

(** A loaded state is well formed: the boot partitions and the private
    partition exist and are pairwise different, so no later command panics; with
    two sets, the set taken as active contains the partition the system runs
    from. *)
Lemma load_sets_wf `{BitField} `{Gpt G} disk act partition (t : G) st :
  load_sets disk act partition t = Ok st →
  st_wf st ∧ table st = t ∧ os_disk st = disk ∧
  match sets st with
  | Dual _ _ => set_contains (active_set st) act = true
  | Single _ => nth_guid t BOTTLEROCKET_BOOT 1 = None
  end.
Proof. apply load_sets_spec. Qed.

Lemma load_sets_wf_witness :
  let t : example_table :=
    list_to_map [(1, (BOTTLEROCKET_BOOT, 0)); (2, (BOTTLEROCKET_ROOT, 0)); (3, (BOTTLEROCKET_HASH, 0));
      (4, (BOTTLEROCKET_BOOT, 0)); (5, (BOTTLEROCKET_ROOT, 0)); (6, (BOTTLEROCKET_HASH, 0));
      (7, (BOTTLEROCKET_PRIVATE, 0))]%Z in
  let partition n := Ok (Some (match n with 5%Z => "b2" | _ => "x" end)) in
  ∃ st, @load_sets _ example_gpt "/dev/sda" "b2" partition t = Ok st ∧ @st_wf _ example_gpt st ∧
    set_contains (active_set st) "b2" = true.
Proof.
  intros t partition.
  destruct (@load_sets _ example_gpt "/dev/sda" "b2" partition t) as [st|e] eqn:E;
    [|vm_compute in E; discriminate E].
  exists st. split; [reflexivity|].
  destruct (@load_sets_wf z_bit_field _ example_gpt "/dev/sda" "b2" partition t st E) as (Hw & _ & _ & Hm).
  split; [exact Hw|]. vm_compute in E. injection E as <-. exact Hm.
Defined.
