(* ===== verification/BTree.v ===== *)
(** * Ordered keys and [BTreeMap]

    A [BTreeMap] is the list of its entries in strictly increasing key order;
    [bt_insert] is [BTreeMap::insert].  The order is the class [TotalOrd], the
    promise of Rust's [Ord]. *)
From S2P Require Import Prelude.
From Stdlib Require Import Ascii String.
From stdpp Require Import base numbers list sets sorting strings.
From stdpp Require Import options.

Class TotalOrd (K : Type) := {
  cmp : K → K → comparison;
  cmp_eq a b : cmp a b = Eq ↔ a = b;
  cmp_flip a b : cmp b a = CompOpp (cmp a b);
  cmp_lt_trans a b c : cmp a b = Lt → cmp b c = Lt → cmp a c = Lt }.

Global Program Instance z_ord : TotalOrd Z := {| cmp := Z.compare |}.
Next Obligation. intros a b. apply Z.compare_eq_iff. Qed.
Next Obligation. intros a b. apply Z.compare_antisym. Qed.
Next Obligation. intros a b c. rewrite !Z.compare_lt_iff. lia. Qed.

(** The order of [str]: bytewise. *)
Lemma string_compare_trans s1 s2 s3 :
  String.compare s1 s2 = Lt → String.compare s2 s3 = Lt → String.compare s1 s3 = Lt.
Proof.
  revert s2 s3. induction s1 as [|a s1 IH]; intros [|b s2] [|c s3]; cbn; try done.
  unfold Ascii.compare. destruct (N.compare_spec (Ascii.N_of_ascii a) (Ascii.N_of_ascii b)) as [E1|L1|]; [| |done];
    destruct (N.compare_spec (Ascii.N_of_ascii b) (Ascii.N_of_ascii c)) as [E2|L2|]; try done; intros H1 H2.
  - rewrite E1, E2, N.compare_refl. by eapply IH.
  - rewrite E1. by apply N.compare_lt_iff in L2 as ->.
  - rewrite <- E2. by apply N.compare_lt_iff in L1 as ->.
  - assert (Ascii.N_of_ascii a < Ascii.N_of_ascii c)%N as L by lia. by apply N.compare_lt_iff in L as ->.
Qed.

Global Program Instance string_ord : TotalOrd string := {| cmp := String.compare |}.
Next Obligation.
  intros a b. split; [apply String.compare_eq_iff|]. intros ->.
  pose proof (String.compare_antisym b b) as E. by destruct (b ?= b)%string.
Qed.
Next Obligation. intros a b. apply String.compare_antisym. Qed.
Next Obligation. exact string_compare_trans. Qed.

Section ord.
Context `{TotalOrd K}.

Definition olt (a b : K) : Prop := cmp a b = Lt.
Definition ole (a b : K) : Prop := cmp a b ≠ Gt.
Definition oltb (a b : K) : bool := match cmp a b with Lt => true | _ => false end.
Definition oleb (a b : K) : bool := match cmp a b with Gt => false | _ => true end.
Definition oeqb (a b : K) : bool := match cmp a b with Eq => true | _ => false end.

Lemma oltb_spec a b : oltb a b = true ↔ olt a b.
Proof. unfold oltb, olt. by destruct (cmp a b). Qed.
Lemma oleb_spec a b : oleb a b = true ↔ ole a b.
Proof. unfold oleb, ole. by destruct (cmp a b). Qed.
Lemma oeqb_spec a b : oeqb a b = true ↔ a = b.
Proof. rewrite <-cmp_eq. unfold oeqb. by destruct (cmp a b). Qed.

Lemma cmp_refl a : cmp a a = Eq.
Proof. by apply cmp_eq. Qed.
Lemma olt_irrefl a : ¬ olt a a.
Proof. unfold olt. by rewrite cmp_refl. Qed.
Lemma olt_trans a b c : olt a b → olt b c → olt a c.
Proof. apply cmp_lt_trans. Qed.
Lemma ole_refl a : ole a a.
Proof. unfold ole. by rewrite cmp_refl. Qed.
Lemma ole_lt_or_eq a b : ole a b ↔ olt a b ∨ a = b.
Proof. unfold ole, olt. rewrite <-cmp_eq. destruct (cmp a b); naive_solver. Qed.
Lemma olt_ole a b : olt a b → ole a b.
Proof. rewrite ole_lt_or_eq. by left. Qed.
Lemma not_ole a b : ¬ ole a b ↔ olt b a.
Proof. unfold ole, olt. rewrite (cmp_flip a b). destruct (cmp a b); naive_solver. Qed.
Lemma ole_trans a b c : ole a b → ole b c → ole a c.
Proof. rewrite !ole_lt_or_eq. intros [?| ->] [?| ->]; eauto using olt_trans. Qed.
Lemma ole_total a b : ole a b ∨ ole b a.
Proof. unfold ole. rewrite (cmp_flip a b). destruct (cmp a b); naive_solver. Qed.
Lemma ole_antisym a b : ole a b → ole b a → a = b.
Proof.
  rewrite !ole_lt_or_eq. intros [H1|H1] [H2|H2]; try done.
  by destruct (olt_irrefl a (olt_trans a b a H1 H2)).
Qed.

Global Instance ord_eq_dec : EqDecision K | 100.
Proof using Type*.
  intros a b. destruct (oeqb a b) eqn:E; [left|right].
  - by apply oeqb_spec.
  - intros Heq%oeqb_spec. congruence.
Defined.
End ord.

Lemma z_olt (a b : Z) : olt a b ↔ (a < b)%Z.
Proof. unfold olt. cbn. by rewrite Z.compare_lt_iff. Qed.

(** Pairs are ordered lexicographically. *)
Definition prod_cmp {K1 K2} `{TotalOrd K1} `{TotalOrd K2} (a b : K1 * K2) : comparison :=
  match cmp a.1 b.1 with Eq => cmp a.2 b.2 | c => c end.

Global Program Instance prod_ord {K1 K2} `{TotalOrd K1} `{TotalOrd K2} : TotalOrd (K1 * K2) := {|
  cmp := prod_cmp |}.
Next Obligation.
  intros K1 K2 ?? [a1 a2] [b1 b2]; unfold prod_cmp; cbn. destruct (cmp a1 b1) eqn:E.
  - apply cmp_eq in E as ->. pose proof (cmp_eq a2 b2). naive_solver.
  - split; [done|]. intros [= -> ->]. by rewrite cmp_refl in E.
  - split; [done|]. intros [= -> ->]. by rewrite cmp_refl in E.
Qed.
Next Obligation.
  intros K1 K2 ?? [a1 a2] [b1 b2]; unfold prod_cmp; cbn. rewrite (cmp_flip a1 b1), (cmp_flip a2 b2).
  by destruct (cmp a1 b1).
Qed.
Next Obligation.
  intros K1 K2 ?? [a1 a2] [b1 b2] [c1 c2]; unfold prod_cmp; cbn.
  destruct (cmp a1 b1) eqn:E1, (cmp b1 c1) eqn:E2; try done.
  - apply cmp_eq in E1 as ->, E2 as ->. rewrite cmp_refl. apply cmp_lt_trans.
  - apply cmp_eq in E1 as ->. by rewrite E2.
  - apply cmp_eq in E2 as ->. by rewrite E1.
  - by rewrite (cmp_lt_trans a1 b1 c1).
Qed.

(** ** [BTreeMap] *)

Section btree.
Context `{TotalOrd K} {V : Type}.

Fixpoint bt_insert (k : K) (v : V) (m : list (K * V)) : list (K * V) :=
  match m with
  | [] => [(k, v)]
  | (k', v') :: m' =>
      match cmp k k' with
      | Lt => (k, v) :: m
      | Eq => (k, v) :: m'
      | Gt => (k', v') :: bt_insert k v m'
      end
  end.

Fixpoint bt_get (k : K) (m : list (K * V)) : option V :=
  match m with
  | [] => None
  | (k', v') :: m' => if oeqb k k' then Some v' else bt_get k m'
  end.

Definition bt_sorted (m : list (K * V)) : Prop := StronglySorted (λ a b, olt a.1 b.1) m.

Lemma bt_get_insert k k' v m :
  bt_get k (bt_insert k' v m) = if oeqb k k' then Some v else bt_get k m.
Proof.
  induction m as [|[k0 v0] m IH]; cbn; [done|].
  destruct (cmp k' k0) eqn:E; cbn; [|done|].
  - apply cmp_eq in E as ->. by destruct (oeqb k k0).
  - rewrite IH. destruct (oeqb k k0) eqn:E1; [|done]. apply oeqb_spec in E1 as ->.
    destruct (oeqb k0 k') eqn:E2; [|done]. apply oeqb_spec in E2 as ->. by rewrite cmp_refl in E.
Qed.

Lemma bt_insert_elem k v m kv : kv ∈ bt_insert k v m → kv = (k, v) ∨ kv ∈ m.
Proof.
  induction m as [|[k0 v0] m IH]; cbn; [set_solver|].
  destruct (cmp k k0); set_solver.
Qed.

Lemma bt_insert_sorted k v m : bt_sorted m → bt_sorted (bt_insert k v m).
Proof.
  unfold bt_sorted. induction 1 as [|[k0 v0] m Hs IH Hf]; cbn; [by repeat constructor|].
  rewrite Forall_forall in Hf. destruct (cmp k k0) eqn:E.
  - apply cmp_eq in E as ->. constructor; [done|]. by apply Forall_forall.
  - constructor; [by constructor; [|apply Forall_forall]|]. constructor; [done|].
    apply Forall_forall. intros x Hx. apply (olt_trans k k0); [done|]. by apply Hf.
  - constructor; [done|]. apply Forall_forall. intros x [->|Hx]%bt_insert_elem; cbn.
    + unfold olt. rewrite (cmp_flip k k0), E. done.
    + by apply Hf.
Qed.

Lemma bt_get_elem k v m : bt_sorted m → bt_get k m = Some v ↔ (k, v) ∈ m.
Proof.
  unfold bt_sorted. induction 1 as [|[k0 v0] m Hs IH Hf]; cbn; [set_solver|].
  rewrite elem_of_cons, <-IH. rewrite Forall_forall in Hf.
  destruct (oeqb k k0) eqn:E.
  - apply oeqb_spec in E as ->. split; [by intros [= ->]; left|].
    intros [[= ->]|Hin]; [done|]. apply IH in Hin. apply Hf in Hin. by destruct (olt_irrefl k0).
  - split; [by right|]. intros [[= -> ->]|Hin]; [|done].
    by rewrite (proj2 (oeqb_spec k0 k0)) in E.
Qed.

Lemma bt_sorted_nodup m : bt_sorted m → NoDup m.
Proof.
  unfold bt_sorted. induction 1 as [|kv m Hs IH Hf]; [constructor|]. constructor; [|done].
  intros Hin. rewrite Forall_forall in Hf. by destruct (olt_irrefl kv.1 (Hf kv Hin)).
Qed.

(** A map that is collected holds the last entry of each key. *)
Lemma bt_collect_spec `{Heq : !EqDecision K} (l : list (K * V)) :
  let m := foldl (λ m kv, bt_insert kv.1 kv.2 m) [] l in
  bt_sorted m ∧ ∀ e, e ∈ m ↔ last (filter (λ e', e'.1 = e.1) l) = Some e.
Proof.
  set (coll := foldl _ []). assert (bt_sorted (coll l) ∧
    ∀ k v, bt_get k (coll l) = Some v ↔ last (filter (λ e', e'.1 = k) l) = Some (k, v)) as [Hs Hg].
  { induction l as [|[k' v'] l [Hs IH]] using rev_ind; [split; [constructor|done]|].
    unfold coll. rewrite foldl_app. fold (coll l). cbn [foldl]. split; [by apply bt_insert_sorted|]. intros k v.
    cbn [fst snd]. rewrite bt_get_insert, filter_app, filter_cons, filter_nil. cbn [fst].
    destruct (oeqb k k') eqn:E.
    - apply oeqb_spec in E as ->. rewrite decide_True, last_snoc by done. naive_solver.
    - rewrite decide_False, app_nil_r; [apply IH|]. intros ->. by rewrite (proj2 (oeqb_spec _ _)) in E. }
  split; [exact Hs|]. intros [k v]. cbn. rewrite <-Hg. symmetry. by apply bt_get_elem.
Qed.

(** A map is determined by what it holds. *)
Lemma bt_ext m1 m2 : bt_sorted m1 → bt_sorted m2 → (∀ k, bt_get k m1 = bt_get k m2) → m1 = m2.
Proof.
  intros H1 H2 Hget. apply (StronglySorted_unique_strong (λ a b, olt a.1 b.1)); [|done|done|].
  - intros x1 x2 _ _ H12 H21. by destruct (olt_irrefl x1.1 (olt_trans _ _ _ H12 H21)).
  - apply NoDup_Permutation; [by apply bt_sorted_nodup..|]. intros [k v].
    by rewrite <-!bt_get_elem, Hget by done.
Qed.

Lemma bt_insert_comm k1 v1 k2 v2 m : k1 ≠ k2 → bt_sorted m →
  bt_insert k1 v1 (bt_insert k2 v2 m) = bt_insert k2 v2 (bt_insert k1 v1 m).
Proof.
  intros Hk Hm. apply bt_ext; [by repeat apply bt_insert_sorted..|]. intros k.
  rewrite !bt_get_insert. destruct (oeqb k k1) eqn:E1, (oeqb k k2) eqn:E2; try done.
  apply oeqb_spec in E1 as ->. by apply oeqb_spec in E2 as ->.
Qed.
End btree.
