(* ===== verification/ApiClient.v ===== *)
(** * apiclient, the library ([sources/api/apiclient/src])

    The requests that the other programs make through the API: single requests, reading
    prefixes and merging the answers, setting and applying settings in one transaction,
    and update commands that wait for their outcome; and settings-committer, which
    commits a transaction.

    The HTTP client and the server behind the socket are one argument, [send]; the
    world it acts on is abstract.  URIs of inputs are read by [get_source], the toml
    crate is [toml_text_to_json], a random transaction name is an argument. *)
From S2P Require Import Prelude Json BTree.
From Stdlib Require Import Ascii.
From stdpp Require Import base list strings.
From stdpp Require Import options.

(** ** Definitions *)

(** [apiclient::Error]. *)
Inductive client_error :=
| RequestSetup
| RequestSend
| ResponseStatus (method : string) (code : Z) (uri body : string)
| ResponseBodyRead
| NonUtf8Response.

(** A request as it goes over the socket. *)
Record http_request := mk_request { uri : string; method : string; data : option string }.

(** [StatusCode::is_success]. *)
Definition is_success (status : Z) : bool := (200 <=? status)%Z && (status <? 300)%Z.

(** *** JSON *)

(** [Map::remove]. *)
Definition obj_remove {A} (k : string) (m : list (string * A)) : list (string * A) :=
  filter (λ kv, kv.1 ≠ k) m.

(** [Value::get] of a key. *)
Definition json_get (k : string) (v : json) : option json :=
  match v with JObject m => obj_get k m | _ => None end.

Fixpoint merge_json (merge_into merge_from : json) {struct merge_from} : json :=
  match merge_into, merge_from with
  | JObject into_map, JObject from_map =>
      JObject ((fix merge_entries from_map into_map :=
        match from_map with
        | [] => into_map
        | (key, val) :: from_map =>
            merge_entries from_map
              match obj_get key into_map with
              | None => obj_insert key val into_map
              | Some old => obj_insert key (merge_json old val) into_map
              end
        end) from_map into_map)
  | _, _ => merge_from
  end.

(** The dotted path of a key below a path. *)
Definition sub_path (parent_path key : string) : string :=
  if str_is_empty parent_path then key else parent_path +:+ "." +:+ key.

(** The keys to remove and the keys to recurse into are handled in one pass. *)
Fixpoint remove_prefixes_recursive (value : json) (parent_path : string) (prefixes : list string) :
    json * bool :=
  match value with
  | JObject map =>
      let kept := (fix go map :=
        match map with
        | [] => []
        | (key, nested_value) :: map =>
            let full_path := sub_path parent_path key in
            if existsb (λ prefix, str_starts_with full_path prefix) prefixes then go map
            else
              let '(nested_value, should_remove) :=
                remove_prefixes_recursive nested_value full_path prefixes in
              if should_remove then go map else (key, nested_value) :: go map
        end) map in
      (JObject kept, match kept with [] => true | _ => false end)
  | _ => (value, false)
  end.

Definition remove_prefixes (value : json) (prefixes : list string) : json :=
  (remove_prefixes_recursive value EmptyString prefixes).1.

(** [Iterator::reduce] with [merge_json]. *)
Definition merge_all (results : list json) : option json :=
  match results with
  | [] => None
  | merge_into :: results => Some (foldl merge_json merge_into results)
  end.

Section client.
Context `{SerdeJson} {W : Type} (send : http_request → stres W client_error (Z * string)).

Definition raw_request (uri method : string) (data : option string) : stres W client_error (Z * string) :=
  let! res := send (mk_request uri method data) in
  let '(status, body) := res in
  let! _ := st_lift (ensure (is_success status) (ResponseStatus method status uri body)) in
  st_ret (status, body).

(** *** [get] *)

Inductive get_error :=
| NoPrefixes
| GetRequest (method uri : string) (source : client_error)
| GetResponseJson (body : string).

Definition get_uri (uri : string) : stres W get_error json :=
  let! res := st_map_err (GetRequest "GET" uri) (raw_request uri "GET" None) in
  st_lift (map_err (λ _, GetResponseJson res.2) (json_from_str res.2)).

Fixpoint fetch_prefixes (include : list string) : stres W get_error (list json) :=
  match include with
  | [] => st_ret []
  | prefix :: include =>
      let! value := get_uri ("/?prefix=" +:+ prefix) in
      let! results := fetch_prefixes include in
      st_ret (value :: results)
  end.

Definition get_prefixes (include exclude : list string) : stres W get_error json :=
  let! results := fetch_prefixes include in
  let! merged := st_lift (ok_or (merge_all results) NoPrefixes) in
  st_ret (match exclude with [] => merged | _ => remove_prefixes merged exclude end).

(** *** [set] and [apply] *)

Inductive SettingsInput := KeyPair (value : string) | Json (value : string).

Definition set (rando : string) (settings : SettingsInput) : stres W (string * string * client_error) () :=
  let transaction := "apiclient-set-" +:+ rando in
  let '(uri, settings_data) :=
    match settings with
    | KeyPair value => ("/settings/keypair?tx=" +:+ transaction, value)
    | Json value => ("/settings?tx=" +:+ transaction, value)
    end in
  let! _ := st_map_err (λ e, ("PATCH", uri, e)) (raw_request uri "PATCH" (Some settings_data)) in
  let uri := "/tx/commit_and_apply?tx=" +:+ transaction in
  let! _ := st_map_err (λ e, ("POST", uri, e)) (raw_request uri "POST" None) in
  st_ret tt.

Inductive apply_error :=
| ResolverFailure
| InputType (input_source : string)
| TomlToJson (input_source : string)
| ModelType (input_source : string)
| MissingSettings (input_source : string)
| JsonSerialize (input_source : string)
| Patch (input_source uri : string) (source : client_error)
| CommitApply (uri : string) (source : client_error).

(** [get]: what the resolver of a URI reads. *)
Variable get_source : string → result apply_error string.
(** [toml::from_str], [None] when the text is not TOML, and the value as JSON. *)
Variable toml_text_to_json : string → option (result () json).

Definition format_change (input input_source : string) : result apply_error string :=
  let? json_val :=
    match toml_text_to_json input with
    | Some toml_val => map_err (λ _, TomlToJson input_source) toml_val
    | None => map_err (λ _, InputType input_source) (json_from_str input)
    end in
  let? json_object := ok_or (match json_val with JObject m => Some m | _ => None end) (ModelType input_source) in
  let? json_inner := ok_or (obj_get "settings" json_object) (MissingSettings input_source) in
  map_err (λ _, JsonSerialize input_source) (json_to_string json_inner).

(** The responses are collected before any is looked at; the first error is returned. *)
Fixpoint format_changes (get_responses : list (string * result apply_error string)) :
    result apply_error (list (string * string)) :=
  match get_responses with
  | [] => Ok []
  | (input_source, get_response) :: get_responses =>
      let? response := get_response in
      let? json := format_change response input_source in
      let? changes := format_changes get_responses in
      Ok ((input_source, json) :: changes)
  end.

Definition patch_change (transaction : string) (change : string * string) : stres W apply_error () :=
  let uri := "/settings?tx=" +:+ transaction in
  let! _ := st_map_err (Patch change.1 uri) (raw_request uri "PATCH" (Some change.2)) in
  st_ret tt.

Definition apply (rando : string) (input_sources : list string) : stres W apply_error () :=
  let get_responses := (λ input_source, (input_source, get_source input_source)) <$> input_sources in
  let! changes := st_lift (format_changes get_responses) in
  let transaction := "apiclient-apply-" +:+ rando in
  let! _ := st_forM changes (patch_change transaction) in
  let uri := "/tx/commit_and_apply?tx=" +:+ transaction in
  let! _ := st_map_err (CommitApply uri) (raw_request uri "POST" None) in
  st_ret tt.
End client.

(** *** [update] *)

Inductive update_error :=
| Command (command_name status_name : string) (exit_status : Z) (stderr : string)
| GetStatus (source : client_error)
| MissingStatus (code : Z) (body : string)
| PrepareUpdate (source : update_error)
| UpdateRequest (command_name : string) (source : client_error)
| StatusCheck (failures : nat) (method url : string)
| TimedOut (method url : string).

(** The attempts of a [WaitPolicy]; the time between them is not modelled. *)
Record WaitPolicy := mk_policy { max_attempts : nat }.

Section update.
Context `{SerdeJson} {W : Type} (send : http_request → stres W client_error (Z * string)).

(** The fields are followed as far as they exist. *)
Fixpoint follow (field : list string) (result : json) : json :=
  match field with
  | [] => result
  | component :: field =>
      match json_get component result with
      | Some x => follow field x
      | None => result
      end
  end.

Definition response_field (field : list string) (response_str : string) : option string :=
  match json_from_str response_str with
  | Ok response => as_str (follow field response)
  | Err _ => None
  end.

Definition required (check_output : string) : bool :=
  let state := default "unknown" (response_field ["update_state"] check_output) in
  if bool_decide (state = "Idle") then false
  else if bool_decide (state = "Ready") then false
  else true.

(** [s.parse::<i32>()] *)
Context (parse_i32 : string → option Z).

Definition status_uri : string := "/updates/status".
Definition recent (field status_body : string) : string :=
  default "missing" (response_field ["most_recent_command"; field] status_body).

(** The error for a command that did not succeed. *)
Definition command_error (command_name status_body : string) : update_error :=
  Command command_name (recent "cmd_status" status_body)
    (default (-1)%Z (response_field ["most_recent_command"; "exit_status"] status_body ≫= parse_i32))
    (default "<missing>" (response_field ["most_recent_command"; "stderr"] status_body)).

(** The loop of [wait_request]; [attempts] is how many are left, [max_failures]
    is 5. *)
Fixpoint wait_loop (attempts failures : nat) (url method command_name before_timestamp response_body : string) :
    stres W update_error (string * string) :=
  match attempts with
  | 0 => st_lift (Err (TimedOut method url))
  | S attempts =>
      let! _ := st_lift (ensure (failures <? 5)%nat (StatusCheck failures method url)) in
      λ s,
      match send (mk_request status_uri "GET" None) s with
      | (s, Err e) => wait_loop attempts (S failures) url method command_name before_timestamp response_body s
      | (s, Ok (code, status_body)) =>
          if (code =? 423)%Z
          then wait_loop attempts failures url method command_name before_timestamp response_body s
          else if negb (is_success code)
          then wait_loop attempts (S failures) url method command_name before_timestamp response_body s
          else if bool_decide (recent "cmd_type" status_body = command_name) &&
                  negb (bool_decide (before_timestamp = recent "timestamp" status_body))
          then (s, let? _ := ensure (bool_decide (recent "cmd_status" status_body = "Success"))
                               (command_error command_name status_body) in
                   Ok (response_body, status_body))
          else wait_loop attempts failures url method command_name before_timestamp response_body s
      end
  end.

Definition before (code : Z) (initial_body : string) : result update_error string :=
  if (code =? 404)%Z then Ok "first call"
  else if is_success code
  then Ok (default "first call" (response_field ["most_recent_command"; "timestamp"] initial_body))
  else Err (MissingStatus code initial_body).

(** [attempt] is incremented before it is compared, so one attempt less is made than
    [max_attempts]. *)
Definition wait_request (url method : string) (data : option string) (command_name : string)
    (wait : WaitPolicy) : stres W update_error (string * string) :=
  let! initial := st_map_err GetStatus (send (mk_request status_uri "GET" None)) in
  let! before_timestamp := st_lift (before initial.1 initial.2) in
  let! response := st_map_err (UpdateRequest command_name) (raw_request send url method data) in
  wait_loop (pred (max_attempts wait)) 0 url method command_name before_timestamp response.2.

Definition check : stres W update_error string :=
  let! res := wait_request "/actions/refresh-updates" "POST" None "refresh" (mk_policy 100) in
  st_ret res.2.

Definition apply_update : stres W update_error () :=
  let! _ := st_map_err PrepareUpdate
              (wait_request "/actions/prepare-update" "POST" None "prepare" (mk_policy 1200)) in
  let! _ := wait_request "/actions/activate-update" "POST" None "activate" (mk_policy 50) in
  st_ret tt.

Definition cancel : stres W update_error string :=
  let! res := wait_request "/actions/deactivate-update" "POST" None "deactivate" (mk_policy 50) in
  st_ret res.2.
End update.

(** *** Simple requests *)

Section actions.
Context {W : Type} (send : http_request → stres W client_error (Z * string)).

Definition reboot : stres W client_error () :=
  let! _ := raw_request send "/actions/reboot" "POST" None in st_ret tt.
Definition lockdown : stres W client_error () :=
  let! _ := raw_request send "/actions/lockdown" "POST" None in st_ret tt.
Definition configure (content : string) : stres W client_error () :=
  let! _ := raw_request send "/actions/network/configure" "POST" (Some content) in st_ret tt.

Definition get_cis_report (report_type : string) (format : option string) (level : option string) :
    stres W client_error string :=
  let query := ["type=" +:+ report_type]
    ++ match format with Some f => ["format=" +:+ f] | None => [] end
    ++ match level with Some l => ["level=" +:+ l] | None => [] end in
  let! res := raw_request send ("/report/cis?" +:+ str_join "&" query) "GET" None in
  st_ret res.2.

Definition get_fips_report (format : option string) : stres W client_error string :=
  let query := match format with Some f => ["format=" +:+ f] | None => [] end in
  let! res := raw_request send ("/report/fips?" +:+ str_join "&" query) "GET" None in
  st_ret res.2.
End actions.

(** *** settings-committer ([sources/api/settings-committer/src/main.rs]) *)

Inductive committer_error :=
| CommitterRequest (method uri : string) (source : client_error)
| CommitterResponse (method uri : string) (code : Z) (response_body : string).

Section committer.
Context {W : Type} (send : http_request → stres W client_error (Z * string)).

(** The answer is only logged. *)
Definition check_pending_settings (transaction : string) : stres W committer_error () := λ s,
  let '(s, _) := raw_request send ("/v2/tx?tx=" +:+ transaction) "GET" None s in (s, Ok tt).

Definition commit_pending_settings (transaction : string) : stres W committer_error () := λ s,
  let uri := "/tx/commit?tx=" +:+ transaction in
  match raw_request send uri "POST" None s with
  | (s, Ok _) => (s, Ok tt)
  | (s, Err (ResponseStatus _ code _ body)) =>
      if (code =? 422)%Z then (s, Ok tt) else (s, Err (CommitterResponse "POST" uri code body))
  | (s, Err e) => (s, Err (CommitterRequest "POST" uri e))
  end.

Definition committer_run (transaction : string) : stres W committer_error () :=
  let! _ := check_pending_settings transaction in
  commit_pending_settings transaction.
End committer.

(** ** Merging and removing *)

(** The value at a path through objects. *)
Fixpoint json_at (p : list string) (v : json) : option json :=
  match p with
  | [] => Some v
  | k :: p => json_get k v ≫= json_at p
  end.

(** The setting at a path: a value that is no object. *)
Definition leaf_at (p : list string) (v : json) : option json :=
  match json_at p v with Some (JObject _) => None | o => o end.

(** Whether a value that is no object is above the path. *)
Fixpoint shadowed (p : list string) (v : json) : bool :=
  match p with
  | [] => false
  | k :: p => match v with
              | JObject m => match obj_get k m with Some v => shadowed p v | None => false end
              | _ => true
              end
  end.

(** Whether merging the value decides what is at the path. *)
Definition overrides (p : list string) (v : json) : bool :=
  bool_decide (is_Some (json_at p v)) || shadowed p v.

(** The keys of all objects are in order, as those of a [BTreeMap] are. *)
Fixpoint ordered (v : json) : Prop :=
  match v with
  | JObject m => bt_sorted m ∧ foldr (λ kv P, ordered kv.2 ∧ P) True m
  | _ => True
  end.

Lemma ordered_object m : ordered (JObject m) ↔ bt_sorted m ∧ Forall (λ kv, ordered kv.2) m.
Proof.
  cbn. assert (foldr (λ kv P, ordered kv.2 ∧ P) True m ↔ Forall (λ kv, ordered kv.2) m) as ->; [|done].
  induction m as [|kv m IH]; cbn; [by split|]. by rewrite Forall_cons, IH.
Qed.

Lemma obj_insert_bt {A} k (v : A) m : obj_insert k v m = bt_insert k v m.
Proof. induction m as [|[k' v'] m IH]; cbn; [done|]. by rewrite IH. Qed.

Lemma obj_get_elem {A} k (v : A) m : bt_sorted m → obj_get k m = Some v ↔ (k, v) ∈ m.
Proof.
  intros Hm. rewrite <- bt_get_elem by done. clear Hm.
  induction m as [|[k' v'] m IH]; cbn; [done|].
  destruct (decide (k = k')) as [->|Hne]; [by rewrite (proj2 (oeqb_spec k' k'))|].
  destruct (oeqb k k') eqn:E; [by apply oeqb_spec in E|done].
Qed.

Lemma ordered_get k m v : ordered (JObject m) → obj_get k m = Some v → ordered v.
Proof.
  rewrite ordered_object. intros [Hm Ho] Hk. apply obj_get_elem in Hk; [|done].
  by apply (proj1 (Forall_forall _ _) Ho) in Hk.
Qed.

Lemma ordered_insert k v m : ordered (JObject m) → ordered v → ordered (JObject (obj_insert k v m)).
Proof.
  rewrite !ordered_object, obj_insert_bt. intros [Hm Ho] Hv. split; [by apply bt_insert_sorted|].
  apply Forall_forall. intros x [->|Hx]%bt_insert_elem; [done|]. by apply (proj1 (Forall_forall _ _) Ho).
Qed.

(** One entry of the right-hand side. *)
Definition merge_entry (into_map : list (string * json)) (kv : string * json) : list (string * json) :=
  match obj_get kv.1 into_map with
  | None => obj_insert kv.1 kv.2 into_map
  | Some old => obj_insert kv.1 (merge_json old kv.2) into_map
  end.

Lemma merge_objects into_map from_map :
  merge_json (JObject into_map) (JObject from_map) = JObject (foldl merge_entry into_map from_map).
Proof.
  cbn. f_equal. revert into_map. induction from_map as [|[k v] from_map IH]; intros into_map; [done|].
  cbn. by rewrite IH.
Qed.

Lemma get_merge_entry k into_map kv :
  obj_get k (merge_entry into_map kv) =
  if decide (k = kv.1)
  then Some match obj_get kv.1 into_map with Some old => merge_json old kv.2 | None => kv.2 end
  else obj_get k into_map.
Proof.
  unfold merge_entry. destruct (obj_get kv.1 into_map); rewrite obj_get_insert; by case_decide.
Qed.

Lemma get_merged k into_map from_map :
  bt_sorted from_map →
  obj_get k (foldl merge_entry into_map from_map) =
  match obj_get k from_map with
  | Some v => Some match obj_get k into_map with Some old => merge_json old v | None => v end
  | None => obj_get k into_map
  end.
Proof.
  intros Hs. revert into_map. induction Hs as [|[k0 v0] m Hs IH Hf]; intros into_map; [done|]. cbn.
  rewrite IH, get_merge_entry. cbn. case_decide as E; [|done]. subst k0.
  destruct (obj_get k m) as [v|] eqn:Ek; [|done]. apply obj_get_elem in Ek; [|done].
  apply (proj1 (Forall_forall _ _) Hf) in Ek. by destruct (olt_irrefl k).
Qed.

Lemma ordered_merge b : ∀ a, ordered a → ordered b → ordered (merge_json a b).
Proof.
  induction b as [|?|?|?|?|from_map IH] using json_ind'; intros a Ha Hb; try by destruct a.
  destruct a as [| | | | |into_map]; [done..|]. rewrite merge_objects.
  apply ordered_object in Hb as [_ Hb]. revert into_map Ha.
  induction from_map as [|[k v] from_map IHm]; intros into_map Ha; [done|]. cbn.
  apply Forall_cons in IH as [IHv IH], Hb as [Hv Hb]. cbn in *. apply IHm; [done|done|].
  unfold merge_entry. cbn. destruct (obj_get k into_map) as [old|] eqn:E; apply ordered_insert; try done.
  apply IHv; [|done]. by eapply ordered_get.
Qed.

(** What is anywhere in a merge. *)
Lemma merge_json_at p : ∀ a b, ordered b →
  json_at p (merge_json a b) =
  match json_at p b with
  | Some y => Some match json_at p a with Some x => merge_json x y | None => y end
  | None => if shadowed p b then None else json_at p a
  end.
Proof.
  induction p as [|k p IH]; intros a b Hb; [done|].
  destruct b as [| | | | |from_map]; try by destruct a.
  destruct a as [| | | | |into_map];
    try (cbn; destruct (obj_get k from_map) as [v|]; cbn; [|done];
         destruct (json_at p v); [done|by destruct (shadowed p v)]).
  rewrite merge_objects. cbn. rewrite get_merged by apply (proj1 (ordered_object _) Hb).
  destruct (obj_get k from_map) as [v|] eqn:Ev; cbn; [|done].
  destruct (obj_get k into_map) as [old|]; cbn.
  - apply IH. by eapply ordered_get.
  - destruct (json_at p v); [done|]. by destruct (shadowed p v).
Qed.

Lemma leaf_merge p a b : ordered b →
  leaf_at p (merge_json a b) = if overrides p b then leaf_at p b else leaf_at p a.
Proof.
  intros Hb. unfold leaf_at, overrides. rewrite merge_json_at by done.
  destruct (json_at p b) as [y|]; cbn.
  - destruct (json_at p a) as [x|]; [|done]. by destruct y, x.
  - by destruct (shadowed p b).
Qed.

(** The setting of a merge is that of the last value that decides it. *)
Lemma leaf_merge_all p results v :
  Forall ordered results → merge_all results = Some v →
  ordered v ∧ leaf_at p v = last (filter (λ b, overrides p b = true) results) ≫= leaf_at p.
Proof.
  intros Ho. destruct results as [|a results]; [done|]. cbn [merge_all]. intros [= <-].
  apply Forall_cons in Ho as [Ha Ho].
  induction results as [|b results IH] using rev_ind.
  - cbn [foldl]. split; [done|]. rewrite filter_cons. case_decide as E; [done|]. cbn.
    unfold overrides in E. apply not_true_iff_false, orb_false_iff in E as [E _].
    apply bool_decide_eq_false in E. apply eq_None_not_Some in E. unfold leaf_at. by rewrite E.
  - apply Forall_app in Ho as [Ho [Hb _]%Forall_cons]. destruct (IH Ho) as [Ho' IHp].
    rewrite foldl_snoc. split; [by apply ordered_merge|].
    rewrite leaf_merge, IHp by done. change (a :: results ++ [b]) with ((a :: results) ++ [b]).
    rewrite (filter_app _ (a :: results)), (filter_cons _ b). destruct (overrides p b).
    + by rewrite decide_True, filter_nil, last_snoc.
    + rewrite decide_False by done. by rewrite filter_nil, app_nil_r.
Qed.

(** *** Removing *)

Definition excluded (prefixes : list string) (path : string) : bool :=
  existsb (λ prefix, str_starts_with path prefix) prefixes.

(** The entries that stay, as the loop of [remove_prefixes_recursive] keeps them. *)
Definition kept_entry (parent_path : string) (prefixes : list string) (kv : string * json) :
    option (string * json) :=
  let full_path := sub_path parent_path kv.1 in
  if excluded prefixes full_path then None
  else let '(v, should_remove) := remove_prefixes_recursive kv.2 full_path prefixes in
       if should_remove then None else Some (kv.1, v).

Lemma remove_object m parent_path prefixes :
  remove_prefixes_recursive (JObject m) parent_path prefixes =
  (JObject (omap (kept_entry parent_path prefixes) m),
   match omap (kept_entry parent_path prefixes) m with [] => true | _ => false end).
Proof.
  cbn [remove_prefixes_recursive]. cbv zeta.
  match goal with |- (JObject ?a, _) = _ =>
    assert (a = omap (kept_entry parent_path prefixes) m) as -> end; [|done].
  induction m as [|[k v] m IH]; [done|]. cbn. unfold kept_entry at 1. cbn. unfold excluded.
  destruct (existsb _ prefixes); [done|].
  destruct (remove_prefixes_recursive v _ prefixes) as [v' []]; [done|]. by rewrite IH.
Qed.

Lemma kept_sorted parent_path prefixes m :
  bt_sorted m → bt_sorted (omap (kept_entry parent_path prefixes) m).
Proof.
  unfold bt_sorted. induction 1 as [|[k v] m Hs IH Hf]; cbn; [constructor|].
  destruct (kept_entry _ _ (k, v)) as [[k' v']|] eqn:E; [|done]. constructor; [done|].
  assert (k' = k) as ->.
  { unfold kept_entry in E. cbn in E. destruct (excluded _ _); [done|].
    destruct (remove_prefixes_recursive _ _ _) as [? []]; by simplify_eq. }
  apply Forall_forall. intros [k2 v2] ([k1 v1] & Hin & E1)%list_elem_of_omap. cbn.
  apply (proj1 (Forall_forall _ _) Hf) in Hin. unfold kept_entry in E1. cbn in E1.
  destruct (excluded _ _); [done|]. destruct (remove_prefixes_recursive _ _ _) as [? []]; by simplify_eq.
Qed.

Lemma get_kept parent_path prefixes k m :
  bt_sorted m →
  obj_get k (omap (kept_entry parent_path prefixes) m) =
  obj_get k m ≫= λ v, snd <$> kept_entry parent_path prefixes (k, v).
Proof.
  unfold bt_sorted. induction 1 as [|[k0 v0] m Hs IH Hf]; [done|]. cbn [omap list_omap obj_get].
  case_decide as E.
  - subst k0. cbn [mbind option_bind]. destruct (kept_entry _ _ (k, v0)) as [[k' v']|] eqn:Ek.
    + unfold kept_entry in Ek. cbn in Ek. destruct (excluded _ _); [done|].
      destruct (remove_prefixes_recursive _ _ _) as [? []]; simplify_eq. cbn. by rewrite decide_True.
    + cbn. rewrite IH. destruct (obj_get k m) as [v|] eqn:Em; [|done].
      apply obj_get_elem in Em; [|done]. apply (proj1 (Forall_forall _ _) Hf) in Em.
      by destruct (olt_irrefl k).
  - destruct (kept_entry _ _ (k0, v0)) as [[k' v']|] eqn:Ek; [|done].
    unfold kept_entry in Ek. cbn in Ek. destruct (excluded _ _); [done|].
    destruct (remove_prefixes_recursive _ _ _) as [? []]; simplify_eq. cbn. by rewrite decide_False.
Qed.

Lemma sub_path_prefix parent_path k : str_starts_with (sub_path parent_path k) parent_path = true.
Proof.
  unfold sub_path. destruct parent_path; [apply (str_starts_with_app EmptyString)|]. apply str_starts_with_app.
Qed.

Lemma excluded_below prefixes parent_path p :
  excluded prefixes parent_path = true → excluded prefixes (foldl sub_path parent_path p) = true.
Proof.
  revert parent_path. induction p as [|k p IH]; intros parent_path He; [done|]. cbn. apply IH.
  unfold excluded in *. apply existsb_exists in He as (x & Hx & Hs). apply existsb_exists. exists x.
  split; [done|]. apply str_starts_with_spec in Hs as [t Ht].
  pose proof (sub_path_prefix parent_path k) as [u Hu]%str_starts_with_spec. rewrite Hu, Ht.
  rewrite <- str_app_assoc. apply str_starts_with_app.
Qed.

Lemma remove_empty_object v parent_path prefixes v' :
  remove_prefixes_recursive v parent_path prefixes = (v', true) → v' = JObject [].
Proof.
  destruct v; [done..|]. rewrite remove_object. by destruct (omap _ m); intros [= <-].
Qed.

(** A setting stays exactly when no prefix excludes its dotted path. *)
Lemma leaf_removed p : ∀ v parent_path prefixes, p ≠ [] → ordered v →
  leaf_at p (remove_prefixes_recursive v parent_path prefixes).1 =
  if excluded prefixes (foldl sub_path parent_path p) then None else leaf_at p v.
Proof.
  induction p as [|k p IH]; intros v parent_path prefixes Hp Hv; [done|].
  destruct v as [| | | | |m]; try by destruct (excluded _ _).
  rewrite remove_object. unfold leaf_at. cbn [fst json_at json_get foldl].
  rewrite get_kept by apply (proj1 (ordered_object _) Hv).
  destruct (obj_get k m) as [v|] eqn:Ev; cbn; [|by destruct (excluded _ _)].
  assert (ordered v) as Hov by (by eapply ordered_get). unfold kept_entry. cbn.
  destruct (excluded prefixes (sub_path parent_path k)) eqn:Ee; [by rewrite excluded_below|].
  destruct p as [|k' p].
  { cbn. rewrite Ee. destruct v as [| | | | |m']; [done..|]. rewrite remove_object. by destruct (omap _ m'). }
  specialize (IH v (sub_path parent_path k) prefixes ltac:(done) Hov). unfold leaf_at in IH. rewrite <- IH.
  destruct (remove_prefixes_recursive v _ prefixes) as [v' []] eqn:Er; [|done].
  by apply remove_empty_object in Er as ->.
Qed.

(** *** Reading prefixes *)

Section get.
Context `{SerdeJson} {W : Type} (send : http_request → stres W client_error (Z * string)).

Lemma raw_request_Ok uri method data s s' res :
  raw_request send uri method data s = (s', Ok res) ↔
  send (mk_request uri method data) s = (s', Ok res) ∧ is_success res.1 = true.
Proof.
  unfold raw_request, st_bind. destruct (send _ s) as [s1 [[code body]|e]]; cbn; [|by split; [|intros []]].
  unfold st_ret. destruct (is_success code) eqn:E; cbn.
  - split; [by intros [= <- <-]|by intros [[= <- <-] _]].
  - split; [done|]. intros [[= <- <-] Hs]. cbn in Hs. congruence.
Qed.

(** The answers to the prefixes, in order, each read in the state the one before it
    left. *)
Inductive fetched : list string → W → list json → W → Prop :=
| fetched_nil s : fetched [] s [] s
| fetched_cons prefix include s code body v s1 results s2 :
    send (mk_request ("/?prefix=" +:+ prefix) "GET" None) s = (s1, Ok (code, body)) →
    is_success code = true → json_from_str body = Ok v →
    fetched include s1 results s2 → fetched (prefix :: include) s (v :: results) s2.

Lemma fetch_prefixes_Ok include s s' results :
  fetch_prefixes send include s = (s', Ok results) → fetched include s results s'.
Proof.
  revert s results. induction include as [|prefix include IH]; intros s results Hf; cbn in Hf.
  { injection Hf as <- <-. constructor. }
  unfold get_uri in Hf. sinv. injection Hf as <- <-.
  match goal with H : raw_request _ _ _ _ _ = (_, Ok ?res) |- _ =>
    apply raw_request_Ok in H as [Hs Hc]; destruct res as [code body] end.
  match goal with H : fetch_prefixes _ _ _ = _ |- _ => apply IH in H end.
  by econstructor.
Qed.
End get.

(** ** The requests that are made *)

(** The same client, keeping the requests it makes. *)
Definition logged {W} (send : http_request → stres W client_error (Z * string)) :
    http_request → stres (W * list http_request) client_error (Z * string) := λ req s,
  let '(w, r) := send req s.1 in ((w, s.2 ++ [req]), r).

Definition patch_request (transaction : string) (change : string * string) : http_request :=
  mk_request ("/settings?tx=" +:+ transaction) "PATCH" (Some change.2).
Definition commit_request (transaction : string) : http_request :=
  mk_request ("/tx/commit_and_apply?tx=" +:+ transaction) "POST" None.

Section requests.
Context `{SerdeJson} {W : Type} (send : http_request → stres W client_error (Z * string)).

Lemma raw_request_logged uri method data s log s' log' r :
  raw_request (logged send) uri method data (s, log) = ((s', log'), r) →
  log' = log ++ [mk_request uri method data].
Proof.
  unfold raw_request, st_bind, logged. cbn. destruct (send _ s) as [s1 [[code body]|e]]; [|by intros [= _ <- _]].
  cbn. by destruct (is_success code); intros [= _ <- _].
Qed.

(** Requests with their answers, each made in the state that the one before left. *)
Inductive exchanged : W → list (http_request * result client_error (Z * string)) → W → Prop :=
| exchanged_nil s : exchanged s [] s
| exchanged_cons s req s1 answer rest s' :
    send req s = (s1, answer) → exchanged s1 rest s' → exchanged s ((req, answer) :: rest) s'.

(** Why an answer is not one of success. *)
Definition refusal (e : http_request * result client_error (Z * string)) : option client_error :=
  match e.2 with
  | Ok (code, body) => if is_success code then None else Some (ResponseStatus (method e.1) code (uri e.1) body)
  | Err e => Some e
  end.
Definition succeeded (e : http_request * result client_error (Z * string)) : Prop := refusal e = None.

Lemma raw_request_exchanged uri method data s log s' log' r :
  raw_request (logged send) uri method data (s, log) = ((s', log'), r) →
  let req := mk_request uri method data in
  ∃ answer, send req s = (s', answer) ∧ log' = log ++ [req] ∧
    match r with Ok _ => succeeded (req, answer) | Err e => refusal (req, answer) = Some e end.
Proof.
  unfold raw_request, st_bind, logged, succeeded, refusal. cbn.
  destruct (send _ s) as [s1 [[code body]|e]]; [|intros [= <- <- <-]; by eexists].
  cbn. destruct (is_success code) eqn:E; intros [= <- <- <-]; eexists; (split; [done|]); (split; [done|]); cbn; by rewrite E.
Qed.

(** The patches up to the first that fails, or all of them. *)
Lemma patches_exchanged tx changes s log s' log' r :
  st_forM changes (patch_change (logged send) tx) (s, log) = ((s', log'), r) →
  ∃ dialog, exchanged s dialog s' ∧ log' = log ++ dialog.*1 ∧
  match r with
  | Ok _ => dialog.*1 = patch_request tx <$> changes ∧ Forall succeeded dialog
  | Err e => ∃ i change source before last, changes !! i = Some change ∧
      e = Patch change.1 (uri (patch_request tx change)) source ∧ dialog = before ++ [last] ∧
      dialog.*1 = patch_request tx <$> take (S i) changes ∧ Forall succeeded before ∧ refusal last = Some source
  end.
Proof.
  revert s log. induction changes as [|change changes IH]; intros s log Hs; cbn in Hs.
  { injection Hs as <- <- <-. exists []. rewrite app_nil_r. split_and!; [constructor|done..]. }
  apply st_bind_inv in Hs as [(e & Hs & ->)|([s1 log1] & [] & Hs & Hr)];
    unfold patch_change in Hs; apply st_bind_inv in Hs as [(e' & Hs & E)|([s2 log2] & res & Hs & E)]; try done;
    unfold st_map_err in Hs; destruct (raw_request _ _ _ _ _) as [[s3 log3] [res'|source]] eqn:Er; try done;
    injection Hs as <- <- <-; apply raw_request_exchanged in Er as (answer & Hsend & -> & Ha).
  - injection E as ->. exists [(patch_request tx change, answer)].
    split; [eapply exchanged_cons; [exact Hsend|constructor]|]. split; [done|].
    exists 0, change, source, [], (patch_request tx change, answer). by split_and!.
  - injection E as <- <-. apply IH in Hr as (dialog & Hd & -> & Hr).
    exists ((patch_request tx change, answer) :: dialog). split; [by eapply exchanged_cons|].
    split; [cbn; by rewrite <-app_assoc|]. destruct r as [u|e].
    + destruct Hr as [Hr Hall]. split; [cbn; by rewrite Hr|by constructor].
    + destruct Hr as (i & c & source & before & last & Hi & -> & -> & Hl & Hall & Hsrc).
      exists (S i), c, source, ((patch_request tx change, answer) :: before), last.
      split_and!; [done..|cbn in *; by rewrite Hl|by constructor|done].
Qed.

Lemma exchanged_snoc s dialog s1 req answer s' :
  exchanged s dialog s1 → send req s1 = (s', answer) → exchanged s (dialog ++ [(req, answer)]) s'.
Proof. induction 1; intros Hs; cbn; [eapply exchanged_cons; [exact Hs|constructor]|eapply exchanged_cons; [done|auto]]. Qed.

(** The waiting ends, after as many status requests as there are attempts at most, and
    succeeds only on a status that shows the success of the command after a change of
    the timestamp. *)
Lemma wait_loop_logged parse_i32 attempts failures url method command before_timestamp response s log s' log' r :
  wait_loop (logged send) parse_i32 attempts failures url method command before_timestamp response (s, log)
    = ((s', log'), r) →
  (∃ n, n ≤ attempts ∧ log' = log ++ replicate n (mk_request status_uri "GET" None)) ∧
  match r with
  | Ok (response', status_body) =>
      response' = response ∧ recent "cmd_type" status_body = command ∧
      recent "cmd_status" status_body = "Success" ∧ recent "timestamp" status_body ≠ before_timestamp
  | Err _ => True
  end.
Proof.
  revert failures s log. induction attempts as [|attempts IH]; intros failures s log Hw; cbn [wait_loop] in Hw.
  { injection Hw as <- <- <-. split; [|done]. exists 0. by rewrite app_nil_r. }
  apply st_lift_inv in Hw as [(e & _ & [= -> ->] & ->)|(u & _ & Hw)].
  { split; [|done]. exists 0. split; [lia|]. by rewrite app_nil_r. }
  unfold logged in Hw at 1. cbn [fst snd] in Hw.
  destruct (send _ s) as [s1 [[code status_body]|e]].
  2: { apply IH in Hw as [(n & Hn & ->) Hr]. split; [|done]. exists (S n). split; [lia|]. by rewrite <- app_assoc. }
  assert (∀ failures', wait_loop (logged send) parse_i32 attempts failures' url method command before_timestamp response
      (s1, log ++ [mk_request status_uri "GET" None]) = ((s', log'), r) →
    (∃ n, n ≤ S attempts ∧ log' = log ++ replicate n (mk_request status_uri "GET" None)) ∧
    match r with
    | Ok (response', status_body) =>
        response' = response ∧ recent "cmd_type" status_body = command ∧
        recent "cmd_status" status_body = "Success" ∧ recent "timestamp" status_body ≠ before_timestamp
    | Err _ => True
    end) as Hrec.
  { intros failures' [(n & Hn & ->) Hr]%IH. split; [|done]. exists (S n). split; [lia|]. by rewrite <- app_assoc. }
  destruct (code =? 423)%Z; [exact (Hrec _ Hw)|]. destruct (negb (is_success code)); [exact (Hrec _ Hw)|].
  destruct (bool_decide (recent "cmd_type" status_body = command)) eqn:Ec; [|exact (Hrec _ Hw)].
  destruct (bool_decide (before_timestamp = recent "timestamp" status_body)) eqn:Et; [exact (Hrec _ Hw)|].
  cbn in Hw. injection Hw as <- <- <-. apply bool_decide_eq_true in Ec. apply bool_decide_eq_false in Et.
  split; [exists 1; split; [lia|done]|].
  destruct (bool_decide (recent "cmd_status" status_body = "Success")) eqn:Es; [|done]. cbn.
  apply bool_decide_eq_true in Es. by split_and!.
Qed.

Lemma format_changes_spec get_source toml_text_to_json sources :
  match format_changes toml_text_to_json ((λ src, (src, get_source src)) <$> sources) with
  | Ok changes => Forall2 (λ src change, change.1 = src ∧
      ∃ text, get_source src = Ok text ∧ format_change toml_text_to_json text src = Ok change.2) sources changes
  | Err e => ∃ src, src ∈ sources ∧
      (let? text := get_source src in format_change toml_text_to_json text src) = Err e
  end.
Proof.
  induction sources as [|src sources IH]; cbn; [constructor|].
  destruct (get_source src) as [text|e] eqn:Eg; cbn.
  2: { exists src. split; [by left|]. by rewrite Eg. }
  destruct (format_change _ text src) as [json|e] eqn:Ef; cbn.
  2: { exists src. split; [by left|]. rewrite Eg. cbn. by rewrite Ef. }
  destruct (format_changes _ _) as [changes|e]; cbn.
  - constructor; [|done]. split; [done|]. by exists text.
  - destruct IH as (src' & Hin & He). exists src'. split; [by right|done].
Qed.
End requests.

(** The committer's outcome is that of its commit request alone, and a transaction
    without changes is no failure. *)
Lemma committer_run_outcome {W} (send : http_request → stres W client_error (Z * string)) tx s s' r :
  (∀ req s s' m c u b, send req s ≠ (s', Err (ResponseStatus m c u b))) →
  committer_run send tx s = (s', r) →
  ∃ s1 answer, send (mk_request ("/tx/commit?tx=" +:+ tx) "POST" None) s1 = (s', answer) ∧
    (r = Ok tt ↔ ∃ code body, answer = Ok (code, body) ∧ (is_success code = true ∨ code = 422%Z)).
Proof.
  intros Hsend. unfold committer_run, check_pending_settings. intros Hr. unfold st_bind at 1 in Hr.
  destruct (raw_request send ("/v2/tx?tx=" +:+ tx) "GET" None s) as [s1 r1]. exists s1.
  unfold commit_pending_settings, raw_request, st_bind, st_lift, st_ret in Hr.
  destruct (send _ s1) as [s2 [[code body]|e]] eqn:E.
  - cbn in Hr. destruct (is_success code) eqn:Ec; cbn in Hr.
    + injection Hr as <- <-. eexists. split; [done|]. split; [|done]. intros _. exists code, body. by auto.
    + destruct (code =? 422)%Z eqn:E4; injection Hr as <- <-; eexists; (split; [done|]).
      * split; [|done]. intros _. exists code, body. split; [done|]. right. by apply Z.eqb_eq.
      * split; [done|]. intros (c & b & [= <- <-] & [?|?]); [congruence|]. by apply Z.eqb_neq in E4.
  - destruct e; try (by apply Hsend in E); cbn in Hr; injection Hr as <- <-; eexists; (split; [done|]); (split; [done|]); by intros (? & ? & ? & _).
Qed.

(** ** Properties *)

(** Reading prefixes: every prefix is requested once, in order; at every path the
    result has the setting of the last answer that says anything about that path (or
    about a value above it), unless an excluded prefix starts its dotted path, in which
    case it has none. *)
Lemma get_prefixes_settings `{SerdeJson} {W : Type} (send : http_request → stres W client_error (Z * string))
    include exclude s s' v :
  get_prefixes send include exclude s = (s', Ok v) →
  ∃ results, fetched send include s results s' ∧
    (Forall ordered results → ∀ p, p ≠ [] →
     leaf_at p v = if excluded exclude (foldl sub_path EmptyString p) then None
                   else last (filter (λ b, overrides p b = true) results) ≫= leaf_at p).
Proof.
  unfold get_prefixes. intros Hg. sinv. injection Hg as <- <-.
  match goal with H : fetch_prefixes _ _ _ = (_, Ok ?l), H' : merge_all ?l = Some ?m |- _ =>
    exists l; split; [by apply fetch_prefixes_Ok|]; rename m into merged, H' into Hm end.
  intros Ho p Hp. destruct (leaf_merge_all p _ _ Ho Hm) as [Hom Hl]. rewrite <- Hl.
  destruct exclude as [|pre exclude]; [done|]. unfold remove_prefixes. by apply leaf_removed.
Qed.

(** C24. [apply] is all or nothing: when an input cannot be read or is not a settings
    file, no request is made; otherwise the changes are patched in order into one
    transaction, the first patch whose answer is not a success ends it with that error and
    without a commit; the commit is requested only after the answer to every patch was a
    success, and [apply] succeeds exactly when the answer to the commit was one too. *)
Theorem apply_one_transaction `{SerdeJson} {W : Type} (send : http_request → stres W client_error (Z * string))
    get_source toml_text_to_json rando sources s s' log r :
  apply (logged send) get_source toml_text_to_json rando sources (s, []) = ((s', log), r) →
  let tx := "apiclient-apply-" +:+ rando in
  (∃ src e, src ∈ sources ∧
     (let? text := get_source src in format_change toml_text_to_json text src) = Err e ∧
     r = Err e ∧ log = [] ∧ s' = s) ∨
  (∃ changes dialog,
     Forall2 (λ src change, change.1 = src ∧ ∃ text, get_source src = Ok text ∧
       format_change toml_text_to_json text src = Ok change.2) sources changes ∧
     exchanged send s dialog s' ∧ log = dialog.*1 ∧
     match r with
     | Ok _ => log = (patch_request tx <$> changes) ++ [commit_request tx] ∧ Forall succeeded dialog
     | Err (CommitApply _ source) => ∃ patches commit, dialog = patches ++ [commit] ∧
         log = (patch_request tx <$> changes) ++ [commit_request tx] ∧
         Forall succeeded patches ∧ refusal commit = Some source
     | Err (Patch src _ source) => ∃ i json patches failed, changes !! i = Some (src, json) ∧
         dialog = patches ++ [failed] ∧ log = patch_request tx <$> take (S i) changes ∧
         Forall succeeded patches ∧ refusal failed = Some source
     | Err _ => False
     end).
Proof.
  unfold apply. intros Ha. cbn zeta.
  pose proof (format_changes_spec get_source toml_text_to_json sources) as Hf.
  apply st_lift_inv in Ha as [(e & He & [= -> ->] & ->)|(changes & Hc & Ha)].
  { left. rewrite He in Hf. destruct Hf as (src & Hin & Hs). by exists src, e. }
  right. rewrite Hc in Hf. exists changes.
  apply st_bind_inv in Ha as [(e & Hp & ->)|([s1 log1] & u & Hp & Ha)];
    apply patches_exchanged in Hp as (dialog & Hd & -> & Hp).
  { exists dialog. split_and!; [done..|].
    destruct Hp as (i & [src json] & source & before & last & Hi & -> & -> & Hl & Hall & Hs). by exists i, json, before, last. }
  destruct Hp as [Hl Hall]. cbn [app] in *. apply st_bind_inv in Ha as [(e & Hr & ->)|([s2 log2] & res & Hr & Ha)];
    unfold st_map_err in Hr; destruct (raw_request _ _ _ _ _) as [[s3 log3] [res'|source]] eqn:Er; try done;
    injection Hr as <- <- <-; apply raw_request_exchanged in Er as (answer & Hsend & -> & Hans);
    fold (commit_request ("apiclient-apply-" +:+ rando)) in Hsend, Hans |- *;
    exists (dialog ++ [(commit_request ("apiclient-apply-" +:+ rando), answer)]).
  - split_and!; [done|by eapply exchanged_snoc|by rewrite fmap_app|].
    exists dialog, (commit_request ("apiclient-apply-" +:+ rando), answer). by rewrite Hl.
  - injection Ha as -> <- <-. split_and!; [done|by eapply exchanged_snoc|by rewrite fmap_app|by rewrite Hl|].
    apply Forall_app_2; [done|by apply Forall_singleton].
Qed.

(** C25. An update command is waited for: its request is made once, after a status
    request; then the status is asked for less often than [max_attempts] says, so the
    waiting ends; and success is only reported with a status that shows that this
    command succeeded, at another time than the one recorded before the request. *)
Theorem wait_request_confirmed `{SerdeJson} {W : Type} (send : http_request → stres W client_error (Z * string))
    parse_i32 url method data command wait s s' log r :
  wait_request (logged send) parse_i32 url method data command wait (s, []) = ((s', log), r) →
  let status := mk_request status_uri "GET" None in
  (log = [status] ∧ ∀ res, r ≠ Ok res) ∨
  (∃ s1 code body before_timestamp, send status s = (s1, Ok (code, body)) ∧
     before code body = Ok before_timestamp ∧
     (∃ n, n ≤ pred (max_attempts wait) ∧ log = status :: mk_request url method data :: replicate n status) ∧
     match r with
     | Ok (response, status_body) =>
         ∃ s2 code2, send (mk_request url method data) s1 = (s2, Ok (code2, response)) ∧
           is_success code2 = true ∧ recent "cmd_type" status_body = command ∧
           recent "cmd_status" status_body = "Success" ∧ recent "timestamp" status_body ≠ before_timestamp
     | Err _ => True
     end).
Proof.
  unfold wait_request. intros Hw. cbn zeta.
  apply st_bind_inv in Hw as [(e & Hi & ->)|([s1 log1] & [code body] & Hi & Hw)];
    unfold st_map_err in Hi; unfold logged in Hi at 1; cbn in Hi; destruct (send _ s) as [s0 [res|e0]] eqn:Es; try done.
  { left. by injection Hi as _ <- _. }
  injection Hi as -> <- ->. cbn [fst snd] in Hw.
  apply st_lift_inv in Hw as [(e & _ & [= _ ->] & ->)|(ts & Hb & Hw)]; [by left|].
  right. exists s1, code, body, ts. split; [done|]. split; [done|].
  apply st_bind_inv in Hw as [(e & Hr & ->)|([s2 log2] & [code2 response] & Hr & Hw)];
    unfold st_map_err in Hr; destruct (raw_request _ _ _ _ _) as [[s3 log3] [res'|source]] eqn:Er; try done.
  { apply raw_request_logged in Er as ->. injection Hr as _ <- _. split; [|done].
    exists 0. split; [lia|done]. }
  injection Hr as <- <- ->. pose proof Er as ->%raw_request_logged.
  apply raw_request_Ok in Er as [Er Hc]. unfold logged in Er. cbn in Er.
  destruct (send (mk_request url method data) s1) as [s4 r4] eqn:E4. injection Er as -> ->.
  apply wait_loop_logged in Hw as [(n & Hn & ->) Hr]. split; [by exists n|].
  destruct r as [[response' status_body]|]; [|done]. destruct Hr as (-> & ? & ? & ?). cbn in *.
  by exists s3, code2.
Qed.

(** ** Witnesses *)

#[local] Existing Instance example_json.

(** A server that answers with what it was given, in order. *)
Definition scripted (req : http_request) : stres (list (Z * string)) client_error (Z * string) := λ answers,
  match answers with [] => ([], Err RequestSend) | a :: answers => (answers, Ok a) end.

Definition answer (v : json) : Z * string := (200%Z, example_to_string v).
Definition motd_model (n : string) : json :=
  JObject [("settings", JObject [("motd", JString n); ("ntp", JObject [("a", JString n)])])].

Lemma get_prefixes_settings_witness :
  ∃ v, get_prefixes scripted ["a"; "b"] ["settings.n"] [answer (motd_model "one"); answer (motd_model "two")]
         = ([], Ok v) ∧
    leaf_at ["settings"; "motd"] v = Some (JString "two") ∧ leaf_at ["settings"; "ntp"; "a"] v = None.
Proof.
  eexists. assert (get_prefixes scripted ["a"; "b"] ["settings.n"]
    [answer (motd_model "one"); answer (motd_model "two")] =
    ([], Ok (JObject [("settings", JObject [("motd", JString "two")])]))) as Hg by (vm_compute; reflexivity).
  destruct (get_prefixes_settings scripted _ _ _ _ _ Hg) as (results & Hf & Hl).
  split; [exact Hg|]. split; reflexivity.
Defined.

Lemma apply_one_transaction_witness :
  let settings := example_to_string (JObject [("settings", JObject [("motd", JString "hi")])]) in
  let run := apply (logged scripted) (λ _, Ok settings) (λ _, None) "id" ["a"; "b"] ([(204%Z, ""); (400%Z, "no")], []) in
  ∃ dialog, exchanged scripted [(204%Z, ""); (400%Z, "no")] dialog run.1.1 ∧ run.1.2 = dialog.*1 ∧ length dialog = 2.
Proof.
  intros settings run.
  destruct (apply_one_transaction scripted (λ _, Ok settings) (λ _, None) "id" ["a"; "b"]
    [(204%Z, ""); (400%Z, "no")] run.1.1 run.1.2 run.2) as [(src & e & _ & _ & _ & Hl & _)|(changes & dialog & _ & Hd & Hl & _)].
  - vm_compute; reflexivity.
  - vm_compute in Hl. discriminate Hl.
  - exists dialog. split; [exact Hd|]. split; [exact Hl|]. apply (f_equal length) in Hl. rewrite length_fmap in Hl.
    rewrite <-Hl. vm_compute; reflexivity.
Defined.

Definition status_body (cmd timestamp : string) : json :=
  JObject [("most_recent_command", JObject [("cmd_status", JString "Success"); ("cmd_type", JString cmd);
    ("timestamp", JString timestamp)])].

Lemma wait_request_confirmed_witness :
  let answers := [answer (status_body "refresh" "1"); (204%Z, "done"); (423%Z, "busy");
                  answer (status_body "prepare" "2")] in
  ∃ n, n ≤ 9 ∧
    (wait_request (logged scripted) (λ _, None) "/actions/prepare-update" "POST" None "prepare" (mk_policy 10)
       (answers, [])).1.2 =
    mk_request status_uri "GET" None :: mk_request "/actions/prepare-update" "POST" None ::
      replicate n (mk_request status_uri "GET" None).
Proof.
  intros answers.
  destruct (wait_request_confirmed scripted (λ _, None) "/actions/prepare-update" "POST" None "prepare" (mk_policy 10)
    answers [] [mk_request status_uri "GET" None; mk_request "/actions/prepare-update" "POST" None;
                mk_request status_uri "GET" None; mk_request status_uri "GET" None]
    (Ok ("done", example_to_string (status_body "prepare" "2"))))
    as [[[=] _]|(s1 & code & body & ts & _ & _ & (n & Hn & Hl) & _)]; [vm_compute; reflexivity|].
  exists n. split; [exact Hn|]. rewrite <- Hl. vm_compute; reflexivity.
Defined.

(** A path whose end does not exist is followed as far as it goes, so a field that is a
    string is returned for a field below it. *)
Lemma missing_field_found :
  response_field ["most_recent_command"; "timestamp"]
    (example_to_string (JObject [("most_recent_command", JString "refresh")])) = Some "refresh".
Proof. vm_compute; reflexivity. Qed.
