(* ===== verification/Numbers.v ===== *)
(** * Unsigned integers and their decimal text

    [str::parse] and [to_string] of Rust's [u8] ... [u64], with their round trip,
    and the wrapping of results to a width. *)
From S2P Require Import Prelude.
From Stdlib Require Import Ascii.
From stdpp Require Import base numbers list strings pretty.
From stdpp Require Import options.

(** ** Definitions *)

(** A result of [+] or [*] on a [w]-bit unsigned integer (release builds wrap). *)
Definition wrap (w n : Z) : Z := (n mod 2 ^ w)%Z.

Definition digit (c : ascii) : option Z :=
  let n := nat_of_ascii c in
  if ((48 <=? n) && (n <=? 57))%nat then Some (Z.of_nat n - 48)%Z else None.
Fixpoint parse_digits (w : Z) (s : string) (acc : Z) : option Z :=
  match s with
  | EmptyString => Some acc
  | String c s =>
      d ← digit c;
      let acc := (acc * 10 + d)%Z in
      if (acc <? 2 ^ w)%Z then parse_digits w s acc else None
  end.

(** [str::parse] at width [w]: an optional plus sign, then digits. *)
Definition PLUS : ascii := ascii_of_nat 43.
Definition strip_plus (s : string) : string :=
  match s with String c t => if decide (c = PLUS) then t else s | EmptyString => s end.
Definition parse_unsigned (w : Z) (s : string) : option Z :=
  let s := strip_plus s in
  if str_is_empty s then None else parse_digits w s 0.
Definition parse_u32 : string → option Z := parse_unsigned 32.

(** [to_string] of a non-negative integer. *)
Definition unsigned_to_string (n : Z) : string := pretty (Z.to_N n).

(** ** Facts *)

Lemma wrap_small w n : (0 ≤ n < 2 ^ w)%Z → wrap w n = n.
Proof. intros. by apply Z.mod_small. Qed.

Lemma digit_bound c d : digit c = Some d → (0 ≤ d < 10)%Z.
Proof.
  unfold digit. destruct ((48 <=? nat_of_ascii c)%nat && (nat_of_ascii c <=? 57)%nat) eqn:E; [|done].
  apply andb_true_iff in E as [E1%Nat.leb_le E2%Nat.leb_le]. intros [= <-]. lia.
Qed.

Lemma parse_digits_bound w s acc n :
  (0 ≤ acc < 2 ^ w)%Z → parse_digits w s acc = Some n → (0 ≤ n < 2 ^ w)%Z.
Proof.
  revert acc. induction s as [|c s IH]; intros acc Hacc Hp; cbn [parse_digits] in Hp.
  { by injection Hp as <-. }
  apply bind_Some in Hp as (d & Hd%digit_bound & Hp).
  destruct (Z.ltb_spec (acc * 10 + d) (2 ^ w)); [|done].
  eapply IH; [|exact Hp]. lia.
Qed.

Lemma parse_unsigned_bound w s n :
  (0 ≤ w)%Z → parse_unsigned w s = Some n → (0 ≤ n < 2 ^ w)%Z.
Proof.
  unfold parse_unsigned. destruct (str_is_empty _); [done|]. intros.
  eapply parse_digits_bound; [|done]. split; [done|]. by apply Z.pow_pos_nonneg.
Qed.

Lemma parse_u32_bound s n : parse_u32 s = Some n → (0 ≤ n < 2 ^ 32)%Z.
Proof. by apply parse_unsigned_bound. Qed.

Lemma digit_pretty x : (x < 10)%N → digit (pretty_N_char x) = Some (Z.of_N x).
Proof.
  intros Hx. assert (x = 0 ∨ x = 1 ∨ x = 2 ∨ x = 3 ∨ x = 4 ∨ x = 5 ∨ x = 6 ∨ x = 7 ∨ x = 8 ∨ x = 9)%N as Hc
    by lia.
  by repeat (destruct Hc as [->|Hc]; [done|]); subst.
Qed.

Lemma parse_digits_pretty w (n : N) s :
  (Z.of_N n < 2 ^ w)%Z → parse_digits w (pretty_N_go n s) 0 = parse_digits w s (Z.of_N n).
Proof.
  revert s. induction (N.lt_wf_0 n) as [n _ IH]. intros s Hn.
  destruct (decide (n = 0)%N) as [->|Hne]; [by rewrite pretty_N_go_0|].
  rewrite pretty_N_go_step by lia. rewrite IH; cbn [parse_digits].
  - rewrite digit_pretty by (by apply N.mod_lt). cbn [mbind option_bind].
    assert (Z.of_N (n `div` 10) * 10 + Z.of_N (n `mod` 10) = Z.of_N n)%Z as ->
      by (pose proof (N.div_mod n 10 ltac:(done)); lia).
    by rewrite (proj2 (Z.ltb_lt _ _) Hn).
  - apply N.div_lt; lia.
  - pose proof (N.Div0.div_le_mono n n 10). pose proof (N.div_lt n 10). lia.
Qed.

Lemma pretty_go_first (n : N) s : ∃ c t, pretty_N_go n s = String c t ∧ (n = 0%N ∨ is_Some (digit c)) ∨ n = 0%N.
Proof.
  revert s. induction (N.lt_wf_0 n) as [n _ IH]. intros s.
  destruct (decide (n = 0)%N) as [->|Hne]; [by exists Ascii.zero, s; right|].
  rewrite pretty_N_go_step by lia.
  destruct (decide (n `div` 10 = 0)%N) as [E|E].
  - rewrite E, pretty_N_go_0. do 2 eexists. left. split; [done|]. right.
    rewrite digit_pretty by (by apply N.mod_lt). done.
  - destruct (IH (n `div` 10)%N ltac:(apply N.div_lt; lia) (String (pretty_N_char (n `mod` 10)) s))
      as (c & t & [[-> [?|?]]|?]); [done| |done]. exists c, t. left. by split; [|right].
Qed.

Lemma parse_unsigned_to_string w n :
  (0 ≤ n < 2 ^ w)%Z → parse_unsigned w (unsigned_to_string n) = Some n.
Proof.
  intros Hn. unfold parse_unsigned, unsigned_to_string, pretty, pretty_N.
  case_decide as Hz.
  { assert (n = 0%Z) as -> by lia. change (strip_plus "0") with "0".
    cbn [str_is_empty parse_digits]. change (digit _) with (Some 0%Z). cbn [mbind option_bind].
    change (0 * 10 + 0)%Z with 0%Z. by destruct (Z.ltb_spec 0 (2 ^ w)); [|lia]. }
  destruct (pretty_go_first (Z.to_N n) EmptyString) as (c & t & [[E [?|[d Hd]]]|?]); [done| |done].
  pose proof (parse_digits_pretty w (Z.to_N n) EmptyString) as Hp.
  rewrite Z2N.id in Hp by lia. rewrite E in Hp |- *.
  cbn [strip_plus]. case_decide as Hc; [by subst c|].
  cbn [str_is_empty]. rewrite Hp by lia. done.
Qed.

Lemma unsigned_to_string_inj n m :
  (0 ≤ n)%Z → (0 ≤ m)%Z → unsigned_to_string n = unsigned_to_string m → n = m.
Proof. unfold unsigned_to_string. intros ?? E%(inj pretty). lia. Qed.

(** The text of a number has only digits. *)
Lemma parse_digits_no_char w c s acc z : digit c = None → parse_digits w s acc = Some z → no_char c s.
Proof.
  unfold no_char. intros Hc. revert acc. induction s as [|a s IH]; intros acc; [done|].
  cbn [parse_digits str_existsb]. destruct (digit a) as [d|] eqn:Hd; [|done]. cbn. intros Hp.
  case_match; [|done]. rewrite (IH _ Hp), orb_false_r. apply bool_decide_eq_false_2. intros ->. congruence.
Qed.
Lemma unsigned_to_string_no_char c n : digit c = None → c ≠ PLUS → no_char c (unsigned_to_string n).
Proof.
  intros Hc Hp. assert (∃ w, (0 ≤ Z.of_N (Z.to_N n) < 2 ^ w)%Z) as [w Hw].
  { exists (Z.of_N (Z.to_N n)). split; [lia|]. apply Z.pow_gt_lin_r; lia. }
  pose proof (parse_unsigned_to_string w _ Hw) as E. unfold unsigned_to_string in *. rewrite N2Z.id in E.
  unfold parse_unsigned, strip_plus in E. destruct (pretty (Z.to_N n)) as [|a s] eqn:Es; [done|].
  case_decide as Ea.
  - subst a. destruct (str_is_empty s); [done|]. eapply parse_digits_no_char in E; [|done].
    unfold no_char in *. cbn [str_existsb]. rewrite E, orb_false_r. by apply bool_decide_eq_false_2.
  - cbn [str_is_empty] in E. by eapply parse_digits_no_char in E.
Qed.
