(* ===== verification/Chars.v ===== *)
(** * Characters of strings

    A [&str] is the sequence of its UTF-8 bytes ([Prelude]); its characters are a
    leading byte each with the continuation bytes that follow.  This file has the
    operations of [str] that go by characters: [chars], [trim], [lines], and slices,
    which panic off a character boundary. *)
From S2P Require Import Prelude.
From Stdlib Require Import Ascii.
From stdpp Require Import base numbers list strings.
From stdpp Require Import options.

(** ** Definitions *)

Definition is_continuation (a : ascii) : bool :=
  ((128 <=? nat_of_ascii a) && (nat_of_ascii a <? 192))%nat.
Definition is_ascii (a : ascii) : bool := (nat_of_ascii a <? 128)%nat.

Definition char_of (a : ascii) : string := String a EmptyString.
Definition starts_inside (s : string) : bool :=
  match s with String a _ => is_continuation a | EmptyString => false end.

(** [str::chars], each as its bytes. *)
Fixpoint str_chars (s : string) : list string :=
  match s with
  | EmptyString => []
  | String a s =>
      match str_chars s with
      | c :: cs => if starts_inside c then String a c :: cs else char_of a :: c :: cs
      | [] => [char_of a]
      end
  end.

(** [char::is_ascii]. *)
Definition char_is_ascii (c : string) : bool := str_forallb is_ascii c.

Definition bytes_str (l : list nat) : string := foldr (λ n, String (ascii_of_nat n)) EmptyString l.

(** [char::is_whitespace]: the property White_Space. *)
Definition WHITE_SPACE : list string :=
  (bytes_str <$> [[9]; [10]; [11]; [12]; [13]; [32]; [194; 133]; [194; 160]; [225; 154; 128];
    [226; 128; 168]; [226; 128; 169]; [226; 128; 175]; [226; 129; 159]; [227; 128; 128]]) ++
  ((λ n, bytes_str [226; 128; 128 + n]) <$> seq 0 11).
Definition char_is_whitespace (c : string) : bool := bool_decide (c ∈ WHITE_SPACE).

Fixpoint str_concat (l : list string) : string :=
  match l with [] => EmptyString | x :: l => x +:+ str_concat l end.

Fixpoint drop_whitespace (l : list string) : list string :=
  match l with
  | c :: l' => if char_is_whitespace c then drop_whitespace l' else l
  | [] => []
  end.

(** [str::trim_start], [trim_end], [trim]. *)
Definition trim_start (s : string) : string := str_concat (drop_whitespace (str_chars s)).
Definition trim_end (s : string) : string :=
  str_concat (reverse (drop_whitespace (reverse (str_chars s)))).
Definition str_trim (s : string) : string := trim_end (trim_start s).

(** [str::ends_with] and [str::strip_suffix], on a single byte. *)
Fixpoint strip_last (a : ascii) (s : string) : option string :=
  match s with
  | EmptyString => None
  | String b EmptyString => if decide (b = a) then Some EmptyString else None
  | String b s => String b <$> strip_last a s
  end.

Definition NEWLINE : ascii := ascii_of_nat 10.
Definition CARRIAGE_RETURN : ascii := ascii_of_nat 13.

(** [str::lines]: the last line may lack its newline, and a carriage return before
    a newline belongs to it. *)
Definition strip_cr (s : string) : string := default s (strip_last CARRIAGE_RETURN s).
Fixpoint lines_of (parts : list string) : list string :=
  match parts with
  | [] => []
  | [x] => if str_is_empty x then [] else [x]
  | x :: parts => strip_cr x :: lines_of parts
  end.
Definition str_lines (s : string) : list string := lines_of (str_split NEWLINE s).

Definition str_take (n : nat) (s : string) : string := String.substring 0 n s.

(** Whether a byte index is a character boundary of the string. *)
Definition is_boundary (s : string) (i : nat) : bool :=
  (i =? str_len s)%nat || ((i <? str_len s)%nat && negb (starts_inside (str_drop i s))).

(** [&s[i..j]] and [&s[i..]]; [None] is a panic. *)
Definition str_slice (s : string) (i j : nat) : option string :=
  if (i <=? j)%nat && is_boundary s i && is_boundary s j then Some (str_take (j - i) (str_drop i s))
  else None.
Definition str_slice_from (s : string) (i : nat) : option string :=
  if is_boundary s i then Some (str_drop i s) else None.

(** [str::from_utf8]: whether the bytes are well-formed UTF-8. *)
Definition byte_in (lo hi : nat) (a : ascii) : bool := ((lo <=? nat_of_ascii a) && (nat_of_ascii a <=? hi))%nat.
Fixpoint utf8_valid (s : string) : bool :=
  match s with
  | EmptyString => true
  | String a s =>
      if byte_in 0 127 a then utf8_valid s
      else if byte_in 194 223 a then
        match s with String b s => byte_in 128 191 b && utf8_valid s | _ => false end
      else if byte_in 224 239 a then
        match s with
        | String b (String c s) =>
            byte_in (if byte_in 224 224 a then 160 else 128) (if byte_in 237 237 a then 159 else 191) b
            && byte_in 128 191 c && utf8_valid s
        | _ => false
        end
      else if byte_in 240 244 a then
        match s with
        | String b (String c (String d s)) =>
            byte_in (if byte_in 240 240 a then 144 else 128) (if byte_in 244 244 a then 143 else 191) b
            && byte_in 128 191 c && byte_in 128 191 d && utf8_valid s
        | _ => false
        end
      else false
  end.

(** ** ASCII strings *)

Definition ascii_str (s : string) : Prop := str_forallb is_ascii s = true.

Lemma strip_last_app c s : strip_last c (s +:+ char_of c) = Some s.
Proof.
  induction s as [|a s IH]; cbn; [by rewrite decide_True|]. rewrite IH. by destruct (s +:+ char_of c) eqn:E; [destruct s|].
Qed.

Lemma ascii_not_continuation a : is_ascii a = true → is_continuation a = false.
Proof.
  unfold is_ascii, is_continuation. intros H%Nat.ltb_lt. apply andb_false_iff. left.
  apply Nat.leb_gt. lia.
Qed.

Lemma ascii_str_cons a s : ascii_str (String a s) ↔ is_ascii a = true ∧ ascii_str s.
Proof. unfold ascii_str. cbn. by rewrite andb_true_iff. Qed.

Lemma ascii_str_app s t : ascii_str (s +:+ t) ↔ ascii_str s ∧ ascii_str t.
Proof. unfold ascii_str. by rewrite str_forallb_app, andb_true_iff. Qed.

(** The bytes of a string, each as a string. *)
Fixpoint str_bytes (s : string) : list string :=
  match s with EmptyString => [] | String a s => char_of a :: str_bytes s end.

Lemma str_bytes_app s t : str_bytes (s +:+ t) = str_bytes s ++ str_bytes t.
Proof. induction s as [|a s IH]; [done|]. cbn. by rewrite IH. Qed.

Lemma str_chars_ascii s : ascii_str s → str_chars s = str_bytes s.
Proof.
  induction s as [|a s IH]; [done|]. intros [Ha Hs]%ascii_str_cons. cbn. rewrite IH by done.
  destruct s as [|b s]; [done|]. cbn. apply ascii_str_cons in Hs as [Hb _].
  by rewrite (ascii_not_continuation b).
Qed.

Lemma str_concat_bytes s : str_concat (str_bytes s) = s.
Proof. induction s as [|a s IH]; [done|]. cbn. by rewrite IH. Qed.

Lemma str_concat_app l1 l2 : str_concat (l1 ++ l2) = str_concat l1 +:+ str_concat l2.
Proof. induction l1 as [|x l1 IH]; [done|]. cbn. by rewrite IH, str_app_assoc. Qed.

Lemma ascii_boundary s i : ascii_str s → i ≤ str_len s → is_boundary s i = true.
Proof.
  intros Hs Hi. unfold is_boundary. destruct (Nat.eqb_spec i (str_len s)) as [|Hne]; [done|].
  rewrite orb_false_l, (proj2 (Nat.ltb_lt i (str_len s))), andb_true_l by lia. revert i Hi Hne.
  induction s as [|a s IH]; intros i Hi Hne; cbn in *; [lia|].
  apply ascii_str_cons in Hs as [Ha Hs]. destruct i as [|i]; cbn.
  - by rewrite (ascii_not_continuation a).
  - apply IH; [done|lia..].
Qed.

Lemma str_drop_all s : str_drop (str_len s) s = EmptyString.
Proof. by induction s. Qed.

Lemma str_take_app s t : str_take (str_len s) (s +:+ t) = s.
Proof. unfold str_take. induction s as [|a s IH]; [by destruct t|]. cbn. by rewrite IH. Qed.

Lemma str_take_drop i s : str_take i s +:+ str_drop i s = s.
Proof.
  unfold str_take. revert s. induction i as [|i IH]; intros [|a s]; cbn; [done..|].
  by rewrite IH.
Qed.

Lemma str_len_take i s : i ≤ str_len s → str_len (str_take i s) = i.
Proof.
  unfold str_take. revert s. induction i as [|i IH]; intros [|a s]; cbn; [done..|lia|].
  intros. by rewrite IH by lia.
Qed.

(** A slice of an ASCII string never panics. *)
Lemma str_slice_ascii s i j :
  ascii_str s → i ≤ j → j ≤ str_len s → str_slice s i j = Some (str_take (j - i) (str_drop i s)).
Proof.
  intros Hs Hij Hj. unfold str_slice. rewrite !ascii_boundary by (done || lia).
  by rewrite (proj2 (Nat.leb_le _ _)).
Qed.

Lemma str_slice_from_ascii s i :
  ascii_str s → i ≤ str_len s → str_slice_from s i = Some (str_drop i s).
Proof. intros Hs Hi. unfold str_slice_from. by rewrite ascii_boundary. Qed.

(** *** Trimming *)

Definition is_ws (a : ascii) : bool := char_is_whitespace (char_of a).

Lemma drop_whitespace_bytes s :
  is_ws (match s with String a _ => a | EmptyString => ascii_of_nat 65 end) = false →
  drop_whitespace (str_bytes s) = str_bytes s.
Proof. destruct s as [|a s]; [done|]. cbn. unfold is_ws. by intros ->. Qed.

(** An ASCII string that neither starts nor ends with white space is not trimmed. *)
Definition trimmed (s : string) : Prop :=
  s = EmptyString ∨
  ∃ a b s1 s2, s = String a s1 ∧ s = s2 +:+ String b EmptyString ∧ is_ws a = false ∧ is_ws b = false.

Lemma trim_start_trimmed s : ascii_str s → trimmed s → trim_start s = s.
Proof.
  intros Hs [->|(a & b & s1 & s2 & -> & _ & Ha & _)]; [done|]. unfold trim_start.
  rewrite str_chars_ascii, drop_whitespace_bytes, str_concat_bytes by done. done.
Qed.

Lemma trim_end_trimmed s : ascii_str s → trimmed s → trim_end s = s.
Proof.
  intros Hs [->|(a & b & s1 & s2 & _ & -> & _ & Hb)]; [done|]. unfold trim_end.
  rewrite str_chars_ascii by done.
  assert (drop_whitespace (reverse (str_bytes (s2 +:+ String b EmptyString))) =
    reverse (str_bytes (s2 +:+ String b EmptyString))) as ->.
  { rewrite str_bytes_app, reverse_app. cbn. unfold is_ws in Hb. by rewrite Hb. }
  by rewrite reverse_involutive, str_concat_bytes.
Qed.

Lemma str_trim_trimmed s : ascii_str s → trimmed s → str_trim s = s.
Proof. intros Hs Ht. unfold str_trim. by rewrite trim_start_trimmed, trim_end_trimmed. Qed.

Lemma trim_start_ws a s : ascii_str (String a s) → is_ws a = true → trim_start (String a s) = trim_start s.
Proof.
  intros [Ha Hs]%ascii_str_cons Hw. unfold trim_start.
  rewrite !str_chars_ascii by (done || by apply ascii_str_cons). cbn.
  unfold is_ws in Hw. by rewrite Hw.
Qed.

Lemma ascii_bytes_concat l :
  Forall (λ c, char_is_ascii c = true) l → ascii_str (str_concat l).
Proof. induction 1 as [|c l Hc _ IH]; [done|]. cbn. by apply ascii_str_app. Qed.

Lemma str_bytes_ascii s : ascii_str s → Forall (λ c, char_is_ascii c = true) (str_bytes s).
Proof.
  induction s as [|a s IH]; [constructor|]. intros [Ha Hs]%ascii_str_cons. constructor; [|by apply IH].
  unfold char_is_ascii. by apply ascii_str_cons.
Qed.

Lemma drop_whitespace_suffix l : ∃ l', l = l' ++ drop_whitespace l.
Proof.
  induction l as [|c l [l' IH]]; [by exists []|]. cbn. destruct (char_is_whitespace c).
  - exists (c :: l'). by rewrite <- app_comm_cons, <- IH.
  - by exists [].
Qed.

Lemma trim_start_ascii s : ascii_str s → ascii_str (trim_start s).
Proof.
  intros Hs. unfold trim_start. rewrite str_chars_ascii by done. apply ascii_bytes_concat.
  pose proof (str_bytes_ascii s Hs) as Hb. destruct (drop_whitespace_suffix (str_bytes s)) as [l' E].
  rewrite E in Hb. by apply Forall_app in Hb as [_ ?].
Qed.

Lemma trim_end_ascii s : ascii_str s → ascii_str (trim_end s).
Proof.
  intros Hs. unfold trim_end. rewrite str_chars_ascii by done. apply ascii_bytes_concat.
  pose proof (str_bytes_ascii s Hs) as Hb.
  destruct (drop_whitespace_suffix (reverse (str_bytes s))) as [l' E].
  apply Forall_reverse. apply Forall_reverse in Hb. rewrite E in Hb. by apply Forall_app in Hb as [_ ?].
Qed.

Lemma str_trim_ascii s : ascii_str s → ascii_str (str_trim s).
Proof. intros Hs. by apply trim_end_ascii, trim_start_ascii. Qed.

Lemma trim_end_ws a s : ascii_str s → is_ascii a = true → is_ws a = true →
  trim_end (s +:+ char_of a) = trim_end s.
Proof.
  intros Hs Ha Hw. unfold trim_end.
  rewrite !str_chars_ascii by (done || by rewrite ascii_str_app; split; [|apply ascii_str_cons]).
  rewrite str_bytes_app, reverse_app. unfold is_ws in Hw. cbn. by rewrite Hw.
Qed.

Lemma trim_start_first a s : ascii_str (String a s) → is_ws a = false → trim_start (String a s) = String a s.
Proof.
  intros Hs Ha. unfold trim_start. rewrite str_chars_ascii, drop_whitespace_bytes, str_concat_bytes by done.
  done.
Qed.

(** White space after a string that needs no trimming. *)
Lemma str_trim_ws_after a s : ascii_str s → trimmed s → s ≠ EmptyString → is_ascii a = true → is_ws a = true →
  str_trim (s +:+ char_of a) = s.
Proof.
  intros Hs Ht Hne Ha Hw. unfold str_trim.
  assert (trim_start (s +:+ char_of a) = s +:+ char_of a) as ->.
  { destruct Ht as [->|(x & b & s1 & s2 & -> & _ & Hx & _)]; [done|].
    rewrite str_app_cons. apply trim_start_first; [|done].
    rewrite <- str_app_cons. apply ascii_str_app. split; [done|]. by apply ascii_str_cons. }
  rewrite trim_end_ws by done. by apply trim_end_trimmed.
Qed.

Lemma strip_last_trimmed s : trimmed s → strip_last CARRIAGE_RETURN s = None.
Proof.
  intros [->|(a & b & s1 & s2 & _ & -> & _ & Hb)]; [done|]. clear s1.
  assert (b ≠ CARRIAGE_RETURN) as Hne by (intros ->; vm_compute in Hb; discriminate).
  induction s2 as [|x s2 IH]; cbn; [by rewrite decide_False|].
  rewrite IH. by destruct (s2 +:+ String b EmptyString) eqn:E; [destruct s2|].
Qed.

(** *** Lines *)

(** A line that is not changed by trimming. *)
Record line_ok (l : string) : Prop := {
  lo_ascii : ascii_str l;
  lo_line : no_char NEWLINE l;
  lo_trimmed : trimmed l;
  lo_ne : l ≠ EmptyString }.

Lemma join_lines ls l : str_concat ((λ l, str_push l NEWLINE) <$> (ls ++ [l])) =
  str_join (char_of NEWLINE) (ls ++ [l]) +:+ char_of NEWLINE.
Proof.
  induction ls as [|x ls IH]; [cbn; by rewrite str_app_nil_r|].
  rewrite <- !app_comm_cons, fmap_cons. cbn [str_concat]. rewrite IH.
  assert (∃ y ls', ls ++ [l] = y :: ls') as (y & ls' & E) by (destruct ls; eauto).
  rewrite E, str_join_cons. unfold str_push. by rewrite <- !str_app_assoc.
Qed.

Lemma lines_of_ok ls : Forall line_ok ls → lines_of ls = ls.
Proof.
  induction 1 as [|x ls Hx Hls IH]; [done|]. destruct ls as [|y ls].
  - cbn. destruct x; [by destruct (lo_ne _ Hx)|done].
  - change (lines_of (x :: y :: ls)) with (strip_cr x :: lines_of (y :: ls)).
    rewrite IH. f_equal. unfold strip_cr. by rewrite (strip_last_trimmed _ (lo_trimmed _ Hx)).
Qed.

Lemma join_ascii sep ls : ascii_str sep → Forall line_ok ls → ascii_str (str_join sep ls).
Proof.
  intros Hs. induction 1 as [|x ls Hx _ IH]; [done|]. destruct ls; [apply Hx|].
  rewrite str_join_cons, !ascii_str_app. split_and!; [apply Hx|done|done].
Qed.

Lemma join_last sep ls : ls ≠ [] → Forall line_ok ls →
  ∃ b s2, str_join sep ls = s2 +:+ String b EmptyString ∧ is_ws b = false.
Proof.
  intros Hne Hls. induction Hls as [|y l Hy Hl IH]; [done|].
  destruct (lo_trimmed _ Hy) as [->|(a & b & s1 & s2 & _ & -> & _ & Hb)]; [by destruct (lo_ne _ Hy)|].
  destruct l as [|z l]; [by exists b, s2|]. destruct IH as (b' & s2' & E & Hb'); [done|].
  exists b', ((s2 +:+ String b EmptyString) +:+ sep +:+ s2').
  split; [|done]. rewrite str_join_cons, E. by rewrite <- !str_app_assoc.
Qed.

Lemma join_trimmed sep ls : ls ≠ [] → Forall line_ok ls → trimmed (str_join sep ls).
Proof.
  intros Hne Hls. right. destruct (join_last sep ls Hne Hls) as (b & s2 & Hb & Hw).
  destruct ls as [|x ls]; [done|]. apply Forall_cons in Hls as [Hx _].
  destruct (lo_trimmed _ Hx) as [->|(a & b' & s1 & s2' & -> & _ & Ha & _)]; [by destruct (lo_ne _ Hx)|].
  assert (∃ t, str_join sep (String a s1 :: ls) = String a t) as [t Et].
  { destruct ls; [by exists s1|]. rewrite str_join_cons. by eexists. }
  exists a, b, t, s2. by rewrite <- Et, Hb.
Qed.

(** Lines that were written one after the other are read back. *)
Lemma str_lines_trim ls :
  Forall line_ok ls → str_lines (str_trim (str_concat ((λ l, str_push l NEWLINE) <$> ls))) = ls.
Proof.
  intros Hls. destruct ls as [|l ls _] using rev_ind; [reflexivity|].
  rewrite join_lines, str_trim_ws_after; [|by apply join_ascii|apply join_trimmed; [by destruct ls|done]| |done|done].
  - unfold str_lines. rewrite (str_split_join NEWLINE); [by apply lines_of_ok|by destruct ls|].
    eapply Forall_impl; [exact Hls|]. by intros x [].
  - intros E. assert (line_ok l) as Hl by (by apply Forall_app in Hls as [_ [? _]%Forall_cons]).
    destruct (join_trimmed (char_of NEWLINE) (ls ++ [l])) as [_|(a & b & s1 & s2 & Ea & _)];
      [by destruct ls|done| |congruence].
    destruct ls as [|x ls]; [cbn in E; by apply (lo_ne _ Hl)|].
    apply Forall_app in Hls as [[Hx _]%Forall_cons _].
    assert (∃ y ls', ls ++ [l] = y :: ls') as (y & ls' & Ey) by (destruct ls; eauto).
    cbn [app] in E. rewrite Ey, str_join_cons in E. destruct x; [by apply (lo_ne _ Hx)|done].
Qed.

(** *** What trimming removes *)

Definition all_ws (s : string) : Prop := str_forallb is_ws s = true.

Lemma drop_whitespace_spec s :
  ∃ w t, s = w +:+ t ∧ drop_whitespace (str_bytes s) = str_bytes t ∧ all_ws w ∧
    (t = EmptyString ∨ ∃ a t', t = String a t' ∧ is_ws a = false).
Proof.
  induction s as [|a s (w & t & -> & Hd & Hw & Ht)].
  - exists EmptyString, EmptyString. split_and!; [done..|by left].
  - cbn [str_bytes drop_whitespace]. destruct (char_is_whitespace (char_of a)) eqn:E.
    + exists (String a w), t. split_and!; [done|done| |done]. unfold all_ws in *. cbn.
      unfold is_ws at 1. by rewrite E.
    + exists EmptyString, (String a (w +:+ t)). split_and!; [done..|]. right. by eexists _, _.
Qed.

Lemma trim_start_spec s : ascii_str s →
  ∃ w, s = w +:+ trim_start s ∧ all_ws w ∧
    (trim_start s = EmptyString ∨ ∃ a t, trim_start s = String a t ∧ is_ws a = false).
Proof.
  intros Hs. destruct (drop_whitespace_spec s) as (w & t & E & Hd & Hw & Ht). exists w.
  assert (trim_start s = t) as ->; [|done].
  unfold trim_start. by rewrite str_chars_ascii, Hd, str_concat_bytes.
Qed.

(** A string is empty or has a last character. *)
Lemma str_snoc s : s = EmptyString ∨ ∃ t b, s = t +:+ char_of b.
Proof.
  induction s as [|a s [->|(t & b & ->)]]; [by left| |]; right; [by exists EmptyString, a|].
  by exists (String a t), b.
Qed.

Lemma str_len_ind (P : string → Prop) :
  P EmptyString → (∀ s b, P s → P (s +:+ char_of b)) → ∀ s, P s.
Proof.
  intros H0 Hs s. remember (str_len s) as n eqn:En. revert s En.
  induction n as [n IH] using lt_wf_ind. intros s ->. destruct (str_snoc s) as [->|(t & b & ->)]; [done|].
  apply Hs, (IH (str_len t)); [|done]. rewrite str_len_app. cbn. lia.
Qed.

Lemma trim_end_spec s : ascii_str s →
  ∃ w, s = trim_end s +:+ w ∧ all_ws w ∧
    (trim_end s = EmptyString ∨ ∃ t b, trim_end s = t +:+ char_of b ∧ is_ws b = false).
Proof.
  induction s as [|s b IH] using str_len_ind; intros Hs.
  - exists EmptyString. split_and!; [done..|by left].
  - apply ascii_str_app in Hs as [Hs Hb]. apply ascii_str_cons in Hb as [Hb _].
    destruct (is_ws b) eqn:Hw.
    + rewrite trim_end_ws by done. destruct (IH Hs) as (w & E & Hws & Ht). exists (w +:+ char_of b).
      split_and!; [by rewrite str_app_assoc, <- E| |done].
      unfold all_ws in *. rewrite str_forallb_app, Hws. cbn. by rewrite Hw.
    + assert (trim_end (s +:+ char_of b) = s +:+ char_of b) as ->.
      { unfold trim_end. rewrite str_chars_ascii by (apply ascii_str_app; split; [done|by apply ascii_str_cons]).
        assert (drop_whitespace (reverse (str_bytes (s +:+ char_of b))) = reverse (str_bytes (s +:+ char_of b))) as ->.
        { rewrite str_bytes_app, reverse_app. cbn. unfold is_ws in Hw. by rewrite Hw. }
        by rewrite reverse_involutive, str_concat_bytes. }
      exists EmptyString. split_and!; [by rewrite str_app_nil_r|done|]. right. by exists s, b.
Qed.

Lemma str_trim_spec s : ascii_str s →
  ∃ w1 w2, s = w1 +:+ str_trim s +:+ w2 ∧ all_ws w1 ∧ all_ws w2.
Proof.
  intros Hs. destruct (trim_start_spec s Hs) as (w1 & E1 & H1 & _).
  destruct (trim_end_spec (trim_start s)) as (w2 & E2 & H2 & _); [by apply trim_start_ascii|].
  exists w1, w2. split_and!; [|done..]. unfold str_trim. by rewrite <- E2.
Qed.

Lemma trimmed_trim s : ascii_str s → trimmed (str_trim s).
Proof.
  intros Hs. pose proof (trim_start_ascii s Hs) as Ha. unfold str_trim.
  destruct (trim_start_spec s Hs) as (w1 & _ & _ & Ht).
  destruct (trim_end_spec (trim_start s) Ha) as (w2 & E2 & H2 & [->|(t & b & Eb & Hb)]); [by left|].
  right. destruct Ht as [Ht|(a & t' & Ht & Hwa)].
  - rewrite Ht in Eb. by destruct t.
  - rewrite Eb in *. destruct t as [|a' t].
    + rewrite Ht in E2. injection E2 as -> _. by exists b, b, EmptyString, EmptyString.
    + rewrite Ht in E2. injection E2 as -> _. by exists a', b, (t +:+ char_of b), (String a' t).
Qed.

Lemma str_split_ascii c s : ascii_str s → Forall ascii_str (str_split c s).
Proof.
  induction s as [|a s IH]; [by repeat constructor|]. intros [Ha Hs]%ascii_str_cons. specialize (IH Hs).
  cbn. case_decide; [by constructor|]. destruct (str_split c s) as [|x l].
  { constructor; [by apply ascii_str_cons|constructor]. }
  apply Forall_cons in IH as [Hx Hl]. constructor; [by apply ascii_str_cons|done].
Qed.

Lemma strip_last_ascii c s t : ascii_str s → strip_last c s = Some t → ascii_str t.
Proof.
  revert t. induction s as [|a s IH]; intros t Hs Ht; [done|]. apply ascii_str_cons in Hs as [Ha Hs].
  destruct s as [|b s].
  - cbn in Ht. case_decide; [by injection Ht as <-|done].
  - change (String a <$> strip_last c (String b s) = Some t) in Ht.
    apply fmap_Some in Ht as (t' & Ht' & ->). apply ascii_str_cons. split; [done|by apply IH].
Qed.

Lemma str_lines_ascii s : ascii_str s → Forall ascii_str (str_lines s).
Proof.
  intros Hs. unfold str_lines. pose proof (str_split_ascii NEWLINE s Hs) as Hl.
  induction Hl as [|x l Hx Hl IH]; [constructor|]. destruct l as [|y l].
  - cbn. destruct (str_is_empty x); by repeat constructor.
  - change (lines_of (x :: y :: l)) with (strip_cr x :: lines_of (y :: l)). constructor; [|done].
    unfold strip_cr. destruct (strip_last CARRIAGE_RETURN x) eqn:E; [by eapply strip_last_ascii|done].
Qed.

Lemma str_splitn2_ascii c s x o : ascii_str s → str_splitn2 c s = (x, o) →
  ascii_str x ∧ match o with Some t => ascii_str t | None => True end.
Proof.
  revert x o. induction s as [|a s IH]; intros x o Hs E; cbn in E.
  { by injection E as <- <-. }
  apply ascii_str_cons in Hs as [Ha Hs]. case_decide; [by injection E as <- <-|].
  destruct (str_splitn2 c s) as [x' o'] eqn:E'. injection E as <- <-.
  destruct (IH x' o' Hs eq_refl) as [Hx Ho]. split; [by apply ascii_str_cons|done].
Qed.

(** ** Characters of well-formed text *)

Lemma str_chars_tail a s c : c ∈ str_chars s → starts_inside c = false → c ∈ str_chars (String a s).
Proof.
  cbn. destruct (str_chars s) as [|c' cs]; [by intros ?%elem_of_nil|]. intros [->|Hin]%elem_of_cons Hc.
  - rewrite Hc. right. by left.
  - destruct (starts_inside c'); [by right|]. by do 2 right.
Qed.

Lemma str_chars_starts s : match str_chars s with c :: _ => starts_inside c = starts_inside s | [] => True end.
Proof. destruct s as [|a s]; cbn; [done|]. by destruct (str_chars s) as [|c cs]; [|destruct (starts_inside c)]. Qed.

Lemma utf8_valid_starts s : utf8_valid s = true → starts_inside s = false.
Proof.
  destruct s as [|a s]; [done|]. cbn [utf8_valid starts_inside]. unfold is_continuation, byte_in. intros Hv.
  apply not_true_is_false. intros [Hlo%Nat.leb_le Hhi%Nat.ltb_lt]%andb_true_iff.
  assert ((nat_of_ascii a <=? 127) = false) as E1 by (apply Nat.leb_gt; lia).
  assert ((194 <=? nat_of_ascii a) = false) as E2 by (apply Nat.leb_gt; lia).
  assert ((224 <=? nat_of_ascii a) = false) as E3 by (apply Nat.leb_gt; lia).
  assert ((240 <=? nat_of_ascii a) = false) as E4 by (apply Nat.leb_gt; lia).
  rewrite E1, E2, E3, E4, !andb_false_l, andb_false_r in Hv. done.
Qed.

Lemma byte_in_not_ascii lo hi b c : byte_in lo hi b = true → (128 <= lo)%nat → is_ascii c = true → b ≠ c.
Proof. unfold byte_in, is_ascii. intros [Hb%Nat.leb_le _]%andb_true_iff Hlo Hc%Nat.ltb_lt ->. lia. Qed.

(** An ASCII byte of well-formed text is a character of its own. *)
Lemma utf8_ascii_char c s : utf8_valid s = true → is_ascii c = true → ¬ no_char c s → char_of c ∈ str_chars s.
Proof.
  intros Hv Hc. assert (starts_inside (char_of c) = false) as Hs by (apply ascii_not_continuation, Hc).
  assert (∀ b s, b ≠ c → ¬ no_char c (String b s) → ¬ no_char c s) as Htail.
  { unfold no_char. cbn. intros b t Hb. by rewrite bool_decide_false. }
  revert Hv. induction s as [s IH] using (induction_ltof1 _ str_len); unfold ltof in IH. destruct s as [|a s]; [by intros _ []|].
  cbn [utf8_valid]. destruct (byte_in 0 127 a) eqn:Ea.
  - intros Hv Hin. destruct (decide (a = c)) as [->|Hne].
    + cbn. pose proof (str_chars_starts s) as Hst. rewrite (utf8_valid_starts s Hv) in Hst.
      destruct (str_chars s) as [|c' cs]; [by left|]. rewrite Hst. by left.
    + apply str_chars_tail; [|done]. apply IH; [cbn; lia|done|]. by apply (Htail a).
  - destruct (byte_in 194 223 a) eqn:E2; [|destruct (byte_in 224 239 a) eqn:E3; [|destruct (byte_in 240 244 a) eqn:E4; [|done]]].
    + destruct s as [|b s]; [done|]. intros [Hb Hv]%andb_true_iff Hin.
      do 2 (apply str_chars_tail; [|done]). apply IH; [cbn; lia|done|].
      apply (Htail b); [eapply byte_in_not_ascii; [exact Hb|lia|done]|].
      apply (Htail a); [eapply byte_in_not_ascii; [exact E2|lia|done]|done].
    + destruct s as [|b [|d s]]; [done..|]. intros [[Hb Hd]%andb_true_iff Hv]%andb_true_iff Hin.
      do 3 (apply str_chars_tail; [|done]). apply IH; [cbn; lia|done|].
      apply (Htail d); [eapply byte_in_not_ascii; [exact Hd|lia|done]|].
      apply (Htail b); [eapply byte_in_not_ascii; [exact Hb|destruct (byte_in 224 224 a); lia|done]|].
      apply (Htail a); [eapply byte_in_not_ascii; [exact E3|lia|done]|done].
    + destruct s as [|b [|d [|e s]]]; [done..|]. intros [[[Hb Hd]%andb_true_iff He]%andb_true_iff Hv]%andb_true_iff Hin.
      do 4 (apply str_chars_tail; [|done]). apply IH; [cbn; lia|done|].
      apply (Htail e); [eapply byte_in_not_ascii; [exact He|lia|done]|].
      apply (Htail d); [eapply byte_in_not_ascii; [exact Hd|lia|done]|].
      apply (Htail b); [eapply byte_in_not_ascii; [exact Hb|destruct (byte_in 240 240 a); lia|done]|].
      apply (Htail a); [eapply byte_in_not_ascii; [exact E4|lia|done]|done].
Qed.
