(* ===== verification/Sundog.v ===== *)
(** * sundog ([sources/api/sundog/src/main.rs])

    Runs the setting generators that the API lists, except for settings that are
    populated, and sends their output to the transaction of the launch services,
    weak settings and strong ones apart.

    The world is abstract: [send] makes an HTTP request (see [ApiClient]), [exec] runs
    a command.  The shlex crate and the [Model] type are arguments. *)
From S2P Require Import Prelude DsError Key Json KeyMap Serialization Deserialization Generator BTree ApiClient DataStore Memory Controller Chars.
From Stdlib Require Import Ascii.
From stdpp Require Import base list strings gmap.
From stdpp Require Import options.

(** ** Definitions *)

Definition API_SETTINGS_URI : string := "/settings".
Definition API_SETTINGS_GENERATORS_URI : string := "/v2/metadata/setting-generators".
Definition LAUNCH_TRANSACTION : string := "bottlerocket-launch".

Inductive sundog_error :=
| CommandFailure (program : string)
| CommandTimeout (generator : string)
| InvalidCommand (command : string)
| FailedSettingGenerator (program code : string)
| UnexpectedReturnCode (program : string) (code : Z)
| GeneratorOutput (program : string)
| APIRequest (method uri : string) (source : client_error)
| ResponseJson (method uri : string)
| InterpretModel
| CommandJson (generator input : string)
| GetPrefix (prefixes : list string) (source : get_error)
| SundogDeserialize (source : de_error)
| SerializeRequest
| SerializeSettings (source : ser_error)
| SerializeScalar (value : json)
| InvalidKey (key : string) (source : error).

(** What comes of running a command: [status] is [None] when a signal ended it;
    [stdout] are bytes. *)
Inductive command_result :=
| TimeoutElapsed
| StartFailed
| Output (status : option Z) (stdout : string).

Record command := mk_command {
  program : string;
  args : list string;
  envs : gmap string string }.

Section sundog.
Context `{HashOrder} `{SerdeJson} `{SettingsModel Settings} {W : Type}.
Variable send : http_request → stres W client_error (Z * string).
Variable exec : command → W → W * command_result.
(** The words of a [Shlex] iterator. *)
Variable shlex : string → list string.
(** [serde_json::from_value::<Model>(..)?.settings]. *)
Variable model_settings : json → result json_error (option Settings).

(** The fields of an object as generators. *)
Fixpoint generators_of (entries : list (string * json)) : result json_error (gmap string SettingsGenerator) :=
  match entries with
  | [] => Ok ∅
  | (setting, v) :: entries =>
      let? generator := settings_generator_of_json v in
      let? generators := generators_of entries in
      Ok (<[setting := generator]> generators)
  end.

Definition get_setting_generators : stres W sundog_error (gmap string SettingsGenerator) :=
  let uri := API_SETTINGS_GENERATORS_URI in
  let! res := st_map_err (APIRequest "GET" uri) (raw_request send uri "GET" None) in
  st_lift (map_err (λ _, ResponseJson "GET" uri)
    (let? v := json_from_str res.2 in
     match v with JObject entries => generators_of entries | _ => Err JsonError end)).

(** The JSON of an [Option<Settings>]. *)
Definition settings_option_json (settings : option Settings) : result json_error json :=
  match settings with Some settings => settings_to_json settings | None => Ok JNull end.

Definition get_populated_settings (to_query : list string) : stres W sundog_error key_set :=
  let! response := st_map_err (GetPrefix to_query) (get_prefixes send to_query []) in
  st_lift (
    let? settings := map_err (λ _, InterpretModel) (model_settings response) in
    let? settings_json := map_err (λ _, SerializeRequest) (settings_option_json settings) in
    let? settings_keypairs := map_err SerializeSettings (to_pairs_with_prefix "settings" settings_json) in
    Ok (hs_collect (hm_keys settings_keypairs))).

(** [response.get("settings").and_then(|s| s.get(..))..] *)
Definition nested (path : list string) (response : json) : option json := json_at path response.

Definition no_proxy_list (network kubernetes : json) : list string :=
  ["localhost"; "127.0.0.1"]
  ++ match nested ["settings"; "network"; "no-proxy"] network with
     | Some (JArray np) => filter (λ s, s ≠ EmptyString) ((λ s, default EmptyString (as_str s)) <$> np)
     | _ => []
     end
  ++ match nested ["settings"; "kubernetes"] kubernetes with
     | Some k8s_settings =>
         match json_get "api-server" k8s_settings ≫= as_str with Some s => [s] | None => [] end
         ++ match json_get "cluster-domain" k8s_settings ≫= as_str with Some s => [s] | None => [] end
     | None => []
     end.

Definition build_proxy_env : stres W sundog_error (gmap string string) :=
  let prefixes := ["settings.network"] in
  let! network := st_map_err (GetPrefix prefixes) (get_prefixes send prefixes []) in
  match nested ["settings"; "network"; "https-proxy"] network ≫= as_str with
  | None => st_ret ∅
  | Some https_proxy =>
      let prefixes := ["settings.kubernetes"] in
      let! kubernetes := st_map_err (GetPrefix prefixes) (get_prefixes send prefixes []) in
      let no_proxy_value := str_join "," (no_proxy_list network kubernetes) in
      st_ret (<["no_proxy" := no_proxy_value]> (<["NO_PROXY" := no_proxy_value]>
        {[ "https_proxy" := https_proxy; "HTTPS_PROXY" := https_proxy ]}))
  end.

(** The output of a generator that is to be set, [None] when it asks not to be. *)
Definition generator_output (generator : string) (res : command_result) : result sundog_error (option string) :=
  match res with
  | TimeoutElapsed => Err (CommandTimeout generator)
  | StartFailed => Err (CommandFailure generator)
  | Output (Some 0%Z) stdout =>
      let? _ := ensure (utf8_valid stdout) (GeneratorOutput generator) in
      let output_raw := str_trim stdout in
      let? output_value := map_err (λ _, CommandJson generator output_raw) (json_from_str output_raw) in
      let? serialized_output := map_err (λ _, SerializeScalar output_value) (serialize_scalar output_value) in
      Ok (Some serialized_output)
  | Output (Some 1%Z) _ => Err (FailedSettingGenerator generator "1")
  | Output (Some 2%Z) _ => Ok None
  | Output (Some x) _ => Err (UnexpectedReturnCode generator x)
  | Output None _ => Err (FailedSettingGenerator generator "signal")
  end.

Definition is_populated (populated_settings : key_set) (setting : Key) : bool :=
  existsb (λ k, starts_with_segments k (segments setting)) (hs_iter populated_settings).

Record collected := mk_collected { weak_settings : key_map string; strong_settings : key_map string }.

Definition add_output (setting : Key) (strength : Strength) (serialized_output : string) (c : collected) : collected :=
  match strength with
  | Strong => mk_collected (weak_settings c) (hm_insert setting serialized_output (strong_settings c))
  | Weak => mk_collected (hm_insert setting serialized_output (weak_settings c)) (strong_settings c)
  end.

(** The loop over the generators. *)
Fixpoint run_generators (populated_settings : key_set) (proxy_envs : gmap string string)
    (generators : list (string * SettingsGenerator)) (c : collected) : stres W sundog_error collected :=
  match generators with
  | [] => st_ret c
  | (setting_str, generator_object) :: generators =>
      let generator := gen_command generator_object in
      let! setting := st_lift (map_err (InvalidKey setting_str) (key_new Data setting_str)) in
      if is_populated populated_settings setting
      then run_generators populated_settings proxy_envs generators c
      else
        match shlex generator with
        | [] => st_lift (Err (InvalidCommand generator))
        | command :: args => λ s,
            let '(s, res) := exec (mk_command command args proxy_envs) s in
            (let! output := st_lift (generator_output generator res) in
             run_generators populated_settings proxy_envs generators
               match output with
               | Some serialized_output => add_output setting (gen_strength generator_object) serialized_output c
               | None => c
               end) s
        end
  end.

(** [(!m.is_empty()).then_some(from_map(&m)?)]: the map is read in any case. *)
Definition settings_struct (m : key_map string) : result sundog_error (option Settings) :=
  let? settings := map_err SundogDeserialize (from_map m) in
  Ok (if decide (m = ∅) then None else Some settings).

Definition get_dynamic_settings (generators : gmap string SettingsGenerator) :
    stres W sundog_error (option Settings * option Settings) :=
  let settings_to_query := (map_iter generators).*1 in
  let! populated_settings := get_populated_settings settings_to_query in
  let! proxy_envs := build_proxy_env in
  let! c := run_generators populated_settings proxy_envs (map_iter generators) (mk_collected ∅ ∅) in
  let! weak_settings_struct := st_lift (settings_struct (weak_settings c)) in
  let! strong_settings_struct := st_lift (settings_struct (strong_settings c)) in
  st_ret (weak_settings_struct, strong_settings_struct).

Definition settings_uri (strength : Strength) : string :=
  API_SETTINGS_URI +:+ "?tx=" +:+ LAUNCH_TRANSACTION +:+ "&strength=" +:+ strength_to_string strength.

(** [serde_json::to_string] of the settings. *)
Definition settings_text (settings : Settings) : result json_error string :=
  let? v := settings_to_json settings in json_to_string v.

Definition set_settings (settings : Settings) (strength : Strength) : stres W sundog_error () :=
  let! request_body := st_lift (map_err (λ _, SerializeRequest) (settings_text settings)) in
  let uri := settings_uri strength in
  let! _ := st_map_err (APIRequest "PATCH" uri) (raw_request send uri "PATCH" (Some request_body)) in
  st_ret tt.

Definition set_if (settings : option Settings) (strength : Strength) : stres W sundog_error () :=
  match settings with Some settings => set_settings settings strength | None => st_ret tt end.

Definition run : stres W sundog_error () :=
  let! generators := get_setting_generators in
  if decide (generators = ∅) then st_ret tt
  else
    let! settings := get_dynamic_settings generators in
    let! _ := set_if settings.1 Weak in
    set_if settings.2 Strong.
End sundog.

(** ** What sundog does *)

Inductive event :=
| Sent (req : http_request)
| Ran (c : command) (res : command_result).

(** The same world, keeping the requests that are made and the commands that run. *)
Definition log_send {W} (send : http_request → stres W client_error (Z * string)) :
    http_request → stres (W * list event) client_error (Z * string) := λ req s,
  let '(w, r) := send req s.1 in ((w, s.2 ++ [Sent req]), r).
Definition log_exec {W} (exec : command → W → W * command_result) :
    command → W * list event → (W * list event) * command_result := λ c s,
  let '(w, res) := exec c s.1 in ((w, s.2 ++ [Ran c res]), res).

Definition is_get (e : event) : Prop := match e with Sent req => method req = "GET" | Ran _ _ => False end.

(** A generator that did not fail: it gave output or asked for no setting. *)
Definition exited_well (e : event) : Prop :=
  match e with Ran _ (Output (Some n) _) => n = 0%Z ∨ n = 2%Z | _ => False end.

Section facts.
Context `{HashOrder} `{SerdeJson} `{SettingsModel Settings} {W : Type}.
Variable send : http_request → stres W client_error (Z * string).
Variable exec : command → W → W * command_result.
Variable shlex : string → list string.
Variable model_settings : json → result json_error (option Settings).

Lemma log_send_appends req (P : event → Prop) : P (Sent req) → st_appends P (log_send send req).
Proof.
  intros HP s log s' log' r. unfold log_send. cbn. destruct (send req s) as [w r0]. intros [= _ <- _].
  exists [Sent req]. split; [done|]. by constructor.
Qed.

Lemma raw_request_appends uri method data (P : event → Prop) :
  P (Sent (mk_request uri method data)) → st_appends P (raw_request (log_send send) uri method data).
Proof.
  intros HP. unfold raw_request. apply st_appends_bind; [by apply log_send_appends|].
  intros [status body]. auto with appends.
Qed.

Lemma get_prefixes_appends include exclude : st_appends is_get (get_prefixes (log_send send) include exclude).
Proof.
  unfold get_prefixes. apply st_appends_bind; [|auto with appends].
  induction include as [|prefix include IH]; cbn [fetch_prefixes]; [auto with appends|].
  apply st_appends_bind; [|auto with appends]. unfold get_uri. apply st_appends_bind; [|auto with appends].
  apply st_appends_map_err. by apply raw_request_appends.
Qed.

Lemma get_setting_generators_appends : st_appends is_get (get_setting_generators (log_send send)).
Proof.
  unfold get_setting_generators. apply st_appends_bind; [|auto with appends].
  apply st_appends_map_err. by apply raw_request_appends.
Qed.

Lemma get_populated_settings_appends to_query :
  st_appends is_get (get_populated_settings (log_send send) model_settings to_query).
Proof.
  unfold get_populated_settings. apply st_appends_bind; [|auto with appends].
  apply st_appends_map_err, get_prefixes_appends.
Qed.

Lemma build_proxy_env_appends : st_appends is_get (build_proxy_env (log_send send)).
Proof.
  unfold build_proxy_env. apply st_appends_bind; [apply st_appends_map_err, get_prefixes_appends|].
  intros network. destruct (_ ≫= as_str); [|auto with appends].
  apply st_appends_bind; [apply st_appends_map_err, get_prefixes_appends|auto with appends].
Qed.

(** The entry of a setting that was generated: its generator was listed, the setting is
    not populated, and the value is the output of the generator's command. *)
Definition generated (populated : key_set) (proxy_envs : gmap string string) (ran : list event)
    (generators : list (string * SettingsGenerator)) (strength : Strength) (segs : list string) (v : string) : Prop :=
  ∃ setting_str g setting c stdout,
    (setting_str, g) ∈ generators ∧ key_new Data setting_str = Ok setting ∧ segments setting = segs ∧
    gen_strength g = strength ∧ is_populated populated setting = false ∧
    shlex (gen_command g) = program c :: args c ∧ envs c = proxy_envs ∧
    Ran c (Output (Some 0%Z) stdout) ∈ ran ∧
    generator_output (gen_command g) (Output (Some 0%Z) stdout) = Ok (Some v).

Definition settings_of (strength : Strength) (c : collected) : key_map string :=
  match strength with Strong => strong_settings c | Weak => weak_settings c end.

Lemma settings_of_add strength setting g_strength v c :
  hm_view (settings_of strength (add_output setting g_strength v c)) =
  if bool_decide (strength = g_strength) then <[segments setting := v]> (hm_view (settings_of strength c))
  else hm_view (settings_of strength c).
Proof. destruct strength, g_strength; cbn; try done; by rewrite hm_view_insert. Qed.

Lemma generated_weaken populated proxy_envs ran ran' generators generators' strength segs v :
  ran ⊆ ran' → generators ⊆ generators' →
  generated populated proxy_envs ran generators strength segs v →
  generated populated proxy_envs ran' generators' strength segs v.
Proof.
  intros Hr Hg (setting_str & g & setting & c & stdout & ? & ? & ? & ? & ? & ? & ? & ? & ?).
  exists setting_str, g, setting, c, stdout. split_and!; auto.
Qed.

Lemma generator_output_Some generator res v :
  generator_output generator res = Ok (Some v) → ∃ stdout, res = Output (Some 0%Z) stdout.
Proof.
  destruct res as [| |[[|[[]|[]|]|]|] stdout]; cbn; try done. intros _. by eexists.
Qed.

Lemma generator_output_Ok generator res o c :
  generator_output generator res = Ok o → exited_well (Ran c res).
Proof.
  destruct res as [| |[[|[[]|[]|]|]|] stdout]; cbn; try done; auto.
Qed.

Definition ran_command (e : event) : Prop := match e with Ran _ _ => True | Sent _ => False end.

(** What the loop over the generators collects: only what generators gave for settings
    that are not populated, and the generator of every such setting has run. *)
Lemma run_generators_logged populated proxy_envs generators c s log s' log' r :
  run_generators (log_exec exec) shlex populated proxy_envs generators c (s, log) = ((s', log'), r) →
  ∃ ran, log' = log ++ ran ∧ Forall ran_command ran ∧
    ∀ c', r = Ok c' → Forall exited_well ran ∧
      (∀ strength segs v, hm_view (settings_of strength c') !! segs = Some v →
         hm_view (settings_of strength c) !! segs = Some v ∨
         generated populated proxy_envs ran generators strength segs v) ∧
      (∀ setting_str g, (setting_str, g) ∈ generators → ∃ setting, key_new Data setting_str = Ok setting ∧
         (is_populated populated setting = true ∨
          ∃ cmd res, Ran cmd res ∈ ran ∧ shlex (gen_command g) = program cmd :: args cmd)).
Proof.
  revert c s log. induction generators as [|[setting_str g] generators IH]; intros c s log Hr; cbn [run_generators] in Hr.
  { injection Hr as <- <- <-. exists []. rewrite app_nil_r. split; [done|]. split; [done|].
    intros c' [= <-]. split; [done|]. split; [by left|]. by intros ? ? ?%not_elem_of_nil. }
  apply st_lift_inv in Hr as [(e & _ & [= -> ->] & ->)|(setting & Hk & Hr)].
  { exists []. by rewrite app_nil_r. }
  apply map_err_Ok in Hk. destruct (is_populated populated setting) eqn:Ep.
  { apply IH in Hr as (ran & -> & Hran & Hc). exists ran. split; [done|]. split; [done|].
    intros c' [= ->]. destruct (Hc c' eq_refl) as (Hw & Hg & Hall). split; [done|]. split.
    - intros strength segs v [?|?]%Hg; [by left|right]. eapply generated_weaken; [..|done]; set_solver.
    - intros str g' [[= -> ->]|Hin]%elem_of_cons; [|by apply Hall]. exists setting. auto. }
  destruct (shlex (gen_command g)) as [|cmd args] eqn:Esh.
  { injection Hr as <- <- <-. exists []. by rewrite app_nil_r. }
  unfold log_exec in Hr at 1. cbn [fst snd] in Hr.
  destruct (exec (mk_command cmd args proxy_envs) s) as [s1 res] eqn:Ee.
  apply st_lift_inv in Hr as [(e & _ & [= -> ->] & ->)|(output & Ho & Hr)].
  { exists [Ran (mk_command cmd args proxy_envs) res]. split; [done|]. by split; [repeat constructor|]. }
  apply IH in Hr as (ran & -> & Hran & Hc).
  exists (Ran (mk_command cmd args proxy_envs) res :: ran). split; [by rewrite <- app_assoc|].
  split; [by constructor|]. intros c' [= ->]. destruct (Hc c' eq_refl) as (Hw & Hg & Hall).
  split; [constructor; [by eapply generator_output_Ok|done]|]. split.
  - intros strength segs v [Hv|Hv]%Hg; [|right; eapply generated_weaken; [..|done]; set_solver].
    destruct output as [out|]; [|by left]. rewrite settings_of_add in Hv.
    case_bool_decide as Es; [|by left]. apply lookup_insert_Some in Hv as [[<- <-]|[_ ?]]; [|by left].
    right. destruct (generator_output_Some _ _ _ Ho) as [stdout ->].
    exists setting_str, g, setting, (mk_command cmd args proxy_envs), stdout. split_and!; try done; by left.
  - intros str g' [[= -> ->]|Hin]%elem_of_cons.
    + exists setting. split; [done|]. right. eexists _, res. split; [by left|done].
    + destruct (Hall _ _ Hin) as (setting' & Hk' & [?|(cm & re & ? & ?)]); exists setting'; (split; [done|]); [by left|].
      right. exists cm, re. split; [by right|done].
Qed.

(** *** The patches *)

(** The patch for the collected settings of one strength: none when there are none. *)
Definition patches_of (strength : Strength) (c : collected) (patches : list event) (r : result sundog_error ()) : Prop :=
  (patches = [] ∧ (r = Ok tt → settings_of strength c = ∅)) ∨
  (∃ settings body, settings_of strength c ≠ ∅ ∧ from_map (settings_of strength c) = Ok settings ∧
     settings_text settings = Ok body ∧
     patches = [Sent (mk_request (settings_uri strength) "PATCH" (Some body))]).

Lemma raw_request_logs uri method data s log s' log' r :
  raw_request (log_send send) uri method data (s, log) = ((s', log'), r) →
  log' = log ++ [Sent (mk_request uri method data)].
Proof.
  unfold raw_request, st_bind, log_send. cbn. destruct (send _ s) as [s1 [[code body]|e]]; [|by intros [= _ <- _]].
  cbn. by destruct (is_success code); intros [= _ <- _].
Qed.

Lemma set_if_logged c strength settings s log s' log' r :
  settings_struct (settings_of strength c) = Ok settings →
  set_if (log_send send) settings strength (s, log) = ((s', log'), r) →
  ∃ patches, log' = log ++ patches ∧ patches_of strength c patches r.
Proof.
  unfold settings_struct. intros Hst Hs. rinv.
  match goal with H : from_map _ = Ok ?x |- _ => rename x into st, H into Hm end.
  destruct (decide (settings_of strength c = ∅)) as [E|E].
  { injection Hs as _ <- <-. exists []. rewrite app_nil_r. split; [done|]. by left. }
  cbn [set_if] in Hs. unfold set_settings in Hs.
  apply st_lift_inv in Hs as [(e & _ & [= _ ->] & ->)|(body & Hb & Hs)].
  { exists []. rewrite app_nil_r. split; [done|]. by left. }
  apply map_err_Ok in Hb. exists [Sent (mk_request (settings_uri strength) "PATCH" (Some body))]. split.
  - apply st_bind_inv in Hs as [(e & Hs & _)|([s2 log2] & res & Hs & Hs')]; unfold st_map_err in Hs;
      destruct (raw_request _ _ _ _ _) as [[s3 log3] r3] eqn:E3; apply raw_request_logs in E3 as ->;
      injection Hs as _ <- _; [done|].
    by injection Hs' as _ <- _.
  - right. by exists st, body.
Qed.

(** What a run has collected when all generators are done, from the state in which it
    asked for the populated settings: only outputs of listed generators, run with the
    proxy environment, for settings that are not populated and have nothing populated
    below them; and the generator of every such setting has run. *)
Definition collected_from (s1 : W * list event) (generators : gmap string SettingsGenerator) (ran : list event)
    (c : collected) : Prop :=
  ∃ populated s2 proxy_envs s3,
    get_populated_settings (log_send send) model_settings (map_iter generators).*1 s1 = (s2, Ok populated) ∧
    build_proxy_env (log_send send) s2 = (s3, Ok proxy_envs) ∧
    Forall exited_well ran ∧
    (∀ strength segs v, hm_view (settings_of strength c) !! segs = Some v →
       generated populated proxy_envs ran (map_iter generators) strength segs v) ∧
    (∀ setting_str g, generators !! setting_str = Some g →
       ∃ setting, key_new Data setting_str = Ok setting ∧
         (is_populated populated setting = true ∨
          ∃ cmd res, Ran cmd res ∈ ran ∧ shlex (gen_command g) = program cmd :: args cmd)).

Lemma dynamic_settings_logged generators s log s' log' r :
  get_dynamic_settings (log_send send) (log_exec exec) shlex model_settings generators (s, log) = ((s', log'), r) →
  ∃ reads ran, log' = log ++ reads ++ ran ∧ Forall is_get reads ∧ Forall ran_command ran ∧
    ∀ st, r = Ok st → ∃ c, collected_from (s, log) generators ran c ∧
      settings_struct (settings_of Weak c) = Ok st.1 ∧ settings_struct (settings_of Strong c) = Ok st.2.
Proof.
  unfold get_dynamic_settings. intros Hd.
  apply st_bind_inv in Hd as [(e & Hp & ->)|([s2 log2] & populated & Hp & Hd)];
    pose proof Hp as (ext1 & -> & Hx1)%get_populated_settings_appends.
  { exists ext1, []. by rewrite app_nil_r. }
  apply st_bind_inv in Hd as [(e & Hb & ->)|([s3 log3] & envs & Hb & Hd)];
    pose proof Hb as (ext2 & -> & Hx2)%build_proxy_env_appends.
  { exists (ext1 ++ ext2), []. rewrite app_nil_r, <- app_assoc. split_and!; [done|by apply Forall_app_2|done|done]. }
  apply st_bind_inv in Hd as [(e & Hc & ->)|([s4 log4] & c & Hc & Hd)];
    apply run_generators_logged in Hc as (ran & -> & Hran & Hc); exists (ext1 ++ ext2), ran.
  { rewrite <- !app_assoc. split_and!; [done|by apply Forall_app_2|done|done]. }
  assert (log' = ((log ++ ext1) ++ ext2) ++ ran ∧
          ∀ st, r = Ok st → settings_struct (settings_of Weak c) = Ok st.1 ∧
                            settings_struct (settings_of Strong c) = Ok st.2) as [-> Hst].
  { apply st_lift_inv in Hd as [(e & _ & [= _ ->] & ->)|(weak & Hw & Hd)]; [done|].
    apply st_lift_inv in Hd as [(e & _ & [= _ ->] & ->)|(strong & Hs & Hd)]; [done|].
    injection Hd as _ <- <-. split; [done|]. by intros st [= <-]. }
  rewrite <- !app_assoc. split_and!; [done|by apply Forall_app_2|done|].
  intros st Er. exists c. split; [|by apply Hst]. destruct (Hc c eq_refl) as (Hw & Hg & Hall).
  exists populated, (s2, log ++ ext1), envs, (s3, (log ++ ext1) ++ ext2). split_and!; [done..| |].
  - intros strength segs v [Hv|?]%Hg; [|done]. by destruct strength.
  - intros str g Hin. apply Hall, elem_of_map_iter, Hin.
Qed.
End facts.

(** ** Properties *)

(** C8. A run of sundog, wherever it stops: first it only reads from the API, then it
    only runs generators, then it sends at most the weak and then the strong settings
    to the launch transaction.  Anything is sent only when no generator that ran
    failed; what is sent are the settings collected for that strength: each the output
    of its own listed generator, run with the proxy environment, for a setting that is
    not populated and has nothing populated below it.  A run that succeeds has run the
    generator of every such setting and leaves nothing unsent. *)
Theorem sundog_run_sound `{HashOrder} `{SerdeJson} `{SettingsModel Settings} {W : Type}
    (send : http_request → stres W client_error (Z * string)) (exec : command → W → W * command_result)
    shlex model_settings s s' log r :
  run (log_send send) (log_exec exec) shlex model_settings (s, []) = ((s', log), r) →
  ∃ reads ran weak strong, log = reads ++ ran ++ weak ++ strong ∧
    Forall is_get reads ∧ Forall ran_command ran ∧
    (weak ++ strong ≠ [] ∨ r = Ok tt →
     ∃ generators s1, get_setting_generators (log_send send) (s, []) = (s1, Ok generators) ∧
       (generators = ∅ ∧ ran ++ weak ++ strong = [] ∨
        ∃ c r_weak r_strong, collected_from send shlex model_settings s1 generators ran c ∧
          patches_of Weak c weak r_weak ∧ patches_of Strong c strong r_strong ∧
          (r = Ok tt → r_weak = Ok tt ∧ r_strong = Ok tt))).
Proof.
  unfold run. intros Hr.
  apply st_bind_inv in Hr as [(e & Hg & ->)|([s1 log1] & generators & Hg & Hr)];
    pose proof Hg as (reads1 & El & Hreads1)%get_setting_generators_appends; cbn in El; subst.
  { exists reads1, [], [], []. rewrite !app_nil_r. split_and!; [done..|]. by intros [?|?]. }
  destruct (decide (generators = ∅)) as [->|Hne].
  { injection Hr as _ <- <-. exists reads1, [], [], []. rewrite !app_nil_r. split_and!; [done..|].
    intros _. exists ∅, (s1, reads1). split; [done|]. by left. }
  apply st_bind_inv in Hr as [(e & Hd & ->)|([s2 log2] & st & Hd & Hr)];
    apply dynamic_settings_logged in Hd as (reads2 & ran & -> & Hreads2 & Hran & Hc).
  { exists (reads1 ++ reads2), ran, [], []. rewrite !app_nil_r, <- app_assoc.
    split_and!; [done|by apply Forall_app_2|done|]. by intros [?|?]. }
  destruct (Hc st eq_refl) as (c & Hcol & Hw & Hs).
  assert (∃ weak strong r_weak r_strong, log = (reads1 ++ reads2 ++ ran) ++ weak ++ strong ∧
            patches_of Weak c weak r_weak ∧ patches_of Strong c strong r_strong ∧
            (r = Ok tt → r_weak = Ok tt ∧ r_strong = Ok tt)) as (weak & strong & rw & rs & -> & Hpw & Hps & Hok).
  { apply st_bind_inv in Hr as [(e & Hr & ->)|([s3 log3] & [] & Hr & Hr')];
      apply (set_if_logged _ c Weak) in Hr as (weak & -> & Hpw); [|done| |done].
    - exists weak, [], (Err e), (Err e). rewrite app_nil_r. split_and!; [done|done|by left|done].
    - apply (set_if_logged _ c Strong) in Hr' as (strong & -> & Hps); [|done].
      exists weak, strong, (Ok tt), r. rewrite <- app_assoc. by split_and!. }
  exists (reads1 ++ reads2), ran, weak, strong. rewrite <- !app_assoc.
  split_and!; [done|by apply Forall_app_2|done|]. intros _. exists generators, (s1, reads1).
  split; [done|]. right. by exists c, rw, rs.
Qed.

(** ** Witnesses *)

#[local] Existing Instance example_order.
#[local] Existing Instance example_json.
#[local] Existing Instance example_model.

Definition scripted (req : http_request) : stres (list (Z * string)) client_error (Z * string) := λ answers,
  match answers with [] => ([], Err RequestSend) | a :: answers => (answers, Ok a) end.
Definition text (v : json) : Z * string := (200%Z, example_to_string v).

(** Three generators, one for a setting with something populated below it. *)
Definition example_answers : list (Z * string) :=
  let populated := JObject [("settings", JObject [("net", JObject [("mtu", JString "9000")])])] in
  [text (JObject [("settings.motd", JString "gen motd"); ("settings.net", JString "gen net");
                  ("settings.ntp", JObject [("command", JString "gen ntp"); ("strength", JString "weak")])]);
   text populated; text populated; text populated; text populated; (204%Z, EmptyString); (204%Z, EmptyString)].
Definition example_exec (c : command) (answers : list (Z * string)) : list (Z * string) * command_result :=
  (answers, Output (Some 0%Z) (example_to_string (JString (str_join "-" (args c))))).
Definition example_run :=
  run (log_send scripted) (log_exec example_exec) (str_split " "%char) (λ v, Ok (json_get "settings" v))
    (example_answers, []).

Lemma sundog_run_sound_witness :
  example_run.2 = Ok tt ∧
  drop 5 example_run.1.2 =
    [Ran (mk_command "gen" ["motd"] ∅) (Output (Some 0%Z) (example_to_string (JString "motd")));
     Ran (mk_command "gen" ["ntp"] ∅) (Output (Some 0%Z) (example_to_string (JString "ntp")));
     Sent (mk_request (settings_uri Weak) "PATCH"
             (Some (example_to_string (JObject [("ntp", JString "ntp")]))));
     Sent (mk_request (settings_uri Strong) "PATCH"
             (Some (example_to_string (JObject [("motd", JString "motd")]))))] ∧
  ∃ reads ran weak strong, example_run.1.2 = reads ++ ran ++ weak ++ strong ∧ Forall is_get reads.
Proof.
  split; [vm_compute; reflexivity|]. split; [vm_compute; reflexivity|].
  destruct (sundog_run_sound scripted example_exec (str_split " "%char) (λ v, Ok (json_get "settings" v))
    example_answers example_run.1.1 example_run.1.2 example_run.2)
    as (reads & ran & weak & strong & Hl & Hr & _).
  - change (example_run = (example_run.1.1, example_run.1.2, example_run.2)).
    by destruct example_run as [[] ].
  - exists reads, ran, weak, strong. split; [exact Hl|exact Hr].
Defined.
