(* ===== verification/TharBeSettings.v ===== *)
(** * thar-be-settings ([sources/api/thar-be-settings/src])

    Applies settings: finds the services that changed settings affect, renders and
    writes their configuration files, and runs their restart commands; or does so for
    all services.

    What the program does to the host is the class [Host]: requests to the API, the
    template engine, files and commands.  The decoding of the API's services and
    configuration files and the escaping of queries are arguments. *)
From S2P Require Import Prelude DsError Key Json KeyMap BTree ApiClient Numbers Filesystem.
From Stdlib Require Import Ascii.
From stdpp Require Import base list strings gmap.
From stdpp Require Import options.

(** ** Definitions *)

(** [model::Service], [model::ConfigurationFile]. *)
Record service_model := mk_service_model {
  configuration_files : list string;
  restart_commands : list string }.
Record config_file := mk_config_file {
  cf_path : string;
  template_path : string;
  cf_mode : option string;
  overwrite_path_if_present : option bool }.

(** [service::Service]: with the changed settings that matter to it. *)
Record Service := mk_service {
  changed_settings : option (gset string);
  model : service_model }.

Inductive tbs_error :=
| InvalidInput (input : string)
| TemplateWrite (pathtype : string)
| TemplateMode (path mode : string)
| CommandExecutionFailure (command : string)
| FailedReloadCommand (command : string)
| FailedRestartCommand (command : string)
| InvalidRestartCommand (command : string)
| TemplateRender (template : string)
| GetJsonRequest (uri : string) (source : client_error)
| GetJsonResponse (uri : string).

(** A command with the variables that are added to its environment. *)
Record tbs_command := mk_tbs_command {
  tbs_program : string;
  tbs_args : list string;
  tbs_env : list (string * string) }.

(** What the program does to the host; a command that ran gives whether it succeeded. *)
Class Host (W : Type) := {
  api : http_request → stres W client_error (Z * string);
  render_template_file : string → stres W () string;
  exists_path : W → string → bool;
  create_dir_all : list string → stres W () ();
  write_file : string → Z → string → stres W () ();
  run_command : tbs_command → stres W () bool }.

Inductive RunMode := All | SpecificKeys.

Record RenderedConfigFile := mk_rendered {
  r_path : string;
  rendered : string;
  r_mode : option string }.

Definition DEFAULT_FILE_MODE : Z := 420.
Definition SYSTEMCTL_DAEMON_RELOAD : string := "systemctl daemon-reload".

(** [u32::from_str_radix] of octal digits. *)
Fixpoint parse_octal_digits (s : string) (acc : Z) : option Z :=
  match s with
  | EmptyString => Some acc
  | String c s =>
      d ← digit c;
      if (8 <=? d)%Z then None
      else let acc := (acc * 8 + d)%Z in
           if (acc <? 2 ^ 32)%Z then parse_octal_digits s acc else None
  end.
Definition parse_octal (s : string) : option Z :=
  let s := strip_plus s in
  if str_is_empty s then None else parse_octal_digits s 0.

(** A [HashSet<String>] in iteration order, and [itertools::join]. *)
Definition set_iter `{HashOrder} (s : gset string) : list string :=
  hash_iter (set_to_map (λ x, (x, x)) s : gmap string string).
Definition join_set `{HashOrder} (s : gset string) (sep : string) : string := str_join sep (set_iter s).

Section tbs.
Context `{HashOrder} `{SerdeJson} {W : Type} `{Host W}.
(** [utf8_percent_encode] of the query; the API's JSON as services and files. *)
Variable query_escape : string → string.
Variable services_of_json : json → result json_error (gmap string service_model).
Variable files_of_json : json → result json_error (gmap string config_file).

(** [schnauzer::v1::get_json] *)
Definition get_json {T} (decode : json → result json_error T) (uri : string) (query : option (string * string)) :
    stres W tbs_error T :=
  let uri := match query with
             | Some (query_param, query_arg) => uri +:+ "?" +:+ query_escape (query_param +:+ "=" +:+ query_arg)
             | None => uri
             end in
  let! res := st_map_err (GetJsonRequest uri) (raw_request api uri "GET" None) in
  st_lift (map_err (λ _, GetJsonResponse uri) (let? v := json_from_str res.2 in decode v)).

(** [Vec<String>] and [HashMap<String, Vec<String>>] from JSON. *)
Fixpoint strings_of (l : list json) : result json_error (list string) :=
  match l with
  | [] => Ok []
  | JString s :: l => let? l := strings_of l in Ok (s :: l)
  | _ :: _ => Err JsonError
  end.
Fixpoint lists_of (m : list (string * json)) : result json_error (gmap string (list string)) :=
  match m with
  | [] => Ok ∅
  | (k, JArray l) :: m =>
      let? l := strings_of l in
      let? m := lists_of m in
      Ok (<[k := l]> m)
  | _ :: _ => Err JsonError
  end.
Definition string_lists_of_json (v : json) : result json_error (gmap string (list string)) :=
  match v with JObject m => lists_of m | _ => Err JsonError end.

(** *** [service.rs] *)

Definition from_model_services (input : gmap string service_model)
    (all_changed_settings : option (gmap string (gset string))) : gmap string Service :=
  map_imap (λ name m, Some (mk_service (s ← all_changed_settings; s !! name) m)) input.

Definition get_affected_service_metadata (settings : gset string) : stres W tbs_error (gmap string (list string)) :=
  get_json string_lists_of_json "/metadata/affected-services" (Some ("keys", join_set settings ",")).

Definition get_service_metadata (services_limit : option (gset string)) : stres W tbs_error (gmap string service_model) :=
  get_json services_of_json "/services" ((λ services, ("names", join_set services ",")) <$> services_limit).

(** [values().flatten().collect()] *)
Definition service_names_of (affected_services : gmap string (list string)) : gset string :=
  list_to_set (concat (map_iter affected_services).*2).

(** The mapping from settings to services, reversed. *)
Fixpoint add_setting (setting : string) (services : list string) (m : gmap string (gset string)) :
    gmap string (gset string) :=
  match services with
  | [] => m
  | service :: services =>
      add_setting setting services (<[service := {[setting]} ∪ default ∅ (m !! service)]> m)
  end.
Definition reverse_mapping (affected_services : gmap string (list string)) : gmap string (gset string) :=
  foldl (λ m '(setting, services), add_setting setting services m) ∅ (map_iter affected_services).

Definition get_affected_services (settings_limit : option (gset string)) : stres W tbs_error (gmap string Service) :=
  match settings_limit with
  | Some settings_limit =>
      let! affected_services := get_affected_service_metadata settings_limit in
      if decide (affected_services = ∅) then st_ret ∅
      else
        let! service_meta := get_service_metadata (Some (service_names_of affected_services)) in
        st_ret (from_model_services service_meta (Some (reverse_mapping affected_services)))
  | None =>
      let! service_meta := get_service_metadata None in
      st_ret (from_model_services service_meta None)
  end.

(** The variable that tells a service which settings changed. *)
Definition changed_env (service : Service) : list (string * string) :=
  match changed_settings service with
  | Some changed => if decide (changed = ∅) then [] else [("CHANGED_SETTINGS", join_set changed " ")]
  | None => []
  end.

Definition restart_command_of (service : Service) (restart_command : string) : option tbs_command :=
  match str_split " " restart_command with
  | [] => None
  | command :: args => Some (mk_tbs_command command args (changed_env service))
  end.

Definition run_restart (service : Service) (restart_command : string) : stres W tbs_error () :=
  let! command := st_lift (ok_or (restart_command_of service restart_command) (InvalidRestartCommand restart_command)) in
  let! success := st_map_err (λ _, CommandExecutionFailure restart_command) (run_command command) in
  st_lift (ensure success (FailedRestartCommand restart_command)).

Definition restart (service : Service) : stres W tbs_error () :=
  st_forM (restart_commands (model service)) (run_restart service).

Definition restart_services (services : gmap string Service) : stres W tbs_error () :=
  st_forM (map_iter services) (λ '(name, service), restart service).

(** *** [config.rs] *)

Definition get_affected_config_files (files_limit : option (gset string)) : stres W tbs_error (gmap string config_file) :=
  get_json files_of_json "/configuration-files" ((λ files, ("names", join_set files ",")) <$> files_limit).

Definition get_config_file_names (services : gmap string Service) : gset string :=
  list_to_set (concat ((λ s, configuration_files (model s.2)) <$> map_iter services)).

Definition should_render (w : W) (file : config_file) : bool :=
  negb (bool_decide (overwrite_path_if_present file = Some false)) || negb (exists_path w (cf_path file)).

Fixpoint render_config_files (config_files : list (string * config_file)) (strict : bool)
    (rendered_configs : list RenderedConfigFile) : stres W tbs_error (list RenderedConfigFile) :=
  match config_files with
  | [] => st_ret rendered_configs
  | (name, metadata) :: config_files => λ w,
      if negb (should_render w metadata) then render_config_files config_files strict rendered_configs w
      else
        match render_template_file (template_path metadata) w with
        | (w, Ok text) =>
            render_config_files config_files strict
              (rendered_configs ++ [mk_rendered (cf_path metadata) text (cf_mode metadata)]) w
        | (w, Err _) =>
            if strict then (w, Err (TemplateRender name))
            else render_config_files config_files strict rendered_configs w
        end
  end.

Definition write_to_disk (cfg : RenderedConfigFile) : stres W tbs_error () :=
  let! _ := match parent (components (r_path cfg)) with
            | Some dirname => st_map_err (λ _, TemplateWrite "directory") (create_dir_all dirname)
            | None => st_ret tt
            end in
  let! mode := match r_mode cfg with
               | Some mode => st_lift (ok_or (parse_octal mode) (TemplateMode (r_path cfg) mode))
               | None => st_ret DEFAULT_FILE_MODE
               end in
  st_map_err (λ _, TemplateWrite "file") (write_file (r_path cfg) mode (rendered cfg)).

Definition write_rendered (rendered_configs : list RenderedConfigFile) : stres W tbs_error () :=
  st_forM rendered_configs write_to_disk.

Definition needs_reload (cfg : RenderedConfigFile) : bool := str_starts_with (r_path cfg) "/etc/systemd/".

Definition reload_command : tbs_command := mk_tbs_command "systemctl" ["daemon-reload"] [].
Definition reload_config_files (rendered_configs : list RenderedConfigFile) : stres W tbs_error () :=
  if existsb needs_reload rendered_configs then
    let! success := st_map_err (λ _, CommandExecutionFailure SYSTEMCTL_DAEMON_RELOAD) (run_command reload_command) in
    st_lift (ensure success (FailedReloadCommand SYSTEMCTL_DAEMON_RELOAD))
  else st_ret tt.

(** *** [main.rs] *)

Definition write_config_files (mode : RunMode) (files_limit : option (gset string)) : stres W tbs_error () :=
  let! config_files := get_affected_config_files files_limit in
  let strict := match mode with SpecificKeys => true | All => false end in
  let! rendered := render_config_files (map_iter config_files) strict [] in
  let! _ := write_rendered rendered in
  match mode with
  | SpecificKeys => reload_config_files rendered
  | All => st_ret tt
  end.

(** [get_changed_settings]: a JSON array of strings from the standard input. *)
Definition get_changed_settings (input : string) : result tbs_error (gset string) :=
  map_err (λ _, InvalidInput input)
    (let? v := json_from_str input in
     match v with JArray l => let? l := strings_of l in Ok (list_to_set l) | _ => Err JsonError end).

Definition run (mode : RunMode) (stdin : string) : stres W tbs_error () :=
  match mode with
  | SpecificKeys =>
      let! changed_settings := st_lift (get_changed_settings stdin) in
      let! services := get_affected_services (Some changed_settings) in
      if decide (services = ∅) then st_ret tt
      else
        let config_file_names := get_config_file_names services in
        let! _ := if decide (config_file_names = ∅) then st_ret tt
                  else write_config_files mode (Some config_file_names) in
        restart_services services
  | All =>
      let! _ := write_config_files mode None in
      let! services := get_affected_services None in
      restart_services services
  end.
End tbs.

(** ** What a run does to the host *)

Inductive event :=
| Asked (req : http_request) (success : bool)
| Rendered (template : string) (success : bool)
| MadeDirs (dir : list string) (success : bool)
| Wrote (path : string) (mode : Z) (content : string) (success : bool)
| Ran (command : tbs_command) (success : bool).

Definition went_well (e : event) : bool :=
  match e with
  | Asked _ b | Rendered _ b | MadeDirs _ b | Wrote _ _ _ b | Ran _ b => b
  end.
Definition reading (e : event) : Prop := match e with Asked _ _ | Rendered _ _ => True | _ => False end.
Definition writing (e : event) : Prop := match e with MadeDirs _ _ | Wrote _ _ _ _ => True | _ => False end.
Definition running (e : event) : Prop := match e with Ran _ _ => True | _ => False end.

(** The same host, keeping what is done to it. *)
Definition log_op {W E A} (ev : result E A → event) (m : stres W E A) : stres (W * list event) E A := λ s,
  let '(w, r) := m s.1 in ((w, s.2 ++ [ev r]), r).
Definition answered (r : result client_error (Z * string)) : bool :=
  match r with Ok (status, _) => is_success status | Err _ => false end.
#[global] Instance log_host `{Host W} : Host (W * list event) := {|
  api req := log_op (λ r, Asked req (answered r)) (api req);
  render_template_file template := log_op (λ r, Rendered template (is_ok r)) (render_template_file template);
  exists_path s := exists_path s.1;
  create_dir_all dir := log_op (λ r, MadeDirs dir (is_ok r)) (create_dir_all dir);
  write_file path mode content := log_op (λ r, Wrote path mode content (is_ok r)) (write_file path mode content);
  run_command command := log_op (λ r, Ran command (bool_decide (r = Ok true))) (run_command command) |}.

(** An event that lets the run go on: failures to render do not stop a run for all
    services. *)
Definition goes_on (mode : RunMode) (e : event) : Prop :=
  match mode, e with All, Rendered _ _ => True | _, _ => went_well e = true end.

#[local] Arguments fail_stop : simpl never.

Section facts.
Context `{HashOrder} `{SerdeJson} {W : Type} `{Host W}.
Variable query_escape : string → string.
Variable services_of_json : json → result json_error (gmap string service_model).
Variable files_of_json : json → result json_error (gmap string config_file).

Lemma log_op_fail_stop {E A} (P ok : event → Prop) ev (m : stres W E A) :
  (∀ r, P (ev r)) → (∀ a, ok (ev (Ok a))) → st_fail_stop P ok (log_op ev m).
Proof.
  intros HP Hok s log s' log' r. unfold log_op. cbn. destruct (m s) as [w [a|e]]; intros [= _ <- <-].
  - exists [ev (Ok a)]. split; [done|]. split; by constructor.
  - exists [ev (Err e)]. split; [done|]. split; [by constructor|]. apply fail_stop_last.
Qed.

Lemma get_json_fail_stop {T} (decode : json → result json_error T) mode uri query :
  st_fail_stop reading (goes_on mode) (get_json (W := W * list event) query_escape decode uri query).
Proof.
  unfold get_json. generalize (match query with Some (p, a) => uri +:+ "?" +:+ query_escape (p +:+ "=" +:+ a) | None => uri end).
  clear uri query. intros uri. apply st_fail_stop_bind; [|auto with appends]. apply st_fail_stop_map_err.
  intros s log s' log' r. unfold raw_request, st_bind. cbn. unfold log_op. cbn.
  destruct (api _ s) as [w [[status body]|e]]; cbn.
  - destruct (is_success status) eqn:E; cbn; intros [= _ <- <-]; eexists [Asked _ _];
      (split; [done|]); (split; [by constructor|]).
    + constructor; [|done]. by destruct mode.
    + apply fail_stop_last.
  - intros [= _ <- <-]. eexists [Asked _ _]. split; [done|]. split; [by constructor|]. apply fail_stop_last.
Qed.

Lemma get_affected_services_fail_stop mode limit :
  st_fail_stop reading (goes_on mode)
    (get_affected_services (W := W * list event) query_escape services_of_json limit).
Proof.
  unfold get_affected_services, get_affected_service_metadata, get_service_metadata.
  destruct limit as [limit|]; (apply st_fail_stop_bind; [apply get_json_fail_stop|]); [|auto with appends].
  intros affected. case_decide; [auto with appends|].
  apply st_fail_stop_bind; [apply get_json_fail_stop|auto with appends].
Qed.

Lemma render_fail_stop mode files acc :
  st_fail_stop reading (goes_on mode)
    (render_config_files (W := W * list event) files (match mode with SpecificKeys => true | All => false end) acc).
Proof.
  revert acc. induction files as [|[name metadata] files IH]; intros acc; cbn [render_config_files].
  { apply st_fail_stop_ret. }
  intros s log s' log' r Hr. destruct (negb _); [by eapply IH|]. cbn in Hr. unfold log_op in Hr. cbn in Hr.
  destruct (render_template_file (template_path metadata) s) as [w [text|[]]].
  - apply IH in Hr as (ext & -> & Hx & Hf). eexists (Rendered _ _ :: ext). rewrite <- app_assoc.
    split; [done|]. split; [by constructor|]. apply (fail_stop_app _ [_]); [|done].
    constructor; [|done]. by destruct mode.
  - destruct mode.
    + apply IH in Hr as (ext & -> & Hx & Hf). eexists (Rendered _ _ :: ext). rewrite <- app_assoc.
      split; [done|]. split; [by constructor|]. apply (fail_stop_app _ [_]); [|done]. by constructor.
    + injection Hr as _ <- <-. eexists [Rendered _ _]. split; [done|]. split; [by constructor|].
      apply fail_stop_last.
Qed.

Lemma write_rendered_fail_stop mode rendered :
  st_fail_stop writing (goes_on mode) (write_rendered (W := W * list event) rendered).
Proof.
  apply st_fail_stop_forM. intros cfg. unfold write_to_disk. apply st_fail_stop_bind.
  - destruct (parent _); [|auto with appends]. apply st_fail_stop_map_err, log_op_fail_stop; [done|by destruct mode].
  - intros _. apply st_fail_stop_bind; [destruct (r_mode cfg); auto with appends|].
    intros m. apply st_fail_stop_map_err, log_op_fail_stop; [done|by destruct mode].
Qed.

(** A command that must succeed. *)
Lemma must_succeed_fail_stop mode command (e1 : () → tbs_error) e2 :
  st_fail_stop running (goes_on mode)
    (let! success := st_map_err e1 (run_command (W := W * list event) command) in st_lift (ensure success e2)).
Proof.
  intros s log s' log' r. unfold st_bind, st_map_err. cbn. unfold log_op. cbn.
  destruct (run_command command s) as [w [[]|[]]]; cbn; intros [= _ <- <-]; eexists [Ran _ _];
    (split; [done|]); (split; [by constructor|]); [|apply fail_stop_last..].
  constructor; [|done]. by destruct mode.
Qed.

Lemma reload_fail_stop mode rendered :
  st_fail_stop running (goes_on mode) (reload_config_files (W := W * list event) rendered).
Proof.
  unfold reload_config_files. destruct (existsb _ _); [apply must_succeed_fail_stop|auto with appends].
Qed.

Lemma restart_services_fail_stop mode services :
  st_fail_stop running (goes_on mode) (restart_services (W := W * list event) services).
Proof.
  apply st_fail_stop_forM. intros [name service]. apply st_fail_stop_forM. intros restart_command.
  unfold run_restart. apply st_fail_stop_bind; [auto with appends|]. intros command. apply must_succeed_fail_stop.
Qed.

Lemma write_config_files_ordered mode files_limit s log s' log' r :
  write_config_files (W := W * list event) query_escape files_of_json mode files_limit (s, log) = ((s', log'), r) →
  ∃ reads writes commands, log' = log ++ reads ++ writes ++ commands ∧
    Forall reading reads ∧ Forall writing writes ∧ Forall running commands ∧
    fail_stop (goes_on mode) (reads ++ writes ++ commands) r ∧
    (mode = All → commands = []) ∧
    (r = Ok tt → commands = [] ∨ commands = [Ran reload_command true]).
Proof.
  unfold write_config_files, get_affected_config_files. intros Hw.
  apply st_bind_inv in Hw as [(e & Hr & ->)|([s1 log1] & files & Hr & Hw)];
    apply (get_json_fail_stop _ mode) in Hr as (ext1 & -> & Hx1 & Hf1).
  { exists ext1, [], []. rewrite !app_nil_r. by split_and!. }
  apply st_bind_inv in Hw as [(e & Hr & ->)|([s2 log2] & rendered & Hr & Hw)];
    apply render_fail_stop in Hr as (ext2 & -> & Hx2 & Hf2).
  { exists (ext1 ++ ext2), [], []. rewrite !app_nil_r, <- app_assoc.
    split_and!; [done|by apply Forall_app_2|done|done|by apply fail_stop_app|done..]. }
  apply st_bind_inv in Hw as [(e & Hr & ->)|([s3 log3] & [] & Hr & Hw)];
    apply (write_rendered_fail_stop mode) in Hr as (ext3 & -> & Hx3 & Hf3).
  { exists (ext1 ++ ext2), ext3, []. rewrite !app_nil_r, <- !app_assoc.
    split_and!; [done|by apply Forall_app_2|done|done|by repeat apply fail_stop_app|done..]. }
  destruct mode.
  { injection Hw as _ <- <-. exists (ext1 ++ ext2), ext3, []. rewrite !app_nil_r, <- !app_assoc.
    split_and!; [done|by apply Forall_app_2|done|done|by repeat apply Forall_app_2|done|by left]. }
  assert (r = Ok tt → log' = ((log ++ ext1) ++ ext2) ++ ext3 ∨
            log' = (((log ++ ext1) ++ ext2) ++ ext3) ++ [Ran reload_command true]) as Hok.
  { intros ->. unfold reload_config_files in Hw. destruct (existsb _ _).
    - apply st_bind_Ok in Hw as (s4 & b & Hc & Hw). apply st_map_err_Ok in Hc. cbn in Hc. unfold log_op in Hc. cbn in Hc.
      destruct (run_command _ s3) as [w [b'|]]; [|done]. injection Hc as <- <-.
      destruct b'; [|done]. injection Hw as _ <-. by right.
    - injection Hw as _ <-. by left. }
  apply (reload_fail_stop SpecificKeys) in Hw as (ext4 & -> & Hx4 & Hf4).
  exists (ext1 ++ ext2), ext3, ext4. rewrite <- !app_assoc.
  split_and!; [done|by apply Forall_app_2|done|done|by repeat apply fail_stop_app|done|].
  intros Er. destruct (Hok Er) as [E|E].
  - left. rewrite <- (app_nil_r (((log ++ ext1) ++ ext2) ++ ext3)) in E at 2. by apply app_inv_head in E.
  - right. by apply app_inv_head in E.
Qed.

(** The commands that restart the services, in the order in which they are visited. *)
Definition restarts (services : gmap string Service) : list event :=
  map_iter services ≫= λ '(name, service),
    (λ c, Ran c true) <$> omap (restart_command_of service) (restart_commands (model service)).

Lemma restart_services_Ok services s log s' log' u :
  restart_services (W := W * list event) services (s, log) = ((s', log'), Ok u) → log' = log ++ restarts services.
Proof.
  unfold restart_services, restarts. revert s log.
  induction (map_iter services) as [|[name service] l IH]; intros s log Hs; cbn in Hs.
  { injection Hs as _ <-. by rewrite app_nil_r. }
  apply st_bind_Ok in Hs as ([s1 log1] & [] & Hr & Hs). apply IH in Hs as ->. cbn. rewrite app_assoc. f_equal.
  clear IH l. unfold restart in Hr. revert s log Hr.
  induction (restart_commands (model service)) as [|rc rcs IH]; intros s log Hr; cbn in Hr.
  { injection Hr as _ <-. by rewrite app_nil_r. }
  apply st_bind_Ok in Hr as ([s2 log2] & [] & Hc & Hr). apply IH in Hr as ->.
  unfold run_restart in Hc. apply st_bind_Ok in Hc as (s3 & c & Hc & Hr). apply st_lift_Ok in Hc as [-> Hc].
  apply ok_or_Ok in Hc. cbn. rewrite Hc. apply st_bind_Ok in Hr as (s4 & b & Hm & Hr).
  apply st_map_err_Ok in Hm. cbn in Hm. unfold log_op in Hm. cbn in Hm.
  destruct (run_command c s) as [w [b'|]]; [|done]. injection Hm as <- <-.
  destruct b'; [|done]. injection Hr as _ <-. by rewrite <- app_assoc.
Qed.

Lemma restarts_empty : restarts ∅ = [].
Proof. unfold restarts, map_iter. by rewrite (proj2 (hash_iter_nil _)). Qed.

(** A run for changed settings writes files only when a service names some. *)
Lemma write_if_named (names : gset string) s log s' log' r :
  (if decide (names = ∅) then st_ret tt
   else write_config_files (W := W * list event) query_escape files_of_json SpecificKeys (Some names)) (s, log) =
    ((s', log'), r) →
  ∃ reads writes commands, log' = log ++ reads ++ writes ++ commands ∧
    Forall reading reads ∧ Forall writing writes ∧ Forall running commands ∧
    fail_stop (goes_on SpecificKeys) (reads ++ writes ++ commands) r ∧
    (r = Ok tt → commands = [] ∨ commands = [Ran reload_command true]).
Proof.
  case_decide.
  - intros [= _ <- <-]. exists [], [], []. rewrite app_nil_r. split_and!; [done..|apply fail_stop_nil|by left].
  - intros (reads & writes & cmds & -> & ? & ? & ? & ? & _ & ?)%write_config_files_ordered.
    by exists reads, writes, cmds.
Qed.
End facts.

Section reversed.
Context `{HashOrder}.

(** The settings that list a service. *)
Lemma add_setting_spec setting services (m : gmap string (gset string)) name st :
  st ∈ default ∅ (add_setting setting services m !! name) ↔
  st ∈ default ∅ (m !! name) ∨ st = setting ∧ name ∈ services.
Proof.
  revert m. induction services as [|service services IH]; intros m; cbn; [set_solver|].
  rewrite IH. destruct (decide (service = name)) as [->|Hne].
  - rewrite lookup_insert. case_decide; [|done]. cbn. set_solver.
  - rewrite lookup_insert_ne by done. set_solver.
Qed.

Lemma add_setting_inhabited setting services (m : gmap string (gset string)) name :
  (∀ n, m !! n ≠ Some ∅) → add_setting setting services m !! name ≠ Some ∅.
Proof.
  revert m. induction services as [|service services IH]; intros m Hm; cbn; [done|]. apply IH.
  intros n. destruct (decide (service = n)) as [->|Hne]; [|by rewrite lookup_insert_ne].
  rewrite lookup_insert. case_decide; [|done]. intros [= E]. set_solver.
Qed.

Lemma reverse_mapping_spec affected name st :
  st ∈ default ∅ (reverse_mapping affected !! name) ↔ ∃ services, affected !! st = Some services ∧ name ∈ services.
Proof.
  unfold reverse_mapping. setoid_rewrite <-(elem_of_map_iter affected).
  assert (∀ (m : gmap string (gset string)),
    st ∈ default ∅ (foldl (λ m '(setting, services), add_setting setting services m) m (map_iter affected) !! name) ↔
    st ∈ default ∅ (m !! name) ∨ ∃ services, (st, services) ∈ map_iter affected ∧ name ∈ services) as Hgen.
  - induction (map_iter affected) as [|[setting services] l IH]; intros m; cbn; [set_solver|].
    rewrite IH, add_setting_spec. set_solver.
  - etrans; [apply Hgen|]. rewrite lookup_empty. cbn. set_solver.
Qed.

Lemma reverse_mapping_inhabited affected name : reverse_mapping affected !! name ≠ Some ∅.
Proof.
  unfold reverse_mapping. assert (∀ n, (∅ : gmap string (gset string)) !! n ≠ Some ∅) as Hm by done.
  revert Hm. generalize (∅ : gmap string (gset string)).
  induction (map_iter affected) as [|[setting services] l IH]; intros m Hm; cbn; [done|].
  apply IH. intros n. by apply add_setting_inhabited.
Qed.

(** The changed settings of a service are the settings that list it; without any there
    is no set. *)
Definition changed_for (affected : gmap string (list string)) (name : string) (changed : option (gset string)) : Prop :=
  changed ≠ Some ∅ ∧
  ∀ st, st ∈ default ∅ changed ↔ ∃ services, affected !! st = Some services ∧ name ∈ services.

Lemma service_names_of_spec affected name :
  name ∈ service_names_of affected ↔ ∃ st services, affected !! st = Some services ∧ name ∈ services.
Proof.
  unfold service_names_of. rewrite elem_of_list_to_set, list_elem_of_In, in_concat.
  setoid_rewrite <-list_elem_of_In. setoid_rewrite list_elem_of_fmap. setoid_rewrite <-(elem_of_map_iter affected). split.
  - intros (l & ([st l'] & -> & Hin) & Hn). eauto.
  - intros (st & l & Hin & Hn). exists l. split; [|done]. by exists (st, l).
Qed.

(** A restart command always has a program to run: the text before the first space. *)
Lemma restart_command_found service restart_command : restart_command_of service restart_command ≠ None.
Proof. unfold restart_command_of. pose proof (str_split_ne " " restart_command). by destruct (str_split _ _). Qed.
End reversed.

(** The settings a run is for. *)
Definition run_for `{SerdeJson} (mode : RunMode) (stdin : string) (limit : option (gset string)) : Prop :=
  match mode with
  | SpecificKeys => ∃ changed, get_changed_settings stdin = Ok changed ∧ limit = Some changed
  | All => limit = None
  end.

(** ** Properties *)

(** C9. A run of thar-be-settings, wherever it stops.  It reads first (requests and
    templates), then writes configuration files, then reads again only when it runs for
    all services, and then runs commands: no file is written before all of them are
    rendered, and no command runs before all files are written.  It stops at the first
    failure, except that for all services a template that does not render is passed
    over.  A run that succeeds has run, after an optional reload of systemd, exactly the
    restart commands of the services the API told it about, in order. *)
Theorem tbs_run_ordered `{HashOrder} `{SerdeJson} {W : Type} `{Host W} query_escape services_of_json files_of_json
    mode stdin (s : W) s' log r :
  run query_escape services_of_json files_of_json mode stdin (s, []) = ((s', log), r) →
  ∃ reads writes reads2 commands, log = reads ++ writes ++ reads2 ++ commands ∧
    Forall reading reads ∧ Forall writing writes ∧ Forall reading reads2 ∧ Forall running commands ∧
    fail_stop (goes_on mode) log r ∧ (mode = SpecificKeys → reads2 = []) ∧
    (r = Ok tt → ∃ limit services s1 s2 reload,
       run_for mode stdin limit ∧ (mode = SpecificKeys → s1 = (s, [])) ∧
       get_affected_services query_escape services_of_json limit s1 = (s2, Ok services) ∧
       commands = reload ++ restarts services ∧
       (reload = [] ∨ mode = SpecificKeys ∧ reload = [Ran reload_command true])).
Proof.
  destruct mode; cbn [run]; intros Hr.
  - apply st_bind_inv in Hr as [(e & Hw & ->)|([s1 log1] & [] & Hw & Hr)];
      apply write_config_files_ordered in Hw as (reads & writes & cmds & -> & Hx1 & Hx2 & _ & Hf & Hn & _);
      specialize (Hn eq_refl) as ->; rewrite !app_nil_r in *.
    { exists reads, writes, [], []. rewrite !app_nil_r. by split_and!. }
    apply st_bind_inv in Hr as [(e & Hg & ->)|([s2 log2] & services & Hg & Hr)];
      pose proof Hg as (reads2 & -> & Hx3 & Hf2)%(get_affected_services_fail_stop _ _ All).
    { exists reads, writes, reads2, []. rewrite !app_nil_r, <-!app_assoc in *. split_and!; [done..| |done|done].
      cbn. rewrite app_assoc. by apply fail_stop_app. }
    pose proof Hr as (cmds & -> & Hx4 & Hf3)%(restart_services_fail_stop All).
    exists reads, writes, reads2, cmds. cbn in *. rewrite <-!app_assoc. split_and!; [done..| |done|].
    { rewrite (app_assoc reads). apply fail_stop_app; [done|]. by apply fail_stop_app. }
    intros ->. apply restart_services_Ok in Hr as ->%app_inv_head.
    exists None, services, (s1, reads ++ writes), (s2, (reads ++ writes) ++ reads2), []. naive_solver.
  - apply st_lift_inv in Hr as [(e & _ & [= _ ->] & ->)|(changed & Hc & Hr)].
    { exists [], [], [], []. split_and!; [done..|apply fail_stop_nil|done|done]. }
    apply st_bind_inv in Hr as [(e & Hg & ->)|([s1 log1] & services & Hg & Hr)];
      pose proof Hg as (reads & -> & Hx1 & Hf1)%(get_affected_services_fail_stop _ _ SpecificKeys).
    { exists reads, [], [], []. rewrite !app_nil_r. by split_and!. }
    destruct (decide (services = ∅)) as [->|Hne].
    { injection Hr as _ <- <-. exists reads, [], [], []. rewrite !app_nil_r. split_and!; [done..|]. intros _.
      exists (Some changed), ∅, (s, []), (s1, reads), []. rewrite restarts_empty. naive_solver. }
    apply st_bind_inv in Hr as [(e & Hw & ->)|([s2 log2] & [] & Hw & Hr)];
      apply write_if_named in Hw as (reads1 & writes & cmds & -> & Hx2 & Hx3 & Hx4 & Hf2 & Hok).
    { exists (reads ++ reads1), writes, [], cmds. rewrite <-!app_assoc. cbn.
      split_and!; [done|by apply Forall_app_2|done..|by apply fail_stop_app|done|done]. }
    pose proof Hr as (cmds2 & -> & Hx5 & Hf3)%(restart_services_fail_stop SpecificKeys).
    exists (reads ++ reads1), writes, [], (cmds ++ cmds2). rewrite <-!app_assoc. cbn.
    split_and!; [done|by apply Forall_app_2|done|done|by apply Forall_app_2| |done|].
    { apply fail_stop_app; [done|].
      pose proof (fail_stop_app (goes_on SpecificKeys) _ _ r Hf2 Hf3) as Hf. by rewrite <-!app_assoc in Hf. }
    intros ->. apply restart_services_Ok in Hr as ->%app_inv_head.
    exists (Some changed), services, (s, []), (s1, reads), cmds. specialize (Hok eq_refl). naive_solver.
Qed.

(** The services affected by changed settings: when the API lists no services for
    them there are none, and nothing more is asked.  Otherwise the API is asked for
    exactly the services named in the lists, and each service it returns carries its
    model and the settings that list it, and no set when none does. *)
Lemma affected_services_spec `{HashOrder} `{SerdeJson} {W : Type} `{Host W} query_escape services_of_json
    limit (s : W) s' services :
  get_affected_services query_escape services_of_json (Some limit) s = (s', Ok services) →
  ∃ s1 affected, get_affected_service_metadata query_escape limit s = (s1, Ok affected) ∧
    (affected = ∅ ∧ services = ∅ ∧ s' = s1 ∨
     affected ≠ ∅ ∧ ∃ names models,
       (∀ name, name ∈ names ↔ ∃ st l, affected !! st = Some l ∧ name ∈ l) ∧
       get_service_metadata query_escape services_of_json (Some names) s1 = (s', Ok models) ∧
       (∀ name, is_Some (services !! name) ↔ is_Some (models !! name)) ∧
       ∀ name service, services !! name = Some service →
         models !! name = Some (model service) ∧ changed_for affected name (changed_settings service)).
Proof.
  cbn [get_affected_services]. intros (s1 & affected & Ha & Hs)%st_bind_Ok. exists s1, affected. split; [done|].
  case_decide as E; [injection Hs as <- <-; by left|]. right. split; [done|].
  apply st_bind_Ok in Hs as (s2 & models & Hm & [= <- <-]). exists (service_names_of affected), models.
  split; [apply service_names_of_spec|]. split; [done|]. unfold from_model_services.
  split; intros name; rewrite map_lookup_imap; destruct (models !! name) as [m|]; cbn; [done|done| |done].
  intros service [= <-]. split; [done|]. split; [apply reverse_mapping_inhabited|]. intros st. apply reverse_mapping_spec.
Qed.

(** ** Witnesses *)

#[local] Existing Instance example_order.
#[local] Existing Instance example_json.

(** A host with scripted answers of the API. *)
Definition example_host : Host (list (Z * string)) := {|
  api req answers := match answers with [] => ([], Err RequestSend) | a :: answers => (answers, Ok a) end;
  render_template_file template s := (s, Ok ("rendered " +:+ template));
  exists_path s path := false;
  create_dir_all dir s := (s, Ok tt);
  write_file path mode content s := (s, Ok tt);
  run_command command s := (s, Ok true) |}.
#[local] Existing Instance example_host.

Definition text (v : json) : Z * string := (200%Z, example_to_string v).
Definition example_answers : list (Z * string) :=
  [text (JObject [("settings.motd", JArray [JString "motd"]); ("settings.ntp", JArray [JString "ntp"; JString "motd"])]);
   text JNull; text JNull].
Definition example_services (v : json) : result json_error (gmap string service_model) :=
  Ok {["motd" := mk_service_model ["motd"] ["write-motd now"]; "ntp" := mk_service_model [] ["stop ntp"; "start ntp"]]}.
Definition example_files (v : json) : result json_error (gmap string config_file) :=
  Ok {["motd" := mk_config_file "/etc/systemd/motd" "/templates/motd" (Some "0600") None]}.
Definition example_stdin : string := example_to_string (JArray [JString "settings.motd"; JString "settings.ntp"]).
Definition example_run := run (λ q, q) example_services example_files SpecificKeys example_stdin (example_answers, []).

Lemma tbs_run_ordered_witness :
  example_run.2 = Ok tt ∧
  drop 4 example_run.1.2 =
    [MadeDirs ["etc"; "systemd"] true; Wrote "/etc/systemd/motd" 384 "rendered /templates/motd" true;
     Ran reload_command true; Ran (mk_tbs_command "write-motd" ["now"] [("CHANGED_SETTINGS", "settings.motd settings.ntp")]) true;
     Ran (mk_tbs_command "stop" ["ntp"] [("CHANGED_SETTINGS", "settings.ntp")]) true;
     Ran (mk_tbs_command "start" ["ntp"] [("CHANGED_SETTINGS", "settings.ntp")]) true] ∧
  ∃ reads writes reads2 commands, example_run.1.2 = reads ++ writes ++ reads2 ++ commands ∧ Forall running commands.
Proof.
  split; [vm_compute; reflexivity|]. split; [vm_compute; reflexivity|].
  destruct (tbs_run_ordered (λ q, q) example_services example_files SpecificKeys example_stdin example_answers
    example_run.1.1 example_run.1.2 example_run.2) as (reads & writes & reads2 & commands & Hl & _ & _ & _ & Hc & _).
  - change (example_run = (example_run.1.1, example_run.1.2, example_run.2)).
    by destruct example_run as [[] ].
  - exists reads, writes, reads2, commands. split; [exact Hl|exact Hc].
Defined.

Definition example_affected :=
  get_affected_services (λ q, q) example_services (Some {["settings.motd"; "settings.ntp"]}) example_answers.
Definition affected_of (services : gmap string Service) (name : string) : option (list string) :=
  elements <$> (services !! name ≫= changed_settings).

Lemma affected_services_spec_witness :
  ((λ services, (affected_of services "motd", affected_of services "ntp")) <$> ok example_affected.2) =
    Some (Some ["settings.motd"; "settings.ntp"], Some ["settings.ntp"]) ∧
  ∃ s1 affected, get_affected_service_metadata (λ q, q) {["settings.motd"; "settings.ntp"]} example_answers = (s1, Ok affected).
Proof.
  split; [vm_compute; reflexivity|].
  destruct (affected_services_spec (λ q, q) example_services {["settings.motd"; "settings.ntp"]} example_answers
    example_affected.1 (default ∅ (ok example_affected.2))) as (s1 & affected & Ha & _).
  - transitivity (example_affected.1, example_affected.2); [apply surjective_pairing|].
    apply (f_equal (pair _)). apply ok_default. vm_compute. reflexivity.
  - exists s1, affected. exact Ha.
Defined.
