(* ===== verification/IndexMap.v ===== *)
(** * Insertion-ordered maps ([indexmap::IndexMap])

    The entries in the order of the first insertion of their keys; an update keeps
    the place of the key. *)
From S2P Require Import Prelude.
From stdpp Require Import base list strings.
From stdpp Require Import options.

(** ** Definitions *)

Section index_map.
Context {V : Type}.
Implicit Types l : list (string * V).

Fixpoint im_get (k : string) l : option V :=
  match l with
  | [] => None
  | (k', v) :: l => if decide (k' = k) then Some v else im_get k l
  end.

Fixpoint im_insert (k : string) (v : V) l : list (string * V) :=
  match l with
  | [] => [(k, v)]
  | (k', v') :: l => if decide (k' = k) then (k', v) :: l else (k', v') :: im_insert k v l
  end.

(** [f] applied to [entry(k).or_insert(d)]. *)
Definition im_entry (k : string) (d : V) (f : V → V) l : list (string * V) :=
  im_insert k (f (default d (im_get k l))) l.

Definition im_wf l : Prop := NoDup l.*1.

(** ** Facts *)

Lemma im_get_insert k v l : im_get k (im_insert k v l) = Some v.
Proof. induction l as [|[k' v'] l IH]; cbn; repeat case_decide; cbn; repeat case_decide; done. Qed.

Lemma im_get_insert_ne k k' v l : k ≠ k' → im_get k' (im_insert k v l) = im_get k' l.
Proof.
  intros. induction l as [|[k0 v'] l IH]; cbn; repeat case_decide; cbn; repeat case_decide;
    subst; try done.
Qed.

Lemma im_insert_keys k v l : (im_insert k v l).*1 = if decide (k ∈ l.*1) then l.*1 else l.*1 ++ [k].
Proof.
  induction l as [|[k' v'] l IH]; cbn [im_insert]; [done|].
  destruct (decide (k' = k)) as [->|Hk]; rewrite !fmap_cons; cbn [fst].
  - rewrite decide_True; [done|]. by left.
  - rewrite IH. destruct (decide (k ∈ l.*1)) as [Hin|Hin].
    + rewrite decide_True; [done|]. by right.
    + rewrite decide_False; [done|]. by intros [->|?]%elem_of_cons.
Qed.

Lemma im_wf_nil : im_wf [].
Proof. apply NoDup_nil_2. Qed.

Lemma im_wf_insert k v l : im_wf l → im_wf (im_insert k v l).
Proof.
  unfold im_wf. rewrite im_insert_keys. case_decide; [done|]. intros. apply NoDup_app.
  split_and!; [done| |apply NoDup_singleton]. by intros x Hx ->%list_elem_of_singleton.
Qed.

Lemma im_get_elem k v l : im_wf l → im_get k l = Some v ↔ (k, v) ∈ l.
Proof.
  unfold im_wf. induction l as [|[k' v'] l IH]; cbn; [split; [done|by intros ?%elem_of_nil]|].
  intros [Hk Hl]%NoDup_cons. rewrite elem_of_cons. case_decide; subst.
  - split; [intros [= ->]; by left|]. intros [[= ->]|Hin]; [done|].
    destruct Hk. by apply (list_elem_of_fmap_2 fst) in Hin.
  - rewrite IH by done. split; [by right|]. intros [[= -> ->]|?]; done.
Qed.

Lemma im_get_None k l : im_get k l = None ↔ k ∉ l.*1.
Proof.
  induction l as [|[k' v'] l IH]; cbn; [split; [intros _; by intros ?%elem_of_nil|done]|].
  rewrite not_elem_of_cons. case_decide; subst; [naive_solver|]. rewrite IH. naive_solver.
Qed.
End index_map.

Lemma im_get_fmap {V W} (f : V → W) k (l : list (string * V)) :
  im_get k (prod_map id f <$> l) = f <$> im_get k l.
Proof. induction l as [|[k' v] l IH]; cbn; [done|]. by case_decide. Qed.

Lemma im_get_filter {V} (P : V → Prop) `{∀ v, Decision (P v)} k (l : list (string * V)) :
  im_wf l →
  im_get k (filter (λ kv, P kv.2) l) =
  match im_get k l with Some v => if decide (P v) then Some v else None | None => None end.
Proof.
  unfold im_wf. induction l as [|[k' v] l IH]; [done|]. rewrite fmap_cons.
  intros [Hk Hl]%NoDup_cons. rewrite filter_cons. cbn [im_get fst snd].
  destruct (decide (P v)) as [Hp|Hp]; cbn [im_get]; case_decide as E; try subst k'.
  - by rewrite decide_True.
  - by apply IH.
  - rewrite decide_False by done. apply im_get_None. intros Hin. apply Hk.
    apply list_elem_of_fmap in Hin as ([k2 v2] & -> & [_ Hin]%list_elem_of_filter).
    by apply (list_elem_of_fmap_2 fst) in Hin.
  - by apply IH.
Qed.
