(* ===== verification/Bootconfig.v ===== *)
(** * The kernel boot configuration ([sources/api/prairiedog/src/])

    bootconfig.rs and initrd.rs: boot settings are written as a boot configuration
    for the kernel, wrapped into an initrd; what the kernel has booted with is
    parsed back into boot settings; and the two are compared to decide whether the
    host must reboot.

    The types of keys and values ([BootConfigKey], [BootConfigValue]) are those of
    the settings SDK: the class [BootTypes] says which texts they accept.  Files and
    the TOML parser are arguments. *)
From S2P Require Import Prelude DsError Numbers Chars KeyMap BTree.
From Stdlib Require Import Ascii.
From stdpp Require Import base numbers list strings gmap sorting.
From stdpp Require Import options.

(** ** Definitions *)

Inductive bc_error :=
| ReadFile (at_path : string)
| InputToml
| InvalidBootConfig
| ParseBootConfigKey
| InvalidBootConfigValue (input : string)
| ParseBootConfigValue
| UnsupportedBootConfigKey (key : string)
| ParentBootConfigKey
| UnbalancedQuotes (input : string)
| ExpectedArrayComma (input : string)
| AddU32Overflow
| UsizeToU32
(** Not a variant: a slice off a character boundary. *)
| BcPanicked.

(** The texts that [BootConfigKey] and [BootConfigValue] accept; they keep them as
    they are. *)
Class BootTypes := {
  boot_config_key : string → bool;
  boot_config_value : string → bool }.

Abbreviation params := (gmap string (list string)).

Record BootSettings := mk_boot_settings {
  reboot_to_reconcile : option bool;
  kernel_parameters : option params;
  init_parameters : option params }.

Definition DEFAULT_BOOT_SETTINGS : BootSettings := mk_boot_settings None None None.

Definition DQUOTE : ascii := ascii_of_nat 34.
Definition SQUOTE : ascii := ascii_of_nat 39.
Definition COMMA : ascii := ascii_of_nat 44.
Definition EQUALS : ascii := ascii_of_nat 61.

(** *** Serializing *)

Definition contains_char (c : ascii) (s : string) : bool := str_existsb (λ a, bool_decide (a = c)) s.

(** A value in the quotes that it does not contain. *)
Definition quote_value (v : string) : string :=
  if contains_char DQUOTE v then String SQUOTE (v +:+ char_of SQUOTE)
  else String DQUOTE (v +:+ char_of DQUOTE).

Fixpoint append_values (first : bool) (values : list string) (output : string) : string :=
  match values with
  | [] => output
  | v :: values =>
      let output := if first then output else str_push output COMMA in
      append_values false values (output +:+ " " +:+ quote_value v)
  end.
Definition append_boot_config_value_list (values : list string) (output : string) : string :=
  append_values true values output.

Definition name_order (a b : string) : Prop := ole a b.
#[global] Instance name_order_dec : RelDecision name_order.
Proof. intros a b. unfold name_order, ole. apply _. Defined.

Section bootconfig.
Context `{HashOrder} `{BootTypes}.

(** The keys of a map, in the order of its iteration. *)
Definition param_keys (m : params) : list string := hash_iter (map_imap (λ k _, Some k) m).

Definition write_param (params : params) (prefix : string) (output key : string) : string :=
  let values := params !!! key in
  let output := output +:+ prefix +:+ "." +:+ key in
  let output :=
    match values with
    | [] => output
    | _ => append_boot_config_value_list values (output +:+ " =")
    end in
  str_push output NEWLINE.

Definition write_sorted_params (output : string) (params : params) (prefix : string) : string :=
  let sorted_keys := merge_sort name_order (param_keys params) in
  foldl (write_param params prefix) output sorted_keys.

Definition serialize_boot_settings_to_boot_config (boot_settings : BootSettings) : result bc_error string :=
  let output := EmptyString in
  let output :=
    match init_parameters boot_settings with
    | Some init_param => write_sorted_params output init_param "init"
    | None => output
    end in
  let output :=
    match kernel_parameters boot_settings with
    | Some kernel_param => write_sorted_params output kernel_param "kernel"
    | None => output
    end in
  Ok output.

(** *** Parsing *)

Definition str_ends_with_char (s : string) (c : ascii) : bool := bool_decide (is_Some (strip_last c s)).
Definition in_quotes (c : ascii) (s : string) : bool :=
  str_starts_with s (char_of c) && str_ends_with_char s c.

(** [chars_that_require_quotes]. *)
Definition requires_quotes (c : string) : bool :=
  bool_decide (c ∈ char_of <$> [SQUOTE; DQUOTE; NEWLINE; COMMA; ascii_of_nat 59; ascii_of_nat 35;
                                ascii_of_nat 125]).

Definition parse_value (input : string) : result bc_error string :=
  let input := str_trim input in
  let quoted := in_quotes DQUOTE input || in_quotes SQUOTE input in
  let valid_value :=
    forallb (λ c, char_is_ascii c && (quoted || negb (requires_quotes c))) (str_chars input) in
  let? _ := ensure valid_value (InvalidBootConfigValue input) in
  let? s := if quoted then ok_or (str_slice input 1 (str_len input - 1)) BcPanicked else Ok input in
  if boot_config_value s then Ok s else Err ParseBootConfigValue.

(** The loop of [parse_boot_config_values] over the characters. *)
Fixpoint values_loop (input : string) (cs : list string) (i : nat) (elements : list string)
    (quote : option string) (expect_delimiter : bool) (start_index : nat) :
    result bc_error (list string * option string * nat) :=
  match cs with
  | [] => Ok (elements, quote, start_index)
  | c :: cs =>
      if expect_delimiter && negb (char_is_whitespace c) && negb (bool_decide (c = char_of COMMA))
      then Err (ExpectedArrayComma input)
      else if decide (c = char_of SQUOTE ∨ c = char_of DQUOTE) then
        match quote with
        | Some q =>
            if decide (q = c) then values_loop input cs (S i) elements None true start_index
            else values_loop input cs (S i) elements quote expect_delimiter start_index
        | None => values_loop input cs (S i) elements (Some c) expect_delimiter start_index
        end
      else if decide (c = char_of COMMA ∧ quote = None) then
        let? element := ok_or (str_slice input start_index i) BcPanicked in
        let? value := parse_value element in
        values_loop input cs (S i) (elements ++ [value]) quote false (S i)
      else values_loop input cs (S i) elements quote expect_delimiter start_index
  end.

Definition parse_boot_config_values (input : string) : result bc_error (list string) :=
  let? (elements, quote, start_index) :=
    values_loop input (str_chars (str_trim input)) 0 [] None false 0 in
  let? _ := ensure (bool_decide (quote = None)) (UnbalancedQuotes input) in
  let? rest := ok_or (str_slice_from input start_index) BcPanicked in
  let last_ele := if decide (rest = char_of COMMA) then EmptyString else rest in
  if str_is_empty last_ele then Ok elements
  else
    let? value := parse_value last_ele in
    Ok (elements ++ [value]).

(** [key["kernel.".len()..].try_into()]. *)
Definition key_suffix (key : string) (n : nat) : result bc_error string :=
  let? suffix := ok_or (str_slice_from key n) BcPanicked in
  if boot_config_key suffix then Ok suffix else Err ParseBootConfigKey.

(** One line of the loop of [parse_boot_config_to_boot_settings]. *)
Definition parse_line (line : string) (kernel_params init_params : params) :
    result bc_error (params * params) :=
  if str_starts_with (trim_start line) "#" then Ok (kernel_params, init_params)
  else
    let '(k, v) := str_splitn2 EQUALS (str_trim line) in
    let key := str_trim k in
    let? _ := ensure (boot_config_key key) ParseBootConfigKey in
    let? values :=
      match v with
      | Some value => parse_boot_config_values (str_trim value)
      | None => Ok []
      end in
    if negb (bool_decide (key = "kernel")) && str_starts_with key "kernel" then
      let? k := key_suffix key (str_len "kernel.") in
      Ok (<[k := values]> kernel_params, init_params)
    else if negb (bool_decide (key = "init")) && str_starts_with key "init" then
      let? k := key_suffix key (str_len "init.") in
      Ok (kernel_params, <[k := values]> init_params)
    else if decide (key = "kernel" ∨ key = "init") then
      let? _ := ensure (boot_config_value EmptyString) ParseBootConfigValue in
      let? _ := ensure (bool_decide (values = [EmptyString])) ParentBootConfigKey in
      Ok (kernel_params, init_params)
    else Err (UnsupportedBootConfigKey key).

Fixpoint parse_lines (lines : list string) (kernel_params init_params : params) :
    result bc_error (params * params) :=
  match lines with
  | [] => Ok (kernel_params, init_params)
  | line :: lines =>
      let? (kernel_params, init_params) := parse_line line kernel_params init_params in
      parse_lines lines kernel_params init_params
  end.

Definition non_empty (m : params) : option params := if decide (m = ∅) then None else Some m.

Definition parse_boot_config_to_boot_settings (bootconfig : string) : result bc_error BootSettings :=
  let? (kernel_params, init_params) := parse_lines (str_lines (str_trim bootconfig)) ∅ ∅ in
  Ok (mk_boot_settings None (non_empty kernel_params) (non_empty init_params)).

(** *** Deciding about a reboot *)

Definition parameters_changed_materially (old_params new_params : option params) : bool :=
  match old_params, new_params with
  | None, None => false
  | None, Some new => negb (bool_decide (new = ∅))
  | Some old, None => negb (bool_decide (old = ∅))
  | Some old, Some new => negb (bool_decide (old = new))
  end.

Definition boot_settings_change_requires_reboot (old_boot_settings new_boot_settings : BootSettings) : bool :=
  parameters_changed_materially (kernel_parameters old_boot_settings) (kernel_parameters new_boot_settings) ||
  parameters_changed_materially (init_parameters old_boot_settings) (init_parameters new_boot_settings).

(** [fs::read_to_string] of a file that may not exist. *)
Definition read_optional (path : string) (file : result io_error string) : result bc_error (option string) :=
  match file with
  | Ok s => Ok (Some s)
  | Err e => if decide (e = NotFound) then Ok None else Err (ReadFile path)
  end.

Section files.
(** [toml::from_str], the contents of the configuration file and of
    [/proc/bootconfig]. *)
Context (toml_from_str : string → option (option BootSettings)).

Definition get_boot_config_settings (config_path : string) (config : result io_error string) :
    result bc_error (option BootSettings) :=
  let? config_str := read_optional config_path config in
  match config_str with
  | Some config_str => ok_or (toml_from_str config_str) InputToml
  | None => Ok None
  end.

Definition read_proc_bootconfig (proc : result io_error string) : result bc_error (option string) :=
  read_optional "/proc/bootconfig" proc.

Definition is_reboot_required (config_path : string) (config proc : result io_error string) :
    result bc_error bool :=
  let? proc_bootconfig := read_proc_bootconfig proc in
  let? old_boot_settings :=
    match proc_bootconfig with
    | Some proc_bootconfig => parse_boot_config_to_boot_settings proc_bootconfig
    | None => Ok DEFAULT_BOOT_SETTINGS
    end in
  let? new_boot_settings := get_boot_config_settings config_path config in
  let new_boot_settings := default DEFAULT_BOOT_SETTINGS new_boot_settings in
  Ok (if default false (reboot_to_reconcile new_boot_settings)
      then boot_settings_change_requires_reboot old_boot_settings new_boot_settings
      else false).
End files.
End bootconfig.

(** *** The initrd *)

Definition BASE_INITRD_SIZE : nat := 0.
Definition BOOTCONFIG_MAGIC : list Z :=
  [35; 66; 79; 79; 84; 67; 79; 78; 70; 73; 71; 10]%Z.   (* "#BOOTCONFIG\n" *)
Definition BOOTCONFIG_ALIGN : nat := 4.

(** [u32::checked_add] over the bytes. *)
Fixpoint checksum_loop (checksum : Z) (bytes : list Z) : result bc_error Z :=
  match bytes with
  | [] => Ok checksum
  | byte :: bytes =>
      let? checksum := if (checksum + byte <? 2 ^ 32)%Z then Ok (checksum + byte)%Z else Err AddU32Overflow in
      checksum_loop checksum bytes
  end.

(** [BufMut::put_u32_le]. *)
Definition put_u32_le (n : Z) : list Z :=
  [Z.land n 255; Z.land (Z.shiftr n 8) 255; Z.land (Z.shiftr n 16) 255; Z.land (Z.shiftr n 24) 255].

Definition generate_initrd (bootconfig : list Z) : result bc_error (list Z) :=
  let bootconfig_size := length bootconfig in
  let? checksum := checksum_loop 0 bootconfig in
  let total_size := BASE_INITRD_SIZE + bootconfig_size + 4 * 2 + length BOOTCONFIG_MAGIC in
  let padding_size := (BOOTCONFIG_ALIGN - total_size mod BOOTCONFIG_ALIGN) mod BOOTCONFIG_ALIGN in
  let initrd := bootconfig ++ replicate padding_size 0%Z in
  let bootconfig_size := Z.of_nat (bootconfig_size + padding_size) in
  let? size := if (bootconfig_size <? 2 ^ 32)%Z then Ok bootconfig_size else Err UsizeToU32 in
  Ok (initrd ++ put_u32_le size ++ put_u32_le checksum ++ BOOTCONFIG_MAGIC).

(** *** Writing the configuration *)

Definition DEFAULT_BOOTCONFIG_STR : string :=
  let empty := str_push (String DQUOTE EmptyString) DQUOTE in
  str_push EmptyString NEWLINE +:+ "    kernel = " +:+ str_push empty NEWLINE +:+
  "    init = " +:+ str_push empty NEWLINE.

(** [String::into_bytes]. *)
Fixpoint into_bytes (s : string) : list Z :=
  match s with EmptyString => [] | String a s => Z.of_nat (nat_of_ascii a) :: into_bytes s end.

(** [generate_boot_config]: the image that is written to [BOOTCONFIG_INITRD_PATH]. *)
Definition generate_boot_config `{HashOrder} `{BootTypes}
    (toml_from_str : string → option (option BootSettings)) (config_path : string)
    (config : result io_error string) : result bc_error (list Z) :=
  let? settings := get_boot_config_settings toml_from_str config_path config in
  let? bootconfig_bytes :=
    match settings with
    | Some boot_settings =>
        let? bootconfig := serialize_boot_settings_to_boot_config boot_settings in
        Ok (into_bytes bootconfig)
    | None => Ok (into_bytes DEFAULT_BOOTCONFIG_STR)
    end in
  generate_initrd bootconfig_bytes.

(** ** Values *)

(** A value that the configuration can hold: ASCII on one line, with at most one
    kind of quotes. *)
Record value_ok `{BootTypes} (v : string) : Prop := {
  vo_ascii : ascii_str v;
  vo_line : contains_char NEWLINE v = false;
  vo_quotes : contains_char DQUOTE v = true → contains_char SQUOTE v = false;
  vo_value : boot_config_value v = true }.

Section values.
Context `{BootTypes}.

Definition quote_of (v : string) : ascii := if contains_char DQUOTE v then SQUOTE else DQUOTE.

Lemma quote_value_eq v : quote_value v = String (quote_of v) (v +:+ char_of (quote_of v)).
Proof. unfold quote_value, quote_of. by destruct (contains_char DQUOTE v). Qed.

Lemma quote_of_cases v : quote_of v = SQUOTE ∨ quote_of v = DQUOTE.
Proof. unfold quote_of. destruct (contains_char DQUOTE v); auto. Qed.

Lemma quote_of_not_in v : value_ok v → contains_char (quote_of v) v = false.
Proof.
  intros [_ _ Hq _]. unfold quote_of. destruct (contains_char DQUOTE v) eqn:E; [by apply Hq|done].
Qed.

Lemma quote_value_ascii v : ascii_str v → ascii_str (quote_value v).
Proof.
  intros Hv. rewrite quote_value_eq, ascii_str_cons, ascii_str_app.
  destruct (quote_of_cases v) as [-> | ->]; done.
Qed.

Lemma values_loop_inside input q v rest i els st :
  q = SQUOTE ∨ q = DQUOTE → contains_char q v = false →
  values_loop input (str_bytes v ++ rest) i els (Some (char_of q)) false st =
  values_loop input rest (i + str_len v) els (Some (char_of q)) false st.
Proof.
  intros Hq. revert i. induction v as [|a v IH]; intros i Hv; [by rewrite Nat.add_0_r|].
  cbn in Hv. apply orb_false_iff in Hv as [Ha Hv]. apply bool_decide_eq_false in Ha.
  cbn [str_bytes app values_loop].
  assert (char_of q ≠ char_of a) as Hne by (intros [= ->]; done).
  replace (i + str_len (String a v)) with (S i + str_len v) by (cbn; lia).
  case_decide; [rewrite decide_False by done; by apply IH|].
  rewrite decide_False by (by intros []). by apply IH.
Qed.

(** A quoted value is scanned as one. *)
Lemma values_loop_quoted input v rest i els st :
  value_ok v →
  values_loop input (str_bytes (quote_value v) ++ rest) i els None false st =
  values_loop input rest (i + str_len (quote_value v)) els None true st.
Proof.
  intros Hv. rewrite quote_value_eq. cbn [str_bytes app values_loop].
  rewrite (decide_True (P := char_of (quote_of v) = _ ∨ _)) by (destruct (quote_of_cases v) as [-> | ->]; auto).
  rewrite str_bytes_app, <- app_assoc.
  rewrite values_loop_inside by (apply quote_of_cases || by apply quote_of_not_in).
  change (str_bytes (char_of (quote_of v)) ++ rest) with (char_of (quote_of v) :: rest).
  cbn [values_loop].
  rewrite (decide_True (P := char_of (quote_of v) = _ ∨ _)) by (destruct (quote_of_cases v) as [-> | ->]; auto).
  rewrite decide_True by done. f_equal. cbn. rewrite str_len_app. cbn. lia.
Qed.

Lemma values_loop_space input rest i els st :
  values_loop input (char_of " " :: rest) i els None false st =
  values_loop input rest (S i) els None false st.
Proof. done. Qed.

Lemma quote_value_trimmed v : trimmed (quote_value v).
Proof.
  right. rewrite quote_value_eq.
  exists (quote_of v), (quote_of v), (v +:+ char_of (quote_of v)), (String (quote_of v) v).
  destruct (quote_of_cases v) as [-> | ->]; done.
Qed.

Lemma quote_value_in_quotes v : in_quotes (quote_of v) (quote_value v) = true.
Proof.
  rewrite quote_value_eq. unfold in_quotes, str_ends_with_char.
  change (String ?q (v +:+ ?t)) with (String q v +:+ t). rewrite strip_last_app, bool_decide_true by done.
  rewrite andb_true_r. apply str_starts_with_spec. by exists (v +:+ char_of (quote_of v)).
Qed.

Lemma all_ascii_chars s P : ascii_str s →
  forallb (λ c, char_is_ascii c && (true || P c)) (str_chars s) = true.
Proof.
  intros Hs. rewrite str_chars_ascii by done. apply forallb_forall. intros c Hc.
  rewrite orb_true_l, andb_true_r.
  by eapply (proj1 (Forall_forall _ _) (str_bytes_ascii s Hs)), list_elem_of_In.
Qed.

(** A quoted value is read back, with or without a space before it. *)
Lemma parse_value_quoted v sp :
  value_ok v → sp = EmptyString ∨ sp = " " → parse_value (sp +:+ quote_value v) = Ok v.
Proof.
  intros Hv Hsp. pose proof (quote_value_ascii v (vo_ascii v Hv)) as Ha.
  assert (str_trim (sp +:+ quote_value v) = quote_value v) as Ht.
  { assert (str_trim (quote_value v) = quote_value v) as Ht
      by (apply str_trim_trimmed; [done|apply quote_value_trimmed]).
    destruct Hsp as [-> | ->]; [done|]. unfold str_trim in *.
    change (" " +:+ ?s) with (String " " s). by rewrite trim_start_ws by (done || by apply ascii_str_cons). }
  unfold parse_value. rewrite Ht.
  assert (in_quotes DQUOTE (quote_value v) || in_quotes SQUOTE (quote_value v) = true) as ->.
  { pose proof (quote_value_in_quotes v) as Hq.
    destruct (quote_of_cases v) as [E|E]; rewrite E in Hq; rewrite Hq; [apply orb_true_r|done]. }
  rewrite (all_ascii_chars (quote_value v) (λ c, negb (requires_quotes c))) by done. cbn [ensure mbind result_bind].
  assert (str_slice (quote_value v) 1 (str_len (quote_value v) - 1) = Some v) as ->.
  { rewrite quote_value_eq in *. cbn [str_len]. rewrite str_len_app. cbn [str_len].
    change (str_len (char_of (quote_of v))) with 1.
    rewrite str_slice_ascii by (done || cbn; rewrite ?str_len_app; cbn; lia). f_equal.
    cbn [str_drop]. etransitivity; [|apply (str_take_app v (char_of (quote_of v)))]. f_equal. lia. }
  cbn. by rewrite (vo_value v Hv).
Qed.

(** *** Lists of values *)

(** The text of a list of values, without the space before the first. *)
Fixpoint more_values (vs : list string) : string :=
  match vs with
  | [] => EmptyString
  | v :: vs => String COMMA (" " +:+ quote_value v +:+ more_values vs)
  end.

Lemma append_values_more vs out : append_values false vs out = out +:+ more_values vs.
Proof.
  revert out. induction vs as [|v vs IH]; intros out; cbn [append_values more_values]; [by rewrite str_app_nil_r|].
  rewrite IH, <- !str_app_assoc, str_push_app. done.
Qed.

Lemma append_boot_config_value_list_eq v vs out :
  append_boot_config_value_list (v :: vs) out = out +:+ " " +:+ quote_value v +:+ more_values vs.
Proof.
  unfold append_boot_config_value_list. cbn [append_values]. by rewrite append_values_more, <- !str_app_assoc.
Qed.

Lemma more_values_ascii vs : Forall value_ok vs → ascii_str (more_values vs).
Proof.
  induction 1 as [|v vs Hv _ IH]; [done|]. cbn [more_values].
  rewrite ascii_str_cons, !ascii_str_app. split_and!; [done|done| |done]. apply quote_value_ascii, Hv.
Qed.

(** The text ends with a quoted value. *)
Lemma values_end v vs : ∃ s l, quote_value v +:+ more_values vs = s +:+ quote_value l.
Proof.
  revert v. induction vs as [|v2 vs IH]; intros v.
  - exists EmptyString, v. apply str_app_nil_r.
  - destruct (IH v2) as (s & l & E). cbn [more_values]. rewrite E.
    exists (quote_value v +:+ String COMMA (" " +:+ s)), l. by rewrite <- str_app_assoc.
Qed.

Lemma values_trimmed v vs : trimmed (quote_value v +:+ more_values vs).
Proof.
  right. destruct (values_end v vs) as (s & l & E). exists (quote_of v), (quote_of l).
  exists (v +:+ char_of (quote_of v) +:+ more_values vs), (s +:+ String (quote_of l) l). split_and!.
  - rewrite quote_value_eq. cbn. by rewrite <- str_app_assoc.
  - rewrite E, quote_value_eq, <- str_app_assoc. done.
  - by destruct (quote_of_cases v) as [-> | ->].
  - by destruct (quote_of_cases l) as [-> | ->].
Qed.

Lemma values_loop_comma input rest i els st x v :
  str_slice input st i = Some x → parse_value x = Ok v →
  values_loop input (char_of COMMA :: rest) i els None true st =
  values_loop input rest (S i) (els ++ [v]) None false (S i).
Proof. intros Hs Hp. cbn [values_loop]. cbn -[str_slice parse_value values_loop]. by rewrite Hs; cbn; rewrite Hp. Qed.

Lemma values_loop_list vs v pre sp els input :
  value_ok v → Forall value_ok vs → sp = EmptyString ∨ sp = " " →
  input = pre +:+ sp +:+ quote_value v +:+ more_values vs → ascii_str input →
  ∃ els' l st sp',
    values_loop input (str_bytes (sp +:+ quote_value v +:+ more_values vs)) (str_len pre) els None
      false (str_len pre) = Ok (els', None, st) ∧
    els' ++ [l] = els ++ v :: vs ∧ value_ok l ∧ (sp' = EmptyString ∨ sp' = " ") ∧
    str_slice_from input st = Some (sp' +:+ quote_value l).
Proof.
  intros Hv Hvs Hsp Hin Ha. revert v pre sp els Hv Hsp Hin.
  induction Hvs as [|v2 vs Hv2 Hvs IH]; intros v pre sp els Hv Hsp Hin.
  all: assert (∀ rest els st, values_loop input (str_bytes (sp +:+ quote_value v) ++ rest) (str_len pre) els None false st =
    values_loop input rest (str_len pre + str_len (sp +:+ quote_value v)) els None true st) as Hscan
    by (intros rest els0 st; destruct Hsp as [-> | ->];
      [rewrite str_app_nil_l; by apply values_loop_quoted|
       change (str_bytes (" " +:+ ?s)) with (char_of " " :: str_bytes s); cbn [app];
       rewrite values_loop_space, values_loop_quoted by done; f_equal; cbn; lia]).
  all: rewrite str_app_assoc, str_bytes_app, Hscan.
  - cbn [more_values str_bytes values_loop]. exists els, v, (str_len pre), sp. split_and!; [done..|].
    rewrite str_slice_from_ascii by (done || subst; rewrite str_len_app; lia).
    rewrite Hin, str_drop_app. cbn. by rewrite str_app_nil_r.
  - cbn [more_values str_bytes].
    assert (str_len (pre +:+ sp +:+ quote_value v) ≤ str_len input) as Hlen.
    { rewrite Hin, !str_len_app. lia. }
    rewrite str_len_app in Hlen. rewrite (values_loop_comma _ _ _ _ _ (sp +:+ quote_value v) v);
      [| |by apply parse_value_quoted].
    + destruct (IH v2 (pre +:+ sp +:+ quote_value v +:+ char_of COMMA) " " (els ++ [v])) as
        (els' & l & st & sp' & Hl & He & Hr); [done|by right| |].
      * rewrite Hin. cbn [more_values]. rewrite <- !str_app_assoc. done.
      * exists els', l, st, sp'. split_and!; [| |apply Hr..].
        -- etransitivity; [|exact Hl]. rewrite !str_len_app.
           change (str_len (char_of COMMA)) with 1. f_equal; lia.
        -- rewrite He, <- app_assoc. done.
    + rewrite str_slice_ascii by (done || lia). f_equal. rewrite Hin, str_drop_app.
      rewrite (str_app_assoc sp). etransitivity; [|apply (str_take_app (sp +:+ quote_value v))].
      f_equal. lia.
Qed.

(** What was written as a list of values is read back. *)
Lemma parse_values_list v vs :
  value_ok v → Forall value_ok vs →
  parse_boot_config_values (quote_value v +:+ more_values vs) = Ok (v :: vs).
Proof.
  intros Hv Hvs. set (input := quote_value v +:+ more_values vs).
  assert (ascii_str input) as Ha.
  { apply ascii_str_app. split; [apply quote_value_ascii, Hv|by apply more_values_ascii]. }
  unfold parse_boot_config_values. rewrite str_trim_trimmed by (done || apply values_trimmed).
  rewrite str_chars_ascii by done.
  destruct (values_loop_list vs v EmptyString EmptyString [] input) as
    (els & l & st & sp & Hl & He & Hlo & Hsp & Hs); [done|done|by left|done|done|].
  change (str_bytes (EmptyString +:+ ?s)) with (str_bytes s) in Hl. cbn [str_len String.length] in Hl.
  fold input in Hl. rewrite Hl. cbn [mbind result_bind ensure]. rewrite bool_decide_true by done.
  cbn [mbind result_bind ensure]. rewrite Hs. cbn [ok_or mbind result_bind].
  assert (∃ a b t, sp +:+ quote_value l = String a (String b t)) as (a & b & t & E).
  { rewrite quote_value_eq. destruct Hsp as [-> | ->]; [|by eexists _, _, _].
    destruct l as [|b l]; by eexists _, _, _. }
  rewrite decide_False by (rewrite E; by intros [=]). rewrite E. cbn [str_is_empty]. rewrite <- E.
  rewrite parse_value_quoted by done. cbn. by rewrite He.
Qed.
End values.

(** ** Lines *)

(** A character of a key: alphanumeric, [_], [-] or a dot. *)
Definition key_char (a : ascii) : bool :=
  let n := nat_of_ascii a in
  ((48 <=? n) && (n <=? 57) || (65 <=? n) && (n <=? 90) || (97 <=? n) && (n <=? 122) ||
   (n =? 95) || (n =? 45) || (n =? 46))%nat.

(** A key that the configuration can hold below a prefix. *)
Record bkey_ok `{BootTypes} (prefix k : string) : Prop := {
  bk_chars : str_forallb key_char k = true;
  bk_key : boot_config_key k = true;
  bk_full : boot_config_key (prefix +:+ "." +:+ k) = true }.

Section lines.
Context `{HashOrder} `{BootTypes}.

Lemma key_char_facts a :
  key_char a = true → is_ascii a = true ∧ is_ws a = false ∧ a ≠ NEWLINE ∧ a ≠ EQUALS.
Proof.
  destruct a as [[] [] [] [] [] [] [] []]; intros Ha; vm_compute in Ha; try discriminate Ha;
    (split_and!; [reflexivity|vm_compute; reflexivity|by intros [=]|by intros [=]]).
Qed.

Lemma key_str_facts s : str_forallb key_char s = true →
  ascii_str s ∧ no_char NEWLINE s ∧ no_char EQUALS s ∧ trimmed s.
Proof.
  intros Hs.
  assert (ascii_str s ∧ no_char NEWLINE s ∧ no_char EQUALS s ∧
    (s = EmptyString ∨ ∃ b s2, s = s2 +:+ String b EmptyString ∧ is_ws b = false)) as (H1 & H2 & H3 & H4).
  { induction s as [|a s IH]; [split_and!; [done..|by left]|]. cbn in Hs.
    apply andb_true_iff in Hs as [(Ha & Hw & Hn & He)%key_char_facts Hs].
    destruct (IH Hs) as (I1 & I2 & I3 & I4). split_and!.
    - by apply ascii_str_cons.
    - unfold no_char in *. cbn. by rewrite I2, bool_decide_false.
    - unfold no_char in *. cbn. by rewrite I3, bool_decide_false.
    - right. destruct I4 as [->|(b & s2 & -> & Hb)]; [by exists a, EmptyString|by exists b, (String a s2)]. }
  split_and!; [done..|]. destruct s as [|a s]; [by left|]. right. destruct H4 as [|(b & s2 & E & Hb)]; [done|].
  cbn in Hs. apply andb_true_iff in Hs as [(_ & Hw & _)%key_char_facts _]. by exists a, b, s, s2.
Qed.

Definition param_line (prefix k : string) (values : list string) : string :=
  (prefix +:+ "." +:+ k) +:+
  match values with [] => EmptyString | v :: vs => " = " +:+ quote_value v +:+ more_values vs end.

Lemma write_param_line m prefix out k :
  write_param m prefix out k = out +:+ str_push (param_line prefix k (m !!! k)) NEWLINE.
Proof.
  unfold write_param, param_line, str_push. destruct (m !!! k) as [|v vs].
  - by rewrite str_app_nil_r, <- !str_app_assoc.
  - rewrite append_boot_config_value_list_eq, <- !str_app_assoc. done.
Qed.

Lemma write_sorted_params_lines out m prefix :
  write_sorted_params out m prefix =
  out +:+ str_concat ((λ l, str_push l NEWLINE) <$>
            ((λ k, param_line prefix k (m !!! k)) <$> merge_sort name_order (param_keys m))).
Proof.
  unfold write_sorted_params. generalize (merge_sort name_order (param_keys m)) as ks. intros ks.
  revert out. induction ks as [|k ks IH]; intros out; [by rewrite str_app_nil_r|].
  cbn [foldl]. rewrite IH, write_param_line, <- str_app_assoc. done.
Qed.

(** The name of a prefix: a key in its own right. *)
Definition is_prefix (prefix : string) : Prop := prefix = "kernel" ∨ prefix = "init".

Lemma full_key_facts prefix k : is_prefix prefix → bkey_ok prefix k →
  str_forallb key_char (prefix +:+ "." +:+ k) = true.
Proof. intros Hp Hk. rewrite !str_forallb_app, (bk_chars _ _ Hk). by destruct Hp as [-> | ->]. Qed.

Lemma full_key_ne prefix k : prefix +:+ "." +:+ k ≠ EmptyString.
Proof. by destruct prefix. Qed.

Lemma no_line_quoted v : value_ok v → no_char NEWLINE (quote_value v).
Proof.
  intros Hv. rewrite quote_value_eq. unfold no_char. cbn. rewrite str_existsb_app. cbn.
  change (str_existsb _ v) with (contains_char NEWLINE v). rewrite (vo_line _ Hv).
  by destruct (quote_of_cases v) as [-> | ->].
Qed.

Lemma no_line_more vs : Forall value_ok vs → no_char NEWLINE (more_values vs).
Proof.
  induction 1 as [|v vs Hv _ IH]; [done|]. cbn [more_values].
  change (String COMMA ?s) with (char_of COMMA +:+ s). rewrite !no_char_app.
  split_and!; [done|done|by apply no_line_quoted|done].
Qed.

Lemma param_line_ok prefix k values :
  is_prefix prefix → bkey_ok prefix k → Forall value_ok values → line_ok (param_line prefix k values).
Proof.
  intros Hp Hk Hvs. pose proof (full_key_facts _ _ Hp Hk) as Hc.
  apply key_str_facts in Hc as (Ha & Hn & _ & Ht).
  unfold param_line. destruct values as [|v vs].
  - rewrite str_app_nil_r. split; [done..|apply full_key_ne].
  - apply Forall_cons in Hvs as [Hv Hvs].
    pose proof (full_key_ne prefix k) as Hne. set (full := prefix +:+ "." +:+ k) in *. clearbody full.
    split.
    + rewrite !ascii_str_app. split_and!; [done|done|apply quote_value_ascii, Hv|by apply more_values_ascii].
    + rewrite !no_char_app. split_and!; [done|done|by apply no_line_quoted|by apply no_line_more].
    + right. destruct Ht as [E|(a & b & s1 & s2 & E1 & E2 & Hwa & Hwb)]; [done|].
      destruct (values_end v vs) as (t & l & El). rewrite El, quote_value_eq.
      exists a, (quote_of l), (s1 +:+ " = " +:+ t +:+ String (quote_of l) (l +:+ char_of (quote_of l))),
        (full +:+ " = " +:+ t +:+ String (quote_of l) l).
      split_and!; [by rewrite E1| |done|by destruct (quote_of_cases l) as [-> | ->]].
      by rewrite <- !str_app_assoc.
    + intros E. by destruct full.
Qed.

(** *** Reading a line back *)

Lemma full_key_suffix prefix k :
  is_prefix prefix → bkey_ok prefix k →
  key_suffix (prefix +:+ "." +:+ k) (str_len (prefix +:+ ".")) = Ok k.
Proof.
  intros Hp Hk. pose proof (full_key_facts _ _ Hp Hk) as (Ha & _)%key_str_facts.
  unfold key_suffix. rewrite str_app_assoc in *. rewrite str_slice_from_ascii, str_drop_app; [|done|].
  - cbn. by rewrite (bk_key _ _ Hk).
  - rewrite !str_len_app. lia.
Qed.

Lemma values_text v vs : value_ok v → Forall value_ok vs →
  str_trim (" " +:+ quote_value v +:+ more_values vs) = quote_value v +:+ more_values vs.
Proof.
  intros Hv Hvs. change (" " +:+ ?s) with (String " " s).
  assert (ascii_str (quote_value v +:+ more_values vs)) as Ha.
  { apply ascii_str_app. split; [apply quote_value_ascii, Hv|by apply more_values_ascii]. }
  unfold str_trim. rewrite trim_start_ws by (done || by apply ascii_str_cons).
  apply str_trim_trimmed; [done|apply values_trimmed].
Qed.

(** Where the loop files the values of a key. *)
Definition file_param (prefix k : string) (values : list string) (maps : params * params) : params * params :=
  if bool_decide (prefix = "kernel") then (<[k := values]> maps.1, maps.2)
  else (maps.1, <[k := values]> maps.2).

Lemma parse_key_line prefix k line v values kp ip :
  is_prefix prefix → bkey_ok prefix k →
  str_starts_with (trim_start line) "#" = false →
  str_splitn2 EQUALS (str_trim line) = (v, None) ∧ values = [] ∨
  (∃ t, str_splitn2 EQUALS (str_trim line) = (v, Some t) ∧
     parse_boot_config_values (str_trim t) = Ok values) →
  str_trim v = prefix +:+ "." +:+ k →
  parse_line line kp ip = Ok (file_param prefix k values (kp, ip)).
Proof.
  intros Hp Hk Hc Hs Hv. unfold parse_line. rewrite Hc.
  assert (∀ o, (o = None ∧ values = [] ∨ ∃ t, o = Some t ∧ parse_boot_config_values (str_trim t) = Ok values) →
    match o with Some value => parse_boot_config_values (str_trim value) | None => Ok [] end = Ok values) as Ho.
  { intros o [[-> ->]|(t & -> & Ht)]; done. }
  destruct (str_splitn2 EQUALS (str_trim line)) as [v' o].
  assert (v' = v) as -> by (destruct Hs as [[[= -> _] _]|(t & [= -> _] & _)]; done).
  rewrite Hv, (bk_full _ _ Hk). cbn [ensure mbind result_bind].
  rewrite (Ho o) by (destruct Hs as [[[= ->] ?]|(t & [= ->] & ?)]; [by left|right; by exists t]).
  cbn [mbind result_bind]. pose proof (full_key_suffix _ _ Hp Hk) as Hsuf.
  destruct Hp as [-> | ->]; unfold file_param; cbn [fst snd].
  - rewrite bool_decide_false by (by intros [=]). rewrite str_starts_with_app. cbn [negb andb].
    change (str_len ("kernel" +:+ ".")) with (str_len "kernel.") in Hsuf. rewrite Hsuf. done.
  - rewrite (bool_decide_false ("init" +:+ "." +:+ k = "kernel")) by (by intros [=]).
    change (str_starts_with ("init" +:+ "." +:+ k) "kernel") with false. cbn [negb andb].
    rewrite bool_decide_false by (by intros [=]). rewrite str_starts_with_app. cbn [negb andb].
    change (str_len ("init" +:+ ".")) with (str_len "init.") in Hsuf. rewrite Hsuf. done.
Qed.

Lemma parse_param_line prefix k values kp ip :
  is_prefix prefix → bkey_ok prefix k → Forall value_ok values →
  parse_line (param_line prefix k values) kp ip = Ok (file_param prefix k values (kp, ip)).
Proof.
  intros Hp Hk Hvs. destruct (param_line_ok _ _ _ Hp Hk Hvs) as [Ha _ Ht _].
  pose proof (full_key_facts _ _ Hp Hk) as Hc. apply key_str_facts in Hc as (Hfa & _ & Hfe & Hft).
  assert (str_starts_with (trim_start (param_line prefix k values)) "#" = false) as Hcom.
  { rewrite trim_start_trimmed by done. unfold param_line. by destruct Hp as [-> | ->]. }
  apply (parse_key_line prefix k _ (match values with [] => prefix +:+ "." +:+ k
    | _ => (prefix +:+ "." +:+ k) +:+ char_of " " end) values); [done..| |].
  - rewrite str_trim_trimmed by done. unfold param_line. destruct values as [|v vs].
    + left. rewrite str_app_nil_r, str_splitn2_no_char by done. done.
    + right. apply Forall_cons in Hvs as [Hv Hvs]. exists (" " +:+ quote_value v +:+ more_values vs). split.
      * change (" = " +:+ ?s) with (char_of " " +:+ String EQUALS (" " +:+ s)).
        rewrite str_app_assoc, (str_splitn2_char EQUALS); [done|].
        rewrite no_char_app. split; [done|done].
      * rewrite values_text by done. by apply parse_values_list.
  - destruct values; [by apply str_trim_trimmed|]. apply str_trim_ws_after; [done|done|apply full_key_ne|done|done].
Qed.

Lemma parse_lines_app l1 l2 kp ip :
  parse_lines (l1 ++ l2) kp ip = (let? (kp, ip) := parse_lines l1 kp ip in parse_lines l2 kp ip).
Proof.
  revert kp ip. induction l1 as [|l l1 IH]; intros kp ip; [done|]. cbn [app parse_lines].
  destruct (parse_line l kp ip) as [[kp' ip']|e]; [apply IH|done].
Qed.

Lemma parse_param_lines prefix (m : params) ks maps :
  is_prefix prefix → (∀ k, k ∈ ks → bkey_ok prefix k ∧ Forall value_ok (m !!! k)) →
  parse_lines ((λ k, param_line prefix k (m !!! k)) <$> ks) maps.1 maps.2 =
  Ok (foldl (λ maps k, file_param prefix k (m !!! k) maps) maps ks).
Proof.
  intros Hp Hks. revert maps. induction ks as [|k ks IH]; intros maps; [by destruct maps|].
  rewrite fmap_cons. cbn [parse_lines foldl].
  destruct (Hks k) as [Hk Hv]; [by left|]. rewrite parse_param_line by done. cbn [mbind result_bind].
  destruct maps as [kp ip]. cbn [fst snd]. rewrite <- IH by (intros; apply Hks; by right).
  by destruct (file_param _ _ _ _).
Qed.

(** Filing every key of a map gives the map. *)
Lemma file_params_lookup prefix (m : params) ks maps :
  foldl (λ maps k, file_param prefix k (m !!! k) maps) maps ks =
  if bool_decide (prefix = "kernel")
  then (foldl (λ p k, <[k := m !!! k]> p) maps.1 ks, maps.2)
  else (maps.1, foldl (λ p k, <[k := m !!! k]> p) maps.2 ks).
Proof.
  revert maps. induction ks as [|k ks IH]; intros [kp ip]; cbn [foldl]; [by case_bool_decide|].
  rewrite IH. unfold file_param. by case_bool_decide.
Qed.

Lemma fold_insert_map (m p : params) ks :
  (∀ k, k ∈ ks ↔ is_Some (m !! k)) → (∀ k, is_Some (p !! k) → k ∈ ks) →
  foldl (λ p k, <[k := m !!! k]> p) p ks = m.
Proof.
  intros Hks Hp.
  assert (∀ k, foldl (λ p k, <[k := m !!! k]> p) p ks !! k = if decide (k ∈ ks) then Some (m !!! k) else p !! k) as Hl.
  { clear Hks Hp. revert p. induction ks as [|k0 ks IH]; intros p k; cbn [foldl].
    - by rewrite decide_False by apply not_elem_of_nil.
    - rewrite IH. destruct (decide (k ∈ ks)) as [Hin|Hin].
      + by rewrite decide_True by by right.
      + destruct (decide (k = k0)) as [->|Hne].
        * rewrite decide_True by by left. by rewrite lookup_insert_eq.
        * rewrite decide_False by (intros [?|?]%elem_of_cons; done). by rewrite lookup_insert_ne. }
  apply map_eq. intros k. rewrite Hl. case_decide as Hin.
  - apply Hks in Hin as [v Hv]. rewrite Hv. f_equal. by apply lookup_total_correct.
  - destruct (p !! k) eqn:E; [by destruct Hin; apply Hp|]. symmetry. apply eq_None_not_Some.
    by intros ?%Hks.
Qed.

Lemma elem_of_param_keys m k : k ∈ merge_sort name_order (param_keys m) ↔ is_Some (m !! k).
Proof.
  rewrite merge_sort_Permutation. unfold param_keys. rewrite elem_of_hash_iter.
  setoid_rewrite map_lookup_imap. split.
  - intros [i Hi]. destruct (m !! i) eqn:E; [|done]. injection Hi as <-. by eexists.
  - intros [v Hv]. exists k. by rewrite Hv.
Qed.
End lines.

(** ** Properties *)

(** Settings whose parameters the configuration can hold. *)
Definition params_ok `{BootTypes} (prefix : string) (o : option params) : Prop :=
  ∀ m k values, o = Some m → m !! k = Some values → bkey_ok prefix k ∧ Forall value_ok values.
Definition settings_ok `{BootTypes} (s : BootSettings) : Prop :=
  params_ok "kernel" (kernel_parameters s) ∧ params_ok "init" (init_parameters s).

(** A missing map counts as an empty one. *)
Definition normal (o : option params) : option params := o ≫= non_empty.

Section roundtrip.
Context `{HashOrder} `{BootTypes}.

(** The lines that are written for the parameters below a prefix. *)
Definition params_lines (prefix : string) (o : option params) : list string :=
  match o with
  | Some m => (λ k, param_line prefix k (m !!! k)) <$> merge_sort name_order (param_keys m)
  | None => []
  end.

Lemma serialize_lines s :
  serialize_boot_settings_to_boot_config s =
  Ok (str_concat ((λ l, str_push l NEWLINE) <$>
        (params_lines "init" (init_parameters s) ++ params_lines "kernel" (kernel_parameters s)))).
Proof.
  unfold serialize_boot_settings_to_boot_config. f_equal. rewrite fmap_app, str_concat_app.
  destruct (init_parameters s), (kernel_parameters s); cbn [params_lines];
    rewrite ?write_sorted_params_lines, ?str_app_nil_l; cbn [fmap list_fmap str_concat];
    by rewrite ?str_app_nil_r.
Qed.

Lemma params_entries prefix o m k :
  params_ok prefix o → o = Some m → k ∈ merge_sort name_order (param_keys m) →
  bkey_ok prefix k ∧ Forall value_ok (m !!! k).
Proof.
  intros Hok Ho [v Hv]%elem_of_param_keys. rewrite (lookup_total_correct _ _ _ Hv). by eapply Hok.
Qed.

Lemma params_lines_ok prefix o :
  is_prefix prefix → params_ok prefix o → Forall line_ok (params_lines prefix o).
Proof.
  intros Hp Hok. destruct o as [m|]; [|constructor]. apply Forall_fmap, Forall_forall. intros k Hk.
  destruct (params_entries _ _ m k Hok eq_refl) as [Hb Hv]; [done|]. by apply param_line_ok.
Qed.

Lemma parse_params_lines prefix o maps :
  is_prefix prefix → params_ok prefix o →
  (if bool_decide (prefix = "kernel") then maps.1 else maps.2) = ∅ →
  parse_lines (params_lines prefix o) maps.1 maps.2 =
  Ok (if bool_decide (prefix = "kernel") then (default ∅ o, maps.2) else (maps.1, default ∅ o)).
Proof.
  intros Hp Hok Hm. destruct o as [m|].
  - cbn [params_lines]. rewrite parse_param_lines, file_params_lookup by (done || intros; by eapply params_entries).
    case_bool_decide; rewrite Hm, fold_insert_map; try done; try apply elem_of_param_keys;
      intros ? [? E]; by rewrite lookup_empty in E.
  - cbn. case_bool_decide; destruct maps; cbn in *; by subst.
Qed.

Lemma parse_serialized s text :
  settings_ok s → serialize_boot_settings_to_boot_config s = Ok text →
  parse_boot_config_to_boot_settings text =
  Ok (mk_boot_settings None (normal (kernel_parameters s)) (normal (init_parameters s))).
Proof.
  intros [Hk Hi]. rewrite serialize_lines. intros [= <-]. unfold parse_boot_config_to_boot_settings.
  rewrite str_lines_trim by (apply Forall_app; split; apply params_lines_ok; done || by (left + right)).
  rewrite parse_lines_app. pose proof (parse_params_lines "init" (init_parameters s) (∅, ∅)) as H1.
  cbn [fst snd] in H1. rewrite H1 by (done || by right). clear H1. cbn [mbind result_bind].
  rewrite (bool_decide_false ("init" = "kernel")) by (by intros [=]).
  pose proof (parse_params_lines "kernel" (kernel_parameters s) (∅, default ∅ (init_parameters s))) as H2.
  cbn [fst snd] in H2. rewrite H2 by (done || by left).
  rewrite bool_decide_true by done. cbn [mbind result_bind]. f_equal. f_equal.
  - by destruct (kernel_parameters s).
  - by destruct (init_parameters s).
Qed.

Lemma changed_materially o1 o2 :
  parameters_changed_materially o1 o2 = negb (bool_decide (normal o1 = normal o2)).
Proof.
  unfold parameters_changed_materially, normal, non_empty.
  destruct o1 as [m1|], o2 as [m2|]; cbn; repeat case_decide; subst; repeat case_bool_decide; naive_solver.
Qed.

Lemma normal_normal o : normal (normal o) = normal o.
Proof. unfold normal, non_empty. destruct o as [m|]; cbn; [|done]. case_decide; cbn; [done|by rewrite decide_False]. Qed.
End roundtrip.

#[global] Instance name_order_total : Total name_order.
Proof. intros a b. apply ole_total. Qed.
#[global] Instance name_order_trans : Transitive name_order.
Proof. intros a b c. apply ole_trans. Qed.
#[global] Instance name_order_antisym : AntiSymm (=) name_order.
Proof. intros a b. apply ole_antisym. Qed.

(** The order of the hash maps does not matter. *)
Lemma sorted_keys_order (H1 H2 : HashOrder) (m : params) :
  merge_sort name_order (@param_keys H1 m) = merge_sort name_order (@param_keys H2 m).
Proof.
  apply (Sorted_unique name_order); [apply Sorted_merge_sort, _..|].
  rewrite !merge_sort_Permutation. unfold param_keys. by rewrite !hash_iter_perm.
Qed.

Lemma serialize_order (H1 H2 : HashOrder) s :
  @serialize_boot_settings_to_boot_config H1 s = @serialize_boot_settings_to_boot_config H2 s.
Proof.
  unfold serialize_boot_settings_to_boot_config, write_sorted_params.
  destruct (init_parameters s) as [m1|], (kernel_parameters s) as [m2|];
    by rewrite ?(sorted_keys_order H1 H2 m1), ?(sorted_keys_order H1 H2 m2).
Qed.

(** C35. What is written for the kernel is read back: the text does not depend on
    the order of the hash maps, and parsing the boot
    configuration that was serialized from any settings with ASCII values on one
    line gives the settings' kernel and init parameters, with all their keys and
    lists of values; only [reboot-to-reconcile],
    which is not written, and the difference between no parameters and an empty
    map are lost. *)
Theorem boot_config_roundtrip `{HashOrder} `{BootTypes} s text :
  settings_ok s → serialize_boot_settings_to_boot_config s = Ok text →
  (∀ other : HashOrder, @serialize_boot_settings_to_boot_config other s = Ok text) ∧
  parse_boot_config_to_boot_settings text =
  Ok (mk_boot_settings None (normal (kernel_parameters s)) (normal (init_parameters s))).
Proof.
  intros Hok Hs. split; [|by apply parse_serialized]. intros other. rewrite <- Hs. apply serialize_order.
Qed.

(** The decision to reboot.  On a host that booted with the configuration
    written from [s0] (or without one), and whose settings are now [s], a reboot is
    required exactly when the settings ask for it and some kernel or init parameter
    differs; so after the reboot with the configuration written from [s] itself, no
    other one is required. *)
Lemma reboot_exactly_on_change `{HashOrder} `{BootTypes} toml path config s s0 text :
  settings_ok s0 → serialize_boot_settings_to_boot_config s0 = Ok text →
  toml config = Some (Some s) →
  let reconcile := default false (reboot_to_reconcile s) in
  let changed (s0 : BootSettings) := negb (bool_decide (normal (kernel_parameters s0) = normal (kernel_parameters s) ∧
                                    normal (init_parameters s0) = normal (init_parameters s))) in
  is_reboot_required toml path (Ok config) (Ok text) = Ok (reconcile && changed s0) ∧
  is_reboot_required toml path (Ok config) (Err NotFound) = Ok (reconcile && changed DEFAULT_BOOT_SETTINGS) ∧
  changed s = false.
Proof.
  intros Hok Hser Htoml reconcile changed. unfold is_reboot_required, get_boot_config_settings, read_proc_bootconfig, read_optional.
  rewrite decide_True by done. cbn [mbind result_bind]. rewrite (parse_serialized _ _ Hok Hser), Htoml.
  cbn [mbind result_bind ok_or default]. unfold boot_settings_change_requires_reboot. cbn [kernel_parameters init_parameters].
  rewrite !changed_materially, !normal_normal. fold reconcile.
  assert (∀ o1 o2 o3 o4 : option params, negb (bool_decide (o1 = o2)) || negb (bool_decide (o3 = o4)) =
    negb (bool_decide (o1 = o2 ∧ o3 = o4))) as Hb by (intros; repeat case_bool_decide; naive_solver).
  rewrite !Hb. change (id s) with s. fold reconcile. split_and!; [by destruct reconcile..|].
  unfold changed. by rewrite bool_decide_true.
Qed.

(** *** No panics *)

(** The quote that is open after a text. *)
Fixpoint open_quote (s : string) (q : option ascii) : option ascii :=
  match s with
  | EmptyString => q
  | String a s =>
      open_quote s
        (if decide (a = SQUOTE ∨ a = DQUOTE) then
           match q with Some b => if decide (b = a) then None else q | None => Some a end
         else q)
  end.

Section panics.
Context `{HashOrder} `{BootTypes}.

Lemma open_quote_app s t q : open_quote (s +:+ t) q = open_quote t (open_quote s q).
Proof. revert q. induction s as [|a s IH]; intros q; [done|]. apply IH. Qed.

Lemma open_quote_ws w q : all_ws w → open_quote w q = q.
Proof.
  unfold all_ws. induction w as [|a w IH]; [done|]. cbn. intros [Ha Hw]%andb_true_iff.
  rewrite decide_False; [by apply IH|]. intros [-> | ->]; by vm_compute in Ha.
Qed.

Lemma in_quotes_one c s : in_quotes c s = true → str_len s ≤ 1 → s = char_of c.
Proof.
  unfold in_quotes. intros [(t & ->)%str_starts_with_spec _]%andb_true_iff Hlen. cbn in Hlen.
  by destruct t as [|b t]; [|cbn in Hlen; lia].
Qed.

(** An element is never a lone quote: its quotes are balanced. *)
Lemma parse_value_no_panic x :
  ascii_str x → open_quote x None = None → parse_value x ≠ Err BcPanicked.
Proof.
  intros Hx Hq. unfold parse_value. destruct (forallb _ _); [|done]. cbn [ensure mbind result_bind].
  destruct (in_quotes DQUOTE (str_trim x) || in_quotes SQUOTE (str_trim x)) eqn:E;
    [|cbn; by destruct (boot_config_value _)].
  assert (1 < str_len (str_trim x)) as Hlen.
  { apply Nat.nle_gt. intros Hle. destruct (str_trim_spec x Hx) as (w1 & w2 & Ew & H1 & H2).
    assert (str_trim x = char_of DQUOTE ∨ str_trim x = char_of SQUOTE) as Ht.
    { apply orb_prop in E as [E|E]; apply in_quotes_one in E; [by left|done|by right|done]. }
    rewrite Ew, !open_quote_app, (open_quote_ws w1), (open_quote_ws w2) in Hq by done.
    by destruct Ht as [Ht|Ht]; rewrite Ht in Hq; vm_compute in Hq. }
  rewrite str_slice_ascii by (by apply str_trim_ascii || lia). cbn. by destruct (boot_config_value _).
Qed.

Definition quote_str (q : option ascii) : option string := char_of <$> q.

Lemma values_loop_no_panic input before cur rest els q expect :
  ascii_str input → input = before +:+ cur +:+ rest → open_quote cur None = q →
  match values_loop input (str_bytes rest) (str_len before + str_len cur) els (quote_str q) expect (str_len before) with
  | Ok (_, q', st) => ∃ before' cur', input = before' +:+ cur' ∧ st = str_len before' ∧
                        q' = quote_str (open_quote cur' None)
  | Err e => e ≠ BcPanicked
  end.
Proof.
  intros Ha. revert before cur els q expect. induction rest as [|a rest IH]; intros before cur els q expect Hin Hq.
  { cbn. exists before, cur. rewrite Hq. by rewrite str_app_nil_r in Hin. }
  assert (∀ els q' expect', open_quote (cur +:+ char_of a) None = q' →
    match values_loop input (str_bytes rest) (S (str_len before + str_len cur)) els (quote_str q') expect' (str_len before) with
    | Ok (_, q', st) => ∃ before' cur', input = before' +:+ cur' ∧ st = str_len before' ∧
                          q' = quote_str (open_quote cur' None)
    | Err e => e ≠ BcPanicked
    end) as Hnext.
  { intros els0 q' expect' Hq'. replace (S (str_len before + str_len cur)) with (str_len before + str_len (cur +:+ char_of a))
      by (rewrite str_len_app; cbn; lia).
    apply IH; [|done]. rewrite Hin, <- str_app_assoc. done. }
  rewrite open_quote_app, Hq in Hnext. cbn [open_quote] in Hnext.
  cbn [str_bytes values_loop]. destruct (expect && _ && _); [done|].
  assert (∀ b : ascii, char_of a = char_of b ↔ a = b) as Hch by (intros b; split; [by intros [= ->]|by intros ->]).
  rewrite (decide_ext (char_of a = char_of SQUOTE ∨ char_of a = char_of DQUOTE) (a = SQUOTE ∨ a = DQUOTE))
    by (by rewrite !Hch).
  change (open_quote (char_of a) ?q) with
    (if decide (a = SQUOTE ∨ a = DQUOTE) then
       match q with Some b => if decide (b = a) then None else q | None => Some a end else q) in Hnext.
  destruct (decide (a = SQUOTE ∨ a = DQUOTE)) as [Hqa|Hqa].
  - destruct q as [b|]; cbn [quote_str fmap option_fmap option_map].
    + rewrite (decide_ext (char_of b = char_of a) (b = a)) by (split; [by intros [= ->]|by intros ->]).
      destruct (decide (b = a)); by apply (Hnext els _ _ eq_refl).
    + by apply (Hnext els _ _ eq_refl).
  - case_decide as Hc; [|by apply (Hnext els _ _ eq_refl)]. destruct Hc as [->%Hch Hn].
    destruct q as [b|]; [done|].
    assert (str_slice input (str_len before) (str_len before + str_len cur) = Some cur) as Hs.
    { rewrite str_slice_ascii; [|done|lia|rewrite Hin, !str_len_app; lia]. f_equal.
      rewrite Hin, str_drop_app. etransitivity; [|apply (str_take_app cur (String COMMA rest))]. f_equal. lia. }
    rewrite Hs. cbn [ok_or mbind result_bind].
    assert (ascii_str cur) as Hcur by (rewrite Hin, !ascii_str_app in Ha; apply Ha).
    pose proof (parse_value_no_panic cur Hcur Hq) as Hp.
    destruct (parse_value cur) as [v|e]; [|by intros ->]. cbn [mbind result_bind].
    specialize (IH (before +:+ cur +:+ char_of COMMA) EmptyString (els ++ [v]) None false).
    rewrite !str_len_app in IH. change (str_len (char_of COMMA)) with 1 in IH.
    replace (S (str_len before + str_len cur)) with (str_len before + (str_len cur + 1)) by lia.
    rewrite Nat.add_0_r in IH. apply IH; [|done]. rewrite Hin, <- !str_app_assoc. done.
Qed.

Lemma parse_values_no_panic input :
  ascii_str input → trimmed input → parse_boot_config_values input ≠ Err BcPanicked.
Proof.
  intros Ha Ht. unfold parse_boot_config_values. rewrite str_trim_trimmed, str_chars_ascii by done.
  pose proof (values_loop_no_panic input EmptyString EmptyString input [] None false Ha eq_refl eq_refl) as Hl.
  cbn [str_len String.length Nat.add quote_str fmap option_fmap option_map] in Hl.
  destruct (values_loop _ _ _ _ _ _ _) as [[[els q] st]|e]; [|by intros [= ->]]. cbn [mbind result_bind].
  destruct Hl as (before & cur & Hin & -> & ->). case_bool_decide as Hq; [|done]. cbn [ensure mbind result_bind].
  rewrite str_slice_from_ascii by (done || rewrite Hin, str_len_app; lia).
  rewrite Hin, str_drop_app. cbn [ok_or mbind result_bind].
  assert (open_quote cur None = None) as Hoq by (by destruct (open_quote cur None)).
  assert (ascii_str cur) as Hcur by (rewrite Hin, ascii_str_app in Ha; apply Ha).
  set (last := if decide _ then _ else _).
  assert (parse_value last ≠ Err BcPanicked) as Hp.
  { unfold last. case_decide; by apply parse_value_no_panic. }
  destruct (str_is_empty last); [done|].
  destruct (parse_value last); [done|]. by intros [= ->].
Qed.

Lemma key_suffix_no_panic key n :
  ascii_str key → n ≤ str_len key → key_suffix key n ≠ Err BcPanicked.
Proof.
  intros Ha Hn. unfold key_suffix. rewrite str_slice_from_ascii by done. cbn. by destruct (boot_config_key _).
Qed.

(** A key that starts with a prefix and is not the prefix is longer. *)
Lemma starts_with_longer key p :
  negb (bool_decide (key = p)) && str_starts_with key p = true → S (str_len p) ≤ str_len key.
Proof.
  intros [Hne (t & ->)%str_starts_with_spec]%andb_true_iff. rewrite str_len_app.
  destruct t; [|cbn; lia]. rewrite str_app_nil_r in Hne. by rewrite bool_decide_true in Hne.
Qed.

Lemma parse_line_no_panic line kp ip : ascii_str line → parse_line line kp ip ≠ Err BcPanicked.
Proof.
  intros Ha. unfold parse_line. destruct (str_starts_with (trim_start line) "#"); [done|].
  destruct (str_splitn2 EQUALS (str_trim line)) as [k o] eqn:E.
  apply str_splitn2_ascii in E as [Hk Ho]; [|by apply str_trim_ascii].
  destruct (boot_config_key (str_trim k)); [|done]. cbn [ensure mbind result_bind].
  set (vs := match o with Some _ => _ | None => _ end).
  assert (vs ≠ Err BcPanicked) as Hvs.
  { unfold vs. destruct o as [t|]; [|done].
    apply parse_values_no_panic; [by apply str_trim_ascii|by apply trimmed_trim]. }
  destruct vs as [values|e]; [|by intros [= ->]]. cbn [mbind result_bind].
  pose proof (str_trim_ascii k Hk) as Hka.
  destruct (negb (bool_decide (str_trim k = "kernel")) && _) eqn:Ek.
  { apply starts_with_longer in Ek. pose proof (key_suffix_no_panic _ (str_len "kernel.") Hka Ek).
    destruct (key_suffix _ _); [done|]. by intros [= ->]. }
  destruct (negb (bool_decide (str_trim k = "init")) && _) eqn:Ei.
  { apply starts_with_longer in Ei. pose proof (key_suffix_no_panic _ (str_len "init.") Hka Ei).
    destruct (key_suffix _ _); [done|]. by intros [= ->]. }
  destruct (decide (str_trim k = "kernel" ∨ str_trim k = "init")); [|done].
  destruct (boot_config_value EmptyString); cbn; [|done]. destruct (bool_decide (values = _)); done.
Qed.
End panics.

(** No boot configuration makes the parser panic: for every ASCII text its
    slices are on character boundaries and in range, and a value in quotes has both
    of them, because elements are only cut where no quote is open. *)
Lemma parse_never_panics `{HashOrder} `{BootTypes} text :
  ascii_str text → parse_boot_config_to_boot_settings text ≠ Err BcPanicked.
Proof.
  intros Ha. unfold parse_boot_config_to_boot_settings.
  pose proof (str_lines_ascii _ (str_trim_ascii text Ha)) as Hl.
  assert (∀ kp ip, parse_lines (str_lines (str_trim text)) kp ip ≠ Err BcPanicked) as Hp.
  { induction Hl as [|l ls Hal _ IH]; intros kp ip; [done|]. cbn [parse_lines].
    pose proof (parse_line_no_panic l kp ip Hal) as Hp.
    destruct (parse_line l kp ip) as [[kp' ip']|e]; [apply IH|]. by intros [= ->]. }
  specialize (Hp ∅ ∅). destruct (parse_lines _ _ _) as [[kp ip]|e]; [done|]. by intros [= ->].
Qed.

(** *** The image *)

Definition le_value (bytes : list Z) : Z := foldr (λ b n, (b + 256 * n)%Z) 0%Z bytes.
Definition byte_sum (bytes : list Z) : Z := foldr Z.add 0%Z bytes.

(** How the kernel reads the configuration at the end of an initrd (its
    documentation of boot configurations): the magic, before it the checksum and the
    size, before them the data. *)
Definition read_initrd (image : list Z) : option (list Z) :=
  let n := length image in
  if decide (drop (n - 12) image = BOOTCONFIG_MAGIC) then
    let checksum := le_value (take 4 (drop (n - 16) image)) in
    let size := Z.to_nat (le_value (take 4 (drop (n - 20) image))) in
    let data := take size (drop (n - 20 - size) image) in
    if decide (size ≤ n - 20 ∧ byte_sum data = checksum) then Some data else None
  else None.

Lemma put_u32_le_value n : (0 ≤ n < 2 ^ 32)%Z → le_value (put_u32_le n) = n.
Proof.
  intros Hn. unfold put_u32_le, le_value. cbn [foldr].
  assert (∀ x, Z.land x 255 = x mod 256)%Z as Hland by (intros x; apply (Z.land_ones x 8); lia).
  rewrite !Hland, !Z.shiftr_div_pow2 by lia.
  change (2 ^ 8)%Z with 256%Z. change (2 ^ 16)%Z with (256 * 256)%Z. change (2 ^ 24)%Z with (256 * (256 * 256))%Z.
  rewrite <- !Z.div_div by lia. rewrite (Z.mod_small (n / 256 / 256 / 256)).
  - pose proof (Z.div_mod n 256). pose proof (Z.div_mod (n / 256) 256).
    pose proof (Z.div_mod (n / 256 / 256) 256). lia.
  - rewrite !Z.div_div by lia. split; [apply Z.div_pos; lia|apply Z.div_lt_upper_bound; lia].
Qed.

Lemma byte_sum_pos bytes : Forall (λ b, 0 ≤ b)%Z bytes → (0 ≤ byte_sum bytes)%Z.
Proof. induction 1 as [|b l Hb _ IH]; unfold byte_sum in *; cbn; lia. Qed.

Lemma checksum_loop_spec c bytes :
  (0 ≤ c < 2 ^ 32)%Z → Forall (λ b, 0 ≤ b)%Z bytes →
  checksum_loop c bytes =
  if decide (c + byte_sum bytes < 2 ^ 32)%Z then Ok (c + byte_sum bytes)%Z else Err AddU32Overflow.
Proof.
  intros Hc Hb. revert c Hc. induction Hb as [|b bytes Hb Hbs IH]; intros c Hc; cbn [checksum_loop byte_sum foldr].
  { rewrite decide_True by lia. by rewrite Z.add_0_r. }
  pose proof (byte_sum_pos bytes Hbs) as Hpos.
  unfold byte_sum in *. destruct (Z.ltb_spec (c + b) (2 ^ 32)).
  - cbn [mbind result_bind]. rewrite IH by lia. rewrite Z.add_assoc. done.
  - rewrite decide_False by lia. done.
Qed.

Lemma byte_sum_app l1 l2 : byte_sum (l1 ++ l2) = (byte_sum l1 + byte_sum l2)%Z.
Proof. unfold byte_sum. induction l1 as [|x l1 IH]; cbn; [done|]. rewrite IH. lia. Qed.

Lemma byte_sum_zeros n : byte_sum (replicate n 0%Z) = 0%Z.
Proof. by induction n. Qed.

Lemma take_drop_from_end {A} (l1 l2 l3 : list A) n :
  n = length (l2 ++ l3) → take (length l2) (drop (length (l1 ++ l2 ++ l3) - n) (l1 ++ l2 ++ l3)) = l2.
Proof.
  intros ->. rewrite !length_app.
  replace (length l1 + (length l2 + length l3) - (length l2 + length l3)) with (length l1) by lia.
  by rewrite drop_app_length, take_app_length.
Qed.

Lemma read_initrd_image data :
  (Z.of_nat (length data) < 2 ^ 32)%Z → (0 ≤ byte_sum data < 2 ^ 32)%Z →
  read_initrd (data ++ put_u32_le (Z.of_nat (length data)) ++ put_u32_le (byte_sum data) ++ BOOTCONFIG_MAGIC)
    = Some data.
Proof.
  intros Hsize Hsum. set (size := Z.of_nat (length data)) in *.
  set (tail := put_u32_le (byte_sum data) ++ BOOTCONFIG_MAGIC).
  unfold read_initrd. set (image := data ++ put_u32_le size ++ tail).
  assert (length image = length data + 20) as Hlen by (unfold image, tail; rewrite !length_app; cbn; lia).
  assert (drop (length image - 12) image = BOOTCONFIG_MAGIC) as ->.
  { unfold image, tail. rewrite (app_assoc (put_u32_le size)), app_assoc. apply drop_app_length'.
    rewrite !length_app. cbn. lia. }
  rewrite decide_True by done.
  assert (take 4 (drop (length image - 16) image) = put_u32_le (byte_sum data)) as ->.
  { unfold image, tail. rewrite (app_assoc data). by apply (take_drop_from_end _ (put_u32_le (byte_sum data))). }
  assert (take 4 (drop (length image - 20) image) = put_u32_le size) as ->.
  { by apply (take_drop_from_end _ (put_u32_le size)). }
  rewrite !put_u32_le_value by lia. unfold size. rewrite Nat2Z.id, Hlen.
  replace (length data + 20 - 20 - length data) with 0 by lia. rewrite drop_0. unfold image.
  rewrite take_app_length, decide_True; [done|]. split; [lia|done].
Qed.

(** The initrd.  For every configuration, an image is made exactly when the
    checksum and the size fit into 32 bits; its length is a multiple of four, it is
    the configuration with less than four bytes of padding, followed by size,
    checksum and magic, and the kernel reads from it exactly the configuration with
    its padding, with the right checksum. *)
Lemma initrd_read_back bootconfig :
  Forall (λ b, 0 ≤ b < 256)%Z bootconfig →
  let padding := replicate ((4 - length bootconfig mod 4) mod 4) 0%Z in
  let size := Z.of_nat (length (bootconfig ++ padding)) in
  match generate_initrd bootconfig with
  | Ok image =>
      (byte_sum bootconfig < 2 ^ 32)%Z ∧ (size < 2 ^ 32)%Z ∧ length image mod 4 = 0 ∧
      image = bootconfig ++ padding ++ put_u32_le size ++ put_u32_le (byte_sum bootconfig) ++ BOOTCONFIG_MAGIC ∧
      read_initrd image = Some (bootconfig ++ padding)
  | Err AddU32Overflow => (2 ^ 32 ≤ byte_sum bootconfig)%Z
  | Err UsizeToU32 => (2 ^ 32 ≤ size)%Z
  | Err _ => False
  end.
Proof.
  intros Hb padding size. assert (Forall (λ b, 0 ≤ b)%Z bootconfig) as Hpos
    by (eapply Forall_impl; [exact Hb|]; cbn; lia).
  pose proof (byte_sum_pos bootconfig Hpos) as Hs.
  unfold generate_initrd. rewrite checksum_loop_spec by (done || lia). rewrite Z.add_0_l.
  case_decide as Hc; [|cbn -[Z.pow]; lia]. cbn [mbind result_bind].
  assert ((BOOTCONFIG_ALIGN - (BASE_INITRD_SIZE + length bootconfig + 4 * 2 + length BOOTCONFIG_MAGIC) mod BOOTCONFIG_ALIGN)
            mod BOOTCONFIG_ALIGN = (4 - length bootconfig mod 4) mod 4) as ->.
  { unfold BOOTCONFIG_ALIGN, BASE_INITRD_SIZE. cbn [length BOOTCONFIG_MAGIC].
    replace (0 + length bootconfig + 4 * 2 + 12) with (length bootconfig + 5 * 4) by lia.
    by rewrite Nat.Div0.mod_add. }
  fold padding. assert (Z.of_nat (length bootconfig + (4 - length bootconfig mod 4) mod 4) = size) as ->.
  { unfold size, padding. by rewrite length_app, length_replicate. }
  destruct (Z.ltb_spec size (2 ^ 32)) as [Hsz|Hsz]; [|done]. cbn [mbind result_bind].
  rewrite <- app_assoc. split_and!; [done..| |done|].
  - unfold padding. rewrite !length_app, length_replicate.
    change (length (put_u32_le size)) with 4. change (length (put_u32_le (byte_sum bootconfig))) with 4.
    change (length BOOTCONFIG_MAGIC) with 12.
    pose proof (Nat.div_mod_eq (length bootconfig) 4) as Hd. pose proof (Nat.mod_upper_bound (length bootconfig) 4).
    replace (length bootconfig + ((4 - length bootconfig mod 4) mod 4 + (4 + (4 + 12)))) with
      ((length bootconfig mod 4 + (4 - length bootconfig mod 4) mod 4) + (length bootconfig / 4 + 5) * 4) by lia.
    rewrite Nat.Div0.mod_add. destruct (length bootconfig mod 4) as [|[|[|[|?]]]]; [reflexivity..|lia].
  - rewrite (app_assoc bootconfig). unfold size.
    assert (byte_sum (bootconfig ++ padding) = byte_sum bootconfig) as <-
      by (unfold padding; rewrite byte_sum_app, byte_sum_zeros; lia).
    apply read_initrd_image; [done|]. unfold padding. rewrite byte_sum_app, byte_sum_zeros. lia.
Qed.

(** ** A concrete choice of accepted texts, and the properties at work on it *)

#[local] Instance example_types : BootTypes := {|
  boot_config_key s := str_forallb key_char s;
  boot_config_value s := str_forallb is_ascii s |}.
#[local] Existing Instance example_order.

Definition example_settings : BootSettings :=
  mk_boot_settings (Some true)
    (Some {[ "console" := ["ttyS1,115200n8"; "tty0"]; "dm-mod.create" := ["a=b;c"] ]})
    (Some {[ "splash" := []; "weird" := ["it's"; String DQUOTE (str_push "x" DQUOTE); EmptyString] ]}).

Definition example_text : string :=
  match serialize_boot_settings_to_boot_config example_settings with Ok s => s | Err _ => EmptyString end.

(** The conditions on keys and values, as a test. *)
Definition value_okb (v : string) : bool :=
  str_forallb is_ascii v && negb (contains_char NEWLINE v) &&
  negb (contains_char DQUOTE v && contains_char SQUOTE v) && boot_config_value v.
Definition params_okb (prefix : string) (o : option params) : bool :=
  match o with
  | Some m => forallb (λ e, str_forallb key_char e.1 && boot_config_key (prefix +:+ "." +:+ e.1) &&
                            forallb value_okb e.2) (map_to_list m)
  | None => true
  end.

Lemma params_okb_spec prefix o : params_okb prefix o = true → params_ok prefix o.
Proof.
  intros Hb m k values -> Hk. unfold params_okb in Hb. rewrite forallb_forall in Hb.
  specialize (Hb (k, values)). rewrite <- list_elem_of_In, elem_of_map_to_list in Hb. specialize (Hb Hk).
  cbn [fst snd] in Hb. apply andb_true_iff in Hb as [[H1 H2]%andb_true_iff Hv]. split; [by split|].
  rewrite forallb_forall in Hv. apply list.Forall_forall. intros v H3%list_elem_of_In%Hv. unfold value_okb in H3.
  rewrite !andb_true_iff, !negb_true_iff, andb_false_iff in H3. destruct H3 as (((Ha & Hn) & Hq) & Hval).
  split; [done..| |done]. intros Hd. destruct Hq as [Hq|Hq]; [congruence|done].
Qed.

Lemma example_settings_ok : settings_ok example_settings.
Proof. split; apply params_okb_spec; vm_compute; reflexivity. Qed.

Lemma boot_config_roundtrip_witness :
  serialize_boot_settings_to_boot_config example_settings = Ok example_text ∧
  str_lines example_text !! 0 = Some "init.splash" ∧
  parse_boot_config_to_boot_settings example_text =
  Ok (mk_boot_settings None (kernel_parameters example_settings) (init_parameters example_settings)).
Proof.
  assert (serialize_boot_settings_to_boot_config example_settings = Ok example_text) as Hs
    by (vm_compute; reflexivity).
  split_and!; [exact Hs|vm_compute; reflexivity|].
  rewrite (proj2 (boot_config_roundtrip example_settings example_text example_settings_ok Hs)).
  vm_compute. reflexivity.
Defined.

Lemma reboot_exactly_on_change_witness :
  let toml := λ s, if String.eqb s "new" then Some (Some example_settings) else None in
  is_reboot_required toml "/etc/prairiedog.toml" (Ok "new") (Ok example_text) = Ok false ∧
  is_reboot_required toml "/etc/prairiedog.toml" (Ok "new") (Err NotFound) = Ok true.
Proof.
  intros toml.
  destruct (reboot_exactly_on_change toml "/etc/prairiedog.toml" "new" example_settings example_settings
    example_text example_settings_ok) as (H1 & H2 & H3); [vm_compute; reflexivity|reflexivity|].
  split; [rewrite H1|rewrite H2]; vm_compute; reflexivity.
Defined.

Lemma parse_never_panics_witness :
  parse_boot_config_to_boot_settings (String DQUOTE EmptyString) ≠ Err BcPanicked ∧
  parse_boot_config_to_boot_settings ("kernel.x = ' , " +:+ String DQUOTE "',") ≠ Err BcPanicked.
Proof. split; apply parse_never_panics; vm_compute; reflexivity. Defined.

Lemma initrd_read_back_witness :
  let bootconfig := into_bytes example_text in
  ∃ image, generate_initrd bootconfig = Ok image ∧ length image mod 4 = 0 ∧
    read_initrd image = Some (bootconfig ++ replicate ((4 - length bootconfig mod 4) mod 4) 0%Z).
Proof.
  intros bootconfig. pose proof (initrd_read_back bootconfig) as Hi.
  assert (Forall (λ b, 0 ≤ b < 256)%Z bootconfig) as Hb.
  { apply list.Forall_forall. intros b Hin. assert (forallb (λ b, (0 <=? b) && (b <? 256))%Z bootconfig = true) as Ht
      by (vm_compute; reflexivity).
    rewrite forallb_forall in Ht. apply list_elem_of_In, Ht in Hin. lia. }
  specialize (Hi Hb). cbv zeta in Hi.
  assert (is_ok (generate_initrd bootconfig) = true) as Hok by (vm_compute; reflexivity).
  destruct (generate_initrd bootconfig) as [image|e]; [|discriminate].
  exists image. split; [reflexivity|]. destruct Hi as (_ & _ & H1 & _ & H2). split; [exact H1|exact H2].
Defined.

(** A key that merely starts with [kernel] or [init] is not refused as unsupported:
    the characters where the dot would be are dropped. *)
Lemma unsupported_keys_accepted :
  parse_boot_config_to_boot_settings "initrd.size = 1" =
    Ok (mk_boot_settings None None (Some {[ "d.size" := ["1"] ]})) ∧
  parse_boot_config_to_boot_settings "kernelfoo = 1" =
    Ok (mk_boot_settings None (Some {[ "oo" := ["1"] ]}) None).
Proof. split; vm_compute; reflexivity. Qed.

(** Off ASCII, where character and byte indices differ, a slice panics before the
    value is refused. *)
Lemma non_ascii_value_panics :
  parse_boot_config_to_boot_settings ("kernel.x = " +:+ bytes_str [195; 169] +:+ ", b") = Err BcPanicked.
Proof. vm_compute. reflexivity. Qed.
