(* ===== verification/ParseDatetime.v ===== *)
(** * Time offsets ([sources/parse-datetime/src/lib.rs])

    Instants ([DateTime<Utc>]) and durations ([TimeDelta]) of the [chrono] crate
    are integers, in nanoseconds.  [parse_datetime] also accepts RFC 3339, whose
    parser and the clock are arguments here. *)
From S2P Require Import Prelude Numbers.
From Stdlib Require Import Ascii.
From stdpp Require Import base numbers list sets strings.
From stdpp Require Import options.

(** ** Definitions *)

Inductive dt_error :=
| DateArgInvalid (input msg : string)
| DateArgCount (input : string).

(** [char::is_whitespace] on ASCII. *)
Definition is_whitespace (c : ascii) : bool :=
  let n := nat_of_ascii c in ((9 <=? n) && (n <=? 13))%nat || (n =? 32)%nat.

(** [str::split_whitespace]: the maximal runs of other characters. *)
Fixpoint split_whitespace_from (s : string) (word : string) : list string :=
  match s with
  | EmptyString => if str_is_empty word then [] else [word]
  | String c s =>
      if is_whitespace c
      then (if str_is_empty word then [] else [word]) ++ split_whitespace_from s EmptyString
      else split_whitespace_from s (str_push word c)
  end.
Definition split_whitespace (s : string) : list string := split_whitespace_from s EmptyString.

(** [Duration::try_seconds] and its multiples: refused beyond [i64] milliseconds. *)
Definition NANOS_PER_SEC : Z := 1000000000.
Definition try_seconds (secs : Z) : option Z :=
  if (Z.abs secs * 1000 <? 2 ^ 63)%Z then Some (secs * NANOS_PER_SEC)%Z else None.
Definition try_hours (hours : Z) : option Z := try_seconds (hours * 3600).
Definition try_days (days : Z) : option Z := try_seconds (days * 86400).
Definition try_weeks (weeks : Z) : option Z := try_seconds (weeks * 604800).

Definition parse_offset (input : string) : result dt_error Z :=
  let parts := split_whitespace input in
  let? (prefix, count_str, unit_str) :=
    match parts with
    | [count_str; unit_str] => Ok (None, count_str, unit_str)
    | [prefix_str; count_str; unit_str] => Ok (Some prefix_str, count_str, unit_str)
    | _ => Err (DateArgInvalid input "expected RFC 3339, or something like 'in 7 days' or '7 days'")
    end in
  let? _ :=
    match prefix with
    | Some prefix_str =>
        ensure (bool_decide (prefix_str = "in"))
          (DateArgInvalid input "expected prefix 'in', something like 'in 7 days'")
    | None => Ok tt
    end in
  let? count := ok_or (parse_u32 count_str) (DateArgCount input) in
  if decide (unit_str ∈ ["hour"; "hours"]) then
    ok_or (try_hours count)
      (DateArgInvalid input "date argument's hours unit must be a numerical value")
  else if decide (unit_str ∈ ["day"; "days"]) then
    ok_or (try_days count)
      (DateArgInvalid input "date argument's days unit must be a numerical value")
  else if decide (unit_str ∈ ["week"; "weeks"]) then
    ok_or (try_weeks count)
      (DateArgInvalid input "date argument's weeks unit must be a numerical value")
  else Err (DateArgInvalid input "date argument's unit must be hours/days/weeks").

(** [parse_from_rfc3339] and [Utc::now()] are arguments. *)
Definition parse_datetime (parse_from_rfc3339 : string → option Z) (now : Z) (input : string) :
    result dt_error Z :=
  match parse_from_rfc3339 input with
  | Some utc => Ok utc
  | None => let? offset := parse_offset input in Ok (now + offset)%Z
  end.

(** ** Facts *)

(** A count that parsed is never too large for its unit. *)
Lemma try_seconds_u32 count unit :
  (0 ≤ count < 2 ^ 32)%Z → (0 < unit ≤ 604800)%Z →
  try_seconds (count * unit) = Some (count * unit * NANOS_PER_SEC)%Z.
Proof.
  intros Hc Hu. unfold try_seconds. rewrite (proj2 (Z.ltb_lt _ _)); [done|]. nia.
Qed.

(** [parse_offset] accepts exactly "[in] <u32> <unit>" and gives the exact
    duration: the failure branches of the duration constructors are dead for any
    32-bit count, and the result is never negative. *)
Lemma parse_offset_exact input d :
  parse_offset input = Ok d ↔
  ∃ count_str unit_str count unit,
    (split_whitespace input = [count_str; unit_str] ∨
     split_whitespace input = ["in"; count_str; unit_str]) ∧
    parse_u32 count_str = Some count ∧
    (unit_str ∈ ["hour"; "hours"] ∧ unit = 3600 ∨ unit_str ∈ ["day"; "days"] ∧ unit = 86400 ∨
     unit_str ∈ ["week"; "weeks"] ∧ unit = 604800)%Z ∧
    d = (count * unit * NANOS_PER_SEC)%Z ∧ (0 ≤ d)%Z.
Proof.
  unfold parse_offset. split.
  - intros Hp. rinv. destruct x as [[prefix count_str] unit_str]. rinv.
    match goal with H : parse_u32 _ = Some ?c |- _ => rename c into count; rename H into Hc end.
    pose proof (parse_u32_bound _ _ Hc) as Hb.
    assert (split_whitespace input = [count_str; unit_str] ∨
            split_whitespace input = ["in"; count_str; unit_str]) as Hsplit.
    { destruct (split_whitespace input) as [|w1 [|w2 [|w3 [|]]]]; simplify_eq; [by left|]. right.
      rinv. match goal with H : bool_decide _ = true |- _ => apply bool_decide_eq_true in H; by subst end. }
    repeat case_decide; rinv; unfold try_hours, try_days, try_weeks in *;
      match goal with H : try_seconds (?c * ?u) = Some _ |- _ =>
        rewrite (try_seconds_u32 c u) in H by lia; injection H as <-;
        exists count_str, unit_str, count, u end;
      split_and!; try done; try (unfold NANOS_PER_SEC; nia); naive_solver.
  - intros (count_str & unit_str & count & unit & Hs & Hc & Hu & -> & _).
    pose proof (parse_u32_bound _ _ Hc) as Hb.
    destruct Hs as [-> | ->]; cbn [mbind result_bind ensure]; rewrite Hc;
      cbn [ok_or mbind result_bind];
      destruct Hu as [[Hin ->]|[[Hin ->]|[Hin ->]]];
      repeat (apply elem_of_cons in Hin as [->|Hin]); try (by apply not_elem_of_nil in Hin);
      repeat case_decide; try set_solver; unfold try_hours, try_days, try_weeks;
      by rewrite try_seconds_u32 by lia.
Qed.

Lemma parse_offset_exact_witness : parse_offset "in 2 weeks" = Ok (2 * 604800 * NANOS_PER_SEC)%Z.
Proof.
  apply parse_offset_exact. exists "2", "weeks", 2%Z, 604800%Z.
  split_and!; [right; reflexivity|reflexivity| |reflexivity|unfold NANOS_PER_SEC; lia].
  right. right. split; [|reflexivity]. right. left.
Defined.
