(* ===== verification/UpdateMetadata.v ===== *)
(** * The update manifest ([sources/updater/update_metadata/src/lib.rs])

    Update waves, the manifest operations of the release tooling, and the search
    for the migrations between two versions.  Versions ([semver::Version]) are a
    type with a total order; instants and durations are integers (nanoseconds) with
    the ranges of [chrono] 0.4, outside of which its operators panic; dividing a
    duration by an integer belongs to [chrono] and is the class [TimeDiv], which
    promises the quotient up to the last unit. *)
From S2P Require Import Prelude BTree ParseDatetime.
From stdpp Require Import base numbers list strings sorting.
From stdpp Require Import options.
Local Open Scope Z_scope.

(** ** Definitions *)

Definition MAX_SEED : Z := 2048.

Inductive um_error (V : Type) :=
| InvalidFleetPercentage (provided : Z)
| BadOffset (offset : string) (source : dt_error)
| WavesUnordered
| MissingMigration (current target : V)
(** A Rust panic ([BTreeMap::range] with start after end, or arithmetic on times out
    of their range). *)
| UmPanicked
(** The recursion bound of the model was reached. *)
| UmOutOfFuel.
Arguments InvalidFleetPercentage {V}.
Arguments BadOffset {V}.
Arguments WavesUnordered {V}.
Arguments MissingMigration {V}.
Arguments UmPanicked {V}.
Arguments UmOutOfFuel {V}.

Inductive Wave :=
| Initial (end_time end_seed : Z)
| General (start_time end_time start_seed end_seed : Z)
| Last (start_time start_seed : Z).

Definition has_started (self : Wave) (time : Z) : bool :=
  match self with
  | Initial _ _ => true
  | General start_time _ _ _ | Last start_time _ => start_time <=? time
  end.

Definition has_passed (self : Wave) (time : Z) : bool :=
  match self with
  | General _ end_time _ _ | Initial end_time _ => end_time <=? time
  | Last start_time _ => start_time <=? time
  end.

Record UpdateWave := mk_update_wave { start_after : string; fleet_percentage : Z }.

Record Images := mk_images { im_boot : string; im_root : string; im_hash : string }.

Record Update (V : Type) := mk_update {
  variant : string;
  arch : string;
  version : V;
  max_version : V;
  waves : list (Z * Z);  (* BTreeMap<u32, DateTime<Utc>> *)
  images : Images }.
Arguments mk_update {V}.
Arguments variant {V}.
Arguments arch {V}.
Arguments version {V}.
Arguments max_version {V}.
Arguments waves {V}.
Arguments images {V}.

Record Manifest (V : Type) := mk_manifest {
  updates : list (Update V);
  migrations : list ((V * V) * list string)  (* BTreeMap<(Version, Version), Vec<String>> *) }.
Arguments mk_manifest {V}.
Arguments updates {V}.
Arguments migrations {V}.

(** [chrono]'s [TimeDelta / i32]: seconds and nanoseconds are divided separately,
    so the result may be one less than the quotient. *)
Class TimeDiv := {
  td_div : Z → Z → Z;
  td_div_bounds d n : 0 ≤ d → 0 < n → 0 ≤ td_div d n ∧ n * td_div d n ≤ d < n * (td_div d n + 2) }.

Definition example_time_div : TimeDiv.
Proof.
  refine {| td_div := Z.div |}. intros d n Hd Hn.
  pose proof (Z.div_pos d n Hd Hn). pose proof (Z.mul_div_le d n Hn).
  pose proof (Z.mul_succ_div_gt d n Hn). lia.
Defined.

(** The instants of [DateTime<Utc>], from [MIN_UTC], the first of the year -262143, to
    [MAX_UTC], the last of 262142. *)
Definition NANOS_PER_SEC : Z := 1000000000.
Definition MIN_UTC : Z := -8334601228800 * NANOS_PER_SEC.
Definition MAX_UTC : Z := 8210266876799 * NANOS_PER_SEC + 999999999.
Definition is_instant (t : Z) : bool := (MIN_UTC <=? t) && (t <=? MAX_UTC).

(** [DateTime + TimeDelta] and [TimeDelta * i32], whose seconds have 64 bits: [None] is
    their panic on overflow. *)
Definition datetime_add (t delta : Z) : option Z :=
  if is_instant (t + delta) then Some (t + delta) else None.
Definition delta_mul (delta n : Z) : option Z :=
  let secs := (delta * n) / NANOS_PER_SEC in
  if (- 2 ^ 63 <? secs) && (secs <? 2 ^ 63 - 1) then Some (delta * n) else None.

Definition with_waves {V} (u : Update V) (w : list (Z * Z)) : Update V :=
  mk_update (variant u) (arch u) (version u) (max_version u) w (images u).
Definition with_max_version {V} (u : Update V) (v : V) : Update V :=
  mk_update (variant u) (arch u) (version u) v (waves u) (images u).

(** *** Waves of one update *)

(** [waves.range((Included(0), Excluded(seed))).next_back()] and
    [waves.range((Included(seed), Included(MAX_SEED))).next()]. *)
Definition start_wave (w : list (Z * Z)) (seed : Z) : option (Z * Z) :=
  last (filter (λ kv, 0 ≤ kv.1 < seed) w).
Definition end_wave (w : list (Z * Z)) (seed : Z) : option (Z * Z) :=
  head (filter (λ kv, seed ≤ kv.1 ≤ MAX_SEED) w).

Definition update_wave {V} (self : Update V) (seed : Z) : result (um_error V) (option Wave) :=
  if MAX_SEED <? seed then Err UmPanicked
  else
    Ok (match start_wave (waves self) seed, end_wave (waves self) seed with
        | None, Some (end_seed, end_time) => Some (Initial end_time end_seed)
        | Some (start_seed, start_time), Some (end_seed, end_time) =>
            Some (General start_time end_time start_seed end_seed)
        | Some (start_seed, start_time), None => Some (Last start_time start_seed)
        | None, None => None
        end).

Definition update_ready `{TimeDiv} {V} (self : Update V) (seed time : Z) :
    result (um_error V) bool :=
  let? w := update_wave self seed in
  match w with
  | None => Ok true
  | Some wave =>
      if has_passed wave time then Ok true
      else if negb (has_started wave time) then Ok false
      else
        match wave with
        | General start_time end_time start_seed end_seed =>
            let wave_duration := end_time - start_time in
            let num_seeds_allocated_to_wave := end_seed - start_seed in
            if num_seeds_allocated_to_wave =? 0 then Ok true
            else
              let time_per_seed := td_div wave_duration num_seeds_allocated_to_wave in
              let? in_wave := ok_or (delta_mul time_per_seed seed) UmPanicked in
              let? target_time := ok_or (datetime_add start_time in_wave) UmPanicked in
              Ok (target_time <=? time)
        | Initial _ _ | Last _ _ => Ok true
        end
  end.

(** *** Manifest operations *)

Section manifest.
Context `{TotalOrd V}.

(** [std::cmp::max]. *)
Definition vmax (a b : V) : V := if oleb a b then b else a.

Definition matches_max (arch' variant' : option string) (u : Update V) : bool :=
  match arch', variant' with
  | Some a, Some v => bool_decide (arch u = a) && bool_decide (variant u = v)
  | Some a, None => bool_decide (arch u = a)
  | None, Some v => bool_decide (variant u = v)
  | None, None => true
  end.

Definition update_max_version (self : Manifest V) (version : V)
    (arch variant : option string) : Manifest V :=
  mk_manifest ((λ u, if matches_max arch variant u then with_max_version u version else u)
                 <$> updates self) (migrations self).

Definition add_update (self : Manifest V) (image_version : V) (max_version' : option V)
    (arch' variant' : string) (images' : Images) : Manifest V :=
  let max_version :=
    match max_version' with
    | Some v => v
    | None =>
        match head (updates self) with
        | Some update => vmax image_version (max_version update)
        | None => image_version
        end
    end in
  let update := mk_update variant' arch' image_version max_version [] images' in
  let self := update_max_version self max_version (Some arch') (Some variant') in
  mk_manifest (updates self ++ [update]) (migrations self).

(** The loop of [validate_updates] over the waves of one update. *)
Fixpoint waves_ordered (w : list (Z * Z)) : bool :=
  match w with
  | wave :: ((next :: _) as rest) => (wave.2 <? next.2) && waves_ordered rest
  | _ => true
  end.

Definition validate_updates (us : list (Update V)) : result (um_error V) unit :=
  ensure (forallb (λ u, waves_ordered (waves u)) us) WavesUnordered.

Definition matches_update (variant' arch' : string) (image_version : V) (u : Update V) : bool :=
  bool_decide (arch u = arch') && bool_decide (variant u = variant') &&
  oeqb (version u) image_version.
End manifest.

(** *** Percentages to seeds

    [(percentage as f32 / 100_f32 * MAX_SEED as f32) as u32].  A positive [f32] is
    [m * 2 ^ e] with a 24-bit [m]; the division rounds to nearest, ties to even;
    multiplying by 2048 is exact; the cast truncates. *)
Definition round_div (n d : Z) : Z :=
  let q := n / d in
  match 2 * (n mod d) ?= d with
  | Lt => q
  | Gt => q + 1
  | Eq => if Z.even q then q else q + 1
  end.

(** The exponent that gives a 24-bit quotient. *)
Definition f32_div (n d : Z) : Z * Z :=
  let e0 := Z.log2 n - Z.log2 d - 23 in
  let scaled e := if e <? 0 then round_div (n * 2 ^ (- e)) d else round_div n (d * 2 ^ e) in
  let m := scaled e0 in
  if m <? 2 ^ 23 then (scaled (e0 - 1), e0 - 1) else (m, e0).

Definition f32_to_u32 (me : Z * Z) : Z :=
  let '(m, e) := me in if e <? 0 then m / 2 ^ (- e) else m * 2 ^ e.

Definition percent_seed (fleet_percentage : Z) : Z :=
  let '(m, e) := f32_div fleet_percentage 100 in
  f32_to_u32 (m, e + 11).

Section set_waves.
Context `{TotalOrd V}.

(** The loop over the given waves, for one update; what was inserted before an
    error stays. *)
Fixpoint insert_waves (start_at : Z) (ws : list UpdateWave) (seed : Z) (m : list (Z * Z)) :
    list (Z * Z) * result (um_error V) unit :=
  match ws with
  | [] => (m, Ok tt)
  | wave :: ws =>
      if negb ((0 <? fleet_percentage wave) && (fleet_percentage wave <=? 100))
      then (m, Err (InvalidFleetPercentage (fleet_percentage wave)))
      else
        match parse_offset (start_after wave) with
        | Err e => (m, Err (BadOffset (start_after wave) e))
        | Ok offset =>
            match datetime_add start_at offset with
            | None => (m, Err UmPanicked)
            | Some time =>
                insert_waves start_at ws (percent_seed (fleet_percentage wave)) (bt_insert seed time m)
            end
        end
  end.

(** The loop over the matching updates. *)
Fixpoint set_waves_loop (is_match : Update V → bool) (start_at : Z) (ws : list UpdateWave)
    (us : list (Update V)) : list (Update V) * result (um_error V) unit :=
  match us with
  | [] => ([], Ok tt)
  | u :: us =>
      if is_match u then
        match insert_waves start_at ws 0 [] with
        | (m, Err e) => (with_waves u m :: us, Err e)
        | (m, Ok _) =>
            let '(us, r) := set_waves_loop is_match start_at ws us in
            (with_waves u m :: us, r)
        end
      else
        let '(us, r) := set_waves_loop is_match start_at ws us in (u :: us, r)
  end.

Definition set_waves (variant arch : string) (image_version : V) (start_at : Z)
    (ws : list UpdateWave) : stres (Manifest V) (um_error V) nat :=
  λ self,
    let is_match := matches_update variant arch image_version in
    let num_matching := length (filter (λ u, is_match u = true) (updates self)) in
    match set_waves_loop is_match start_at ws (updates self) with
    | (us, Err e) => (mk_manifest us (migrations self), Err e)
    | (us, Ok _) =>
        let self := mk_manifest us (migrations self) in
        (self, let? _ := validate_updates (updates self) in Ok num_matching)
    end.
End set_waves.

(** *** Finding migrations *)

Section find_migrations.
Context `{TotalOrd V}.

(** [sort_unstable_by(|(_, a), (_, b)| b.cmp(a))]: highest target first. *)
Fixpoint insert_desc (x : V * V) (l : list (V * V)) : list (V * V) :=
  match l with
  | [] => [x]
  | y :: l' => if oltb (y.2) (x.2) then x :: l else y :: insert_desc x l'
  end.
Definition sort_desc (l : list (V * V)) : list (V * V) := foldr insert_desc [] l.

Definition candidates (m : Manifest V) (from to : V) : list (V * V) :=
  filter (λ ft, ft.1 = from ∧ ole ft.2 to) (migrations m).*1.

Fixpoint find_migrations_loop (fuel : nat) (m : Manifest V) (to v : V) (targets : list string) :
    result (um_error V) (list string) :=
  if oeqb v to then Ok targets
  else
    match fuel with
    | O => Err UmOutOfFuel
    | S fuel =>
        match head (sort_desc (candidates m v to)) with
        | Some transition =>
            let targets :=
              match bt_get transition (migrations m) with
              | Some ms => targets ++ ms
              | None => targets
              end in
            find_migrations_loop fuel m to (transition.2) targets
        | None => Err (MissingMigration v to)
        end
    end.

Definition find_migrations_forward (fuel : nat) (from to : V) (m : Manifest V) :
    result (um_error V) (list string) :=
  find_migrations_loop fuel m to from [].

Definition find_migrations (fuel : nat) (from to : V) (m : Manifest V) :
    result (um_error V) (list string) :=
  if oeqb from to then Ok []
  else
    let '(lower, higher, is_reversed) :=
      match cmp from to with
      | Lt | Eq => (from, to, false)
      | Gt => (to, from, true)
      end in
    let? ms := find_migrations_forward fuel lower higher m in
    Ok (if is_reversed : bool then reverse ms else ms).
End find_migrations.

(** ** Waves *)

Section wave_facts.
Context {V : Type}.

Lemma sorted_head_least (w : list (Z * Z)) P `{∀ kv, Decision (P kv)} k t :
  bt_sorted w → head (filter P w) = Some (k, t) →
  (k, t) ∈ w ∧ P (k, t) ∧ ∀ k' t', (k', t') ∈ w → P (k', t') → k ≤ k'.
Proof.
  unfold bt_sorted. induction 1 as [|[k0 t0] w Hs IH Hf]; [done|]. rewrite filter_cons.
  rewrite Forall_forall in Hf. case_decide as Hp.
  - intros [= -> ->]. split_and!; [by left|done|]. intros k' t' [[= -> ->]|Hin]%elem_of_cons _; [done|].
    specialize (Hf _ Hin). rewrite z_olt in Hf. cbn in Hf. lia.
  - intros (Hin & Hpk & Hl)%IH. split_and!; [by right|done|].
    intros k' t' [[= -> ->]|Hin']%elem_of_cons Hp'; [done|by eapply Hl].
Qed.

Lemma sorted_last_greatest (w : list (Z * Z)) P `{∀ kv, Decision (P kv)} k t :
  bt_sorted w → last (filter P w) = Some (k, t) →
  (k, t) ∈ w ∧ P (k, t) ∧ ∀ k' t', (k', t') ∈ w → P (k', t') → k' ≤ k.
Proof.
  unfold bt_sorted. induction 1 as [|[k0 t0] w Hs IH Hf]; [done|]. rewrite filter_cons.
  rewrite Forall_forall in Hf. case_decide as Hp.
  - rewrite last_cons. destruct (last (filter P w)) as [[k1 t1]|] eqn:El.
    + intros [= -> ->]. destruct (IH eq_refl) as (Hin & Hpk & Hl). split_and!; [by right|done|].
      intros k' t' [[= -> ->]|Hin']%elem_of_cons Hp'; [|by eapply Hl].
      specialize (Hf _ Hin). rewrite z_olt in Hf. cbn in Hf. lia.
    + intros [= -> ->]. split_and!; [by left|done|].
      intros k' t' [[= -> ->]|Hin']%elem_of_cons Hp'; [done|].
      apply last_None in El. assert ((k', t') ∈ filter P w) as Hc by (by apply list_elem_of_filter).
      rewrite El in Hc. by apply not_elem_of_nil in Hc.
  - intros (Hin & Hpk & Hl)%IH. split_and!; [by right|done|].
    intros k' t' [[= -> ->]|Hin']%elem_of_cons Hp'; [done|by eapply Hl].
Qed.

Lemma filter_none (w : list (Z * Z)) P `{∀ kv, Decision (P kv)} :
  (head (filter P w) = None ∨ last (filter P w) = None) → ∀ kv, kv ∈ w → ¬ P kv.
Proof.
  intros Hn kv Hin Hp. assert (filter P w = []) as E.
  { destruct Hn as [Hn|Hn]; [by apply head_None|by apply last_None]. }
  assert (kv ∈ filter P w) as Hc by (by apply list_elem_of_filter).
  rewrite E in Hc. by apply not_elem_of_nil in Hc.
Qed.

(** What [update_wave] returns. *)
Definition wave_spec (w : list (Z * Z)) (seed : Z) (o : option Wave) : Prop :=
  match o with
  | None => ∀ k t, (k, t) ∈ w → ¬ 0 ≤ k ≤ MAX_SEED
  | Some (Initial e es) =>
      (es, e) ∈ w ∧ seed ≤ es ≤ MAX_SEED ∧ ∀ k t, (k, t) ∈ w → 0 ≤ k ≤ MAX_SEED → es ≤ k
  | Some (General s e ss es) =>
      (ss, s) ∈ w ∧ (es, e) ∈ w ∧ 0 ≤ ss < seed ∧ seed ≤ es ≤ MAX_SEED ∧
      ∀ k t, (k, t) ∈ w → 0 ≤ k ≤ MAX_SEED → k ≤ ss ∨ es ≤ k
  | Some (Last s ss) =>
      (ss, s) ∈ w ∧ 0 ≤ ss < seed ∧ ∀ k t, (k, t) ∈ w → 0 ≤ k ≤ MAX_SEED → k ≤ ss
  end.

Lemma update_wave_spec (u : Update V) seed :
  bt_sorted (waves u) → 0 ≤ seed ≤ MAX_SEED →
  ∃ o, update_wave u seed = Ok o ∧ wave_spec (waves u) seed o.
Proof.
  intros Hs Hseed. unfold update_wave.
  destruct (Z.ltb_spec MAX_SEED seed); [lia|]. eexists. split; [done|].
  destruct (start_wave (waves u) seed) as [[ss s]|] eqn:Est;
    destruct (end_wave (waves u) seed) as [[es e]|] eqn:Een; unfold start_wave, end_wave in *.
  - destruct (sorted_last_greatest _ _ _ _ Hs Est) as (H1 & H2 & H3).
    destruct (sorted_head_least _ _ _ _ Hs Een) as (H4 & H5 & H6). cbn in *.
    split_and!; try done; try lia. intros k t Hin Hk. destruct (decide (k < seed)).
    + left. by eapply H3; [|cbn; lia].
    + right. by eapply H6; [|cbn; lia].
  - destruct (sorted_last_greatest _ _ _ _ Hs Est) as (H1 & H2 & H3).
    pose proof (filter_none _ _ (or_introl Een)) as Hn. cbn in *. split_and!; try done; try lia.
    intros k t Hin Hk. eapply H3; [done|]. cbn. specialize (Hn _ Hin). cbn in Hn. lia.
  - destruct (sorted_head_least _ _ _ _ Hs Een) as (H4 & H5 & H6).
    pose proof (filter_none _ _ (or_intror Est)) as Hn. cbn in *. split_and!; try done; try lia.
    intros k t Hin Hk. eapply H6; [done|]. cbn. specialize (Hn _ Hin). cbn in Hn. lia.
  - pose proof (filter_none _ _ (or_intror Est)) as Hn1.
    pose proof (filter_none _ _ (or_introl Een)) as Hn2. cbn in *. intros k t Hin Hk.
    specialize (Hn1 _ Hin). specialize (Hn2 _ Hin). cbn in *. lia.
Qed.
End wave_facts.

(** [update_wave] finds the wave around a seed: for every valid seed it
    returns the wave whose bounds enclose the seed with no other bound between
    them, one-sided at the ends, and nothing only when there are no waves. *)
Lemma update_wave_encloses {V} (u : Update V) seed :
  bt_sorted (waves u) → 0 ≤ seed ≤ MAX_SEED →
  ∃ o, update_wave u seed = Ok o ∧ wave_spec (waves u) seed o.
Proof. apply update_wave_spec. Qed.

(** Three waves: seeds 1-512 from time 0, 513-1024 from 1000000, the rest from
    2000000. *)
Definition example_update : Update Z :=
  mk_update "aws-k8s" "x86_64" 2 2 [(0, 0); (512, 1000000); (1024, 2000000)]
    (mk_images "boot" "root" "hash").

Lemma example_waves_sorted : bt_sorted (waves example_update).
Proof. repeat constructor. Qed.

Lemma update_wave_encloses_witness :
  update_wave example_update 600 = Ok (Some (General 1000000 2000000 512 1024)) ∧
  wave_spec (waves example_update) 600 (Some (General 1000000 2000000 512 1024)).
Proof.
  destruct (update_wave_encloses example_update 600 example_waves_sorted) as (o & Ho & Hw);
    [unfold MAX_SEED; lia|].
  split; [reflexivity|].
  assert (o = Some (General 1000000 2000000 512 1024)) as -> by (vm_compute in Ho; congruence).
  exact Hw.
Defined.

(** When a wave lets a host update: [None] is the panic of a position in the wave that is
    out of the range of times. *)
Definition position `{TimeDiv} (s e ss es seed : Z) : Z := s + td_div (e - s) (es - ss) * seed.
Definition wave_ready `{TimeDiv} (w : Wave) (seed time : Z) : option bool :=
  match w with
  | Initial _ _ => Some true
  | General s e ss es =>
      if e <=? time then Some true else if time <? s then Some false
      else if is_instant (position s e ss es seed) then Some (position s e ss es seed <=? time) else None
  | Last s _ => Some (s <=? time)
  end.

(** Multiplying a duration between instants by a seed does not overflow. *)
Lemma delta_mul_ok `{TimeDiv} s e n seed :
  is_instant s = true → is_instant e = true → s ≤ e → 0 < n → 0 ≤ seed ≤ MAX_SEED →
  delta_mul (td_div (e - s) n) seed = Some (td_div (e - s) n * seed).
Proof.
  unfold is_instant. rewrite !andb_true_iff, !Z.leb_le. unfold MIN_UTC, MAX_UTC, MAX_SEED, NANOS_PER_SEC.
  intros Hs He Hse Hn Hseed. destruct (td_div_bounds (e - s) n) as [Hd0 [Hd _]]; [lia..|].
  assert (Hd1 : td_div (e - s) n ≤ e - s) by nia. set (d := td_div (e - s) n) in *. clearbody d. clear Hd.
  assert (Hm : 0 ≤ d * seed ≤ (e - s) * 2048) by nia.
  unfold delta_mul. assert (Hq : 0 ≤ d * seed / NANOS_PER_SEC < 2 ^ 62).
  { split; [apply Z.div_pos; unfold NANOS_PER_SEC; lia|]. apply Z.div_lt_upper_bound; unfold NANOS_PER_SEC; lia. }
  rewrite !(proj2 (Z.ltb_lt _ _)) by lia. done.
Qed.

Definition wave_times {V} (u : Update V) : Prop := ∀ k t, (k, t) ∈ waves u → is_instant t = true.

Lemma update_ready_wave `{TimeDiv} {V} (u : Update V) seed time o :
  wave_times u → 0 ≤ seed ≤ MAX_SEED → update_wave u seed = Ok o → wave_spec (waves u) seed o →
  update_ready u seed time = ok_or (from_option (λ w, wave_ready w seed time) (Some true) o) UmPanicked.
Proof.
  intros Hi Hseed Ho Hw. unfold update_ready. rewrite Ho. cbn [mbind result_bind].
  destruct o as [[e es|s e ss es|s ss]|]; cbn in *.
  - by destruct (e <=? time).
  - destruct Hw as (Hs & He & Hss & Hes & _). destruct (Z.leb_spec e time); [done|].
    rewrite (Z.ltb_antisym s time). destruct (Z.leb_spec s time); [|done]. cbn.
    destruct (Z.eqb_spec (es - ss) 0); [lia|].
    rewrite delta_mul_ok; [|by eapply Hi..|lia|lia|lia]. cbn. unfold datetime_add, position.
    by destruct (is_instant _).
  - by destruct (s <=? time).
  - done.
Qed.

Lemma wave_ready_mono `{TimeDiv} w seed time time' :
  time ≤ time' → wave_ready w seed time = Some true → wave_ready w seed time' = Some true.
Proof.
  intros Ht. destruct w as [e es|s e ss es|s ss]; cbn [wave_ready]; [done| |].
  - destruct (Z.leb_spec e time); [by rewrite (proj2 (Z.leb_le e time')) by lia|].
    destruct (Z.ltb_spec time s); [done|]. destruct (is_instant _); [|done]. intros [= Hp%Z.leb_le].
    destruct (e <=? time'); [done|]. rewrite (proj2 (Z.ltb_ge time' s)), (proj2 (Z.leb_le _ time')) by lia. done.
  - intros [= Hp%Z.leb_le]. by rewrite (proj2 (Z.leb_le s time')) by lia.
Qed.


Lemma example_wave_times : wave_times example_update.
Proof.
  intros k t. cbn. rewrite !elem_of_cons, elem_of_nil. by intros [[= _ ->]|[[= _ ->]|[[= _ ->]|[]]]].
Qed.


(** The position of a host inside its wave is taken from its absolute seed and not
    from its distance to the first seed of the wave.  In a wave that is no wider
    than its first seed, every host therefore waits for the whole wave (up to the
    rounding of the division). *)
Lemma late_wave_hosts_wait `{TimeDiv} {V} (u : Update V) seed time s e ss es :
  bt_sorted (waves u) → wave_times u → 0 ≤ seed ≤ MAX_SEED →
  update_wave u seed = Ok (Some (General s e ss es)) → s ≤ e → es - ss ≤ ss →
  update_ready u seed time = Ok true → e - 2 * (es - ss) < time.
Proof.
  intros Hs Hi Hseed Hu Hse Hw Hr. destruct (update_wave_spec u seed Hs Hseed) as (o & Ho & Hsp).
  rewrite Hu in Ho. injection Ho as <-. rewrite (update_ready_wave u seed time _ Hi Hseed Hu Hsp) in Hr.
  apply ok_or_Ok in Hr. cbn in Hr, Hsp. destruct (td_div_bounds (e - s) (es - ss)) as [Hd0 Hd]; [lia..|].
  destruct (Z.leb_spec e time); [lia|]. destruct (Z.ltb_spec time s); [done|].
  destruct (is_instant _); [|done]. injection Hr as Hr%Z.leb_le. unfold position in Hr. nia.
Qed.

(** The panic is real: a wave of one seed that lasts 200 years puts its last host after the end
    of time. *)
Example position_panics :
  @update_ready example_time_div _
    (mk_update "aws-k8s" "x86_64" 2 2 [(2047, 0); (2048, 200 * 31556952 * NANOS_PER_SEC)] (mk_images "boot" "root" "hash"))
    2048 1 = Err UmPanicked.
Proof. reflexivity. Qed.

Lemma late_wave_hosts_wait_witness :
  @update_ready example_time_div _ example_update 513 2000000 = Ok true ∧
  2000000 - 2 * (1024 - 512) < 2000000.
Proof.
  split; [reflexivity|].
  apply (@late_wave_hosts_wait example_time_div _ example_update 513 2000000 1000000 2000000 512 1024
    example_waves_sorted example_wave_times); [unfold MAX_SEED; lia|reflexivity|lia|lia|reflexivity].
Defined.

(** The first host of the second example wave is not ready halfway through it. *)
Example first_host_waits :
  @update_ready example_time_div _ example_update 513 1500000 = Ok false.
Proof. vm_compute. reflexivity. Qed.

Lemma percent_seed_table p :
  1 ≤ p ≤ 100 →
  percent_seed p = p * MAX_SEED / 100 ∧ 0 < percent_seed p ≤ MAX_SEED ∧
  (p < 100 → percent_seed p < percent_seed (p + 1)).
Proof.
  intros Hp.
  assert (forallb (λ n : nat, let p := Z.of_nat n in
    (percent_seed p =? p * MAX_SEED / 100) && (0 <? percent_seed p) && (percent_seed p <=? MAX_SEED) &&
    (negb (p <? 100) || (percent_seed p <? percent_seed (p + 1)))) (seq 1 100) = true) as Hall
    by (vm_compute; reflexivity).
  rewrite forallb_forall in Hall. specialize (Hall (Z.to_nat p)). rewrite Z2Nat.id in Hall by lia.
  cbv zeta in Hall. rewrite !andb_true_iff, Z.eqb_eq, Z.ltb_lt, Z.leb_le in Hall.
  destruct Hall as [[[-> H0] H1] H2]; [apply in_seq; lia|]. split_and!; [done..|].
  intros Hlt. rewrite (proj2 (Z.ltb_lt p 100)) in H2 by done. by apply Z.ltb_lt.
Qed.

Lemma percent_seed_bounds p : 1 ≤ p ≤ 100 → 0 < percent_seed p ≤ MAX_SEED.
Proof. intros Hp. by destruct (percent_seed_table p Hp) as (_ & ? & _). Qed.

(** The seed of a fleet percentage: the [f32] computation gives exactly the
    integer part of the percentage of [MAX_SEED]; it is strictly increasing and
    reaches [MAX_SEED] at 100. *)
Lemma percent_seed_exact p :
  1 ≤ p ≤ 100 →
  percent_seed p = p * MAX_SEED / 100 ∧ 0 < percent_seed p ≤ MAX_SEED ∧
  (p < 100 → percent_seed p < percent_seed (p + 1)).
Proof.
  apply percent_seed_table.
Qed.

Lemma percent_seed_exact_witness : percent_seed 1 = 20 ∧ percent_seed 1 < percent_seed 2.
Proof.
  destruct (percent_seed_exact 1) as (H1 & _ & H2); [lia|].
  split; [rewrite H1; reflexivity|apply H2; lia].
Defined.

(** ** Setting waves *)

Lemma waves_ordered_sorted w :
  waves_ordered w = true → StronglySorted (λ a b, a.2 < b.2) w.
Proof.
  induction w as [|a w IH]; [constructor|]. destruct w as [|b w]; [by repeat constructor|].
  cbn [waves_ordered] in *. rewrite andb_true_iff, Z.ltb_lt. intros [Hab Hs%IH].
  constructor; [done|]. pose proof Hs as [Hb _]%StronglySorted_cons.
  constructor; [done|]. eapply Forall_impl; [exact Hb|]. cbn. lia.
Qed.

Section set_waves_facts.
Context `{TotalOrd V}.

(** The wave map built from the given waves. *)
Lemma insert_waves_inv start_at ws seed m w r :
  bt_sorted m → Forall (λ kv, 0 ≤ kv.1 ≤ MAX_SEED) m → 0 ≤ seed ≤ MAX_SEED →
  insert_waves (V := V) start_at ws seed m = (w, r) →
  bt_sorted w ∧ Forall (λ kv, 0 ≤ kv.1 ≤ MAX_SEED) w.
Proof.
  revert seed m. induction ws as [|wv ws IH]; intros seed m Hs Hf Hseed Hi; cbn in Hi.
  { by injection Hi as <- _. }
  destruct (negb _) eqn:Ep; [by injection Hi as <- _|].
  destruct (parse_offset _) as [off|]; [|by injection Hi as <- _].
  destruct (datetime_add _ _) as [time|]; [|by injection Hi as <- _].
  apply negb_false_iff, andb_true_iff in Ep as [Hp1%Z.ltb_lt Hp2%Z.leb_le].
  eapply IH; [| | |exact Hi].
  - by apply bt_insert_sorted.
  - apply Forall_forall. intros kv [->|Hin]%bt_insert_elem; [done|]. rewrite Forall_forall in Hf. auto.
  - destruct (percent_seed_bounds (fleet_percentage wv)); lia.
Qed.

(** What the given waves say: the first wave begins with the seed 0, every other with the
    percentage of the one before, at its offset from the start. *)
Record wave_plan (start_at : Z) (ws : list UpdateWave) (seed : Z) (entries : list (Z * Z)) : Prop := {
  plan_seeds : entries.*1 = take (length ws) (seed :: ((λ w, fleet_percentage w * MAX_SEED / 100) <$> ws));
  plan_times : Forall2 (λ w e, 1 ≤ fleet_percentage w ≤ 100 ∧
    ∃ offset, parse_offset (start_after w) = Ok offset ∧ e.2 = start_at + offset ∧ is_instant e.2 = true) ws entries }.

Lemma insert_waves_plan start_at ws seed m w :
  insert_waves (V := V) start_at ws seed m = (w, Ok tt) →
  ∃ entries, wave_plan start_at ws seed entries ∧ w = foldl (λ m kv, bt_insert kv.1 kv.2 m) m entries.
Proof.
  revert seed m. induction ws as [|wv ws IH]; intros seed m Hi; cbn in Hi.
  { injection Hi as <-. exists []. split; [by split|done]. }
  destruct (negb _) eqn:Ep; [done|]. destruct (parse_offset _) as [off|] eqn:Eo; [|done].
  destruct (datetime_add _ _) as [time|] eqn:Et; [|done].
  apply negb_false_iff, andb_true_iff in Ep as [Hp1%Z.ltb_lt Hp2%Z.leb_le].
  apply IH in Hi as (entries & [Hs Ht] & ->). exists ((seed, time) :: entries). split; [|done].
  unfold datetime_add in Et. destruct (is_instant _) eqn:Ei; [|done]. injection Et as <-. split.
  - cbn. rewrite Hs. destruct (percent_seed_table (fleet_percentage wv)) as [-> _]; [lia|done].
  - constructor; [|done]. split; [lia|]. by exists off.
Qed.

Lemma set_waves_loop_Ok is_match start_at ws us us' u :
  set_waves_loop is_match start_at ws us = (us', Ok u) →
  Forall2 (λ x (x' : Update V),
    if is_match x : bool
    then ∃ w, insert_waves (V := V) start_at ws 0 [] = (w, Ok tt) ∧ x' = with_waves x w
    else x' = x) us us'.
Proof.
  revert us'. induction us as [|x us IH]; intros us' Hs; cbn in Hs.
  { by injection Hs as <-. }
  destruct (is_match x) eqn:Em.
  - destruct (insert_waves start_at ws 0 []) as [m [[]|e]] eqn:Ei; [|done].
    destruct (set_waves_loop is_match start_at ws us) as [us1 r] eqn:E. injection Hs as <- ->.
    constructor; [|by apply IH]. rewrite Em. by exists m.
  - destruct (set_waves_loop is_match start_at ws us) as [us1 r] eqn:E. injection Hs as <- ->.
    constructor; [|by apply IH]. by rewrite Em.
Qed.
End set_waves_facts.

(** A successful [set_waves]: the updates that match variant, architecture
    and version get the wave map of the given waves, all others stay as they are,
    the number of matching updates is returned, and in every update of the
    manifest later waves have later times; the new wave maps are keyed by valid
    seeds in increasing order. *)
Lemma set_waves_result `{TotalOrd V} (m m' : Manifest V) variant' arch' ver start_at ws n :
  set_waves variant' arch' ver start_at ws m = (m', Ok n) →
  n = length (filter (λ u, matches_update variant' arch' ver u = true) (updates m)) ∧ migrations m' = migrations m ∧
  Forall2 (λ u u', if matches_update variant' arch' ver u
     then bt_sorted (waves u') ∧ Forall (λ kv, 0 ≤ kv.1 ≤ MAX_SEED) (waves u') ∧
          insert_waves (V := V) start_at ws 0 [] = (waves u', Ok tt) ∧ u' = with_waves u (waves u')
     else u' = u) (updates m) (updates m') ∧
  Forall (λ u, StronglySorted (λ a b, a.2 < b.2) (waves u)) (updates m').
Proof.
  unfold set_waves. intros Hs.
  destruct (set_waves_loop _ start_at ws (updates m)) as [us [[]|e]] eqn:El; [|done].
  injection Hs as <- Hv. cbn in *. rinv. unfold validate_updates in *. rinv.
  split_and!; [done|done| |].
  - apply set_waves_loop_Ok in El. eapply Forall2_impl; [exact El|]. intros u u'. cbn.
    destruct (matches_update variant' arch' ver u); [|done]. intros (w & Hi & ->).
    destruct (insert_waves_inv (V := V) start_at ws 0 [] w (Ok tt)) as [Hsort Hb]; try done.
    + constructor.
  - match goal with H : forallb _ _ = true |- _ => rewrite forallb_forall in H; rename H into Hall end.
    apply Forall_forall. intros u Hu. apply waves_ordered_sorted, Hall. by apply list_elem_of_In.
Qed.

(** What the new wave maps hold: of each seed the last entry of the plan. *)
Lemma set_waves_planned `{TotalOrd V} (m m' : Manifest V) variant' arch' ver start_at ws n :
  set_waves variant' arch' ver start_at ws m = (m', Ok n) →
  Forall2 (λ u u', if matches_update variant' arch' ver u
     then u' = with_waves u (waves u') ∧ bt_sorted (waves u') ∧
          ∃ entries, wave_plan start_at ws 0 entries ∧
          ∀ e, e ∈ waves u' ↔ last (filter (λ e', e'.1 = e.1) entries) = Some e
     else u' = u) (updates m) (updates m').
Proof.
  intros Hs. destruct (set_waves_result _ _ _ _ _ _ _ _ Hs) as (_ & _ & Hf & _).
  eapply Forall2_impl; [exact Hf|]. intros u u'. cbn. destruct (matches_update _ _ _ u); [|done].
  intros (Hsort & _ & Hi & Hu). split_and!; [done..|].
  destruct (insert_waves_plan _ _ _ _ _ Hi) as (entries & Hp & ->). exists entries. split; [done|].
  apply bt_collect_spec.
Qed.

Lemma set_waves_result_witness :
  let m := mk_manifest [example_update] [] in
  let ws := [mk_update_wave "1 hour" 1; mk_update_wave "1 day" 100] in
  ∃ m', set_waves "aws-k8s" "x86_64" 2 0 ws m = (m', Ok 1%nat) ∧
    Forall (λ u, StronglySorted (λ a b, a.2 < b.2) (waves u)) (updates m').
Proof.
  intros m ws.
  set (r := set_waves "aws-k8s" "x86_64" 2 0 ws m).
  assert (r = (fst r, Ok 1%nat)) as Hr by (vm_compute; reflexivity).
  exists (fst r). split; [exact Hr|].
  apply (set_waves_result m (fst r) "aws-k8s" "x86_64" 2 0 ws 1%nat Hr).
Defined.

(** ** Finding migrations *)

Section migration_facts.
Context `{TotalOrd V}.

Lemma head_insert_desc (x : V * V) l :
  head (insert_desc x l) =
  Some (match head l with Some y => if oltb y.2 x.2 then x else y | None => x end).
Proof. destruct l as [|y l]; cbn; [done|]. by destruct (oltb y.2 x.2). Qed.

Lemma sort_desc_head (l : list (V * V)) :
  match head (sort_desc l) with
  | Some x => x ∈ l ∧ ∀ y, y ∈ l → ole y.2 x.2
  | None => l = []
  end.
Proof.
  induction l as [|x l IH]; [done|]. cbn [sort_desc foldr]. fold (sort_desc l).
  rewrite head_insert_desc. destruct (head (sort_desc l)) as [y|].
  - destruct IH as [Hin Hmax]. destruct (oltb y.2 x.2) eqn:E.
    + split; [by left|]. intros z [->|Hz]%elem_of_cons; [apply ole_refl|].
      apply (ole_trans _ y.2); [by apply Hmax|]. by apply olt_ole, oltb_spec.
    + split; [by right|]. intros z [->|Hz]%elem_of_cons; [|by apply Hmax].
      destruct (ole_total x.2 y.2) as [|Hle]; [done|].
      apply ole_lt_or_eq in Hle as [Hlt%oltb_spec|E2]; [congruence|]. rewrite E2. apply ole_refl.
  - subst l. split; [by left|]. intros z ->%list_elem_of_singleton. apply ole_refl.
Qed.

(** The chain the search follows: from each version the highest step that does
    not pass the target. *)
Inductive chain (m : Manifest V) (to : V) : V → list string → Prop :=
| chain_done : chain m to to []
| chain_step v t ms rest :
    v ≠ to → ((v, t), ms) ∈ migrations m → ole t to →
    (∀ t', (v, t') ∈ (migrations m).*1 → ole t' to → ole t' t) →
    chain m to t rest → chain m to v (ms ++ rest).

(** A chain that stops at a version with no step towards the target. *)
Inductive dead_end (m : Manifest V) (to : V) : V → V → Prop :=
| dead_here v : v ≠ to → (∀ t, (v, t) ∈ (migrations m).*1 → ¬ ole t to) → dead_end m to v v
| dead_step v t w :
    v ≠ to → (v, t) ∈ (migrations m).*1 → ole t to →
    (∀ t', (v, t') ∈ (migrations m).*1 → ole t' to → ole t' t) →
    dead_end m to t w → dead_end m to v w.

Lemma candidates_elem m v to ft :
  ft ∈ candidates m v to ↔ ft ∈ (migrations m).*1 ∧ ft.1 = v ∧ ole ft.2 to.
Proof. unfold candidates. rewrite list_elem_of_filter. naive_solver. Qed.

(** One round of the search. *)
Lemma best_step m v to :
  match head (sort_desc (candidates m v to)) with
  | Some (f, t) => f = v ∧ (v, t) ∈ (migrations m).*1 ∧ ole t to ∧
      ∀ t', (v, t') ∈ (migrations m).*1 → ole t' to → ole t' t
  | None => ∀ t, (v, t) ∈ (migrations m).*1 → ¬ ole t to
  end.
Proof.
  pose proof (sort_desc_head (candidates m v to)) as Hh.
  destruct (head _) as [[f t]|].
  - destruct Hh as [(Hin & <- & Hle)%candidates_elem Hmax]. cbn in *. split_and!; [done..|].
    intros t' Hin' Hle'. apply (Hmax (f, t')). by apply candidates_elem.
  - intros t Hin Hle. assert ((v, t) ∈ candidates m v to) as Hc by (by apply candidates_elem).
    rewrite Hh in Hc. by apply not_elem_of_nil in Hc.
Qed.

Lemma find_migrations_loop_spec fuel m to v targets :
  bt_sorted (migrations m) →
  match find_migrations_loop fuel m to v targets with
  | Ok res => ∃ rest, res = targets ++ rest ∧ chain m to v rest
  | Err (MissingMigration cur tgt) => tgt = to ∧ dead_end m to v cur
  | Err UmOutOfFuel => True
  | Err _ => False
  end.
Proof.
  intros Hs. revert v targets. induction fuel as [|fuel IH]; intros v targets; cbn;
    (destruct (oeqb v to) eqn:E;
      [apply oeqb_spec in E as ->; exists []; rewrite app_nil_r; split; [done|constructor]|]); [done|].
  assert (v ≠ to) as Hne by (intros Heq%oeqb_spec; congruence).
  pose proof (best_step m v to) as Hb. destruct (head _) as [[f t]|].
  2: { split; [done|]. by constructor. }
  destruct Hb as (-> & Hin & Hle & Hmax). cbn [snd].
  apply list_elem_of_fmap in Hin as ([ft ms] & E2 & Hms). cbn in E2. subst ft.
  assert ((v, t) ∈ (migrations m).*1) as Hin by (apply list_elem_of_fmap; by exists ((v, t), ms)).
  rewrite (proj2 (bt_get_elem (v, t) ms (migrations m) Hs) Hms).
  specialize (IH t (targets ++ ms)). destruct (find_migrations_loop _ _ _ _ _) as [res|e].
  - destruct IH as (rest & -> & Hc). exists (ms ++ rest). rewrite app_assoc. split; [done|].
    by econstructor.
  - destruct e as [| | |cur tgt| |]; try done. destruct IH as [-> Hd]. split; [done|].
    by eapply dead_step.
Qed.
End migration_facts.

Section migration_termination.
Context `{TotalOrd V}.

(** The migrations that start at or after a version. *)
Definition remaining (m : Manifest V) (v : V) : nat :=
  length (filter (λ ft, ole v ft.1) (migrations m).*1).

Lemma filter_length_lt {A} (P Q : A → Prop) `{∀ x, Decision (P x), ∀ x, Decision (Q x)} l x :
  (∀ y, P y → Q y) → x ∈ l → Q x → ¬ P x → (length (filter P l) < length (filter Q l))%nat.
Proof.
  intros HPQ Hin HQ HP.
  assert (∀ l, (length (filter P l) ≤ length (filter Q l))%nat) as Hle.
  { clear -HPQ. intros l. induction l as [|y l IH]; [done|]. rewrite !filter_cons.
    repeat case_decide; cbn; try lia. naive_solver. }
  induction Hin as [x l|x y l Hin IH]; rewrite !filter_cons.
  - rewrite (decide_False (P := P x)), (decide_True (P := Q x)) by done. cbn. specialize (Hle l). lia.
  - specialize (IH HQ HP). repeat case_decide; cbn; try lia. naive_solver.
Qed.

Lemma find_migrations_loop_fuel fuel m to v targets :
  (∀ f t, (f, t) ∈ (migrations m).*1 → olt f t) → (remaining m v < fuel)%nat →
  find_migrations_loop fuel m to v targets ≠ Err UmOutOfFuel.
Proof.
  intros Hup. revert v targets. induction fuel as [|fuel IH]; intros v targets Hf; [lia|].
  cbn. destruct (oeqb v to); [done|]. pose proof (best_step m v to) as Hb.
  destruct (head _) as [[f t]|]; [|done]. destruct Hb as (-> & Hin & _). apply IH.
  apply (Nat.lt_le_trans _ (remaining m v)); [|lia]. cbn [snd].
  apply (filter_length_lt _ _ _ (v, t)); [|done|apply ole_refl|].
  - intros [a b]. cbn. intros Hab. apply (ole_trans _ t); [|done]. by apply olt_ole, Hup.
  - cbn. rewrite not_ole. by apply Hup.
Qed.

Lemma remaining_le m v : (remaining m v ≤ length (migrations m))%nat.
Proof.
  unfold remaining. etrans; [apply length_filter|]. by rewrite length_fmap.
Qed.
End migration_termination.

(** The search ends: when every migration leads to a higher version, as many
    rounds as there are migrations (and one more) are enough, in either
    direction. *)
Lemma find_migrations_terminates `{TotalOrd V} fuel (from to : V) m :
  (∀ f t, (f, t) ∈ (migrations m).*1 → olt f t) → (length (migrations m) < fuel)%nat →
  find_migrations fuel from to m ≠ Err UmOutOfFuel.
Proof.
  intros Hup Hf. unfold find_migrations, find_migrations_forward. destruct (oeqb from to); [done|].
  assert (∀ to v, find_migrations_loop fuel m to v [] ≠ Err UmOutOfFuel) as Hl.
  { intros to' v. apply find_migrations_loop_fuel; [done|]. pose proof (remaining_le m v). lia. }
  destruct (cmp from to); cbn.
  - specialize (Hl to from). destruct (find_migrations_loop _ _ _ _ _); cbn; congruence.
  - specialize (Hl to from). destruct (find_migrations_loop _ _ _ _ _); cbn; congruence.
  - specialize (Hl from to). destruct (find_migrations_loop _ _ _ _ _); cbn; congruence.
Qed.

(** Every entry leads to a higher version, or some entry does not. *)
Lemma upward_dec `{TotalOrd V} (m : Manifest V) :
  (∀ f t, (f, t) ∈ (migrations m).*1 → olt f t) ∨ ∃ f t, (f, t) ∈ (migrations m).*1 ∧ ¬ olt f t.
Proof.
  induction (migrations m).*1 as [|[f t] l IH]; [left; by intros f t ?%not_elem_of_nil|].
  destruct (oltb f t) eqn:E.
  - apply oltb_spec in E. destruct IH as [IH|(f' & t' & Hin & Hn)].
    + left. intros f' t' [[= -> ->]|Hin]%elem_of_cons; [done|by apply IH].
    + right. exists f', t'. split; [by right|done].
  - right. exists f, t. split; [by left|]. intros Hlt%oltb_spec. congruence.
Qed.

(** C36. What [find_migrations] finds: going up, the list is the concatenation of
    the migrations along a chain of manifest entries from the lower to the higher
    version, each step being the highest that does not pass the target; going
    down, it is the reverse of the list for the way up.  A missing migration is
    reported at a version that the chain reaches and cannot leave.  The search ends: it runs
    out of the model's bound only when that is not above the number of manifest entries, or
    when some entry does not lead to a higher version. *)
Theorem find_migrations_chain `{TotalOrd V} fuel (from to : V) m :
  bt_sorted (migrations m) →
  let lower := if oleb from to then from else to in
  let higher := if oleb from to then to else from in
  match find_migrations fuel from to m with
  | Ok res => chain m higher lower (if oleb from to then res else reverse res)
  | Err (MissingMigration cur tgt) => tgt = higher ∧ dead_end m higher lower cur
  | Err UmOutOfFuel => (fuel ≤ length (migrations m))%nat ∨ ∃ f t, (f, t) ∈ (migrations m).*1 ∧ ¬ olt f t
  | Err _ => False
  end.
Proof.
  intros Hs. assert (Hfuel : find_migrations fuel from to m = Err UmOutOfFuel →
    (fuel ≤ length (migrations m))%nat ∨ ∃ f t, (f, t) ∈ (migrations m).*1 ∧ ¬ olt f t).
  { intros E. destruct (decide (fuel ≤ length (migrations m))%nat) as [|Hf]; [by left|right].
    destruct (upward_dec m) as [Hup|]; [|done]. by apply find_migrations_terminates in E; [|done|lia]. }
  revert Hfuel. unfold find_migrations, find_migrations_forward. destruct (oeqb from to) eqn:E; intros Hfuel.
  { apply oeqb_spec in E as ->. rewrite (proj2 (oleb_spec to to)) by apply ole_refl. constructor. }
  assert (cmp from to ≠ Eq) as Hne by (intros Heq; unfold oeqb in E; by rewrite Heq in E).
  unfold oleb. destruct (cmp from to); [done| |].
  - pose proof (find_migrations_loop_spec fuel m to from [] Hs) as Hl.
    destruct (find_migrations_loop _ _ _ _ _) as [res|[]]; cbn in *; try done; [|by apply Hfuel].
    by destruct Hl as (rest & -> & Hc).
  - pose proof (find_migrations_loop_spec fuel m from to [] Hs) as Hl.
    destruct (find_migrations_loop _ _ _ _ _) as [res|[]]; cbn in *; try done; [|by apply Hfuel].
    rewrite reverse_involutive. by destruct Hl as (rest & -> & Hc).
Qed.

(** Migrations 1 -> 2 -> 4 and 1 -> 3. *)
Definition example_manifest : Manifest Z :=
  mk_manifest [] [((1, 2), ["a"; "b"]); ((1, 3), ["c"]); ((2, 4), ["d"]); ((3, 5), ["e"])].

Lemma find_migrations_chain_witness :
  find_migrations 9 5 1 example_manifest = Ok ["e"; "c"] ∧
  chain example_manifest 5 1 ["c"; "e"].
Proof.
  split; [reflexivity|].
  pose proof (find_migrations_chain 9 5 1 example_manifest) as Hc. apply Hc. repeat constructor.
Defined.

Lemma find_migrations_terminates_witness :
  find_migrations 5 1 4 example_manifest ≠ Err UmOutOfFuel.
Proof.
  apply find_migrations_terminates; [|cbn; lia]. intros f t Hin. apply z_olt.
  vm_compute in Hin. repeat (apply elem_of_cons in Hin as [[= -> ->]|Hin]; [lia|]).
  by apply not_elem_of_nil in Hin.
Defined.

(** The greedy choice can miss an existing chain: 1 -> 2 -> 4 exists, but the search
    steps to 3, from where 4 cannot be reached. *)
Example greedy_misses_chain :
  find_migrations 9 1 4 example_manifest = Err (MissingMigration 3 4).
Proof. reflexivity. Qed.

(** A migration from a version to itself makes the search loop for ever. *)
Theorem self_migration_diverges fuel :
  find_migrations fuel 1 2 (mk_manifest [] [((1, 1), ["a"])]) = Err UmOutOfFuel.
Proof.
  unfold find_migrations, find_migrations_forward.
  assert (∀ targets, find_migrations_loop fuel (mk_manifest [] [((1, 1), ["a"])]) 2 1 targets
                     = Err UmOutOfFuel) as Hl.
  { induction fuel as [|fuel IH]; intros targets; [done|]. apply IH. }
  cbn. by rewrite Hl.
Qed.
