(* ===== verification/Updog.v ===== *)
(** * The update client ([sources/updater/updog/src/])

    Choosing an update from the manifest ([applicable_updates],
    [update_required]), fetching its migrations, writing its images to the
    inactive partition set and switching the boot flags, up to [main_inner].
    The TUF repository ([tough]), the decoder ([lz4]), version strings
    ([semver], [FriendlyVersion]) and the unstable sort are parameters; every
    fallible read or write of the machine takes the next outcome of the list
    [io] of the world, so that a theorem about all worlds covers a failure at
    any point. *)
From S2P Require Import Prelude BTree UpdateMetadata GptPrio Signpost.
From stdpp Require Import base numbers list strings gmap sorting.
From stdpp Require Import options.

(** ** Definitions *)

Inductive Command :=
| CheckUpdate
| Whats
| Prepare
| Update'
| UpdateImage
| UpdateApply
| UpdateRevert.

(** The kebab-case names of the derived [Deserialize]. *)
Definition command_from_str (s : string) : option Command :=
  if decide (s = "check-update") then Some CheckUpdate
  else if decide (s = "whats") then Some Whats
  else if decide (s = "prepare") then Some Prepare
  else if decide (s = "update") then Some Update'
  else if decide (s = "update-image") then Some UpdateImage
  else if decide (s = "update-apply") then Some UpdateApply
  else if decide (s = "update-revert") then Some UpdateRevert
  else None.

Inductive updog_error (V : Type) :=
| ConfigRead
| ReleaseVersion
| RepositoryLoad
| ManifestLoad
| BadVersionConfig (version_str : string)
| BadVersion (version_str : string)
| UpdateNotAvailable
| UpdateMetadata (source : um_error V)
| DirCreate
| RepoCacheMigrations
| TargetName (target : string)
| Metadata
| TargetNotFound (target : string)
| Lz4Decode (target : string)
| OpenPartition (path : string)
| WriteUpdate
(** [None] when the disk could not be read or written at all. *)
| PartitionTableRead (source : option sp_error)
| PartitionTableWrite
| InactivePartitionMissing
| InactivePartitionUpgrade (source : sp_error)
| RebootFailure
(** [usage()] ends the process. *)
| Usage
(** A Rust panic. *)
| UpdogPanicked.
Arguments ConfigRead {V}.
Arguments ReleaseVersion {V}.
Arguments RepositoryLoad {V}.
Arguments ManifestLoad {V}.
Arguments BadVersionConfig {V}.
Arguments BadVersion {V}.
Arguments UpdateNotAvailable {V}.
Arguments UpdateMetadata {V}.
Arguments DirCreate {V}.
Arguments RepoCacheMigrations {V}.
Arguments TargetName {V}.
Arguments Metadata {V}.
Arguments TargetNotFound {V}.
Arguments Lz4Decode {V}.
Arguments OpenPartition {V}.
Arguments WriteUpdate {V}.
Arguments PartitionTableRead {V}.
Arguments PartitionTableWrite {V}.
Arguments InactivePartitionMissing {V}.
Arguments InactivePartitionUpgrade {V}.
Arguments RebootFailure {V}.
Arguments Usage {V}.
Arguments UpdogPanicked {V}.

Record Config := mk_config {
  metadata_base_url : string;
  targets_base_url : string;
  seed : Z;
  version_lock : string;
  cfg_ignore_waves : bool;
  https_proxy : option string;
  no_proxy : option (list string) }.

Record Arguments (V : Type) := mk_arguments {
  subcommand : string;
  log_level : string;
  json : bool;
  ignore_waves : bool;
  force_version : option V;
  all : bool;
  reboot : bool;
  arg_variant : option string }.
Arguments mk_arguments {V}.
Arguments subcommand {V}.
Arguments log_level {V}.
Arguments json {V}.
Arguments ignore_waves {V}.
Arguments force_version {V}.
Arguments all {V}.
Arguments reboot {V}.
Arguments arg_variant {V}.

(** [semver::Version::{parse, to_string}] and [FriendlyVersion]'s two conversions. *)
Class VersionText (V : Type) := {
  version_parse : string → option V;
  version_to_string : V → string;
  friendly_try_from : string → option string;
  friendly_try_into : string → option V }.

(** [slice::sort_unstable_by] on updates, highest version first: some ordering
    of the same elements in which no version is above its predecessor's. *)
Class UnstableSort (V : Type) `{TotalOrd V} := {
  sort_by_version_desc : list (Update V) → list (Update V);
  sort_perm l : sort_by_version_desc l ≡ₚ l;
  sort_desc_sorted l :
    StronglySorted (λ a b, ole (version b) (version a)) (sort_by_version_desc l) }.

(** A repository of [tough], as its targets are used here, and the [lz4] decoder:
    the bytes decoded before the stream ends or fails, and whether it ended. *)
Record Repository := mk_repository {
  valid_target_name : string → bool;
  read_target : string → result () (option string);
  lz4_header_ok : string → bool;
  lz4_decode : string → string * bool }.

(** The outcome of one read, write or spawned process.  A write that fails may
    have happened already ([reached]), or have written some bytes. *)
Inductive Outcome :=
| IoOk
| IoFailed (reached : bool) (partial : string).

Record World (G : Type) := mk_world {
  disk_table : G;
  devices : gmap string string;
  migration_dir : bool;
  cached_targets : option (list string);
  query_params : list (string * string);
  shutdown_started : bool;
  io : list Outcome }.
Arguments mk_world {G}.
Arguments disk_table {G}.
Arguments devices {G}.
Arguments migration_dir {G}.
Arguments cached_targets {G}.
Arguments query_params {G}.
Arguments shutdown_started {G}.
Arguments io {G}.

(** What [State::load] finds out about the machine before it reads the table. *)
Record Machine := mk_machine {
  m_os_disk : string;
  m_active_partition : string;
  m_partition : Z → result sp_error (option string) }.

(** What a run prints. *)
Inductive Output (V : Type) :=
| Silent
| ListUpdates (us : list (Update V))
| ShowUpdate (u : Update V)
| Applied (u : Update V)
| NoUpdateRequired.
Arguments Silent {V}.
Arguments ListUpdates {V}.
Arguments ShowUpdate {V}.
Arguments Applied {V}.
Arguments NoUpdateRequired {V}.

(** *** Choosing the update *)

Section choose.
Context `{TotalOrd V} `{!UnstableSort V} `{!VersionText V} `{TimeDiv}.
Variable TARGET_ARCH : string.

(** The filter of [applicable_updates]; [clock n] is the reading of the clock
    for the [n]th update. *)
Definition is_applicable (variant' : string) (ignore_waves : bool) (seed now : Z)
    (u : Update V) : result (um_error V) bool :=
  if bool_decide (variant u = variant') && bool_decide (arch u = TARGET_ARCH) &&
     oleb (version u) (max_version u)
  then if ignore_waves then Ok true else update_ready u seed now
  else Ok false.

Fixpoint filter_applicable (variant : string) (ignore_waves : bool) (seed : Z)
    (clock : nat → Z) (n : nat) (us : list (Update V)) :
    result (um_error V) (list (Update V)) :=
  match us with
  | [] => Ok []
  | u :: us =>
      let? b := is_applicable variant ignore_waves seed (clock n) u in
      let? us := filter_applicable variant ignore_waves seed clock (S n) us in
      Ok (if b : bool then u :: us else us)
  end.

Definition applicable_updates (manifest : Manifest V) (variant : string) (ignore_waves : bool)
    (seed : Z) (clock : nat → Z) : result (updog_error V) (list (Update V)) :=
  let? us := map_err (λ _, UpdogPanicked)
    (filter_applicable variant ignore_waves seed clock 0 (updates manifest)) in
  Ok (sort_by_version_desc us).

Fixpoint find_update (p : Update V → bool) (us : list (Update V)) : option (Update V) :=
  match us with
  | [] => None
  | u :: us => if p u then Some u else find_update p us
  end.

(** The condition of the loop of [update_required]. *)
Definition is_upgrade (current : V) (u : Update V) : bool :=
  oltb current (version u) || oltb (max_version u) current.

Definition update_required (manifest : Manifest V) (current : V) (variant : string)
    (ignore_waves : bool) (seed : Z) (clock : nat → Z) (version_lock : string)
    (force_version : option V) : result (updog_error V) (option (Update V)) :=
  let? updates := applicable_updates manifest variant ignore_waves seed clock in
  match force_version with
  | Some forced_version => Ok (find_update (λ u, oeqb (version u) forced_version) updates)
  | None =>
      if decide (version_lock ≠ "latest") then
        let? friendly_version_lock :=
          ok_or (friendly_try_from version_lock) (BadVersionConfig version_lock) in
        let? semver_version_lock :=
          ok_or (friendly_try_into friendly_version_lock) (BadVersion version_lock) in
        if oeqb semver_version_lock current then Ok None
        else Ok (find_update (λ u, oeqb (version u) semver_version_lock) updates)
      else Ok (find_update (is_upgrade current) updates)
  end.
End choose.

(** *** The world *)

Section world.
Context {G V : Type}.
Abbreviation M := (stres (World G) (updog_error V)).

Definition with_table (t : G) (w : World G) : World G :=
  mk_world t (devices w) (migration_dir w) (cached_targets w) (query_params w)
    (shutdown_started w) (io w).
Definition with_devices (d : gmap string string) (w : World G) : World G :=
  mk_world (disk_table w) d (migration_dir w) (cached_targets w) (query_params w)
    (shutdown_started w) (io w).
Definition with_migration_dir (w : World G) : World G :=
  mk_world (disk_table w) (devices w) true (cached_targets w) (query_params w)
    (shutdown_started w) (io w).
Definition with_cached (ts : list string) (w : World G) : World G :=
  mk_world (disk_table w) (devices w) (migration_dir w) (Some ts) (query_params w)
    (shutdown_started w) (io w).
Definition with_shutdown (w : World G) : World G :=
  mk_world (disk_table w) (devices w) (migration_dir w) (cached_targets w) (query_params w)
    true (io w).

(** The outcome of the next operation. *)
Definition next_io : M Outcome := λ w,
  let w' l := mk_world (disk_table w) (devices w) (migration_dir w) (cached_targets w)
                (query_params w) (shutdown_started w) l in
  match io w with
  | [] => (w, Ok IoOk)
  | o :: l => (w' l, Ok o)
  end.

Definition modify (f : World G → World G) : M () := λ w, (f w, Ok tt).
Definition fail {A} (e : updog_error V) : M A := st_lift (Err e).

(** [QueryParams::add]. *)
Definition add_param (key val : string) : M () :=
  modify (λ w, mk_world (disk_table w) (devices w) (migration_dir w) (cached_targets w)
                 (query_params w ++ [(key, val)]) (shutdown_started w) (io w)).
End world.

(** [QueryParams::add_params_to_url]: a stable sort by name, in place, whose result
    is appended to the URL. *)
Fixpoint insert_param (p : string * string) (l : list (string * string)) :
    list (string * string) :=
  match l with
  | [] => [p]
  | q :: l' => if String.leb p.1 q.1 then p :: l else q :: insert_param p l'
  end.
Definition sort_params (l : list (string * string)) : list (string * string) :=
  foldr insert_param [] l.

(** *** Writing images and flags *)

(** A write of [bytes] at the start of a device. *)
Definition overwrite (bytes old : string) : string :=
  bytes +:+ str_drop (str_len bytes) old.

Section disk.
Context `{BitField} `{Gpt G} {V : Type}.
Variable machine : Machine.
Abbreviation M := (stres (World G) (updog_error V)).

(** [State::load] of a table that could be read. *)
Definition load_table (t : G) : result sp_error (State G) :=
  load_sets (m_os_disk machine) (m_active_partition machine) (m_partition machine) t.

(** [State::load]. *)
Definition load_state : M (State G) :=
  let! o := next_io in
  match o with
  | IoOk => λ w, (w, map_err (λ e, PartitionTableRead (Some e)) (load_table (disk_table w)))
  | IoFailed _ _ => fail (PartitionTableRead None)
  end.

(** [State::write]. *)
Definition write_state (gpt_state : State G) : M () :=
  let! o := next_io in
  match o with
  | IoOk => modify (with_table (table gpt_state))
  | IoFailed reached _ =>
      let! _ := modify (if reached : bool then with_table (table gpt_state) else id) in
      fail PartitionTableWrite
  end.

(** A call on the state with its error turned into one of [updog]. *)
Definition run_on (op : stres (State G) sp_error ()) (f : sp_error → updog_error V)
    (gpt_state : State G) : M (State G) :=
  match op gpt_state with
  | (gpt_state', Ok _) => st_ret gpt_state'
  | (_, Err SpPanicked) => fail UpdogPanicked
  | (_, Err e) => fail (f e)
  end.

Definition write_target_to_disk (repository : Repository) (target disk_path : string) : M () :=
  let! _ := st_lift (ensure (valid_target_name repository target) (TargetName target)) in
  let! stream := st_lift (map_err (λ _, Metadata) (read_target repository target)) in
  let! stream := st_lift (ok_or stream (TargetNotFound target)) in
  let! _ := st_lift (ensure (lz4_header_ok repository stream) (Lz4Decode target)) in
  let! o := next_io in
  match o with
  | IoFailed _ _ => fail (OpenPartition disk_path)
  | IoOk =>
      let '(bytes, complete) := lz4_decode repository stream in
      let! o := next_io in
      let written := match o with IoOk => bytes | IoFailed _ partial => partial end in
      let! _ := modify (λ w, with_devices
                  (<[disk_path := overwrite written (default EmptyString (devices w !! disk_path))]>
                     (devices w)) w) in
      match o with
      | IoOk => st_lift (ensure complete WriteUpdate)
      | IoFailed _ _ => fail WriteUpdate
      end
  end.

Definition update_image (update : Update V) (repository : Repository) : M () :=
  let! gpt_state := load_state in
  let! gpt_state := run_on clear_inactive (λ _, InactivePartitionMissing) gpt_state in
  let! _ := write_state gpt_state in
  let! inactive := st_lift (ok_or (inactive_set gpt_state) InactivePartitionMissing) in
  let! _ := write_target_to_disk repository (im_root (images update)) (root inactive) in
  let! _ := write_target_to_disk repository (im_boot (images update)) (boot inactive) in
  let! _ := write_target_to_disk repository (im_hash (images update)) (hash inactive) in
  let! gpt_state := run_on mark_inactive_valid (λ _, InactivePartitionMissing) gpt_state in
  write_state gpt_state.

Definition update_flags : M () :=
  let! gpt_state := load_state in
  let! gpt_state := run_on upgrade_to_inactive InactivePartitionUpgrade gpt_state in
  write_state gpt_state.

Definition revert_update_flags : M () :=
  let! gpt_state := load_state in
  let! gpt_state := run_on cancel_upgrade (λ _, InactivePartitionMissing) gpt_state in
  write_state gpt_state.

Definition initiate_reboot : M () :=
  let! o := next_io in
  match o with
  | IoOk => modify with_shutdown
  | IoFailed _ _ => fail RebootFailure
  end.

(** *** Fetching migrations *)

(** The search is bounded by the number of migrations; the bound is only reached
    when the code would not return ([find_migrations_terminates]). *)
Definition migration_fuel (m : Manifest V) : nat := S (length (migrations m)).

Definition retrieve_migrations `{TotalOrd V} (manifest : Manifest V) (update : Update V)
    (current_version : V) : M () :=
  let target := vmax (version update) current_version in
  let start := if oleb (version update) current_version then version update else current_version in
  let! _ := λ w,
    if migration_dir w then (w, Ok tt)
    else (let! o := next_io in
          match o with
          | IoOk => modify with_migration_dir
          | IoFailed _ _ => fail DirCreate
          end) w in
  let! targets := st_lift (map_err UpdateMetadata
    (find_migrations (migration_fuel manifest) start target manifest)) in
  let targets := targets ++ ["manifest.json"] in
  let! o := next_io in
  match o with
  | IoOk =>
      let! _ := modify (with_cached targets) in
      add_param "migrations" (str_join "," targets)
  | IoFailed _ _ => fail RepoCacheMigrations
  end.
End disk.

(** *** The command line *)

Section args.
Context `{VersionText V}.
Variable level_ok : string → bool.

Definition log_level_or_info (o : option string) : string := default "info" o.

(** The loop of [parse_args] over the arguments after the program's name; the
    failures are calls of [usage()]. *)
Fixpoint parse_args_loop (iter : list string) (sub level : option string)
    (a : Arguments V) : option (option string * option string * Arguments V) :=
  match iter with
  | [] => Some (sub, level, a)
  | arg :: iter =>
      if decide (arg = "--log-level") then
        match iter with
        | l :: iter => if level_ok l then parse_args_loop iter sub (Some l) a else None
        | [] => None
        end
      else if decide (arg = "-i" ∨ arg = "--image") then
        match iter with
        | v :: iter =>
            match version_parse v with
            | Some v =>
                parse_args_loop iter sub level
                  (mk_arguments (subcommand a) (log_level a) (json a) (ignore_waves a) (Some v)
                     (all a) (reboot a) (arg_variant a))
            | None => None
            end
        | [] => None
        end
      else if decide (arg = "--variant") then
        match iter with
        | v :: iter =>
            parse_args_loop iter sub level
              (mk_arguments (subcommand a) (log_level a) (json a) (ignore_waves a)
                 (force_version a) (all a) (reboot a) (Some v))
        | [] => None
        end
      else if decide (arg = "-n" ∨ arg = "--now" ∨ arg = "--ignore-waves") then
        parse_args_loop iter sub level
          (mk_arguments (subcommand a) (log_level a) (json a) true (force_version a)
             (all a) (reboot a) (arg_variant a))
      else if decide (arg = "-j" ∨ arg = "--json") then
        parse_args_loop iter sub level
          (mk_arguments (subcommand a) (log_level a) true (ignore_waves a) (force_version a)
             (all a) (reboot a) (arg_variant a))
      else if decide (arg = "-r" ∨ arg = "--reboot") then
        parse_args_loop iter sub level
          (mk_arguments (subcommand a) (log_level a) (json a) (ignore_waves a) (force_version a)
             (all a) true (arg_variant a))
      else if decide (arg = "-a" ∨ arg = "--all") then
        parse_args_loop iter sub level
          (mk_arguments (subcommand a) (log_level a) (json a) (ignore_waves a) (force_version a)
             true (reboot a) (arg_variant a))
      else if negb (str_starts_with arg "-") then
        match sub with
        | Some _ => None
        | None => parse_args_loop iter (Some arg) level a
        end
      else None
  end.

Definition parse_args (args : list string) : option (Arguments V) :=
  match parse_args_loop (tail args) None None
          (mk_arguments EmptyString EmptyString false false None false false None) with
  | Some (Some sub, level, a) =>
      Some (mk_arguments sub (log_level_or_info level) (json a) (ignore_waves a)
              (force_version a) (all a) (reboot a) (arg_variant a))
  | _ => None
  end.
End args.

(** The environment variables the HTTP client reads. *)
Definition set_https_proxy_environment_variables (https_proxy : option string)
    (no_proxy : option (list string)) (env : gmap string string) : gmap string string :=
  match https_proxy with
  | Some s =>
      if str_is_empty s then env
      else
        let env := <["HTTPS_PROXY" := s]> env in
        match no_proxy with
        | Some ((_ :: _) as l) => <["NO_PROXY" := str_join "," l]> env
        | _ => env
        end
  | None => env
  end.

(** *** [main_inner] *)

Section main.
Context `{BitField} `{Gpt G} `{TotalOrd V} `{!UnstableSort V} `{!VersionText V} `{TimeDiv}.
Variable TARGET_ARCH : string.
Variable machine : Machine.
Variable u32_to_string : Z → string.
Abbreviation M := (stres (World G) (updog_error V)).

(** What the run reads before it dispatches: the configuration file, the release
    (version and variant), the repository and its manifest. *)
Record Inputs := mk_inputs {
  in_config : result (updog_error V) Config;
  in_release : result (updog_error V) (V * string);
  in_repository : result (updog_error V) Repository;
  in_manifest : result (updog_error V) (Manifest V);
  in_clock : nat → Z }.

Definition set_common_query_params (current_version : V) (config : Config) : M () :=
  let! _ := add_param "version" (version_to_string current_version) in
  add_param "seed" (u32_to_string (seed config)).

(** [if arguments.reboot { initiate_reboot() }] *)
Definition reboot_if (b : bool) : M () := if b then initiate_reboot else st_ret tt.

Definition main_inner (arguments : Arguments V) (i : Inputs) : M (Output V) :=
  let! command := st_lift (ok_or (command_from_str (subcommand arguments)) Usage) in
  let! config := st_lift (in_config i) in
  let! release := st_lift (in_release i) in
  let '(version_id, variant_id) := release in
  let variant := default variant_id (arg_variant arguments) in
  let! _ := set_common_query_params version_id config in
  let! repository := st_lift (in_repository i) in
  let! manifest := st_lift (in_manifest i) in
  let ignore_waves := ignore_waves arguments || cfg_ignore_waves config in
  let required := update_required TARGET_ARCH manifest version_id variant ignore_waves
                    (seed config) (in_clock i) (version_lock config) (force_version arguments) in
  match command with
  | CheckUpdate | Whats =>
      if all arguments then
        let! us := st_lift (applicable_updates TARGET_ARCH manifest variant ignore_waves
                              (seed config) (in_clock i)) in
        st_ret (ListUpdates us)
      else
        let! o := st_lift required in
        let! u := st_lift (ok_or o UpdateNotAvailable) in
        st_ret (ShowUpdate u)
  | Update' | UpdateImage =>
      let! o := st_lift required in
      match o with
      | Some u =>
          let! _ := add_param "target" (version_to_string (version u)) in
          let! _ := retrieve_migrations manifest u version_id in
          let! _ := update_image machine u repository in
          let! _ := match command with
                    | Update' =>
                        let! _ := update_flags machine in reboot_if (reboot arguments)
                    | _ => st_ret tt
                    end in
          st_ret (Applied u)
      | None => st_ret NoUpdateRequired
      end
  | UpdateApply =>
      let! _ := update_flags machine in
      let! _ := reboot_if (reboot arguments) in
      st_ret Silent
  | UpdateRevert =>
      let! _ := revert_update_flags machine in st_ret Silent
  | Prepare => st_ret Silent
  end.
End main.

(** ** Choosing the update *)

Section choose_facts.
Context `{TotalOrd V} `{!UnstableSort V} `{!VersionText V} `{TimeDiv}.
Variable TARGET_ARCH : string.

(** An update of the manifest this host may take now. *)
Definition applicable (m : Manifest V) (variant' : string) (ignore_waves : bool) (seed : Z)
    (clock : nat → Z) (u : Update V) : Prop :=
  ∃ n, updates m !! n = Some u ∧ variant u = variant' ∧ arch u = TARGET_ARCH ∧
    ole (version u) (max_version u) ∧
    (ignore_waves = true ∨ update_ready u seed (clock n) = Ok true).

Definition lock_version (version_lock : string) : option V :=
  friendly_try_from version_lock ≫= friendly_try_into.

(** The updates the arguments and the configuration ask for. *)
Definition wanted (current : V) (version_lock : string) (force_version : option V)
    (u : Update V) : Prop :=
  match force_version with
  | Some v => version u = v
  | None =>
      if decide (version_lock = "latest")
      then olt current (version u) ∨ olt (max_version u) current
      else lock_version version_lock = Some (version u) ∧ version u ≠ current
  end.

Lemma is_applicable_true variant' ignore_waves seed now (u : Update V) :
  is_applicable TARGET_ARCH variant' ignore_waves seed now u = Ok true ↔
  variant u = variant' ∧ arch u = TARGET_ARCH ∧ ole (version u) (max_version u) ∧
  (ignore_waves = true ∨ update_ready u seed now = Ok true).
Proof.
  unfold is_applicable. rewrite <-oleb_spec.
  destruct (bool_decide_reflect (variant u = variant')),
    (bool_decide_reflect (arch u = TARGET_ARCH)), (oleb _ _); cbn; [|naive_solver..].
  destruct ignore_waves; naive_solver.
Qed.

(** No update of the manifest makes [update_ready] panic. *)
Definition no_wave_panics (seed : Z) (us : list (Update V)) : Prop :=
  ∀ u now, u ∈ us → ∃ b, update_ready u seed now = Ok b.

(** Enough for that: waves whose times, and the positions of the host in them, are instants. *)
Lemma update_ready_no_panic (u : Update V) seed now :
  bt_sorted (waves u) → wave_times u → (0 <= seed <= MAX_SEED)%Z →
  (∀ s e ss es, (ss, s) ∈ waves u → (es, e) ∈ waves u → (ss < es)%Z →
     is_instant (position s e ss es seed) = true) →
  ∃ b, update_ready u seed now = Ok b.
Proof.
  intros Hs Hi Hseed Hp. destruct (update_wave_spec u seed Hs Hseed) as (o & Ho & Hw).
  rewrite (update_ready_wave u seed now o) by done.
  destruct o as [[e es|s e ss es|s ss]|]; cbn in *; try by eexists. destruct Hw as (Hin1 & Hin2 & ? & ? & _).
  destruct (_ <=? _)%Z; [by eexists|]. destruct (_ <? _)%Z; [by eexists|].
  rewrite Hp by (done || lia). by eexists.
Qed.

Lemma filter_applicable_spec variant' ignore_waves seed clock n (us : list (Update V)) :
  no_wave_panics seed us →
  ∃ l, filter_applicable TARGET_ARCH variant' ignore_waves seed clock n us = Ok l ∧
    ∀ u, u ∈ l ↔ ∃ i, us !! i = Some u ∧
      is_applicable TARGET_ARCH variant' ignore_waves seed (clock (n + i)) u = Ok true.
Proof.
  intros Hs. revert n. induction us as [|u us IH]; intros n; cbn.
  { exists []. split; [done|]. intros u. split; [by intros ?%not_elem_of_nil|by intros (i & [=] & _)]. }
  specialize (IH ltac:(intros u' now Hu; apply Hs; by right)).
  assert (∃ b, is_applicable TARGET_ARCH variant' ignore_waves seed (clock n) u = Ok b) as [b Hb].
  { unfold is_applicable. destruct (_ && _ && _); [|by eexists].
    destruct ignore_waves; [by eexists|]. apply Hs. by left. }
  destruct (IH (S n)) as (l & Hl & Hin). rewrite Hb, Hl. cbn. eexists. split; [done|].
  intros u'. assert (u' ∈ (if b then u :: l else l) ↔ (b = true ∧ u' = u) ∨ u' ∈ l) as ->.
  { destruct b; rewrite ?elem_of_cons; naive_solver. }
  rewrite Hin. split.
  - intros [[-> ->]|(i & Hi & Ha)].
    + exists 0. by rewrite Nat.add_0_r.
    + exists (S i). split; [done|]. by rewrite Nat.add_succ_r.
  - intros ([|i] & Hi & Ha).
    + injection Hi as ->. rewrite Nat.add_0_r in Ha. left.
      split; [congruence|done].
    + right. exists i. split; [done|]. by rewrite Nat.add_succ_r in Ha.
Qed.

Lemma applicable_updates_spec (m : Manifest V) variant' ignore_waves seed clock :
  no_wave_panics seed (updates m) →
  ∃ l, applicable_updates TARGET_ARCH m variant' ignore_waves seed clock = Ok l ∧
    StronglySorted (λ a b, ole (version b) (version a)) l ∧
    ∀ u, u ∈ l ↔ applicable m variant' ignore_waves seed clock u.
Proof.
  intros Hs. destruct (filter_applicable_spec variant' ignore_waves seed clock 0 (updates m) Hs)
    as (l & Hl & Hin).
  unfold applicable_updates. rewrite Hl. cbn. eexists. split; [done|].
  split; [apply sort_desc_sorted|]. intros u. rewrite sort_perm, Hin. unfold applicable.
  by setoid_rewrite is_applicable_true.
Qed.

Lemma find_update_best p (l : list (Update V)) :
  StronglySorted (λ a b, ole (version b) (version a)) l →
  match find_update p l with
  | Some u => u ∈ l ∧ p u = true ∧ ∀ u', u' ∈ l → p u' = true → ole (version u') (version u)
  | None => ∀ u, u ∈ l → p u = false
  end.
Proof.
  induction 1 as [|x l Hs IH Hf]; cbn; [by intros u ?%not_elem_of_nil|].
  destruct (p x) eqn:E.
  - split_and!; [by left|done|]. rewrite Forall_forall in Hf.
    intros u' [->|Hin]%elem_of_cons _; [apply ole_refl|by apply Hf].
  - destruct (find_update p l) as [u|].
    + destruct IH as (Hin & Hp & Hb). split_and!; [by right|done|].
      intros u' [->|Hin']%elem_of_cons Hp'; [congruence|by apply Hb].
    + intros u [->|Hin]%elem_of_cons; [done|by apply IH].
Qed.

Lemma find_update_result p (P : Update V → Prop) (Q : Update V → Prop) (l : list (Update V)) :
  StronglySorted (λ a b, ole (version b) (version a)) l →
  (∀ u, p u = true ↔ P u) → (∀ u, u ∈ l ↔ Q u) →
  match find_update p l with
  | Some u => Q u ∧ P u ∧ ∀ u', Q u' → P u' → ole (version u') (version u)
  | None => ∀ u, Q u → ¬ P u
  end.
Proof.
  intros Hs Hp Hq. pose proof (find_update_best p l Hs) as Hb. destruct (find_update p l) as [u|].
  - destruct Hb as (Hin & Hpu & Hb). split_and!; [by apply Hq|by apply Hp|].
    intros u' ?%Hq ?%Hp. by apply Hb.
  - intros u ?%Hq Hpu%Hp. rewrite Hb in Hpu; done.
Qed.

Lemma is_upgrade_spec current (u : Update V) :
  is_upgrade current u = true ↔ olt current (version u) ∨ olt (max_version u) current.
Proof. unfold is_upgrade. by rewrite orb_true_iff, !oltb_spec. Qed.
End choose_facts.

(** [update_required] picks the best update: on every branch (a forced
    version, a locked version, the latest) the chosen update is one this host may
    take (its variant, its architecture, not above the maximum version, its wave
    has come), it is what was asked for, and no other such update has a higher
    version; when there is none, the answer is [None]; the only errors are locks
    that are not versions. *)
Lemma update_required_best `{TotalOrd V} `{!UnstableSort V} `{!VersionText V} `{TimeDiv}
    TARGET_ARCH (m : Manifest V) current variant' ignore_waves seed clock lock force :
  no_wave_panics seed (updates m) →
  match update_required TARGET_ARCH m current variant' ignore_waves seed clock lock force with
  | Ok (Some u) =>
      applicable TARGET_ARCH m variant' ignore_waves seed clock u ∧ wanted current lock force u ∧
      ∀ u', applicable TARGET_ARCH m variant' ignore_waves seed clock u' →
        wanted current lock force u' → ole (version u') (version u)
  | Ok None =>
      ∀ u, applicable TARGET_ARCH m variant' ignore_waves seed clock u →
        ¬ wanted current lock force u
  | Err e =>
      (e = BadVersionConfig lock ∨ e = BadVersion lock) ∧
      force = None ∧ lock ≠ "latest" ∧ lock_version (V := V) lock = None
  end.
Proof.
  intros Hs. destruct (applicable_updates_spec TARGET_ARCH m variant' ignore_waves seed clock Hs)
    as (l & Hl & Hsort & Hin).
  unfold update_required, wanted, lock_version. rewrite Hl. cbn. destruct force as [v|].
  { apply (find_update_result _ (λ u, version u = v) _ l Hsort); [|done]. intros u. apply oeqb_spec. }
  destruct (decide (lock = "latest")) as [->|Hne].
  { destruct (decide _) as [Hc|_]; [by destruct Hc|].
    apply (find_update_result _ _ _ l Hsort (is_upgrade_spec current) Hin). }
  destruct (decide _) as [_|Hc]; [|by destruct Hc].
  destruct (friendly_try_from lock) as [f|]; cbn; [|by split_and!; [left|..]].
  destruct (friendly_try_into f) as [v|]; cbn; [|by split_and!; [right|..]].
  destruct (oeqb v current) eqn:E.
  - apply oeqb_spec in E as ->. intros u _ [[= <-] Hu]. done.
  - apply (find_update_result _ (λ u, Some v = Some (version u) ∧ version u ≠ current) _ l Hsort); [|done].
    intros u. rewrite oeqb_spec. split; [|naive_solver]. intros ->. split; [done|]. intros ->.
    by rewrite (proj2 (oeqb_spec current current)) in E.
Qed.

(** Sorting for evaluation, and one-digit versions with an optional [v]. *)
Definition desc_order {V} `{TotalOrd V} (a b : Update V) : Prop := ole (version b) (version a).
#[global] Instance desc_order_dec {V} `{TotalOrd V} : RelDecision (desc_order (V := V)).
Proof.
  intros a b. destruct (oleb (version b) (version a)) eqn:E; [left|right].
  - by apply oleb_spec.
  - intros Hc%oleb_spec. congruence.
Defined.

Definition example_sort : UnstableSort Z.
Proof.
  refine {| sort_by_version_desc := merge_sort desc_order |}.
  - apply merge_sort_Permutation.
  - apply StronglySorted_merge_sort.
    + intros a b c Hab Hbc. by apply (ole_trans _ (version b)).
    + intros a b. apply ole_total.
Defined.

Definition example_digit (s : string) : option Z :=
  match s with
  | String c EmptyString => Some (Z.of_N (Ascii.N_of_ascii c) - 48)%Z
  | _ => None
  end.
Definition example_version_text : VersionText Z := {|
  version_parse := example_digit;
  version_to_string v := String (Ascii.ascii_of_N (Z.to_N (v + 48))) EmptyString;
  friendly_try_from s := if str_is_empty s then None else Some s;
  friendly_try_into s :=
    example_digit (if str_starts_with s "v" then str_drop 1 s else s) |}.

Definition example_images : Images := mk_images "boot.lz4" "root.lz4" "hash.lz4".
Definition example_release (v : Z) (variant : string) : Update Z :=
  mk_update variant "x86_64" v 4%Z [] example_images.
Definition example_updates : Manifest Z :=
  mk_manifest [example_release 2 "aws"; example_release 5 "aws"; example_release 3 "aws";
    example_release 4 "metal"] [((1, 2), ["a"]); ((2, 3), ["b"; "c"])]%Z.

Lemma update_required_best_witness :
  ole (version (example_release 2 "aws")) (version (example_release 3 "aws")).
Proof.
  assert (@update_required Z z_ord example_sort example_version_text example_time_div "x86_64"
            example_updates 1%Z "aws" false 7%Z (λ _, 0%Z) "latest" None
          = Ok (Some (example_release 3 "aws"))) as E by (vm_compute; reflexivity).
  assert (@no_wave_panics Z example_time_div 7%Z (updates example_updates)) as Hs.
  { intros u now. cbn. rewrite !elem_of_cons, elem_of_nil. intros [->|[->|[->|[->|[]]]]]; by eexists. }
  pose proof (@update_required_best Z z_ord example_sort example_version_text example_time_div
    "x86_64" example_updates 1%Z "aws" false 7%Z (λ _, 0%Z) "latest" None Hs) as Hb.
  rewrite E in Hb. destruct Hb as (_ & _ & Hb). apply Hb.
  - exists 0. split_and!; [done..|by vm_compute|right; by vm_compute].
  - left. by vm_compute.
Defined.

(** ** Fetching migrations *)

Section migration_facts.
Context `{TotalOrd V}.

(** The search from the lower to the higher version, whatever the direction. *)
Lemma find_migrations_sym fuel (a b : V) m :
  find_migrations fuel a b m =
  (if oltb b a then reverse else id)
    <$> find_migrations fuel (if oleb b a then b else a) (vmax b a) m.
Proof.
  unfold find_migrations, vmax, oltb, oleb, oeqb. rewrite (cmp_flip a b).
  destruct (cmp a b) eqn:E; cbn.
  - apply cmp_eq in E as ->. by rewrite cmp_refl.
  - rewrite E. destruct (find_migrations_forward _ _ _ _); done.
  - rewrite (cmp_flip a b), E. cbn. destruct (find_migrations_forward _ _ _ _); done.
Qed.

(** The way back runs the same migrations in reverse. *)
Lemma find_migrations_back fuel (a b : V) m ms :
  find_migrations fuel a b m = Ok ms → find_migrations fuel b a m = Ok (reverse ms).
Proof.
  unfold find_migrations, oeqb. rewrite (cmp_flip a b).
  destruct (cmp a b) eqn:E; cbn; [by intros [= <-]| |];
    destruct (find_migrations_forward _ _ _ _) as [l|]; intros [= <-]; cbn;
    by rewrite ?reverse_involutive.
Qed.
End migration_facts.

Section disk_facts.
Context `{BitField} `{Gpt G} {V : Type}.
Implicit Types w : World G.

(** What the partition table and the devices hold. *)
Definition same_storage w w' : Prop :=
  disk_table w' = disk_table w ∧ devices w' = devices w.

#[global] Instance same_storage_equiv : Equivalence same_storage.
Proof.
  unfold same_storage. split.
  - by intros w.
  - by intros w1 w2 [-> ->].
  - by intros w1 w2 w3 [-> ->] [-> ->].
Qed.

(** After an outcome is taken, storage is what it was. *)
Lemma next_io_inv {A} w w' (k : Outcome → stres (World G) (updog_error V) A) r :
  st_bind next_io k w = (w', r) → ∃ o w1, same_storage w w1 ∧ k o w1 = (w', r).
Proof.
  unfold st_bind, next_io. destruct (io w) as [|o l]; intros Hk; by do 2 eexists; split; [|exact Hk].
Qed.

Lemma modify_inv {A} f (k : () → stres (World G) (updog_error V) A) w :
  st_bind (modify f) k w = k tt (f w).
Proof. done. Qed.

Lemma retrieve_migrations_spec `{TotalOrd V} (m : Manifest V) u current w w' r :
  retrieve_migrations m u current w = (w', r) →
  same_storage w w' ∧
  (r = Ok tt → ∃ ms,
     find_migrations (migration_fuel m)
       (if oleb (version u) current then version u else current) (vmax (version u) current) m = Ok ms ∧
     cached_targets w' = Some (ms ++ ["manifest.json"])).
Proof.
  intros Hr. unfold retrieve_migrations in Hr.
  apply st_bind_inv in Hr as [(e & Hr & ->)|(w1 & [] & Hd & Hr)].
  { split; [|done]. destruct (migration_dir w); [by simplify_eq|].
    apply next_io_inv in Hr as ([] & w1 & E1 & Hr); unfold modify, fail, st_lift in Hr; by simplify_eq. }
  assert (same_storage w w1) as E1.
  { destruct (migration_dir w); [by simplify_eq|].
    apply next_io_inv in Hd as ([] & w2 & E1 & Hd); unfold modify, fail, st_lift in Hd; by simplify_eq. }
  apply st_lift_inv in Hr as [(e & _ & -> & ->)|(ms & Hms & Hr)]; [done|].
  apply next_io_inv in Hr as ([] & w3 & E3 & Hr).
  - rewrite modify_inv in Hr. injection Hr as <- <-. split; [by etrans|]. intros _.
    exists ms. split; [|done]. by apply map_err_Ok in Hms.
  - unfold fail, st_lift in Hr. simplify_eq. split; [by etrans|done].
Qed.
End disk_facts.

(** Updog fetches what the migrator will run: after [retrieve_migrations]
    succeeds, the cached targets are the manifest and exactly the migrations
    [find_migrations] gives for the move to the chosen update -- and for the way
    back, should the update be rolled back -- in either direction, and neither the
    partition table nor a device has changed. *)
Lemma retrieve_covers_migrator {G V : Type} `{TotalOrd V} (m : Manifest V) u current
    (w w' : World G) :
  retrieve_migrations m u current w = (w', Ok tt) →
  ∃ forth back ts,
    find_migrations (migration_fuel m) current (version u) m = Ok forth ∧
    find_migrations (migration_fuel m) (version u) current m = Ok back ∧
    back = reverse forth ∧
    cached_targets w' = Some ts ∧ ts ≡ₚ "manifest.json" :: forth ∧ same_storage w w'.
Proof.
  intros [Hs Hr]%retrieve_migrations_spec. destruct (Hr eq_refl) as (ms & Hms & Hc).
  pose proof (find_migrations_sym (migration_fuel m) current (version u) m) as Hf.
  rewrite Hms in Hf. cbn in Hf. pose proof (find_migrations_back _ _ _ _ _ Hf) as Hb.
  do 3 eexists. split_and!; [done..| |done].
  rewrite Permutation_app_comm. cbn. apply perm_skip.
  destruct (oltb _ _); cbn; [by rewrite reverse_Permutation|done].
Qed.

Definition example_world : World example_table :=
  mk_world (table example_state) {[ "b2" := "old root" ]} false None [] false [].

Lemma retrieve_covers_migrator_witness :
  ∃ forth, find_migrations 3 1%Z 3%Z example_updates = Ok forth ∧ forth = ["a"; "b"; "c"].
Proof.
  assert (@is_ok _ _ (retrieve_migrations example_updates (example_release 3 "aws") 1%Z
            example_world).2 = true) as Hok by (vm_compute; reflexivity).
  destruct (retrieve_migrations example_updates (example_release 3 "aws") 1%Z example_world)
    as [w' [[]|]] eqn:E; [|done].
  destruct (retrieve_covers_migrator _ _ _ _ _ E) as (forth & back & ts & Hf & _).
  exists forth. split; [exact Hf|]. vm_compute in Hf. congruence.
Defined.

(** ** Writing the image *)

Section image_facts.
Context `{BitField} `{Gpt G} {V : Type}.
Implicit Types w : World G.
Variable machine : Machine.

Definition set_state_table (st : State G) (t : G) : State G :=
  mk_state (os_disk st) (private_partition_num st) (sets st) (boot_partition_nums st) t.

(** Loading depends on the partitions of the table and keeps the table. *)
Lemma load_table_iter (t t' : G) st :
  gpt_iter t' = gpt_iter t → load_table machine t = Ok st →
  load_table machine t' = Ok (set_state_table st t').
Proof.
  intros Hi. unfold load_table, load_sets.
  assert (∀ g n, nth_guid t' g n = nth_guid t g n) as Hn by (intros; unfold nth_guid; by rewrite Hi).
  assert (∀ g n, required_guid t' g n = required_guid t g n) as Hr
    by (intros; unfold required_guid; by rewrite Hn).
  assert (∀ b n, load_set (m_partition machine) t' b n = load_set (m_partition machine) t b n) as Hl
    by (intros; unfold load_set; by rewrite !Hr).
  rewrite !Hr. destruct (required_guid t BOTTLEROCKET_BOOT 0) as [a|]; [|done]. cbn.
  rewrite Hl, Hn. destruct (load_set _ t a 0) as [sa|]; [|done]. cbn.
  destruct (nth_guid t BOTTLEROCKET_BOOT 1) as [b|]; cbn.
  - rewrite Hl. destruct (load_set _ t b 1) as [sb|]; [|done]. cbn.
    destruct (if set_contains sa _ then _ else _) as [ps|]; [|done]. cbn.
    by destruct (required_guid t BOTTLEROCKET_PRIVATE 0); [intros [= <-]|].
  - by destruct (required_guid t BOTTLEROCKET_PRIVATE 0); [intros [= <-]|].
Qed.

Lemma load_table_table (t : G) st : load_table machine t = Ok st → table st = t.
Proof.
  unfold load_table, load_sets. intros Hok. rinv. done.
Qed.

(** A state that differs in attribute bits only is found again after it is written. *)
Lemma load_table_same st st' :
  load_table machine (table st) = Ok st → same_disk st st' → load_table machine (table st') = Ok st'.
Proof.
  intros Hl [Hd Hp Hs Hn Hi _]. rewrite (load_table_iter _ _ _ Hi Hl).
  destruct st, st'; cbn in *. by subst.
Qed.

Lemma load_state_inv {A} w w' (k : State G → stres (World G) (updog_error V) A) r :
  st_bind (load_state machine) k w = (w', r) →
  (same_storage w w' ∧ ∃ s, r = Err (PartitionTableRead s)) ∨
  (∃ st w1, load_table machine (disk_table w) = Ok st ∧ same_storage w w1 ∧ k st w1 = (w', r)).
Proof.
  intros [(e & Hl & ->)|(w1 & st & Hl & Hk)]%st_bind_inv.
  - left. apply next_io_inv in Hl as ([] & w1 & [E1 E2] & Hl); cbn in Hl.
    + destruct (load_table machine (disk_table w1)); cbn in Hl; simplify_eq. by split; [|eexists].
    + unfold fail, st_lift in Hl. simplify_eq. by split; [|eexists].
  - right. apply next_io_inv in Hl as ([] & w2 & [E1 E2] & Hl); cbn in Hl; [|by simplify_eq].
    destruct (load_table machine (disk_table w2)) as [st'|] eqn:E; cbn in Hl; simplify_eq.
    exists st, w1. by rewrite <-E1.
Qed.

(** A write of the table ends with the old table or the new one, and with the new
    one if it succeeds. *)
Lemma write_state_spec st w w' (r : result (updog_error V) ()) :
  write_state st w = (w', r) →
  devices w' = devices w ∧
  (r = Ok tt ∧ disk_table w' = table st ∨
   r = Err PartitionTableWrite ∧ (disk_table w' = disk_table w ∨ disk_table w' = table st)).
Proof.
  intros Hl. apply next_io_inv in Hl as ([|reached p] & w1 & [E1 E2] & Hl).
  - cbn in Hl. unfold modify in Hl. simplify_eq. cbn. auto.
  - rewrite modify_inv in Hl. unfold fail, st_lift in Hl. destruct reached; simplify_eq; auto.
Qed.

Lemma run_on_inv {A} op f st st' w (k : State G → stres (World G) (updog_error V) A) :
  op st = (st', Ok tt) → st_bind (run_on op f st) k w = k st' w.
Proof. intros Ho. unfold run_on, st_bind. by rewrite Ho. Qed.

(** The decoded bytes of a target. *)
Definition target_bytes (repo : Repository) (target : string) : option string :=
  match read_target repo target with
  | Ok (Some stream) =>
      let '(bytes, complete) := lz4_decode repo stream in
      if complete : bool then Some bytes else None
  | _ => None
  end.

(** What a device holds after a target was written to it. *)
Definition holds_target (repo : Repository) (d : gmap string string) (target path : string) : Prop :=
  ∃ bytes rest, target_bytes repo target = Some bytes ∧ d !! path = Some (bytes +:+ rest).

Lemma write_target_to_disk_spec repo target path w w' (r : result (updog_error V) ()) :
  write_target_to_disk repo target path w = (w', r) →
  disk_table w' = disk_table w ∧
  (∀ d, d ≠ path → devices w' !! d = devices w !! d) ∧
  (r = Ok tt → holds_target repo (devices w') target path).
Proof.
  unfold write_target_to_disk, holds_target, target_bytes.
  intros [(e & _ & -> & ->)|(_ & _ & Hr)]%st_lift_inv; [done|].
  apply st_lift_inv in Hr as [(e & _ & -> & ->)|(stream & Hs & Hr)]; [done|].
  apply st_lift_inv in Hr as [(e & _ & -> & ->)|(raw & Hraw & Hr)]; [done|].
  apply st_lift_inv in Hr as [(e & _ & -> & ->)|(_ & _ & Hr)]; [done|].
  apply map_err_Ok in Hs as ->. apply ok_or_Ok in Hraw as ->.
  apply next_io_inv in Hr as ([] & w1 & [E1 E2] & Hr); [|cbn in Hr; unfold fail, st_lift in Hr; simplify_eq; by rewrite E2].
  destruct (lz4_decode repo raw) as [bytes complete].
  apply next_io_inv in Hr as (o & w2 & [E3 E4] & Hr). rewrite modify_inv in Hr.
  assert (w' = with_devices (<[path := overwrite (match o with IoOk => bytes | IoFailed _ partial => partial end)
             (default EmptyString (devices w2 !! path))]> (devices w2)) w2) as ->.
  { destruct o; [unfold st_lift in Hr|unfold fail, st_lift in Hr]; by simplify_eq. }
  cbn. rewrite E3, E1, E4, E2. split_and!; [done| |].
  - intros d Hd. by rewrite lookup_insert_ne.
  - intros ->. destruct o; [|done]. destruct complete; [|done].
    do 2 eexists. split; [done|]. rewrite lookup_insert_eq. done.
Qed.

Lemma load_table_wf (t : G) st : load_table machine t = Ok st → st_wf st.
Proof. intros Hl. by apply load_sets_spec in Hl as []. Qed.

Lemma clear_inactive_view st v :
  st_wf st → has_view st v →
  ∃ st', clear_inactive st = (st', Ok tt) ∧ same_disk st st' ∧ st_wf st' ∧
    has_view st' (mk_view (v_active v) (mk_flags 0 0 false) (v_boot_succeeded v)).
Proof. intros Hw Hv. destruct v. exact (run_command_refines st _ ClearInactive Hw Hv). Qed.

Lemma mark_inactive_valid_view st v :
  st_wf st → has_view st v →
  ∃ st', mark_inactive_valid st = (st', Ok tt) ∧ same_disk st st' ∧ st_wf st' ∧
    has_view st' (mk_view (v_active v)
      (mk_flags (f_priority (v_inactive v)) 1 (f_successful (v_inactive v))) (v_boot_succeeded v)).
Proof. intros Hw Hv. destruct v. exact (run_command_refines st _ MarkInactiveValid Hw Hv). Qed.

(** What an update image leaves on the disk: the running set is as before, the
    other set is untouched or cannot boot, and no device outside it is written. *)
Record image_left (st : State G) (v : view) (inact : PartitionSet) w w' : Prop := {
  il_state st' v' : load_table machine (disk_table w') = Ok st' → has_view st' v' →
    same_disk st st' ∧ st_wf st' ∧ v_active v' = v_active v ∧
    (v' = v ∧ devices w' = devices w ∨ flags_will_boot (v_inactive v') = false);
  il_loads : ∃ st' v', load_table machine (disk_table w') = Ok st' ∧ has_view st' v';
  il_devices d : set_contains inact d = false → devices w' !! d = devices w !! d }.

Lemma has_view_fun (st : State G) v v' : has_view st v → has_view st v' → v = v'.
Proof.
  intros (s & act & a & i & p & Hd & Ha & Hi & Hp & ->) (s' & act' & a' & i' & p' & Hd' & Ha' & Hi' & Hp' & ->).
  congruence.
Qed.

Lemma image_left_intro st v inact w w' st' v' :
  load_table machine (disk_table w') = Ok st' → has_view st' v' → same_disk st st' → st_wf st' →
  v_active v' = v_active v →
  (v' = v ∧ devices w' = devices w ∨ flags_will_boot (v_inactive v') = false) →
  (∀ d, set_contains inact d = false → devices w' !! d = devices w !! d) →
  image_left st v inact w w'.
Proof.
  intros Hl Hv Hs Hw Ha Hc Hd. split; [|by eauto|done].
  intros st1 v1 Hl1 Hv1. rewrite Hl in Hl1. injection Hl1 as <-.
  by rewrite (has_view_fun _ _ _ Hv1 Hv).
Qed.

(** [w] differs from [base] in the devices of one set at most. *)
Definition only_set (inact : PartitionSet) (base w : World G) : Prop :=
  ∀ d, set_contains inact d = false → devices w !! d = devices base !! d.

Lemma write_target_inv {A} inact base repo target path w w'
    (k : () → stres (World G) (updog_error V) A) r :
  set_contains inact path = true → only_set inact base w →
  st_bind (write_target_to_disk repo target path) k w = (w', r) →
  (∃ e, r = Err e ∧ disk_table w' = disk_table w ∧ only_set inact base w') ∨
  (∃ w1, disk_table w1 = disk_table w ∧ only_set inact base w1 ∧
     (∀ d, d ≠ path → devices w1 !! d = devices w !! d) ∧
     holds_target repo (devices w1) target path ∧ k tt w1 = (w', r)).
Proof.
  intros Hc Ho Hr.
  assert (∀ wa, (∀ d, d ≠ path → devices wa !! d = devices w !! d) → only_set inact base wa) as Hs.
  { intros wa Ha d Hd. rewrite Ha; [by apply Ho|]. intros ->. congruence. }
  apply st_bind_inv in Hr as [(e & Hr & ->)|(w1 & [] & Hr & Hk)];
    apply write_target_to_disk_spec in Hr as (? & ? & ?); [left|right]; eauto 10.
Qed.

(** The three writes of [update_image]. *)
Lemma write_images_inv {A} repo (u : Update V) inact base w w'
    (k : () → stres (World G) (updog_error V) A) r :
  only_set inact base w →
  st_bind (write_target_to_disk repo (im_root (images u)) (root inact)) (λ _,
    st_bind (write_target_to_disk repo (im_boot (images u)) (boot inact)) (λ _,
      st_bind (write_target_to_disk repo (im_hash (images u)) (hash inact)) k)) w = (w', r) →
  (∃ e, r = Err e ∧ disk_table w' = disk_table w ∧ only_set inact base w') ∨
  (∃ w1, disk_table w1 = disk_table w ∧ only_set inact base w1 ∧ k tt w1 = (w', r) ∧
     (NoDup [root inact; boot inact; hash inact] →
      holds_target repo (devices w1) (im_root (images u)) (root inact) ∧
      holds_target repo (devices w1) (im_boot (images u)) (boot inact) ∧
      holds_target repo (devices w1) (im_hash (images u)) (hash inact))).
Proof.
  assert (set_contains inact (root inact) = true ∧ set_contains inact (boot inact) = true ∧
    set_contains inact (hash inact) = true) as (C1 & C2 & C3).
  { unfold set_contains. repeat case_bool_decide; done. }
  intros O1 Hr.
  apply (write_target_inv inact base) in Hr as [(e & -> & ? & ?)|(w1 & T2 & O2 & D2 & R2 & Hr)];
    [left; eauto| |done..].
  apply (write_target_inv inact base) in Hr as [(e & -> & ? & ?)|(w2 & T3 & O3 & D3 & R3 & Hr)];
    [left; exists e; split_and!; [done|congruence|done]| |done..].
  apply (write_target_inv inact base) in Hr as [(e & -> & ? & ?)|(w3 & T4 & O4 & D4 & R4 & Hr)];
    [left; exists e; split_and!; [done|congruence|done]| |done..].
  right. exists w3. split_and!; [congruence|done|done|].
  intros [N1 [N2 _]%NoDup_cons]%NoDup_cons. unfold holds_target in *. split_and!.
  - rewrite D4, D3 by set_solver. done.
  - rewrite D4 by set_solver. done.
  - done.
Qed.

Lemma update_image_spec (u : Update V) repo w w' r st v inact :
  load_table machine (disk_table w) = Ok st → has_view st v → inactive_set st = Some inact →
  update_image machine u repo w = (w', r) →
  image_left st v inact w w' ∧
  (r = Ok tt → NoDup [root inact; boot inact; hash inact] →
   ∃ st', load_table machine (disk_table w') = Ok st' ∧
     has_view st' (mk_view (v_active v) (mk_flags 0 1 false) (v_boot_succeeded v)) ∧
     holds_target repo (devices w') (im_root (images u)) (root inact) ∧
     holds_target repo (devices w') (im_boot (images u)) (boot inact) ∧
     holds_target repo (devices w') (im_hash (images u)) (hash inact)).
Proof.
  intros Hl Hv Hi Hr. pose proof (load_table_wf _ _ Hl) as Hw.
  pose proof (load_table_table _ _ Hl) as Ht.
  destruct (clear_inactive_view st v Hw Hv) as (st1 & C1 & S1 & W1 & V1).
  destruct (mark_inactive_valid_view st1 _ W1 V1) as (st2 & C2 & S2 & W2 & V2). cbn in V2.
  assert (load_table machine (table st) = Ok st) as L0 by (by rewrite Ht).
  pose proof (load_table_same st st1 L0 S1) as L1. pose proof (load_table_same st1 st2 L1 S2) as L2.
  (* with the cleared flags on disk, writes to the inactive devices are harmless *)
  assert (∀ w'', disk_table w'' = table st1 → only_set inact w w'' → image_left st v inact w w'') as Hmid.
  { intros w'' Et Ed. eapply image_left_intro; [by rewrite Et|exact V1|done..| |done]. by right. }
  assert (inactive_set st1 = Some inact) as Hi1.
  { rewrite <-Hi. unfold inactive_set. by rewrite (sd_sets _ _ S1). }
  unfold update_image in Hr.
  apply load_state_inv in Hr as [[[E1 E2] (s & ->)]|(st0 & w1 & Hl0 & [E1 E2] & Hr)].
  { split; [|done]. apply (image_left_intro _ _ _ _ _ st v); try done; [by rewrite E1|by left|by rewrite E2]. }
  rewrite Hl in Hl0. injection Hl0 as <-. rewrite (run_on_inv _ _ _ _ _ _ C1) in Hr.
  apply st_bind_inv in Hr as [(e & Hr & ->)|(w2 & [] & Hr2 & Hr)].
  { split; [|done]. apply write_state_spec in Hr as [D2 [[[=] _]|[_ [T2|T2]]]]; rewrite E2 in D2.
    - apply (image_left_intro _ _ _ _ _ st v); try done; [by rewrite T2, E1|by left|by rewrite D2].
    - apply Hmid; [done|]. intros d _. by rewrite D2. }
  apply write_state_spec in Hr2 as [D2 [[_ T2]|[[=] _]]]. rewrite E2 in D2.
  rewrite Hi1 in Hr. apply st_lift_inv in Hr as [(? & [=] & _)|(? & [= <-] & Hr)].
  apply (write_images_inv _ _ inact w) in Hr as [(e & -> & T3 & O3)|(w3 & T3 & O3 & Hr & R3)];
    [split; [|done]; apply Hmid; [congruence|done]| |intros d _; by rewrite D2].
  rewrite (run_on_inv _ _ _ _ _ _ C2) in Hr. apply write_state_spec in Hr as [D6 Hr].
  assert (disk_table w' = table st2 → image_left st v inact w w') as Hend.
  { intros Et. eapply image_left_intro; [by rewrite Et|exact V2|by etrans|done|done| |by rewrite D6].
    by right. }
  destruct Hr as [[-> T6]|[-> [T6|T6]]].
  - split; [by apply Hend|]. intros _ Hnd. exists st2. rewrite T6, D6. auto.
  - split; [|done]. apply Hmid; [congruence|]. intros d ?. rewrite D6. by apply O3.
  - split; [by apply Hend|done].
Qed.
End image_facts.

(** A failed or interrupted [update_image] never leaves a broken system: at
    whatever read or write it stops, the partition table still loads, the running
    set has its flags, no device outside the inactive set was written, and once
    any device was written the inactive set cannot be booted, so a running set
    that can boot is the one that boots next. *)
Lemma update_image_safe `{BitField} `{Gpt G} {V} machine (u : Update V) repo (w w' : World G) r
    st v inact :
  load_table machine (disk_table w) = Ok st → has_view st v → inactive_set st = Some inact →
  update_image machine u repo w = (w', r) →
  (∀ d, set_contains inact d = false → devices w' !! d = devices w !! d) ∧
  ∃ st' v', load_table machine (disk_table w') = Ok st' ∧ same_disk st st' ∧
    has_view st' v' ∧ v_active v' = v_active v ∧
    (v' = v ∧ devices w' = devices w ∨
     flags_will_boot (v_inactive v') = false ∧
     (flags_will_boot (v_active v) = true → next st' = Ok (Some (active st)))).
Proof.
  intros Hl Hv Hi Hr. apply (update_image_spec machine u repo w w' r st v inact Hl Hv Hi) in Hr as [Hil _].
  split; [apply (il_devices _ _ _ _ _ _ Hil)|].
  destruct (il_loads _ _ _ _ _ _ Hil) as (st' & v' & Hl' & Hv').
  destruct (il_state _ _ _ _ _ _ Hil _ _ Hl' Hv') as (Hs & _ & Ha & Hc).
  exists st', v'. split_and!; try done. destruct Hc as [Hc|Hc]; [by left|right]. split; [done|].
  intros Hb. rewrite (next_of_view st st' v v') by done. f_equal. unfold spec_next. rewrite Ha.
  destruct (active st); by rewrite Hc, Hb.
Qed.

Definition example_machine : Machine :=
  mk_machine "/dev/sda" "a2" (λ n, Ok (match n with
    | 4 => Some "a1" | 5 => Some "a2" | 3 => Some "a3" | 1 => Some "b1" | 2 => Some "b2" | 6 => Some "b3"
    | _ => None end%Z)).
Definition example_disk : example_table :=
  list_to_map [(1, (BOTTLEROCKET_BOOT, 0)); (2, (BOTTLEROCKET_ROOT, 0));
    (3, (BOTTLEROCKET_HASH, 0)); (4, (BOTTLEROCKET_BOOT, example_flags)); (5, (BOTTLEROCKET_ROOT, 0));
    (6, (BOTTLEROCKET_HASH, 0)); (7, (BOTTLEROCKET_PRIVATE, 0))]%Z.
Definition example_sets : State example_table :=
  mk_state "/dev/sda" 7 (Dual (mk_set "a1" "a2" "a3", mk_set "b1" "b2" "b3") A) [4; 1]%Z example_disk.
(** A world whose third operation, the write of the root image, fails. *)
Definition example_failing : World example_table :=
  mk_world example_disk {[ "b2" := "old root" ]} true None [] false
    [IoOk; IoOk; IoOk; IoFailed true "new"].
Definition example_repository : Repository :=
  mk_repository (λ _, true) (λ t, Ok (Some t)) (λ _, true) (λ raw, (raw, true)).

Lemma example_sets_load :
  @load_table _ example_gpt example_machine example_disk = Ok example_sets.
Proof. vm_compute. reflexivity. Qed.
Lemma example_sets_view : @has_view z_bit_field _ example_gpt example_sets example_view.
Proof. do 5 eexists. split_and!; vm_compute; reflexivity. Qed.

Lemma update_image_safe_witness :
  ∃ w', @update_image z_bit_field _ example_gpt Z example_machine (example_release 3 "aws")
          example_repository example_failing = (w', Err WriteUpdate) ∧
    devices w' !! "b2" = Some "new root" ∧ devices w' !! "a2" = None ∧
    ∃ st', @load_table _ example_gpt example_machine (disk_table w') = Ok st' ∧
      @next z_bit_field _ example_gpt st' = Ok (Some A).
Proof.
  pose (out := @update_image z_bit_field _ example_gpt Z example_machine (example_release 3 "aws")
                 example_repository example_failing).
  assert (out.2 = Err WriteUpdate ∧ devices out.1 !! "b2" = Some "new root") as Ho
    by (split; vm_compute; reflexivity).
  destruct out as [w' r] eqn:E; cbn [fst snd] in Ho. destruct Ho as [-> Hd]. subst out.
  exists w'. split; [done|]. split; [done|].
  destruct (@update_image_safe z_bit_field _ example_gpt Z example_machine (example_release 3 "aws")
    example_repository example_failing w' _ example_sets example_view _ example_sets_load example_sets_view eq_refl E)
    as (Hout & st' & v' & Hl & _ & _ & _ & [[_ Hdev]|[_ Hn]]).
  - rewrite Hdev in Hd. by vm_compute in Hd.
  - split; [by rewrite (Hout "a2" eq_refl)|]. exists st'. split; [done|]. by apply Hn.
Defined.

(** ** Whole runs *)

Section run_facts.
Context `{BitField} `{Gpt G} `{TotalOrd V} `{!UnstableSort V} `{!VersionText V} `{TimeDiv}.
Variable TARGET_ARCH : string.
Variable machine : Machine.
Variable u32_to_string : Z → string.
Implicit Types w : World G.

(** The update a run would take. *)
Definition requested (a : Arguments V) (i : Inputs) : option (Update V) :=
  match in_config i, in_release i, in_manifest i with
  | Ok c, Ok (version_id, variant_id), Ok m =>
      match update_required TARGET_ARCH m version_id (default variant_id (arg_variant a))
              (ignore_waves a || cfg_ignore_waves c) (seed c) (in_clock i) (version_lock c)
              (force_version a) with
      | Ok o => o
      | Err _ => None
      end
  | _, _, _ => None
  end.

Lemma common_params_inv {A} ver c (k : () → stres (World G) (updog_error V) A) w w' r :
  st_bind (set_common_query_params u32_to_string ver c) k w = (w', r) →
  ∃ w1, same_storage w w1 ∧ k tt w1 = (w', r).
Proof. intros Hr. eexists. split; [|exact Hr]. done. Qed.

Lemma add_param_inv {A} key val (k : () → stres (World G) (updog_error V) A) w w' r :
  st_bind (add_param key val) k w = (w', r) → ∃ w1, same_storage w w1 ∧ k tt w1 = (w', r).
Proof. intros Hr. eexists. split; [|exact Hr]. done. Qed.

(** What [main_inner] does once the migrations are there. *)
Definition install (c : Command) (a : Arguments V) (u : Update V) (repo : Repository) :
    stres (World G) (updog_error V) (Output V) :=
  st_bind (update_image machine u repo) (λ _,
    st_bind (match c with
             | Update' => st_bind (update_flags machine) (λ _, reboot_if (reboot a))
             | _ => st_ret tt
             end) (λ _, st_ret (Applied u))).

(** A run of [update] or [update-image] stops before it touches storage, or writes
    the image of the requested update and goes on. *)
Lemma main_update_inv (c : Command) (a : Arguments V) (i : Inputs) w w' r :
  command_from_str (subcommand a) = Some c → c = Update' ∨ c = UpdateImage →
  main_inner TARGET_ARCH machine u32_to_string a i w = (w', r) →
  same_storage w w' ∧ (∀ u, r ≠ Ok (Applied u)) ∨
  ∃ u repo w1, requested a i = Some u ∧ in_repository i = Ok repo ∧ same_storage w w1 ∧
    install c a u repo w1 = (w', r).
Proof.
  intros Hc Hu Hr. unfold main_inner in Hr. rewrite Hc in Hr.
  apply st_lift_inv in Hr as [(? & [=] & _)|(? & [= <-] & Hr)].
  apply st_lift_inv in Hr as [(? & _ & -> & ->)|(cfg & Hcfg & Hr)]; [by left|].
  apply st_lift_inv in Hr as [(? & _ & -> & ->)|([ver var] & Hrel & Hr)]; [by left|].
  apply common_params_inv in Hr as (w1 & E1 & Hr).
  apply st_lift_inv in Hr as [(? & _ & -> & ->)|(repo & Hrepo & Hr)]; [by left|].
  apply st_lift_inv in Hr as [(? & _ & -> & ->)|(m & Hm & Hr)]; [by left|].
  assert (st_bind (st_lift (update_required TARGET_ARCH m ver (default var (arg_variant a))
             (ignore_waves a || cfg_ignore_waves cfg) (seed cfg) (in_clock i) (version_lock cfg)
             (force_version a))) (λ o, match o with
      | Some u => st_bind (add_param "target" (version_to_string (version u))) (λ _,
          st_bind (retrieve_migrations m u ver) (λ _, install c a u repo))
      | None => st_ret NoUpdateRequired end) w1 = (w', r)) as Hr'.
  { destruct Hu as [-> | ->]; exact Hr. }
  apply st_lift_inv in Hr' as [(? & _ & -> & ->)|([u|] & Hreq & Hr')]; [by left| |];
    [|left; injection Hr' as <- <-; done].
  apply add_param_inv in Hr' as (w2 & E2 & Hr').
  apply st_bind_inv in Hr' as [(e & Hr' & ->)|(w3 & [] & Hret & Hr')].
  { left. apply retrieve_migrations_spec in Hr' as [E3 _]. split; [|done]. by etrans; [|etrans]. }
  apply retrieve_migrations_spec in Hret as [E3 _]. right. exists u, repo, w3. split_and!; try done.
  - unfold requested. by rewrite Hcfg, Hrel, Hm, Hreq.
  - by etrans; [|etrans].
Qed.

(** After a complete image, the flags are switched or not. *)
Lemma updog_update_flags_spec w w' (r : result (updog_error V) ()) st a ok :
  load_table machine (disk_table w) = Ok st → has_view st (mk_view a (mk_flags 0 1 false) ok) →
  update_flags machine w = (w', r) →
  devices w' = devices w ∧
  ∃ st', load_table machine (disk_table w') = Ok st' ∧ same_disk st st' ∧
    (st' = st ∧ r ≠ Ok tt ∨
     has_view st' (mk_view (mk_flags 1 (f_tries a) (f_successful a)) (mk_flags 2 1 false) ok)).
Proof.
  intros Hl Hv Hr. pose proof (load_table_wf machine _ _ Hl) as Hw.
  pose proof (load_table_table machine _ _ Hl) as Ht.
  destruct (run_command_refines st _ UpgradeToInactive Hw Hv) as (st1 & C1 & S1 & W1 & V1). cbn in C1, V1.
  assert (load_table machine (table st) = Ok st) as L0 by (by rewrite Ht).
  pose proof (load_table_same machine st st1 L0 S1) as L1. unfold update_flags in Hr.
  apply load_state_inv in Hr as [[[E1 E2] (s & ->)]|(st0 & w1 & Hl0 & [E1 E2] & Hr)].
  { split; [done|]. exists st. rewrite E1. split_and!; [done..|]. by left. }
  rewrite Hl in Hl0. injection Hl0 as <-. rewrite (run_on_inv _ _ _ _ _ _ C1) in Hr.
  apply write_state_spec in Hr as [D2 [[-> T2]|[-> [T2|T2]]]]; (split; [congruence|]).
  - exists st1. rewrite T2. auto.
  - exists st. rewrite T2, E1. split_and!; [done..|]. by left.
  - exists st1. rewrite T2. auto.
Qed.

Lemma reboot_if_storage b w w' (r : result (updog_error V) ()) :
  reboot_if b w = (w', r) → same_storage w w'.
Proof.
  destruct b; cbn; [|by intros [= <- <-]]. unfold initiate_reboot.
  intros ([] & w1 & E1 & Hr)%next_io_inv; unfold modify, fail, st_lift in Hr; cbn in Hr; by simplify_eq.
Qed.
(** The three images of an update are on the devices of a set. *)
Definition installed (repo : Repository) (u : Update V) (inact : PartitionSet)
    (d : gmap string string) : Prop :=
  holds_target repo d (im_root (images u)) (root inact) ∧
  holds_target repo d (im_boot (images u)) (boot inact) ∧
  holds_target repo d (im_hash (images u)) (hash inact).

Lemma next_active_of_view st st' v v' :
  has_view st v → same_disk st st' → has_view st' v' →
  flags_will_boot (v_active v') = true → flags_will_boot (v_inactive v') = false →
  next st' = Ok (Some (active st)).
Proof.
  intros Hv Hs Hv' Ha Hi. rewrite (next_of_view st st' v v') by done. f_equal.
  unfold spec_next. destruct (active st); by rewrite Hi, Ha.
Qed.

Lemma next_inactive_of_view st st' v v' :
  has_view st v → same_disk st st' → has_view st' v' → flags_will_boot (v_inactive v') = true →
  (f_priority (v_active v') < f_priority (v_inactive v'))%Z →
  next st' = Ok (Some (set_not (active st))).
Proof.
  intros Hv Hs Hv' Hi Hp. rewrite (next_of_view st st' v v') by done. f_equal.
  unfold spec_next. destruct (active st); rewrite Hi; destruct (flags_will_boot (v_active v')); try done.
  - destruct (Z.leb_spec (f_priority (v_inactive v')) (f_priority (v_active v'))); [lia|done].
  - destruct (Z.leb_spec (f_priority (v_active v')) (f_priority (v_inactive v'))); [done|lia].
Qed.

(** The phases of [install], on a machine whose running set can boot. *)
(** The flags of a complete image are switched, and the reboot starts. *)
Lemma flags_and_reboot_spec b w w' (r : result (updog_error V) ()) st a ok :
  load_table machine (disk_table w) = Ok st → has_view st (mk_view a (mk_flags 0 1 false) ok) →
  st_bind (update_flags machine) (λ _, reboot_if b) w = (w', r) →
  devices w' = devices w ∧
  ∃ st', load_table machine (disk_table w') = Ok st' ∧ same_disk st st' ∧
    (st' = st ∧ r ≠ Ok tt ∨
     has_view st' (mk_view (mk_flags 1 (f_tries a) (f_successful a)) (mk_flags 2 1 false) ok)).
Proof.
  intros Hl Hv [(e & Hr & ->)|(w1 & [] & Hr & Hb)]%st_bind_inv.
  - exact (updog_update_flags_spec w w' (Err e) st a ok Hl Hv Hr).
  - destruct (updog_update_flags_spec w w1 _ st a ok Hl Hv Hr) as (D & st' & L & S & [[_ ?]|V']); [done|].
    apply reboot_if_storage in Hb as [E1 E2]. rewrite E1, E2. split; [done|]. exists st'. auto.
Qed.

#[local] Instance command_eq_dec : EqDecision Command.
Proof. solve_decision. Defined.

Lemma install_spec c (a : Arguments V) (u : Update V) repo w w' r st v inact :
  load_table machine (disk_table w) = Ok st → has_view st v → inactive_set st = Some inact →
  NoDup [root inact; boot inact; hash inact] → flags_will_boot (v_active v) = true →
  install c a u repo w = (w', r) →
  only_set inact w w' ∧
  ∃ st', load_table machine (disk_table w') = Ok st' ∧ same_disk st st' ∧
    (r ≠ Ok (Applied u) ∧ (devices w' = devices w ∧ has_view st' v ∨ next st' = Ok (Some (active st))) ∨
     installed repo u inact (devices w') ∧
     (next st' = Ok (Some (active st)) ∧ (r = Ok (Applied u) → c ≠ Update') ∨
      next st' = Ok (Some (set_not (active st))) ∧ c = Update')).
Proof.
  intros Hl Hv Hi Hnd Hb Hr. unfold install in Hr.
  apply st_bind_inv in Hr as [(e & Hr & ->)|(w1 & [] & Himg & Hr)].
  { apply (update_image_spec machine u repo w w' _ st v inact Hl Hv Hi) in Hr as [Hil _].
    split; [exact (il_devices _ _ _ _ _ _ Hil)|].
    destruct (il_loads _ _ _ _ _ _ Hil) as (st' & v' & Hl' & Hv').
    destruct (il_state _ _ _ _ _ _ Hil _ _ Hl' Hv') as (Hs & _ & Ha & [[-> Hd]|Hc]);
      exists st'; (split; [done|]); (split; [done|]); left; (split; [done|]).
    - by left.
    - right. eapply next_active_of_view; [exact Hv|done|exact Hv'|by rewrite Ha|done]. }
  apply (update_image_spec machine u repo w w1 _ st v inact Hl Hv Hi) in Himg as [Hil Hok].
  destruct (Hok eq_refl Hnd) as (st1 & Hl1 & Hv1 & Hinst).
  destruct (il_state _ _ _ _ _ _ Hil _ _ Hl1 Hv1) as (Hs1 & _ & _ & _).
  assert (next st1 = Ok (Some (active st))) as Hn1 by (by eapply next_active_of_view).
  destruct (decide (c = Update')) as [->|Hne].
  - assert (∃ r' : result (updog_error V) (), st_bind (update_flags machine) (λ _, reboot_if (reboot a)) w1 = (w', r') ∧
      (r = Ok (Applied u) → r' = Ok tt)) as (r' & Hr' & Hrr).
    { apply st_bind_inv in Hr as [(e & Hr & ->)|(w2 & [] & Hr2 & [= <- <-])]; by eexists. }
    destruct (flags_and_reboot_spec _ w1 w' r' st1 _ _ Hl1 Hv1 Hr') as (D & st2 & L2 & S2 & Hc).
    split; [intros d Hd; rewrite D; by apply (il_devices _ _ _ _ _ _ Hil)|].
    exists st2. split; [done|]. split; [by etrans|]. right. rewrite D. split; [done|]. destruct Hc as [[-> Hne]|V2].
    + left. split; [done|]. intros ->. by destruct Hne, Hrr.
    + right. split; [|done]. eapply next_inactive_of_view; [exact Hv|by etrans|exact V2|done|cbn; lia].
  - assert (r = Ok (Applied u) ∧ w' = w1) as [-> ->].
    { destruct c; try done; by injection Hr as <- <-. }
    split; [exact (il_devices _ _ _ _ _ _ Hil)|].
    exists st1. split; [done|]. split; [done|]. right. split; [done|]. by left.
Qed.
End run_facts.

(** C26. A run of [updog update] or [updog update-image], whatever fails and
    wherever, leaves the machine bootable: the disk is as it was, or the running
    set boots next, or the other set boots next and then holds the complete boot,
    root and hash images of the update that was asked for.  In every case no device outside
    of the inactive set is written, and the partition table changes in the flags only. *)
Theorem update_run_safe `{BitField} `{Gpt G} `{TotalOrd V} `{!UnstableSort V} `{!VersionText V}
    `{TimeDiv} TARGET_ARCH machine u32_to_string c a i (w w' : World G) r st v inact :
  command_from_str (subcommand a) = Some c → c = Update' ∨ c = UpdateImage →
  load_table machine (disk_table w) = Ok st → has_view st v → inactive_set st = Some inact →
  NoDup [root inact; boot inact; hash inact] → flags_will_boot (v_active v) = true →
  main_inner TARGET_ARCH machine u32_to_string a i w = (w', r) →
  (∀ d, d ≠ root inact → d ≠ boot inact → d ≠ hash inact → devices w' !! d = devices w !! d) ∧
  ∃ st', load_table machine (disk_table w') = Ok st' ∧ same_disk st st' ∧
    (devices w' = devices w ∧ has_view st' v ∨
     next st' = Ok (Some (active st)) ∨
     next st' = Ok (Some (set_not (active st))) ∧
     ∃ u repo, requested TARGET_ARCH a i = Some u ∧ in_repository i = Ok repo ∧
       installed repo u inact (devices w')).
Proof.
  intros Hc Hu Hl Hv Hi Hnd Hb Hr.
  apply (main_update_inv _ _ _ c) in Hr as [[[E1 E2] _]|(u & repo & w1 & Hreq & Hrepo & [E1 E2] & Hr)];
    [| |done..].
  - split; [by rewrite E2|]. exists st. rewrite E1. split; [done|]. split; [done|]. by left.
  - rewrite <-E1 in Hl.
    destruct (install_spec machine c a u repo w1 w' r st v inact Hl Hv Hi Hnd Hb Hr)
      as (Ho & st' & Hl' & Hs & Hcase).
    split; [intros d ? ? ?; rewrite <-E2; apply Ho; unfold set_contains; by rewrite !bool_decide_false|].
    destruct Hcase as [[_ [[Hd Hv']|Hn]]|[Hinst [[Hn _]|[Hn _]]]];
      exists st'; (split; [done|]); (split; [done|]); [left; by rewrite Hd|right..]; [by left|by left|right].
    split; [done|]. by exists u, repo.
Qed.

(** A successful run does its work: [updog update] that reports an update
    applied has written the complete images of exactly the requested update to
    the inactive set and that set boots next; [updog update-image] has written
    them and the running set still boots next. *)
Lemma update_run_installs `{BitField} `{Gpt G} `{TotalOrd V} `{!UnstableSort V} `{!VersionText V}
    `{TimeDiv} TARGET_ARCH machine u32_to_string c a i (w w' : World G) st v inact u :
  command_from_str (subcommand a) = Some c → c = Update' ∨ c = UpdateImage →
  load_table machine (disk_table w) = Ok st → has_view st v → inactive_set st = Some inact →
  NoDup [root inact; boot inact; hash inact] → flags_will_boot (v_active v) = true →
  main_inner TARGET_ARCH machine u32_to_string a i w = (w', Ok (Applied u)) →
  requested TARGET_ARCH a i = Some u ∧
  ∃ st' repo, load_table machine (disk_table w') = Ok st' ∧ in_repository i = Ok repo ∧
    installed repo u inact (devices w') ∧
    next st' = Ok (Some (match c with Update' => set_not (active st) | _ => active st end)).
Proof.
  intros Hc Hu Hl Hv Hi Hnd Hb Hr.
  apply (main_update_inv _ _ _ c) in Hr as [[_ Hn]|(u' & repo & w1 & Hreq & Hrepo & [E1 E2] & Hr)];
    [by destruct (Hn u)| |done..].
  assert (u' = u) as ->.
  { unfold install in Hr. apply st_bind_inv in Hr as [(? & _ & [=])|(? & [] & _ & Hr)].
    apply st_bind_inv in Hr as [(? & _ & [=])|(? & [] & _ & Hr)]. by injection Hr. }
  rewrite <-E1 in Hl. split; [done|].
  destruct (install_spec machine c a u repo w1 w' _ st v inact Hl Hv Hi Hnd Hb Hr)
    as (_ & st' & Hl' & _ & [[[] _]|[Hinst [[Hn Hne]|[Hn ->]]]]); [done|exists st', repo..]; split_and!; try done.
  by destruct Hu as [-> | ->]; [destruct Hne|].
Qed.

Definition example_inputs : Inputs := mk_inputs
  (Ok (mk_config "https://meta" "https://targets" 7 "latest" false None None))
  (Ok (1%Z, "aws")) (Ok example_repository) (Ok example_updates) (λ _, 0%Z).
Definition example_arguments (sub : string) : Arguments Z :=
  mk_arguments sub "info" false false None false true None.
Definition example_main (sub : string) (w : World example_table) :=
  @main_inner z_bit_field _ example_gpt Z z_ord example_sort example_version_text example_time_div
    "x86_64" example_machine (λ _, "7") (example_arguments sub) example_inputs w.
Definition example_fresh : World example_table :=
  mk_world example_disk {[ "b2" := "old root" ]} true None [] false [].

Lemma example_devices_NoDup : NoDup ["b2"; "b1"; "b3"].
Proof. apply (bool_decide_unpack _). vm_compute. exact I. Qed.

(** The writes of the three images succeed and the write of the new flags fails. *)
Definition example_torn : World example_table :=
  mk_world example_disk {[ "b2" := "old root" ]} true None [] false
    (repeat IoOk 11 ++ [IoFailed true EmptyString]).

Lemma update_run_safe_witness :
  ∃ w', example_main "update" example_torn = (w', Err PartitionTableWrite) ∧
    devices w' !! "a2" = None ∧
    ∃ st', @load_table _ example_gpt example_machine (disk_table w') = Ok st'.
Proof.
  pose (out := example_main "update" example_torn).
  assert (out.2 = Err PartitionTableWrite) as Ho by (vm_compute; reflexivity).
  destruct out as [w' r] eqn:E; cbn [fst snd] in Ho. subst out r.
  exists w'. split; [exact E|].
  destruct (@update_run_safe z_bit_field _ example_gpt Z z_ord example_sort example_version_text
    example_time_div "x86_64" example_machine (λ _, "7") Update' (example_arguments "update")
    example_inputs example_torn w' _ example_sets example_view (mk_set "b1" "b2" "b3")
    eq_refl (or_introl eq_refl) example_sets_load example_sets_view eq_refl example_devices_NoDup
    eq_refl E) as (Hd & st' & Hl & _).
  split; [exact (Hd "a2" ltac:(done) ltac:(done) ltac:(done))|]. by exists st'.
Defined.

Lemma update_run_installs_witness :
  ∃ w', example_main "update" example_fresh = (w', Ok (Applied (example_release 3 "aws"))) ∧
    ∃ st', @load_table _ example_gpt example_machine (disk_table w') = Ok st' ∧
      @next z_bit_field _ example_gpt st' = Ok (Some B).
Proof.
  pose (out := example_main "update" example_fresh).
  assert (out.2 = Ok (Applied (example_release 3 "aws"))) as Ho by (vm_compute; reflexivity).
  destruct out as [w' r] eqn:E; cbn [fst snd] in Ho. subst out r.
  exists w'. split; [exact E|].
  destruct (@update_run_installs z_bit_field _ example_gpt Z z_ord example_sort example_version_text
    example_time_div "x86_64" example_machine (λ _, "7") Update' (example_arguments "update")
    example_inputs example_fresh w' example_sets example_view (mk_set "b1" "b2" "b3") _
    eq_refl (or_introl eq_refl) example_sets_load example_sets_view eq_refl example_devices_NoDup
    eq_refl E) as (_ & st' & repo & Hl & _ & _ & Hn).
  by exists st'.
Defined.
