(* ===== verification/UpdateStatus.v ===== *)
(** * The update dispatcher ([sources/api/thar-be-updates/src/])

    The status file (status.rs) and the state machine that drives [updog]
    (main.rs).  One run of the program is [run]: it takes the command and what
    the environment answers ([Env]: the lock, the outcome of each write of the
    status file, [fork], the spawned [updog], the configuration, the OS release
    and the partition table), and turns the status file into the next one.  A
    command that is dispatched continues in a forked child, while the caller
    already sees the parent's exit status 0; [Proc] records whether the fork
    happened.  The JSON and TOML parsers belong to the [serde] crates: [Env]
    gives their results. *)
From S2P Require Import Prelude BTree UpdateMetadata GptPrio Signpost Updog.
From stdpp Require Import base numbers list strings gmap relations.
From stdpp Require Import options.

(** ** Definitions *)

Inductive UpdateState := Idle | Available | Staged | Ready.

Global Instance update_state_eq_dec : EqDecision UpdateState.
Proof. solve_decision. Defined.

Record UpdateImage (V : Type) := mk_image {
  ui_arch : string;
  ui_version : V;
  ui_variant : string }.
Arguments mk_image {V}.
Arguments ui_arch {V}.
Arguments ui_version {V}.
Arguments ui_variant {V}.

Record StagedImage (V : Type) := mk_staged {
  image : UpdateImage V;
  next_to_boot : bool }.
Arguments mk_staged {V}.
Arguments image {V}.
Arguments next_to_boot {V}.

Definition set_next_to_boot {V} (self : StagedImage V) (b : bool) : StagedImage V :=
  mk_staged (image self) b.

Inductive CommandStatus := Success | Failed | Unknown.

Inductive UpdateCommand := CmdRefresh | CmdPrepare | CmdActivate | CmdDeactivate.

Record CommandResult := mk_command_result {
  cmd_type : UpdateCommand;
  cmd_status : CommandStatus;
  timestamp : Z;
  exit_status : option Z;
  cr_stderr : option string }.

Record UpdateStatus (V : Type) := mk_status {
  update_state : UpdateState;
  available_updates : list V;
  chosen_update : option (UpdateImage V);
  active_partition : option (StagedImage V);
  staging_partition : option (StagedImage V);
  most_recent_command : option CommandResult }.
Arguments mk_status {V}.
Arguments update_state {V}.
Arguments available_updates {V}.
Arguments chosen_update {V}.
Arguments active_partition {V}.
Arguments staging_partition {V}.
Arguments most_recent_command {V}.

Inductive tbu_error :=
| CreateTempfile
| NoStatusFile
| StatusParse
| UpdateInfo
| TbuReleaseVersion
| UpdateLockFile
| UpdateLockHeld
| ReadConfig
| Deserialization
| TbuPartitionTableRead
| NoneSetToBoot
| Fork
| UpdogError
| PrepareUpdate
| ActivateUpdate
| DeactivateUpdate
| GetSettingOption (setting : string)
| SemVer (version : string)
| DisallowCommand (command : UpdateCommand) (state : UpdateState)
| UpdateDoesNotExist
| StagingPartition
| ActivePartition.

(** [std::process::Output]: a process exits with a code or dies of a signal. *)
Record ProcOutput := mk_output {
  code : option Z;
  signal : option Z;
  stdout : string;
  stderr : string }.

(** [ExitStatus::success]. *)
Definition proc_success (o : ProcOutput) : bool := bool_decide (code o = Some 0%Z).

(** What a run finds around it. *)
Record Env (G V : Type) := mk_env {
  lock_file : result () ();
  lock_held : bool;
  status_writes : nat → bool;
  fork_ok : bool;
  updog : list string → result () ProcOutput;
  parse_updates : string → option (list (Update V));
  settings : result tbu_error (option string);
  os_release : result () (UpdateImage V);
  gpt : result () (State G);
  utc_now : Z }.
Arguments mk_env {G V}.
Arguments lock_file {G V}.
Arguments lock_held {G V}.
Arguments status_writes {G V}.
Arguments fork_ok {G V}.
Arguments updog {G V}.
Arguments parse_updates {G V}.
Arguments settings {G V}.
Arguments os_release {G V}.
Arguments gpt {G V}.
Arguments utc_now {G V}.

(** *** [UpdateStatus] *)

Section status.
Context {G V : Type}.
Abbreviation M := (stres (UpdateStatus V) tbu_error).

Definition status_new : UpdateStatus V := mk_status Idle [] None None None None.

Definition set_update_state (s : UpdateState) (self : UpdateStatus V) : UpdateStatus V :=
  mk_status s (available_updates self) (chosen_update self) (active_partition self)
    (staging_partition self) (most_recent_command self).
Definition set_available (vs : list V) (self : UpdateStatus V) : UpdateStatus V :=
  mk_status (update_state self) vs (chosen_update self) (active_partition self)
    (staging_partition self) (most_recent_command self).
Definition set_chosen (u : option (UpdateImage V)) (self : UpdateStatus V) : UpdateStatus V :=
  mk_status (update_state self) (available_updates self) u (active_partition self)
    (staging_partition self) (most_recent_command self).
Definition set_active (p : option (StagedImage V)) (self : UpdateStatus V) : UpdateStatus V :=
  mk_status (update_state self) (available_updates self) (chosen_update self) p
    (staging_partition self) (most_recent_command self).
Definition set_staging (p : option (StagedImage V)) (self : UpdateStatus V) : UpdateStatus V :=
  mk_status (update_state self) (available_updates self) (chosen_update self)
    (active_partition self) p (most_recent_command self).
Definition set_command (c : option CommandResult) (self : UpdateStatus V) : UpdateStatus V :=
  mk_status (update_state self) (available_updates self) (chosen_update self)
    (active_partition self) (staging_partition self) c.

Definition put (f : UpdateStatus V → UpdateStatus V) : M () := λ s, (f s, Ok tt).

Definition update_active_partition_info `{BitField} `{Gpt G} (env : Env G V) : M () :=
  let! active_image := st_lift (map_err (λ _, TbuReleaseVersion) (os_release env)) in
  let! gpt_state := st_lift (map_err (λ _, TbuPartitionTableRead) (gpt env)) in
  let active_set := Signpost.active gpt_state in
  let! next := st_lift (map_err (λ _, TbuPartitionTableRead) (Signpost.next gpt_state)) in
  let! next_set := st_lift (ok_or next NoneSetToBoot) in
  put (set_active (Some (mk_staged active_image (bool_decide (active_set = next_set))))).

Definition set_staging_partition_image_info (i : UpdateImage V) : M () :=
  put (set_staging (Some (mk_staged i false))).

(** The two [if let] of [mark_..] and [unmark_staging_partition_next_to_boot]. *)
Definition set_both_next_to_boot (staging active : bool) : M () :=
  let! s := st_read (λ self, ok_or (staging_partition self) StagingPartition) in
  let! _ := put (set_staging (Some (set_next_to_boot s staging))) in
  let! a := st_read (λ self, ok_or (active_partition self) ActivePartition) in
  put (set_active (Some (set_next_to_boot a active))).

Definition mark_staging_partition_next_to_boot : M () := set_both_next_to_boot true false.
Definition unmark_staging_partition_next_to_boot : M () := set_both_next_to_boot false true.

Definition set_recent_command_info (env : Env G V) (cmd_type : UpdateCommand)
    (cmd_output : ProcOutput) : M () :=
  let exit_status :=
    match code cmd_output with
    | Some code => code
    | None => default 1%Z (signal cmd_output)
    end in
  put (set_command (Some (mk_command_result cmd_type
         (if decide (exit_status = 0%Z) then Success else Failed) (utc_now env)
         (Some exit_status) (Some (stderr cmd_output))))).

Context `{TotalOrd V} `{!VersionText V}.

Definition get_latest_update (env : Env G V) (updates : list (Update V)) :
    result tbu_error (option (Update V)) :=
  let? os_info := map_err (λ _, TbuReleaseVersion) (os_release env) in
  Ok (find_update (λ update, oltb (ui_version os_info) (version update) ||
                             oltb (max_version update) (ui_version os_info)) updates).

Definition image_of (u : Update V) : UpdateImage V :=
  mk_image (arch u) (version u) (variant u).

Definition update_available_updates (env : Env G V) (updates : list (Update V)) : M bool :=
  let! _ := put (set_available (version <$> updates)) in
  let! settings := st_lift (settings env) in
  let! locked_version := st_lift (ok_or settings (GetSettingOption "version-lock")) in
  let! found :=
    if decide (locked_version = "latest") then st_lift (get_latest_update env updates)
    else
      let! chosen_version := st_lift (ok_or (friendly_try_into locked_version) (SemVer locked_version)) in
      let! os_info := st_lift (map_err (λ _, TbuReleaseVersion) (os_release env)) in
      st_ret (if negb (oeqb chosen_version (ui_version os_info))
              then find_update (λ update, oeqb (version update) chosen_version) updates
              else None) in
  match found with
  | Some u => let! _ := put (set_chosen (Some (image_of u))) in st_ret true
  | None => let! _ := put (set_chosen None) in st_ret false
  end.
End status.

(** *** The state machine *)

(** The process: its status, and whether it is the forked child. *)
Record Proc (V : Type) := mk_proc { p_status : UpdateStatus V; p_child : bool }.
Arguments mk_proc {V}.
Arguments p_status {V}.
Arguments p_child {V}.

Section machine.
Context `{BitField} `{Gpt G} `{TotalOrd V} `{!VersionText V}.
Abbreviation M := (stres (Proc V) tbu_error).

Definition on_status {A} (m : stres (UpdateStatus V) tbu_error A) : M A := λ p,
  let '(s, r) := m (p_status p) in (mk_proc s (p_child p), r).

(** The macro [fork_and_return!]: the parent exits with status 0, the child goes on. *)
Definition fork_and_return {A} (env : Env G V) (child_process : M A) : M A := λ p,
  if fork_ok env then child_process (mk_proc (p_status p) true) else (p, Err Fork).

Definition spawn_updog (env : Env G V) (args : list string) : M ProcOutput :=
  st_lift (map_err (λ _, UpdogError) (updog env args)).

Definition refresh (env : Env G V) : M bool :=
  fork_and_return env (
    let! output := spawn_updog env ["whats"; "--all"; "--json"] in
    let! _ := on_status (set_recent_command_info env CmdRefresh output) in
    if negb (proc_success output) then st_ret false
    else
      let! update_info := st_lift (ok_or (parse_updates env (stdout output)) UpdateInfo) in
      on_status (update_available_updates env update_info)).

Definition prepare (env : Env G V) : M () :=
  fork_and_return env (
    let! chosen_update :=
      st_read (λ p, ok_or (chosen_update (p_status p)) UpdateDoesNotExist) in
    let! output := spawn_updog env ["update-image"] in
    let! _ := on_status (set_recent_command_info env CmdPrepare output) in
    if negb (proc_success output) then st_lift (Err PrepareUpdate)
    else on_status (set_staging_partition_image_info chosen_update)).

Definition activate (env : Env G V) : M () :=
  fork_and_return env (
    let! output := spawn_updog env ["update-apply"] in
    let! _ := on_status (set_recent_command_info env CmdActivate output) in
    if negb (proc_success output) then st_lift (Err ActivateUpdate)
    else on_status mark_staging_partition_next_to_boot).

Definition deactivate (env : Env G V) : M () :=
  fork_and_return env (
    let! output := spawn_updog env ["update-revert"] in
    let! _ := on_status (set_recent_command_info env CmdDeactivate output) in
    if negb (proc_success output) then st_lift (Err DeactivateUpdate)
    else on_status unmark_staging_partition_next_to_boot).

Definition is_some {A} (o : option A) : bool := match o with Some _ => true | None => false end.

Definition drive_state_machine (env : Env G V) (operation : UpdateCommand) : M () :=
  let! state := st_read (λ p, Ok (update_state (p_status p))) in
  let! new_state :=
    match operation, state with
    | CmdRefresh, Idle | CmdRefresh, Available =>
        let! b := refresh env in st_ret (if b : bool then Available else Idle)
    | CmdRefresh, _ =>
        let! _ := refresh env in st_read (λ p, Ok (update_state (p_status p)))
    | CmdPrepare, Available | CmdPrepare, Staged =>
        let! _ := st_read (λ p, ensure (is_some (chosen_update (p_status p))) UpdateDoesNotExist) in
        let! _ := prepare env in st_ret Staged
    | CmdActivate, Staged =>
        let! _ := st_read (λ p, ensure (is_some (staging_partition (p_status p))) StagingPartition) in
        let! _ := activate env in st_ret Ready
    | CmdDeactivate, Ready =>
        let! _ := st_read (λ p, ensure (is_some (staging_partition (p_status p))) StagingPartition) in
        let! _ := deactivate env in st_ret Staged
    | _, _ => st_lift (Err (DisallowCommand operation state))
    end in
  on_status (put (set_update_state new_state)).

(** *** One run *)

(** The status file: absent, not parsable, or a status. *)
Inductive StatusFile :=
| Missing
| Garbage
| Stored (s : UpdateStatus V).

(** [write_update_status]: the file is replaced atomically or left. *)
Definition write_update_status (env : Env G V) (n : nat) (s : UpdateStatus V) (file : StatusFile) :
    StatusFile * result tbu_error () :=
  if status_writes env n then (Stored s, Ok tt) else (file, Err CreateTempfile).

Definition initialize_update_status (env : Env G V) (file : StatusFile) :
    StatusFile * result tbu_error () :=
  match update_active_partition_info env status_new with
  | (new_status, Ok _) => write_update_status env 0 new_status file
  | (_, Err e) => (file, Err e)
  end.

Definition get_update_status (file : StatusFile) : result tbu_error (UpdateStatus V) :=
  match file with
  | Missing => Err NoStatusFile
  | Garbage => Err StatusParse
  | Stored s => Ok s
  end.

(** The file afterwards, the result, and whether it is the child that gives it. *)
Definition run (env : Env G V) (cmd : UpdateCommand) (file : StatusFile) :
    StatusFile * result tbu_error () * bool :=
  match lock_file env with
  | Err _ => (file, Err UpdateLockFile, false)
  | Ok _ =>
      if lock_held env then (file, Err UpdateLockHeld, false)
      else
        let '(file, init) :=
          match file with
          | Missing => initialize_update_status env file
          | _ => (file, Ok tt)
          end in
        match (let? _ := init in get_update_status file) with
        | Err e => (file, Err e, false)
        | Ok update_status =>
            let '(p, result) := drive_state_machine env cmd (mk_proc update_status false) in
            match write_update_status env 1 (p_status p) file with
            | (file, Ok _) => (file, result, p_child p)
            | (file, Err e) => (file, Err e, p_child p)
            end
        end
  end.

Definition match_error_to_exit_status (err : tbu_error) : Z :=
  match err with
  | UpdateLockHeld => 64
  | DisallowCommand _ _ => 65
  | UpdateDoesNotExist => 66
  | StagingPartition => 67
  | _ => 1
  end.

(** The exit status the caller of the program sees. *)
Definition caller_exit_status (out : StatusFile * result tbu_error () * bool) : Z :=
  let '(_, r, child) := out in
  if child : bool then 0
  else match r with Ok _ => 0 | Err e => match_error_to_exit_status e end.
End machine.
Arguments StatusFile : clear implicits.

(** ** The state machine *)

(** The commands a state accepts. *)
Definition allowed (cmd : UpdateCommand) (state : UpdateState) : bool :=
  match cmd, state with
  | CmdRefresh, _ => true
  | CmdPrepare, (Available | Staged) => true
  | CmdActivate, Staged => true
  | CmdDeactivate, Ready => true
  | _, _ => false
  end.

(** What a status file says is consistent: the active set is known; an update is
    chosen when one is available; an image is staged in the last two states; and
    exactly in the last one the staged image, and not the running one, is marked
    for the next boot. *)
Record status_wf {V} (s : UpdateStatus V) : Prop := {
  wf_active : is_Some (active_partition s);
  wf_available : update_state s = Available → is_Some (chosen_update s);
  wf_staged : update_state s = Staged ∨ update_state s = Ready → is_Some (staging_partition s);
  wf_ready : ∀ p, staging_partition s = Some p → next_to_boot p = bool_decide (update_state s = Ready);
  wf_ready_active : ∀ p, active_partition s = Some p → update_state s = Ready →
    next_to_boot p = false }.

Section machine_facts.
Context `{BitField} `{Gpt G} `{TotalOrd V} `{!VersionText V}.
Implicit Types (env : Env G V) (s : UpdateStatus V).

Lemma on_status_eq {A} (m : stres (UpdateStatus V) tbu_error A) s b :
  on_status m (mk_proc s b) = (mk_proc (m s).1 b, (m s).2).
Proof. unfold on_status. cbn. by destruct (m s). Qed.

(** The fields a refresh leaves alone. *)
Definition same_partitions (s s' : UpdateStatus V) : Prop :=
  update_state s' = update_state s ∧ active_partition s' = active_partition s ∧
  staging_partition s' = staging_partition s.

Lemma update_available_updates_spec env us s s' r :
  update_available_updates env us s = (s', r) →
  same_partitions s s' ∧
  match r with
  | Err _ => chosen_update s' = chosen_update s
  | Ok b => b = is_some (chosen_update s')
  end.
Proof.
  unfold update_available_updates, get_latest_update, put, st_bind, st_lift, st_ret, same_partitions.
  intros Hr. repeat (case_match; simplify_eq/=; try done).
Qed.

Lemma refresh_spec env s b p r :
  refresh env (mk_proc s b) = (p, r) →
  same_partitions s (p_status p) ∧
  p_child p = (if fork_ok env then true else b) ∧
  match r with
  | Err _ => chosen_update (p_status p) = chosen_update s
  | Ok true => is_Some (chosen_update (p_status p))
  | Ok false => True
  end.
Proof.
  unfold refresh, fork_and_return, spawn_updog, same_partitions. intros Hr.
  destruct (fork_ok env); [|by simplify_eq]. cbn [p_status] in Hr.
  unfold st_bind in Hr. unfold st_lift at 1 in Hr.
  destruct (updog env _) as [o|]; cbn [map_err] in Hr; [|by simplify_eq].
  rewrite on_status_eq in Hr. cbn in Hr. destruct (proc_success o); cbn in Hr;
    [|unfold st_ret in Hr; by simplify_eq].
  unfold st_lift in Hr. destruct (parse_updates env (stdout o)) as [us|]; cbn in Hr; [|by simplify_eq].
  rewrite on_status_eq in Hr.
  destruct (update_available_updates _ us _) as [s' r'] eqn:E in Hr. simplify_eq. cbn.
  apply update_available_updates_spec in E as [Hs Hc]. split; [exact Hs|]. split; [done|].
  destruct r' as [[]|]; cbn in Hc; [|done..]. by destruct (chosen_update s').
Qed.

(** The shape of the other three commands: [updog] must succeed, then the status
    is updated. *)
Lemma dispatch_spec env args cmd err (m : stres (UpdateStatus V) tbu_error ()) s b p r :
  fork_and_return env (
    let! output := spawn_updog env args in
    let! _ := on_status (set_recent_command_info env cmd output) in
    if negb (proc_success output) then st_lift (Err err) else on_status m) (mk_proc s b) = (p, r) →
  p_child p = (if fork_ok env then true else b) ∧
  ((∃ e, r = Err e) ∧ same_partitions s (p_status p) ∧ chosen_update (p_status p) = chosen_update s ∨
   ∃ o c, updog env args = Ok o ∧ proc_success o = true ∧
     m (set_command (Some c) s) = (p_status p, r)).
Proof.
  unfold fork_and_return, spawn_updog, same_partitions. intros Hr.
  destruct (fork_ok env); [|simplify_eq; cbn; eauto 10]. cbn [p_status] in Hr.
  unfold st_bind in Hr. unfold st_lift at 1 in Hr.
  destruct (updog env _) as [o|]; cbn [map_err] in Hr; [|simplify_eq; cbn; eauto 10].
  rewrite on_status_eq in Hr. cbn in Hr. destruct (proc_success o) eqn:Eo; cbn in Hr;
    [|unfold st_lift in Hr; simplify_eq; cbn; eauto 10].
  rewrite on_status_eq in Hr. simplify_eq. cbn. split; [done|]. right. do 2 eexists.
  split_and!; [done..|]. apply surjective_pairing.
Qed.

Lemma prepare_spec env s b p r :
  prepare env (mk_proc s b) = (p, r) → is_Some (chosen_update s) →
  p_child p = (if fork_ok env then true else b) ∧ chosen_update (p_status p) = chosen_update s ∧
  match r with
  | Err _ => same_partitions s (p_status p)
  | Ok _ => ∃ u o, chosen_update s = Some u ∧ updog env ["update-image"] = Ok o ∧ proc_success o = true ∧
      staging_partition (p_status p) = Some (mk_staged u false) ∧
      active_partition (p_status p) = active_partition s
  end.
Proof.
  intros Hr [u Hu].
  assert (fork_and_return env (
    let! output := spawn_updog env ["update-image"] in
    let! _ := on_status (set_recent_command_info env CmdPrepare output) in
    if negb (proc_success output) then st_lift (Err PrepareUpdate)
    else on_status (set_staging_partition_image_info u)) (mk_proc s b) = (p, r)) as Hr'.
  { rewrite <-Hr. unfold prepare, fork_and_return. destruct (fork_ok env); [|done].
    unfold st_bind at 3. unfold st_read. cbn [p_status]. by rewrite Hu. }
  apply dispatch_spec in Hr' as [Hc [([e ->] & Hs & Hch)|(o & c & Ho & Hso & Hm)]]; [done|].
  cbv [set_staging_partition_image_info put] in Hm. destruct p as [s' c']. cbn in *. simplify_eq.
  split_and!; [done..|]. by exists u, o.
Qed.

(** Marking and unmarking when both partitions are known. *)
Lemma set_both_spec (x y : bool) (s s' : UpdateStatus V) r pa ps :
  set_both_next_to_boot x y s = (s', r) → staging_partition s = Some ps → active_partition s = Some pa →
  r = Ok tt ∧ staging_partition s' = Some (set_next_to_boot ps x) ∧
  active_partition s' = Some (set_next_to_boot pa y) ∧ chosen_update s' = chosen_update s.
Proof.
  unfold set_both_next_to_boot, st_bind, st_read, put. intros Hr Hs Ha. rewrite Hs in Hr. cbn in Hr.
  rewrite Ha in Hr. cbn in Hr. by simplify_eq.
Qed.
(** What a command that ran to its end did to the status. *)
Definition transition env (cmd : UpdateCommand) (s s' : UpdateStatus V) (r : result tbu_error ()) : Prop :=
  match r with
  | Err _ => same_partitions s s' ∧ chosen_update s' = chosen_update s
  | Ok _ =>
      match cmd with
      | CmdRefresh =>
          active_partition s' = active_partition s ∧ staging_partition s' = staging_partition s ∧
          (update_state s = Staged ∨ update_state s = Ready → update_state s' = update_state s) ∧
          (update_state s = Idle ∨ update_state s = Available →
             update_state s' = Idle ∨ update_state s' = Available ∧ is_Some (chosen_update s'))
      | CmdPrepare =>
          ∃ u o, chosen_update s = Some u ∧ updog env ["update-image"] = Ok o ∧ proc_success o = true ∧
            chosen_update s' = Some u ∧ update_state s' = Staged ∧
            active_partition s' = active_partition s ∧ staging_partition s' = Some (mk_staged u false)
      | CmdActivate =>
          ∃ ps pa o, staging_partition s = Some ps ∧ active_partition s = Some pa ∧
            updog env ["update-apply"] = Ok o ∧ proc_success o = true ∧ chosen_update s' = chosen_update s ∧
            update_state s' = Ready ∧ active_partition s' = Some (set_next_to_boot pa false) ∧
            staging_partition s' = Some (set_next_to_boot ps true)
      | CmdDeactivate =>
          ∃ ps pa o, staging_partition s = Some ps ∧ active_partition s = Some pa ∧
            updog env ["update-revert"] = Ok o ∧ proc_success o = true ∧ chosen_update s' = chosen_update s ∧
            update_state s' = Staged ∧ active_partition s' = Some (set_next_to_boot pa true) ∧
            staging_partition s' = Some (set_next_to_boot ps false)
      end
  end.

Lemma on_status_put_eq f s b : on_status (put (V := V) f) (mk_proc s b) = (mk_proc (f s) b, Ok tt).
Proof. done. Qed.

(** The boilerplate of [drive_state_machine] around a command. *)
Lemma drive_refresh env s b p r :
  drive_state_machine env CmdRefresh (mk_proc s b) = (p, r) →
  transition env CmdRefresh s (p_status p) r ∧ p_child p = (if fork_ok env then true else b).
Proof.
  unfold drive_state_machine, st_bind, st_read. cbn [p_status]. intros Hr.
  destruct (refresh env (mk_proc s b)) as [[s1 c1] r1] eqn:E.
  pose proof (refresh_spec _ _ _ _ _ E) as ((E1 & E2 & E3) & Hc & Hr1). cbn [p_status p_child] in *.
  unfold transition, same_partitions.
  destruct (update_state s) eqn:Es; rewrite E in Hr; destruct r1 as [f|e]; cbn in Hr;
    rewrite ?on_status_put_eq in Hr; simplify_eq; cbn; rewrite ?E1; destruct_and?;
    try (destruct f); naive_solver.
Qed.

Lemma drive_prepare env s b p r :
  update_state s = Available ∨ update_state s = Staged → is_Some (chosen_update s) →
  drive_state_machine env CmdPrepare (mk_proc s b) = (p, r) →
  transition env CmdPrepare s (p_status p) r ∧ p_child p = (if fork_ok env then true else b).
Proof.
  unfold drive_state_machine, st_bind, st_read. cbn [p_status]. intros Hst Hch Hr.
  pose proof Hch as [u Hu]. destruct (prepare env (mk_proc s b)) as [[s1 c1] r1] eqn:E.
  pose proof (prepare_spec _ _ _ _ _ E Hch) as (Hc & Hc1 & Hr1). cbn [p_status p_child] in *.
  assert (match r1 with Ok _ => on_status (put (set_update_state Staged)) (mk_proc s1 c1)
          | Err e => (mk_proc s1 c1, Err e) end = (p, r)) as Hr'.
  { rewrite <-Hr. destruct Hst as [-> | ->]; cbn [p_status]; rewrite Hu; cbn; rewrite E; by destruct r1. }
  destruct r1 as [[]|e]; [|by simplify_eq]. rewrite on_status_put_eq in Hr'. simplify_eq. cbn.
  destruct Hr1 as (u' & o & ? & ? & ? & ? & ?). split; [|done]. exists u', o. split_and!; congruence.
Qed.

Lemma drive_activate env s b p r ps pa :
  update_state s = Staged → staging_partition s = Some ps → active_partition s = Some pa →
  drive_state_machine env CmdActivate (mk_proc s b) = (p, r) →
  transition env CmdActivate s (p_status p) r ∧ p_child p = (if fork_ok env then true else b).
Proof.
  unfold drive_state_machine, st_bind, st_read. cbn [p_status]. intros Hst Hs Ha Hr.
  rewrite Hst in Hr. cbn [p_status] in Hr. rewrite Hs in Hr. cbn [is_some ensure] in Hr.
  destruct (activate env (mk_proc s b)) as [[s1 c1] r1] eqn:E.
  pose proof E as E'. unfold activate in E'. apply dispatch_spec in E' as [Hc [([e ->] & Hsame & Hch)|(o & c & Ho & Hso & Hm)]].
  { by simplify_eq/=. }
  destruct (set_both_spec _ _ _ _ _ pa ps Hm) as (-> & ? & ? & ?); [done..|].
  cbn in Hr. simplify_eq/=. split; [|done]. by exists ps, pa, o.
Qed.

Lemma drive_deactivate env s b p r ps pa :
  update_state s = Ready → staging_partition s = Some ps → active_partition s = Some pa →
  drive_state_machine env CmdDeactivate (mk_proc s b) = (p, r) →
  transition env CmdDeactivate s (p_status p) r ∧ p_child p = (if fork_ok env then true else b).
Proof.
  unfold drive_state_machine, st_bind, st_read. cbn [p_status]. intros Hst Hs Ha Hr.
  rewrite Hst in Hr. cbn [p_status] in Hr. rewrite Hs in Hr. cbn [is_some ensure] in Hr.
  destruct (deactivate env (mk_proc s b)) as [[s1 c1] r1] eqn:E.
  pose proof E as E'. unfold deactivate in E'. apply dispatch_spec in E' as [Hc [([e ->] & Hsame & Hch)|(o & c & Ho & Hso & Hm)]].
  { by simplify_eq/=. }
  destruct (set_both_spec _ _ _ _ _ pa ps Hm) as (-> & ? & ? & ?); [done..|].
  cbn in Hr. simplify_eq/=. split; [|done]. by exists ps, pa, o.
Qed.

(** The answer to a command without a dispatch. *)
Definition refusal (cmd : UpdateCommand) (s : UpdateStatus V) : option tbu_error :=
  if negb (allowed cmd (update_state s)) then Some (DisallowCommand cmd (update_state s))
  else
    match cmd, chosen_update s with
    | CmdPrepare, None => Some UpdateDoesNotExist
    | _, _ => None
    end.

Lemma drive_spec env cmd s b p r :
  status_wf s → drive_state_machine env cmd (mk_proc s b) = (p, r) →
  match refusal cmd s with
  | Some e => p = mk_proc s b ∧ r = Err e
  | None => transition env cmd s (p_status p) r ∧ p_child p = (if fork_ok env then true else b)
  end.
Proof.
  intros [[pa Ha] Hav Hst _ _] Hr. unfold refusal. destruct (allowed cmd (update_state s)) eqn:Eal; cbn [negb].
  - destruct cmd; [by apply drive_refresh| |..].
    + destruct (chosen_update s) as [u|] eqn:Eu.
      * apply drive_prepare; [|done..]. destruct (update_state s); naive_solver.
      * unfold drive_state_machine, st_bind, st_read in Hr. cbn [p_status] in Hr.
        destruct (update_state s); try done; cbn in Hr; rewrite Eu in Hr; by simplify_eq/=.
    + assert (update_state s = Staged) as Es by (by destruct (update_state s)).
      destruct Hst as [ps Hps]; [auto|]. by eapply drive_activate.
    + assert (update_state s = Ready) as Es by (by destruct (update_state s)).
      destruct Hst as [ps Hps]; [auto|]. by eapply drive_deactivate.
  - unfold drive_state_machine, st_bind, st_read in Hr. cbn [p_status] in Hr.
    destruct cmd, (update_state s) eqn:Es; try done; unfold st_lift in Hr; simplify_eq; by rewrite ?Es.
Qed.

Lemma transition_wf env cmd s s' r : status_wf s → transition env cmd s s' r → status_wf s'.
Proof.
  intros [Ha Hav Hst Hr Hra] Ht. destruct r as [[]|e]; cycle 1.
  { destruct Ht as [(E1 & E2 & E3) E4]. split; rewrite ?E1, ?E2, ?E3, ?E4; done. }
  destruct cmd; cbn in Ht.
  - destruct Ht as (E2 & E3 & Hkeep & Hmove).
    assert (update_state s' = update_state s ∧ (update_state s = Staged ∨ update_state s = Ready) ∨
      (update_state s = Idle ∨ update_state s = Available) ∧
      (update_state s' = Idle ∨ update_state s' = Available ∧ is_Some (chosen_update s'))) as Hc.
    { destruct (update_state s) eqn:E; [right|right|left|left]; auto. }
    clear Hkeep Hmove. split; rewrite ?E2, ?E3; [done|..].
    + naive_solver congruence.
    + naive_solver congruence.
    + intros p Hp. rewrite (Hr p Hp). apply bool_decide_ext. naive_solver congruence.
    + intros p Hp E. apply (Hra p Hp). naive_solver congruence.
  - destruct Ht as (u & o & Hu & _ & _ & Hu' & E1 & E2 & E3).
    split; rewrite ?E1, ?E2, ?E3, ?Hu'; [done..| |done]. by intros p [= <-].
  - destruct Ht as (ps & pa & o & Hps & Hpa & _ & _ & Hch & E1 & E2 & E3).
    split; rewrite ?E1, ?E2, ?E3; [done..| |]; by intros p [= <-].
  - destruct Ht as (ps & pa & o & Hps & Hpa & _ & _ & Hch & E1 & E2 & E3).
    split; rewrite ?E1, ?E2, ?E3; [done..| |done]. by intros p [= <-].
Qed.

(** A status that was just initialized. *)
Lemma initialize_wf env s r :
  update_active_partition_info env status_new = (s, r) → r = Ok tt → status_wf s.
Proof.
  unfold update_active_partition_info, st_bind, st_lift, put. intros Hr ->.
  destruct (map_err _ (os_release env)) as [img|]; [|done].
  destruct (map_err _ (gpt env)) as [st|]; [|done].
  destruct (map_err _ (Signpost.next st)) as [n|]; [|done]. destruct n as [n|]; [|done].
  cbn in Hr. simplify_eq. split; cbn; naive_solver.
Qed.
Definition file_wf (file : StatusFile V) : Prop :=
  match file with Stored s => status_wf s | _ => True end.

(** The lock is free and the status file can be written. *)
Record ready env : Prop := {
  ready_file : lock_file env = Ok tt;
  ready_lock : lock_held env = false;
  ready_write : status_writes env 1 = true }.

Lemma run_stored env cmd s :
  lock_file env = Ok tt → lock_held env = false →
  run env cmd (Stored s) =
    (let '(p, result) := drive_state_machine env cmd (mk_proc s false) in
     if status_writes env 1 then (Stored (p_status p), result, p_child p)
     else (Stored s, Err CreateTempfile, p_child p)).
Proof.
  intros Hf Hl. unfold run, write_update_status. rewrite Hf, Hl. cbn.
  destruct (drive_state_machine env cmd (mk_proc s false)) as [p r]. by destruct (status_writes env 1).
Qed.

Lemma drive_no_fork env cmd s :
  fork_ok env = false → status_wf s → refusal cmd s = None →
  drive_state_machine env cmd (mk_proc s false) = (mk_proc s false, Err Fork).
Proof.
  intros Hf [_ _ Hst _ _] Hr. unfold refusal in Hr.
  unfold drive_state_machine, refresh, prepare, activate, deactivate, fork_and_return, st_bind, st_read.
  rewrite Hf. cbn [p_status] in *. destruct cmd, (update_state s); try done; cbn in *.
  1, 2: by destruct (chosen_update s).
  all: destruct Hst as [ps Hps]; [auto|]; by rewrite Hps.
Qed.

Lemma drive_wf env cmd s p r :
  status_wf s → drive_state_machine env cmd (mk_proc s false) = (p, r) → status_wf (p_status p).
Proof.
  intros Hw Hr. pose proof (drive_spec _ _ _ _ _ _ Hw Hr) as Hd. destruct (refusal cmd s).
  - by destruct Hd as [-> _].
  - destruct Hd as [Ht _]. by eapply transition_wf.
Qed.

Lemma run_wf env cmd file : file_wf file → file_wf (run env cmd file).1.1.
Proof.
  intros Hw. destruct (lock_file env) as [[]|] eqn:Ef; [|unfold run; by rewrite Ef].
  destruct (lock_held env) eqn:El; [unfold run; by rewrite Ef, El|].
  assert (∀ s, status_wf s → file_wf (run env cmd (Stored s)).1.1) as Hs.
  { intros s Hs. rewrite run_stored by done.
    destruct (drive_state_machine env cmd (mk_proc s false)) as [p r] eqn:E.
    apply drive_wf in E; [|done]. by destruct (status_writes env 1). }
  destruct file as [| |s]; [|unfold run; by rewrite Ef, El|by apply Hs].
  destruct (initialize_update_status env Missing) as [file [[]|e]] eqn:Ei;
    [|unfold run; rewrite Ef, El, Ei; cbn; unfold initialize_update_status, write_update_status in Ei;
      repeat case_match; by simplify_eq].
  assert (∃ s, file = Stored s ∧ status_wf s) as (s & -> & Hws).
  { unfold initialize_update_status, write_update_status in Ei.
    destruct (update_active_partition_info env status_new) as [s [[]|]] eqn:Eu; [|done].
    destruct (status_writes env 0); [|done]. simplify_eq. eexists. split; [done|].
    by eapply initialize_wf. }
  specialize (Hs s Hws). rewrite run_stored in Hs by done. unfold run. rewrite Ef, El, Ei. cbn [mbind result_bind get_update_status].
  destruct (drive_state_machine env cmd (mk_proc s false)) as [p r]. unfold write_update_status.
  by destruct (status_writes env 1).
Qed.
End machine_facts.

(** One run of the program, in any environment. *)
Inductive tbu_step `{BitField} `{Gpt G} `{TotalOrd V} `{!VersionText V} :
    StatusFile V → StatusFile V → Prop :=
| tbu_run (env : Env G V) cmd file : tbu_step file (run env cmd file).1.1.

(** C27. The status file is always consistent: whatever commands are run, in any
    order and in any environment (lock contention, failing writes, forks, spawns
    and [updog] runs), a status file created by the program names the running
    set, has a chosen update when it says one is available, has a staged image
    when it says [Staged] or [Ready], and marks the staged image -- and not the
    running set -- for the next boot exactly in the state [Ready]. *)
Theorem status_file_consistent `{BitField} `{Gpt G} `{TotalOrd V} `{!VersionText V} (s : UpdateStatus V) :
  rtc (tbu_step (G := G)) Missing (Stored s) → status_wf s.
Proof.
  intros Hr. assert (file_wf (Stored s)) as Hw; [|done].
  assert (file_wf (V := V) Missing) as H0' by done. revert Hr H0'. generalize (Missing (V := V)) (Stored s).
  induction 1 as [file|file file1 file2 Hs _ IH]; intros Hf; [done|]. apply IH.
  inversion Hs; subst. by apply run_wf.
Qed.

(** What a command does: on a consistent status, when the lock is free and the
    file can be written, a command is refused without any change or carried out by
    the child; a failure leaves the state, the partitions and the chosen update;
    success moves along the state machine, and only after [updog] itself
    succeeded. *)
Lemma run_follows_state_machine `{BitField} `{Gpt G} `{TotalOrd V} `{!VersionText V}
    (env : Env G V) cmd s file' r child :
  ready env → status_wf s → run env cmd (Stored s) = (file', r, child) →
  match refusal cmd s with
  | Some e => file' = Stored s ∧ r = Err e ∧ child = false
  | None => ∃ s', file' = Stored s' ∧ transition env cmd s s' r ∧ child = fork_ok env ∧ status_wf s'
  end.
Proof.
  intros [Hf Hl Hwr] Hw Hr. rewrite run_stored, Hwr in Hr by done.
  destruct (drive_state_machine env cmd (mk_proc s false)) as [p r1] eqn:E.
  pose proof (drive_wf _ _ _ _ _ Hw E) as Hw'. apply drive_spec in E; [|done]. simplify_eq.
  destruct (refusal cmd s).
  - by destruct E as [-> ->].
  - destruct E as [Ht Hc]. eexists. split_and!; [done..| |done]. rewrite Hc. by destruct (fork_ok env).
Qed.

(** The exit status tells the caller at once what became of the command: 65
    when the state does not allow it, 66 when there is no chosen update to
    prepare, 1 when the process could not fork, and 0 as soon as the child works
    on it -- whatever the child's outcome. *)
Lemma run_exit_status `{BitField} `{Gpt G} `{TotalOrd V} `{!VersionText V} (env : Env G V) cmd s :
  ready env → status_wf s →
  caller_exit_status (run env cmd (Stored s)) =
    (if negb (allowed cmd (update_state s)) then 65
     else
       match cmd, chosen_update s with
       | CmdPrepare, None => 66
       | _, _ => if fork_ok env then 0 else 1
       end)%Z.
Proof.
  intros [Hf Hl Hwr] Hw. rewrite run_stored, Hwr by done.
  destruct (drive_state_machine env cmd (mk_proc s false)) as [p r1] eqn:E.
  pose proof (drive_spec _ _ _ _ _ _ Hw E) as Hd. pose proof (λ Hn, drive_no_fork env cmd s Hn Hw) as Hn.
  rewrite E in Hn. unfold refusal in Hd, Hn.
  destruct (allowed cmd (update_state s)); cbn [negb] in *; [|by destruct Hd as [-> ->]].
  destruct cmd, (chosen_update s); cbn; try (by destruct Hd as [-> ->]);
    (destruct Hd as [_ ->]; destruct (fork_ok env); [done|]; by injection (Hn eq_refl eq_refl) as -> ->).
Qed.

(** ** The chosen update *)

Lemma update_available_updates_finds `{BitField} `{Gpt G} `{TotalOrd V} `{!VersionText V}
    (env : Env G V) (l : list (Update V)) s img f found :
  os_release env = Ok img → settings env = Ok (Some f) →
  (if decide (f = "latest") then Some (find_update (is_upgrade (ui_version img)) l)
   else
     v ← friendly_try_into f;
     Some (if oeqb v (ui_version img) then None else find_update (λ u, oeqb (version u) v) l))
  = found →
  update_available_updates env l s =
    match found with
    | Some o => (set_chosen (image_of <$> o) (set_available (version <$> l) s), Ok (is_some o))
    | None => (set_available (version <$> l) s, Err (SemVer f))
    end.
Proof.
  intros Hos Hset <-. unfold update_available_updates, get_latest_update, put, st_bind, st_lift, st_ret.
  rewrite Hset. cbn [ok_or]. destruct (decide (f = "latest")) as [->|Hne].
  - rewrite Hos. cbn. change (λ update : Update V, _) with (is_upgrade (V := V) (ui_version img)).
    by destruct (find_update _ l).
  - destruct (friendly_try_into f) as [v|]; cbn; [|done]. rewrite Hos. cbn.
    destruct (oeqb v (ui_version img)); cbn; [done|]. by destruct (find_update _ l).
Qed.

(** The dispatcher and the update client choose alike: from the list that
    [updog whats --all] prints, [update_available_updates] chooses exactly the
    update that [updog update-image] will install, provided the two read the same
    version lock and release (and the clock has not moved a wave in between). *)
Lemma dispatcher_agrees_with_updog `{BitField} `{Gpt G} `{TotalOrd V} `{!UnstableSort V}
    `{!VersionText V} `{TimeDiv} (env : Env G V) TARGET_ARCH m variant' ignore_waves seed clock lock f
    img l s :
  applicable_updates TARGET_ARCH m variant' ignore_waves seed clock = Ok l →
  os_release env = Ok img → settings env = Ok (Some f) →
  friendly_try_from (V := V) lock = Some f → (f = "latest" ↔ lock = "latest") →
  let '(s', r) := update_available_updates env l s in
  available_updates s' = version <$> l ∧
  match update_required TARGET_ARCH m (ui_version img) variant' ignore_waves seed clock lock None with
  | Ok (Some u) => r = Ok true ∧ chosen_update s' = Some (image_of u)
  | Ok None => r = Ok false ∧ chosen_update s' = None
  | Err _ => r = Err (SemVer f) ∧ chosen_update s' = chosen_update s
  end.
Proof.
  intros Hl Hos Hset Hf Hlat. rewrite (update_available_updates_finds env l s img f _ Hos Hset eq_refl).
  unfold update_required. rewrite Hl. cbn [mbind result_bind].
  destruct (decide (f = "latest")) as [E|E].
  - destruct (decide (lock ≠ "latest")) as [E'|_]; [by destruct E'; apply Hlat|].
    cbn. by destruct (find_update _ l).
  - destruct (decide (lock ≠ "latest")) as [_|E']; [|by destruct E'; intros ?%Hlat].
    rewrite Hf. cbn. destruct (friendly_try_into f) as [v|]; cbn; [|done].
    destruct (oeqb v (ui_version img)); cbn; [done|]. by destruct (find_update _ l).
Qed.

(** ** Concrete runs *)

Definition example_output (c : Z) : ProcOutput := mk_output (Some c) None EmptyString EmptyString.

(** Everything works; [updog whats] lists two updates. *)
Definition example_env : Env example_table Z := {|
  lock_file := Ok tt;
  lock_held := false;
  status_writes := λ _, true;
  fork_ok := true;
  updog := λ _, Ok (example_output 0);
  parse_updates := λ _, Some [example_release 3 "aws"; example_release 2 "aws"];
  settings := Ok (Some "latest");
  os_release := Ok (mk_image "x86_64" 1%Z "aws");
  gpt := Ok example_state;
  utc_now := 0 |}.

Definition example_run := @run z_bit_field _ example_gpt Z z_ord example_version_text example_env.
Definition example_staged : UpdateStatus Z :=
  mk_status Staged [3; 2]%Z (Some (mk_image "x86_64" 3%Z "aws"))
    (Some (mk_staged (mk_image "x86_64" 1%Z "aws") true))
    (Some (mk_staged (mk_image "x86_64" 3%Z "aws") false))
    (Some (mk_command_result CmdPrepare Success 0 (Some 0%Z) (Some EmptyString))).

Lemma example_staged_reached :
  (example_run CmdPrepare (example_run CmdRefresh Missing).1.1).1.1 = Stored example_staged.
Proof. vm_compute. reflexivity. Qed.

Lemma example_staged_wf : status_wf example_staged.
Proof.
  split; cbn; [by eexists|done|by eexists|by intros p [= <-]|done].
Qed.

Lemma status_file_consistent_witness : status_wf example_staged.
Proof.
  apply (@status_file_consistent z_bit_field _ example_gpt Z z_ord example_version_text).
  apply (rtc_l _ _ (example_run CmdRefresh Missing).1.1); [exact (tbu_run _ _ _)|].
  apply rtc_once. rewrite <-example_staged_reached. exact (tbu_run _ _ _).
Defined.

Lemma run_follows_state_machine_witness :
  ∃ s', (example_run CmdActivate (Stored example_staged)).1.1 = Stored s' ∧ update_state s' = Ready.
Proof.
  pose (out := example_run CmdActivate (Stored example_staged)).
  assert (out.1.2 = Ok tt) as Ho by (vm_compute; reflexivity).
  fold out. destruct out as [[file' r] child] eqn:E. cbn [fst snd] in *. subst r.
  destruct (@run_follows_state_machine z_bit_field _ example_gpt Z z_ord example_version_text
    example_env CmdActivate example_staged file' (Ok tt) child) as (s' & -> & Ht & _);
    [by split|exact example_staged_wf|exact E|].
  exists s'. split; [done|]. by destruct Ht as (? & ? & ? & _ & _ & _ & _ & _ & Hs & _).
Defined.

Lemma run_exit_status_witness :
  caller_exit_status (example_run CmdDeactivate (Stored example_staged)) = 65%Z.
Proof.
  apply (@run_exit_status z_bit_field _ example_gpt Z z_ord example_version_text example_env
           CmdDeactivate example_staged); [by split|exact example_staged_wf].
Defined.

Lemma dispatcher_agrees_with_updog_witness :
  ∃ l s' r, @applicable_updates Z z_ord example_sort example_time_div "x86_64" example_updates "aws"
      false 7%Z (λ _, 0%Z) = Ok l ∧
    @update_available_updates _ _ z_ord example_version_text example_env l example_staged = (s', r) ∧
    available_updates s' = version <$> l.
Proof.
  destruct (@applicable_updates Z z_ord example_sort example_time_div "x86_64" example_updates "aws"
      false 7%Z (λ _, 0%Z)) as [l|e] eqn:E; [|vm_compute in E; discriminate E].
  pose proof (@dispatcher_agrees_with_updog z_bit_field _ example_gpt Z z_ord example_sort
    example_version_text example_time_div example_env "x86_64" example_updates "aws" false 7%Z
    (λ _, 0%Z) "latest" "latest" _ l example_staged E eq_refl eq_refl eq_refl
    (conj (λ x, x) (λ x, x))) as Hd.
  destruct (@update_available_updates _ _ z_ord example_version_text example_env l example_staged)
    as [s' r] eqn:Eu. exists l, s', r. split; [done|]. split; [exact Eu|]. apply Hd.
Defined.
