(* ===== verification/MigratorData.v ===== *)
(** * The migrator's data ([sources/api/migration/migrator/src/])

    Reading all of a data store ([datastore_helper.rs]: [get_input_data]), writing
    it to another one ([set_output_data]), and [copy_without_transient_entries]
    of main.rs, which drops what is repopulated at boot: weak settings, metadata,
    configuration files and services.  Source and target are any two stores of
    the class [DataStore]; the theorems are proved against [DataStoreSpec]. *)
From S2P Require Import Prelude DsError Key Json KeyMap DataStore Memory.
From stdpp Require Import base list strings gmap.
From stdpp Require Import options.

(** ** Definitions *)

Record DataStoreData := mk_dsd {
  data : gmap string json;
  metadata : gmap string (gmap string json) }.

(** The variants of the migrator's [Error] these functions use. *)
Inductive data_error :=
| GetData (source : error)
| Deserialize (input : string)
| GetMetadata (source : error)
| InvalidDataKey (key_type : KeyType) (key : string) (source : error)
| SerializeValue
| DataStoreWrite (source : error)
| ListTransactions (source : error).

Section helper.
Context `{HashOrder} `{SerdeJson}.

Fixpoint input_data_loop (raw : list (Key * string)) (data : gmap string json) :
    result data_error (gmap string json) :=
  match raw with
  | [] => Ok data
  | (data_key, value_str) :: raw =>
      let? value := map_err (λ _, Deserialize value_str) (deserialize_scalar value_str) in
      input_data_loop raw (<[name data_key := value]> data)
  end.

Fixpoint input_meta_inner (raw : list (Key * string)) (data_entry : gmap string json) :
    result data_error (gmap string json) :=
  match raw with
  | [] => Ok data_entry
  | (metadata_key, value_str) :: raw =>
      let? value := map_err (λ _, Deserialize value_str) (deserialize_scalar value_str) in
      input_meta_inner raw (<[name metadata_key := value]> data_entry)
  end.

Fixpoint input_meta_loop (raw : list (Key * key_map string))
    (metadata : gmap string (gmap string json)) :
    result data_error (gmap string (gmap string json)) :=
  match raw with
  | [] => Ok metadata
  | (data_key, meta_map) :: raw =>
      let? data_entry :=
        input_meta_inner (hm_iter meta_map) (default ∅ (metadata !! name data_key)) in
      input_meta_loop raw (<[name data_key := data_entry]> metadata)
  end.

Definition get_input_data `{DataStore D} (datastore : D) (committed : Committed) :
    result data_error DataStoreData :=
  let? raw_data := map_err GetData (get_prefix datastore EmptyString committed) in
  let? data := input_data_loop (hm_iter raw_data) ∅ in
  let? raw_metadata := map_err GetMetadata (get_metadata_prefix datastore EmptyString committed None) in
  let? metadata := input_meta_loop (hm_iter raw_metadata) ∅ in
  Ok (mk_dsd data metadata).

Fixpoint output_data_loop (entries : list (string * json)) (data : key_map string) :
    result data_error (key_map string) :=
  match entries with
  | [] => Ok data
  | (data_key_name, raw_value) :: entries =>
      let? data_key := map_err (InvalidDataKey Data data_key_name) (key_new Data data_key_name) in
      let? value := map_err (λ _, SerializeValue) (serialize_scalar raw_value) in
      output_data_loop entries (hm_insert data_key value data)
  end.

Definition set_output_data `{DataStore D} (input : DataStoreData) (committed : Committed) :
    stres D data_error () :=
  let! data := st_lift (output_data_loop (map_iter (data input)) ∅) in
  let! _ := st_map_err DataStoreWrite (set_keys data committed) in
  st_forM (map_iter (metadata input)) (λ '(data_key_name, meta_map),
    let! data_key :=
      st_lift (map_err (InvalidDataKey Data data_key_name) (key_new Data data_key_name)) in
    st_forM (map_iter meta_map) (λ '(metadata_key_name, raw_value),
      let! metadata_key :=
        st_lift (map_err (InvalidDataKey Meta metadata_key_name) (key_new Meta metadata_key_name)) in
      let! value := st_lift (map_err (λ _, SerializeValue) (serialize_scalar raw_value)) in
      st_map_err DataStoreWrite (set_metadata metadata_key data_key value committed))).

(** *** Dropping transient entries *)

Definition is_weak (inner_map : gmap string json) : bool :=
  match inner_map !! "strength" with
  | Some (JString s) => bool_decide (s = "weak")
  | _ => false
  end.

(** The keys whose [strength] metadata is [weak]. *)
Definition weak_keys (metadata : gmap string (gmap string json)) : gset string :=
  list_to_set (fst <$> filter (λ e : string * gmap string json, is_weak e.2 = true)
                        (map_iter metadata)).

Definition remove_weak_setting_from_datastore (datastore : DataStoreData) : DataStoreData :=
  mk_dsd (set_fold delete (data datastore) (weak_keys (metadata datastore))) (metadata datastore).

Definition remove_metadata_from_datastore (datastore : DataStoreData) : DataStoreData :=
  mk_dsd (data datastore) ∅.

Definition remove_keys_with_prefix (prefix : string) (datastore : DataStoreData) : DataStoreData :=
  mk_dsd (filter (λ kv, str_starts_with kv.1 prefix = false) (data datastore)) (metadata datastore).

Definition remove_transient (input : DataStoreData) : DataStoreData :=
  remove_keys_with_prefix "services." (remove_keys_with_prefix "configuration-files."
    (remove_metadata_from_datastore (remove_weak_setting_from_datastore input))).

(** The live data and every pending transaction. *)
Definition copy_without_transient_entries `{DataStore D1} `{DataStore D2} (source : D1) :
    stres D2 data_error () :=
  let! transactions := st_lift (map_err ListTransactions (list_transactions source)) in
  st_forM (Live :: (Pending <$> hash_iter (set_to_map (λ tx, (tx, tx)) transactions : gmap string string)))
    (λ committed,
    let! input := st_lift (get_input_data source committed) in
    set_output_data (remove_transient input) committed).
End helper.

(** ** Reading and writing *)

(** A key that its own name parses to, as those a store reads from its files. *)
Definition named (k : Key) : Prop := key_new Data (name k) = Ok k.

Section facts.
Context `{HashOrder} `{SerdeJson}.

Lemma elem_of_transactions (txs : gset string) tx :
  tx ∈ hash_iter (set_to_map (λ tx, (tx, tx)) txs : gmap string string) ↔ tx ∈ txs.
Proof.
  rewrite elem_of_hash_iter. setoid_rewrite lookup_set_to_map; [|by intros]. naive_solver.
Qed.

Lemma transactions_NoDup (txs : gset string) :
  NoDup (hash_iter (set_to_map (λ tx, (tx, tx)) txs : gmap string string)).
Proof.
  rewrite hash_iter_perm. rewrite (list_fmap_ext _ fst); [apply NoDup_fst_map_to_list|].
  intros i [k v] Hi. apply list_elem_of_lookup_2, elem_of_map_to_list in Hi.
  apply lookup_set_to_map in Hi as (y & _ & [= <- <-]); [done|by intros].
Qed.

(** What the keys of a map of entries and their names have to do with each other. *)
Definition all_named (E : key_map string) : Prop := ∀ segs k v, E !! segs = Some (k, v) → named k.

Lemma named_inj k1 k2 : named k1 → named k2 → name k1 = name k2 → k1 = k2.
Proof. unfold named. congruence. Qed.

Lemma input_data_loop_spec raw m m' :
  input_data_loop raw m = Ok m' → (∀ k v, (k, v) ∈ raw → named k) →
  (∀ k v1 v2, (k, v1) ∈ raw → (k, v2) ∈ raw → v1 = v2) →
  ∀ n, m' !! n =
    match filter (λ kv, name kv.1 = n) raw with
    | (_, v) :: _ => ok (deserialize_scalar v)
    | [] => m !! n
    end ∧ ∀ k v, (k, v) ∈ raw → ∃ j, deserialize_scalar v = Ok j.
Proof.
  revert m. induction raw as [|[k v] raw IH]; intros m Hl Hn Hu n; cbn in Hl.
  { injection Hl as <-. split; [done|]. by intros k v ?%not_elem_of_nil. }
  rinv. match goal with H : deserialize_scalar v = Ok ?j |- _ => rename H into Hj end.
  destruct (IH _ Hl (λ k' v' Hin, Hn k' v' (list_elem_of_further _ _ _ Hin))
    (λ k' v1 v2 H1 H2, Hu k' v1 v2 (list_elem_of_further _ _ _ H1) (list_elem_of_further _ _ _ H2)) n)
    as [IHm IHd].
  split; [|intros k' v' [[= -> ->]|Hin]%elem_of_cons; eauto].
  rewrite filter_cons. cbn. case_decide as E.
  - rewrite IHm. destruct (filter _ raw) as [|[k' v'] l] eqn:Ef.
    + rewrite E, lookup_insert_eq, Hj. done.
    + assert ((k', v') ∈ filter (λ kv, name kv.1 = n) raw) as [E' Hin]%list_elem_of_filter
        by (rewrite Ef; by left).
      assert (k' = k) as ->.
      { apply named_inj; [apply (Hn _ v'); by right|apply (Hn _ v); by left|]. cbn in E'. congruence. }
      by rewrite (Hu k v' v) by (by (left || right)).
  - rewrite IHm. destruct (filter _ raw) as [|[]]; [|done]. by rewrite lookup_insert_ne.
Qed.

(** The data read from a store: the value of each entry, under the entry's name. *)
Lemma input_data_spec (E : key_map string) m :
  hm_wf E → all_named E → input_data_loop (hm_iter E) ∅ = Ok m →
  ∀ n j, m !! n = Some j ↔
    ∃ k v, E !! segments k = Some (k, v) ∧ name k = n ∧ deserialize_scalar v = Ok j.
Proof.
  intros Hwf Hn Hl n j.
  assert (∀ k v, (k, v) ∈ hm_iter E ↔ E !! segments k = Some (k, v)) as Hin
    by (intros; by apply elem_of_hm_iter).
  destruct (input_data_loop_spec _ _ _ Hl) with (n := n) as [Hm Hd].
  { intros k v Hk%Hin. by eapply Hn. }
  { intros k v1 v2 H1%Hin H2%Hin. congruence. }
  rewrite Hm. split.
  - destruct (filter _ _) as [|[k v] l] eqn:Ef; [done|]. intros Hj.
    assert ((k, v) ∈ filter (λ kv, name kv.1 = n) (hm_iter E)) as [E' Hk%Hin]%list_elem_of_filter
      by (rewrite Ef; by left).
    exists k, v. split_and!; [done..|]. by destruct (deserialize_scalar v); simplify_eq/=.
  - intros (k & v & Hk & Hname & Hj). apply Hin in Hk as Hk'.
    destruct (filter _ _) as [|[k' v'] l] eqn:Ef.
    { assert ((k, v) ∈ filter (λ kv, name kv.1 = n) (hm_iter E)) as Hc by (by apply list_elem_of_filter).
      rewrite Ef in Hc. by apply not_elem_of_nil in Hc. }
    assert ((k', v') ∈ filter (λ kv, name kv.1 = n) (hm_iter E)) as [E' Hk2%Hin]%list_elem_of_filter
      by (rewrite Ef; by left).
    assert (k' = k) as -> by (apply named_inj; [by eapply Hn..|]; cbn in E'; congruence).
    rewrite Hk in Hk2. injection Hk2 as ->. by rewrite Hj.
Qed.

(** Values that are the text of a value come back unchanged. *)
Definition value_text (v : string) : Prop := ∃ j, json_wf j ∧ json_to_string j = Ok v.

Lemma value_text_roundtrip v j : value_text v → deserialize_scalar v = Ok j → serialize_scalar j = Ok v.
Proof.
  intros (j' & Hw & Hs) Hd. destruct (json_roundtrip j' Hw) as (s & Hs' & Hf).
  unfold deserialize_scalar, serialize_scalar in *. congruence.
Qed.

Lemma set_fold_delete (m : gmap string json) (X : gset string) n :
  (n ∈ X → set_fold delete m X !! n = None) ∧ (n ∉ X → set_fold delete m X !! n = m !! n).
Proof.
  revert n. apply (set_fold_ind_L (λ m' X, ∀ n, (n ∈ X → m' !! n = None) ∧ (n ∉ X → m' !! n = m !! n))).
  { intros n. split; [set_solver|done]. }
  intros x X' r Hx IH n. destruct (IH n) as [IH1 IH2]. destruct (decide (n = x)) as [->|Hne].
  - rewrite lookup_delete_eq. split; [done|set_solver].
  - rewrite lookup_delete_ne by done. split; intros Hn; [apply IH1|apply IH2]; set_solver.
Qed.

Lemma elem_of_weak_keys md n : n ∈ weak_keys md ↔ ∃ m, md !! n = Some m ∧ is_weak m = true.
Proof.
  unfold weak_keys. rewrite elem_of_list_to_set, list_elem_of_fmap.
  setoid_rewrite list_elem_of_filter. split.
  - intros ([n' m] & -> & Hw & Hin%elem_of_map_iter). by exists m.
  - intros (m & Hm & Hw). exists (n, m). split_and!; [done..|]. by apply elem_of_map_iter.
Qed.

(** Which names stay. *)
Definition kept (input : DataStoreData) (n : string) : bool :=
  negb (match metadata input !! n with Some m => is_weak m | None => false end) &&
  negb (str_starts_with n "configuration-files.") && negb (str_starts_with n "services.").

Lemma remove_transient_spec input n j :
  metadata (remove_transient input) = ∅ ∧
  (data (remove_transient input) !! n = Some j ↔ data input !! n = Some j ∧ kept input n = true).
Proof.
  split; [done|]. unfold remove_transient, remove_keys_with_prefix, remove_metadata_from_datastore,
    remove_weak_setting_from_datastore, kept. cbn [data metadata].
  rewrite !map_lookup_filter_Some, !andb_true_iff, !negb_true_iff.
  destruct (set_fold_delete (data input) (weak_keys (metadata input)) n) as [Hdel Hstay].
  assert (n ∈ weak_keys (metadata input) ↔
    match metadata input !! n with Some m => is_weak m | None => false end = true) as Hw.
  { rewrite elem_of_weak_keys. destruct (metadata input !! n); naive_solver. }
  destruct (decide (n ∈ weak_keys (metadata input))) as [Hin|Hin].
  - rewrite (Hdel Hin). apply Hw in Hin. rewrite Hin. naive_solver.
  - rewrite (Hstay Hin). rewrite Hw in Hin. apply not_true_is_false in Hin. rewrite Hin.
    cbn. naive_solver.
Qed.
Lemma output_data_loop_Ok l m P :
  output_data_loop l m = Ok P →
  ∃ l', Forall2 (λ nj kv, key_new Data nj.1 = Ok kv.1 ∧ serialize_scalar nj.2 = Ok kv.2) l l' ∧
    P = hm_extend l' m.
Proof.
  revert m. induction l as [|[n j] l IH]; intros m Hl; cbn in Hl.
  { injection Hl as <-. by exists []. }
  rinv. apply IH in Hl as (l' & Hf & ->).
  match goal with Hk : key_new Data n = Ok ?k, Hv : serialize_scalar j = Ok ?v |- _ =>
    exists ((k, v) :: l') end.
  split; [by constructor|done].
Qed.

(** Reading a map of entries, dropping what is transient and preparing it for
    writing. *)
Section kept.
Variables (E : key_map string) (input : DataStoreData).
Hypothesis Hwf : hm_wf E.
Hypothesis Hn : all_named E.
Hypothesis Ht : ∀ segs k v, E !! segs = Some (k, v) → value_text v.
Hypothesis Hin : input_data_loop (hm_iter E) ∅ = Ok (data input).

Lemma kept_back n j k v :
  data (remove_transient input) !! n = Some j → key_new Data n = Ok k → serialize_scalar j = Ok v →
  E !! segments k = Some (k, v) ∧ name k = n ∧ kept input n = true.
Proof using Hwf Hn Ht Hin.
  intros [Hj Hk]%remove_transient_spec Hnew Hser.
  apply (input_data_spec E _ Hwf Hn Hin) in Hj as (k' & v' & HE & Hname & Hd).
  pose proof (Hn _ _ _ HE) as Hn'. unfold named in Hn'. rewrite Hname, Hnew in Hn'. injection Hn' as <-.
  pose proof (value_text_roundtrip v' j (Ht _ _ _ HE) Hd) as Hs. rewrite Hser in Hs.
  by injection Hs as <-.
Qed.

Lemma kept_forth k v :
  E !! segments k = Some (k, v) → kept input (name k) = true →
  ∃ j, data (remove_transient input) !! name k = Some j ∧ serialize_scalar j = Ok v.
Proof using Hwf Hn Ht Hin.
  intros HE Hk.
  destruct (proj2 (input_data_loop_spec _ _ _ Hin
    ltac:(intros ?? Hi; apply elem_of_hm_iter in Hi; [by eapply Hn|done])
    ltac:(intros ??? H1 H2; apply elem_of_hm_iter in H1, H2; [congruence|done..]) (name k)) k v)
    as [j Hj]; [by apply elem_of_hm_iter|].
  exists j. split; [|by eapply value_text_roundtrip; eauto].
  apply remove_transient_spec. split; [|done]. apply (input_data_spec E _ Hwf Hn Hin). eauto.
Qed.

Lemma output_data_kept P :
  output_data_loop (map_iter (data (remove_transient input))) ∅ = Ok P →
  P = filter (λ e, kept input (name e.2.1) = true) E.
Proof using Hwf Hn Ht Hin.
  intros (l' & Hf & ->)%output_data_loop_Ok.
  assert (∀ k v, (k, v) ∈ l' ↔ E !! segments k = Some (k, v) ∧ kept input (name k) = true) as Hl'.
  { intros k v. split.
    - intros (i & Hi)%list_elem_of_lookup.
      destruct (Forall2_lookup_r _ _ _ _ _ Hf Hi) as ([n j] & Hnj & Hk & Hv).
      apply list_elem_of_lookup_2, elem_of_map_iter in Hnj.
      by destruct (kept_back _ _ _ _ Hnj Hk Hv) as (? & <- & ?).
    - intros [HE Hk]. destruct (kept_forth _ _ HE Hk) as (j & Hj & Hser).
      apply elem_of_map_iter, list_elem_of_lookup in Hj as [i Hi].
      destruct (Forall2_lookup_l _ _ _ _ _ Hf Hi) as ([k' v'] & Hi' & Hk' & Hv').
      apply list_elem_of_lookup_2 in Hi'. cbn in *. pose proof (Hn _ _ _ HE) as Hn'. unfold named in Hn'.
      congruence. }
  assert (NoDup l') as Hnd.
  { apply (NoDup_fmap_1 (λ kv, name kv.1)).
    assert ((λ kv, name kv.1) <$> l' = (map_iter (data (remove_transient input))).*1) as ->;
      [|apply map_iter_NoDup].
    symmetry. apply list_eq_Forall2, Forall2_fmap. eapply Forall2_impl; [exact Hf|].
    intros [n j] [k v] [Hk _]. cbn in *. by apply key_new_Ok in Hk as (_ & <- & _). }
  assert (NoDup ((λ kv, segments kv.1) <$> l')) as Hnd'.
  { apply NoDup_fmap_2_strong; [|done]. intros [k1 v1] [k2 v2] [H1 _]%Hl' [H2 _]%Hl' Heq. cbn in Heq.
    congruence. }
  change (hm_extend l' ∅) with (hm_collect l'). apply map_eq. intros segs. apply option_eq. intros [k v].
  rewrite hm_collect_elem, Hl', map_lookup_filter_Some by done. cbn. split.
  - intros [[HE Hk] <-]. done.
  - intros [HE Hk]. pose proof (Hwf _ _ HE) as Hs. cbn in Hs. subst segs. done.
Qed.
End kept.
End facts.

(** ** The copy *)

Section copy.
Context `{HO : HashOrder} `{SJ : SerdeJson} `{DS1 : DataStore D1} `{DS2 : DataStore D2}
  `{!DataStoreSpec D1} `{!DataStoreSpec D2}.
Implicit Types (src : D1) (d : D2).

(** What can be copied: keys that their names parse to, values that are the text
    of a value. *)
Definition copyable src : Prop :=
  ∀ c, ds_committed (D := D1) c → all_named (ds_entries src c) ∧ ∀ segs k v, ds_entries src c !! segs = Some (k, v) → value_text v.

(** The entries of the copy. *)
Definition kept_entries src (c : Committed) (input : DataStoreData) : key_map string :=
  filter (λ e, kept input (name e.2.1) = true) (ds_entries src c).

Lemma get_input_data_data src c input :
  ds_inv src → ds_committed (D := D1) c → get_input_data src c = Ok input →
  input_data_loop (hm_iter (ds_entries src c)) ∅ = Ok (data input).
Proof.
  unfold get_input_data. intros Hi Hcm Hg. rinv. cbn.
  match goal with H : get_prefix _ _ _ = Ok _ |- _ => apply get_prefix_entries in H as ->; [|done..] end.
  rewrite map_filter_id in * by (intros; apply str_starts_with_spec; by eexists). done.
Qed.

Lemma copy_step src d c input d' u :
  ds_inv src → copyable src → ds_inv d → (∀ k, named k → ds_key (D := D2) k) →
  ds_committed (D := D1) c → ds_committed (D := D2) c → get_input_data src c = Ok input → set_output_data (remove_transient input) c d = (d', Ok u) →
  ds_inv d' ∧ hm_view (ds_entries d' c) = hm_view (kept_entries src c input) ∪ hm_view (ds_entries d c) ∧
  ∀ c', ds_committed (D := D2) c' → c' ≠ c → ds_entries d' c' = ds_entries d c'.
Proof.
  intros Hsrc Hc Hd Hkey Hcm1 Hcm2 Hin Hout. destruct (Hc c Hcm1) as [Hn Ht].
  apply get_input_data_data in Hin; [|done..]. pose proof (ds_entries_wf src c Hsrc) as Hwf.
  unfold set_output_data in Hout. apply st_bind_Ok in Hout as (d1 & P & Hl & Hout).
  unfold st_lift in Hl. injection Hl as <- Hl.
  apply (output_data_kept _ _ Hwf Hn Ht Hin) in Hl as ->. fold (kept_entries src c input) in Hout.
  apply st_bind_Ok in Hout as (d2 & [] & Hs & Hout). unfold st_map_err in Hs.
  destruct (set_keys _ c d) as [d2' [[]|]] eqn:Es; [|done]. injection Hs as ->.
  rewrite (proj1 (remove_transient_spec input EmptyString JNull)) in Hout.
  assert (map_iter (∅ : gmap string (gmap string json)) = []) as E0 by (by apply hash_iter_nil).
  rewrite E0 in Hout. injection Hout as <- _.
  eapply set_keys_view; [done|done|..|exact Es].
  - intros segs kv [Hk _]%map_lookup_filter_Some. by apply Hwf in Hk.
  - intros segs k v [Hk _]%map_lookup_filter_Some. eauto.
Qed.

Lemma copy_loop src cs d d' u :
  ds_inv src → copyable src → ds_inv d → (∀ k, named k → ds_key (D := D2) k) → NoDup cs →
  (∀ c, c ∈ cs → ds_committed (D := D1) c ∧ ds_committed (D := D2) c) →
  st_forM cs (λ committed,
    let! input := st_lift (get_input_data src committed) in
    set_output_data (remove_transient input) committed) d = (d', Ok u) →
  ds_inv d' ∧
  (∀ c, c ∈ cs → ∃ input, get_input_data src c = Ok input ∧
     hm_view (ds_entries d' c) = hm_view (kept_entries src c input) ∪ hm_view (ds_entries d c)) ∧
  ∀ c, ds_committed (D := D2) c → c ∉ cs → ds_entries d' c = ds_entries d c.
Proof.
  intros Hsrc Hc Hd Hkey Hnd Hcm Hl. revert d Hd Hl.
  induction Hnd as [|c cs Hcs Hnd IH]; intros d Hd Hl; cbn in Hl.
  { injection Hl as <- _. split_and!; [done| |done]. by intros c ?%not_elem_of_nil. }
  apply st_bind_Ok in Hl as (d1 & [] & Hs & Hl). apply st_bind_Ok in Hs as (d1' & input & Hg & Hs).
  unfold st_lift in Hg. injection Hg as <- Hg.
  destruct (Hcm c ltac:(by left)) as [Hcm1 Hcm2].
  destruct (copy_step _ _ _ _ _ _ Hsrc Hc Hd Hkey Hcm1 Hcm2 Hg Hs) as (Hd1 & Hv1 & Ho1).
  destruct (IH ltac:(intros; apply Hcm; by right) d1 Hd1 Hl) as (Hd' & Hv & Ho). split_and!; [done| |].
  - intros c' [->|Hin]%elem_of_cons.
    + exists input. by rewrite Ho.
    + destruct (Hv c' Hin) as (i & Hi & E). exists i. split; [done|].
      rewrite E, Ho1; [done| |by intros ->]. apply Hcm. by right.
  - intros c' Hcm' [Hne1 Hne2]%not_elem_of_cons. by rewrite Ho, Ho1.
Qed.
End copy.

(** Live data and the listed transactions are copied. *)
Definition copied (txs : gset string) (c : Committed) : bool :=
  match c with Live => true | Pending tx => bool_decide (tx ∈ txs) end.

(** Migrating a data store keeps the settings: when
    [copy_without_transient_entries] into an empty store succeeds, the live data
    and each pending transaction of the copy have exactly the source's entries,
    value for value, less those whose own metadata has strength [weak], the
    configuration files and the services -- whatever order the collections are
    iterated in -- and nothing else is in the copy. *)
Lemma copy_keeps_settings `{HO : HashOrder} `{SJ : SerdeJson} `{DS1 : DataStore D1}
    `{DS2 : DataStore D2} `{!DataStoreSpec D1} `{!DataStoreSpec D2} (src : D1) (d d' : D2) txs u :
  ds_inv src → copyable src → ds_inv d → (∀ k, named k → ds_key (D := D2) k) →
  (∀ c, ds_committed (D := D1) c → ds_committed (D := D2) c) →
  (∀ c, ds_committed (D := D2) c → ds_entries d c = ∅) → list_transactions src = Ok txs →
  copy_without_transient_entries src d = (d', Ok u) →
  ∀ c, ds_committed (D := D2) c →
    if copied txs c
    then ∃ input, get_input_data src c = Ok input ∧
           hm_view (ds_entries d' c) = hm_view (kept_entries src c input)
    else ds_entries d' c = ∅.
Proof.
  intros Hsrc Hc Hd Hkey Hcm12 Hemp Htx Hcopy c Hcm. unfold copy_without_transient_entries in Hcopy.
  apply st_bind_Ok in Hcopy as (d1 & txs' & Ht & Hcopy). unfold st_lift in Ht. rewrite Htx in Ht.
  injection Ht as <- <-.
  set (cs := Live :: _) in Hcopy.
  assert (∀ c, copied txs c = true ↔ c ∈ cs) as Hin.
  { intros [|tx]; unfold cs; rewrite elem_of_cons, list_elem_of_fmap; cbn; [naive_solver|].
    rewrite bool_decide_eq_true. setoid_rewrite elem_of_transactions. naive_solver. }
  assert (NoDup cs) as Hnd.
  { apply NoDup_cons. split; [by intros (? & [=] & _)%list_elem_of_fmap|].
    apply NoDup_fmap_2; [by intros ?? [=]|apply transactions_NoDup]. }
  assert (∀ c, c ∈ cs → ds_committed (D := D1) c ∧ ds_committed (D := D2) c) as Hcs.
  { intros c' Hc'. assert (ds_committed (D := D1) c') as ?; [|by split; [|apply Hcm12]].
    apply Hin in Hc'. destruct c' as [|tx]; [apply ds_committed_live|]. cbn in Hc'.
    apply bool_decide_eq_true in Hc'. by eapply ds_committed_listed. }
  destruct (copy_loop _ _ _ _ _ Hsrc Hc Hd Hkey Hnd Hcs Hcopy) as (_ & Hv & Ho).
  specialize (Hin c). destruct (copied txs c).
  - destruct (Hv c) as (input & Hg & E); [by apply Hin|]. exists input. split; [done|].
    rewrite E, Hemp by done. unfold hm_view. by rewrite fmap_empty, map_union_empty.
  - rewrite Ho; [by apply Hemp|done|]. by rewrite <-Hin.
Qed.

#[local] Existing Instance example_order.
#[local] Existing Instance example_json.

(** A store with a weak setting, a setting, a service and a pending transaction. *)
Definition source_key (n : string) : Key :=
  match key_new Data n with Ok k => k | Err _ => mk_key EmptyString [] end.
Definition text (s : string) : string := String QUOTE (str_push s QUOTE).
Definition example_source : MemoryDataStore :=
  let set k v c d := (mem_set_key (source_key k) (text v) c d).1 in
  let weak k d := (mem_set_metadata (mk_key "strength" ["strength"]) (source_key k) (text "weak") Live d).1 in
  set "settings.motd" "hi" (Pending "tx") (weak "settings.ntp" (set "services.ntp" "x" Live
    (set "settings.motd" "hello" Live (set "settings.ntp" "a" Live memory_new)))).

Definition example_entry_ok (kv : Key * string) : bool :=
  bool_decide (key_new Data (name kv.1) = Ok kv.1) &&
  match example_from_str kv.2 with
  | Ok (JString s) => bool_decide (kv.2 = text s)
  | _ => false
  end.

Lemma example_source_copyable :
  copyable example_source.
Proof.
  assert (∀ c, map_Forall (λ _ kv, example_entry_ok kv = true) (mem_entries example_source c)) as Hok.
  { assert (map_Forall (λ _, map_Forall (λ _ kv, example_entry_ok kv = true)) (pending example_source) ∧
      map_Forall (λ _ kv, example_entry_ok kv = true) (live example_source)) as [Hp Hl]
      by (apply (bool_decide_unpack _); vm_compute; exact I).
    intros [|tx]; [exact Hl|]. unfold mem_entries. cbn [dataset].
    destruct (pending example_source !! tx) as [m|] eqn:E; cbn [default]; [|done]. exact (Hp tx m E). }
  intros c _. split; intros segs k v Hk; specialize (Hok c segs (k, v) Hk); unfold example_entry_ok in Hok;
    apply andb_true_iff in Hok as [Hn Hv]; cbn [fst snd] in *.
  - by apply bool_decide_eq_true in Hn.
  - destruct (example_from_str v) as [[| | |s| |]|]; try done. apply bool_decide_eq_true in Hv as ->.
    by exists (JString s).
Qed.

Lemma example_source_inv : mem_inv example_source.
Proof.
  split; apply (bool_decide_unpack _); vm_compute; exact I.
Qed.

Definition example_copy :=
  copy_without_transient_entries (D1 := MemoryDataStore) (D2 := MemoryDataStore) example_source memory_new.

Lemma copy_keeps_settings_witness :
  ∃ input, get_input_data example_source Live = Ok input ∧
    hm_view (mem_entries example_copy.1 Live) = hm_view (kept_entries example_source Live input).
Proof.
  assert (is_ok example_copy.2 = true) as Ho by (vm_compute; reflexivity).
  destruct example_copy as [d' [[]|]] eqn:E; cbn [fst snd] in *; [|done].
  destruct (copy_keeps_settings (DataStoreSpec0 := memory_data_store_spec)
    (DataStoreSpec1 := memory_data_store_spec) example_source memory_new d' {[ "tx" ]} tt
    example_source_inv example_source_copyable
    ltac:(by split) ltac:(done) ltac:(done) ltac:(by intros [|tx]) eq_refl E Live I) as (input & Hg & Hv).
  exists input. split; [exact Hg|exact Hv].
Defined.

(** The copy has the setting, and neither the weak one nor the service. *)
Example example_copy_keys :
  (map_to_list (live example_copy.1)).*1 = [["settings"; "motd"]].
Proof. vm_compute. reflexivity. Qed.
