(* ===== verification/Migrator.v ===== *)
(** * The migrator ([sources/api/migration/migrator/src/])

    main.rs and direction.rs: choosing the direction, running the migrations
    between two versions one after the other, dropping transient data
    ([MigratorData]) and making the new data store live by flipping a chain of
    symbolic links ([current -> vX -> vX.Y -> vX.Y.Z -> store]).

    All data stores and links live in one directory, so a path is the name of
    its last component; [DsDir] holds the directory.  The outcomes of its
    fallible operations are the list [dir_io]; the migration binaries, the
    repository and the data store implementation are parameters. *)
From S2P Require Import Prelude DsError Key Json KeyMap DataStore Memory BTree UpdateMetadata Updog MigratorData.
From stdpp Require Import base numbers list strings gmap pretty.
From stdpp Require Import options.

(** ** Definitions *)

Inductive Direction := Forward | Backward.

(** [Direction::fmt]. *)
Definition direction_to_string (d : Direction) : string :=
  match d with Forward => "--forward" | Backward => "--backward" end.

Definition from_versions `{TotalOrd V} (from to : V) : option Direction :=
  match cmp from to with
  | Lt => Some Forward
  | Gt => Some Backward
  | Eq => None
  end.

Record MigrationVersionMeta (V : Type) := mk_version_meta {
  current_version : V;
  target_version : V;
  direction : Direction }.
Arguments mk_version_meta {V}.
Arguments current_version {V}.
Arguments target_version {V}.
Arguments direction {V}.

Definition migration_version_meta_new `{TotalOrd V} (current_version target_version : V) :
    option (MigrationVersionMeta V) :=
  mk_version_meta current_version target_version <$> from_versions current_version target_version.

(** The numbers of a [semver::Version], and its text. *)
Class SemVer (V : Type) := {
  major : V → N;
  minor : V → N;
  patch : V → N;
  ver_to_string : V → string;
  ver_parse : string → option V }.

Inductive mig_error (V : Type) :=
| DataStoreLinkToRoot
| LinkRead (link : string)
| InvalidDataStoreVersion (path : string)
| RepoLoad
| MigManifestLoad
| FindMigrations (source : um_error V)
| MigTargetName (target : string)
| LoadMigration (migration : string)
| MigrationNotFound (migration : string)
| MigLz4Decode (migration : string)
| NewVersionAlreadyExists (path : string)
| SealMigration
| StartMigration
| MigrationFailure
| TransientData (source : data_error)
| DataStoreDirOpen
| LinkCreate (path : string)
| LinkSwap (link : string).
Arguments DataStoreLinkToRoot {V}.
Arguments LinkRead {V}.
Arguments InvalidDataStoreVersion {V}.
Arguments RepoLoad {V}.
Arguments MigManifestLoad {V}.
Arguments FindMigrations {V}.
Arguments MigTargetName {V}.
Arguments LoadMigration {V}.
Arguments MigrationNotFound {V}.
Arguments MigLz4Decode {V}.
Arguments NewVersionAlreadyExists {V}.
Arguments SealMigration {V}.
Arguments StartMigration {V}.
Arguments MigrationFailure {V}.
Arguments TransientData {V}.
Arguments DataStoreDirOpen {V}.
Arguments LinkCreate {V}.
Arguments LinkSwap {V}.

(** The directory of the data stores; [dir_rand] are the next results of [rando]. *)
Record DsDir (D : Type) := mk_dir {
  links : gmap string string;
  stores : gmap string D;
  dir_rand : list string;
  dir_io : list bool }.
Arguments mk_dir {D}.
Arguments links {D}.
Arguments stores {D}.
Arguments dir_rand {D}.
Arguments dir_io {D}.

(** A migration binary: it may not start, or it leaves a data store (perhaps a
    partial one) at the target path and exits. *)
Inductive MigrationRun (D : Type) :=
| NotStarted
| Exited (target : option D) (success : bool).
Arguments NotStarted {D}.
Arguments Exited {D}.

Section dir.
Context {D V : Type}.
Abbreviation M := (stres (DsDir D) (mig_error V)).

Definition upd_links (f : gmap string string → gmap string string) : M () := λ d,
  (mk_dir (f (links d)) (stores d) (dir_rand d) (dir_io d), Ok tt).
Definition upd_stores (f : gmap string D → gmap string D) : M () := λ d,
  (mk_dir (links d) (f (stores d)) (dir_rand d) (dir_io d), Ok tt).

(** Whether the next operation works. *)
Definition dir_op : M bool := λ d,
  match dir_io d with
  | [] => (d, Ok true)
  | b :: l => (mk_dir (links d) (stores d) (dir_rand d) l, Ok b)
  end.

Definition rando : M string := λ d,
  match dir_rand d with
  | [] => (d, Ok EmptyString)
  | r :: l => (mk_dir (links d) (stores d) l (dir_io d), Ok r)
  end.

Definition exists_in (d : DsDir D) (n : string) : bool :=
  bool_decide (is_Some (links d !! n)) || bool_decide (is_Some (stores d !! n)).

(** [symlink(target, link)]: fails on an existing name. *)
Definition symlink (target link : string) : M () :=
  let! b := dir_op in
  let! there := st_read (λ d, Ok (exists_in d link)) in
  if b && negb there then upd_links <[link := target]> else st_lift (Err (LinkCreate link)).

(** [fs::rename(from, to)] of a link, replacing a link atomically. *)
Definition rename (from to : string) : M () :=
  let! b := dir_op in
  let! there := st_read (λ d, Ok (bool_decide (is_Some (stores d !! to)))) in
  let! target := st_read (λ d, Ok (links d !! from)) in
  match target with
  | Some t =>
      if b && negb there then upd_links (λ l, <[to := t]> (delete from l))
      else st_lift (Err (LinkSwap to))
  | None => st_lift (Err (LinkSwap to))
  end.

Definition read_link (link : string) : M string :=
  let! b := dir_op in
  let! target := st_read (λ d, Ok (links d !! link)) in
  match target with
  | Some t => if b : bool then st_ret t else st_lift (Err (LinkRead link))
  | None => st_lift (Err (LinkRead link))
  end.

Context `{SemVer V}.

Definition get_current_version : M V :=
  let! major := read_link "current" in
  let! minor := read_link major in
  let! patch := read_link minor in
  let version_str := if str_starts_with patch "v" then str_drop 1 patch else patch in
  st_lift (ok_or (ver_parse version_str) (InvalidDataStoreVersion patch)).

(** [format!]s of the link names. *)
Definition major_link (v : V) : string := "v" +:+ pretty (major v).
Definition minor_link (v : V) : string := major_link v +:+ "." +:+ pretty (minor v).
Definition patch_link (v : V) : string := minor_link v +:+ "." +:+ pretty (patch v).

Definition new_datastore_location (new_version : V) : M string :=
  let! r := rando in
  let to := "v" +:+ ver_to_string new_version +:+ "_" +:+ r in
  let! there := st_read (λ d, Ok (exists_in d to)) in
  if there : bool then st_lift (Err (NewVersionAlreadyExists to)) else st_ret to.

(** A link to [target] is made under a temporary name and renamed into place. *)
Definition swap_link (temp_link target link : string) : M () :=
  let! _ := symlink target temp_link in rename temp_link link.

Definition flip_to_new_version (version : V) (to_datastore : string) : M () :=
  let! opened := dir_op in
  if negb opened then st_lift (Err DataStoreDirOpen)
  else
    let! temp_link := rando in
    let! _ := swap_link temp_link to_datastore (patch_link version) in
    let! _ := swap_link temp_link (patch_link version) (minor_link version) in
    let! _ := swap_link temp_link (minor_link version) (major_link version) in
    let! _ := swap_link temp_link (major_link version) "current" in
    (* a failing fsync is only logged *)
    let! _ := dir_op in
    st_ret tt.

(** *** Running migrations *)

(** The binary, the direction and the source store, if there is one. *)
Variable run_binary : string → Direction → option D → MigrationRun D.

(** A failure to delete is only logged. *)
Definition delete_intermediate_datastore (path : string) : M () :=
  let! b := dir_op in
  if b : bool then upd_stores (delete path) else st_ret tt.

Fixpoint run_migrations_loop (repository : Repository) (version_meta : MigrationVersionMeta V)
    (migrations : list string) (source_datastore target_datastore : string)
    (intermediate_datastore : option string) : M string :=
  match migrations with
  | [] => st_ret target_datastore
  | migration :: migrations =>
      let! _ := st_lift (ensure (valid_target_name repository migration) (MigTargetName migration)) in
      let! stream := st_lift (map_err (λ _, LoadMigration migration) (read_target repository migration)) in
      let! stream := st_lift (ok_or stream (MigrationNotFound migration)) in
      let! _ := st_lift (ensure (lz4_header_ok repository stream) (MigLz4Decode migration)) in
      let! target_datastore := new_datastore_location (target_version version_meta) in
      let '(bytes, complete) := lz4_decode repository stream in
      let! _ := st_lift (ensure complete SealMigration) in
      let! source := st_read (λ d, Ok (stores d !! source_datastore)) in
      match run_binary bytes (direction version_meta) source with
      | NotStarted => st_lift (Err StartMigration)
      | Exited target success =>
          let! _ := upd_stores (match target with Some t => <[target_datastore := t]> | None => id end) in
          let! _ := st_lift (ensure success MigrationFailure) in
          let! _ := match intermediate_datastore with
                    | Some path => delete_intermediate_datastore path
                    | None => st_ret tt
                    end in
          run_migrations_loop repository version_meta migrations target_datastore target_datastore
            (Some target_datastore)
      end
  end.

Definition run_migrations (repository : Repository) (version_meta : MigrationVersionMeta V)
    (migrations : list string) (source_datastore : string) : M string :=
  run_migrations_loop repository version_meta migrations source_datastore source_datastore None.

Definition perform_migrations `{TotalOrd V} (repo : result (mig_error V) (Repository * Manifest V))
    (version_meta : MigrationVersionMeta V) (datastore_path : string) : M string :=
  let! rm := st_lift repo in
  let '(repo, manifest) := rm in
  let! migrations := st_lift (map_err FindMigrations
    (find_migrations (S (length (UpdateMetadata.migrations manifest)))
       (current_version version_meta) (target_version version_meta) manifest)) in
  match migrations with
  | [] => st_ret datastore_path
  | _ => run_migrations repo version_meta migrations datastore_path
  end.

Context `{HashOrder} `{SerdeJson} `{DataStore D}.
(** [DataStoreImplementation::new] of a path where nothing is stored yet. *)
Variable datastore_new : D.

Definition remove_transient_datastore_entries (datastore_path : string) (new_version : V) : M string :=
  let! target_datastore := new_datastore_location new_version in
  let! source := st_read (λ d, Ok (default datastore_new (stores d !! datastore_path))) in
  let '(target, r) := copy_without_transient_entries source datastore_new in
  let! _ := upd_stores <[target_datastore := target]> in
  let! _ := st_lift (map_err TransientData r) in
  st_ret target_datastore.

(** [run]: [false] when there is nothing to do. *)
Definition run `{TotalOrd V} (repo : result (mig_error V) (Repository * Manifest V))
    (datastore_path : string) (migrate_to_version : V) : M bool :=
  let! current_version := get_current_version in
  match migration_version_meta_new current_version migrate_to_version with
  | None => st_ret false
  | Some migration_version_meta =>
      let! migrated_datastore := perform_migrations repo migration_version_meta datastore_path in
      let! datastore := remove_transient_datastore_entries migrated_datastore migrate_to_version in
      let! _ := flip_to_new_version migrate_to_version datastore in
      st_ret true
  end.
End dir.

(** ** The links *)

(** The data store the links lead to, and the names on the way. *)
Definition leads_to (L : gmap string string) (live : string) (M m p : string) : Prop :=
  L !! "current" = Some M ∧ L !! M = Some m ∧ L !! m = Some p ∧ L !! p = Some live.

Definition live_store (L : gmap string string) : option string :=
  M ← L !! "current"; m ← L !! M; p ← L !! m; L !! p.

Fixpoint dots (s : string) : nat :=
  match s with
  | EmptyString => 0
  | String c s => (if decide (c = KEY_SEPARATOR) then 1 else 0) + dots s
  end.

(** The shape of the chain: a major, a minor and a patch version. *)
Record chain_names (M m p : string) : Prop := {
  cn_major : dots M = 0 ∧ M ≠ "current" ∧ M ≠ EmptyString;
  cn_minor : dots m = 1;
  cn_patch : dots p = 2 }.

Lemma dots_app s t : dots (s +:+ t) = dots s + dots t.
Proof. induction s as [|c s IH]; cbn; [done|]. rewrite IH. lia. Qed.

Lemma dots_pretty (n : N) : dots (pretty n) = 0.
Proof.
  assert (∀ n s, dots (pretty_N_go n s) = dots s) as Hgo.
  { intros n'. induction (N.lt_wf_0 n') as [n' _ IH]. intros s.
    destruct (decide (0 < n')%N) as [Hn|Hn].
    - rewrite pretty_N_go_step by done. rewrite IH by (apply N.div_lt; lia). cbn.
      rewrite decide_False; [done|].
      unfold pretty_N_char. repeat case_match; done.
    - assert (n' = 0%N) as -> by lia. by rewrite pretty_N_go_0. }
  unfold pretty, pretty_N. by case_decide; [|apply Hgo].
Qed.

Section names.
Context `{SemVer V}.

Lemma link_names (v : V) : chain_names (major_link v) (minor_link v) (patch_link v).
Proof.
  unfold patch_link, minor_link, major_link.
  split; rewrite ?dots_app, ?dots_pretty; cbn; [by split_and!|done..].
Qed.
End names.

Lemma leads_to_live L live M m p : leads_to L live M m p → live_store L = Some live.
Proof. intros (H1 & H2 & H3 & H4). unfold live_store. by rewrite H1; cbn; rewrite H2; cbn; rewrite H3. Qed.

Ltac in_list := solve [repeat (first [apply list_elem_of_here | apply list_elem_of_further])].

(** The names of two chains, and maps that differ in a name off the chains. *)
Section flip.
Variables (M0 m0 p0 M1 m1 p1 old new tmp : string) (L0 : gmap string string).
Hypothesis Hn0 : chain_names M0 m0 p0.
Hypothesis Hn1 : chain_names M1 m1 p1.
Hypothesis Hold : leads_to L0 old M0 m0 p0.
Definition on_chain : list string := ["current"; M0; m0; p0; M1; m1; p1].
Hypothesis Htmp : tmp ∉ on_chain.

Definition agree (L L' : gmap string string) : Prop := ∀ n, n ≠ tmp → L' !! n = L !! n.

(** Following the links over names of the chains leads to [x]. *)
Definition path_to (L : gmap string string) (x : string) : Prop :=
  ∃ M m p, leads_to L x M m p ∧ M ∈ on_chain ∧ m ∈ on_chain ∧ p ∈ on_chain.

Lemma leads_to_agree L L' x M m p :
  agree L L' → leads_to L x M m p → M ∈ on_chain → m ∈ on_chain → p ∈ on_chain → leads_to L' x M m p.
Proof using Htmp.
  intros Ha (H1 & H2 & H3 & H4) HM Hm Hp.
  assert (∀ n, n ∈ on_chain → L' !! n = L !! n) as Hc by (intros n Hn; apply Ha; by intros ->).
  unfold leads_to. rewrite !Hc by (done || by left). done.
Qed.

Lemma path_to_agree L L' x : agree L L' → path_to L x → path_to L' x.
Proof using Htmp.
  intros Ha (M & m & p & Hl & HM & Hm & Hp). exists M, m, p. split; [|done]. by eapply leads_to_agree.
Qed.

(** The four states of the links. *)
Definition L1 := <[p1 := new]> L0.
Definition L2 := <[m1 := p1]> L1.
Definition L3 := <[M1 := m1]> L2.
Definition L4 := <["current" := M1]> L3.

Lemma chain_apart :
  "current" ≠ M0 ∧ "current" ≠ m0 ∧ "current" ≠ p0 ∧ "current" ≠ M1 ∧ "current" ≠ m1 ∧ "current" ≠ p1 ∧
  M0 ≠ m0 ∧ M0 ≠ p0 ∧ M0 ≠ m1 ∧ M0 ≠ p1 ∧ m0 ≠ p0 ∧ m0 ≠ M1 ∧ m0 ≠ p1 ∧ p0 ≠ M1 ∧ p0 ≠ m1 ∧
  M1 ≠ m1 ∧ M1 ≠ p1 ∧ m1 ≠ p1.
Proof using Hn0 Hn1.
  destruct Hn0 as [(? & ? & _) ? ?], Hn1 as [(? & ? & _) ? ?].
  assert (dots "current" = 0) as Hcur by reflexivity.
  split_and!; intros Heq; first [congruence|apply (f_equal dots) in Heq; congruence].
Qed.

(** A lookup in a stage, by comparing names. *)
Ltac stage :=
  unfold L4, L3, L2, L1; rewrite ?lookup_insert; repeat (case_decide; try contradiction); try congruence; eauto 6.

(** A mixture of the two chains in which only the end of the new one is reached. *)
Lemma mixed_path L :
  L !! "current" = Some M0 →
  (L !! M0 = Some m0 ∨ L !! M0 = Some m1 ∧ L !! m1 = Some p1 ∧ L !! p1 = Some new) →
  (L !! m0 = Some p0 ∨ L !! m0 = Some p1 ∧ L !! p1 = Some new) →
  (L !! p0 = Some old ∨ L !! p0 = Some new) →
  path_to L old ∨ path_to L new.
Proof.
  intros E1 E2 E3 E4. unfold path_to, leads_to, on_chain.
  destruct E2 as [E2|(E2 & E2' & E2'')]; [|right; exists M0, m1, p1; split_and!; try done; in_list].
  destruct E3 as [E3|(E3 & E3')]; [|right; exists M0, m0, p1; split_and!; try done; in_list].
  destruct E4; [left|right]; exists M0, m0, p0; split_and!; try done; in_list.
Qed.

Lemma stage_path L : L ∈ [L0; L1; L2; L3] → path_to L old ∨ path_to L new.
Proof using Hn0 Hn1 Hold.
  destruct chain_apart as (?&?&?&?&?&?&?&?&?&?&?&?&?&?&?&?&?&?). destruct Hold as (Hc & HM & Hm & Hp).
  intros HL. repeat apply elem_of_cons in HL as [->|HL]; [..|by apply not_elem_of_nil in HL];
    apply mixed_path; try done; stage.
Qed.

Lemma last_leads : leads_to L4 new M1 m1 p1.
Proof using Hn0 Hn1.
  destruct chain_apart as (?&?&?&?&?&?&?&?&?&?&?&?&?&?&?&?&?&?).
  unfold leads_to. split_and!; stage.
Qed.

End flip.

Section flip_facts.
Context {D V : Type} `{SemVer V}.
Implicit Types d : DsDir D.

(** Taking an outcome or a random name changes neither links nor stores. *)
Definition same_dir d d' : Prop :=
  links d' = links d ∧ stores d' = stores d ∧ ∀ r, r ∈ dir_rand d' → r ∈ dir_rand d.

#[global] Instance same_dir_preorder : PreOrder same_dir.
Proof.
  unfold same_dir. split; [by intros d|].
  intros d1 d2 d3 (E1 & E2 & E3) (F1 & F2 & F3). split_and!; [congruence..|auto].
Qed.

Lemma dir_op_inv {A} d d' (k : bool → stres (DsDir D) (mig_error V) A) r :
  st_bind dir_op k d = (d', r) → ∃ b d1, same_dir d d1 ∧ k b d1 = (d', r).
Proof.
  unfold st_bind, dir_op. destruct (dir_io d) as [|b l]; intros Hk; by do 2 eexists; split; [|exact Hk].
Qed.

Lemma rando_inv {A} d d' (k : string → stres (DsDir D) (mig_error V) A) r :
  st_bind rando k d = (d', r) →
  ∃ x d1, same_dir d d1 ∧ (x = EmptyString ∨ x ∈ dir_rand d) ∧ k x d1 = (d', r).
Proof.
  unfold st_bind, rando. destruct (dir_rand d) as [|x l] eqn:E; intros Hk; do 2 eexists;
    (split; [|split; [|exact Hk]]); [done|by left| |right; by left].
  unfold same_dir. cbn. rewrite E. split_and!; [done..|]. intros. by right.
Qed.

Lemma read_inv {A B} (f : DsDir D → A) d d' (k : A → stres (DsDir D) (mig_error V) B) r :
  st_bind (st_read (λ d, Ok (f d))) k d = (d', r) → k (f d) d = (d', r).
Proof. done. Qed.

(** A swap leaves the links as they were, off the temporary name, or makes the new
    link; a success makes it. *)
Lemma swap_link_spec tmp target link d d' (r : result (mig_error V) ()) :
  tmp ≠ link → swap_link tmp target link d = (d', r) →
  stores d' = stores d ∧ (∀ r, r ∈ dir_rand d' → r ∈ dir_rand d) ∧
  (agree tmp (links d) (links d') ∧ r ≠ Ok tt ∨ agree tmp (<[link := target]> (links d)) (links d') ∧ r = Ok tt).
Proof.
  unfold swap_link, agree. intros Hne Hr.
  apply st_bind_inv in Hr as [(e & Hr & ->)|(d1 & [] & Hs & Hr)].
  { apply dir_op_inv in Hr as (b & d1 & (E1 & E2 & E3) & Hr). apply read_inv in Hr.
    destruct (b && _); [by unfold upd_links in Hr|]. unfold st_lift in Hr. simplify_eq.
    split_and!; [done..|]. left. split; [|done]. intros. by rewrite E1. }
  apply dir_op_inv in Hs as (b & d2 & (E1 & E2 & E3) & Hs). apply read_inv in Hs.
  destruct (b && _); [|done]. unfold upd_links in Hs. simplify_eq.
  apply dir_op_inv in Hr as (b' & d3 & (F1 & F2 & F3) & Hr). do 2 apply read_inv in Hr.
  rewrite F1 in Hr. cbn in *. rewrite lookup_insert_eq in Hr.
  destruct (b' && _).
  - unfold upd_links in Hr. simplify_eq. cbn. split_and!; [congruence|auto|]. right. split; [|done].
    intros n Hn. rewrite F1. rewrite !lookup_insert. case_decide; [done|].
    rewrite lookup_delete_ne, lookup_insert_ne by done. by rewrite E1.
  - unfold st_lift in Hr. simplify_eq. split_and!; [congruence|auto|]. left. split; [|done].
    intros n Hn. rewrite F1, lookup_insert_ne by done. by rewrite E1.
Qed.
Lemma agree_trans tmp (L L' L'' : gmap string string) : agree tmp L L' → agree tmp L' L'' → agree tmp L L''.
Proof. intros H1 H2 n Hn. by rewrite H2, H1. Qed.

Lemma agree_insert tmp (L L' : gmap string string) l t :
  agree tmp L L' → agree tmp (<[l := t]> L) (<[l := t]> L').
Proof. intros Ha n Hn. rewrite !lookup_insert. case_decide; [done|]. by apply Ha. Qed.

(** The links of a run that got to one stage of the flip. *)
Lemma swap_stage {A} tmp target link L d d' (k : () → stres (DsDir D) (mig_error V) A) r :
  tmp ≠ link → agree tmp L (links d) → st_bind (swap_link tmp target link) k d = (d', r) →
  (stores d' = stores d ∧ agree tmp L (links d') ∧ (∀ a, r ≠ Ok a)) ∨
  (∃ d1, stores d1 = stores d ∧ agree tmp (<[link := target]> L) (links d1) ∧ k tt d1 = (d', r)).
Proof.
  intros Hne Ha [(e & Hr & ->)|(d1 & [] & Hr & Hk)]%st_bind_inv;
    apply swap_link_spec in Hr as (E & _ & [[Ha' Hr]|[Ha' Hr]]); try done.
  - left. split_and!; [done| |done]. by eapply agree_trans.
  - right. exists d1. split_and!; [done| |done]. eapply agree_trans; [by apply agree_insert|done].
Qed.

(** The four swaps, at whatever point they stop. *)
Lemma swaps_spec tmp old new M0 m0 p0 M1 m1 p1 d d' (r : result (mig_error V) ()) :
  chain_names M0 m0 p0 → chain_names M1 m1 p1 → leads_to (links d) old M0 m0 p0 →
  tmp ∉ on_chain M0 m0 p0 M1 m1 p1 →
  st_bind (swap_link tmp new p1) (λ _, st_bind (swap_link tmp p1 m1) (λ _,
    st_bind (swap_link tmp m1 M1) (λ _, st_bind (swap_link tmp M1 "current") (λ _,
      st_bind dir_op (λ _, st_ret tt))))) d = (d', r) →
  stores d' = stores d ∧
  (live_store (links d') = Some old ∧ r ≠ Ok tt ∨ live_store (links d') = Some new) ∧
  (r = Ok tt → leads_to (links d') new M1 m1 p1).
Proof.
  intros Hn0 Hn1 Hold Ht Hr.
  assert (tmp ≠ p1 ∧ tmp ≠ m1 ∧ tmp ≠ M1 ∧ tmp ≠ "current") as (N1 & N2 & N3 & N4)
    by (split_and!; intros ->; apply Ht; unfold on_chain; in_list).
  assert (∀ L, L ∈ [links d; L1 p1 new (links d); L2 m1 p1 new (links d); L3 M1 m1 p1 new (links d)] →
    stores d' = stores d → agree tmp L (links d') → (∀ a, r ≠ Ok a) →
    stores d' = stores d ∧ (live_store (links d') = Some old ∧ r ≠ Ok tt ∨ live_store (links d') = Some new) ∧
    (r = Ok tt → leads_to (links d') new M1 m1 p1)) as Hfail.
  { intros L HL Es Ha Hne. split_and!; [done| |by intros ->; destruct (Hne tt)].
    destruct (stage_path M0 m0 p0 M1 m1 p1 old new (links d) Hn0 Hn1 Hold L HL) as [Hp|Hp];
      apply (path_to_agree M0 m0 p0 M1 m1 p1 tmp Ht L (links d') _ Ha) in Hp as (? & ? & ? & Hp & _);
      apply leads_to_live in Hp; [left|by right]. split; [done|]. apply Hne. }
  assert (agree tmp (links d) (links d)) as A0 by done.
  apply (swap_stage _ _ _ _ _ _ _ _ N1 A0) in Hr as [(T1 & A1 & R1)|(d3 & T1 & A1 & Hr)];
    [apply (Hfail (links d)); [in_list|congruence|done..]|].
  apply (swap_stage _ _ _ _ _ _ _ _ N2 A1) in Hr as [(T2 & A2 & R2)|(d4 & T2 & A2 & Hr)];
    [apply (Hfail (L1 p1 new (links d))); [in_list|congruence|done..]|].
  apply (swap_stage _ _ _ _ _ _ _ _ N3 A2) in Hr as [(T3 & A3 & R3)|(d5 & T3 & A3 & Hr)];
    [apply (Hfail (L2 m1 p1 new (links d))); [in_list|congruence|done..]|].
  apply (swap_stage _ _ _ _ _ _ _ _ N4 A3) in Hr as [(T4 & A4 & R4)|(d6 & T4 & A4 & Hr)];
    [apply (Hfail (L3 M1 m1 p1 new (links d))); [in_list|congruence|done..]|].
  apply dir_op_inv in Hr as (b & d7 & (G1 & G2 & _) & [= <- <-]). rewrite G1, G2.
  assert (leads_to (links d6) new M1 m1 p1) as Hl.
  { apply (leads_to_agree M0 m0 p0 M1 m1 p1 tmp Ht _ _ _ _ _ _ A4); [by apply last_leads with M0 m0 p0|..];
      unfold on_chain; in_list. }
  split_and!; [congruence| |done]. right. by eapply leads_to_live.
Qed.

Lemma flip_spec (v : V) old new M0 m0 p0 d d' (r : result (mig_error V) ()) :
  chain_names M0 m0 p0 → leads_to (links d) old M0 m0 p0 →
  (∀ x, x = EmptyString ∨ x ∈ dir_rand d →
     x ∉ on_chain M0 m0 p0 (major_link v) (minor_link v) (patch_link v)) →
  flip_to_new_version v new d = (d', r) →
  stores d' = stores d ∧
  (live_store (links d') = Some old ∧ r ≠ Ok tt ∨ live_store (links d') = Some new) ∧
  (r = Ok tt → leads_to (links d') new (major_link v) (minor_link v) (patch_link v)).
Proof.
  intros Hn0 Hold Hfresh Hr. unfold flip_to_new_version in Hr.
  apply dir_op_inv in Hr as (b & d1 & (E1 & E2 & E3) & Hr).
  destruct b; cbn in Hr; cycle 1.
  { unfold st_lift in Hr. simplify_eq. split_and!; [done| |done]. left. rewrite E1.
    split; [by eapply leads_to_live|done]. }
  apply rando_inv in Hr as (tmp & d2 & (F1 & F2 & F3) & Htmp & Hr).
  assert (stores d2 = stores d) as <- by congruence.
  eapply swaps_spec; [exact Hn0|apply link_names|by rewrite F1, E1|apply Hfresh|exact Hr].
  naive_solver.
Qed.
End flip_facts.

(** Flipping to a new version is atomic for readers: wherever
    [flip_to_new_version] stops -- a failing link, a failing rename, a crash
    between two operations -- following the links from [current] leads to the old
    data store or to the new one, never to nothing; no data store is touched; and
    success means that the chain of links of the new version leads to the new
    store. *)
Lemma flip_is_atomic {D V} `{SemVer V} (v : V) old new M0 m0 p0 (d d' : DsDir D) r :
  chain_names M0 m0 p0 → leads_to (links d) old M0 m0 p0 →
  (∀ x, x = EmptyString ∨ x ∈ dir_rand d →
     x ∉ on_chain M0 m0 p0 (major_link v) (minor_link v) (patch_link v)) →
  flip_to_new_version v new d = (d', r) →
  stores d' = stores d ∧
  (live_store (links d') = Some old ∧ r ≠ Ok tt ∨ live_store (links d') = Some new) ∧
  (r = Ok tt → leads_to (links d') new (major_link v) (minor_link v) (patch_link v)).
Proof. apply flip_spec. Qed.

(** Versions for evaluation: three numbers and a pre-release tag. *)
Definition example_version : Type := (N * N * N * string)%type.
Definition example_semver : SemVer example_version := {|
  major v := v.1.1.1; minor v := v.1.1.2; patch v := v.1.2;
  ver_to_string v := pretty v.1.1.1 +:+ "." +:+ pretty v.1.1.2 +:+ "." +:+ pretty v.1.2 +:+ v.2;
  ver_parse s :=
    if decide (s = "1.5.1") then Some (1, 5, 1, EmptyString)%N
    else if decide (s = "1.6.0") then Some (1, 6, 0, EmptyString)%N else None |}.

Definition example_dir (io : list bool) : DsDir nat :=
  mk_dir {[ "current" := "v1"; "v1" := "v1.5"; "v1.5" := "v1.5.1"; "v1.5.1" := "v1.5.1_abc" ]}
    {[ "v1.5.1_abc" := 7 ]} ["tmp"; "tmp2"; "tmp3"] io.

Lemma example_chain : chain_names "v1" "v1.5" "v1.5.1".
Proof. by split. Qed.

Lemma example_leads io : leads_to (links (example_dir io)) "v1.5.1_abc" "v1" "v1.5" "v1.5.1".
Proof. unfold leads_to. split_and!; vm_compute; reflexivity. Qed.

Definition example_target : example_version := (1, 6, 0, EmptyString)%N.
Lemma example_fresh_names io x :
  x = EmptyString ∨ x ∈ dir_rand (example_dir io) →
  x ∉ on_chain "v1" "v1.5" "v1.5.1" (@major_link _ example_semver example_target)
        (@minor_link _ example_semver example_target) (@patch_link _ example_semver example_target).
Proof.
  intros Hx. assert (x ∈ [EmptyString; "tmp"; "tmp2"; "tmp3"]) as Hx'.
  { cbn in Hx. rewrite elem_of_cons. done. }
  assert (Forall (λ x, x ∉ on_chain "v1" "v1.5" "v1.5.1" (@major_link _ example_semver example_target)
        (@minor_link _ example_semver example_target) (@patch_link _ example_semver example_target))
    [EmptyString; "tmp"; "tmp2"; "tmp3"]) as Hf by (apply (bool_decide_unpack _); vm_compute; exact I).
  rewrite Forall_forall in Hf. by apply Hf.
Qed.

(** The rename of the minor version's link fails: the old store stays live. *)
Lemma flip_is_atomic_witness :
  ∃ d', @flip_to_new_version _ _ example_semver example_target "v1.6.0_def"
          (example_dir [true; true; true; true; false]) = (d', Err (LinkSwap "v1.6")) ∧
    (live_store (links d') = Some "v1.5.1_abc" ∨ live_store (links d') = Some "v1.6.0_def").
Proof.
  assert ((@flip_to_new_version _ _ example_semver example_target "v1.6.0_def"
    (example_dir [true; true; true; true; false])).2 = Err (LinkSwap "v1.6")) as Ho
    by (vm_compute; reflexivity).
  destruct (@flip_to_new_version _ _ example_semver example_target "v1.6.0_def"
    (example_dir [true; true; true; true; false])) as [d' r] eqn:E. cbn [snd] in Ho. subst r.
  exists d'. split; [done|].
  destruct (@flip_is_atomic _ _ example_semver example_target "v1.5.1_abc" "v1.6.0_def" "v1" "v1.5" "v1.5.1"
    (example_dir [true; true; true; true; false]) d' _ example_chain (example_leads _)
    (example_fresh_names _) E) as (_ & [[Hl _]|Hl] & _); auto.
Defined.

(** What the next boot takes for the current version: once the links of a
    version are in place, [get_current_version] reads what the major, minor and
    patch numbers alone parse to -- so after a flip to a pre-release its tag is
    lost, and the migrator finds a version other than the one it migrated to. *)
Lemma flip_then_current_version {D V} `{SemVer V} (v : V) store (d d' : DsDir D) r :
  leads_to (links d) store (major_link v) (minor_link v) (patch_link v) → dir_io d = [] →
  get_current_version d = (d', r) →
  r = ok_or (ver_parse (pretty (major v) +:+ "." +:+ pretty (minor v) +:+ "." +:+ pretty (patch v)))
        (InvalidDataStoreVersion (patch_link v)).
Proof.
  intros (H1 & H2 & H3 & _) Hio Hr.
  assert (∀ n t, links d !! n = Some t → read_link (V := V) n d = (d, Ok t)) as Hread.
  { intros n t Hn. unfold read_link, st_bind, dir_op, st_read, st_ret. rewrite Hio, Hn. done. }
  unfold get_current_version, st_bind in Hr. rewrite (Hread _ _ H1), (Hread _ _ H2), (Hread _ _ H3) in Hr.
  unfold st_lift in Hr. injection Hr as _ <-. f_equal. f_equal.
  cbn. match goal with |- context [String.prefix EmptyString ?t] =>
    replace (String.prefix EmptyString t) with true by (by destruct t) end.
  by rewrite <- !str_app_assoc.
Qed.

Lemma flip_then_current_version_witness :
  ∃ d', @get_current_version nat _ example_semver (example_dir []) = (d', Ok (1, 5, 1, EmptyString)%N) ∧
    ver_parse (SemVer := example_semver) "1.5.1" = Some (1, 5, 1, EmptyString)%N.
Proof.
  destruct (@get_current_version nat _ example_semver (example_dir [])) as [d' r] eqn:E.
  pose proof (@flip_then_current_version _ _ example_semver (1, 5, 1, "-dev")%N "v1.5.1_abc"
    (example_dir []) d' r (example_leads []) eq_refl E) as ->.
  exists d'. split; [apply (f_equal (pair d')); vm_compute; reflexivity|vm_compute; reflexivity].
Defined.

(** ** A whole run *)

Section run_facts.
Context {D V : Type} `{SemVer V}.
Variable run_binary : string → Direction → option D → MigrationRun D.
Implicit Types d : DsDir D.

(** The data store that the migrations make of a source, one after the other, when
    each is found in the repository, decodes, starts and succeeds. *)
Fixpoint migrate_all (repo : Repository) (dir : Direction) (ms : list string) (source : D) : option D :=
  match ms with
  | [] => Some source
  | m :: ms =>
      match read_target repo m with
      | Ok (Some stream) =>
          match run_binary (lz4_decode repo stream).1 dir (Some source) with
          | Exited (Some target) true => migrate_all repo dir ms target
          | _ => None
          end
      | _ => None
      end
  end.

(** A migration that succeeds leaves a data store at its target path. *)
Definition leaves_target : Prop := ∀ b dir s t, run_binary b dir s = Exited t true → is_Some t.

(** What no step before the flip changes: the links and the stores that were there. *)
Definition grown d0 d : Prop :=
  links d = links d0 ∧ stores d0 ⊆ stores d ∧ ∀ r, r ∈ dir_rand d → r ∈ dir_rand d0.

#[global] Instance grown_preorder : PreOrder grown.
Proof.
  unfold grown. split; [by intros d|].
  intros d1 d2 d3 (E1 & E2 & E3) (F1 & F2 & F3). split_and!; [congruence|by etrans|auto].
Qed.

Lemma same_dir_grown d d' : same_dir d d' → grown d d'.
Proof. intros (E1 & E2 & E3). split_and!; [done|by rewrite E2|done]. Qed.

Lemma grown_insert d n t : stores d !! n = None → grown d (mk_dir (links d) (<[n := t]> (stores d)) (dir_rand d) (dir_io d)).
Proof. intros Hn. split_and!; [done| |done]. cbn. by apply insert_subseteq. Qed.

(** A new location is the name of nothing that exists. *)
Lemma new_location_inv {A} v d d' (k : string → stres (DsDir D) (mig_error V) A) r :
  st_bind (new_datastore_location v) k d = (d', r) →
  (∃ e, same_dir d d' ∧ r = Err e) ∨
  ∃ n d1, same_dir d d1 ∧ stores d !! n = None ∧ k n d1 = (d', r).
Proof.
  intros [(e & Hr & ->)|(d1 & n & Hl & Hk)]%st_bind_inv.
  - left. exists e. split; [|done]. unfold new_datastore_location in Hr.
    apply rando_inv in Hr as (x & d1 & E & _ & Hr). apply read_inv in Hr.
    destruct (exists_in _ _); unfold st_lift, st_ret in Hr; by simplify_eq.
  - right. exists n, d1. unfold new_datastore_location in Hl.
    apply rando_inv in Hl as (x & d2 & E & _ & Hl). apply read_inv in Hl.
    destruct (exists_in _ _) eqn:Ex; unfold st_lift, st_ret in Hl; [done|]. injection Hl as -> <-.
    split_and!; [done| |done]. unfold exists_in in Ex. apply orb_false_iff in Ex as [_ Ex].
    apply bool_decide_eq_false, eq_None_not_Some in Ex. by destruct E as (_ & <- & _).
Qed.

(** Deleting an intermediate store leaves what was there at the start, and the target. *)
Lemma delete_intermediate_inv {A} d0 d d' src inter tgt t (k : () → stres (DsDir D) (mig_error V) A) r :
  grown d0 d → (inter = None ∨ inter = Some src ∧ stores d0 !! src = None) → src ≠ tgt →
  stores d !! tgt = Some t →
  st_bind (match inter with Some path => delete_intermediate_datastore path | None => st_ret tt end) k d
    = (d', r) →
  ∃ d1, grown d0 d1 ∧ stores d1 !! tgt = Some t ∧ k tt d1 = (d', r).
Proof.
  intros Hg [->|[-> Hn]] Hne Ht Hr; [by exists d|].
  assert (∃ d1, same_dir d d1 ∧ (k tt d1 = (d', r) ∨
    k tt (mk_dir (links d1) (delete src (stores d1)) (dir_rand d1) (dir_io d1)) = (d', r)))
    as (d1 & (E1 & E2 & E3) & Hk).
  { unfold delete_intermediate_datastore, st_bind, dir_op in Hr. destruct (dir_io d) as [|[] l]; cbn in Hr;
      [exists d|exists (mk_dir (links d) (stores d) (dir_rand d) l)..]; split; [done|by right|done|by right|done|by left]. }
  destruct Hg as (G1 & G2 & G3), Hk as [Hk|Hk]; eexists; (split; [|split; [|exact Hk]]); cbn.
  - split_and!; [congruence|by rewrite E2|auto].
  - by rewrite E2.
  - split_and!; cbn; [congruence| |auto]. rewrite E2. apply map_subseteq_spec. intros n x Hx.
    rewrite lookup_delete_ne by congruence. by apply (lookup_weaken _ _ _ _ Hx).
  - by rewrite E2, lookup_delete_ne.
Qed.

(** What the migrations leave: a grown directory, and on success the store that the
    migrations make of the source.  The intermediate store that each round deletes
    is its source, which an earlier round made. *)
Lemma run_migrations_loop_spec repo vm ms : leaves_target →
  ∀ src inter d0 d d' r source,
  grown d0 d → stores d !! src = Some source →
  (inter = None ∨ inter = Some src ∧ stores d0 !! src = None) →
  run_migrations_loop run_binary repo vm ms src src inter d = (d', r) →
  grown d0 d' ∧ ∀ n, r = Ok n → ∃ migrated,
    stores d' !! n = Some migrated ∧ migrate_all repo (direction vm) ms source = Some migrated.
Proof using Type.
  intros Hleave. induction ms as [|m ms IH]; intros src inter d0 d d' r source Hg Hsrc Hint Hr; cbn in Hr.
  { unfold st_ret in Hr. simplify_eq. split; [done|]. intros n [= <-]. eauto. }
  destruct (ensure _ _); [|by simplify_eq].
  destruct (map_err _ (read_target repo m)) as [o|e] eqn:Ho; [|by simplify_eq].
  destruct o as [stream|]; cbn in Hr; [|by simplify_eq].
  destruct (ensure _ _); [|by simplify_eq].
  apply new_location_inv in Hr as [(e & E & ->)|(tgt & d1 & E & Hnew & Hr)];
    [split; [etrans; [done|by apply same_dir_grown]|done]|].
  assert (grown d0 d1) as Hg1 by (etrans; [done|by apply same_dir_grown]).
  destruct E as (_ & E & _). rewrite <- E in Hsrc, Hnew. clear Hg d E. rename d1 into d, Hg1 into Hg.
  destruct (lz4_decode repo stream) as [bytes complete] eqn:Hdec.
  apply st_lift_inv in Hr as [(e & _ & -> & ->)|([] & _ & Hr)]; [by split|].
  apply read_inv in Hr. rewrite Hsrc in Hr.
  destruct (run_binary bytes (direction vm) (Some source)) as [|t success] eqn:Hrun; [by unfold st_lift in Hr; simplify_eq|].
  assert (∃ d1, grown d d1 ∧ (∀ t', t = Some t' → stores d1 !! tgt = Some t') ∧
    st_bind (st_lift (ensure success MigrationFailure)) (λ _, st_bind (match inter with
      Some path => delete_intermediate_datastore path | None => st_ret tt end) (λ _,
      run_migrations_loop run_binary repo vm ms tgt tgt (Some tgt))) d1 = (d', r)) as (d1 & Hg1 & Ht & Hr').
  { destruct t; eexists; (split; [|split; [|exact Hr]]); [by apply grown_insert| |by destruct d|done].
    intros ? [= ->]. apply lookup_insert_eq. }
  clear Hr. rename Hr' into Hr. assert (grown d0 d1) as Hg01 by (by etrans).
  destruct success; [|unfold st_bind, st_lift in Hr; cbn in Hr; by simplify_eq].
  destruct (Hleave _ _ _ _ Hrun) as [t' ->].
  apply (delete_intermediate_inv d0 d1 d' src inter tgt t') in Hr as (d2 & Hg2 & Ht2 & Hr);
    [|done|done|congruence|by apply Ht].
  apply (IH tgt (Some tgt) d0 d2 d' r t') in Hr as [? Hr]; [|done|done|right; split; [done|]].
  - split; [done|]. intros n Hn. destruct (Hr n Hn) as (migrated & ? & ?). exists migrated. split; [done|].
    cbn. destruct (read_target repo m); cbn in Ho; simplify_eq. rewrite Hdec. cbn. by rewrite Hrun.
  - destruct (stores d0 !! tgt) eqn:E0; [|done]. destruct Hg as (_ & Hg & _).
    by rewrite (lookup_weaken _ _ _ _ E0 Hg) in Hnew.
Qed.

Context `{HashOrder} `{SerdeJson} `{DataStore D}.
Variable datastore_new : D.

Lemma perform_migrations_spec `{TotalOrd V} repo vm d d' path source r :
  leaves_target → stores d !! path = Some source →
  perform_migrations run_binary repo vm path d = (d', r) →
  grown d d' ∧ ∀ n, r = Ok n → ∃ repository manifest ms migrated,
    repo = Ok (repository, manifest) ∧
    find_migrations (S (length (UpdateMetadata.migrations manifest))) (current_version vm)
      (target_version vm) manifest = Ok ms ∧
    stores d' !! n = Some migrated ∧ migrate_all repository (direction vm) ms source = Some migrated.
Proof.
  intros Hleave Hsrc Hr. unfold perform_migrations in Hr.
  apply st_lift_inv in Hr as [(e & _ & -> & ->)|([repository manifest] & -> & Hr)]; [done|].
  apply st_lift_inv in Hr as [(e & _ & -> & ->)|(ms & Hms & Hr)]; [done|].
  destruct (find_migrations _ _ _ manifest) as [ms'|] eqn:Hf; cbn in Hms; [injection Hms as ->|done].
  assert (run_migrations_loop run_binary repository vm ms path path None d = (d', r)) as Hr'
    by (by destruct ms).
  apply (run_migrations_loop_spec _ _ _ Hleave _ _ d _ _ _ source) in Hr' as [? Hr']; [|done..|by left].
  split; [done|]. intros n Hn. destruct (Hr' n Hn) as (migrated & ? & ?). by exists repository, manifest, ms, migrated.
Qed.

Lemma remove_transient_entries_spec d d' path v migrated r :
  stores d !! path = Some migrated →
  remove_transient_datastore_entries datastore_new path v d = (d', r) →
  grown d d' ∧ ∀ n, r = Ok n → ∃ target,
    stores d !! n = None ∧ stores d' !! n = Some target ∧
    copy_without_transient_entries migrated datastore_new = (target, Ok tt).
Proof.
  intros Hsrc Hr. unfold remove_transient_datastore_entries in Hr.
  apply new_location_inv in Hr as [(e & E & ->)|(tgt & d1 & E & Hnew & Hr)]; [split; [by apply same_dir_grown|done]|].
  destruct E as (E1 & E2 & E3). apply read_inv in Hr. rewrite E2, Hsrc in Hr. unfold default, from_option, id in Hr.
  destruct (copy_without_transient_entries migrated datastore_new) as [target x] eqn:Hc.
  set (d2 := mk_dir (links d1) (<[tgt := target]> (stores d1)) (dir_rand d1) (dir_io d1)).
  assert (grown d d2) as Hg.
  { split_and!; [done| |done]. cbn. rewrite E2. by apply insert_subseteq. }
  change (st_bind (st_lift (map_err TransientData x)) (λ _, st_ret tgt) d2 = (d', r)) in Hr.
  destruct x as [[]|e]; unfold st_bind, st_lift, st_ret in Hr; cbn in Hr; simplify_eq; [|done].
  split; [done|]. intros n [= <-]. exists target. split_and!; [done|apply lookup_insert_eq|done].
Qed.

Lemma read_link_same link d d' (r : result (mig_error V) string) :
  read_link link d = (d', r) → same_dir d d'.
Proof.
  intros Hr. unfold read_link in Hr. apply dir_op_inv in Hr as (b & d1 & E & Hr). apply read_inv in Hr.
  destruct (links d1 !! link), b; unfold st_ret, st_lift in Hr; by simplify_eq.
Qed.

Lemma get_current_version_same d d' (r : result (mig_error V) V) :
  get_current_version d = (d', r) → same_dir d d'.
Proof.
  intros Hr. unfold get_current_version in Hr.
  apply st_bind_inv in Hr as [(e & Hr & ->)|(d1 & major & E1 & Hr)]; [by eapply read_link_same|].
  apply st_bind_inv in Hr as [(e & Hr & ->)|(d2 & minor & E2 & Hr)];
    [etrans; eapply read_link_same; done|].
  apply st_bind_inv in Hr as [(e & Hr & ->)|(d3 & patch & E3 & Hr)];
    [etrans; [|etrans]; eapply read_link_same; done|].
  unfold st_lift in Hr. injection Hr as <- <-. etrans; [|etrans]; eapply read_link_same; done.
Qed.

(** The temporary names of links are new. *)
Definition fresh_names d (v : V) (M0 m0 p0 : string) : Prop :=
  ∀ x, x = EmptyString ∨ x ∈ dir_rand d →
    x ∉ on_chain M0 m0 p0 (major_link v) (minor_link v) (patch_link v).

Lemma grown_flip d0 d d' (v : V) old new M0 m0 p0 (r : result (mig_error V) ()) :
  grown d0 d → chain_names M0 m0 p0 → leads_to (links d0) old M0 m0 p0 → fresh_names d0 v M0 m0 p0 →
  flip_to_new_version v new d = (d', r) →
  stores d' = stores d ∧
  (live_store (links d') = Some old ∧ r ≠ Ok tt ∨ live_store (links d') = Some new) ∧
  (r = Ok tt → leads_to (links d') new (major_link v) (minor_link v) (patch_link v)).
Proof.
  intros (E1 & E2 & E3) Hn Hl Hf Hr. rewrite <- E1 in Hl.
  eapply flip_spec; [done|done| |done]. intros x [->|Hx]; apply Hf; [by left|right; auto].
Qed.

(** What made a new live store: the migrations between the two versions, run on the
    old store, and the removal of transient data. *)
Definition migrated_store `{TotalOrd V} (repo : result (mig_error V) (Repository * Manifest V))
    (current to : V) (source target : D) : Prop :=
  ∃ dir repository manifest ms migrated,
    from_versions current to = Some dir ∧ repo = Ok (repository, manifest) ∧
    find_migrations (S (length (UpdateMetadata.migrations manifest))) current to manifest = Ok ms ∧
    migrate_all repository dir ms source = Some migrated ∧
    copy_without_transient_entries migrated datastore_new = (target, Ok tt).

End run_facts.

(** C28. A run of the migrator never loses data: wherever it stops -- an unreadable
    link, a missing or failing migration, a name collision, a failed copy, a failed
    rename -- every data store that existed before is still there, unchanged, and
    the links from [current] lead to the old store, or to a new one that is
    complete: the migrations between the two versions applied to the old store one
    after the other, with the transient entries removed.  A successful run has made
    the new store live under the name of the new version. *)
Theorem run_never_loses_data `{SemVer V} `{TotalOrd V} `{HashOrder} `{SerdeJson} `{DataStore D}
    (run_binary : string → Direction → option D → MigrationRun D) (datastore_new : D)
    repo old (to : V) M0 m0 p0 (d d' : DsDir D) source r :
  leaves_target run_binary → chain_names M0 m0 p0 → leads_to (links d) old M0 m0 p0 →
  fresh_names d to M0 m0 p0 → stores d !! old = Some source →
  run run_binary datastore_new repo old to d = (d', r) →
  stores d ⊆ stores d' ∧
  (live_store (links d') = Some old ∧ r ≠ Ok true ∨
   ∃ new target current, live_store (links d') = Some new ∧ stores d !! new = None ∧
     stores d' !! new = Some target ∧ (∃ d1, get_current_version d = (d1, Ok current)) ∧
     migrated_store run_binary datastore_new repo current to source target) ∧
  (r = Ok true → ∃ new, leads_to (links d') new (major_link to) (minor_link to) (patch_link to)).
Proof.
  intros Hleave Hn Hl Hf Hsrc Hr. unfold run in Hr.
  match goal with |- ?G => assert (grown d d' → r ≠ Ok true → G) as Hearly end.
  { intros (E1 & E2 & _) Hne. split_and!; [done| |done]. left. rewrite E1. split; [by eapply leads_to_live|done]. }
  apply st_bind_inv in Hr as [(e & Hr & ->)|(d1 & current & Hc & Hr)];
    [apply Hearly; [by eapply same_dir_grown, get_current_version_same|done]|].
  pose proof (same_dir_grown _ _ (get_current_version_same _ _ _ Hc)) as Hg1.
  unfold migration_version_meta_new in Hr. destruct (from_versions current to) as [dir|] eqn:Hdir; cbn in Hr;
    [|unfold st_ret in Hr; simplify_eq; by apply Hearly].
  assert (stores d1 !! old = Some source) as Hsrc1 by (apply (lookup_weaken _ _ _ _ Hsrc), Hg1).
  apply st_bind_inv in Hr as [(e & Hr & ->)|(d2 & path & Hm & Hr)];
    [apply (perform_migrations_spec _ _ _ _ _ _ _ _ Hleave Hsrc1) in Hr as [Hg _]; apply Hearly; [by etrans|done]|].
  apply (perform_migrations_spec _ _ _ _ _ _ _ _ Hleave Hsrc1) in Hm as [Hg2 Hm].
  destruct (Hm _ eq_refl) as (repository & manifest & ms & migrated & -> & Hfind & Hmig & Hall). clear Hm.
  assert (grown d d2) as Hg02 by (by etrans).
  apply st_bind_inv in Hr as [(e & Hr & ->)|(d3 & new & Ht & Hr)];
    [apply (remove_transient_entries_spec _ _ _ _ _ _ _ Hmig) in Hr as [Hg _]; apply Hearly; [by etrans|done]|].
  apply (remove_transient_entries_spec _ _ _ _ _ _ _ Hmig) in Ht as [Hg3 Ht].
  destruct (Ht _ eq_refl) as (target & Hnone & Htgt & Hcopy). clear Ht.
  assert (grown d d3) as Hg03 by (by etrans).
  assert (∃ rf, flip_to_new_version to new d3 = (d', rf) ∧ (rf = Ok tt ↔ r = Ok true)) as (rf & Hflip & Hrf).
  { apply st_bind_inv in Hr as [(e & Hr & ->)|(d4 & [] & Hfl & Hr)]; [by exists (Err e)|].
    exists (Ok tt). unfold st_ret in Hr. by simplify_eq. }
  apply (grown_flip d d3 d' to old new M0 m0 p0) in Hflip as (Hst & Hlive & Hlast); [|done..].
  split_and!; [rewrite Hst; apply Hg03| |intros Hok; exists new; by apply Hlast, Hrf].
  destruct Hlive as [[Hlive Hne]|Hlive]; [left; split; [done|]; intros Hok; by apply Hne, Hrf|].
  right. exists new, target, current. rewrite Hst. split_and!; [done| |done|by exists d1|].
  - destruct (stores d !! new) eqn:E; [|done].
    by rewrite (lookup_weaken _ _ _ _ E (proj1 (proj2 Hg02))) in Hnone.
  - by exists dir, repository, manifest, ms, migrated.
Qed.

#[local] Existing Instance example_order.
#[local] Existing Instance example_json.

(** Versions 1.5.1 and 1.6.0 written as 151 and 160, one migration between them that
    keeps the store, and a data store with weak settings and services. *)
Definition example_numbers : SemVer Z := {|
  major v := Z.to_N (v / 100); minor v := Z.to_N (v / 10 mod 10); patch v := Z.to_N (v mod 10);
  ver_to_string v := pretty v;
  ver_parse s := if decide (s = "1.5.1") then Some 151%Z else None |}.
Definition example_binary (b : string) (dir : Direction) (s : option MemoryDataStore) : MigrationRun MemoryDataStore :=
  match s with Some s => Exited (Some s) true | None => Exited None false end.
Definition example_old : DsDir MemoryDataStore :=
  mk_dir (links (example_dir [])) {[ "v1.5.1_abc" := example_source ]} ["r1"; "r2"; "tmp"] [].
Definition example_repo : result (mig_error Z) (Repository * Manifest Z) :=
  Ok (example_repository, mk_manifest [] [((151, 160)%Z, ["migrate_v1.6.0_x"])]).

Lemma example_old_fresh : fresh_names (H := example_numbers) example_old 160%Z "v1" "v1.5" "v1.5.1".
Proof.
  intros x Hx. assert (x ∈ [EmptyString; "r1"; "r2"; "tmp"]) as Hx' by (by rewrite elem_of_cons).
  clear Hx. revert x Hx'. apply Forall_forall, (bool_decide_unpack _). vm_compute. exact I.
Qed.

Definition example_migration :=
  @run MemoryDataStore Z example_numbers example_binary _ _ _ memory_new _ example_repo "v1.5.1_abc" 160%Z example_old.

Lemma run_never_loses_data_witness :
  ∃ new, leads_to (links example_migration.1) new "v1" "v1.6" "v1.6.0" ∧
    stores example_migration.1 !! "v1.5.1_abc" = Some example_source.
Proof.
  assert (example_migration.2 = Ok true) as Ho by (vm_compute; reflexivity).
  destruct example_migration as [d' r] eqn:E; cbn [fst snd] in *. subst r.
  destruct (@run_never_loses_data Z example_numbers _ _ _ MemoryDataStore _ example_binary memory_new
    example_repo "v1.5.1_abc" 160%Z "v1" "v1.5" "v1.5.1" example_old d' example_source (Ok true))
    as (Hs & _ & Hnew).
  - intros b dir [s|] t; cbn; intros [= <-]; eauto.
  - exact example_chain.
  - exact (example_leads []).
  - exact example_old_fresh.
  - reflexivity.
  - exact E.
  - destruct (Hnew eq_refl) as [new Hl]. exists new. split; [exact Hl|].
    apply (lookup_weaken (stores example_old)); [reflexivity|exact Hs].
Defined.
