(* ===== verification/Storewolf.v ===== *)
(** * storewolf ([sources/api/storewolf/src/main.rs], [lib.rs])

    Creates the data store of a host that has none and fills in the defaults of the
    image: default settings go to the transaction of the launch services, metadata
    and other defaults are live at once; what is already there is kept.

    The directory of the data stores, its links and the outcomes of its operations
    are those of [Migrator]; what storewolf asks of one store's directory, next to
    the [DataStore] trait, is the class [StoreDir], with instances for both data
    stores.  The toml crate and [SingleLineString] are the class [TomlTypes]. *)
From S2P Require Import Prelude DsError Key Json KeyMap Serialization DataStore Memory Filesystem StoreMeta BTree UpdateMetadata Updog MigratorData Migrator.
From Stdlib Require Import Ascii.
From stdpp Require Import base numbers list strings gmap pretty.
From stdpp Require Import options.

(** ** Definitions *)

(** [constants::LAUNCH_TRANSACTION]. *)
Definition LAUNCH_TRANSACTION : string := "bottlerocket-launch".

(** [toml::Value]; a table is the list of its entries in iteration order. *)
Inductive toml :=
| TString (s : string)
| TInteger (n : Z)
| TFloat (bits : Z)
| TBoolean (b : bool)
| TDatetime (s : string)
| TArray (l : list toml)
| TTable (m : list (string * toml)).

Inductive sw_error :=
| DeletePending (source : io_error)
| DirectoryCreation
| SwLinkCreate
| ReleaseVersion
| DefaultsFormatting
| DefaultsNotTable
| DefaultSettingsNotTable
| DefaultsMetadataUnexpectedFormat
| QueryData (source : error)
| QueryMetadata (source : error)
| SwSerialization (given : string) (source : ser_error)
| SwSerializeScalar
| WriteKeys (source : error)
| SwInvalidKey (key_type : KeyType) (key : string) (source : error)
| WriteMetadata (source : error)
| SwInternal (msg : string)
| SwSingleLineString
| ReadDefaults
| JsonConversion
(** Not variants: [current] leads nowhere, and the fuel of the loop ran out. *)
| SwNoStore
| SwOutOfFuel.

(** [SingleLineString::try_from], [serde_json::to_value] and [serialize_scalar] of
    a [toml::Value], and [toml::from_str]. *)
Class TomlTypes := {
  single_line : string → bool;
  toml_to_value : toml → result json_error Json.json;
  toml_scalar : toml → result json_error string;
  toml_from_str : string → option toml }.

(** [model::Metadata]. *)
Record Metadata := mk_metadata { md_data : string; md_md : string; md_val : toml }.

Definition SETTING_GENERATOR : string := "setting-generator".

(** *** [parse_metadata_toml] *)

Section parse.
Context `{TomlTypes}.

Definition single_line_string (s : string) : result sw_error string :=
  let? _ := ensure (single_line s) SwSingleLineString in Ok s.

Definition make_metadata (md_key data_key : string) (val : toml) : result sw_error Metadata :=
  let? md := single_line_string md_key in
  let? key := single_line_string data_key in
  Ok (mk_metadata key md val).

(** The loop over the entries of a table.  The last element of [to_process] is the
    head of the list. *)
Fixpoint process_table (path : list string) (table : list (string * toml))
    (to_process : list (list string * toml)) (def_metadatas : list Metadata) :
    result sw_error (list (list string * toml) * list Metadata) :=
  match table with
  | [] => Ok (to_process, def_metadatas)
  | (key, val) :: table =>
      if decide (key = SETTING_GENERATOR) then
        match val with
        | TString _ => process_table path table ((path ++ [key], val) :: to_process) def_metadatas
        | TTable _ =>
            let? m := make_metadata key (str_join "." path) val in
            process_table path table to_process (def_metadatas ++ [m])
        | _ => Err DefaultsMetadataUnexpectedFormat
        end
      else process_table path table ((path ++ [key], val) :: to_process) def_metadatas
  end.

Fixpoint parse_metadata_loop (fuel : nat) (to_process : list (list string * toml))
    (def_metadatas : list Metadata) : result sw_error (list Metadata) :=
  match fuel, to_process with
  | 0, _ => Err SwOutOfFuel
  | _, [] => Ok def_metadatas
  | S fuel, (path, toml_value) :: to_process =>
      match toml_value with
      | TTable table =>
          let? r := process_table path table to_process def_metadatas in
          parse_metadata_loop fuel r.1 r.2
      | TArray _ | TString _ =>
          let? md_key := ok_or (last path) (SwInternal "empty path in the to_process vec") in
          let path := removelast path in
          let? _ := ensure (negb (bool_decide (path = [])))
                      (SwInternal "Cannot create empty metadata data key - is root not a Table?") in
          let? m := make_metadata md_key (str_join "." path) toml_value in
          parse_metadata_loop fuel to_process (def_metadatas ++ [m])
      | _ => Err DefaultsMetadataUnexpectedFormat
      end
  end.

(** The number of values the loop can meet. *)
Fixpoint toml_size (t : toml) : nat :=
  match t with
  | TTable m => S (foldr (λ kv n, toml_size kv.2 + n) 0 m)
  | _ => 1
  end.

Definition parse_metadata_toml (md_toml_val : toml) : result sw_error (list Metadata) :=
  parse_metadata_loop (S (toml_size md_toml_val)) [([], md_toml_val)] [].
End parse.

(** *** Filling in the defaults *)

Section populate.
Context `{HashOrder} `{SerdeJson} `{TomlTypes} `{DataStore D}.

(** The pairs whose key is not there yet. *)
Definition missing_pairs (existing_data : key_set) (pairs : key_map string) : key_map string :=
  foldl (λ res '(key, val), if hs_contains key existing_data then res else hm_insert key val res)
    ∅ (hm_iter pairs).

Definition populate_default_data (default_settings_value : option toml) (existing_data : key_set) :
    stres D sw_error () :=
  match default_settings_value with
  | None => st_ret tt
  | Some def_settings_val =>
      let! _ := st_lift (ensure (match def_settings_val with TTable _ => true | _ => false end)
                           DefaultSettingsNotTable) in
      let! settings_json := st_lift (map_err (λ _, JsonConversion) (toml_to_value def_settings_val)) in
      let! def_settings := st_lift (map_err (SwSerialization "default settings")
                                      (to_pairs_with_prefix "settings" settings_json)) in
      st_map_err WriteKeys
        (set_keys (missing_pairs existing_data def_settings) (Pending LAUNCH_TRANSACTION))
  end.

(** [HashMap<Key, HashSet<Key>>] flattened to pairs, and a set of triples. *)
Definition existing_pairs (existing_metadata : key_map key_set) :
    gset (list string * list string) :=
  list_to_set (hm_iter existing_metadata ≫= λ data,
    (λ md_key, (segments data.1, segments md_key)) <$> hs_iter data.2).

Abbreviation triple_set := (gmap (list string * list string * string) (Key * Key * string)).
Definition triple_insert (md data_key : Key) (value : string) (s : triple_set) : triple_set :=
  let i := (segments md, segments data_key, value) in
  match s !! i with Some _ => s | None => <[i := (md, data_key, value)]> s end.

(** The loop that keeps the metadata that is not there yet. *)
Fixpoint missing_metadata (existing_metadata : gset (list string * list string))
    (def_metadatas : list Metadata) (metadata_to_write : triple_set) : result sw_error triple_set :=
  match def_metadatas with
  | [] => Ok metadata_to_write
  | m :: def_metadatas =>
      let? data_key := map_err (SwInvalidKey Data (md_data m)) (key_new Data (md_data m)) in
      let? md_key := map_err (SwInvalidKey Meta (md_md m)) (key_new Meta (md_md m)) in
      if decide ((segments data_key, segments md_key) ∈ existing_metadata)
      then missing_metadata existing_metadata def_metadatas metadata_to_write
      else
        let? value := map_err (λ _, SwSerializeScalar) (toml_scalar (md_val m)) in
        missing_metadata existing_metadata def_metadatas
          (triple_insert md_key data_key value metadata_to_write)
  end.

Definition write_metadata (metadata_to_write : list (Key * Key * string)) : stres D sw_error () :=
  st_forM metadata_to_write (λ '(md, key, val),
    st_map_err WriteMetadata (set_metadata md key val Live)).

Definition populate_default_metadata (default_metadata : option toml)
    (existing_metadata : key_map key_set) : stres D sw_error () :=
  match default_metadata with
  | None => st_ret tt
  | Some def_metadata_val =>
      let! def_metadatas := st_lift (parse_metadata_toml def_metadata_val) in
      let! metadata_to_write :=
        st_lift (missing_metadata (existing_pairs existing_metadata) def_metadatas ∅) in
      write_metadata (hash_iter metadata_to_write)
  end.

(** [Table::remove]. *)
Definition table_get (k : string) (m : list (string * toml)) : option toml :=
  snd <$> head (filter (λ kv, kv.1 = k) m).
Definition table_remove (k : string) (m : list (string * toml)) : list (string * toml) :=
  filter (λ kv, kv.1 ≠ k) m.

(** The part of [populate_default_datastore] that writes the defaults. *)
Definition populate_defaults (defaults_val : toml) (existing_metadata : key_map key_set)
    (existing_data : key_set) : stres D sw_error () :=
  match defaults_val with
  | TTable table =>
      let maybe_metadata_val := table_get "metadata" table in
      let table := table_remove "metadata" table in
      let maybe_settings_val := table_get "settings" table in
      let table := table_remove "settings" table in
      let! _ := populate_default_data maybe_settings_val existing_data in
      let! _ := populate_default_metadata maybe_metadata_val existing_metadata in
      let! defaults_json := st_lift (map_err (λ _, JsonConversion) (toml_to_value (TTable table))) in
      let! defaults := st_lift (map_err (SwSerialization "other defaults") (to_pairs defaults_json)) in
      if decide (defaults = ∅) then st_ret tt
      else st_map_err WriteKeys (set_keys (missing_pairs existing_data defaults) Live)
  | _ => st_lift (Err DefaultsNotTable)
  end.
End populate.

(** *** The directory of a store *)

(** A new directory, whether its [live] exists, and [fs::remove_dir_all] of its
    [pending]. *)
Class StoreDir (D : Type) := {
  sd_new : D;
  sd_live_exists : D → bool;
  sd_remove_pending : stres D io_error () }.

#[global] Instance memory_store_dir : StoreDir MemoryDataStore := {|
  sd_new := memory_new;
  sd_live_exists d := bool_decide (live d ≠ ∅);
  sd_remove_pending d :=
    if decide (pending d = ∅) then (d, Err NotFound)
    else (mk_memory ∅ (live d) (Memory.metadata d) (pending_metadata d), Ok tt) |}.

(** [FilesystemDataStore::new(base_path/current)] on a new directory, which is
    empty. *)
Definition bare_disk (base_path : string) : disk := make_dirs (components base_path) ∅.
Definition filesystem_store_dir (base_path : string) : StoreDir FilesystemDataStore := {|
  sd_new := filesystem_new base_path (bare_disk base_path);
  sd_live_exists self := fs_exists (fs_disk self) (components (live_path self));
  sd_remove_pending self :=
    let '(d, r) := fs_remove_dir_all (components (pending_base_path self)) (fs_disk self) in
    (with_disk d self, r) |}.

(** *** [create_new_datastore], [populate_default_datastore] and [run] *)

(** The kernel follows at most 40 links. *)
Definition MAX_LINKS : nat := 40.
Fixpoint follow {D} (fuel : nat) (d : DsDir D) (n : string) : option string :=
  match stores d !! n with
  | Some _ => Some n
  | None => match fuel with 0 => None | S fuel => t ← links d !! n; follow fuel d t end
  end.
Definition current_store {D} (d : DsDir D) : option string := follow MAX_LINKS d "current".

Section run.
Context `{HashOrder} `{SerdeJson} `{TomlTypes} `{DataStore D} `{StoreDir D} `{SemVer V}.
Abbreviation SW := (stres (DsDir D) sw_error).

(** [fs::create_dir_all]: a directory that is there, or that a link leads to, is
    fine. *)
Definition create_store (n : string) : SW () :=
  let! b := st_map_err (λ _ : mig_error V, DirectoryCreation) dir_op in
  let! there := st_read (λ d, Ok (bool_decide (is_Some (follow MAX_LINKS d n)))) in
  let! link := st_read (λ d, Ok (bool_decide (is_Some (links d !! n)))) in
  if negb b then st_lift (Err DirectoryCreation)
  else if there : bool then st_ret tt
  else if link : bool then st_lift (Err DirectoryCreation)
  else st_map_err (λ _ : mig_error V, DirectoryCreation) (upd_stores <[n := sd_new]>).

Definition sw_symlink (target link : string) : SW () :=
  st_map_err (λ _ : mig_error V, SwLinkCreate) (symlink target link).

(** [release] is the version of [BottlerocketRelease::new()]. *)
Definition create_new_datastore (version release : option V) : SW string :=
  let! version := match version with
                  | Some v => st_ret v
                  | None => st_lift (ok_or release ReleaseVersion)
                  end in
  let! random_id := st_map_err (λ _ : mig_error V, SwOutOfFuel) rando in
  let data_store_filename := patch_link version +:+ "_" +:+ random_id in
  let! _ := create_store data_store_filename in
  let! _ := sw_symlink data_store_filename (patch_link version) in
  let! _ := sw_symlink (patch_link version) (minor_link version) in
  let! _ := sw_symlink (minor_link version) (major_link version) in
  let! _ := sw_symlink (major_link version) "current" in
  st_ret data_store_filename.

(** An operation of the data store that [current] leads to. *)
Definition with_current {A} (m : stres D sw_error A) : SW A := λ d,
  match current_store d with
  | Some n =>
      match stores d !! n with
      | Some s =>
          let '(s', r) := m s in (mk_dir (links d) (<[n := s']> (stores d)) (dir_rand d) (dir_io d), r)
      | None => (d, Err SwNoStore)
      end
  | None => (d, Err SwNoStore)
  end.

(** [live_path.exists()]: through the links. *)
Definition live_exists (d : DsDir D) : bool :=
  match n ← current_store d; stores d !! n with Some s => sd_live_exists s | None => false end.

(** [defaults] is the text of [DEFAULTS_TOML], if it can be read. *)
Definition populate_default_datastore (defaults : option string) (version release : option V) : SW () :=
  let! exists_ := st_read (λ d, Ok (live_exists d)) in
  let! existing :=
    if exists_ : bool then with_current (
      let! existing_metadata :=
        st_read (λ s, map_err QueryMetadata (list_populated_metadata s EmptyString Live None)) in
      let! existing_data := st_read (λ s, map_err QueryData (list_populated_keys s EmptyString Live)) in
      st_ret (existing_metadata, existing_data))
    else
      let! _ := create_new_datastore version release in
      st_ret ((∅ : key_map key_set), (∅ : key_set)) in
  let! defaults_str := st_lift (ok_or defaults ReadDefaults) in
  let! defaults_val := st_lift (ok_or (toml_from_str defaults_str) DefaultsFormatting) in
  with_current (populate_defaults defaults_val existing.1 existing.2).

(** The removal of pending transactions, of which a missing directory is no
    error. *)
Definition delete_pending : SW () := λ d,
  match current_store d with
  | None => (d, Ok tt)
  | Some n =>
      match stores d !! n with
      | None => (d, Ok tt)
      | Some s =>
          let '(s', r) := sd_remove_pending s in
          (mk_dir (links d) (<[n := s']> (stores d)) (dir_rand d) (dir_io d),
           match r with Ok _ | Err NotFound => Ok tt | Err e => Err (DeletePending e) end)
      end
  end.

(** [run], up to the link to the inventory. *)
Definition storewolf_run (defaults : option string) (version release : option V) : SW () :=
  let! _ := delete_pending in
  populate_default_datastore defaults version release.
End run.

(** ** The metadata of a TOML table *)

Section parse_spec.
Context `{TomlTypes}.

(** The values below a table, with their paths; a setting generator is one value
    even when it is a table. *)
Fixpoint metadata_leaves (path : list string) (t : toml) : list (list string * toml) :=
  match t with
  | TTable m =>
      foldr (λ kv l, (if decide (kv.1 = SETTING_GENERATOR) then [(path ++ [kv.1], kv.2)]
                      else metadata_leaves (path ++ [kv.1]) kv.2) ++ l) [] m
  | _ => [(path, t)]
  end.

(** The metadata that a value is, if it may stand there. *)
Definition leaf_metadata (leaf : list string * toml) : option Metadata :=
  md ← last leaf.1;
  let data := removelast leaf.1 in
  let fits := match leaf.2 with
              | TString _ => negb (bool_decide (data = []))
              | TArray _ => negb (bool_decide (data = [])) && negb (bool_decide (md = SETTING_GENERATOR))
              | TTable _ => true
              | _ => false
              end in
  if fits && single_line md && single_line (str_join "." data)
  then Some (mk_metadata (str_join "." data) md leaf.2) else None.

Definition stack_leaves (l : list (list string * toml)) : list (list string * toml) :=
  l ≫= λ pt, metadata_leaves pt.1 pt.2.
Definition stack_size (l : list (list string * toml)) : nat :=
  foldr (λ pt n, toml_size pt.2 + n) 0 l.

Lemma make_metadata_eq md data v :
  make_metadata md data v =
    if single_line md && single_line data then Ok (mk_metadata data md v) else Err SwSingleLineString.
Proof.
  unfold make_metadata, single_line_string. by destruct (single_line md), (single_line data).
Qed.

Lemma leaf_snoc path md v :
  leaf_metadata (path ++ [md], v) =
    (let fits := match v with
                 | TString _ => negb (bool_decide (path = []))
                 | TArray _ => negb (bool_decide (path = [])) && negb (bool_decide (md = SETTING_GENERATOR))
                 | TTable _ => true
                 | _ => false
                 end in
     if fits && single_line md && single_line (str_join "." path)
     then Some (mk_metadata (str_join "." path) md v) else None).
Proof. unfold leaf_metadata. cbn [fst snd]. by rewrite last_snoc, removelast_last. Qed.

Lemma metadata_leaves_table path m :
  metadata_leaves path (TTable m) =
    foldr (λ kv l, (if decide (kv.1 = SETTING_GENERATOR) then [(path ++ [kv.1], kv.2)]
                    else metadata_leaves (path ++ [kv.1]) kv.2) ++ l) [] m.
Proof. done. Qed.

Lemma table_size k v m : toml_size (TTable ((k, v) :: m)) = toml_size v + toml_size (TTable m).
Proof. cbn. lia. Qed.

Lemma stack_size_cons pt l : stack_size (pt :: l) = toml_size pt.2 + stack_size l.
Proof. done. Qed.

(** An array under [setting-generator] never gets on the stack. *)
Definition stack_ok (l : list (list string * toml)) : Prop :=
  Forall (λ pt, match pt.2 with TArray _ => last pt.1 ≠ Some SETTING_GENERATOR | _ => True end) l.

(** One table: its setting-generator tables become metadata, the rest is to be
    processed. *)
Lemma process_table_spec path table stack defs :
  stack_ok stack →
  match process_table path table stack defs with
  | Ok (stack', defs') =>
      ∃ sgs ms, defs' = defs ++ ms ∧ Forall2 (λ x m, leaf_metadata x = Some m) sgs ms ∧
        metadata_leaves path (TTable table) ++ stack_leaves stack ≡ₚ sgs ++ stack_leaves stack' ∧
        stack_size stack' < toml_size (TTable table) + stack_size stack ∧ stack_ok stack'
  | Err e => e ≠ SwOutOfFuel ∧ Exists (λ x, leaf_metadata x = None) (metadata_leaves path (TTable table))
  end.
Proof.
  revert stack defs. induction table as [|[key val] table IH]; intros stack defs Hok.
  { exists [], []. rewrite app_nil_r. split_and!; [done..| |done]. cbn. lia. }
  assert (∀ v, metadata_leaves path (TTable ((key, val) :: table)) = v ++ metadata_leaves path (TTable table) →
    Exists (λ x, leaf_metadata x = None) v ∨ Exists (λ x, leaf_metadata x = None) (metadata_leaves path (TTable table)) →
    Exists (λ x, leaf_metadata x = None) (metadata_leaves path (TTable ((key, val) :: table)))) as Hex.
  { intros v -> ?. by apply Exists_app. }
  assert (metadata_leaves path (TTable ((key, val) :: table)) =
    (if decide (key = SETTING_GENERATOR) then [(path ++ [key], val)] else metadata_leaves (path ++ [key]) val) ++
    metadata_leaves path (TTable table)) as Heq by done.
  assert ((key = SETTING_GENERATOR → ∀ l, val ≠ TArray l) → metadata_leaves (path ++ [key]) val =
     (if decide (key = SETTING_GENERATOR) then [(path ++ [key], val)] else metadata_leaves (path ++ [key]) val) →
    match process_table path table ((path ++ [key], val) :: stack) defs with
    | Ok (stack', defs') =>
      ∃ sgs ms, defs' = defs ++ ms ∧ Forall2 (λ x m, leaf_metadata x = Some m) sgs ms ∧
        metadata_leaves path (TTable ((key, val) :: table)) ++ stack_leaves stack ≡ₚ sgs ++ stack_leaves stack' ∧
        stack_size stack' < toml_size (TTable ((key, val) :: table)) + stack_size stack ∧ stack_ok stack'
    | Err e => e ≠ SwOutOfFuel ∧
        Exists (λ x, leaf_metadata x = None) (metadata_leaves path (TTable ((key, val) :: table)))
    end) as Hpush.
  { intros Hno Hl. specialize (IH ((path ++ [key], val) :: stack) defs).
    assert (stack_ok ((path ++ [key], val) :: stack)) as Hok'.
    { apply Forall_cons. split; [|done]. cbn [fst snd]. destruct val; try done. rewrite last_snoc.
      intros [= E]. rewrite decide_True in Hl by done. destruct (Hno E l). done. }
    specialize (IH Hok').
    destruct (process_table _ _ _ _) as [[stack' defs']|e].
    - destruct IH as (sgs & ms & -> & Hm & Hp & Hs & Ho). exists sgs, ms.
      split_and!; [done..| |rewrite ?stack_size_cons, ?table_size in *; cbn [snd] in *; lia|done].
      rewrite Heq, <- Hl, <- Hp. cbn [stack_leaves mbind list_bind]. cbn. solve_Permutation.
    - split; [apply IH|]. eapply Hex; [exact Heq|]. right. apply IH. }
  cbn [process_table]. destruct (decide (key = SETTING_GENERATOR)) as [->|]; [|by apply Hpush].
  destruct val; try by apply Hpush.
  1-5: split; [done|]; eapply Hex; [exact Heq|]; left; apply Exists_cons; left; rewrite leaf_snoc;
    by rewrite ?bool_decide_true, ?andb_false_r by done.
  rewrite make_metadata_eq. pose proof (leaf_snoc path SETTING_GENERATOR (TTable m)) as Hleaf. cbn zeta in Hleaf.
  cbn [andb] in Hleaf. destruct (_ && _).
  - cbn [mbind result_bind]. specialize (IH stack (defs ++ [mk_metadata (str_join "." path) SETTING_GENERATOR (TTable m)]) Hok).
    destruct (process_table _ _ _ _) as [[stack' defs']|e].
    + destruct IH as (sgs & ms & -> & Hm & Hp & Hs & Ho). eexists (_ :: sgs), (_ :: ms).
      split_and!; [by rewrite <- app_assoc|by constructor| |rewrite ?table_size in *; cbn [toml_size] in *; lia|done].
      rewrite Heq. cbn [app]. by rewrite Hp.
    + split; [apply IH|]. eapply Hex; [exact Heq|]. right. apply IH.
  - split; [done|]. eapply Hex; [exact Heq|]. left. by apply Exists_cons; left.
Qed.

(** The step for a string or an array is the metadata of that value. *)
Lemma leaf_step path v :
  match v with TString _ => True | TArray _ => last path ≠ Some SETTING_GENERATOR | _ => False end →
  match (let? md_key := ok_or (last path) (SwInternal "empty path in the to_process vec") in
         let path := removelast path in
         let? _ := ensure (negb (bool_decide (path = [])))
                     (SwInternal "Cannot create empty metadata data key - is root not a Table?") in
         make_metadata md_key (str_join "." path) v) with
  | Ok m => leaf_metadata (path, v) = Some m
  | Err e => e ≠ SwOutOfFuel ∧ leaf_metadata (path, v) = None
  end.
Proof.
  intros Hv. unfold leaf_metadata. cbn [fst snd]. destruct (last path) as [md|] eqn:El; [|done].
  cbn [ok_or mbind result_bind option_bind]. destruct (bool_decide (removelast path = [])) eqn:Ep.
  { split; [done|]. by destruct v. }
  cbn [negb ensure mbind result_bind]. rewrite make_metadata_eq. destruct v; try done; cbn [andb].
  2: rewrite bool_decide_false by congruence; cbn [negb andb].
  all: by destruct (_ && _).
Qed.

(** One string or array off the stack. *)
Lemma parse_leaf fuel path t stack defs :
  match t with TString _ | TArray _ => True | _ => False end →
  parse_metadata_loop (S fuel) ((path, t) :: stack) defs =
    match (let? md_key := ok_or (last path) (SwInternal "empty path in the to_process vec") in
           let path := removelast path in
           let? _ := ensure (negb (bool_decide (path = [])))
                       (SwInternal "Cannot create empty metadata data key - is root not a Table?") in
           make_metadata md_key (str_join "." path) t) with
    | Ok m => parse_metadata_loop fuel stack (defs ++ [m])
    | Err e => Err e
    end.
Proof.
  intros Ht. destruct t; try done; cbn [parse_metadata_loop]; destruct (last path); cbn [ok_or mbind result_bind];
    [|done| |done]; destruct (ensure _ _); cbn [mbind result_bind]; [|done| |done]; by destruct (make_metadata _ _ _).
Qed.

Lemma parse_metadata_loop_spec fuel stack defs :
  stack_size stack < fuel → stack_ok stack →
  match parse_metadata_loop fuel stack defs with
  | Ok l => ∃ ls ms, l = defs ++ ms ∧ ls ≡ₚ stack_leaves stack ∧ Forall2 (λ x m, leaf_metadata x = Some m) ls ms
  | Err e => e ≠ SwOutOfFuel ∧ Exists (λ x, leaf_metadata x = None) (stack_leaves stack)
  end.
Proof.
  revert stack defs. induction fuel as [|fuel IH]; intros stack defs Hf Hok; [lia|].
  destruct stack as [|[path t] stack].
  { exists [], []. by rewrite app_nil_r. }
  change (stack_leaves ((path, t) :: stack)) with (metadata_leaves path t ++ stack_leaves stack).
  rewrite stack_size_cons in Hf. cbn [snd] in Hf. apply Forall_cons in Hok as [Ht Hok]. cbn [fst snd] in Ht.
  assert (match t with TString _ | TArray _ => True | _ => False end →
    match parse_metadata_loop (S fuel) ((path, t) :: stack) defs with
    | Ok l => ∃ ls ms, l = defs ++ ms ∧ ls ≡ₚ metadata_leaves path t ++ stack_leaves stack ∧
                Forall2 (λ x m, leaf_metadata x = Some m) ls ms
    | Err e => e ≠ SwOutOfFuel ∧
        Exists (λ x, leaf_metadata x = None) (metadata_leaves path t ++ stack_leaves stack)
    end) as Hleaf.
  { intros Hv. assert (metadata_leaves path t = [(path, t)] ∧ toml_size t = 1) as [Hl Hs] by by destruct t.
    rewrite parse_leaf, Hl by done. pose proof (leaf_step path t) as Hm.
    specialize (Hm ltac:(by destruct t)). destruct (mbind _ _) as [m|e].
    - specialize (IH stack (defs ++ [m]) ltac:(lia) Hok). destruct (parse_metadata_loop _ _ _) as [l|e].
      + destruct IH as (ls & ms & -> & Hp & Hf2). exists ((path, t) :: ls), (m :: ms).
        split_and!; [by rewrite <- app_assoc|by rewrite Hp|by constructor].
      + split; [apply IH|]. apply Exists_app. right. apply IH.
    - split; [apply Hm|]. apply Exists_app. left. apply Exists_cons. left. apply Hm. }
  destruct t; try by apply Hleaf.
  1-4: split; [done|]; apply Exists_app; left; apply Exists_cons; left; unfold leaf_metadata; cbn [fst snd];
    by destruct (last path).
  cbn [parse_metadata_loop]. pose proof (process_table_spec path m stack defs Hok) as Hp.
  destruct (process_table _ _ _ _) as [[stack' defs']|e]; cbn [mbind result_bind].
  - destruct Hp as (sgs & ms & -> & Hm & Hp & Hs & Ho). cbn [fst snd].
    specialize (IH stack' (defs ++ ms) ltac:(lia) Ho). destruct (parse_metadata_loop _ _ _) as [l|e].
    + destruct IH as (ls & ms' & -> & Hp' & Hl). exists (sgs ++ ls), (ms ++ ms').
      split_and!; [by rewrite app_assoc|by rewrite Hp, Hp'|by apply Forall2_app].
    + split; [apply IH|]. rewrite Hp. apply Exists_app. right. apply IH.
  - split; [apply Hp|]. apply Exists_app. left. apply Hp.
Qed.
End parse_spec.

(** The metadata of the defaults are exactly the values below the [metadata]
    table, each under its dotted path, where a setting generator counts as one value
    even when it is a table: the work list of [parse_metadata_toml] always runs
    empty, its answer lists the metadata of every such value once, and it fails
    exactly when some value may not stand where it is (not a string, an array or a
    generator's table, no data key above it, or a newline in a key). *)
Lemma parse_metadata_toml_leaves `{TomlTypes} t :
  match parse_metadata_toml t with
  | Ok l => ∃ ls, ls ≡ₚ metadata_leaves [] t ∧ Forall2 (λ x m, leaf_metadata x = Some m) ls l
  | Err e => e ≠ SwOutOfFuel ∧ Exists (λ x, leaf_metadata x = None) (metadata_leaves [] t)
  end.
Proof.
  pose proof (parse_metadata_loop_spec (S (toml_size t)) [([], t)] []) as Hp.
  unfold parse_metadata_toml. cbn [stack_size foldr snd stack_leaves] in Hp.
  specialize (Hp ltac:(lia) ltac:(apply Forall_singleton; by destruct t)).
  unfold stack_leaves in Hp. cbn [mbind list_bind fst snd] in Hp. rewrite app_nil_r in Hp.
  destruct (parse_metadata_loop _ _ _) as [l|e]; [|done]. destruct Hp as (ls & ms & -> & ? & ?). by exists ls.
Qed.

(** ** Filling in the defaults *)

Section pairs.
Context `{HashOrder}.

Lemma missing_pairs_eq existing pairs :
  hm_wf pairs → missing_pairs existing pairs = filter (λ e, existing !! e.1 = None) pairs.
Proof.
  intros Hwf. unfold missing_pairs.
  assert (∀ l m, foldl (λ res '(key, val), if hs_contains key existing then res else hm_insert key val res) m l
    = hm_extend (filter (λ kv : Key * string, existing !! segments kv.1 = None) l) m) as Hf.
  { unfold hm_extend. induction l as [|[k v] l IH]; intros m; [done|]. cbn [foldl]. rewrite IH, filter_cons.
    cbn [fst]. unfold hs_contains. destruct (existing !! segments k) eqn:E.
    - rewrite decide_False by done. done.
    - rewrite decide_True by done. done. }
  rewrite Hf. apply map_eq. intros segs. apply option_eq. intros [k v].
  change (hm_extend ?l ∅) with (hm_collect l). rewrite hm_collect_elem.
  - rewrite list_elem_of_filter, elem_of_hm_iter, map_lookup_filter_Some by done. cbn [fst]. split.
    + by intros [[He Hp] <-].
    + intros [Hp He]. pose proof (Hwf _ _ Hp) as Hs. cbn in Hs. by subst segs.
  - eapply sublist_NoDup; [by apply (hm_iter_NoDup pairs)|]. apply fmap_sublist, sublist_filter.
Qed.

Lemma view_missing (existing : key_set) (pairs : key_map string) :
  hm_view (filter (λ e, existing !! e.1 = None) pairs) =
    filter (λ e, existing !! e.1 = None) (hm_view (V := string) pairs).
Proof. unfold hm_view. by rewrite map_filter_fmap. Qed.
End pairs.

(** What is not there yet, over what is there. *)
Lemma fill_view (m : key_map string) (o : gmap (list string) string) :
  filter (λ e, m !! e.1 = None) o ∪ hm_view m = hm_view m ∪ o.
Proof.
  apply map_eq. intros segs. rewrite !lookup_union, map_lookup_filter. unfold hm_view. rewrite lookup_fmap.
  destruct (m !! segs) as [[k v]|] eqn:E; cbn; destruct (o !! segs); cbn; try done.
  - by rewrite E.
  - by rewrite option_guard_True.
Qed.

(** The pairs of the default settings, and of the defaults that are neither settings
    nor metadata. *)
Definition settings_pairs `{SerdeJson} `{TomlTypes} (table : list (string * toml)) :
    result sw_error (key_map string) :=
  match table_get "settings" table with
  | None => Ok ∅
  | Some v =>
      let? j := map_err (λ _, JsonConversion) (toml_to_value v) in
      map_err (SwSerialization "default settings") (to_pairs_with_prefix "settings" j)
  end.
Definition other_pairs `{SerdeJson} `{TomlTypes} (table : list (string * toml)) :
    result sw_error (key_map string) :=
  let? j := map_err (λ _, JsonConversion)
              (toml_to_value (TTable (table_remove "settings" (table_remove "metadata" table)))) in
  map_err (SwSerialization "other defaults") (to_pairs j).

Lemma table_get_remove k k' m : k ≠ k' → table_get k (table_remove k' m) = table_get k m.
Proof.
  intros Hne. unfold table_get, table_remove. do 2 f_equal. induction m as [|[x v] m IH]; [done|].
  rewrite (filter_cons _ _ m), (filter_cons (λ kv : string * toml, kv.1 = k) _ m). cbn [fst].
  destruct (decide (x ≠ k')) as [Hx|Hx].
  - rewrite filter_cons. cbn [fst]. by rewrite IH.
  - rewrite IH. apply dec_stable in Hx as ->. by rewrite decide_False.
Qed.

Section populate_spec.
Context `{DataStoreSpec D} `{SerdeJson} `{TomlTypes}.
Hypothesis Hkey : ∀ k, proper_key k → ds_key (D := D) k.
Hypothesis Hlaunch : ds_committed (D := D) (Pending LAUNCH_TRANSACTION).
Implicit Types s : D.

(** Writing the missing ones of serialized pairs. *)
Lemma set_missing (existing : key_set) (pairs : key_map string) c s s' u :
  ds_inv s → ds_committed c → out_wf pairs →
  set_keys (missing_pairs existing pairs) c s = (s', Ok u) →
  ds_inv s' ∧
  hm_view (ds_entries s' c) = filter (λ e, existing !! e.1 = None) (hm_view pairs) ∪ hm_view (ds_entries s c) ∧
  ∀ c', ds_committed (D := D) c' → c' ≠ c → ds_entries s' c' = ds_entries s c'.
Proof using Hkey.
  intros Hs Hc Hp Hr. rewrite missing_pairs_eq in Hr by by apply out_wf_hm_wf.
  apply set_keys_view in Hr as (? & Hv & ?); [|done|done| |].
  - by rewrite Hv, view_missing.
  - intros segs kv [Hk _]%map_lookup_filter_Some. by destruct (Hp _ _ Hk).
  - intros segs k v [Hk _]%map_lookup_filter_Some. apply Hkey. by destruct (Hp _ _ Hk).
Qed.

Lemma populate_default_data_spec (table : list (string * toml)) (existing : key_set) s s' u :
  ds_inv s → populate_default_data (table_get "settings" table) existing s = (s', Ok u) →
  ∃ pairs, settings_pairs table = Ok pairs ∧ ds_inv s' ∧
    hm_view (ds_entries s' (Pending LAUNCH_TRANSACTION)) =
      filter (λ e, existing !! e.1 = None) (hm_view pairs) ∪
      hm_view (ds_entries s (Pending LAUNCH_TRANSACTION)) ∧
    ∀ c, ds_committed (D := D) c → c ≠ Pending LAUNCH_TRANSACTION → ds_entries s' c = ds_entries s c.
Proof using Hkey Hlaunch.
  intros Hs Hr. unfold populate_default_data, settings_pairs in *. destruct (table_get _ _) as [v|].
  - sinv. match goal with H : toml_to_value _ = Ok _, H' : to_pairs_with_prefix _ _ = Ok ?p |- _ =>
      rewrite H; cbn [map_err mbind result_bind]; rewrite H'; exists p;
      apply to_pairs_with_prefix_wf in H' end.
    split; [done|]. by eapply set_missing.
  - injection Hr as <- _. exists ∅. split_and!; [done..| |done].
    unfold hm_view at 2. by rewrite fmap_empty, map_filter_empty, (left_id_L ∅ (∪)).
Qed.

Lemma write_metadata_entries l s s' u :
  ds_inv s → Forall (λ e, proper_key e.1.2) l → write_metadata l s = (s', Ok u) →
  ds_inv s' ∧ ∀ c, ds_committed (D := D) c → ds_entries s' c = ds_entries s c.
Proof using Hkey.
  intros Hs Hl. unfold write_metadata. revert s Hs. induction Hl as [|[[mk k] v] l Hk _ IH]; intros s Hs Hr;
    cbn in Hr; [by injection Hr as <- _|].
  sinv. match goal with H : set_metadata _ _ _ _ _ = _ |- _ =>
    apply ds_set_metadata in H as [Hs1 He1]; [|done|by apply Hkey|apply ds_committed_live] end.
  apply IH in Hr as [? He]; [|done]. split; [done|]. intros c Hc. by rewrite He, He1.
Qed.

Lemma missing_metadata_proper existing l ts ts' :
  missing_metadata existing l ts = Ok ts' → map_Forall (λ _ e, proper_key e.1.2) ts →
  map_Forall (λ _ e, proper_key e.1.2) ts'.
Proof.
  revert ts. induction l as [|m l IH]; intros ts Hm Hts; cbn in Hm; [by injection Hm as <-|]. rinv.
  case_decide; rinv; (eapply IH; [exact Hm|]); [done|].
  unfold triple_insert. case_match; [done|]. apply map_Forall_insert_2; [|done]. by eapply key_new_proper.
Qed.

Lemma populate_default_metadata_entries o existing s s' u :
  ds_inv s → populate_default_metadata o existing s = (s', Ok u) →
  ds_inv s' ∧ ∀ c, ds_committed (D := D) c → ds_entries s' c = ds_entries s c.
Proof using Hkey.
  intros Hs Hr. unfold populate_default_metadata in Hr. destruct o; [|by injection Hr as <- _]. sinv.
  eapply write_metadata_entries; [done| |exact Hr]. apply Forall_forall.
  intros e [i He]%elem_of_hash_iter.
  match goal with H : missing_metadata _ _ _ = _ |- _ => apply missing_metadata_proper in H end;
    [|apply map_Forall_empty].
  match goal with H : map_Forall _ _ |- _ => exact (H _ _ He) end.
Qed.

(** All the defaults, over a store whose live keys are [existing]. *)
Lemma populate_defaults_spec (v : toml) (em : key_map key_set) (existing : key_set) s s' u :
  ds_inv s → (∀ segs, existing !! segs = None ↔ ds_entries s Live !! segs = None) →
  populate_defaults v em existing s = (s', Ok u) →
  ∃ table settings others, v = TTable table ∧ settings_pairs table = Ok settings ∧
    other_pairs table = Ok others ∧ ds_inv s' ∧
    hm_view (ds_entries s' Live) = hm_view (ds_entries s Live) ∪ hm_view others ∧
    hm_view (ds_entries s' (Pending LAUNCH_TRANSACTION)) =
      filter (λ e, ds_entries s Live !! e.1 = None) (hm_view settings) ∪
      hm_view (ds_entries s (Pending LAUNCH_TRANSACTION)) ∧
    ∀ c, ds_committed (D := D) c → c ≠ Live → c ≠ Pending LAUNCH_TRANSACTION →
      ds_entries s' c = ds_entries s c.
Proof using Hkey Hlaunch.
  intros Hs Hex Hr. unfold populate_defaults in Hr.
  assert (∀ m : gmap (list string) string, filter (λ e, existing !! e.1 = None) m = filter (λ e, ds_entries s Live !! e.1 = None) m)
    as Hfilt by (intros m; apply map_filter_ext; intros; apply Hex).
  destruct v as [| | | | | |table]; try done. exists table.
  apply st_bind_Ok in Hr as (s1 & [] & Hr1 & Hr). rewrite table_get_remove in Hr1 by done.
  apply populate_default_data_spec in Hr1 as (settings & Hp & Hs1 & Hv1 & Ho1); [|done].
  apply st_bind_Ok in Hr as (s2 & [] & Hr2 & Hr).
  apply populate_default_metadata_entries in Hr2 as [Hs2 Ho2]; [|done].
  unfold other_pairs. sinv. match goal with H : toml_to_value _ = Ok ?j, H' : to_pairs _ = Ok ?p |- _ =>
    rewrite H; cbn [map_err mbind result_bind]; rewrite H'; exists settings, p; rename p into others;
    apply to_pairs_wf in H' as Hwf end.
  pose proof (ds_committed_live (D := D)) as Hlive.
  assert (ds_entries s2 Live = ds_entries s Live) as EL by by rewrite Ho2, Ho1.
  destruct (decide (others = ∅)) as [->|Hne].
  - injection Hr as <- _. split_and!; try done.
    + rewrite EL. unfold hm_view at 3. by rewrite fmap_empty, (right_id_L ∅ (∪)).
    + by rewrite Ho2, Hv1, Hfilt.
    + intros c Hc ? ?. by rewrite Ho2, Ho1.
  - sinv. apply set_missing in Hr as (Hs' & Hv & Ho); [|done..]. split_and!; try done.
    + by rewrite Hv, EL, Hfilt, fill_view.
    + rewrite Ho by done. by rewrite Ho2, Hv1, Hfilt.
    + intros c Hc ? ?. by rewrite Ho, Ho2, Ho1.
Qed.
End populate_spec.

(** *** Their metadata *)

(** The default metadata. *)
Definition default_metadatas `{TomlTypes} (table : list (string * toml)) : result sw_error (list Metadata) :=
  match table_get "metadata" table with
  | None => Ok []
  | Some v => parse_metadata_toml v
  end.

(** A metadata of the defaults is for this metadata key of this data key. *)
Definition names (m : Metadata) (mk k : Key) : Prop :=
  ∃ mk0 k0, key_new Data (md_data m) = Ok k0 ∧ key_new Meta (md_md m) = Ok mk0 ∧
    segments mk0 = segments mk ∧ segments k0 = segments k.

(** From [old] to [new]: a value stays; without one, a default of the key is filled in. *)
Definition filled `{TomlTypes} (ms : list Metadata) (mk k : Key) (old new : option string) : Prop :=
  match old with
  | Some v => new = Some v
  | None =>
      (new = None ∧ ∀ m, m ∈ ms → ¬ names m mk k) ∨
      ∃ m v, m ∈ ms ∧ names m mk k ∧ toml_scalar (md_val m) = Ok v ∧ new = Some v
  end.

(** A triple is for this metadata key of this data key. *)
Definition for_keys (mk k : Key) (e : Key * Key * string) : Prop :=
  segments e.1.1 = segments mk ∧ segments e.1.2 = segments k.
#[global] Instance for_keys_dec mk k e : Decision (for_keys mk k e).
Proof. unfold for_keys. apply _. Defined.

(** A triple that a default has become. *)
Definition fills `{TomlTypes} (existing : gset (list string * list string)) (m : Metadata)
    (e : Key * Key * string) : Prop :=
  key_new Data (md_data m) = Ok e.1.2 ∧ key_new Meta (md_md m) = Ok e.1.1 ∧
  toml_scalar (md_val m) = Ok e.2 ∧ (segments e.1.2, segments e.1.1) ∉ existing.

Definition triples_wf (ts : gmap (list string * list string * string) (Key * Key * string)) : Prop :=
  map_Forall (λ i e, i = (segments e.1.1, segments e.1.2, e.2)) ts.

Lemma triple_insert_spec mk k v ts :
  triples_wf ts →
  triples_wf (triple_insert mk k v ts) ∧ ts ⊆ triple_insert mk k v ts ∧
  (∃ i e, triple_insert mk k v ts !! i = Some e ∧ for_keys mk k e) ∧
  ∀ i e, triple_insert mk k v ts !! i = Some e → ts !! i = Some e ∨ e = (mk, k, v).
Proof.
  intros Hwf. unfold triple_insert. set (i0 := (segments mk, segments k, v)).
  destruct (ts !! i0) as [e0|] eqn:E.
  - split_and!; [done|done| |by left]. exists i0, e0. split; [done|].
    pose proof (Hwf _ _ E) as Hi. unfold i0, for_keys in *. cbn in Hi. by injection Hi as -> -> _.
  - split_and!.
    + by apply map_Forall_insert_2.
    + by apply insert_subseteq.
    + exists i0, (mk, k, v). split; [apply lookup_insert_eq|done].
    + intros i e [[_ <-]|[_ ?]]%lookup_insert_Some; [by right|by left].
Qed.

Lemma missing_metadata_spec `{TomlTypes} existing ms ts ts' :
  missing_metadata existing ms ts = Ok ts' → triples_wf ts →
  ts ⊆ ts' ∧ (∀ i e, ts' !! i = Some e → ts !! i = Some e ∨ ∃ m, m ∈ ms ∧ fills existing m e) ∧
  ∀ m mk k, m ∈ ms → names m mk k → (segments k, segments mk) ∉ existing →
    ∃ i e, ts' !! i = Some e ∧ for_keys mk k e.
Proof.
  revert ts. induction ms as [|m ms IH]; intros ts Hm Hwf; cbn in Hm.
  { injection Hm as <-. split_and!; [done|by left|]. by intros m mk k ?%not_elem_of_nil. }
  rinv. match goal with H : key_new Data _ = Ok ?a, H' : key_new Meta _ = Ok ?b |- _ =>
    rename a into k0, b into mk0, H into Hk0, H' into Hmk0 end.
  assert (∀ mk k, names m mk k → segments mk0 = segments mk ∧ segments k0 = segments k) as Hn.
  { intros mk k (? & ? & E1 & E2 & ? & ?). rewrite Hk0 in E1. rewrite Hmk0 in E2. by simplify_eq. }
  destruct (decide (_ ∈ existing)) as [Hin|Hout]; rinv.
  - apply IH in Hm as (Hsub & Hfrom & Hto); [|done]. split_and!; [done|..].
    + intros i e [?|(m' & ? & ?)]%Hfrom; [by left|]. right. exists m'. by split; [right|].
    + intros m' mk k [->|?]%elem_of_cons Hnm Hx; [|by eapply Hto].
      apply Hn in Hnm as [E1 E2]. by rewrite E1, E2 in Hin.
  - match goal with H : toml_scalar _ = Ok ?v |- _ => rename H into Hv, v into val end.
    destruct (triple_insert_spec mk0 k0 val ts Hwf) as (Hwf1 & Hsub1 & (i1 & e1 & Hi1 & He1) & Hfrom1).
    apply IH in Hm as (Hsub & Hfrom & Hto); [|done]. split_and!; [by etrans|..].
    + intros i e [[?| ->]%Hfrom1|(m' & ? & ?)]%Hfrom; [by left|right; exists m; by split; [left|]|].
      right. exists m'. by split; [right|].
    + intros m' mk k [->|?]%elem_of_cons Hnm Hx; [|by eapply Hto].
      apply Hn in Hnm as [E1 E2]. exists i1, e1. split; [by eapply lookup_weaken|].
      unfold for_keys in *. by rewrite <- E1, <- E2.
Qed.

Lemma elem_of_existing_pairs `{HashOrder} em k mk :
  (segments k, segments mk) ∈ existing_pairs em ↔ meta_listed em k mk.
Proof.
  unfold existing_pairs, meta_listed. rewrite elem_of_list_to_set, list_elem_of_bind. split.
  - intros ([dk mks] & (mk' & [= E1 E2] & [j Hj]%elem_of_hash_iter)%list_elem_of_fmap & [i Hi]%elem_of_hash_iter).
    by exists i, dk, mks, j, mk'.
  - intros (i & dk & mks & j & mk' & Hi & Hj & E1 & E2). exists (dk, mks). cbn. split.
    + apply list_elem_of_fmap. exists mk'. split; [by rewrite E1, E2|]. apply elem_of_hash_iter. by exists j.
    + apply elem_of_hash_iter. by exists i.
Qed.

Section metadata_spec.
Context `{Hmeta : DataStoreMeta D} `{SerdeJson} `{TomlTypes}.
Hypothesis Hkey : ∀ k, proper_key k → ds_key (D := D) k.
Hypothesis Hlaunch : ds_committed (D := D) (Pending LAUNCH_TRANSACTION).
Implicit Types s : D.

Lemma set_missing_meta (existing : key_set) (pairs : key_map string) c s s' u mk k :
  ds_inv s → ds_committed (D := D) c → out_wf pairs →
  set_keys (missing_pairs existing pairs) c s = (s', Ok u) →
  ds_key (D := D) k → meta_key mk → live_meta s' mk k = live_meta s mk k.
Proof using Hkey Hmeta.
  intros Hs Hc Hp Hr Hk Hmk. rewrite missing_pairs_eq in Hr by by apply out_wf_hm_wf.
  unfold set_keys in Hr.
  assert (Forall (λ e, ds_key (D := D) e.1) (hm_iter (filter (λ e, existing !! e.1 = None) pairs))) as Hall.
  { apply Forall_forall. intros e [i [Hi _]%map_lookup_filter_Some]%elem_of_hash_iter. apply Hkey.
    by destruct (Hp _ _ Hi). }
  revert s Hs Hr. induction Hall as [|[k0 v0] l Hk0 _ IH]; intros s Hs Hr; cbn in Hr; [by injection Hr as <- _|].
  sinv. match goal with E : set_key _ _ _ _ = _ |- _ =>
    rewrite <- (dm_set_key _ _ _ _ _ _ mk k Hs Hk0 Hc E Hk Hmk);
    apply ds_set_key in E as [Hs1 _]; [|done..] end.
  by apply IH.
Qed.

(** What writing a list of metadata leaves: the value of one that is for the keys. *)
Lemma write_metadata_meta l s s' u mk k :
  ds_inv s → Forall (λ e, ds_key (D := D) e.1.2 ∧ meta_key e.1.1) l → write_metadata l s = (s', Ok u) →
  ds_key (D := D) k → meta_key mk →
  (∃ e, e ∈ l ∧ for_keys mk k e ∧ live_meta s' mk k = Some e.2) ∨
  (∀ e, e ∈ l → ¬ for_keys mk k e) ∧ live_meta s' mk k = live_meta s mk k.
Proof using Hmeta.
  intros Hs Hl Hr Hk Hmk. unfold write_metadata in Hr. revert s Hs Hr.
  induction Hl as [|[[mk0 k0] v0] l [Hk0 Hmk0] _ IH]; intros s Hs Hr; cbn in Hr.
  { injection Hr as <- _. right. split; [|done]. by intros e ?%not_elem_of_nil. }
  sinv. match goal with E : set_metadata _ _ _ _ _ = _ |- _ =>
    pose proof (dm_set_metadata _ _ _ _ _ _ mk k Hs Hk0 Hmk0 E Hk Hmk) as Hw;
    apply ds_set_metadata in E as [Hs1 _]; [|done|done|apply ds_committed_live] end.
  apply IH in Hr as [(e & ? & ? & ?)|[Hno Hr]]; [left; exists e; by split; [right|]| |done].
  rewrite Hw in Hr. case_decide as E.
  - left. exists (mk0, k0, v0). split_and!; [by left| |done]. by destruct E.
  - right. split; [|done]. intros e [->|?]%elem_of_cons; [|by apply Hno]. intros [E1 E2]. by destruct E.
Qed.

Lemma populate_default_metadata_meta (table : list (string * toml)) em s s' u :
  ds_inv s → populate_default_metadata (table_get "metadata" table) em s = (s', Ok u) →
  ∃ ms, default_metadatas table = Ok ms ∧
    ∀ mk k, ds_key (D := D) k → meta_key mk →
      (meta_listed em k mk ∨ (∀ m, m ∈ ms → ¬ names m mk k)) ∧ live_meta s' mk k = live_meta s mk k ∨
      ¬ meta_listed em k mk ∧
      ∃ m v, m ∈ ms ∧ names m mk k ∧ toml_scalar (md_val m) = Ok v ∧ live_meta s' mk k = Some v.
Proof using Hkey Hmeta.
  intros Hs Hr. unfold populate_default_metadata, default_metadatas in *.
  destruct (table_get _ _) as [v|]; cycle 1.
  { injection Hr as <- _. exists []. split; [done|]. intros mk k _ _. left. split; [|done]. right.
    by intros m ?%not_elem_of_nil. }
  sinv. match goal with E : parse_metadata_toml _ = Ok ?x, E' : missing_metadata _ _ _ = Ok ?t |- _ =>
    exists x; split; [done|]; rename x into ms, t into ts;
    apply missing_metadata_spec in E' as (_ & Hfrom & Hto); [|apply map_Forall_empty] end.
  assert (∀ e, e ∈ hash_iter ts → ∃ m, m ∈ ms ∧ fills (existing_pairs em) m e) as Hts.
  { intros e [i [?|?]%Hfrom]%elem_of_hash_iter; [by rewrite lookup_empty in *|done]. }
  intros mk k Hk Hmk. eapply write_metadata_meta in Hr as [(e & He & Hf & ->)|[Hno ->]]; [..|done|done].
  - right. apply Hts in He as (m & Hm & E1 & E2 & E3 & E4). destruct Hf as [Ef1 Ef2].
    rewrite Ef1, Ef2, elem_of_existing_pairs in E4. split; [done|]. exists m, e.2. split_and!; [done| |done|done].
    by exists e.1.1, e.1.2.
  - left. split; [|done]. destruct (decide ((segments k, segments mk) ∈ existing_pairs em)) as [Hin|Hout].
    + left. by apply elem_of_existing_pairs.
    + right. intros m Hm Hn. destruct (Hto _ _ _ Hm Hn Hout) as (i & e & Hi & He).
      apply (Hno e); [|done]. apply elem_of_hash_iter. by exists i.
  - done.
  - apply Forall_forall. intros e (m & _ & E1 & E2 & _)%Hts. split; [|by eapply key_new_meta].
    apply Hkey. by eapply key_new_proper.
Qed.

(** All the defaults, over a store whose live metadata are [em]. *)
Lemma populate_defaults_meta (table : list (string * toml)) (em : key_map key_set) (existing : key_set) s s' u :
  ds_inv s → populate_defaults (TTable table) em existing s = (s', Ok u) →
  ∃ ms, default_metadatas table = Ok ms ∧
    ∀ mk k, ds_key (D := D) k → meta_key mk →
      (meta_listed em k mk ∨ (∀ m, m ∈ ms → ¬ names m mk k)) ∧ live_meta s' mk k = live_meta s mk k ∨
      ¬ meta_listed em k mk ∧
      ∃ m v, m ∈ ms ∧ names m mk k ∧ toml_scalar (md_val m) = Ok v ∧ live_meta s' mk k = Some v.
Proof using Hkey Hlaunch Hmeta.
  intros Hs Hr. unfold populate_defaults in Hr.
  apply st_bind_Ok in Hr as (s1 & [] & Hr1 & Hr). rewrite table_get_remove in Hr1 by done.
  apply populate_default_data_spec in Hr1 as Hd; [|done..]. destruct Hd as (_ & _ & Hs1 & _).
  assert (∀ mk k, ds_key (D := D) k → meta_key mk → live_meta s1 mk k = live_meta s mk k) as Hm1.
  { intros mk k Hk Hmk. unfold populate_default_data in Hr1. destruct (table_get _ _) as [v|];
      [|by injection Hr1 as <-]. sinv. eapply set_missing_meta; [exact Hs|exact Hlaunch| |exact Hr1|done..].
    by eapply to_pairs_with_prefix_wf. }
  apply st_bind_Ok in Hr as (s2 & [] & Hr2 & Hr).
  apply populate_default_metadata_entries in Hr2 as Hd; [|done..]. destruct Hd as [Hs2 _].
  apply populate_default_metadata_meta in Hr2 as (ms & Hms & Hm2); [|done]. exists ms. split; [done|].
  intros mk k Hk Hmk. specialize (Hm2 mk k Hk Hmk). rewrite (Hm1 mk k Hk Hmk) in Hm2.
  assert (live_meta s' mk k = live_meta s2 mk k) as ->; [|done].
  sinv. case_decide; [by injection Hr as <- _|]. sinv.
  eapply set_missing_meta; [exact Hs2|apply ds_committed_live| |exact Hr|done..]. by eapply to_pairs_wf.
Qed.
End metadata_spec.

(** ** What storewolf asks of the directory of a store *)

Class StoreDirSpec (D : Type) `{DataStoreSpec D} `{StoreDir D} := {
  sd_new_inv : ds_inv sd_new;
  sd_new_entries c : ds_committed (D := D) c → ds_entries sd_new c = ∅;
  (** A removal that works, or finds nothing. *)
  sd_remove s s' r :
    ds_inv s → sd_remove_pending s = (s', r) → r = Ok tt ∨ r = Err NotFound →
    ds_inv s' ∧ ds_entries s' Live = ds_entries s Live ∧ sd_live_exists s' = sd_live_exists s ∧
    ∀ tx, ds_committed (D := D) (Pending tx) → ds_entries s' (Pending tx) = ∅ }.

#[global] Program Instance memory_store_dir_spec `{HashOrder} : StoreDirSpec MemoryDataStore.
Next Obligation. intros ?. split; apply map_Forall_empty. Qed.
Next Obligation.
  intros ? [|tx] _; cbn; [done|]. unfold mem_entries, dataset. cbn. by rewrite lookup_empty.
Qed.
Next Obligation.
  intros ? s s' r [Hl Hp] Hr _. cbn in Hr. destruct (decide _) as [E|_]; injection Hr as <- <-.
  - split_and!; [by split|done|done|]. intros tx _. cbn. unfold mem_entries, dataset. cbn.
    by rewrite E, lookup_empty.
  - split_and!; [split; [done|apply map_Forall_empty]|done|done|]. intros tx _. cbn.
    unfold mem_entries, dataset. cbn. by rewrite lookup_empty.
Qed.

Section filesystem_dir.
Context `{HashOrder} `{PercentEncoding} (b : string).
#[local] Instance dir : StoreDir FilesystemDataStore := filesystem_store_dir b.

Lemma bare_disk_lookup q n : bare_disk b !! q = Some n → n = Dir ∧ length q ≤ length (components b).
Proof.
  unfold bare_disk. rewrite make_dirs_lookup, lookup_empty. case_decide as Hq; [|done]. intros [= <-].
  split; [done|]. destruct Hq as [->|(x & r & ->)]; [done|]. rewrite length_app. lia.
Qed.

Lemma bare_inv : fs_inv_at (components b) (filesystem_new b (bare_disk b)).
Proof.
  split.
  - by exists b.
  - intros p x n. change (bare_disk b !! (p ++ [x]) = Some n → bare_disk b !! p = Some Dir).
    unfold bare_disk. rewrite !make_dirs_lookup, !lookup_empty. case_decide as Hq; [|done].
    intros _. rewrite decide_True; [done|]. right. destruct Hq as [<-|(y & r & ->)]; [by exists x, []|].
    exists x, (y :: r). by rewrite <- app_assoc.
  - by intros c rel s _ [? _]%bare_disk_lookup.
  - intros x [_ Hl]%bare_disk_lookup. rewrite length_app in Hl. cbn in Hl. lia.
Qed.

Lemma fs_sd_new_inv : fs_inv (filesystem_new b (bare_disk b)).
Proof. eexists. apply bare_inv. Qed.

Lemma fs_sd_new_entries c : fs_committed c → fs_entries (filesystem_new b (bare_disk b)) c = ∅.
Proof using b H H0.
  intros Hc. apply (no_files_no_entries (components b)); [apply bare_inv|done|].
  intros k v _ Hf. by apply bare_disk_lookup in Hf as [? _].
Qed.

Lemma fs_sd_remove s s' r :
  fs_inv s → sd_remove_pending s = (s', r) → r = Ok tt ∨ r = Err NotFound →
  fs_inv s' ∧ fs_entries s' Live = fs_entries s Live ∧ sd_live_exists s' = sd_live_exists s ∧
  ∀ tx, fs_committed (Pending tx) → fs_entries s' (Pending tx) = ∅.
Proof using b H H0.
  intros [base Hinv] Hr Hok. cbn in Hr |- *. rewrite (pending_components base) in Hr by apply Hinv.
  assert (∀ s2, fs_inv_at base s2 → base_path s2 Live = live_path s2 → components (live_path s2) = base ++ ["live"]) as Hlp.
  { intros s2 Hs2 <-. apply (base_path_components base); [apply Hs2|done]. }
  assert (∀ tx r, base_of base (Pending tx) ++ r = (base ++ ["pending"]) ++ encode_path_component tx :: r) as Hp
    by (intros; unfold base_of; by rewrite <- !app_assoc).
  destruct (fs_remove_dir_all _ (fs_disk s)) as [d1 r1] eqn:Er. injection Hr as <- <-. destruct r1 as [[]|e].
  - pose proof (remove_dir_all_inv _ _ _ _ _ Hinv Er) as Hinv'. unfold fs_remove_dir_all in Er.
    destruct (fs_disk s !! _) as [[|]|]; [|done..]. injection Er as <-.
    assert (∀ rel, ¬ ((base ++ ["live"]) ++ rel = base ++ ["pending"] ∨ below (base ++ ["pending"]) ((base ++ ["live"]) ++ rel))) as Hl.
    { intros rel [E|(x & t & E)]; rewrite <- !app_assoc in E; by apply app_inv_head in E. }
    split_and!; [by exists base| | |].
    + apply (fs_entries_ext base); [done..|]. intros k v _. cbn. rewrite map_lookup_filter_Some. cbn.
      split; [naive_solver|]. intros Hf. split; [done|]. apply Hl.
    + rewrite !Hlp by done. unfold fs_exists. cbn. apply bool_decide_ext. rewrite map_lookup_filter.
      pose proof (Hl []) as Hl0. rewrite app_nil_r in Hl0.
      destruct (fs_disk s !! (base ++ ["live"])); cbn; [|done]. by rewrite option_guard_True.
    + intros tx Htx. apply (no_files_no_entries base); [done..|]. intros k v _. cbn.
      intros [_ Hf]%map_lookup_filter_Some. apply Hf. right. cbn. rewrite Hp. by eexists _, _.
  - destruct Hok as [|[= ->]]; [done|]. unfold fs_remove_dir_all in Er.
    destruct (fs_disk s !! _) as [[|]|] eqn:E; try done. injection Er as <- _.
    assert (with_disk (fs_disk s) s = s) as -> by by destruct s.
    split_and!; [by exists base|done|done|]. intros tx Htx. apply (no_files_no_entries base); [done..|].
    intros k v _. rewrite Hp, tree_absent; [done|apply Hinv|done].
Qed.

#[global] Instance filesystem_store_dir_spec : StoreDirSpec FilesystemDataStore.
Proof.
  split.
  - change (fs_inv (filesystem_new b (bare_disk b))). exact fs_sd_new_inv.
  - exact fs_sd_new_entries.
  - exact fs_sd_remove.
Qed.
End filesystem_dir.

(** What storewolf asks of the metadata. *)
Class StoreDirMeta (D : Type) `{StoreDirSpec D} `{!DataStoreMeta D} := {
  sd_new_meta mk k : ds_key (D := D) k → meta_key mk → live_meta sd_new mk k = None;
  sd_remove_meta s s' r mk k :
    ds_inv s → sd_remove_pending s = (s', r) → r = Ok tt ∨ r = Err NotFound →
    ds_key (D := D) k → meta_key mk → live_meta s' mk k = live_meta s mk k }.

Section filesystem_dir_meta.
Context `{HashOrder} `{PercentEncoding} (b : string).
#[local] Instance dir_b : StoreDir FilesystemDataStore := filesystem_store_dir b.

Lemma fs_sd_new_meta mk k :
  proper_key k → meta_key mk → live_meta (filesystem_new b (bare_disk b)) mk k = None.
Proof.
  intros Hk [m Hm]. rewrite (fs_live_meta (components b) _ mk m k); [|apply bare_inv|done..].
  destruct (fs_disk _ !! _) as [n|] eqn:E; [|done]. by apply bare_disk_lookup in E as [-> _].
Qed.

Lemma fs_sd_remove_meta s s' r mk k :
  fs_inv s → sd_remove_pending s = (s', r) → r = Ok tt ∨ r = Err NotFound →
  proper_key k → meta_key mk → live_meta s' mk k = live_meta s mk k.
Proof.
  intros [base Hinv] Hr Hok Hk [m Hm]. cbn in Hr. rewrite (pending_components base) in Hr by apply Hinv.
  destruct (fs_remove_dir_all _ (fs_disk s)) as [d1 r1] eqn:Er. injection Hr as <- <-.
  destruct r1 as [[]|e].
  - pose proof (remove_dir_all_inv _ _ _ _ _ Hinv Er) as Hinv'. unfold fs_remove_dir_all in Er.
    destruct (fs_disk s !! _) as [[|]|]; [|done..]. injection Er as <-.
    rewrite !(fs_live_meta base _ mk m k) by done. cbn. rewrite map_lookup_filter.
    destruct (fs_disk s !! _) as [n|]; [|done]. cbn. rewrite option_guard_True; [done|].
    unfold base_of. rewrite <- app_assoc. intros [E|(x & t & E)].
    + by apply app_inv_head in E.
    + rewrite <- app_assoc in E. by apply app_inv_head in E.
  - unfold fs_remove_dir_all in Er. destruct (fs_disk s !! _) as [[|]|]; try done; injection Er as <- _;
      by rewrite with_same_disk.
Qed.

#[global] Instance filesystem_store_dir_meta : StoreDirMeta FilesystemDataStore.
Proof. split; [exact fs_sd_new_meta|exact fs_sd_remove_meta]. Qed.
End filesystem_dir_meta.

(** ** A new data store *)

Section create_spec.
Context `{DataStoreSpec D} `{StoreDir D} `{SemVer V}.
Implicit Types d : DsDir D.

Lemma sw_dir_op_inv {A} (f : mig_error V → sw_error) d d' (k : bool → stres (DsDir D) sw_error A) r :
  st_bind (st_map_err f dir_op) k d = (d', r) → ∃ b d1, same_dir d d1 ∧ k b d1 = (d', r).
Proof.
  unfold st_bind, st_map_err, dir_op. destruct (dir_io d) as [|b l]; intros Hk; by do 2 eexists; split; [|exact Hk].
Qed.

Lemma sw_rando_inv {A} (f : mig_error V → sw_error) d d' (k : string → stres (DsDir D) sw_error A) r :
  st_bind (st_map_err f rando) k d = (d', r) →
  ∃ x d1, same_dir d d1 ∧ (x = EmptyString ∨ x ∈ dir_rand d) ∧ k x d1 = (d', r).
Proof.
  unfold st_bind, st_map_err, rando. destruct (dir_rand d) as [|x l] eqn:E; intros Hk; do 2 eexists;
    (split; [|split; [|exact Hk]]); [done|by left| |right; by left].
  unfold same_dir. cbn. rewrite E. split_and!; [done..|]. intros. by right.
Qed.

Lemma follow_same d d1 fuel n : links d1 = links d → stores d1 = stores d → follow fuel d1 n = follow fuel d n.
Proof.
  intros E1 E2. revert n. induction fuel as [|fuel IH]; intros n; cbn; rewrite E2, ?E1; [done|].
  destruct (stores d !! n); [done|]. destruct (links d !! n); cbn; [apply IH|done].
Qed.

(** A new name for a directory or a link: nothing else changes. *)
Lemma create_store_spec n d d' r :
  follow MAX_LINKS d n = None → create_store (V := V) n d = (d', r) →
  links d' = links d ∧
  (r = Ok tt ∧ stores d' = <[n := sd_new]> (stores d) ∨ r = Err DirectoryCreation ∧ stores d' = stores d).
Proof.
  intros Hn Hr. unfold create_store in Hr. apply sw_dir_op_inv in Hr as (b & d1 & (E1 & E2 & _) & Hr).
  unfold st_bind at 1 2, st_read in Hr.
  rewrite (follow_same d d1), Hn in Hr by done. cbn in Hr. destruct b; cbn in Hr; [|unfold st_lift in Hr; simplify_eq; split; [done|by right]].
  case_bool_decide; cbn in Hr; unfold st_lift, st_map_err, upd_stores in Hr; cbn in Hr; simplify_eq; cbn; rewrite ?E1, ?E2; (split; [done|]).
  - by right.
  - by left.
Qed.

Lemma sw_symlink_spec target link d d' r :
  sw_symlink (V := V) target link d = (d', r) →
  stores d' = stores d ∧
  (r = Ok tt ∧ links d !! link = None ∧ stores d !! link = None ∧ links d' = <[link := target]> (links d) ∨
   r = Err SwLinkCreate ∧ links d' = links d).
Proof.
  unfold sw_symlink, symlink, st_map_err, st_bind, st_read, dir_op, exists_in, upd_links, st_lift. intros Hr.
  destruct (links d !! link) eqn:El, (stores d !! link) eqn:Es, (dir_io d) as [|b l] eqn:Eio; cbn in Hr;
    rewrite ?El, ?Es in Hr; cbn in Hr; try destruct b; cbn in Hr; simplify_eq; cbn; (split; [done|]); auto.
Qed.

Lemma follow_store fuel d n s : stores d !! n = Some s → follow fuel d n = Some n.
Proof. intros Hs. by destruct fuel; cbn; rewrite Hs. Qed.

Lemma follow_link fuel d n t :
  stores d !! n = None → links d !! n = Some t → follow (S fuel) d n = follow fuel d t.
Proof. intros Hs Hl. cbn. by rewrite Hs, Hl. Qed.

(** The name of the new store is not taken. *)
Definition store_fresh d : Prop :=
  ∀ (v : V) x, x = EmptyString ∨ x ∈ dir_rand d →
    follow MAX_LINKS d (patch_link v +:+ "_" +:+ x) = None.

(** One link of the chain, or the end. *)
Lemma sw_symlink_inv {A} target link d d' (k : () → stres (DsDir D) sw_error A) r :
  st_bind (sw_symlink (V := V) target link) k d = (d', r) →
  (links d' = links d ∧ stores d' = stores d ∧ r = Err SwLinkCreate) ∨
  ∃ d1, links d !! link = None ∧ stores d !! link = None ∧ links d1 = <[link := target]> (links d) ∧
        stores d1 = stores d ∧ k tt d1 = (d', r).
Proof.
  intros [(e & Hr & ->)|(d1 & [] & Hr & Hk)]%st_bind_inv; apply sw_symlink_spec in Hr as (E & [(Hr & ? & ? & ?)|[Hr ?]]);
    simplify_eq; [by left|]. right. by exists d1.
Qed.

(** What is left when the creation stops with an error. *)
Definition stopped d d' : Prop :=
  links d ⊆ links d' ∧ stores d ⊆ stores d' ∧ links d' !! "current" = links d !! "current".

Lemma stopped_link d d0 d' link target :
  stopped d d0 → links d0 !! link = None → link ≠ "current" →
  links d' = <[link := target]> (links d0) → stores d' = stores d0 → stopped d d'.
Proof.
  intros (Hl & Hs & Hc) Hn Hne E1 E2. unfold stopped. rewrite E1, E2, lookup_insert_ne by done.
  split_and!; [|done..]. etrans; [exact Hl|]. by apply insert_subseteq.
Qed.

Lemma create_spec version release d d' r :
  store_fresh d → create_new_datastore version release d = (d', r) →
  match r with
  | Ok n =>
      ∃ v : V, match version with Some v => Some v | None => release end = Some v ∧
        links d ⊆ links d' ∧ stores d' = <[n := sd_new]> (stores d) ∧ stores d !! n = None ∧
        leads_to (links d') n (major_link v) (minor_link v) (patch_link v) ∧
        current_store d' = Some n ∧ current_store d = None ∧ links d !! "current" = None
  | Err _ => stopped d d'
  end.
Proof.
  intros Hfresh Hr. unfold create_new_datastore in Hr.
  assert (∀ d', links d' = links d → stores d' = stores d → stopped d d') as Hsame
    by (by unfold stopped; intros ? -> ->).
  apply st_bind_inv in Hr as [(e & Hr & ->)|(d0 & v & Hv & Hr)].
  { destruct version; [done|]. unfold st_lift in Hr. simplify_eq. by apply Hsame. }
  assert (d0 = d ∧ match version with Some v => Some v | None => release end = Some v) as [-> Hver].
  { destruct version; [by injection Hv as -> ->|]. unfold st_lift in Hv. destruct release; cbn in Hv; by simplify_eq. }
  clear Hv. apply sw_rando_inv in Hr as (x & d1 & (E1 & E2 & _) & Hx & Hr).
  set (n := patch_link v +:+ "_" +:+ x) in *. specialize (Hfresh v x Hx). fold n in Hfresh.
  destruct (link_names v) as [(HM1 & HM2 & _) Hm Hp].
  pose proof (last_leads (major_link v) (minor_link v) (patch_link v) (major_link v) (minor_link v)
    (patch_link v) n (links d) (link_names v) (link_names v)) as Hlead.
  set (M := major_link v) in *. set (m := minor_link v) in *. set (p := patch_link v) in *.
  assert (m ≠ "current" ∧ p ≠ "current") as [Hm2 Hp2] by (split; intros E; rewrite E in *; done).
  rewrite <- (follow_same d d1) in Hfresh by done.
  assert (stores d !! n = None) as Hn.
  { rewrite <- E2. destruct (stores d1 !! n) eqn:E; [|done]. by rewrite (follow_store _ _ _ _ E) in Hfresh. }
  apply st_bind_inv in Hr as [(e & Hr & ->)|(d2 & [] & Hr1 & Hr)].
  { apply create_store_spec in Hr as (F1 & [[? _]|[_ F2]]); [done| |done]. apply Hsame; congruence. }
  apply create_store_spec in Hr1 as (F1 & [[_ F2]|[? _]]); [|done..]. rewrite E1 in F1. rewrite E2 in F2.
  assert (stopped d d2) as S2.
  { unfold stopped. rewrite F1, F2. split_and!; [done|by apply insert_subseteq|done]. }
  apply sw_symlink_inv in Hr as [(? & ? & ->)|(d3 & L3 & T3 & G3 & I3 & Hr)];
    [unfold stopped in *; congruence|].
  apply (stopped_link d d2) in G3 as S3; [|done..].
  apply sw_symlink_inv in Hr as [(? & ? & ->)|(d4 & L4 & T4 & G4 & I4 & Hr)];
    [unfold stopped in *; congruence|].
  apply (stopped_link d d3) in G4 as S4; [|done..].
  apply sw_symlink_inv in Hr as [(? & ? & ->)|(d5 & L5 & T5 & G5 & I5 & Hr)];
    [unfold stopped in *; congruence|].
  apply (stopped_link d d4) in G5 as S5; [|done..].
  apply sw_symlink_inv in Hr as [(? & ? & ->)|(d6 & L6 & T6 & G6 & I6 & Hr)];
    [unfold stopped in *; congruence|].
  injection Hr as <- <-. exists v. pose proof G6 as G6'. rewrite F1 in G3. rewrite G3 in G4. rewrite G4 in G5. rewrite G5 in G6.
  change (links d6 = Migrator.L4 M m p n (links d)) in G6.
  assert (stores d6 = <[n := sd_new]> (stores d)) as Hs by congruence.
  destruct S5 as (Sl & Ss & _).
  assert (stores d2 = stores d6 ∧ stores d3 = stores d6 ∧ stores d4 = stores d6 ∧ stores d5 = stores d6)
    as (U2 & U3 & U4 & U5) by (split_and!; congruence).
  rewrite U2 in T3. rewrite U3 in T4. rewrite U4 in T5. rewrite U5 in T6.
  rewrite <- G6 in Hlead. split_and!; [done| |done|done|done| | |by apply (lookup_weaken_None _ _ _ L6 Sl)].
  - rewrite G6'. etrans; [exact Sl|]. by apply insert_subseteq.
  - destruct Hlead as (C1 & C2 & C3 & C4). unfold current_store, MAX_LINKS.
    rewrite (follow_link _ _ _ M), (follow_link _ _ _ m), (follow_link _ _ _ p), (follow_link _ _ _ n) by done.
    eapply follow_store. by rewrite Hs, lookup_insert_eq.
  - unfold current_store, MAX_LINKS. rewrite U5 in Ss. cbn.
    by rewrite (lookup_weaken_None _ _ _ T6 Ss), (lookup_weaken_None _ _ _ L6 Sl).
Qed.
End create_spec.

(** Creating a data store is all or nothing for readers: when
    [create_new_datastore] works, the links [current], [vX], [vX.Y] and [vX.Y.Z]
    lead to a new, empty store and nothing led anywhere before; wherever it stops
    with an error, [current] is as it was.  No store or link that was there is
    changed. *)
Lemma create_new_datastore_atomic `{DataStoreSpec D} `{StoreDir D} `{SemVer V}
    (version release : option V) (d d' : DsDir D) r :
  store_fresh d → create_new_datastore version release d = (d', r) →
  links d ⊆ links d' ∧ stores d ⊆ stores d' ∧
  match r with
  | Ok n =>
      current_store d = None ∧ current_store d' = Some n ∧ stores d' !! n = Some sd_new ∧
      ∃ v, match version with Some v => Some v | None => release end = Some v ∧
        leads_to (links d') n (major_link v) (minor_link v) (patch_link v)
  | Err _ => links d' !! "current" = links d !! "current"
  end.
Proof.
  intros Hf Hr%create_spec; [|done]. destruct r as [n|e].
  - destruct Hr as (v & Hv & Hl & Hs & Hn & Hlead & Hc & Hc0 & _). rewrite Hs, lookup_insert_eq.
    split_and!; [done|by apply insert_subseteq|done..|]. by exists v.
  - by destruct Hr as (? & ? & ?).
Qed.

(** ** A run *)

Section run_spec.
Context `{StoreDirSpec D} `{SerdeJson} `{TomlTypes} `{SemVer V}.
Hypothesis Hkey : ∀ k, proper_key k → ds_key (D := D) k.
Hypothesis Hlaunch : ds_committed (D := D) (Pending LAUNCH_TRANSACTION).
Implicit Types d : DsDir D.

(** The live data that [current] leads to. *)
Definition live_view d : gmap (list string) string :=
  match n ← current_store d; stores d !! n with
  | Some s => hm_view (ds_entries s Live)
  | None => ∅
  end.

(** The live metadata that [current] leads to. *)
Definition live_meta_of d (mk k : Key) : option string :=
  s ← (n ← current_store d; stores d !! n); live_meta s mk k.

Definition stores_inv d : Prop := map_Forall (λ _ s, ds_inv s) (stores d).

Lemma follow_stored fuel d n m : follow fuel d n = Some m → ∃ s, stores d !! m = Some s.
Proof.
  revert n. induction fuel as [|fuel IH]; intros n; cbn; destruct (stores d !! n) eqn:E; try naive_solver.
  intros (t & _ & Ht)%bind_Some. eauto.
Qed.

Lemma follow_update fuel d n s s' m rnd io :
  stores d !! m = Some s → follow fuel (mk_dir (links d) (<[m := s']> (stores d)) rnd io) n = follow fuel d n.
Proof.
  intros Hm. revert n. induction fuel as [|fuel IH]; intros n; cbn; rewrite lookup_insert;
    case_decide as E; subst; rewrite ?Hm; try done. destruct (stores d !! n); [done|].
  destruct (links d !! n); [apply IH|done].
Qed.

Lemma with_current_Ok {A} (m : stres D sw_error A) d d' a :
  with_current m d = (d', Ok a) →
  ∃ n s s', current_store d = Some n ∧ stores d !! n = Some s ∧ m s = (s', Ok a) ∧
    d' = mk_dir (links d) (<[n := s']> (stores d)) (dir_rand d) (dir_io d).
Proof.
  unfold with_current. destruct (current_store d) as [n|] eqn:En; [|done].
  destruct (stores d !! n) as [s|] eqn:Es; [|done]. destruct (m s) as [s' r] eqn:Em. intros [= <- ->].
  exists n, s, s'. by rewrite Em.
Qed.

(** After the removal of the pending transactions. *)
Lemma delete_pending_spec d d' u :
  stores_inv d → store_fresh (V := V) d → delete_pending d = (d', Ok u) →
  stores_inv d' ∧ store_fresh (V := V) d' ∧ live_view d' = live_view d ∧
  ∀ n s tx, current_store d' = Some n → stores d' !! n = Some s → ds_committed (D := D) (Pending tx) →
    ds_entries s (Pending tx) = ∅.
Proof using H3.
  intros Hinv Hfresh. unfold delete_pending. destruct (current_store d) as [n|] eqn:En.
  2: { intros [= <- _]. split_and!; [done..|]. by rewrite En. }
  destruct (stores d !! n) as [s|] eqn:Es; cycle 1.
  { apply follow_stored in En as [s Hs]. congruence. }
  destruct (sd_remove_pending s) as [s' r] eqn:Er. intros [= <- Hr].
  assert (r = Ok tt ∨ r = Err NotFound) as Hok.
  { destruct r as [[]|[]]; naive_solver. }
  apply sd_remove in Er as (Hs' & Hlive & _ & Hp); [|by apply (Hinv _ _ Es)|done].
  set (d1 := mk_dir _ _ _ _).
  assert (current_store d1 = Some n) as En1.
  { rewrite <- En. unfold current_store. by apply (follow_update _ _ _ s). }
  assert (stores d1 !! n = Some s') as Es1 by apply lookup_insert_eq.
  split_and!.
  - by apply map_Forall_insert_2.
  - intros v x Hx. unfold d1. rewrite (follow_update _ _ _ s) by done. by apply Hfresh.
  - unfold live_view. rewrite En1, En. cbn. by rewrite lookup_insert_eq, Es, Hlive.
  - intros n' s1 tx. rewrite En1. intros [= <-]. rewrite Es1. intros [= <-]. apply Hp.
Qed.

(** What [populate_default_datastore] finds, and the defaults it writes. *)
Lemma populate_spec defaults version release d d' u :
  stores_inv d → store_fresh (V := V) d →
  populate_default_datastore defaults version release d = (d', Ok u) →
  ∃ text v d1 n s s' (em : key_map key_set) (existing : key_set),
    defaults = Some text ∧ toml_from_str text = Some v ∧
    live_view d = hm_view (ds_entries s Live) ∧ ds_inv s ∧
    (∀ segs, existing !! segs = None ↔ ds_entries s Live !! segs = None) ∧
    (current_store d = Some n ∧ stores d !! n = Some s ∧
       list_populated_metadata s EmptyString Live None = Ok em ∨
     current_store d = None ∧ s = sd_new ∧ em = ∅) ∧
    current_store d1 = Some n ∧ stores d1 !! n = Some s ∧
    populate_defaults v em existing s = (s', Ok u) ∧
    d' = mk_dir (links d1) (<[n := s']> (stores d1)) (dir_rand d1) (dir_io d1).
Proof using H3.
  intros Hinv Hfresh Hr. unfold populate_default_datastore in Hr.
  unfold st_bind at 1, st_read at 1 in Hr. apply st_bind_Ok in Hr as (d1 & ex & Hex & Hr).
  apply st_bind_Ok in Hr as (? & text & [-> ->%ok_or_Ok]%st_lift_Ok & Hr).
  apply st_bind_Ok in Hr as (? & v & [-> Hv%ok_or_Ok]%st_lift_Ok & Hr).
  apply with_current_Ok in Hr as (n & s & s' & Hn & Hs & Hp & ->).
  exists text, v, d1, n, s, s', ex.1, ex.2. split; [done|]. split; [done|].
  destruct (live_exists d).
  - apply with_current_Ok in Hex as (n' & s0 & s1 & Hn' & Hs0 & Hm & ->). sinv.
    injection Hm as <- <-. cbn in Hs. pose proof Hn' as Hn2.
    unfold current_store in Hn. rewrite (follow_update _ _ _ s0) in Hn by done.
    fold (current_store d) in Hn. rewrite Hn' in Hn. injection Hn as <-.
    rewrite lookup_insert_eq in Hs. injection Hs as <-.
    match goal with H : list_populated_keys _ _ _ = _ |- _ =>
      apply ds_list_keys in H; [rename H into Hks|by apply (Hinv _ _ Hs0)|apply ds_committed_live] end.
    split_and!; try done.
    + unfold live_view. by rewrite Hn'; cbn; rewrite Hs0.
    + by apply (Hinv _ _ Hs0).
    + intros segs. cbn. rewrite Hks, lookup_fmap, fmap_None, map_lookup_filter.
      destruct (ds_entries s0 Live !! segs) as [[k x]|]; cbn; [|done].
      by rewrite option_guard_True by by destruct (name k).
    + by left.
    + unfold current_store. by rewrite (follow_update _ _ _ s0).
    + apply lookup_insert_eq.
  - apply st_bind_Ok in Hex as (d2 & n' & Hc & Hex). injection Hex as <- <-.
    apply create_spec in Hc as (_ & _ & _ & Hs2 & _ & _ & Hn2 & Hn0 & _); [|done].
    rewrite Hn2 in Hn. injection Hn as <-. rewrite Hs2, lookup_insert_eq in Hs. injection Hs as <-.
    rewrite Hs2, lookup_insert_eq. split_and!; try done.
    + unfold live_view. rewrite Hn0. cbn. rewrite sd_new_entries by apply ds_committed_live. done.
    + apply sd_new_inv.
    + intros segs. cbn. by rewrite sd_new_entries by apply ds_committed_live.
    + by right.
Qed.
End run_spec.

(** What was live, and what the listing said of it. *)
Lemma old_meta_filled `{StoreDirMeta D} `{TomlTypes} (d : DsDir D) n s em ms mk k new :
  ds_inv s → ds_key (D := D) k → meta_key mk →
  (current_store d = Some n ∧ stores d !! n = Some s ∧ list_populated_metadata s EmptyString Live None = Ok em ∨
   current_store d = None ∧ s = sd_new ∧ em = ∅) →
  ((meta_listed em k mk ∨ (∀ m, m ∈ ms → ¬ names m mk k)) ∧ new = live_meta s mk k ∨
   ¬ meta_listed em k mk ∧ ∃ m v, m ∈ ms ∧ names m mk k ∧ toml_scalar (md_val m) = Ok v ∧ new = Some v) →
  ((∀ m, m ∈ ms → ¬ names m mk k) → new = live_meta_of d mk k) ∧
  (dm_own_name (D := D) mk → filled ms mk k (live_meta_of d mk k) new).
Proof.
  intros Hs Hk Hmk Hold Hnew.
  assert (live_meta_of d mk k = live_meta s mk k ∧
    (dm_own_name (D := D) mk → meta_listed em k mk ↔ is_Some (live_meta s mk k))) as [-> Hl].
  { unfold live_meta_of. destruct Hold as [(-> & E & Hem)|(-> & -> & ->)]; cbn.
    - rewrite E. split; [done|]. by apply dm_list.
    - rewrite sd_new_meta by done. split; [done|]. intros _. split; [|by intros []%is_Some_None].
      by intros (? & ? & ? & ? & ? & ? & _). }
  split.
  - intros Hno. destruct Hnew as [[_ ->]|(_ & m & v & Hm & Hn & _)]; [done|by destruct (Hno m Hm)].
  - intros Hown. specialize (Hl Hown). unfold filled.
    destruct Hnew as [[Hor ->]|(Hno & m & v & ? & ? & ? & ->)], (live_meta s mk k) eqn:E; [done| | |].
    + left. split; [done|]. destruct Hor as [Hin|?]; [|done]. by apply Hl, is_Some_None in Hin.
    + destruct Hno. by apply Hl.
    + right. by exists m, v.
Qed.

Lemma delete_pending_meta `{StoreDirMeta D} `{SemVer V} (d d' : DsDir D) u mk k :
  stores_inv d → delete_pending d = (d', Ok u) → ds_key (D := D) k → meta_key mk →
  live_meta_of d' mk k = live_meta_of d mk k.
Proof.
  intros Hinv Hr Hk Hmk. unfold delete_pending in Hr. destruct (current_store d) as [n|] eqn:En;
    [|by injection Hr as <- _].
  destruct (stores d !! n) as [s|] eqn:Es; [|by injection Hr as <- _].
  destruct (sd_remove_pending s) as [s' r] eqn:Er. injection Hr as <- Hr.
  unfold live_meta_of, current_store. rewrite (follow_update _ _ _ s) by done.
  fold (current_store d). rewrite En. cbn. rewrite lookup_insert_eq, Es. cbn.
  apply (sd_remove_meta _ _ _ mk k) in Er; [done|by apply (Hinv _ _ Es)| |done..].
  destruct r as [[]|[]]; naive_solver.
Qed.


(** A run that stopped after it made the links and before anything was live (say, at
    defaults that do not parse) is never made up for: with [current] there and its
    [live] missing, every later run tries to make the links again and fails. *)
Lemma interrupted_run_stuck `{DataStoreSpec D} `{StoreDir D} `{SerdeJson} `{TomlTypes} `{SemVer V}
    defaults (version release : option V) (d d' : DsDir D) r :
  store_fresh (V := V) d → live_exists d = false → is_Some (links d !! "current") →
  populate_default_datastore defaults version release d = (d', r) → r ≠ Ok tt.
Proof.
  intros Hf Hlive [t Ht] Hr ->. unfold populate_default_datastore in Hr.
  unfold st_bind at 1, st_read at 1 in Hr. rewrite Hlive in Hr.
  apply st_bind_Ok in Hr as (d1 & ex & Hex & _). apply st_bind_Ok in Hex as (d2 & n & Hc & _).
  apply create_spec in Hc as (_ & _ & _ & _ & _ & _ & _ & _ & Hn); [congruence|done].
Qed.

(** ** Examples *)

Section fresh.
Context {D V : Type} `{SemVer V}.

(** Names without an underscore are not the name of a new store. *)
Lemma store_fresh_names (d : DsDir D) :
  map_Forall (λ n _, no_char "_"%char n) (links d) → map_Forall (λ n _, no_char "_"%char n) (stores d) →
  store_fresh (V := V) d.
Proof.
  intros Hl Hs v x _. set (n := patch_link v +:+ "_" +:+ x).
  assert (¬ no_char "_"%char n) as Hn.
  { unfold n. rewrite !no_char_app. intros (_ & Hu & _).
    unfold no_char in Hu. cbn in Hu. done. }
  assert (stores d !! n = None ∧ links d !! n = None) as [E1 E2].
  { split; apply eq_None_not_Some; intros [y Hy]; destruct Hn; [exact (Hs _ _ Hy)|exact (Hl _ _ Hy)]. }
  clearbody n. generalize MAX_LINKS. intros [|fuel]; cbn; rewrite E1, ?E2; done.
Qed.
End fresh.

(** A conversion for evaluation: dates and floats have none. *)
Fixpoint example_to_value (t : toml) : result json_error Json.json :=
  match t with
  | TString s => Ok (JString s)
  | TInteger n => Ok (JNumber (PosInt n))
  | TBoolean b => Ok (JBool b)
  | TArray l =>
      JArray <$> (fix go (l : list toml) : result json_error (list Json.json) :=
        match l with
        | [] => Ok []
        | t :: l => let? v := example_to_value t in let? vs := go l in Ok (v :: vs)
        end) l
  | TTable m =>
      JObject <$> (fix go (m : list (string * toml)) : result json_error (list (string * Json.json)) :=
        match m with
        | [] => Ok []
        | (k, t) :: m => let? v := example_to_value t in let? vs := go m in Ok ((k, v) :: vs)
        end) m
  | TFloat _ | TDatetime _ => Err JsonError
  end.

(** The metadata of [tests/data/metadata.toml], settings and services. *)
Definition example_metadata_toml : toml :=
  TTable [("a", TTable [(SETTING_GENERATOR, TTable [("command", TString "my test command");
                                                   ("strength", TString "weak"); ("depth", TInteger 0)])]);
          ("c", TTable [("d", TTable [(SETTING_GENERATOR, TString "shibaken generate-admin-userdata")])]);
          ("e", TTable [("f", TTable [("affected-services", TArray [TString "cfsignal"])])])].
Definition example_defaults : toml :=
  TTable [("settings", TTable [("motd", TString "hello"); ("ntp", TTable [("pool", TString "x")])]);
          ("metadata", TTable [("settings", TTable [
             ("ntp", TTable [("servers", TTable [(SETTING_GENERATOR, TString "y")])]);
             ("motd", TTable [("affected-services", TArray [TString "motd"])])])]);
          ("services", TTable [("ntp", TTable [("restart", TArray [])])])].

#[local] Instance example_toml : TomlTypes := {|
  single_line s := bool_decide (no_char (ascii_of_nat 10) s);
  toml_to_value := example_to_value;
  toml_scalar t := let? v := example_to_value t in Ok (example_to_string v);
  toml_from_str s := if decide (s = "defaults") then Some example_defaults else None |}.
#[local] Existing Instance example_json.
#[local] Existing Instance example_order.
#[local] Existing Instance example_numbers.

(** The answer of [test_parse_metadata_toml], in its order. *)
Example example_parsed :
  parse_metadata_toml example_metadata_toml =
  Ok [mk_metadata "e.f" "affected-services" (TArray [TString "cfsignal"]);
      mk_metadata "c.d" SETTING_GENERATOR (TString "shibaken generate-admin-userdata");
      mk_metadata "a" SETTING_GENERATOR (TTable [("command", TString "my test command");
                                                 ("strength", TString "weak"); ("depth", TInteger 0)])].
Proof. vm_compute. reflexivity. Qed.

(** A host with a data store whose user has set the message of the day, with a
    generator for the time servers and an open transaction. *)
#[local] Existing Instance example_percent.
#[local] Existing Instance filesystem_data_store.
#[local] Instance example_store_dir : StoreDir FilesystemDataStore := filesystem_store_dir "/data".
Definition example_host_dir : DsDir FilesystemDataStore :=
  mk_dir (<["v1.5.1" := "v1.5.1-abc"]> (links (example_dir []))) {[ "v1.5.1-abc" := example_after ]} ["new"] [].
Definition example_storewolf `{DataStore D} `{StoreDir D} (d : DsDir D) (defaults : option string) :=
  storewolf_run (V := Z) defaults (Some 151%Z) None d.
Definition example_affected : Key := mk_key "affected-services" ["affected-services"].
Definition example_generator : Key := mk_key SETTING_GENERATOR [SETTING_GENERATOR].


Lemma create_new_datastore_atomic_witness :
  let d : DsDir MemoryDataStore := mk_dir ∅ ∅ ["new"] [true; true; false] in
  links (create_new_datastore (Some 151%Z) None d).1 !! "current" = None.
Proof.
  cbv zeta. destruct (create_new_datastore (Some 151%Z) None _) as [d' r] eqn:E.
  destruct (create_new_datastore_atomic (D := MemoryDataStore) (Some 151%Z) None
    (mk_dir ∅ ∅ ["new"] [true; true; false]) d' r) as (_ & _ & Hr).
  - apply store_fresh_names; apply map_Forall_empty.
  - exact E.
  - assert (r = Err SwLinkCreate) as ->.
    { change r with (d', r).2. rewrite <- E. vm_compute. reflexivity. }
    exact Hr.
Defined.

(** The first run cannot read the defaults; the second could, and fails. *)
Example interrupted_runs :
  let d0 : DsDir MemoryDataStore := mk_dir ∅ ∅ ["r1"; "r2"] [] in
  (example_storewolf d0 None).2 = Err ReadDefaults ∧
  (example_storewolf (example_storewolf d0 None).1 (Some "defaults")).2 = Err SwLinkCreate.
Proof. split; vm_compute; reflexivity. Qed.
