(* ===== verification/Whippet.v ===== *)
(** * The D-Bus policy compiler of whippet ([sources/whippet/src/])

    policy.rs and dbus_policy.rs, and their composition in main.rs: the policy
    files are loaded in order and merged, rules get priorities, user names become
    UIDs, connect rules move to the context of their user, redundant ones are
    dropped, and what is left becomes the message for the broker.

    Reading files and directories, the TOML parser and the lookup of a user name
    ([getpwnam]) are parameters. *)
From S2P Require Import Prelude Numbers IndexMap.
From Stdlib Require Import Ascii.
From stdpp Require Import base numbers list strings gmap sorting pretty.
From stdpp Require Import options.

(** ** Definitions *)

Definition DEFAULT_POLICY_CONTEXT_MULTIPLIER : Z := 1.
Definition DEFAULT_POLICY_CONTEXT_USER : Z := 3.
Definition U64_MAX : Z := 2 ^ 64 - 1.
Definition PRIORITY_BASE : Z := U64_MAX / 7.
Definition DEFAULT_USER_ID : Z := 2 ^ 32 - 1.

Inductive MessageType := Invalid | MethodCall | Signal.

Inductive Rule :=
| ConnectUser (allow : bool) (user : string) (priority : Z)
| Own (own : string) (allow : bool) (priority : Z)
| Send (send_destination send_interface send_member : string) (send_type : MessageType)
    (send_path : string) (send_broadcast : Z) (allow : bool) (priority : Z)
| Receive (receive_sender receive_path receive_interface receive_member : string)
    (receive_type : MessageType) (receive_broadcast : Z) (allow : bool) (priority : Z).

#[global] Instance message_type_eq_dec : EqDecision MessageType.
Proof. solve_decision. Defined.
#[global] Instance rule_eq_dec : EqDecision Rule.
Proof. solve_decision. Defined.

Record Context := mk_context { rules : list Rule }.
Definition context_default : Context := mk_context [].

Record Policy := mk_policy {
  default_context : option Context;
  user : option (list (string * Context)) }.
Definition policy_default : Policy := mk_policy None None.

Inductive whippet_error :=
| PolicyParse
| CollectPaths (what : string)
| ReadPath (what : string)
| UserContextWithConnectRule (username : string)
| UserNotFound (username : string)
| UserLookupFailed (username : string)
| RuleToRecord (record_type : string)
| ParseUid (uid : string)
| InvalidPropertyForRule (property : string).

(** *** Rules *)

Definition set_priority (new_priority : Z) (r : Rule) : Rule :=
  match r with
  | ConnectUser allow user _ => ConnectUser allow user new_priority
  | Own own allow _ => Own own allow new_priority
  | Send d i m t p b allow _ => Send d i m t p b allow new_priority
  | Receive s p i m t b allow _ => Receive s p i m t b allow new_priority
  end.
Definition get_priority (r : Rule) : Z :=
  match r with
  | ConnectUser _ _ priority | Own _ _ priority | Send _ _ _ _ _ _ _ priority
  | Receive _ _ _ _ _ _ _ priority => priority
  end.
Definition is_connect (r : Rule) : bool := match r with ConnectUser _ _ _ => true | _ => false end.

Definition wildcard (field : string) : string :=
  if decide (field = "*") then EmptyString else field.
(** [impl_wildcard_getter!]. *)
Definition interface (r : Rule) : result whippet_error string :=
  match r with
  | Send _ send_interface _ _ _ _ _ _ => Ok (wildcard send_interface)
  | Receive _ _ receive_interface _ _ _ _ _ => Ok (wildcard receive_interface)
  | _ => Err (InvalidPropertyForRule "interface")
  end.
Definition rule_name (r : Rule) : result whippet_error string :=
  match r with
  | Send send_destination _ _ _ _ _ _ _ => Ok (wildcard send_destination)
  | Receive receive_sender _ _ _ _ _ _ _ => Ok (wildcard receive_sender)
  | _ => Err (InvalidPropertyForRule "name")
  end.
Definition member (r : Rule) : result whippet_error string :=
  match r with
  | Send _ _ send_member _ _ _ _ _ => Ok (wildcard send_member)
  | Receive _ _ _ receive_member _ _ _ _ => Ok (wildcard receive_member)
  | _ => Err (InvalidPropertyForRule "member")
  end.
Definition path (r : Rule) : result whippet_error string :=
  match r with
  | Send _ _ _ _ send_path _ _ _ => Ok (wildcard send_path)
  | Receive _ receive_path _ _ _ _ _ _ => Ok (wildcard receive_path)
  | _ => Err (InvalidPropertyForRule "path")
  end.

Definition has_connect_rule (c : Context) : bool := existsb is_connect (rules c).

(** *** Loading *)

(** [for rule in &mut rules]: one priority per rule, the counter goes on. *)
Fixpoint set_priorities (multiplier : Z) (rs : list Rule) (current_priority : Z) : list Rule * Z :=
  match rs with
  | [] => ([], current_priority)
  | rule :: rs =>
      let priority := wrap 64 (wrap 64 (PRIORITY_BASE * multiplier) + current_priority) in
      let '(rs, last) := set_priorities multiplier rs (wrap 64 (current_priority + 1)) in
      (set_priority priority rule :: rs, last)
  end.

Fixpoint set_user_priorities (user_policy : list (string * Context)) (current_priority : Z) :
    list (string * Context) * Z :=
  match user_policy with
  | [] => ([], current_priority)
  | (u, policy) :: user_policy =>
      let '(rs, current_priority) :=
        set_priorities DEFAULT_POLICY_CONTEXT_USER (rules policy) current_priority in
      let '(user_policy, last) := set_user_priorities user_policy current_priority in
      ((u, mk_context rs) :: user_policy, last)
  end.

Definition set_rule_priorities (self : Policy) (current_priority : Z) : Policy * Z :=
  let '(user_policy, current_priority) :=
    match user self with
    | Some user_policy =>
        let '(user_policy, last) := set_user_priorities user_policy current_priority in
        (Some user_policy, last)
    | None => (None, current_priority)
    end in
  match default_context self with
  | Some default_rules =>
      let '(rs, current_priority) :=
        set_priorities DEFAULT_POLICY_CONTEXT_MULTIPLIER (rules default_rules) current_priority in
      (mk_policy (Some (mk_context rs)) user_policy, current_priority)
  | None => (mk_policy None user_policy, current_priority)
  end.

Section whippet.
(** [fs::read_dir]: the names of the entries, those that could be read;
    [fs::read_to_string]; [toml::from_str]; [User::from_name]. *)
Variable read_dir : string → result () (list (result () string)).
Variable read_to_string : string → result () string.
Variable toml_from_str : string → result () Policy.
Variable from_name : string → result () (option Z).

Fixpoint merge_users (policies base : list (string * Context)) : list (string * Context) :=
  match policies with
  | [] => base
  | (u, policy) :: policies =>
      merge_users policies
        (im_entry u context_default (λ c, mk_context (rules c ++ rules policy)) base)
  end.

Definition load_one_policy (policy_file : string) (base_policy : Policy) (current_priority : Z) :
    result whippet_error (Policy * Z) :=
  let? policy_content := map_err (λ _, ReadPath policy_file) (read_to_string policy_file) in
  let? policy := map_err (λ _, PolicyParse) (toml_from_str policy_content) in
  let '(policy, current_priority) := set_rule_priorities policy current_priority in
  let default_policy := default context_default (default_context policy) in
  let base_policy_default := default context_default (default_context base_policy) in
  Ok (mk_policy (Some (mk_context (rules base_policy_default ++ rules default_policy)))
        (Some (merge_users (default [] (user policy)) (default [] (user base_policy)))),
      current_priority).

Fixpoint load_policies (all_policies : list string) (policy : Policy) (current_priority : Z) :
    result whippet_error Policy :=
  match all_policies with
  | [] => Ok policy
  | policy_file :: all_policies =>
      let? loaded := load_one_policy policy_file policy current_priority in
      load_policies all_policies loaded.1 loaded.2
  end.

Definition validate (self : Policy) : result whippet_error () :=
  match user self with
  | Some user_policy =>
      foldr (λ '(username, context) rest,
        let? _ := ensure (negb (has_connect_rule context)) (UserContextWithConnectRule username) in
        rest) (Ok tt) user_policy
  | None => Ok tt
  end.

(** *** User names *)

(** [PasswdUsernameResolver::resolve], with its cache. *)
Definition resolve (username : string) : stres (gmap string Z) whippet_error Z := λ cache,
  if decide (username = "*") then (cache, Ok DEFAULT_USER_ID)
  else match parse_u32 username with
       | Some uid => (cache, Ok uid)
       | None =>
           match cache !! username with
           | Some uid => (cache, Ok uid)
           | None =>
               match from_name username with
               | Ok (Some uid) => (<[username := uid]> cache, Ok uid)
               | Ok None => (cache, Err (UserNotFound username))
               | Err _ => (cache, Err (UserLookupFailed username))
               end
           end
       end.

Fixpoint replace_rule_uids (rs : list Rule) : stres (gmap string Z) whippet_error (list Rule) :=
  match rs with
  | [] => st_ret []
  | ConnectUser allow user priority :: rs =>
      let! uid := resolve user in
      let! rs := replace_rule_uids rs in
      st_ret (ConnectUser allow (unsigned_to_string uid) priority :: rs)
  | rule :: rs =>
      let! rs := replace_rule_uids rs in st_ret (rule :: rs)
  end.

Fixpoint replace_user_uids (users_contexts final_users_contexts : list (string * Context)) :
    stres (gmap string Z) whippet_error (list (string * Context)) :=
  match users_contexts with
  | [] => st_ret final_users_contexts
  | (u, policy) :: users_contexts =>
      let! uid := resolve u in
      replace_user_uids users_contexts
        (im_insert (unsigned_to_string uid) policy final_users_contexts)
  end.

Definition replace_uids (self : Policy) : stres (gmap string Z) whippet_error Policy :=
  let! default_policy :=
    match default_context self with
    | Some default_context =>
        let! rs := replace_rule_uids (rules default_context) in st_ret (Some (mk_context rs))
    | None => st_ret None
    end in
  let! final_users_contexts := replace_user_uids (default [] (user self)) [] in
  st_ret (mk_policy default_policy (Some final_users_contexts)).

(** [Path::extension]: what follows the last dot, unless nothing precedes it. *)
Definition extension (file_name : string) : option string :=
  match reverse (str_split (ascii_of_nat 46) file_name) with
  | after :: before :: rest =>
      if decide (rest = [] ∧ before = EmptyString) then None else Some after
  | _ => None
  end.

(** [Vec::sort] on the paths of one directory. *)
Definition path_le (a b : string) : Prop := String.leb a b = true.
#[local] Instance path_le_dec : RelDecision path_le := λ a b, bool_eq_dec (String.leb a b) true.
Definition sort_paths : list string → list string := merge_sort path_le.

(** The files to load, in order. *)
Definition policy_paths (policy_file policies_dir : string) : result whippet_error (list string) :=
  let? entries := map_err (λ _, ReadPath policies_dir) (read_dir policies_dir) in
  let? names := map_err (λ _, CollectPaths policies_dir) (mapM id entries) in
  let toml_files :=
    sort_paths (filter (λ path, extension path = Some "toml") names) in
  Ok (policy_file :: ((λ n, policies_dir +:+ "/" +:+ n) <$> toml_files)).

Definition policy_new (policy_file policies_dir : string) : result whippet_error Policy :=
  let? all_policies := policy_paths policy_file policies_dir in
  let? policy := load_policies all_policies policy_default 3 in
  let? _ := validate policy in
  (replace_uids policy ∅).2.

(** *** Moving and dropping connect rules *)

(** The connect rules of named users, in order, and the other rules. *)
Definition names_user (r : Rule) : bool :=
  match r with
  | ConnectUser _ user _ => negb (bool_decide (user = unsigned_to_string DEFAULT_USER_ID))
  | _ => false
  end.

Fixpoint inject_connect_rules (connect_rules : list Rule) (user_policy : list (string * Context)) :
    list (string * Context) :=
  match connect_rules with
  | [] => user_policy
  | rule :: connect_rules =>
      inject_connect_rules connect_rules
        match rule with
        | ConnectUser _ user _ =>
            im_entry user context_default (λ c, mk_context (rules c ++ [rule])) user_policy
        | _ => user_policy
        end
  end.

(** [prepare]; the rules are popped from the end. *)
Definition prepare (self : Policy) : Policy :=
  let '(connect_rules, default_policy) :=
    match default_context self with
    | Some c =>
        (filter (λ r, names_user r = true) (rules c),
         Some (mk_context (filter (λ r, names_user r = false) (rules c))))
    | None => ([], None)
    end in
  match connect_rules with
  | [] => mk_policy default_policy (user self)
  | _ =>
      mk_policy default_policy
        (Some (inject_connect_rules (reverse connect_rules) (default [] (user self))))
  end.

(** [sort_by] is stable; only the first element is used. *)
Fixpoint insert_by_priority (r : Rule) (rs : list Rule) : list Rule :=
  match rs with
  | [] => [r]
  | r' :: rs' =>
      if (get_priority r' <=? get_priority r)%Z then r :: rs else r' :: insert_by_priority r rs'
  end.
Definition sort_by_priority_desc (rs : list Rule) : list Rule := foldr insert_by_priority [] rs.

Definition find_priority_threshold (rs : list Rule) : Z :=
  default 0%Z (get_priority <$> head (sort_by_priority_desc (filter (λ r, is_connect r = true) rs))).

Definition clean_connect_rules (priority_threshold : Z) (rs : list Rule) : list Rule :=
  filter (λ r, negb (is_connect r) || (get_priority r =? priority_threshold)%Z = true) rs.

Definition optimize_context (priority_threshold : Z) (c : Context) : Context :=
  let user_priority_threshold := find_priority_threshold (rules c) in
  mk_context (clean_connect_rules
    (if (user_priority_threshold <? priority_threshold)%Z then priority_threshold
     else user_priority_threshold) (rules c)).

(** Contexts without rules are removed. *)
Definition optimize_users (priority_threshold : Z) (user_policy : list (string * Context)) :
    list (string * Context) :=
  filter (λ kc : string * Context, rules kc.2 ≠ [])
    (prod_map id (optimize_context priority_threshold) <$> user_policy).

Definition optimize (self : Policy) : Policy :=
  let priority_threshold :=
    match default_context self with
    | Some default_policy => find_priority_threshold (rules default_policy)
    | None => 0%Z
    end in
  mk_policy
    (match default_context self with
     | Some default_policy =>
         Some (mk_context (clean_connect_rules priority_threshold (rules default_policy)))
     | None => None
     end)
    (match user self with
     | Some user_policy => Some (optimize_users priority_threshold user_policy)
     | None => None
     end).

(** *** The message for the broker *)

Record OwnRecord := mk_own { own_verdict : bool; own_priority : Z; own_prefix : bool; own_name : string }.

(** [SendRecord] and [ReceiveRecord], the two instances of [impl_record!]. *)
Record MessageRecord := mk_record {
  verdict : bool;
  record_priority : Z;
  record_name : string;
  record_path : string;
  record_interface : string;
  record_member : string;
  record_type : MessageType;
  broadcast : Z;
  min_fds : Z;
  max_fds : Z }.

Record PolicyBatch := mk_batch {
  connect_verdict : bool;
  connect_priority : Z;
  own_rules : list OwnRecord;
  send_rules : list MessageRecord;
  recv_rules : list MessageRecord }.
Definition batch_default : PolicyBatch := mk_batch false 0 [] [] [].

(** The lists for consoles and SELinux are always empty, [apparmor_enabled] false. *)
Record DbusPolicy := mk_dbus {
  uid_entries : list (Z * PolicyBatch);
  bus_type : string }.

Definition own_try_from (r : Rule) : result whippet_error OwnRecord :=
  match r with
  | Own own allow priority =>
      let '(name, prefix) := if decide (own = "*") then (EmptyString, true) else (own, false) in
      Ok (mk_own allow priority prefix name)
  | _ => Err (RuleToRecord "OwnRecord")
  end.

Definition message_record (r : Rule) (allow : bool) (priority : Z) (type : MessageType) (bcast : Z) :
    result whippet_error MessageRecord :=
  let? name := rule_name r in
  let? interface := interface r in
  let? member := member r in
  let? path := path r in
  Ok (mk_record allow priority name path interface member type bcast 0 U64_MAX).

Definition send_try_from (r : Rule) : result whippet_error MessageRecord :=
  match r with
  | Send _ _ _ send_type _ send_broadcast allow priority =>
      message_record r allow priority send_type send_broadcast
  | _ => Err (RuleToRecord "SendRecord")
  end.
Definition receive_try_from (r : Rule) : result whippet_error MessageRecord :=
  match r with
  | Receive _ _ _ _ receive_type receive_broadcast allow priority =>
      message_record r allow priority receive_type receive_broadcast
  | _ => Err (RuleToRecord "ReceiveRecord")
  end.

Fixpoint batch_loop (rs : list Rule) (batch : PolicyBatch) : result whippet_error PolicyBatch :=
  match rs with
  | [] => Ok batch
  | rule :: rs =>
      let? batch :=
        match rule with
        | ConnectUser allow _ priority =>
            Ok (mk_batch allow priority (own_rules batch) (send_rules batch) (recv_rules batch))
        | Own _ _ _ =>
            let? r := own_try_from rule in
            Ok (mk_batch (connect_verdict batch) (connect_priority batch) (own_rules batch ++ [r])
                  (send_rules batch) (recv_rules batch))
        | Send _ _ _ _ _ _ _ _ =>
            let? r := send_try_from rule in
            Ok (mk_batch (connect_verdict batch) (connect_priority batch) (own_rules batch)
                  (send_rules batch ++ [r]) (recv_rules batch))
        | Receive _ _ _ _ _ _ _ _ =>
            let? r := receive_try_from rule in
            Ok (mk_batch (connect_verdict batch) (connect_priority batch) (own_rules batch)
                  (send_rules batch) (recv_rules batch ++ [r]))
        end in
      batch_loop rs batch
  end.
Definition batch_try_from (value : Context) : result whippet_error PolicyBatch :=
  batch_loop (rules value) batch_default.

Definition copy_rules_from (self source : PolicyBatch) : PolicyBatch :=
  mk_batch (connect_verdict self) (connect_priority self) (own_rules self ++ own_rules source)
    (send_rules self ++ send_rules source) (recv_rules self ++ recv_rules source).

Definition user_batch (default_batch : PolicyBatch) (user_policy : Context) :
    result whippet_error PolicyBatch :=
  let? batch := batch_try_from user_policy in
  let batch :=
    if has_connect_rule user_policy then batch
    else mk_batch (connect_verdict default_batch) (connect_priority default_batch)
           (own_rules batch) (send_rules batch) (recv_rules batch) in
  Ok (copy_rules_from batch default_batch).

Fixpoint user_entries (default_batch : PolicyBatch) (users : list (string * Context)) :
    result whippet_error (list (Z * PolicyBatch)) :=
  match users with
  | [] => Ok []
  | (uid, user_policy) :: users =>
      let? batch := user_batch default_batch user_policy in
      let? id := ok_or (parse_u32 uid) (ParseUid uid) in
      let? rest := user_entries default_batch users in
      Ok ((id, batch) :: rest)
  end.

Definition dbus_try_from (policy : Policy) : result whippet_error DbusPolicy :=
  let? default_batch :=
    match default_context policy with
    | Some default_policy => batch_try_from default_policy
    | None => Ok (mk_batch false 1 [] [] [])
    end in
  let? entries := user_entries default_batch (default [] (user policy)) in
  Ok (mk_dbus ((DEFAULT_USER_ID, default_batch) :: entries) "system").

(** [main], up to the start of the broker. *)
Definition compile_policy (config_file policy_dir : string) : result whippet_error DbusPolicy :=
  let? policy := policy_new config_file policy_dir in
  dbus_try_from (optimize (prepare policy)).
End whippet.

(** ** Priorities *)

Definition context_rules (o : option Context) : list Rule := rules (default context_default o).
Definition users_of (p : Policy) : list (string * Context) := default [] (user p).
Definition all_user_rules (users : list (string * Context)) : list Rule := users ≫= (λ u, rules u.2).
Definition rule_count (p : Policy) : Z :=
  Z.of_nat (length (context_rules (default_context p)) + length (all_user_rules (users_of p))).

(** The same rule, up to its priority. *)
Definition same_rule (r r' : Rule) : Prop := set_priority (get_priority r') r = r'.

(** Priorities in [lo..hi), in increasing order. *)
Definition numbered (lo hi : Z) (rs : list Rule) : Prop :=
  StronglySorted (λ r r', get_priority r < get_priority r')%Z rs ∧
  Forall (λ r, lo ≤ get_priority r < hi)%Z rs.

Lemma get_set_priority p r : get_priority (set_priority p r) = p.
Proof. by destruct r. Qed.

Lemma is_connect_set_priority p r : is_connect (set_priority p r) = is_connect r.
Proof. by destruct r. Qed.

Lemma same_rule_set p r : same_rule r (set_priority p r).
Proof. unfold same_rule. by rewrite get_set_priority. Qed.

Lemma numbered_nil lo hi : numbered lo hi [].
Proof. split; constructor. Qed.

Lemma numbered_weaken lo hi lo' hi' rs :
  (lo' ≤ lo)%Z → (hi ≤ hi')%Z → numbered lo hi rs → numbered lo' hi' rs.
Proof. intros ?? [? Hf]. split; [done|]. eapply Forall_impl; [exact Hf|]. cbn. intros. lia. Qed.

Lemma numbered_app lo mid hi rs rs' :
  numbered lo mid rs → numbered mid hi rs' → (lo ≤ mid)%Z → (mid ≤ hi)%Z → numbered lo hi (rs ++ rs').
Proof.
  intros [Hs Hf] [Hs' Hf'] ??. split.
  - apply StronglySorted_app_2; [|done..]. rewrite Forall_forall in Hf. rewrite Forall_forall in Hf'.
    intros r r' Hr Hr'. specialize (Hf r Hr). specialize (Hf' r' Hr'). lia.
  - apply Forall_app; split; (eapply Forall_impl; [eassumption|]); cbn; intros; lia.
Qed.

Lemma set_priorities_spec mult rs c rs' c' :
  (0 ≤ mult ≤ 3)%Z → (0 ≤ c)%Z → (c + Z.of_nat (length rs) < PRIORITY_BASE)%Z →
  set_priorities mult rs c = (rs', c') →
  c' = (c + Z.of_nat (length rs))%Z ∧ Forall2 same_rule rs rs' ∧
  numbered (PRIORITY_BASE * mult + c) (PRIORITY_BASE * mult + c') rs'.
Proof.
  intros Hm. revert c rs' c'. induction rs as [|r rs IH]; intros c rs' c' Hc Hb Hs; cbn in Hs.
  { injection Hs as <- <-. split_and!; [cbn; lia|done|apply numbered_nil]. }
  assert (PRIORITY_BASE = 2635249153387078802)%Z as HP by (vm_compute; reflexivity).
  cbn [length] in Hb. assert (c + 1 < PRIORITY_BASE)%Z by lia.
  rewrite (wrap_small 64 (PRIORITY_BASE * mult)), (wrap_small 64 (_ + c)), (wrap_small 64 (c + 1)) in Hs
    by lia.
  destruct (set_priorities mult rs (c + 1)) as [rs1 c1] eqn:E. injection Hs as <- <-.
  destruct (IH (c + 1)%Z _ _ ltac:(lia) ltac:(lia) E) as (-> & Hsame & Hn).
  split_and!; [cbn [length]; lia|constructor; [apply same_rule_set|done]|].
  apply (numbered_app _ (PRIORITY_BASE * mult + (c + 1)) _ [_]); [|done|lia|lia].
  split; [by repeat constructor|]. constructor; [|done]. rewrite get_set_priority. lia.
Qed.

(** Rules of users are above every rule of the default context. *)
Definition user_priority (c c' : Z) (r : Rule) : Prop :=
  (PRIORITY_BASE * 3 + c ≤ get_priority r < PRIORITY_BASE * 3 + c')%Z.

Lemma set_user_priorities_spec users c users' c' :
  (0 ≤ c)%Z → (c + Z.of_nat (length (all_user_rules users)) < PRIORITY_BASE)%Z →
  set_user_priorities users c = (users', c') →
  c' = (c + Z.of_nat (length (all_user_rules users)))%Z ∧
  Forall2 (λ u u', u.1 = u'.1 ∧ Forall2 same_rule (rules u.2) (rules u'.2) ∧
    Forall (user_priority c c') (rules u'.2)) users users'.
Proof.
  revert c users' c'. induction users as [|[u p] users IH]; intros c users' c' Hc Hb Hs; cbn in Hs.
  { injection Hs as <- <-. split; [cbn; lia|constructor]. }
  unfold all_user_rules in *. rewrite bind_cons, length_app in Hb |- *. cbn [snd] in *.
  destruct (set_priorities _ (rules p) c) as [rs c1] eqn:E1.
  destruct (set_user_priorities users c1) as [us c2] eqn:E2. injection Hs as <- <-.
  apply set_priorities_spec in E1 as (-> & Hsame & _ & Hf); [|unfold DEFAULT_POLICY_CONTEXT_USER; lia|lia|lia].
  apply IH in E2 as (-> & Hus); [|lia|lia]. split; [lia|]. constructor.
  - cbn. split_and!; [done..|]. eapply Forall_impl; [exact Hf|]. unfold user_priority, DEFAULT_POLICY_CONTEXT_USER.
    cbn. intros. lia.
  - eapply Forall2_impl; [exact Hus|]. cbn. intros [] [] (-> & ? & Hf'). split_and!; [done..|].
    eapply Forall_impl; [exact Hf'|]. unfold user_priority. cbn. intros. lia.
Qed.

(** ** Loading *)

Definition rules_of (k : string) (users : list (string * Context)) : list Rule := context_rules (im_get k users).
Definition named (k : string) (users : list (string * Context)) : list Rule :=
  all_user_rules (filter (λ u, u.1 = k) users).

Lemma users_of_Some d us : users_of (mk_policy d (Some us)) = us.
Proof. done. Qed.

(** What loading has made of the files [ps] so far, at counter [c]: the default
    rules of all files in order, numbered, and for each name the rules of the
    contexts with that name. *)
Record loaded (ps : list Policy) (p : Policy) (c : Z) : Prop := {
  loaded_default : Forall2 same_rule (ps ≫= (λ p, context_rules (default_context p)))
                     (context_rules (default_context p));
  loaded_numbered : numbered PRIORITY_BASE (PRIORITY_BASE + c) (context_rules (default_context p));
  loaded_users : ∀ k, Forall2 same_rule (ps ≫= (λ p, named k (users_of p))) (rules_of k (users_of p));
  loaded_priority : ∀ k, Forall (user_priority 0 c) (rules_of k (users_of p));
  loaded_names : ∀ k, is_Some (im_get k (users_of p)) → ∃ q, q ∈ ps ∧ k ∈ (users_of q).*1;
  loaded_wf : im_wf (users_of p) }.

Lemma loaded_nil : loaded [] policy_default 3.
Proof.
  split; [by apply Forall2_nil|apply numbered_nil|intros; by apply Forall2_nil|intros; by apply Forall_nil_2| |].
  - by intros k [? ?].
  - apply im_wf_nil.
Qed.

Lemma rules_of_entry k k' f users :
  rules_of k' (im_entry k context_default f users) =
  if decide (k = k') then rules (f (default context_default (im_get k users))) else rules_of k' users.
Proof.
  unfold rules_of, im_entry. case_decide; subst; [by rewrite im_get_insert|]. by rewrite im_get_insert_ne.
Qed.

Lemma merge_users_spec k us base :
  rules_of k (merge_users us base) = rules_of k base ++ named k us.
Proof.
  revert base. induction us as [|[u p] us IH]; intros base; cbn [merge_users].
  { unfold named, all_user_rules. cbn. by rewrite app_nil_r. }
  rewrite IH, rules_of_entry. unfold named, all_user_rules. rewrite filter_cons. cbn [fst].
  repeat case_decide; subst; try done. rewrite bind_cons. cbn [rules snd].
  by rewrite (assoc_L (++)).
Qed.

Lemma merge_users_wf us base : im_wf base → im_wf (merge_users us base).
Proof. revert base. induction us as [|[u p] us IH]; intros base Hb; cbn; [done|]. by apply IH, im_wf_insert. Qed.

Lemma merge_users_keys k us base :
  is_Some (im_get k (merge_users us base)) → is_Some (im_get k base) ∨ k ∈ us.*1.
Proof.
  revert base. induction us as [|[u p] us IH]; intros base Hk; cbn [merge_users] in Hk; [by left|].
  apply IH in Hk as [Hk|Hk]; [|right; by right]. unfold im_entry in Hk.
  destruct (decide (u = k)) as [->|Hne]; [right; by left|]. rewrite im_get_insert_ne in Hk by done. by left.
Qed.

Lemma named_same k us us' c c' :
  Forall2 (λ u u', u.1 = u'.1 ∧ Forall2 same_rule (rules u.2) (rules u'.2) ∧
    Forall (user_priority c c') (rules u'.2)) us us' →
  Forall2 same_rule (named k us) (named k us') ∧ Forall (user_priority c c') (named k us').
Proof.
  unfold named, all_user_rules. induction 1 as [|[u p] [u' p'] us us' (Hu & Hs & Hp) _ [IH1 IH2]];
    [split; constructor|]. cbn in Hu, Hs, Hp. subst u'. rewrite !filter_cons. cbn [fst].
  case_decide; [|done]. rewrite !bind_cons. cbn [snd]. split; [by apply Forall2_app|by apply Forall_app].
Qed.

Lemma set_rule_priorities_spec p c p' c' :
  (0 ≤ c)%Z → (c + rule_count p < PRIORITY_BASE)%Z → set_rule_priorities p c = (p', c') →
  c' = (c + rule_count p)%Z ∧
  Forall2 same_rule (context_rules (default_context p)) (context_rules (default_context p')) ∧
  numbered (PRIORITY_BASE + c) (PRIORITY_BASE + c') (context_rules (default_context p')) ∧
  (∀ k, Forall2 same_rule (named k (users_of p)) (named k (users_of p')) ∧
        Forall (user_priority c c') (named k (users_of p'))) ∧
  (users_of p').*1 = (users_of p).*1.
Proof.
  unfold set_rule_priorities, rule_count, users_of. destruct p as [d u]. cbn [user default_context].
  intros Hc Hb Hs.
  set (n := length (all_user_rules (default [] u))) in *.
  assert (∃ u' , (match u with
      | Some user_policy => let '(user_policy, last) := set_user_priorities user_policy c in (Some user_policy, last)
      | None => (None, c) end) = (u', (c + Z.of_nat n)%Z) ∧
      (∀ k, Forall2 same_rule (named k (default [] u)) (named k (default [] u')) ∧
            Forall (user_priority c (c + Z.of_nat n)) (named k (default [] u'))) ∧
      (default [] u').*1 = (default [] u).*1) as (u' & Eu & Hu & Hkeys).
  { destruct u as [us|]; cbn [default from_option id] in *;
      [|exists None; split_and!; [f_equal; subst n; cbn; lia|split; constructor|done]].
    destruct (set_user_priorities us c) as [us' c1] eqn:E.
    apply set_user_priorities_spec in E as [-> Hus]; [|lia|lia].
    exists (Some us'). split_and!; [done|intros k; by apply named_same|]. cbn. symmetry.
    clear -Hus. induction Hus as [|x y ?? (Hk & _)]; [done|]. rewrite !fmap_cons. by f_equal. }
  rewrite Eu in Hs. destruct d as [d|]; cbn [context_rules default from_option id rules] in *.
  - destruct (set_priorities _ (rules d) _) as [rs c1] eqn:E. injection Hs as <- <-.
    assert (context_rules (Some d) = rules d) as Hd by done. rewrite Hd in Hb |- *.
    apply set_priorities_spec in E as (-> & Hsame & Hn); [|unfold DEFAULT_POLICY_CONTEXT_MULTIPLIER; lia|lia|lia].
    split_and!; [lia|done| | |].
    + eapply numbered_weaken; [| |exact Hn]; unfold DEFAULT_POLICY_CONTEXT_MULTIPLIER; lia.
    + intros k. destruct (Hu k) as [H1 H2]. split; [done|]. eapply Forall_impl; [exact H2|].
      unfold user_priority. cbn. intros. lia.
    + done.
  - injection Hs as <- <-. cbn. split_and!; [lia|constructor|apply numbered_nil|done|done].
Qed.

(** ** Moving connect rules *)

Definition connects (k : string) (r : Rule) : Prop := ∃ allow p, r = ConnectUser allow k p.

Lemma inject_spec k r crs users :
  r ∈ rules_of k (inject_connect_rules crs users) ↔ r ∈ rules_of k users ∨ r ∈ crs ∧ connects k r.
Proof.
  revert users. induction crs as [|r0 crs IH]; intros users; cbn [inject_connect_rules].
  { split; [by left|]. intros [?|[Hr _]]; [done|]. by apply elem_of_nil in Hr. }
  rewrite IH, elem_of_cons. destruct r0 as [a u p|o a p|d i m t pa b a p|s pa i m t b a p];
    [|unfold connects; naive_solver..].
  rewrite rules_of_entry. unfold connects. case_decide; [subst u|naive_solver].
  cbn [rules]. rewrite elem_of_app, elem_of_cons. unfold rules_of, context_rules.
  pose proof (not_elem_of_nil r). naive_solver.
Qed.

Lemma inject_wf crs users : im_wf users → im_wf (inject_connect_rules crs users).
Proof.
  revert users. induction crs as [|r0 crs IH]; intros users Hw; cbn; [done|]. apply IH.
  destruct r0; try done. by apply im_wf_insert.
Qed.

Lemma inject_keys k crs users :
  is_Some (im_get k (inject_connect_rules crs users)) →
  is_Some (im_get k users) ∨ ∃ r, r ∈ crs ∧ connects k r.
Proof.
  revert users. induction crs as [|r0 crs IH]; intros users Hk; cbn in Hk; [by left|].
  apply IH in Hk as [Hk|(r & Hr & ?)]; [|right; exists r; split; [by right|done]].
  destruct r0 as [a u p| | |]; try by left. unfold im_entry in Hk.
  destruct (decide (u = k)) as [->|Hne].
  - right. exists (ConnectUser a k p). split; [by left|]. by do 2 eexists.
  - rewrite im_get_insert_ne in Hk by done. by left.
Qed.

(** The moved rules. *)
Lemma prepare_default p :
  context_rules (default_context (prepare p)) =
  filter (λ r, names_user r = false) (context_rules (default_context p)).
Proof.
  unfold prepare. destruct (default_context p) as [c|]; cbn; [|done].
  by destruct (filter _ (rules c)).
Qed.

Lemma prepare_users k r p :
  r ∈ rules_of k (users_of (prepare p)) ↔
  r ∈ rules_of k (users_of p) ∨
  r ∈ context_rules (default_context p) ∧ names_user r = true ∧ connects k r.
Proof.
  unfold prepare. destruct (default_context p) as [c|]; cbn.
  - unfold context_rules at 1. cbn.
    destruct (filter (λ r, names_user r = true) (rules c)) as [|r0 rs] eqn:E.
    + split; [by left|]. intros [?|(Hr & Hn & _)]; [done|].
      assert (r ∈ filter (λ r, names_user r = true) (rules c)) as Hf by by apply list_elem_of_filter.
      rewrite E in Hf. by apply elem_of_nil in Hf.
    + rewrite users_of_Some, inject_spec, elem_of_reverse, <- E, list_elem_of_filter.
      unfold users_of. naive_solver.
  - split; [by left|]. intros [?|[Hr _]]; [done|]. by apply elem_of_nil in Hr.
Qed.

Lemma prepare_keys p k :
  is_Some (im_get k (users_of (prepare p))) →
  is_Some (im_get k (users_of p)) ∨
  ∃ r, r ∈ context_rules (default_context p) ∧ names_user r = true ∧ connects k r.
Proof.
  unfold prepare. destruct (default_context p) as [c|]; cbn; [|by left].
  destruct (filter (λ r, names_user r = true) (rules c)) as [|r0 rs] eqn:E; [by left|].
  rewrite users_of_Some. intros [?|(r & Hr & ?)]%inject_keys; [by left|]. right. exists r.
  rewrite elem_of_reverse, <- E, list_elem_of_filter in Hr. by destruct Hr.
Qed.

Lemma prepare_wf p : im_wf (users_of p) → im_wf (users_of (prepare p)).
Proof.
  unfold prepare. destruct (default_context p) as [c|]; cbn; [|done].
  destruct (filter _ (rules c)) as [|r0 rs]; [done|]. rewrite users_of_Some. by apply inject_wf.
Qed.

(** ** Dropping connect rules *)

Lemma sort_by_priority_elem r rs : r ∈ sort_by_priority_desc rs ↔ r ∈ rs.
Proof.
  assert (∀ r0 l, r ∈ insert_by_priority r0 l ↔ r = r0 ∨ r ∈ l) as Hins.
  { intros r0 l. induction l as [|r1 l IH]; cbn; [by rewrite list_elem_of_singleton, elem_of_nil; naive_solver|].
    destruct (_ <=? _)%Z; rewrite !elem_of_cons, ?IH; naive_solver. }
  induction rs as [|r0 rs IH]; [done|]. cbn. by rewrite Hins, elem_of_cons, IH.
Qed.

Lemma sort_by_priority_head r rs r' :
  head (sort_by_priority_desc rs) = Some r → r' ∈ rs → (get_priority r' ≤ get_priority r)%Z.
Proof.
  assert (∀ r0 l, (∀ r1 r2, head l = Some r1 → r2 ∈ l → get_priority r2 ≤ get_priority r1)%Z →
    ∀ r1 r2, head (insert_by_priority r0 l) = Some r1 → r2 = r0 ∨ r2 ∈ l → (get_priority r2 ≤ get_priority r1)%Z)
    as Hins.
  { intros r0 [|r3 l] Hl r1 r2 Hh Hin; cbn in Hh.
    - injection Hh as ->. destruct Hin as [->|Hin]; [done|by apply elem_of_nil in Hin].
    - specialize (Hl r3 r2 eq_refl). destruct (Z.leb_spec (get_priority r3) (get_priority r0));
        cbn in Hh; injection Hh as <-; destruct Hin as [->|Hin]; try lia; by specialize (Hl Hin); lia. }
  revert r r'. induction rs as [|r0 rs IH]; intros r r' Hh Hin; [done|]. cbn in Hh.
  apply elem_of_cons in Hin. eapply Hins; [|exact Hh|].
  - intros r1 r2 Hr1 Hr2. apply (IH r1 r2 Hr1). by apply sort_by_priority_elem.
  - destruct Hin as [->|Hin]; [by left|right]. by apply sort_by_priority_elem.
Qed.

(** The highest priority of a connect rule, or 0. *)
Lemma threshold_spec rs :
  (find_priority_threshold rs = 0%Z ∧ ∀ r, r ∈ rs → is_connect r = false) ∨
  ∃ r, r ∈ rs ∧ is_connect r = true ∧ get_priority r = find_priority_threshold rs ∧
    ∀ r', r' ∈ rs → is_connect r' = true → (get_priority r' ≤ get_priority r)%Z.
Proof.
  unfold find_priority_threshold.
  destruct (head _) as [r|] eqn:E; cbn.
  - right. exists r. assert (r ∈ filter (λ r, is_connect r = true) rs) as Hr.
    { apply sort_by_priority_elem. destruct (sort_by_priority_desc _); [done|].
      injection E as ->. by left. }
    apply list_elem_of_filter in Hr as [Hc Hr]. split_and!; [done..|]. intros r' Hr' Hc'.
    eapply sort_by_priority_head; [exact E|]. by apply list_elem_of_filter.
  - left. split; [done|]. intros r Hr. destruct (is_connect r) eqn:Hc; [|done].
    assert (r ∈ sort_by_priority_desc (filter (λ r, is_connect r = true) rs)) as Hin
      by by apply sort_by_priority_elem, list_elem_of_filter.
    destruct (sort_by_priority_desc _); [by apply elem_of_nil in Hin|done].
Qed.

Lemma clean_elem t r rs :
  r ∈ clean_connect_rules t rs ↔ r ∈ rs ∧ (is_connect r = true → get_priority r = t).
Proof.
  unfold clean_connect_rules. rewrite list_elem_of_filter.
  destruct (is_connect r); cbn; [rewrite Z.eqb_eq|]; naive_solver.
Qed.

(** ** Batches *)

Definition context_verdict (rs : list Rule) (v : bool) : bool :=
  foldl (λ v r, match r with ConnectUser allow _ _ => allow | _ => v end) v rs.

Definition own_of (r : Rule) : option OwnRecord := ok (own_try_from r).
Definition send_of (r : Rule) : option MessageRecord := ok (send_try_from r).
Definition receive_of (r : Rule) : option MessageRecord := ok (receive_try_from r).

(** A batch always exists, with the records of the rules in order. *)
Lemma batch_loop_spec rs b :
  ∃ p, batch_loop rs b = Ok (mk_batch (context_verdict rs (connect_verdict b)) p
    (own_rules b ++ omap own_of rs) (send_rules b ++ omap send_of rs) (recv_rules b ++ omap receive_of rs)).
Proof.
  revert b. induction rs as [|r rs IH]; intros b; cbn [batch_loop].
  { exists (connect_priority b). cbn. rewrite !app_nil_r. by destruct b. }
  destruct r as [a u p|o a p|d i m t pa bc a p|s pa i m t bc a p]; cbn [mbind result_bind].
  - destruct (IH (mk_batch a p (own_rules b) (send_rules b) (recv_rules b))) as [p' ->]. by exists p'.
  - destruct (decide (o = "*")) as [Ho|Ho]; cbn; rewrite ?decide_True, ?decide_False by done; cbn.
    all: match goal with |- context [batch_loop _ ?b'] => destruct (IH b') as [p' ->] end.
    all: exists p'; cbn; rewrite <- (assoc_L (++)); cbn; unfold own_of at 2; cbn; by rewrite ?decide_True, ?decide_False by done.
  - cbn. match goal with |- context [batch_loop rs ?b'] => destruct (IH b') as [p' ->] end.
    exists p'. cbn. by rewrite <- (assoc_L (++)).
  - cbn. match goal with |- context [batch_loop rs ?b'] => destruct (IH b') as [p' ->] end.
    exists p'. cbn. by rewrite <- (assoc_L (++)).
Qed.

Lemma context_verdict_none rs v : (∀ r, r ∈ rs → is_connect r = false) → context_verdict rs v = v.
Proof.
  unfold context_verdict. revert v. induction rs as [|r rs IH]; intros v Hn; cbn; [done|].
  rewrite IH by (intros; apply Hn; by right). specialize (Hn r ltac:(by left)). by destruct r.
Qed.

(** The only connect rule of a context decides. *)
Lemma context_verdict_one rs v allow u p :
  ConnectUser allow u p ∈ rs → (∀ r, r ∈ rs → is_connect r = true → r = ConnectUser allow u p) →
  context_verdict rs v = allow.
Proof.
  unfold context_verdict. revert v. induction rs as [|r rs IH]; intros v Hin Hone; [by apply elem_of_nil in Hin|].
  cbn. apply elem_of_cons in Hin as [<-|Hin].
  - destruct (decide (ConnectUser allow u p ∈ rs)) as [Hin|Hin].
    + apply IH; [done|]. intros; apply Hone; [by right|done].
    + apply context_verdict_none. intros r Hr. destruct (is_connect r) eqn:E; [|done].
      rewrite (Hone r) in Hr; [done|by right|done].
  - apply IH; [done|]. intros; apply Hone; [by right|done].
Qed.

(** ** What the broker decides

    The broker looks for the batch of the connecting user's UID and falls back to
    the first one, the default batch. *)
Fixpoint batch_for (uid : Z) (entries : list (Z * PolicyBatch)) : option PolicyBatch :=
  match entries with
  | [] => None
  | (id, batch) :: entries => if decide (id = uid) then Some batch else batch_for uid entries
  end.
Definition broker_batch (d : DbusPolicy) (uid : Z) : option PolicyBatch :=
  match uid_entries d with
  | [] => None
  | (_, default_batch) :: entries => Some (default default_batch (batch_for uid entries))
  end.

Definition uid_key (k : string) (uid : Z) : Prop := (0 ≤ uid < 2 ^ 32)%Z ∧ k = unsigned_to_string uid.

Lemma user_batch_Ok db c : is_ok (user_batch db c) = true.
Proof.
  unfold user_batch, batch_try_from. destruct (batch_loop_spec (rules c) batch_default) as [p ->]. done.
Qed.

Lemma user_entries_spec db users es uid :
  (∀ k, k ∈ users.*1 → ∃ uid, uid_key k uid) → (0 ≤ uid < 2 ^ 32)%Z →
  user_entries db users = Ok es →
  batch_for uid es = c ← im_get (unsigned_to_string uid) users; ok (user_batch db c).
Proof.
  intros Hk Hu. revert es. induction users as [|[k c] users IH]; intros es He; cbn [user_entries] in He.
  { by injection He as <-. }
  destruct (Hk k) as (uid' & Hb & ->); [by left|].
  apply bind_Ok in He as (b & Hbatch & He). apply bind_Ok in He as (id & Hid & He).
  apply bind_Ok in He as (rest & Hrest & He). injection He as <-. cbn [im_get batch_for].
  unfold parse_u32 in Hid. rewrite parse_unsigned_to_string in Hid by done. injection Hid as <-.
  case_decide as E; [subst uid'; rewrite decide_True by done; cbn; by rewrite Hbatch|].
  rewrite decide_False; [apply IH; [|done]; intros; apply Hk; by right|].
  intros Eq. apply E. apply unsigned_to_string_inj in Eq; lia.
Qed.

(** The last connect rule, in the order of the files, that names the UID or every
    user. *)
Definition default_key : string := unsigned_to_string DEFAULT_USER_ID.
Definition last_verdict (k : string) (rs : list Rule) : bool :=
  foldl (λ v r, match r with
                | ConnectUser allow u _ => if decide (u = k ∨ u = default_key) then allow else v
                | _ => v end) false rs.
Definition concerns (k : string) (r : Rule) : Prop := connects k r ∨ connects default_key r.

Lemma last_verdict_none k rs : (∀ r, r ∈ rs → ¬ concerns k r) → last_verdict k rs = false.
Proof.
  intros Hn. unfold last_verdict. generalize false as v. induction rs as [|r rs IH]; intros v; [done|].
  cbn. rewrite IH by (intros; apply Hn; by right). destruct r; try done. case_decide as Hu; [|done].
  destruct (Hn (ConnectUser allow user0 priority)); [by left|]. unfold concerns, connects. naive_solver.
Qed.

Lemma last_verdict_snoc k rs r :
  last_verdict k (rs ++ [r]) = match r with
    | ConnectUser allow u _ => if decide (u = k ∨ u = default_key) then allow else last_verdict k rs
    | _ => last_verdict k rs end.
Proof. unfold last_verdict. by rewrite foldl_app. Qed.

(** With numbered rules the last one has the highest priority. *)
Lemma last_verdict_winner k lo hi rs allow u p :
  numbered lo hi rs → ConnectUser allow u p ∈ rs → u = k ∨ u = default_key →
  (∀ r, r ∈ rs → concerns k r → get_priority r ≤ p)%Z → last_verdict k rs = allow.
Proof.
  intros [Hs _]. revert Hs. induction rs as [|r rs IH] using rev_ind; intros Hs Hin Hu Hmax.
  { by apply elem_of_nil in Hin. }
  rewrite last_verdict_snoc. apply StronglySorted_app in Hs as (Hlt & Hs & _).
  apply elem_of_app in Hin as [Hin|Hin%list_elem_of_singleton].
  - assert (¬ concerns k r) as Hr.
    { intros Hr. specialize (Hmax r ltac:(apply elem_of_app; right; by left) Hr).
      specialize (Hlt _ r Hin ltac:(by left)). cbn in Hlt. lia. }
    assert (last_verdict k rs = allow) as Hv
      by (apply IH; [done..|]; intros r' Hr'; apply Hmax; apply elem_of_app; by left).
    destruct r; try done. case_decide as Hk; [|done]. destruct Hr. unfold concerns, connects. naive_solver.
  - subst r. by rewrite decide_True.
Qed.

(** *** The default and the user contexts after [optimize] *)

Definition threshold (p : Policy) : Z := find_priority_threshold (context_rules (default_context p)).

Lemma optimize_default p :
  context_rules (default_context (optimize p)) =
  clean_connect_rules (threshold p) (context_rules (default_context p)).
Proof. unfold optimize, threshold. by destruct (default_context p). Qed.

Lemma optimize_user k p :
  im_wf (users_of p) →
  im_get k (users_of (optimize p)) =
  c ← im_get k (users_of p);
  if decide (rules (optimize_context (threshold p) c) ≠ []) then Some (optimize_context (threshold p) c)
  else None.
Proof.
  unfold optimize, threshold, users_of. destruct (user p) as [us|]; cbn [user default from_option id]; [|done].
  intros Hw. unfold optimize_users. 
  etrans; [apply (@im_get_filter _ (λ c, rules c ≠ []) (λ c, not_dec (list_eq_nil_dec (rules c))))|].
  - unfold im_wf in *. by rewrite <-list_fmap_compose.
  - rewrite im_get_fmap. destruct (im_get k us) as [c|]; [|done]. by destruct (default_context p).
Qed.

Lemma optimize_keys p k : k ∈ (users_of (optimize p)).*1 → k ∈ (users_of p).*1.
Proof.
  unfold optimize, users_of. destruct (user p) as [us|]; cbn; [|done]. unfold optimize_users.
  intros ([k' c] & -> & [_ Hin]%list_elem_of_filter)%list_elem_of_fmap.
  apply list_elem_of_fmap in Hin as ([k2 c2] & [= -> _] & Hin). cbn. by apply (list_elem_of_fmap_2 fst) in Hin.
Qed.

Lemma default_batch_spec p db :
  match default_context p with
  | Some default_policy => batch_try_from default_policy
  | None => Ok (mk_batch false 1 [] [] [])
  end = Ok db →
  connect_verdict db = context_verdict (context_rules (default_context p)) false ∧
  own_rules db = omap own_of (context_rules (default_context p)) ∧
  send_rules db = omap send_of (context_rules (default_context p)) ∧
  recv_rules db = omap receive_of (context_rules (default_context p)).
Proof.
  destruct (default_context p) as [c|]; [|by intros [= <-]]. unfold batch_try_from, context_rules.
  cbn [default from_option id]. destruct (batch_loop_spec (rules c) batch_default) as [pr ->]. by intros [= <-].
Qed.

Lemma user_batch_spec db c b :
  user_batch db c = Ok b →
  connect_verdict b = (if has_connect_rule c then context_verdict (rules c) false else connect_verdict db) ∧
  own_rules b = omap own_of (rules c) ++ own_rules db ∧
  send_rules b = omap send_of (rules c) ++ send_rules db ∧
  recv_rules b = omap receive_of (rules c) ++ recv_rules db.
Proof.
  unfold user_batch, batch_try_from. destruct (batch_loop_spec (rules c) batch_default) as [p ->].
  intros [= <-]. by destruct (has_connect_rule c).
Qed.

(** A policy as [Policy::new] leaves it. *)
Record resolved (p : Policy) : Prop := {
  resolved_numbered : ∃ hi, numbered PRIORITY_BASE hi (context_rules (default_context p));
  resolved_rules : ∀ r k, r ∈ context_rules (default_context p) → connects k r → ∃ uid, uid_key k uid;
  resolved_users : ∀ k r, r ∈ rules_of k (users_of p) → is_connect r = false;
  resolved_keys : ∀ k, is_Some (im_get k (users_of p)) → ∃ uid, uid_key k uid;
  resolved_wf : im_wf (users_of p) }.

(** The batch of a UID. *)
Lemma compiled_batch p d uid :
  resolved p → (0 ≤ uid < 2 ^ 32)%Z → dbus_try_from (optimize (prepare p)) = Ok d →
  ∃ db b, broker_batch d uid = Some b ∧
    match default_context (optimize (prepare p)) with
    | Some default_policy => batch_try_from default_policy
    | None => Ok (mk_batch false 1 [] [] [])
    end = Ok db ∧
    match im_get (unsigned_to_string uid) (users_of (optimize (prepare p))) with
    | Some c => user_batch db c = Ok b
    | None => b = db
    end.
Proof.
  intros Hr Hu Hd. unfold dbus_try_from in Hd. apply bind_Ok in Hd as (db & Hdb & Hd).
  apply bind_Ok in Hd as (es & Hes & Hd). injection Hd as <-.
  apply (user_entries_spec _ _ _ uid) in Hes; [|clear Hes|done].
  - exists db. unfold broker_batch. cbn [uid_entries]. rewrite Hes. fold (users_of (optimize (prepare p))).
    destruct (im_get _ _) as [c|]; cbn [mbind option_bind default from_option]; [|by exists db].
    pose proof (user_batch_Ok db c). destruct (user_batch db c) as [b|]; [|done]. by exists b.
  - intros k Hk%optimize_keys. assert (is_Some (im_get k (users_of (prepare p)))) as Hs.
    { destruct (im_get k _) eqn:E; [done|]. by apply im_get_None in E. }
    apply prepare_keys in Hs as [Hs|(r & Hin & _ & Hc)]; [by apply Hr|by eapply Hr].
Qed.

(** The connect rules that compete for a UID are those of the loaded default rules. *)
Lemma user_connects p k r :
  resolved p → k ≠ default_key →
  r ∈ rules_of k (users_of (prepare p)) ∧ is_connect r = true ↔
  r ∈ context_rules (default_context p) ∧ connects k r.
Proof.
  intros Hr Hk. rewrite prepare_users. split.
  - intros [[Hin|(Hin & _ & Hc)] Hconn]; [|done].
    by rewrite (resolved_users _ Hr _ _ Hin) in Hconn.
  - intros [Hin (a & pr & ->)]. split; [|done]. right. split_and!; [done| |by do 2 eexists].
    cbn. rewrite bool_decide_false; [done|]. intros E. by apply Hk.
Qed.

Lemma default_connects p r :
  r ∈ context_rules (default_context (prepare p)) ∧ is_connect r = true ↔
  r ∈ context_rules (default_context p) ∧ connects default_key r.
Proof.
  rewrite prepare_default, list_elem_of_filter. split.
  - intros [[Hn Hin] Hc]. split; [done|]. destruct r as [a u p'| | |]; try done. cbn in Hn.
    apply negb_false_iff, bool_decide_eq_true in Hn as ->. by do 2 eexists.
  - intros [Hin (a & pr & ->)]. split_and!; [|done..]. cbn. by rewrite bool_decide_true.
Qed.

(** Equal priorities mean equal rules. *)
Lemma numbered_inj lo hi rs r r' :
  numbered lo hi rs → r ∈ rs → r' ∈ rs → get_priority r = get_priority r' → r = r'.
Proof.
  intros [Hs _]. induction Hs as [|r0 rs Hs IH Hf]; intros Hin Hin' E; [by apply elem_of_nil in Hin|].
  rewrite Forall_forall in Hf. apply elem_of_cons in Hin as [->|Hin], Hin' as [->|Hin']; auto.
  - specialize (Hf _ Hin'). lia.
  - specialize (Hf _ Hin). lia.
Qed.

Lemma is_connect_connects r : is_connect r = true → ∃ k, connects k r.
Proof. destruct r as [a u p| | |]; [|done..]. intros _. exists u. by do 2 eexists. Qed.

Section verdict.
Variables (p : Policy) (k : string) (hi : Z).
Hypothesis Hp : resolved p.
Hypothesis Hk : k ≠ default_key.
Hypothesis Hn : numbered PRIORITY_BASE hi (context_rules (default_context p)).

Lemma loaded_positive r : r ∈ context_rules (default_context p) → (0 < get_priority r)%Z.
Proof using Hn.
  destruct Hn as [_ Hf]. rewrite Forall_forall in Hf. intros Hr%Hf.
  assert (0 < PRIORITY_BASE)%Z by (vm_compute; reflexivity). lia.
Qed.

(** The default batch has the verdict of the highest connect rule for everybody;
    no such rule means no. *)
Lemma default_verdict :
  let v := context_verdict (clean_connect_rules (threshold (prepare p)) (context_rules (default_context (prepare p)))) false in
  (threshold (prepare p) = 0%Z ∧ v = false ∧
     ∀ r, r ∈ context_rules (default_context p) → ¬ connects default_key r) ∨
  ∃ u, ConnectUser v u (threshold (prepare p)) ∈ context_rules (default_context p) ∧ u = default_key ∧
    ∀ r, r ∈ context_rules (default_context p) → connects default_key r →
      (get_priority r ≤ threshold (prepare p))%Z.
Proof using Hp Hn.
  cbn zeta. unfold threshold.
  destruct (threshold_spec (context_rules (default_context (prepare p)))) as [[-> Hnone]|(r & Hr & Hc & Ht & Hmax)].
  - left. split_and!; [done| |].
    + apply context_verdict_none. intros r [Hr _]%clean_elem. by apply Hnone.
    + intros r Hr Hd. destruct (proj2 (default_connects p r) (conj Hr Hd)) as [Hin Hc].
      by rewrite (Hnone r Hin) in Hc.
  - right. destruct (proj1 (default_connects p r) (conj Hr Hc)) as [Hin (a & pr & ->)].
    cbn in Ht. subst pr. exists default_key. split_and!; [|done|].
    + rewrite (context_verdict_one _ _ a default_key (find_priority_threshold (context_rules (default_context (prepare p))))).
      * done.
      * apply clean_elem. by split.
      * intros r' [Hr' Ht']%clean_elem Hc'. eapply numbered_inj; [exact Hn| |exact Hin|by apply Ht'].
        by apply (default_connects p).
    + intros r' Hr' Hd'. by apply Hmax; apply (default_connects p).
Qed.

Lemma user_verdict :
  let T := let t := find_priority_threshold (rules_of k (users_of (prepare p))) in
    if (t <? threshold (prepare p))%Z then threshold (prepare p) else t in
  let cleaned := clean_connect_rules T (rules_of k (users_of (prepare p))) in
  let dv := context_verdict (clean_connect_rules (threshold (prepare p)) (context_rules (default_context (prepare p)))) false in
  (if existsb is_connect cleaned then context_verdict cleaned false else dv) =
  last_verdict k (context_rules (default_context p)).
Proof using Hp Hk Hn.
  intros T cleaned dv. set (R := rules_of k (users_of (prepare p))) in *.
  set (t := find_priority_threshold R) in *. set (thr := threshold (prepare p)) in *.
  pose proof default_verdict as Hdef. cbn zeta in Hdef. fold thr in Hdef. fold dv in Hdef.
  destruct (existsb is_connect cleaned) eqn:E.
  - apply existsb_exists in E as (r & Hr%list_elem_of_In & Hc). apply clean_elem in Hr as [Hr HT].
    specialize (HT Hc). destruct (proj1 (user_connects p k r Hp Hk) (conj Hr Hc)) as [Hin (a & pr & ->)].
    cbn in HT. subst pr. rewrite (context_verdict_one _ _ a k T).
    + symmetry. eapply (last_verdict_winner _ _ _ _ _ k T Hn); [done|by left|].
      intros r' Hr' [Hk'|Hd'].
      * destruct (threshold_spec R) as [[_ Hnone]|(r0 & _ & _ & Ht & Hmax)].
        { destruct (proj2 (user_connects p k r' Hp Hk) (conj Hr' Hk')) as [Hin' Hc'].
          by rewrite (Hnone r' Hin') in Hc'. }
        destruct (proj2 (user_connects p k r' Hp Hk) (conj Hr' Hk')) as [Hin' Hc'].
        specialize (Hmax r' Hin' Hc'). fold t in Ht. unfold T. destruct (Z.ltb_spec t thr); lia.
      * assert (thr ≤ T)%Z by (unfold T; destruct (Z.ltb_spec t thr); lia).
        destruct Hdef as [(_ & _ & Hnone)|(u & _ & _ & Hmax)]; [by destruct (Hnone r' Hr')|].
        specialize (Hmax r' Hr' Hd'). lia.
    + apply clean_elem. by split.
    + intros r' [Hr' Ht']%clean_elem Hc'. eapply numbered_inj; [exact Hn| |exact Hin|by apply Ht'].
      by apply (user_connects p k).
  - assert (∀ r, r ∈ R → is_connect r = true → (get_priority r < thr)%Z) as Hlow.
    { intros r Hr Hc. destruct (threshold_spec R) as [[_ Hnone]|(r0 & Hr0 & Hc0 & Ht & Hmax)];
        [by rewrite Hnone in Hc|]. fold t in Ht. specialize (Hmax r Hr Hc).
      destruct (Z.ltb_spec t thr) as [Hlt|Hge]; [lia|]. exfalso.
      assert (existsb is_connect cleaned = true) as E'; [|congruence].
      apply existsb_exists. exists r0. split; [|done]. apply list_elem_of_In, clean_elem.
      split; [done|]. intros _. unfold T. rewrite (proj2 (Z.ltb_ge _ _)) by done. done. }
    symmetry. destruct Hdef as [(Ht & -> & Hnone)|(u & Hin & Hu & Hmax)].
    + apply last_verdict_none. intros r Hr [Hc|Hd]; [|by apply (Hnone r)].
      destruct (proj2 (user_connects p k r Hp Hk) (conj Hr Hc)) as [Hin' Hc'].
      specialize (Hlow r Hin' Hc'). pose proof (loaded_positive r Hr). lia.
    + eapply (last_verdict_winner _ _ _ _ _ u thr Hn); [done|by right|]. intros r' Hr' [Hc'|Hd']; [|by apply Hmax].
      destruct (proj2 (user_connects p k r' Hp Hk) (conj Hr' Hc')) as [Hin' Hc''].
      specialize (Hlow r' Hin' Hc''). lia.
Qed.
End verdict.

Lemma compiled_verdict p d uid :
  resolved p → (0 ≤ uid < DEFAULT_USER_ID)%Z → dbus_try_from (optimize (prepare p)) = Ok d →
  ∃ b, broker_batch d uid = Some b ∧
    connect_verdict b = last_verdict (unsigned_to_string uid) (context_rules (default_context p)).
Proof.
  intros Hp Hu Hd. unfold DEFAULT_USER_ID in Hu.
  destruct (compiled_batch p d uid Hp ltac:(lia) Hd) as (db & b & Hb & Hdb & Hbatch).
  exists b. split; [done|]. destruct (resolved_numbered _ Hp) as [hi Hn].
  assert (unsigned_to_string uid ≠ default_key) as Hk.
  { intros E. apply unsigned_to_string_inj in E; unfold DEFAULT_USER_ID in *; lia. }
  apply default_batch_spec in Hdb as (Hdv & _). rewrite optimize_default in Hdv.
  rewrite <- (user_verdict p _ hi Hp Hk Hn). rewrite (optimize_user _ _ (prepare_wf _ (resolved_wf _ Hp))) in Hbatch.
  unfold rules_of. destruct (im_get _ (users_of (prepare p))) as [c|] eqn:Ec;
    cbn [mbind option_bind] in Hbatch; [change (context_rules (Some c)) with (rules c)|].
  - set (oc := optimize_context _ c) in *. case_decide as Hne.
    + apply user_batch_spec in Hbatch as (-> & _). unfold has_connect_rule. by rewrite Hdv.
    + subst b. assert (rules oc = []) as Hnil by (destruct (rules oc); [done|by destruct Hne]).
      unfold oc, optimize_context in Hnil. cbn [rules] in Hnil. by rewrite Hnil.
  - by subst b.
Qed.

Section whippet_facts.
Variable read_dir : string → result () (list (result () string)).
Variable read_to_string : string → result () string.
Variable toml_from_str : string → result () Policy.
Variable from_name : string → result () (option Z).
Abbreviation load_one := (load_one_policy read_to_string toml_from_str).

(** A file's policy, as it is written. *)
Definition parse_file (policy_file : string) : option Policy :=
  match read_to_string policy_file with
  | Ok content => ok (toml_from_str content)
  | Err _ => None
  end.

Definition total_rules (ps : list Policy) : Z := foldr (λ p n, rule_count p + n)%Z 0%Z ps.

Lemma rule_count_nonneg p : (0 ≤ rule_count p)%Z.
Proof. unfold rule_count. lia. Qed.
Lemma total_rules_nonneg ps : (0 ≤ total_rules ps)%Z.
Proof.
  unfold total_rules. induction ps as [|p ps IH]; cbn [foldr]; [done|].
  pose proof (rule_count_nonneg p). lia.
Qed.

Lemma load_one_spec f ps p c p' c' q :
  loaded ps p c → (0 ≤ c)%Z → parse_file f = Some q → (c + rule_count q < PRIORITY_BASE)%Z →
  load_one f p c = Ok (p', c') → c' = (c + rule_count q)%Z ∧ loaded (ps ++ [q]) p' c'.
Proof.
  unfold parse_file, load_one_policy. intros Hl Hc Hq Hb Hr.
  destruct (read_to_string f) as [content|]; [|done]. cbn [map_err mbind result_bind] in Hr.
  destruct (toml_from_str content) as [q'|]; [|done]. cbn in Hq. injection Hq as ->.
  cbn [map_err mbind result_bind] in Hr.
  destruct (set_rule_priorities q c) as [q' c1] eqn:E. injection Hr as <- <-.
  apply set_rule_priorities_spec in E as (-> & Hd & Hn & Hu & Hkeys); [|done..].
  pose proof (rule_count_nonneg q). destruct Hl as [L1 L2 L3 L4 L5 L6]. split; [done|]. split.
  - rewrite bind_app. cbn [mbind list_bind]. rewrite app_nil_r. by apply Forall2_app.
  - eapply numbered_app; [exact L2|exact Hn|lia..].
  - intros k. rewrite bind_app. cbn [mbind list_bind]. rewrite app_nil_r.
    rewrite users_of_Some, merge_users_spec.
    apply Forall2_app; [by apply L3|by apply Hu].
  - intros k. rewrite users_of_Some, merge_users_spec.
    apply Forall_app. split; [eapply Forall_impl; [apply L4|]|eapply Forall_impl; [apply Hu|]];
      unfold user_priority; cbn; intros; lia.
  - intros k. rewrite users_of_Some. intros [Hk|Hk]%merge_users_keys.
    + destruct (L5 k Hk) as (q0 & ? & ?). exists q0. split; [apply elem_of_app; by left|done].
    + exists q. split; [apply elem_of_app; right; by left|]. fold (users_of q') in Hk. by rewrite <- Hkeys.
  - rewrite users_of_Some. by apply merge_users_wf.
Qed.

Lemma load_policies_parses fs p c p' :
  load_policies read_to_string toml_from_str fs p c = Ok p' → is_Some (mapM parse_file fs).
Proof.
  intros Hr. apply mapM_is_Some_2. revert p c Hr. induction fs as [|f fs IH]; intros p c Hr; [constructor|].
  cbn [load_policies] in Hr. apply bind_Ok in Hr as ([p1 c1] & Hone & Hr). constructor; [|by eapply IH].
  unfold load_one_policy in Hone. unfold parse_file, compose.
  destruct (read_to_string f) as [content|]; [|done]. cbn [map_err mbind result_bind] in Hone.
  destruct (toml_from_str content); [|done]. by eexists.
Qed.

Lemma load_policies_spec fs ps p c p' qs :
  loaded ps p c → (0 ≤ c)%Z → load_policies read_to_string toml_from_str fs p c = Ok p' →
  mapM parse_file fs = Some qs → (c + total_rules qs < PRIORITY_BASE)%Z →
  loaded (ps ++ qs) p' (c + total_rules qs).
Proof.
  intros Hl Hc Hr Hqs%mapM_Some Hb. revert ps p c Hl Hc Hr Hb.
  induction Hqs as [|f q fs qs Hq _ IH]; intros ps p c Hl Hc Hr Hb; cbn [load_policies] in Hr.
  { injection Hr as ->. cbn. by rewrite app_nil_r, Z.add_0_r. }
  apply bind_Ok in Hr as ([p1 c1] & Hone & Hr). cbn [fst snd] in Hr.
  assert (total_rules (q :: qs) = rule_count q + total_rules qs)%Z as Ht by done. rewrite Ht in *.
  pose proof (rule_count_nonneg q). pose proof (total_rules_nonneg qs).
  destruct (load_one_spec f ps p c p1 c1 q Hl Hc Hq ltac:(lia) Hone) as [-> Hl'].
  change (q :: qs) with ([q] ++ qs). rewrite (assoc_L (++)), Z.add_assoc.
  eapply IH; [done|lia|done|lia].
Qed.

(** ** User names *)

(** Names of users are given UIDs below 2^32. *)
Hypothesis uids_bounded : ∀ n uid, from_name n = Ok (Some uid) → (0 ≤ uid < 2 ^ 32)%Z.

(** The UID of a name, without the cache. *)
Definition uid_of (username : string) : option Z :=
  if decide (username = "*") then Some DEFAULT_USER_ID
  else match parse_u32 username with
       | Some uid => Some uid
       | None => match from_name username with Ok o => o | Err _ => None end
       end.

Lemma uid_of_bound n uid : uid_of n = Some uid → (0 ≤ uid < 2 ^ 32)%Z.
Proof using uids_bounded.
  unfold uid_of. case_decide; [intros [= <-]; done|].
  destruct (parse_u32 n) eqn:E; [intros [= <-]; by apply parse_u32_bound in E|].
  destruct (from_name n) as [[u|]|] eqn:F; [|done..]. intros [= <-]. by eapply uids_bounded.
Qed.

(** The cache holds what the lookup would answer. *)
Definition cache_ok (cache : gmap string Z) : Prop :=
  ∀ n uid, cache !! n = Some uid → from_name n = Ok (Some uid).

Lemma resolve_spec n cache cache' r :
  cache_ok cache → resolve from_name n cache = (cache', r) →
  cache_ok cache' ∧ ∀ uid, r = Ok uid → uid_of n = Some uid.
Proof.
  unfold resolve, uid_of. intros Hc. case_decide; [intros [= <- <-]; split; [done|by intros ? [= <-]]|].
  destruct (parse_u32 n); [intros [= <- <-]; split; [done|by intros ? [= <-]]|].
  destruct (cache !! n) eqn:E; [intros [= <- <-]; split; [done|intros ? [= <-]]; by rewrite (Hc _ _ E)|].
  destruct (from_name n) as [[u|]|] eqn:F; intros [= <- <-]; split; try done; [|by intros ? [= <-]].
  intros n' uid' Hn. destruct (decide (n = n')) as [<-|Hne].
  - rewrite lookup_insert_eq in Hn. by injection Hn as <-.
  - rewrite lookup_insert_ne in Hn by done. by apply Hc.
Qed.

(** A rule whose user became a UID. *)
Definition renamed (r r' : Rule) : Prop :=
  match r with
  | ConnectUser allow u p => ∃ uid, uid_of u = Some uid ∧ r' = ConnectUser allow (unsigned_to_string uid) p
  | _ => r' = r
  end.

Lemma replace_rule_uids_spec rs cache cache' r :
  cache_ok cache → replace_rule_uids from_name rs cache = (cache', r) →
  cache_ok cache' ∧ ∀ rs', r = Ok rs' → Forall2 renamed rs rs'.
Proof.
  revert cache cache' r. induction rs as [|rule rs IH]; intros cache cache' r Hc Hr; cbn [replace_rule_uids] in Hr.
  { injection Hr as <- <-. split; [done|]. intros ? [= <-]. constructor. }
  assert (∀ cache k, cache_ok cache →
    st_bind (replace_rule_uids from_name rs) (λ rs, st_ret (k rs)) cache = (cache', r) →
    cache_ok cache' ∧ ∀ rs', r = Ok rs' → ∃ rs1, rs' = k rs1 ∧ Forall2 renamed rs rs1) as Hrest.
  { intros ca k Hca [(e & Hr' & ->)|(ca1 & rs1 & Hr' & Hk)]%st_bind_inv;
      apply IH in Hr' as [Hca1 Hrs]; [|done| |done]; [by split|].
    injection Hk as <- <-. split; [done|]. intros ? [= <-]. eauto. }
  destruct rule as [a u p| | |];
    [|by (apply Hrest in Hr as [? Hr]; [split; [done|]; intros rs' Hok;
          destruct (Hr rs' Hok) as (rs1 & -> & ?); by constructor|done])..].
  apply st_bind_inv in Hr as [(e & Hr & ->)|(ca1 & uid & Hu & Hr)].
  { apply resolve_spec in Hr as [? _]; [by split|done]. }
  apply resolve_spec in Hu as [Hca1 Hu]; [|done]. apply Hrest in Hr as [? Hr]; [|done].
  split; [done|]. intros rs' Hok. destruct (Hr rs' Hok) as (rs1 & -> & ?). constructor; [|done].
  exists uid. auto.
Qed.

(** The contexts by UID: each comes from a name with that UID, and the last one
    with a UID wins. *)
Lemma replace_user_uids_spec users final cache cache' r :
  cache_ok cache → im_wf final → replace_user_uids from_name users final cache = (cache', r) →
  ∀ us, r = Ok us → im_wf us ∧
    (∀ k c, im_get k us = Some c → im_get k final = Some c ∨
       ∃ n uid, (n, c) ∈ users ∧ uid_of n = Some uid ∧ uid_key k uid) ∧
    ∀ uid c, (0 ≤ uid < 2 ^ 32)%Z →
      (∀ n' c', (n', c') ∈ users → uid_of n' = Some uid → c' = c) →
      im_get (unsigned_to_string uid) final = Some c ∨ (∃ n, (n, c) ∈ users ∧ uid_of n = Some uid) →
      im_get (unsigned_to_string uid) us = Some c.
Proof using uids_bounded.
  revert final cache. induction users as [|[n c0] users IH]; intros final cache Hc Hw Hr us Hus;
    cbn [replace_user_uids] in Hr.
  { subst r. injection Hr as _ <-. split_and!; [done|by left|]. intros uid c _ _ [?|(n & Hn & _)]; [done|].
    by apply elem_of_nil in Hn. }
  apply st_bind_inv in Hr as [(e & _ & ->)|(ca1 & uid0 & Hu & Hr)]; [done|].
  apply resolve_spec in Hu as [Hca1 Hu]; [|done]. specialize (Hu _ eq_refl).
  pose proof (uid_of_bound _ _ Hu) as Hb.
  destruct (IH _ _ Hca1 (im_wf_insert (unsigned_to_string uid0) c0 final Hw) Hr us Hus) as (Hwf & Hfrom & Hlast).
  split_and!; [done| |].
  - intros k c Hk. destruct (Hfrom k c Hk) as [Hk'|(n' & uid & Hin & Hn & Hkey)];
      [|right; exists n', uid; split_and!; [by right|done..]].
    destruct (decide (k = unsigned_to_string uid0)) as [->|Hne].
    + rewrite im_get_insert in Hk'. injection Hk' as ->. right. exists n, uid0. split_and!; [by left|done..].
    + rewrite im_get_insert_ne in Hk' by done. by left.
  - intros uid c Hbu Huniq Hor. apply Hlast; [done|intros ? ? Hin; apply Huniq; by right|].
    destruct (decide (uid = uid0)) as [->|Hne].
    + left. rewrite im_get_insert. f_equal. apply (Huniq n); [by left|done].
    + destruct Hor as [Hf|(n' & Hin & Hn')].
      * left. rewrite im_get_insert_ne; [done|]. intros E. apply unsigned_to_string_inj in E; lia.
      * apply elem_of_cons in Hin as [[= -> ->]|Hin]; [congruence|]. right. by exists n'.
Qed.


(** ** The whole pipeline *)

Lemma validate_spec p k r :
  validate p = Ok tt → im_wf (users_of p) → r ∈ rules_of k (users_of p) → is_connect r = false.
Proof.
  unfold validate, users_of, rules_of. destruct (user p) as [us|]; cbn [default from_option id];
    [|intros _ _ Hr; by apply elem_of_nil in Hr].
  intros Hv Hw Hr. destruct (im_get k us) as [c|] eqn:E; [|by apply elem_of_nil in Hr].
  apply im_get_elem in E; [|done]. clear Hw. induction us as [|[u c0] us IH]; [by apply elem_of_nil in E|].
  cbn in Hv. apply bind_Ok in Hv as ([] & Hc%ensure_Ok & Hv). apply negb_true_iff in Hc.
  apply elem_of_cons in E as [[= -> ->]|E]; [|by apply IH].
  destruct (is_connect r) eqn:Hr'; [|done]. unfold has_connect_rule in Hc.
  assert (existsb is_connect (rules c0) = true) as Hx; [|congruence].
  apply existsb_exists. exists r. split; [by apply list_elem_of_In|done].
Qed.

(** What [Policy::new] makes of the loaded policy [p0]. *)
Record named_by_uid (p0 p : Policy) : Prop := {
  nu_default : Forall2 renamed (context_rules (default_context p0)) (context_rules (default_context p));
  nu_users : ∀ n uid, uid_of n = Some uid →
    (∀ n', is_Some (im_get n' (users_of p0)) → uid_of n' = Some uid → n' = n) →
    rules_of (unsigned_to_string uid) (users_of p) = rules_of n (users_of p0);
  nu_from : ∀ k c, im_get k (users_of p) = Some c → ∃ n uid, im_get n (users_of p0) = Some c ∧ uid_key k uid;
  nu_wf : im_wf (users_of p) }.

Lemma replace_uids_spec p0 cache cache' p :
  cache_ok cache → im_wf (users_of p0) → replace_uids from_name p0 cache = (cache', Ok p) →
  named_by_uid p0 p.
Proof using uids_bounded.
  intros Hc Hw Hr. unfold replace_uids in Hr.
  apply st_bind_inv in Hr as [(e & _ & [=])|(ca1 & dp & Hd & Hr)].
  assert (cache_ok ca1 ∧ Forall2 renamed (context_rules (default_context p0)) (context_rules dp)) as [Hca1 Hdp].
  { destruct (default_context p0) as [c|]; [|injection Hd as <- <-; by split].
    apply st_bind_inv in Hd as [(e & _ & [=])|(ca2 & rs & Hd & Hret)]. injection Hret as <- <-.
    apply replace_rule_uids_spec in Hd as [? Hd]; [|done]. split; [done|]. by apply Hd. }
  apply st_bind_inv in Hr as [(e & _ & [=])|(ca2 & us & Hu & Hret)]. injection Hret as <- <-.
  destruct (replace_user_uids_spec _ _ _ _ _ Hca1 im_wf_nil Hu us eq_refl) as (Hwf & Hfrom & Hlast).
  fold (users_of p0) in Hfrom, Hlast. split; rewrite ?users_of_Some; [done| | |done].
  - intros n uid Hn Huniq. pose proof (uid_of_bound _ _ Hn) as Hb. unfold rules_of.
    destruct (im_get n (users_of p0)) as [c|] eqn:E.
    + f_equal. apply Hlast; [done| |].
      * intros n' c' Hin Hn'. apply im_get_elem in Hin; [|done].
        rewrite (Huniq n') in Hin; [congruence|by eexists|done].
      * right. exists n. apply im_get_elem in E; done.
    + destruct (im_get (unsigned_to_string uid) us) as [c|] eqn:Ek; [|done].
      destruct (Hfrom _ _ Ek) as [?|(n' & uid' & Hin & Hn' & Hb' & Eq)]; [done|].
      apply unsigned_to_string_inj in Eq; [|lia..]. subst uid'. apply im_get_elem in Hin; [|done].
      rewrite (Huniq n') in Hin; [congruence|by eexists|done].
  - intros k c Hk. destruct (Hfrom k c Hk) as [?|(n & uid & Hin & _ & Hkey)]; [done|].
    exists n, uid. split; [by apply im_get_elem|done].
Qed.

Lemma renamed_priority rs rs' : Forall2 renamed rs rs' → get_priority <$> rs' = get_priority <$> rs.
Proof.
  induction 1 as [|r r' rs rs' Hr _ IH]; [done|]. rewrite !fmap_cons, IH. f_equal.
  destruct r; cbn in Hr; [destruct Hr as (uid & _ & ->)|subst r'..]; done.
Qed.

Lemma numbered_fmap lo hi rs :
  numbered lo hi rs ↔
  StronglySorted Z.lt (get_priority <$> rs) ∧ Forall (λ p, lo ≤ p < hi)%Z (get_priority <$> rs).
Proof.
  split; [intros [Hs Hf]; split; [by eapply StronglySorted_fmap; [|exact Hs]|by apply Forall_fmap]|].
  intros [Hs Hf%Forall_fmap]. split; [|done]. clear Hf. induction rs as [|r rs IH]; [constructor|].
  rewrite fmap_cons in Hs. apply StronglySorted_inv in Hs as [Hs Hf]. constructor; [by apply IH|].
  by rewrite Forall_fmap in Hf.
Qed.

Lemma numbered_renamed lo hi rs rs' : Forall2 renamed rs rs' → numbered lo hi rs → numbered lo hi rs'.
Proof. intros Hr%renamed_priority. by rewrite !numbered_fmap, Hr. Qed.

(** Everything that [policy_new] establishes. *)
Lemma policy_new_spec config dir p :
  policy_new read_dir read_to_string toml_from_str from_name config dir = Ok p →
  ∃ fs qs, policy_paths read_dir config dir = Ok fs ∧ mapM parse_file fs = Some qs ∧
    ((total_rules qs < 2 ^ 61)%Z → ∃ p0, loaded qs p0 (3 + total_rules qs) ∧ named_by_uid p0 p ∧ resolved p).
Proof using uids_bounded.
  intros Hp. unfold policy_new in Hp. apply bind_Ok in Hp as (fs & Hfs & Hp).
  apply bind_Ok in Hp as (p0 & Hload & Hp). apply bind_Ok in Hp as ([] & Hval & Hp).
  destruct (load_policies_parses _ _ _ _ Hload) as [qs Hqs]. exists fs, qs. split_and!; [done..|].
  intros Hb. assert (PRIORITY_BASE = 2635249153387078802)%Z as HP by (vm_compute; reflexivity).
  pose proof (load_policies_spec fs [] _ 3 p0 qs loaded_nil ltac:(lia) Hload Hqs ltac:(lia)) as Hl.
  exists p0. split; [done|].
  destruct (replace_uids from_name p0 ∅) as [ca r] eqn:Hr. cbn in Hp. subst r.
  assert (named_by_uid p0 p) as Hn.
  { eapply replace_uids_spec; [|by eapply loaded_wf|exact Hr]. by intros n uid. }
  split; [done|]. destruct Hn as [N1 N2 N3 N4]. split.
  - eexists. eapply numbered_renamed; [done|by eapply loaded_numbered].
  - intros r k Hin (a & pr & ->).
    apply list_elem_of_lookup in Hin as [i Hi].
    destruct (Forall2_lookup_r _ _ _ _ _ N1 Hi) as (r0 & _ & Hren).
    destruct r0 as [a0 u0 p1| | |]; cbn in Hren; [|done..]. destruct Hren as (uid & Hu & [= -> -> ->]).
    exists uid. split; [by eapply uid_of_bound|done].
  - intros k r Hr'. unfold rules_of in Hr'. destruct (im_get k (users_of p)) as [c|] eqn:E; [|by apply elem_of_nil in Hr'].
    destruct (N3 k c E) as (n & uid & Hc & _). apply (validate_spec p0 n r Hval); [by eapply loaded_wf|].
    unfold rules_of. by rewrite Hc.
  - intros k [c Hk]. destruct (N3 k c Hk) as (n & uid & _ & ?). by exists uid.
  - done.
Qed.

(** The verdict for a UID as the files state it: the last connect rule of the
    default contexts, in the order the files are loaded, that names a user with
    that UID or everybody. *)
Definition stated_verdict (uid : Z) (rs : list Rule) : bool :=
  foldl (λ v r, match r with
                | ConnectUser allow u _ =>
                    if decide (uid_of u = Some uid ∨ uid_of u = Some DEFAULT_USER_ID) then allow else v
                | _ => v end) false rs.

Lemma stated_verdict_spec uid rs rs1 rs2 :
  (0 ≤ uid < 2 ^ 32)%Z → Forall2 same_rule rs rs1 → Forall2 renamed rs1 rs2 →
  stated_verdict uid rs = last_verdict (unsigned_to_string uid) rs2.
Proof using uids_bounded.
  intros Hu Hs Hr. unfold stated_verdict, last_verdict. generalize false as v. revert rs Hs.
  induction Hr as [|r1 r2 rs1 rs2 Hr _ IH]; intros rs Hs v; inversion Hs as [|r ? rs' ? Hs1 Hs2]; subst; [done|].
  cbn [foldl]. rewrite IH by done. f_equal. unfold same_rule in Hs1.
  destruct r as [a u p| | |], r1; cbn in Hs1; simplify_eq; cbn in Hr; try (by subst r2).
  destruct Hr as (uid' & Hu' & ->). rewrite Hu'. pose proof (uid_of_bound _ _ Hu') as Hb.
  apply decide_ext. unfold default_key. split; (intros [E|E]; [left|right]).
  1, 2: by injection E as ->.
  all: apply unsigned_to_string_inj in E; unfold DEFAULT_USER_ID in *; [by subst|lia..].
Qed.
End whippet_facts.

(** ** Records *)

(** A record is made of a rule that is not a connect rule. *)
Class RecordOf {A} (f : Rule → option A) : Prop := record_of_connect r : is_connect r = true → f r = None.
#[global] Instance own_record : RecordOf own_of.
Proof. by intros []. Qed.
#[global] Instance send_record : RecordOf send_of.
Proof. by intros []. Qed.
#[global] Instance receive_record : RecordOf receive_of.
Proof. by intros []. Qed.

Section records.
Context {A} (f : Rule → option A) `{!RecordOf f}.

Lemma omap_clean t (rs : list Rule) : omap f (clean_connect_rules t rs) = omap f rs.
Proof using RecordOf0.
  unfold clean_connect_rules. induction rs as [|r rs IH]; [done|]. rewrite filter_cons.
  destruct (is_connect r) eqn:E; cbn [negb orb].
  - case_decide; cbn; by rewrite (record_of_connect _ E).
  - rewrite decide_True by done. cbn. by destruct (f r); rewrite IH.
Qed.

Lemma omap_filter_names (rs : list Rule) b : b = false → omap f (filter (λ r, names_user r = b) rs) = omap f rs.
Proof using RecordOf0.
  intros ->. induction rs as [|r rs IH]; [done|]. rewrite filter_cons.
  case_decide as Hn; cbn; [by rewrite IH|]. rewrite record_of_connect; [done|]. by destruct r.
Qed.

Lemma omap_inject k crs users :
  omap f (rules_of k (inject_connect_rules crs users)) = omap f (rules_of k users).
Proof using RecordOf0.
  revert users. induction crs as [|r crs IH]; intros users; cbn; [done|]. rewrite IH.
  destruct r as [a u p| | |]; try done. rewrite rules_of_entry. case_decide; [subst u|done]. cbn [rules].
  rewrite omap_app. cbn. rewrite record_of_connect by done. by rewrite app_nil_r.
Qed.

Lemma omap_prepare_users k p :
  omap f (rules_of k (users_of (prepare p))) = omap f (rules_of k (users_of p)).
Proof using RecordOf0.
  unfold prepare. destruct (default_context p) as [c|]; cbn; [|done].
  destruct (filter _ (rules c)) as [|r0 rs]; [done|]. rewrite users_of_Some. apply omap_inject.
Qed.

Lemma omap_optimize_user k p :
  im_wf (users_of p) → omap f (rules_of k (users_of (optimize p))) = omap f (rules_of k (users_of p)).
Proof using RecordOf0.
  intros Hw. unfold rules_of. rewrite optimize_user by done. destruct (im_get k (users_of p)) as [c|]; [|done].
  cbn [mbind option_bind]. change (context_rules (Some c)) with (rules c).
  assert (omap f (rules (optimize_context (threshold p) c)) = omap f (rules c)) as <- by apply omap_clean.
  case_decide as Hne; [done|]. by rewrite Hne.
Qed.

Lemma omap_default p :
  omap f (context_rules (default_context (optimize (prepare p)))) = omap f (context_rules (default_context p)).
Proof using RecordOf0. by rewrite optimize_default, omap_clean, prepare_default, omap_filter_names. Qed.
End records.

Lemma compiled_records p d uid :
  resolved p → (0 ≤ uid < 2 ^ 32)%Z → dbus_try_from (optimize (prepare p)) = Ok d →
  let us := rules_of (unsigned_to_string uid) (users_of p) in
  let ds := context_rules (default_context p) in
  ∃ b, broker_batch d uid = Some b ∧
    own_rules b = omap own_of us ++ omap own_of ds ∧
    send_rules b = omap send_of us ++ omap send_of ds ∧
    recv_rules b = omap receive_of us ++ omap receive_of ds.
Proof.
  intros Hp Hu Hd us ds. destruct (compiled_batch p d uid Hp Hu Hd) as (db & b & Hb & Hdb & Hbatch).
  exists b. split; [done|]. apply default_batch_spec in Hdb as (_ & D1 & D2 & D3).
  rewrite (omap_default own_of) in D1. rewrite (omap_default send_of) in D2.
  rewrite (omap_default receive_of) in D3. fold ds in D1, D2, D3.
  assert (∀ A (f : Rule → option A) `{!RecordOf f},
    omap f us = omap f (rules_of (unsigned_to_string uid) (users_of (optimize (prepare p))))) as Hus.
  { intros. rewrite (omap_optimize_user f) by apply prepare_wf, Hp. by rewrite (omap_prepare_users f). }
  rewrite (Hus _ own_of _), (Hus _ send_of _), (Hus _ receive_of _). unfold rules_of. destruct (im_get _ _) as [c|].
  - apply user_batch_spec in Hbatch as (_ & -> & -> & ->). by rewrite D1, D2, D3.
  - by subst b.
Qed.

(** C29. The broker's policy decides who may connect as the files say: for every
    UID, the verdict that dbus-broker applies is that of the last connect rule, in
    the order in which the files are loaded, that names a user with that UID or
    everybody, and without any such rule the connection is refused.  Renaming users
    to UIDs, moving their rules to their own contexts and dropping the overridden
    ones never changes a decision. *)
Theorem connect_verdict_is_last_rule read_dir read_to_string toml_from_str from_name config dir d :
  (∀ n uid, from_name n = Ok (Some uid) → (0 ≤ uid < 2 ^ 32)%Z) →
  compile_policy read_dir read_to_string toml_from_str from_name config dir = Ok d →
  ∃ fs qs, policy_paths read_dir config dir = Ok fs ∧
    mapM (parse_file read_to_string toml_from_str) fs = Some qs ∧
    ((total_rules qs < 2 ^ 61)%Z → ∀ uid, (0 ≤ uid < DEFAULT_USER_ID)%Z →
     ∃ b, broker_batch d uid = Some b ∧
       connect_verdict b = stated_verdict from_name uid (qs ≫= (λ q, context_rules (default_context q)))).
Proof.
  intros Hb Hc. unfold compile_policy in Hc. apply bind_Ok in Hc as (p & Hp & Hd).
  apply policy_new_spec in Hp as (fs & qs & Hfs & Hqs & Hp); [|done]. exists fs, qs. split_and!; [done..|].
  intros Htot uid Hu. destruct (Hp Htot) as (p0 & Hl & Hn & Hr).
  destruct (compiled_verdict p d uid Hr Hu Hd) as (b & Hbatch & Hv). exists b. split; [done|].
  rewrite Hv. symmetry. eapply stated_verdict_spec; [done|unfold DEFAULT_USER_ID in Hu; lia| |by apply Hn].
  apply Hl.
Qed.

(** Rules written for a user always beat the rules for everybody: the batch of
    a UID has one record for each own, send and receive rule of the contexts of that
    user, in the order of the files, followed by those of the default contexts, and
    every priority of the former is above every priority of the latter -- when no
    other context name in the files has the same UID. *)
Lemma user_rules_come_first read_dir read_to_string toml_from_str from_name config dir d :
  (∀ n uid, from_name n = Ok (Some uid) → (0 ≤ uid < 2 ^ 32)%Z) →
  compile_policy read_dir read_to_string toml_from_str from_name config dir = Ok d →
  ∃ fs qs, policy_paths read_dir config dir = Ok fs ∧
    mapM (parse_file read_to_string toml_from_str) fs = Some qs ∧
    ((total_rules qs < 2 ^ 61)%Z → ∀ n uid, uid_of from_name n = Some uid →
     (∀ q n', q ∈ qs → n' ∈ (users_of q).*1 → uid_of from_name n' = Some uid → n' = n) →
     ∃ b us ds, broker_batch d uid = Some b ∧
       Forall2 same_rule (qs ≫= (λ q, named n (users_of q))) us ∧
       own_rules b = omap own_of us ++ omap own_of ds ∧
       send_rules b = omap send_of us ++ omap send_of ds ∧
       recv_rules b = omap receive_of us ++ omap receive_of ds ∧
       (∃ ds0, Forall2 same_rule (qs ≫= (λ q, context_rules (default_context q))) ds0 ∧
          Forall2 (renamed from_name) ds0 ds) ∧
       ∀ r r', r ∈ us → r' ∈ ds → (get_priority r' < get_priority r)%Z).
Proof.
  intros Hb Hc. unfold compile_policy in Hc. apply bind_Ok in Hc as (p & Hp & Hd).
  apply policy_new_spec in Hp as (fs & qs & Hfs & Hqs & Hp); [|done]. exists fs, qs. split_and!; [done..|].
  intros Htot n uid Hn Huniq. destruct (Hp Htot) as (p0 & Hl & Hnu & Hr). clear Hp.
  destruct (compiled_records p d uid Hr (uid_of_bound _ Hb _ _ Hn) Hd) as (b & Hbatch & R1 & R2 & R3).
  rewrite (nu_users _ _ _ Hnu n uid Hn) in R1, R2, R3
    by (intros n' Hk Hn'; destruct (loaded_names _ _ _ Hl n' Hk) as (q & ? & ?); by eapply Huniq).
  exists b, (rules_of n (users_of p0)), (context_rules (default_context p)).
  split_and!; [done|apply Hl|done..| |].
  - exists (context_rules (default_context p0)). split; [apply Hl|apply Hnu].
  - intros r r' Hin Hin'. destruct (numbered_renamed _ _ _ _ _ (nu_default _ _ _ Hnu) (loaded_numbered _ _ _ Hl)) as [_ Hf].
    rewrite Forall_forall in Hf. specialize (Hf r' Hin').
    pose proof (loaded_priority _ _ _ Hl n) as Hf'. rewrite Forall_forall in Hf'. specialize (Hf' r Hin).
    unfold user_priority in Hf'. pose proof (total_rules_nonneg qs).
    assert (PRIORITY_BASE = 2635249153387078802)%Z as HP by (vm_compute; reflexivity). lia.
Qed.

(** ** Examples *)

Definition example_name (n : string) : result () (option Z) :=
  Ok (if decide (n = "alice") then Some 1000%Z else if decide (n = "root") then Some 0%Z else None).
Definition example_read_dir (_ : string) : result () (list (result () string)) :=
  Ok [Ok "b.toml"; Ok "readme"; Ok "a.toml"].
Definition example_toml (file : string) : result () Policy :=
  if decide (file = "main.toml") then
    Ok (mk_policy (Some (mk_context [ConnectUser true "*" 0; Own "*" false 0]))
          (Some [("alice", mk_context [Own "org.example.A" true 0])]))
  else if decide (file = "d/a.toml") then
    Ok (mk_policy (Some (mk_context [ConnectUser false "*" 0; ConnectUser true "1000" 0])) None)
  else if decide (file = "d/b.toml") then
    Ok (mk_policy (Some (mk_context [ConnectUser false "alice" 0])) None)
  else Err ().
Definition example_compile (toml : string → result () Policy) : result whippet_error DbusPolicy :=
  compile_policy example_read_dir Ok toml example_name "main.toml" "d".

Lemma example_name_bounded n uid : example_name n = Ok (Some uid) → (0 ≤ uid < 2 ^ 32)%Z.
Proof. unfold example_name. repeat case_decide; intros [= <-]; done. Qed.

(** The last rule for alice refuses, and so does the last one for everybody. *)
Lemma connect_verdict_is_last_rule_witness :
  ∃ d b, example_compile example_toml = Ok d ∧ broker_batch d 1000 = Some b ∧ connect_verdict b = false.
Proof.
  assert (is_ok (example_compile example_toml) = true) as Ho by (vm_compute; reflexivity).
  destruct (example_compile example_toml) as [d|] eqn:E; [|done]. exists d.
  destruct (connect_verdict_is_last_rule example_read_dir Ok example_toml example_name "main.toml" "d" d
    example_name_bounded E) as (fs & qs & Hfs & Hqs & Hv).
  vm_compute in Hfs. injection Hfs as <-. vm_compute in Hqs. injection Hqs as <-.
  destruct (Hv ltac:(vm_compute; reflexivity) 1000%Z ltac:(split; vm_compute; congruence)) as (b & Hb & Hcv).
  exists b. split; [reflexivity|]. split; [exact Hb|]. rewrite Hcv. vm_compute. reflexivity.
Defined.

Lemma user_rules_come_first_witness :
  ∃ d b r, example_compile example_toml = Ok d ∧ broker_batch d 1000 = Some b ∧
    head (own_rules b) = Some r ∧ own_name r = "org.example.A".
Proof.
  assert (is_ok (example_compile example_toml) = true) as Ho by (vm_compute; reflexivity).
  destruct (example_compile example_toml) as [d|] eqn:E; [|done]. exists d.
  destruct (user_rules_come_first example_read_dir Ok example_toml example_name "main.toml" "d" d
    example_name_bounded E) as (fs & qs & Hfs & Hqs & Hv).
  vm_compute in Hfs. injection Hfs as <-. vm_compute in Hqs.
  assert (forallb (λ q, forallb (λ n', bool_decide (n' = "alice")) (users_of q).*1) qs = true) as Hall
    by (injection Hqs as <-; vm_compute; reflexivity).
  assert (total_rules qs < 2 ^ 61)%Z as Htot by (injection Hqs as <-; vm_compute; reflexivity).
  destruct (Hv Htot "alice" 1000%Z ltac:(vm_compute; reflexivity)) as (b & us & ds & Hb & Hus & Ho1 & _).
  { intros q n' Hq%list_elem_of_In Hn%list_elem_of_In _.
    by apply (proj1 (forallb_forall _ _) (proj1 (forallb_forall _ _) Hall q Hq) n'), bool_decide_eq_true in Hn. }
  injection Hqs as <-. change (Forall2 same_rule [Own "org.example.A" true 0] us) in Hus.
  apply Forall2_cons_inv_l in Hus as (r1 & l & Hr & _ & ->). unfold same_rule in Hr.
  generalize dependent Hr. generalize (get_priority r1) as pr. intros pr Hr.
  change (Own "org.example.A" true pr = r1) in Hr. rewrite <- Hr in Ho1.
  eexists b, _. split; [reflexivity|]. split; [exact Hb|]. split; [by rewrite Ho1|reflexivity].
Defined.

(** Two contexts of the same user, by name and by number: the rules of the first
    are lost. *)
Lemma contexts_of_one_uid_lost :
  let toml (file : string) : result () Policy :=
    Ok (if decide (file = "main.toml") then
          mk_policy None (Some [("root", mk_context [Own "org.example.A" true 0]);
                                ("0", mk_context [Own "org.example.B" true 0])])
        else policy_default) in
  ∃ d b, example_compile toml = Ok d ∧ broker_batch d 0 = Some b ∧ own_name <$> own_rules b = ["org.example.B"].
Proof. do 2 eexists. split; [vm_compute; reflexivity|]. split; vm_compute; reflexivity. Qed.
