(* ===== verification/NetConfig.v ===== *)
(** * netdog's network configuration ([netdog/src/net_config], [interface_id.rs],
    [addressing/], [bonding.rs], [vlan_id.rs])

    Interface names and MAC addresses, the three versions of [net.toml] with their
    validation, and the definition of an interface on the kernel command line.  The
    TOML parser with the derived conversions, and the text of IP addresses, are
    parameters. *)
From S2P Require Import Prelude Chars Numbers IndexMap.
From Stdlib Require Import Ascii.
From stdpp Require Import base list strings gmap.
From stdpp Require Import options.

(** ** Definitions *)

(** *** [interface_id.rs] *)

Record InterfaceName := mk_name { name_inner : string }.
Record MacAddress := mk_mac { mac_inner : string }.
Inductive InterfaceId :=
| Name (name : InterfaceName)
| Mac (mac : MacAddress).

#[export] Instance InterfaceName_eq_dec : EqDecision InterfaceName.
Proof. solve_decision. Defined.
#[export] Instance MacAddress_eq_dec : EqDecision MacAddress.
Proof. solve_decision. Defined.
#[export] Instance InterfaceId_eq_dec : EqDecision InterfaceId.
Proof. solve_decision. Defined.
#[export] Program Instance InterfaceName_countable : Countable InterfaceName :=
  inj_countable' name_inner mk_name _.
Next Obligation. by intros []. Qed.

Inductive id_error :=
| InvalidNetworkDeviceName (input msg : string)
| InvalidMacAddress (input msg : string)
| InvalidMacAddressChar (input msg : string).

Definition id_to_string (i : InterfaceId) : string :=
  match i with Name n => name_inner n | Mac m => mac_inner m end.

Definition COLON : ascii := ":"%char.
Definition DASH : ascii := "-"%char.

(** [split(['-', ':'])] *)
Fixpoint split_octets (s : string) : list string :=
  match s with
  | EmptyString => [EmptyString]
  | String c s =>
      if decide (c = COLON ∨ c = DASH) then EmptyString :: split_octets s
      else match split_octets s with [] => [char_of c] | o :: l => String c o :: l end
  end.

(** [u8::from_str_radix(_, 16)] *)
Definition hex_digit (c : ascii) : option Z :=
  let n := Z.of_nat (nat_of_ascii c) in
  if ((48 <=? n) && (n <=? 57))%Z then Some (n - 48)%Z
  else if ((65 <=? n) && (n <=? 70))%Z then Some (n - 55)%Z
  else if ((97 <=? n) && (n <=? 102))%Z then Some (n - 87)%Z
  else None.
Fixpoint parse_hex_digits (w : Z) (s : string) (acc : Z) : option Z :=
  match s with
  | EmptyString => Some acc
  | String c s =>
      d ← hex_digit c;
      let acc := (acc * 16 + d)%Z in
      if (acc <? 2 ^ w)%Z then parse_hex_digits w s acc else None
  end.
Definition parse_hex (w : Z) (s : string) : option Z :=
  let s := strip_plus s in
  if str_is_empty s then None else parse_hex_digits w s 0.

Fixpoint check_octets (input : string) (octets : list string) (n : nat) : result id_error nat :=
  match octets with
  | [] => Ok n
  | octet :: rest =>
      let? _ := ensure (negb (n =? 6) && (str_len octet =? 2))
                  (InvalidMacAddress input "must have 6 octets of 2 chars/digits") in
      let? _ := ok_or (parse_hex 8 octet) (InvalidMacAddressChar input "invalid character/digit") in
      check_octets input rest (S n)
  end.

(** [to_lowercase] and [replace('-', ":")]; what is left here is ASCII. *)
Definition ascii_lower (c : ascii) : ascii :=
  let n := nat_of_ascii c in if (65 <=? n) && (n <=? 90) then ascii_of_nat (n + 32) else c.
Fixpoint str_map (f : ascii → ascii) (s : string) : string :=
  match s with EmptyString => EmptyString | String c s => String (f c) (str_map f s) end.
Definition undash (c : ascii) : ascii := if decide (c = DASH) then COLON else c.

Definition mac_try_from (input : string) : result id_error MacAddress :=
  let? octets := check_octets input (split_octets input) 0 in
  let? _ := ensure (octets =? 6) (InvalidMacAddress input "must have 6 octets") in
  Ok (mk_mac (str_map undash (str_map ascii_lower input))).

Definition line_terminators : list string :=
  (char_of <$> [ascii_of_nat 10; ascii_of_nat 13; ascii_of_nat 11; ascii_of_nat 12])
  ++ [bytes_str [194; 133]; bytes_str [226; 128; 168]; bytes_str [226; 128; 169]].

Definition str_contains_char (f : string → bool) (s : string) : bool := existsb f (str_chars s).

Definition name_try_from (input : string) : result id_error InterfaceName :=
  let? _ := ensure (negb (str_contains_char (λ c, bool_decide (c ∈ line_terminators)) input))
              (InvalidNetworkDeviceName input "contains line terminators") in
  let? _ := ensure (negb (str_is_empty input) && (str_len input <=? 15))
              (InvalidNetworkDeviceName input "invalid length, must be 1 to 15 characters long") in
  let? _ := ensure (negb (str_contains_char (λ c, bool_decide (c = ".")) input) &&
                    negb (str_contains_char (λ c, bool_decide (c = "/")) input) &&
                    negb (str_contains_char char_is_whitespace input))
              (InvalidNetworkDeviceName input "contains invalid characters") in
  Ok (mk_name input).

(** *** [addressing/], [bonding.rs], [vlan_id.rs] *)

(** [std::net::IpAddr], [ipnet::IpNet] *)
Inductive IpAddr := V4 (a : Z) | V6 (a : Z).
Record IpNet := mk_ipnet { net_addr : IpAddr; prefix_len : Z }.
Definition is_ipv4 (a : IpAddr) : bool := match a with V4 _ => true | V6 _ => false end.
Definition net_is_v4 (n : IpNet) : bool := is_ipv4 (net_addr n).

(** The text of addresses, which has no line breaks. *)
Class IpText := {
  ip_to_string : IpAddr → string;
  ip_from_str : string → option IpAddr;
  ipnet_to_string : IpNet → string;
  ipnet_from_str : string → option IpNet;
  ip_text_line i : no_char NEWLINE (ip_to_string i);
  ipnet_text_line n : no_char NEWLINE (ipnet_to_string n) }.

Record Dhcp4OptionsV1 := mk_dhcp4 { enabled4 : bool; optional4 : option bool; metric4 : option Z }.
Inductive Dhcp4ConfigV1 := Dhcp4Enabled (b : bool) | Dhcp4WithOptions (o : Dhcp4OptionsV1).
Record Dhcp6OptionsV1 := mk_dhcp6 { enabled6 : bool; optional6 : option bool }.
Inductive Dhcp6ConfigV1 := Dhcp6Enabled (b : bool) | Dhcp6WithOptions (o : Dhcp6OptionsV1).

(** The addresses of the [BTreeSet], in order. *)
Record StaticConfigV1 := mk_static { st_addresses : list IpNet }.
Inductive RouteTo := DefaultRoute | ToNet (n : IpNet).
Record RouteV1 := mk_route {
  route_to : RouteTo;
  route_from : option IpAddr;
  route_via : option IpAddr;
  route_metric : option Z }.

(** The lowercase text is an argument: it follows Unicode's tables. *)
Definition route_to_try_from `{IpText} (to_lowercase : string → string) (input : string) : option RouteTo :=
  let input := to_lowercase input in
  if decide (input = "default") then Some DefaultRoute else ToNet <$> ipnet_from_str input.

Inductive BondModeV1 := ActiveBackup.
Inductive ArpValidateV1 := ArpActive | ArpAll | ArpBackup | ArpNone.
Record MiiMonitoringConfigV1 := mk_miimon { frequency : Z; updelay : Z; downdelay : Z }.
Record ArpMonitoringConfigV1 := mk_arpmon { interval : Z; validate_mode : ArpValidateV1; targets : list IpAddr }.
Inductive BondMonitoringConfigV1 := MiiMon (m : MiiMonitoringConfigV1) | ArpMon (m : ArpMonitoringConfigV1).

Record VlanId := mk_vlan_id { vlan_id_inner : Z }.
Definition vlan_id_from (id : Z) : option VlanId := if (4094 <? id)%Z then None else Some (mk_vlan_id id).

(** *** [net_config/error.rs]; errors of the file system and the parser have no data. *)
Inductive net_error :=
| CreateFromStr (what given : string)
| InvalidInterfaceDef (definition : string)
| InvalidInterfaceName (source : id_error)
| InvalidInterfaceOption (given : string)
| InvalidNetConfig (reason : string)
| KernelCmdlineReadFailed
| MultipleDefaultInterfaces
| NetConfigReadFailed
| NetConfigParse
| InvalidWithMac (what : string).

(** *** [net_config/devices/] *)

Record NetInterfaceV2 := mk_interface2 {
  i_primary : option bool;
  i_dhcp4 : option Dhcp4ConfigV1;
  i_dhcp6 : option Dhcp6ConfigV1;
  i_static4 : option StaticConfigV1;
  i_static6 : option StaticConfigV1;
  i_routes : option (list RouteV1) }.

Record NetBondV1 := mk_bond1 {
  b_primary : option bool;
  b_dhcp4 : option Dhcp4ConfigV1;
  b_dhcp6 : option Dhcp6ConfigV1;
  b_static4 : option StaticConfigV1;
  b_static6 : option StaticConfigV1;
  b_routes : option (list RouteV1);
  b_mode : BondModeV1;
  b_min_links : option Z;
  b_monitoring : BondMonitoringConfigV1;
  b_interfaces : list InterfaceName }.

Record NetVlanV1 := mk_vlan1 {
  v_primary : option bool;
  v_dhcp4 : option Dhcp4ConfigV1;
  v_dhcp6 : option Dhcp6ConfigV1;
  v_static4 : option StaticConfigV1;
  v_static6 : option StaticConfigV1;
  v_routes : option (list RouteV1);
  v_device : InterfaceName;
  v_id : VlanId }.

Inductive NetworkDeviceV1 :=
| Interface (i : NetInterfaceV2)
| BondDevice (b : NetBondV1)
| VlanDevice (v : NetVlanV1).

Definition device_primary (d : NetworkDeviceV1) : option bool :=
  match d with Interface i => i_primary i | BondDevice b => b_primary b | VlanDevice v => v_primary v end.

(** [impl Validate for StaticConfigV1] *)
Definition validate_static (c : StaticConfigV1) : result net_error () :=
  ensure (forallb net_is_v4 (st_addresses c) || forallb (λ n, negb (net_is_v4 n)) (st_addresses c))
    (InvalidNetConfig "static configuration must only contain all IPv4 or all IPv6 addresses").

Definition is_some {A} (o : option A) : bool := match o with Some _ => true | None => false end.

Class HasIpAddressing (D : Type) := {
  has_static : D → bool;
  validate_static4 : D → result net_error ();
  validate_static6 : D → result net_error ();
  has_dhcp : D → bool;
  has_routes : D → bool }.

(** [generate_addressing_validation!] *)
Definition validate_opt (c : option StaticConfigV1) : result net_error () :=
  match c with Some config => validate_static config | None => Ok tt end.
Definition generate_addressing_validation {D A B C} (dhcp4 : D → option A) (dhcp6 : D → option B)
    (static4 static6 : D → option StaticConfigV1) (routes : D → option C) : HasIpAddressing D := {|
  has_static d := is_some (static4 d) || is_some (static6 d);
  validate_static4 d := validate_opt (static4 d);
  validate_static6 d := validate_opt (static6 d);
  has_dhcp d := is_some (dhcp4 d) || is_some (dhcp6 d);
  has_routes d := is_some (routes d) |}.
#[export] Instance interface_addressing : HasIpAddressing NetInterfaceV2 :=
  generate_addressing_validation i_dhcp4 i_dhcp6 i_static4 i_static6 i_routes.
#[export] Instance bond_addressing : HasIpAddressing NetBondV1 :=
  generate_addressing_validation b_dhcp4 b_dhcp6 b_static4 b_static6 b_routes.
#[export] Instance vlan_addressing : HasIpAddressing NetVlanV1 :=
  generate_addressing_validation v_dhcp4 v_dhcp6 v_static4 v_static6 v_routes.

Definition validate_addressing {D} `{HasIpAddressing D} (device : D) : result net_error () :=
  if negb (has_dhcp device) && negb (has_static device) then
    Err (InvalidNetConfig "each interface must configure dhcp and/or static addresses")
  else if has_dhcp device && has_routes device then
    Err (InvalidNetConfig "static routes are not supported with dhcp")
  else if has_routes device && negb (has_static device) then
    Err (InvalidNetConfig "interfaces must set static addresses in order to use routes")
  else
    let? _ := validate_static4 device in
    let? _ := validate_static6 device in
    Ok tt.

Definition validate_miimon (m : MiiMonitoringConfigV1) : result net_error () :=
  let? _ := ensure (0 <? frequency m)%Z
              (InvalidNetConfig "miimon-frequency-ms of 0 disables Mii Monitoring, either set a value or configure Arp Monitoring") in
  let? _ := ensure ((frequency m <=? updelay m) && (frequency m <=? downdelay m))%Z
              (InvalidNetConfig "miimon-updelay-ms and miimon-downdelay-ms must be equal to or larger than miimon-frequency-ms") in
  Ok tt.

(** [self.targets.len() as u32] *)
Definition validate_arpmon (m : ArpMonitoringConfigV1) : result net_error () :=
  let? _ := ensure (0 <? interval m)%Z
              (InvalidNetConfig "arpmon-interval-ms of 0 disables Arp Monitoring, either set a value or configure Mii Monitoring") in
  let targets_length := wrap 32 (Z.of_nat (length (targets m))) in
  let? _ := ensure ((0 <? targets_length) && (targets_length <=? 16))%Z
              (InvalidNetConfig "arpmon-targets must include between 1 and 16 targets") in
  Ok tt.

Definition validate_bond (b : NetBondV1) : result net_error () :=
  let? _ := validate_addressing b in
  let interfaces_count := Z.of_nat (length (b_interfaces b)) in
  let? _ := ensure (0 <? interfaces_count)%Z
              (InvalidNetConfig "bonds must have 1 or more interfaces specified") in
  let? _ := match b_min_links b with
            | Some min_links => ensure (min_links <=? interfaces_count)%Z
                (InvalidNetConfig "min-links is greater than number of interfaces configured")
            | None => Ok tt
            end in
  let? _ := match b_monitoring b with MiiMon config => validate_miimon config | ArpMon config => validate_arpmon config end in
  Ok tt.

Definition validate_device (d : NetworkDeviceV1) : result net_error () :=
  match d with
  | Interface config => validate_addressing config
  | BondDevice config => validate_bond config
  | VlanDevice config => validate_addressing config
  end.

(** *** [v1.rs], [v2.rs], [v3.rs]: an [IndexMap] is the list of its entries in order. *)

Record NetInterfaceV1 := mk_interface1 {
  primary1 : option bool;
  dhcp4_1 : option Dhcp4ConfigV1;
  dhcp6_1 : option Dhcp6ConfigV1 }.

Record NetConfigV1 := mk_config1 { interfaces1 : list (InterfaceName * NetInterfaceV1) }.
Record NetConfigV2 := mk_config2 { interfaces2 : list (InterfaceName * NetInterfaceV2) }.
Record NetConfigV3 := mk_config3 { net_devices : list (InterfaceId * NetworkDeviceV1) }.

(** The first entry that is marked as primary, or the first. *)
Definition find_primary {K V} (primary : V → option bool) (l : list (K * V)) : option K :=
  fst <$> match List.find (λ '(_, v), bool_decide (primary v = Some true)) l with
          | Some e => Some e
          | None => head l
          end.
Definition primary_count {K V} (primary : V → option bool) (l : list (K * V)) : nat :=
  length (filter (λ e, primary e.2 = Some true) l).
Definition check_primary {K V} (primary : V → option bool) (l : list (K * V)) : result net_error () :=
  let? _ := ensure (primary_count primary l <=? 1)
              (InvalidNetConfig "multiple primary interfaces defined, expected 1") in
  Ok tt.

Definition validate_v1 (c : NetConfigV1) : result net_error () :=
  let dhcp_misconfigured :=
    existsb (λ '(_, cfg), negb (is_some (dhcp4_1 cfg)) && negb (is_some (dhcp6_1 cfg))) (interfaces1 c) in
  let? _ := ensure (negb dhcp_misconfigured)
              (InvalidNetConfig "each interface must configure dhcp4 or dhcp6, or both") in
  check_primary primary1 (interfaces1 c).

Fixpoint validate_all {K V} (validate : V → result net_error ()) (l : list (K * V)) : result net_error () :=
  match l with
  | [] => Ok tt
  | (_, config) :: l => let? _ := validate config in validate_all validate l
  end.
Definition validate_v2 (c : NetConfigV2) : result net_error () :=
  let? _ := validate_all validate_addressing (interfaces2 c) in
  check_primary i_primary (interfaces2 c).

Definition known_names (c : NetConfigV3) : gset InterfaceName :=
  list_to_set (omap (λ '(id, _), match id with Name n => Some n | Mac _ => None end) (net_devices c)) ∪
  list_to_set (omap (λ '(_, d), match d with VlanDevice vlan => Some (v_device vlan) | _ => None end) (net_devices c)).

Fixpoint claim_workers (bond : string) (workers : list InterfaceName) (interface_names : gset InterfaceName) :
    result net_error (gset InterfaceName) :=
  match workers with
  | [] => Ok interface_names
  | interface :: workers =>
      if decide (interface ∈ interface_names) then
        Err (InvalidNetConfig (name_inner interface +:+ " in bond " +:+ bond +:+ " cannot be manually configured"))
      else claim_workers bond workers ({[interface]} ∪ interface_names)
  end.
Fixpoint validate_devices (l : list (InterfaceId * NetworkDeviceV1)) (interface_names : gset InterfaceName) :
    result net_error () :=
  match l with
  | [] => Ok tt
  | (name, device) :: l =>
      let? _ := match device with
                | BondDevice _ | VlanDevice _ =>
                    ensure (match name with Mac _ => false | Name _ => true end)
                      (InvalidNetConfig "bonds and vlans may not be configured using MAC address")
                | Interface _ => Ok tt
                end in
      let? interface_names := match device with
                              | BondDevice config => claim_workers (id_to_string name) (b_interfaces config) interface_names
                              | _ => Ok interface_names
                              end in
      let? _ := validate_device device in
      validate_devices l interface_names
  end.
Definition validate_v3 (c : NetConfigV3) : result net_error () :=
  let? _ := validate_devices (net_devices c) (known_names c) in
  check_primary device_primary (net_devices c).

(** [Box<dyn Interfaces>] *)
Inductive NetConfig := ConfigV1 (c : NetConfigV1) | ConfigV2 (c : NetConfigV2) | ConfigV3 (c : NetConfigV3).

Definition primary_interface (c : NetConfig) : option InterfaceId :=
  match c with
  | ConfigV1 c => Name <$> find_primary primary1 (interfaces1 c)
  | ConfigV2 c => Name <$> find_primary i_primary (interfaces2 c)
  | ConfigV3 c => find_primary device_primary (net_devices c)
  end.
Definition interfaces (c : NetConfig) : list InterfaceId :=
  match c with
  | ConfigV1 c => Name <$> (interfaces1 c).*1
  | ConfigV2 c => Name <$> (interfaces2 c).*1
  | ConfigV3 c => (net_devices c).*1
  end.
Definition has_interfaces (c : NetConfig) : bool :=
  match c with
  | ConfigV1 c => negb (bool_decide (interfaces1 c = [])) | ConfigV2 c => negb (bool_decide (interfaces2 c = []))
  | ConfigV3 c => negb (bool_decide (net_devices c = []))
  end.

(** *** Interfaces from text ([FromStr]) *)

(** [trim_start_matches] of a non-empty text: as often as it stands there. *)
Fixpoint trim_matches (fuel : nat) (pat s : string) : string :=
  match fuel with
  | 0 => s
  | S fuel => if str_starts_with s pat then trim_matches fuel pat (str_drop (str_len pat) s) else s
  end.
Definition trim_start_matches (pat s : string) : string := trim_matches (str_len s) pat s.

Inductive Sigil := Optional.
Fixpoint sigils_of (chars : list string) : result net_error (list Sigil) :=
  match chars with
  | [] => Ok []
  | sigil :: chars =>
      if decide (sigil = "?") then let? l := sigils_of chars in Ok (Optional :: l)
      else Err (CreateFromStr "sigils" sigil)
  end.
Definition sigils_from_str (s : string) : result net_error (list Sigil) := sigils_of (str_chars s).

Definition optional_of (sigils : list Sigil) : option bool :=
  foldl (λ _ sigil, match sigil with Optional => Some true end) None sigils.
Definition optional_from (prefix s : string) : result net_error (option bool) :=
  let maybe_sigils := trim_start_matches prefix s in
  if str_is_empty maybe_sigils then Ok None
  else let? sigils := sigils_from_str maybe_sigils in Ok (optional_of sigils).

Definition dhcp4_from_str (s : string) : result net_error Dhcp4ConfigV1 :=
  let? _ := ensure (str_starts_with s "dhcp4") (CreateFromStr "Dhcp4 options" s) in
  let? optional := optional_from "dhcp4" s in
  Ok (Dhcp4WithOptions (mk_dhcp4 true optional None)).
Definition dhcp6_from_str (s : string) : result net_error Dhcp6ConfigV1 :=
  let? _ := ensure (str_starts_with s "dhcp6") (CreateFromStr "Dhcp6 options" s) in
  let? optional := optional_from "dhcp6" s in
  Ok (Dhcp6WithOptions (mk_dhcp6 true optional)).

(** The options of an interface; [provided_options] are the options parsed before. *)
Fixpoint parse_options (s : string) (options : list string) (provided_options : gset string)
    (interface_config : NetInterfaceV1) : result net_error NetInterfaceV1 :=
  match options with
  | [] => Ok interface_config
  | opt :: options =>
      if decide (opt ∈ provided_options) then Err (InvalidInterfaceDef s)
      else if str_starts_with opt "dhcp4" then
        let? dhcp4 := dhcp4_from_str opt in
        parse_options s options ({["dhcp4"]} ∪ provided_options)
          (mk_interface1 (primary1 interface_config) (Some dhcp4) (dhcp6_1 interface_config))
      else if str_starts_with opt "dhcp6" then
        let? dhcp6 := dhcp6_from_str opt in
        parse_options s options ({["dhcp6"]} ∪ provided_options)
          (mk_interface1 (primary1 interface_config) (dhcp4_1 interface_config) (Some dhcp6))
      else Err (InvalidInterfaceOption opt)
  end.

Definition config1_from_str (s : string) : result net_error NetConfigV1 :=
  match str_splitn2 COLON s with
  | (name, Some options) =>
      if str_is_empty options || str_is_empty name then Err (InvalidInterfaceDef s)
      else
        let? name := map_err InvalidInterfaceName (name_try_from name) in
        let? interface_config := parse_options s (str_split "," options) ∅ (mk_interface1 None None None) in
        Ok (mk_config1 [(name, interface_config)])
  | (_, None) => Err (InvalidInterfaceDef s)
  end.

Definition DEFAULT_INTERFACE_PREFIX : string := "netdog.default-interface=".

(** [split_whitespace] *)
Fixpoint split_ws (chars : list string) (word : string) : list string :=
  match chars with
  | [] => if str_is_empty word then [] else [word]
  | c :: chars =>
      if char_is_whitespace c then (if str_is_empty word then [] else [word]) ++ split_ws chars EmptyString
      else split_ws chars (word +:+ c)
  end.
Definition split_whitespace (s : string) : list string := split_ws (str_chars s) EmptyString.

Definition from_command_line (kernel_cmdline : option string) : result net_error (option NetConfig) :=
  let? kernel_cmdline := ok_or kernel_cmdline KernelCmdlineReadFailed in
  match filter (λ s, str_starts_with s DEFAULT_INTERFACE_PREFIX = true) (split_whitespace kernel_cmdline) with
  | [] => Ok None
  | [interface_str] =>
      let? net_config := config1_from_str (trim_start_matches DEFAULT_INTERFACE_PREFIX interface_str) in
      Ok (Some (ConfigV1 net_config))
  | _ :: _ :: _ => Err MultipleDefaultInterfaces
  end.

(** *** [net.toml]: the parser gives the version and the rest of the file; the derived
    conversions read the rest. *)
Class NetToml (V : Type) := {
  parse_versioned : string → option (Z * V);
  config1_of : V → option NetConfigV1;
  config2_of : V → option NetConfigV2;
  config3_of : V → option NetConfigV3 }.

Section toml.
Context {V : Type} `{NetToml V}.

Definition validate_config {C} (of_value : V → option C) (validate : C → result net_error ())
    (config_value : V) : result net_error C :=
  let? config := ok_or (of_value config_value) NetConfigParse in
  let? _ := validate config in
  Ok config.

Definition deserialize_config (config_str : string) : result net_error NetConfig :=
  let? parsed := ok_or (parse_versioned config_str) NetConfigParse in
  let '(version, interface_config) := parsed in
  if decide (version = 1%Z) then
    let? c := validate_config config1_of validate_v1 interface_config in Ok (ConfigV1 c)
  else if decide (version = 2%Z) then
    let? c := validate_config config2_of validate_v2 interface_config in Ok (ConfigV2 c)
  else if decide (version = 3%Z) then
    let? c := validate_config config3_of validate_v3 interface_config in Ok (ConfigV3 c)
  else Err (InvalidNetConfig ("Unknown network config version: " +:+ unsigned_to_string version)).

(** The content of the file, if it can be read. *)
Definition from_path (content : option string) : result net_error (option NetConfig) :=
  let? net_config_str := ok_or content NetConfigReadFailed in
  let? net_config := deserialize_config net_config_str in
  Ok (if has_interfaces net_config then Some net_config else None).
End toml.

(** ** What validation establishes *)

Definition workers_of (d : NetworkDeviceV1) : list InterfaceName :=
  match d with BondDevice b => b_interfaces b | _ => [] end.
Definition workers (l : list (InterfaceId * NetworkDeviceV1)) : list InterfaceName := l ≫= λ e, workers_of e.2.
(** Bonds and VLANs have names, and each device is valid. *)
Definition entry_ok (e : InterfaceId * NetworkDeviceV1) : Prop :=
  validate_device e.2 = Ok tt ∧
  match e with (Mac _, BondDevice _) | (Mac _, VlanDevice _) => False | _ => True end.

Lemma claim_workers_Ok bond ws names names' :
  claim_workers bond ws names = Ok names' →
  NoDup ws ∧ (∀ w, w ∈ ws → w ∉ names) ∧ names' = list_to_set ws ∪ names.
Proof.
  revert names. induction ws as [|w ws IH]; intros names; cbn.
  { intros [= <-]. split; [constructor|]. split; [by intros ? ?%elem_of_nil|set_solver]. }
  case_decide as Hin; [done|]. intros (Hnd & Hout & ->)%IH. split_and!; [|set_solver..].
  constructor; [|done]. intros Hw%Hout. set_solver.
Qed.

Lemma validate_devices_Ok l names :
  validate_devices l names = Ok tt →
  NoDup (workers l) ∧ (∀ w, w ∈ workers l → w ∉ names) ∧ Forall entry_ok l.
Proof.
  revert names. induction l as [|[id d] l IH]; intros names; cbn.
  { intros _. split; [constructor|]. by split; [intros ? ?%elem_of_nil|]. }
  intros (u1 & Hmac & Hv)%bind_Ok. apply bind_Ok in Hv as (names' & Hclaim & Hv).
  apply bind_Ok in Hv as ([] & Hd & Hv).
  apply IH in Hv as (Hnd & Hout & Hall).
  assert (NoDup (workers_of d) ∧ (∀ w, w ∈ workers_of d → w ∉ names) ∧ names' = list_to_set (workers_of d) ∪ names)
    as (Hnd1 & Hout1 & ->).
  { destruct d as [|config|]; cbn in *; [|by apply claim_workers_Ok in Hclaim|]; injection Hclaim as <-;
      (split; [constructor|]); (split; [by intros ? ?%elem_of_nil|set_solver]). }
  split; [|split].
  - apply NoDup_app. split; [done|]. split; [|exact Hnd]. intros w Hw Hw2%Hout. set_solver.
  - intros w [Hw|Hw]%elem_of_app; [by apply Hout1|]. apply Hout in Hw. set_solver.
  - constructor; [|done]. split; [done|]. by destruct d, id.
Qed.

(** In a valid configuration no worker has a configuration of its own, carries a VLAN
    or belongs to two bonds. *)
Lemma validate_v3_Ok c :
  validate_v3 c = Ok tt →
  Forall entry_ok (net_devices c) ∧ NoDup (workers (net_devices c)) ∧
  (∀ w, w ∈ workers (net_devices c) →
     (Name w ∉ (net_devices c).*1) ∧ ∀ id v, (id, VlanDevice v) ∈ net_devices c → v_device v ≠ w) ∧
  primary_count device_primary (net_devices c) ≤ 1.
Proof.
  unfold validate_v3, check_primary. intros Hv. rinv.
  match goal with H : validate_devices _ _ = Ok ?u |- _ => destruct u; apply validate_devices_Ok in H as (Hnd & Hout & Hall) end.
  match goal with H : (_ <=? _) = true |- _ => apply Nat.leb_le in H end.
  split_and!; [done|done| |done]. intros w Hw. apply Hout in Hw. unfold known_names in Hw.
  apply not_elem_of_union in Hw as [Hn Hv]. rewrite elem_of_list_to_set, list_elem_of_omap in Hn. rewrite elem_of_list_to_set, list_elem_of_omap in Hv. split.
  - intros ([id d] & Hid & Hin)%list_elem_of_fmap. cbn in Hid. subst id. apply Hn. by exists (Name w, d).
  - intros id v Hin Hdev. apply Hv. exists (id, VlanDevice v). split; [done|]. cbn. by rewrite Hdev.
Qed.

(** ** MAC addresses *)

(** Six octets of two characters, separated by colons. *)
Definition mac_shape (m : MacAddress) : Prop :=
  ∃ octets, mac_inner m = str_join ":" octets ∧ length octets = 6 ∧
    Forall (λ o, str_len o = 2 ∧ no_char COLON o ∧ no_char DASH o ∧ str_map ascii_lower o = o ∧ is_Some (parse_hex 8 o)) octets.

Lemma check_octets_Ok input os n k :
  check_octets input os n = Ok k →
  k = n + length os ∧ Forall (λ o, str_len o = 2 ∧ is_Some (parse_hex 8 o)) os.
Proof.
  revert n. induction os as [|o os IH]; intros n; cbn; [intros [= <-]; split; [lia|constructor]|].
  intros Hc. rinv. match goal with H : check_octets _ _ _ = Ok _ |- _ => apply IH in H as [-> Hall] end.
  match goal with H : _ && _ = true |- _ => apply andb_true_iff in H as [_ Hl%Nat.eqb_eq] end.
  split; [lia|]. constructor; [|done]. by eauto.
Qed.

Lemma ascii_lower_idemp c : ascii_lower (ascii_lower c) = ascii_lower c.
Proof. destruct c as [[] [] [] [] [] [] [] []]; reflexivity. Qed.
Lemma ascii_lower_sep c : (ascii_lower c = COLON ↔ c = COLON) ∧ (ascii_lower c = DASH ↔ c = DASH).
Proof. destruct c as [[] [] [] [] [] [] [] []]; vm_compute; split; split; congruence. Qed.
Lemma hex_digit_lower c : hex_digit (ascii_lower c) = hex_digit c.
Proof. destruct c as [[] [] [] [] [] [] [] []]; reflexivity. Qed.

Lemma str_map_comp f g s : str_map f (str_map g s) = str_map (λ c, f (g c)) s.
Proof. induction s as [|c s IH]; cbn; [done|]. by rewrite IH. Qed.
Lemma str_map_ext f g s : (∀ c, f c = g c) → str_map f s = str_map g s.
Proof. intros Hf. induction s as [|c s IH]; cbn; [done|]. by rewrite Hf, IH. Qed.
Lemma str_len_map f s : str_len (str_map f s) = str_len s.
Proof. induction s as [|c s IH]; cbn; [done|]. by rewrite IH. Qed.

Lemma split_octets_ne s : split_octets s ≠ [].
Proof. destruct s as [|c s]; cbn; [done|]. case_decide; [done|]. by destruct (split_octets s). Qed.

Lemma split_octets_join s :
  str_map undash (str_map ascii_lower s) = str_join ":" (str_map ascii_lower <$> split_octets s).
Proof.
  rewrite str_map_comp. induction s as [|c s IH]; cbn [split_octets str_map]; [done|].
  rewrite IH. pose proof (split_octets_ne s) as Hne. destruct (ascii_lower_sep c) as [Hc Hd].
  unfold undash. destruct (decide (c = COLON ∨ c = DASH)) as [E|E].
  - assert ((if decide (ascii_lower c = DASH) then COLON else ascii_lower c) = COLON) as ->;
      [case_decide; [done|]; tauto|]. by destruct (split_octets s).
  - rewrite decide_False by tauto. by destruct (split_octets s) as [|o [|o2 l]].
Qed.

Lemma split_octets_plain s : Forall (λ o, no_char COLON o ∧ no_char DASH o) (split_octets s).
Proof.
  unfold no_char. induction s as [|c s IH]; cbn [split_octets]; [by repeat constructor|].
  case_decide as E; [by repeat constructor|]. assert (c ≠ COLON ∧ c ≠ DASH) as [Hc Hd] by tauto.
  destruct IH as [|o l [? ?] ?]; constructor; [|constructor| |done]; cbn; rewrite !bool_decide_false by done; tauto.
Qed.

Lemma no_char_lower c o : (c = COLON ∨ c = DASH) → no_char c o → no_char c (str_map ascii_lower o).
Proof.
  unfold no_char. intros Hc. induction o as [|a o IH]; cbn; [done|].
  intros [Ha%bool_decide_eq_false_1 Ho]%orb_false_iff. rewrite IH by done. rewrite bool_decide_false; [done|].
  destruct (ascii_lower_sep a) as [? ?]. destruct Hc as [-> | ->]; tauto.
Qed.

Lemma parse_hex_lower o : parse_hex 8 (str_map ascii_lower o) = parse_hex 8 o.
Proof.
  assert (∀ s acc, parse_hex_digits 8 (str_map ascii_lower s) acc = parse_hex_digits 8 s acc) as Hp.
  { induction s as [|c s IH]; intros acc; cbn [parse_hex_digits str_map]; [done|]. rewrite hex_digit_lower.
    destruct (hex_digit c); cbn; [|done]. by rewrite IH. }
  unfold parse_hex. assert (strip_plus (str_map ascii_lower o) = str_map ascii_lower (strip_plus o)) as ->.
  { destruct o as [|c o]; [done|]. destruct c as [[] [] [] [] [] [] [] []]; reflexivity. }
  rewrite Hp. by destruct (strip_plus o).
Qed.

Lemma mac_try_from_shape s m : mac_try_from s = Ok m → mac_shape m.
Proof.
  unfold mac_try_from. intros Hm. rinv.
  match goal with H : check_octets _ _ _ = Ok _ |- _ => apply check_octets_Ok in H as [-> Hall] end.
  match goal with H : (_ =? _) = true |- _ => apply Nat.eqb_eq in H; rename H into Hlen end.
  exists (str_map ascii_lower <$> split_octets s). cbn [mac_inner]. rewrite split_octets_join, length_fmap.
  split_and!; [done|done|]. apply Forall_fmap. pose proof (split_octets_plain s) as Hplain.
  eapply Forall_impl; [exact (proj2 (Forall_and _ _) (conj Hall Hplain))|]. cbn.
  intros o [[Hl Hh] [Hc Hd]]. rewrite str_len_map, parse_hex_lower, str_map_comp.
  split_and!; [done|by apply no_char_lower; [left|]|by apply no_char_lower; [right|]| |done].
  apply str_map_ext, ascii_lower_idemp.
Qed.

(** A stored address reads back as itself. *)
Lemma split_octets_app o s : no_char COLON o → no_char DASH o →
  split_octets (o +:+ String COLON s) = o :: split_octets s.
Proof.
  unfold no_char. induction o as [|c o IH]; cbn [split_octets String.append]; [by rewrite decide_True by tauto|].
  cbn. intros [Hc%bool_decide_eq_false_1 ?]%orb_false_iff [Hd%bool_decide_eq_false_1 ?]%orb_false_iff.
  rewrite decide_False by tauto. by rewrite IH.
Qed.
Lemma split_octets_none o : no_char COLON o → no_char DASH o → split_octets o = [o].
Proof.
  unfold no_char. induction o as [|c o IH]; cbn [split_octets]; [done|].
  cbn. intros [Hc%bool_decide_eq_false_1 ?]%orb_false_iff [Hd%bool_decide_eq_false_1 ?]%orb_false_iff.
  rewrite decide_False by tauto. by rewrite IH.
Qed.
Lemma split_octets_of_join os : os ≠ [] → Forall (λ o, no_char COLON o ∧ no_char DASH o) os →
  split_octets (str_join ":" os) = os.
Proof.
  intros Hne Hall. induction Hall as [|o os [Hc Hd] Hall IH]; [done|].
  destruct os as [|o2 os]; [by apply split_octets_none|]. rewrite str_join_cons.
  change (":" +:+ ?t) with (String COLON t). rewrite split_octets_app by done. by rewrite IH.
Qed.

Lemma mac_try_from_back m : mac_shape m → mac_try_from (mac_inner m) = Ok m.
Proof.
  destruct m as [inner]. unfold mac_shape. cbn [mac_inner]. intros (os & -> & Hlen & Hall). unfold mac_try_from.
  assert (os ≠ []) as Hne by by destruct os.
  assert (split_octets (str_join ":" os) = os) as Hs.
  { apply split_octets_of_join; [done|]. eapply Forall_impl; [exact Hall|]. cbn. tauto. }
  rewrite split_octets_join, Hs.
  assert (str_map ascii_lower <$> os = os) as ->.
  { clear -Hall. induction Hall as [|o os (_ & _ & _ & Ho & _) Hall IH]; cbn; [done|]. by rewrite Ho, IH. }
  assert (∀ input n, n + length os = 6 → check_octets input os n = Ok 6) as Hc.
  { clear -Hall. intros input. induction Hall as [|o os (Hl & _ & _ & _ & [z Hh]) Hall IH]; intros n; cbn [length check_octets].
    - intros ?. f_equal. lia.
    - intros Hn. assert ((n =? 6) = false) as -> by (apply Nat.eqb_neq; lia). rewrite Hl, Hh. cbn. apply IH. lia. }
  rewrite Hc by (cbn; lia). done.
Qed.

(** ** Names *)

(** An interface name holds no line break, so it cannot add a line to a file. *)
Lemma name_try_from_line s n : utf8_valid s = true → name_try_from s = Ok n → no_char NEWLINE (name_inner n).
Proof.
  unfold name_try_from. intros Hv Hn. rinv. cbn [name_inner]. destruct (decide (no_char NEWLINE s)) as [|Hin]; [done|].
  apply utf8_ascii_char in Hin; [|done..].
  match goal with H : negb (str_contains_char _ s) = true |- _ => apply negb_true_iff in H; rename H into Hc end.
  unfold str_contains_char in Hc. assert (existsb (λ c, bool_decide (c ∈ line_terminators)) (str_chars s) = true) as Ht.
  { apply existsb_exists. exists (char_of NEWLINE). split; [by apply list_elem_of_In|]. by apply bool_decide_eq_true_2; left. }
  congruence.
Qed.

Lemma parse_hex_line w s z : parse_hex w s = Some z → no_char NEWLINE s.
Proof.
  assert (∀ s acc z, parse_hex_digits w s acc = Some z → no_char NEWLINE s) as Hp.
  { unfold no_char. induction s0 as [|c s0 IH]; intros acc z' Hz; [done|]. cbn [parse_hex_digits str_existsb] in *.
    destruct (hex_digit c) as [d|] eqn:Hd; [|done]. cbn in Hz. case_match; [|done]. rewrite (IH _ _ Hz), orb_false_r.
    apply bool_decide_eq_false_2. by intros ->. }
  unfold parse_hex, strip_plus. destruct s as [|c s]; [done|]. case_decide as E.
  - subst c. destruct (str_is_empty s); [done|]. intros Hs%Hp. unfold no_char in *. cbn [str_existsb]. by rewrite Hs.
  - cbn [str_is_empty]. apply Hp.
Qed.

Lemma mac_shape_line m : mac_shape m → no_char NEWLINE (mac_inner m).
Proof.
  destruct m as [inner]. intros (os & Hi & _ & Hall). cbn in *. subst. apply no_char_join; [done|].
  eapply Forall_impl; [exact Hall|]. cbn. intros o (_ & _ & _ & _ & [z Hz]). by eapply parse_hex_line.
Qed.

(** ** What is accepted *)

(** An option that is given twice is only noticed when the second one has no sigil. *)
Lemma option_twice_accepted :
  config1_from_str "eno1:dhcp4,dhcp4?" =
    Ok (mk_config1 [(mk_name "eno1", mk_interface1 None (Some (Dhcp4WithOptions (mk_dhcp4 true (Some true) None))) None)]) ∧
  config1_from_str "eno1:dhcp4?,dhcp4" = Err (InvalidInterfaceDef "eno1:dhcp4?,dhcp4").
Proof. split; vm_compute; reflexivity. Qed.

(** Octets are parsed as numbers, which may have a sign. *)
Lemma signed_mac_accepted : is_ok (mac_try_from "+1:+2:+3:+4:+5:+6") = true.
Proof. vm_compute. reflexivity. Qed.

(** The kernel refuses colons in interface names, and dots only as "." and "..". *)
Lemma kernel_names_differ : is_ok (name_try_from "a:b") = true ∧ is_ok (name_try_from "eth0.1") = false.
Proof. split; vm_compute; reflexivity. Qed.

(** Static addresses of one family may stand in the setting of the other. *)
Lemma static_family_not_checked a p : validate_static (mk_static [mk_ipnet (V6 a) p]) = Ok tt.
Proof. done. Qed.
