(* ===== verification/Networkd.v ===== *)
(** * netdog's systemd-networkd configuration ([netdog/src/networkd],
    [netdog/systemd-derive])

    The devices of a network configuration, the builders of [.network] and [.netdev]
    files, their text, and the list of files for a whole configuration. *)
From S2P Require Import Prelude Chars Numbers IndexMap NetConfig.
From Stdlib Require Import Ascii.
From stdpp Require Import base list strings gmap.
From stdpp Require Import options.

(** ** Definitions *)

(** *** The text of unit files: [systemd-derive] *)

Definition NL : string := char_of NEWLINE.

(** A field of a section: [Option]s and [Vec]s are printed value by value, or, with
    [space_separated], in one entry. *)
Inductive field :=
| Values (entry : string) (values : list string)
| Joined (entry : string) (values : list string).

Definition field_to_string (f : field) : string :=
  match f with
  | Values entry values => str_concat ((λ v, entry +:+ "=" +:+ v +:+ NL) <$> values)
  | Joined entry values =>
      let joined := str_join " " values in
      if str_is_empty joined then EmptyString else entry +:+ "=" +:+ joined +:+ NL
  end.

Record section_text := mk_section_text { section_name : string; fields : list field }.
Definition section_to_string (s : section_text) : string :=
  "[" +:+ section_name s +:+ "]" +:+ NL +:+ str_concat (field_to_string <$> fields s).

(** The sections of a unit, in the order of the fields of its structure. *)
Definition unit_to_string (sections : list section_text) : string := str_concat (section_to_string <$> sections).

Definition opt_list {A} (o : option A) : list A := match o with Some v => [v] | None => [] end.
Definition opt_field {A} (entry : string) (to_string : A → string) (o : option A) : field :=
  Values entry (to_string <$> opt_list o).
Definition bool_to_string (b : bool) : string := if b then "true" else "false".

(** *** [config/network.rs] *)

Inductive RequiredFamily := FamilyAny | FamilyBoth | FamilyIpv4 | FamilyIpv6.
Definition family_to_string (f : RequiredFamily) : string :=
  match f with FamilyAny => "any" | FamilyBoth => "both" | FamilyIpv4 => "ipv4" | FamilyIpv6 => "ipv6" end.
Inductive DhcpBool := DhcpIpv4 | DhcpIpv6 | DhcpNo | DhcpYes.
Definition dhcp_to_string (d : DhcpBool) : string :=
  match d with DhcpIpv4 => "ipv4" | DhcpIpv6 => "ipv6" | DhcpNo => "no" | DhcpYes => "yes" end.
Inductive WithoutRa := RaNo | RaSolicit | RaInformationRequest.
Definition without_ra_to_string (w : WithoutRa) : string :=
  match w with RaNo => "no" | RaSolicit => "solicit" | RaInformationRequest => "information-request" end.
Inductive KeepConfiguration := KeepYes | KeepNo | KeepDhcp | KeepDhcpOnStop | KeepStatic.
Definition keep_to_string (k : KeepConfiguration) : string :=
  match k with
  | KeepYes => "yes" | KeepNo => "no" | KeepDhcp => "dhcp" | KeepDhcpOnStop => "dhcp-on-stop" | KeepStatic => "static"
  end.

Record MatchSection := mk_match { m_name : option InterfaceName; permanent_mac_address : list MacAddress }.
Record LinkSection := mk_link { required : option bool; required_family : option RequiredFamily }.
Record NetworkSection := mk_network {
  addresses : list IpNet;
  bond : option InterfaceName;
  configure_wo_carrier : option bool;
  dhcp : option DhcpBool;
  n_ipv6_accept_ra : option bool;
  ipv6_duplicate_address_detection : option Z;
  link_local_addressing : option DhcpBool;
  primary_bond_worker : option bool;
  vlan : list InterfaceName;
  keep_configuration : option KeepConfiguration;
  bind_carrier : list InterfaceName }.
Record RouteSection := mk_route_section {
  destination : option IpNet;
  gateway : option IpAddr;
  r_metric : option Z;
  preferred_source : option IpAddr }.
Record Dhcp4Section := mk_dhcp4_section {
  d4_metric : option Z; d4_use_dns : option bool; d4_use_domains : option bool; d4_use_mtu : option bool }.
Record Dhcp6Section := mk_dhcp6_section {
  d6_use_dns : option bool; d6_use_domains : option bool; without_ra : option WithoutRa }.
Record Ipv6AcceptRaSection := mk_ra_section {
  ra_use_dns : option bool; ra_use_domains : option bool; ra_use_mtu : option bool }.

Record NetworkConfig := mk_network_config {
  c_match : option MatchSection;
  c_link : option LinkSection;
  c_network : option NetworkSection;
  c_route : list RouteSection;
  c_dhcp4 : option Dhcp4Section;
  c_dhcp6 : option Dhcp6Section;
  c_ipv6_accept_ra : option Ipv6AcceptRaSection }.

Definition network_default : NetworkConfig := mk_network_config None None None [] None None None.
Definition link_section_default : LinkSection := mk_link None None.
Definition network_section_default : NetworkSection := mk_network [] None None None None None None None [] None [].
Definition dhcp4_section_default : Dhcp4Section := mk_dhcp4_section None None None None.
Definition dhcp6_section_default : Dhcp6Section := mk_dhcp6_section None None None.
Definition ra_section_default : Ipv6AcceptRaSection := mk_ra_section None None None.

(** Assignments to a field of a section. *)
Definition set_addresses v s := mk_network v (bond s) (configure_wo_carrier s) (dhcp s) (n_ipv6_accept_ra s)
  (ipv6_duplicate_address_detection s) (link_local_addressing s) (primary_bond_worker s) (vlan s) (keep_configuration s) (bind_carrier s).
Definition set_bond v s := mk_network (addresses s) v (configure_wo_carrier s) (dhcp s) (n_ipv6_accept_ra s)
  (ipv6_duplicate_address_detection s) (link_local_addressing s) (primary_bond_worker s) (vlan s) (keep_configuration s) (bind_carrier s).
Definition set_configure_wo_carrier v s := mk_network (addresses s) (bond s) v (dhcp s) (n_ipv6_accept_ra s)
  (ipv6_duplicate_address_detection s) (link_local_addressing s) (primary_bond_worker s) (vlan s) (keep_configuration s) (bind_carrier s).
Definition set_dhcp v s := mk_network (addresses s) (bond s) (configure_wo_carrier s) v (n_ipv6_accept_ra s)
  (ipv6_duplicate_address_detection s) (link_local_addressing s) (primary_bond_worker s) (vlan s) (keep_configuration s) (bind_carrier s).
Definition set_accept_ra v s := mk_network (addresses s) (bond s) (configure_wo_carrier s) (dhcp s) v
  (ipv6_duplicate_address_detection s) (link_local_addressing s) (primary_bond_worker s) (vlan s) (keep_configuration s) (bind_carrier s).
Definition set_dad v s := mk_network (addresses s) (bond s) (configure_wo_carrier s) (dhcp s) (n_ipv6_accept_ra s)
  v (link_local_addressing s) (primary_bond_worker s) (vlan s) (keep_configuration s) (bind_carrier s).
Definition set_link_local v s := mk_network (addresses s) (bond s) (configure_wo_carrier s) (dhcp s) (n_ipv6_accept_ra s)
  (ipv6_duplicate_address_detection s) v (primary_bond_worker s) (vlan s) (keep_configuration s) (bind_carrier s).
Definition set_primary_worker v s := mk_network (addresses s) (bond s) (configure_wo_carrier s) (dhcp s) (n_ipv6_accept_ra s)
  (ipv6_duplicate_address_detection s) (link_local_addressing s) v (vlan s) (keep_configuration s) (bind_carrier s).
Definition set_vlan v s := mk_network (addresses s) (bond s) (configure_wo_carrier s) (dhcp s) (n_ipv6_accept_ra s)
  (ipv6_duplicate_address_detection s) (link_local_addressing s) (primary_bond_worker s) v (keep_configuration s) (bind_carrier s).
Definition set_keep v s := mk_network (addresses s) (bond s) (configure_wo_carrier s) (dhcp s) (n_ipv6_accept_ra s)
  (ipv6_duplicate_address_detection s) (link_local_addressing s) (primary_bond_worker s) (vlan s) v (bind_carrier s).
Definition set_bind_carrier v s := mk_network (addresses s) (bond s) (configure_wo_carrier s) (dhcp s) (n_ipv6_accept_ra s)
  (ipv6_duplicate_address_detection s) (link_local_addressing s) (primary_bond_worker s) (vlan s) (keep_configuration s) v.
Definition set_required v s := mk_link v (required_family s).
Definition set_required_family v s := mk_link (required s) v.
Definition set_d4_metric v s := mk_dhcp4_section v (d4_use_dns s) (d4_use_domains s) (d4_use_mtu s).
Definition set_d4_mtu v s := mk_dhcp4_section (d4_metric s) (d4_use_dns s) (d4_use_domains s) v.
Definition set_without_ra v s := mk_dhcp6_section (d6_use_dns s) (d6_use_domains s) v.
Definition set_ra_mtu v s := mk_ra_section (ra_use_dns s) (ra_use_domains s) v.

(** [link_mut], [network_mut], ...: what is done to the section, which is made when it
    is not there ([get_or_insert_with]). *)
Definition link_mut (f : LinkSection → LinkSection) (c : NetworkConfig) : NetworkConfig :=
  mk_network_config (c_match c) (Some (f (default link_section_default (c_link c)))) (c_network c) (c_route c)
    (c_dhcp4 c) (c_dhcp6 c) (c_ipv6_accept_ra c).
Definition network_mut (f : NetworkSection → NetworkSection) (c : NetworkConfig) : NetworkConfig :=
  mk_network_config (c_match c) (c_link c) (Some (f (default network_section_default (c_network c)))) (c_route c)
    (c_dhcp4 c) (c_dhcp6 c) (c_ipv6_accept_ra c).
Definition dhcp4_mut (f : Dhcp4Section → Dhcp4Section) (c : NetworkConfig) : NetworkConfig :=
  mk_network_config (c_match c) (c_link c) (c_network c) (c_route c)
    (Some (f (default dhcp4_section_default (c_dhcp4 c)))) (c_dhcp6 c) (c_ipv6_accept_ra c).
Definition dhcp6_mut (f : Dhcp6Section → Dhcp6Section) (c : NetworkConfig) : NetworkConfig :=
  mk_network_config (c_match c) (c_link c) (c_network c) (c_route c)
    (c_dhcp4 c) (Some (f (default dhcp6_section_default (c_dhcp6 c)))) (c_ipv6_accept_ra c).
Definition ipv6_accept_ra_mut (f : Ipv6AcceptRaSection → Ipv6AcceptRaSection) (c : NetworkConfig) : NetworkConfig :=
  mk_network_config (c_match c) (c_link c) (c_network c) (c_route c)
    (c_dhcp4 c) (c_dhcp6 c) (Some (f (default ra_section_default (c_ipv6_accept_ra c)))).
Definition push_route (r : RouteSection) (c : NetworkConfig) : NetworkConfig :=
  mk_network_config (c_match c) (c_link c) (c_network c) (c_route c ++ [r]) (c_dhcp4 c) (c_dhcp6 c) (c_ipv6_accept_ra c).

Definition new_with_name (name : InterfaceName) : NetworkConfig :=
  mk_network_config (Some (mk_match (Some name) [])) None None [] None None None.
Definition new_with_mac_address (mac : MacAddress) : NetworkConfig :=
  mk_network_config (Some (mk_match None [mac])) None None [] None None None.
Definition new_with_id (id : InterfaceId) : NetworkConfig :=
  match id with Name n => new_with_name n | Mac m => new_with_mac_address m end.

Definition enable_ipv6 (c : NetworkConfig) : NetworkConfig :=
  dhcp6_mut (set_without_ra (Some RaSolicit)) (network_mut (set_link_local None) (network_mut (set_accept_ra (Some true)) c)).
Definition disable_dad (c : NetworkConfig) : NetworkConfig := network_mut (set_dad (Some 0%Z)) c.

Section text.
Context `{IpText}.

Definition match_section (s : MatchSection) : section_text := mk_section_text "Match"
  [opt_field "Name" name_inner (m_name s); Values "PermanentMACAddress" (mac_inner <$> permanent_mac_address s)].
Definition link_section (s : LinkSection) : section_text := mk_section_text "Link"
  [opt_field "RequiredForOnline" bool_to_string (required s);
   opt_field "RequiredFamilyForOnline" family_to_string (required_family s)].
(** The only number that is ever given is 0. *)
Definition network_section (s : NetworkSection) : section_text := mk_section_text "Network"
  [Values "Address" (ipnet_to_string <$> addresses s);
   opt_field "Bond" name_inner (bond s);
   opt_field "ConfigureWithoutCarrier" bool_to_string (configure_wo_carrier s);
   opt_field "DHCP" dhcp_to_string (dhcp s);
   opt_field "IPv6AcceptRA" bool_to_string (n_ipv6_accept_ra s);
   opt_field "IPv6DuplicateAddressDetection" unsigned_to_string (ipv6_duplicate_address_detection s);
   opt_field "LinkLocalAddressing" dhcp_to_string (link_local_addressing s);
   opt_field "PrimarySlave" bool_to_string (primary_bond_worker s);
   Values "VLAN" (name_inner <$> vlan s);
   opt_field "KeepConfiguration" keep_to_string (keep_configuration s);
   Values "BindCarrier" (name_inner <$> bind_carrier s)].
Definition route_section (s : RouteSection) : section_text := mk_section_text "Route"
  [opt_field "Destination" ipnet_to_string (destination s); opt_field "Gateway" ip_to_string (gateway s);
   opt_field "Metric" unsigned_to_string (r_metric s); opt_field "PreferredSource" ip_to_string (preferred_source s)].
Definition dhcp4_section (s : Dhcp4Section) : section_text := mk_section_text "DHCPv4"
  [opt_field "RouteMetric" unsigned_to_string (d4_metric s); opt_field "UseDNS" bool_to_string (d4_use_dns s);
   opt_field "UseDomains" bool_to_string (d4_use_domains s); opt_field "UseMTU" bool_to_string (d4_use_mtu s)].
Definition dhcp6_section (s : Dhcp6Section) : section_text := mk_section_text "DHCPv6"
  [opt_field "UseDNS" bool_to_string (d6_use_dns s); opt_field "UseDomains" bool_to_string (d6_use_domains s);
   opt_field "WithoutRA" without_ra_to_string (without_ra s)].
Definition ra_section (s : Ipv6AcceptRaSection) : section_text := mk_section_text "IPv6AcceptRA"
  [opt_field "UseDNS" bool_to_string (ra_use_dns s); opt_field "UseDomains" bool_to_string (ra_use_domains s);
   opt_field "UseMTU" bool_to_string (ra_use_mtu s)].
Definition network_sections (c : NetworkConfig) : list section_text :=
  (match_section <$> opt_list (c_match c)) ++ (link_section <$> opt_list (c_link c)) ++
  (network_section <$> opt_list (c_network c)) ++ (route_section <$> c_route c) ++
  (dhcp4_section <$> opt_list (c_dhcp4 c)) ++ (dhcp6_section <$> opt_list (c_dhcp6 c)) ++
  (ra_section <$> opt_list (c_ipv6_accept_ra c)).
Definition network_to_string (c : NetworkConfig) : string := unit_to_string (network_sections c).
End text.

Definition CONFIG_FILE_PREFIX : string := "10-".
Definition NETWORKD_CONFIG_DIR : string := "/etc/systemd/network".
Fixpoint str_delete (c : ascii) (s : string) : string :=
  match s with
  | EmptyString => EmptyString
  | String a s => if decide (a = c) then str_delete c s else String a (str_delete c s)
  end.

(** The path of a device's file: a name without dots, so that [set_extension] adds the
    extension. *)
Definition config_file_path (device_name ext : string) : string :=
  NETWORKD_CONFIG_DIR +:+ "/" +:+ CONFIG_FILE_PREFIX +:+ device_name +:+ "." +:+ ext.

Inductive networkd_error :=
| ConfigMissingName (what : string)
| NetworkDConfigWrite (what path : string).

Definition network_config_path (c : NetworkConfig) : result networkd_error string :=
  let? match_section := ok_or (c_match c) (ConfigMissingName "network config") in
  let? device_name := match m_name match_section, head (permanent_mac_address match_section) with
                      | Some name, _ => Ok (name_inner name)
                      | None, Some mac => Ok (str_delete COLON (mac_inner mac))
                      | None, None => Err (ConfigMissingName "network_config")
                      end in
  Ok (config_file_path device_name "network").

(** *** The builders: a device type is an index, what it allows is a class. *)

Inductive DeviceType := Bond | Iface | Vlan | BondWorker | VlanLink.
Class NotBonded (T : DeviceType) := {}.
#[export] Instance bond_not_bonded : NotBonded Bond := {}.
#[export] Instance interface_not_bonded : NotBonded Iface := {}.
#[export] Instance vlan_not_bonded : NotBonded Vlan := {}.
Class CanHaveVlans (T : DeviceType) := {}.
#[export] Instance bond_vlans : CanHaveVlans Bond := {}.
#[export] Instance interface_vlans : CanHaveVlans Iface := {}.
#[export] Instance link_vlans : CanHaveVlans VlanLink := {}.

Record NetworkBuilder (T : DeviceType) := mk_builder { built : NetworkConfig }.
Arguments mk_builder {T} _.
Arguments built {T} _.
Definition on_built {T} (f : NetworkConfig → NetworkConfig) (b : NetworkBuilder T) : NetworkBuilder T :=
  mk_builder (f (built b)).

Definition new_interface (id : InterfaceId) : NetworkBuilder Iface := mk_builder (new_with_id id).
Definition new_bond (name : InterfaceName) : NetworkBuilder Bond :=
  mk_builder (network_mut (set_configure_wo_carrier (Some true)) (new_with_name name)).
Definition with_bind_carrier (interfaces : list InterfaceName) (b : NetworkBuilder Bond) : NetworkBuilder Bond :=
  on_built (network_mut (set_bind_carrier interfaces)) b.
Definition new_bond_worker (name : InterfaceName) : NetworkBuilder BondWorker :=
  mk_builder (network_mut (set_link_local (Some DhcpNo)) (new_with_name name)).
Definition bound_to_bond (bond : InterfaceName) (b : NetworkBuilder BondWorker) : NetworkBuilder BondWorker :=
  on_built (network_mut (set_bond (Some bond))) b.
Definition set_primary_bond_worker (b : NetworkBuilder BondWorker) : NetworkBuilder BondWorker :=
  on_built (network_mut (set_primary_worker (Some true))) b.
Definition new_vlan (name : InterfaceName) : NetworkBuilder Vlan :=
  mk_builder (network_mut (set_configure_wo_carrier (Some true)) (new_with_name name)).
Definition new_vlan_link (id : InterfaceId) : NetworkBuilder VlanLink :=
  mk_builder (network_mut (set_accept_ra (Some false)) (network_mut (set_link_local (Some DhcpNo)) (new_with_id id))).

Definition with_vlan {T} `{CanHaveVlans T} (v : InterfaceName) (b : NetworkBuilder T) : NetworkBuilder T :=
  on_built (network_mut (λ s, set_vlan (vlan s ++ [v]) s)) b.
Definition with_vlans {T} `{CanHaveVlans T} (vlans : list InterfaceName) (b : NetworkBuilder T) : NetworkBuilder T :=
  foldl (λ b v, with_vlan v b) b vlans.

Definition dhcp4_enabled (d : Dhcp4ConfigV1) : bool :=
  match d with Dhcp4Enabled b => b | Dhcp4WithOptions o => enabled4 o end.
Definition dhcp4_required (d : Dhcp4ConfigV1) : bool :=
  match d with
  | Dhcp4Enabled enabled => enabled
  | Dhcp4WithOptions o => match optional4 o with None => true | Some b => negb b end
  end.
Definition dhcp4_metric (d : Dhcp4ConfigV1) : option Z :=
  match d with Dhcp4Enabled _ => None | Dhcp4WithOptions o => metric4 o end.
Definition dhcp6_enabled (d : Dhcp6ConfigV1) : bool :=
  match d with Dhcp6Enabled b => b | Dhcp6WithOptions o => enabled6 o end.
Definition dhcp6_required (d : Dhcp6ConfigV1) : bool :=
  match d with
  | Dhcp6Enabled enabled => enabled
  | Dhcp6WithOptions o => match optional6 o with None => true | Some b => negb b end
  end.

Section not_bonded.
Context {T : DeviceType} `{NotBonded T}.

Definition dhcp_choice (dhcp4 dhcp6 : bool) : DhcpBool :=
  match dhcp4, dhcp6 with
  | true, true => DhcpYes | true, false => DhcpIpv4 | false, true => DhcpIpv6 | false, false => DhcpNo
  end.
Definition require_families (dhcp4 dhcp6 : bool) (link : LinkSection) : LinkSection :=
  match dhcp4, dhcp6 with
  | true, true => set_required_family (Some FamilyBoth) (set_required (Some true) link)
  | true, false => set_required_family (Some FamilyIpv4) (set_required (Some true) link)
  | false, true => set_required_family (Some FamilyIpv6) (set_required (Some true) link)
  | false, false => set_required (Some false) link
  end.
Definition when (b : bool) (f : NetworkConfig → NetworkConfig) (c : NetworkConfig) : NetworkConfig := if b then f c else c.

Definition with_dhcp_impl (dhcp4 : Dhcp4ConfigV1) (dhcp6 : Dhcp6ConfigV1) (b : NetworkBuilder T) : NetworkBuilder T :=
  on_built (λ c,
    let c := network_mut (set_dhcp (Some (dhcp_choice (dhcp4_enabled dhcp4) (dhcp6_enabled dhcp6)))) c in
    let c := link_mut (require_families (dhcp4_required dhcp4) (dhcp6_required dhcp6)) c in
    let c := when (dhcp4_enabled dhcp4)
               (dhcp4_mut (λ s, set_d4_mtu (Some true) (set_d4_metric (dhcp4_metric dhcp4) s))) c in
    let c := when (dhcp6_enabled dhcp6) (ipv6_accept_ra_mut (set_ra_mtu (Some true))) c in
    when (dhcp4_enabled dhcp4 || dhcp6_enabled dhcp6) (network_mut (set_keep (Some KeepDhcp))) c) b.

Definition with_dhcp4 (dhcp4 : Dhcp4ConfigV1) (b : NetworkBuilder T) : NetworkBuilder T :=
  on_built (λ c,
    let c := network_mut (set_dhcp (Some (if dhcp4_enabled dhcp4 then DhcpIpv4 else DhcpNo))) c in
    let c := link_mut (set_required (Some (dhcp4_required dhcp4))) c in
    when (dhcp4_enabled dhcp4) (λ c,
      network_mut (set_keep (Some KeepDhcp))
        (dhcp4_mut (λ s, set_d4_mtu (Some true) (set_d4_metric (dhcp4_metric dhcp4) s)) c)) c) b.

Definition with_dhcp6 (dhcp6 : Dhcp6ConfigV1) (b : NetworkBuilder T) : NetworkBuilder T :=
  on_built (λ c,
    let c := network_mut (set_dhcp (Some (if dhcp6_enabled dhcp6 then DhcpIpv6 else DhcpNo))) c in
    let c := link_mut (set_required (Some (dhcp6_required dhcp6))) c in
    when (dhcp6_enabled dhcp6) (λ c,
      network_mut (set_keep (Some KeepDhcp)) (ipv6_accept_ra_mut (set_ra_mtu (Some true)) c)) c) b.

Definition with_dhcp (dhcp4 : option Dhcp4ConfigV1) (dhcp6 : option Dhcp6ConfigV1) (b : NetworkBuilder T) : NetworkBuilder T :=
  match dhcp4, dhcp6 with
  | Some dhcp4, Some dhcp6 => with_dhcp_impl dhcp4 dhcp6 b
  | Some dhcp4, None => with_dhcp4 dhcp4 b
  | None, Some dhcp6 => with_dhcp6 dhcp6 b
  | None, None => b
  end.

Definition with_static_config (static_config : StaticConfigV1) (b : NetworkBuilder T) : NetworkBuilder T :=
  on_built (network_mut (λ s, set_addresses (addresses s ++ st_addresses static_config) s)) b.

Definition disable_ipv6 (b : NetworkBuilder T) : NetworkBuilder T :=
  on_built (λ c, network_mut (set_accept_ra (Some false)) (network_mut (set_link_local (Some DhcpIpv4)) c)) b.

Definition DEFAULT_ROUTE_IPV4 : IpNet := mk_ipnet (V4 0) 0.
Definition DEFAULT_ROUTE_IPV6 : IpNet := mk_ipnet (V6 0) 0.
Definition route_destination (route : RouteV1) : IpNet :=
  match route_to route with
  | DefaultRoute =>
      match match route_via route with Some via => Some via | None => route_from route end with
      | Some (V4 _) => DEFAULT_ROUTE_IPV4
      | Some (V6 _) => DEFAULT_ROUTE_IPV6
      | None => DEFAULT_ROUTE_IPV4
      end
  | ToNet ip => ip
  end.
Definition route_section_of (route : RouteV1) : RouteSection :=
  mk_route_section (Some (route_destination route)) (route_via route) (route_metric route) (route_from route).
Definition with_route (route : RouteV1) (b : NetworkBuilder T) : NetworkBuilder T :=
  on_built (push_route (route_section_of route)) b.
Definition with_routes (routes : list RouteV1) (b : NetworkBuilder T) : NetworkBuilder T :=
  foldl (λ b r, with_route r b) b routes.
End not_bonded.

(** *** [config/netdev.rs] *)

Inductive NetDevKind := KindBond | KindVlan.
Definition kind_to_string (k : NetDevKind) : string := match k with KindBond => "bond" | KindVlan => "vlan" end.
Inductive BondMode := ModeActiveBackup.
Definition mode_to_string (m : BondMode) : string := match m with ModeActiveBackup => "active-backup" end.
Inductive ArpValidate := ValidateActive | ValidateAll | ValidateBackup | ValidateNone.
Definition validate_to_string (v : ArpValidate) : string :=
  match v with
  | ValidateActive => "active" | ValidateAll => "all" | ValidateBackup => "backup" | ValidateNone => "none"
  end.
Inductive ArpAllTargets := TargetsAll | TargetsAny.
Definition all_targets_to_string (t : ArpAllTargets) : string := match t with TargetsAll => "all" | TargetsAny => "any" end.
Inductive NetDevMacAddress := NetDevMac (m : MacAddress) | Nothing.
Definition netdev_mac_to_string (m : NetDevMacAddress) : string :=
  match m with NetDevMac m => mac_inner m | Nothing => "none" end.

Record NetDevSection := mk_netdev {
  nd_name : option InterfaceName; nd_kind : option NetDevKind; nd_mac_address : option NetDevMacAddress }.
Record VlanSection := mk_vlan_section { nd_id : option VlanId }.
Record BondSection := mk_bond_section {
  mode : option BondMode;
  min_links : option Z;
  mii_mon_secs : option Z;
  up_delay_sec : option Z;
  down_delay_sec : option Z;
  arp_interval_secs : option Z;
  arp_validate : option ArpValidate;
  arp_targets : list IpAddr;
  arp_all_targets : option ArpAllTargets }.
Record NetDevConfig := mk_netdev_config {
  netdev : option NetDevSection; nd_vlan : option VlanSection; nd_bond : option BondSection }.

Definition bond_section_default : BondSection := mk_bond_section None None None None None None None [] None.
Definition vlan_mut (f : VlanSection → VlanSection) (c : NetDevConfig) : NetDevConfig :=
  mk_netdev_config (netdev c) (Some (f (default (mk_vlan_section None) (nd_vlan c)))) (nd_bond c).
Definition bond_mut (f : BondSection → BondSection) (c : NetDevConfig) : NetDevConfig :=
  mk_netdev_config (netdev c) (nd_vlan c) (Some (f (default bond_section_default (nd_bond c)))).

Definition netdev_new_bond (name : InterfaceName) : NetDevConfig :=
  mk_netdev_config (Some (mk_netdev (Some name) (Some KindBond) (Some Nothing))) None None.
Definition with_mode (m : BondModeV1) : NetDevConfig → NetDevConfig :=
  bond_mut (λ s, mk_bond_section (Some match m with ActiveBackup => ModeActiveBackup end) (min_links s)
    (mii_mon_secs s) (up_delay_sec s) (down_delay_sec s) (arp_interval_secs s) (arp_validate s) (arp_targets s) (arp_all_targets s)).
Definition with_min_links (n : Z) : NetDevConfig → NetDevConfig :=
  bond_mut (λ s, mk_bond_section (mode s) (Some n)
    (mii_mon_secs s) (up_delay_sec s) (down_delay_sec s) (arp_interval_secs s) (arp_validate s) (arp_targets s) (arp_all_targets s)).
Definition with_miimon_config (m : MiiMonitoringConfigV1) : NetDevConfig → NetDevConfig :=
  bond_mut (λ s, mk_bond_section (mode s) (min_links s)
    (Some (frequency m)) (Some (updelay m)) (Some (downdelay m)) (arp_interval_secs s) (arp_validate s) (arp_targets s) (arp_all_targets s)).
Definition arp_validate_of (v : ArpValidateV1) : ArpValidate :=
  match v with
  | ArpActive => ValidateActive | ArpAll => ValidateAll | ArpBackup => ValidateBackup | ArpNone => ValidateNone
  end.
Definition with_arpmon_config (m : ArpMonitoringConfigV1) : NetDevConfig → NetDevConfig :=
  bond_mut (λ s, mk_bond_section (mode s) (min_links s) (mii_mon_secs s) (up_delay_sec s) (down_delay_sec s)
    (Some (interval m)) (Some (arp_validate_of (validate_mode m))) (arp_targets s ++ targets m) (Some TargetsAny)).
Definition netdev_new_vlan (name : InterfaceName) : NetDevConfig :=
  mk_netdev_config (Some (mk_netdev (Some name) (Some KindVlan) None)) None None.
Definition with_vlan_id (id : VlanId) : NetDevConfig → NetDevConfig := vlan_mut (λ s, mk_vlan_section (Some id)).

Section netdev_text.
Context `{IpText}.

Definition netdev_section (s : NetDevSection) : section_text := mk_section_text "NetDev"
  [opt_field "Name" name_inner (nd_name s); opt_field "Kind" kind_to_string (nd_kind s);
   opt_field "MACAddress" netdev_mac_to_string (nd_mac_address s)].
Definition vlan_section (s : VlanSection) : section_text := mk_section_text "VLAN"
  [opt_field "Id" (λ id, unsigned_to_string (vlan_id_inner id)) (nd_id s)].
Definition bond_section (s : BondSection) : section_text := mk_section_text "Bond"
  [opt_field "Mode" mode_to_string (mode s); opt_field "MinLinks" unsigned_to_string (min_links s);
   opt_field "MIIMonitorSec" unsigned_to_string (mii_mon_secs s); opt_field "UpDelaySec" unsigned_to_string (up_delay_sec s);
   opt_field "DownDelaySec" unsigned_to_string (down_delay_sec s);
   opt_field "ARPIntervalSec" unsigned_to_string (arp_interval_secs s);
   opt_field "ARPValidate" validate_to_string (arp_validate s);
   Values "ARPIPTargets" (ip_to_string <$> arp_targets s);
   opt_field "ARPAllTargets" all_targets_to_string (arp_all_targets s)].
Definition netdev_sections (c : NetDevConfig) : list section_text :=
  (netdev_section <$> opt_list (netdev c)) ++ (vlan_section <$> opt_list (nd_vlan c)) ++
  (bond_section <$> opt_list (nd_bond c)).
Definition netdev_to_string (c : NetDevConfig) : string := unit_to_string (netdev_sections c).
End netdev_text.

Definition netdev_config_path (c : NetDevConfig) : result networkd_error string :=
  let? device_name := ok_or (n ← netdev c; nd_name n) (ConfigMissingName "netdev config") in
  Ok (config_file_path (name_inner device_name) "netdev").

(** *** [devices/] *)

Record NetworkDInterface := mk_nd_interface {
  ni_name : InterfaceId;
  ni_dhcp4 : option Dhcp4ConfigV1;
  ni_dhcp6 : option Dhcp6ConfigV1;
  ni_static4 : option StaticConfigV1;
  ni_static6 : option StaticConfigV1;
  ni_routes : option (list RouteV1) }.
Record NetworkDBond := mk_nd_bond {
  nb_name : InterfaceName;
  nb_dhcp4 : option Dhcp4ConfigV1;
  nb_dhcp6 : option Dhcp6ConfigV1;
  nb_static4 : option StaticConfigV1;
  nb_static6 : option StaticConfigV1;
  nb_routes : option (list RouteV1);
  nb_mode : BondModeV1;
  nb_min_links : option Z;
  nb_monitoring : BondMonitoringConfigV1;
  nb_interfaces : list InterfaceName }.
Record NetworkDVlan := mk_nd_vlan {
  nv_name : InterfaceName;
  nv_dhcp4 : option Dhcp4ConfigV1;
  nv_dhcp6 : option Dhcp6ConfigV1;
  nv_static4 : option StaticConfigV1;
  nv_static6 : option StaticConfigV1;
  nv_routes : option (list RouteV1);
  nv_device : InterfaceName;
  nv_id : VlanId }.
Inductive NetworkDDevice := DInterface (i : NetworkDInterface) | DBond (b : NetworkDBond) | DVlan (v : NetworkDVlan).

Definition has_ipv6 (dhcp6 : option Dhcp6ConfigV1) (static6 : option StaticConfigV1) : bool :=
  match dhcp6 with None => false | Some d => dhcp6_enabled d end || is_some static6.

(** A map from devices to their VLANs, in iteration order. *)
Definition Vlans : Type := list (InterfaceName * list InterfaceName).
Fixpoint vlans_get (name : InterfaceName) (vlans : Vlans) : option (list InterfaceName) :=
  match vlans with
  | [] => None
  | (n, l) :: vlans => if decide (n = name) then Some l else vlans_get name vlans
  end.

(** [maybe_add_some!] *)
Definition maybe_add_some {A B} (method : A → B → B) (o : option A) (b : B) : B :=
  match o with Some thing => method thing b | None => b end.

(** The addressing of a device that is not bound to a bond. *)
Definition add_addressing {T} `{NotBonded T} (dhcp4 : option Dhcp4ConfigV1) (dhcp6 : option Dhcp6ConfigV1)
    (static4 static6 : option StaticConfigV1) (routes : option (list RouteV1)) (b : NetworkBuilder T) : NetworkBuilder T :=
  maybe_add_some with_routes routes
    (maybe_add_some with_static_config static6 (maybe_add_some with_static_config static4 (with_dhcp dhcp4 dhcp6 b))).
Definition maybe_disable_ipv6 {T} `{NotBonded T} (dhcp6 : option Dhcp6ConfigV1) (static6 : option StaticConfigV1)
    (b : NetworkBuilder T) : NetworkBuilder T :=
  if negb (has_ipv6 dhcp6 static6) then disable_ipv6 b else b.

Definition is_unconfigured (i : NetworkDInterface) : bool :=
  negb (is_some (ni_dhcp4 i)) && negb (is_some (ni_dhcp6 i)) && negb (is_some (ni_static4 i)) &&
  negb (is_some (ni_static6 i)) && negb (is_some (ni_routes i)).

Definition interface_networks (i : NetworkDInterface) (vlans : Vlans) : list NetworkConfig :=
  let attached_vlans := match ni_name i with Name n => vlans_get n vlans | Mac _ => None end in
  if is_unconfigured i && is_some attached_vlans then
    [built (maybe_add_some with_vlans attached_vlans (new_vlan_link (ni_name i)))]
  else
    let network := add_addressing (ni_dhcp4 i) (ni_dhcp6 i) (ni_static4 i) (ni_static6 i) (ni_routes i)
                     (new_interface (ni_name i)) in
    let network := maybe_add_some with_vlans attached_vlans network in
    [built (maybe_disable_ipv6 (ni_dhcp6 i) (ni_static6 i) network)].

Definition bond_netdev (b : NetworkDBond) : NetDevConfig :=
  let c := with_mode (nb_mode b) (netdev_new_bond (nb_name b)) in
  let c := maybe_add_some with_min_links (nb_min_links b) c in
  match nb_monitoring b with MiiMon miimon => with_miimon_config miimon c | ArpMon arpmon => with_arpmon_config arpmon c end.

Definition worker_network (bond : InterfaceName) (index : nat) (worker_name : InterfaceName) : NetworkConfig :=
  let worker := bound_to_bond bond (new_bond_worker worker_name) in
  built (if index =? 0 then set_primary_bond_worker worker else worker).
Definition bond_networks (b : NetworkDBond) (vlans : Vlans) : list NetworkConfig :=
  let network := add_addressing (nb_dhcp4 b) (nb_dhcp6 b) (nb_static4 b) (nb_static6 b) (nb_routes b)
                   (new_bond (nb_name b)) in
  let network := with_bind_carrier (nb_interfaces b) network in
  let network := maybe_add_some with_vlans (vlans_get (nb_name b) vlans) network in
  built (maybe_disable_ipv6 (nb_dhcp6 b) (nb_static6 b) network) :: imap (worker_network (nb_name b)) (nb_interfaces b).

Definition vlan_netdev (v : NetworkDVlan) : NetDevConfig := with_vlan_id (nv_id v) (netdev_new_vlan (nv_name v)).
Definition vlan_networks (v : NetworkDVlan) (_vlans : Vlans) : list NetworkConfig :=
  let network := add_addressing (nv_dhcp4 v) (nv_dhcp6 v) (nv_static4 v) (nv_static6 v) (nv_routes v)
                   (new_vlan (nv_name v)) in
  [built (maybe_disable_ipv6 (nv_dhcp6 v) (nv_static6 v) network)].

Inductive NetworkDConfigFile := Network (c : NetworkConfig) | NetDev (c : NetDevConfig).

Definition device_create_files (d : NetworkDDevice) (vlans : Vlans) : list NetworkDConfigFile :=
  match d with
  | DInterface i => Network <$> interface_networks i vlans
  | DBond b => NetDev (bond_netdev b) :: (Network <$> bond_networks b vlans)
  | DVlan v => NetDev (vlan_netdev v) :: (Network <$> vlan_networks v vlans)
  end.
Definition ndevice_name (d : NetworkDDevice) : InterfaceId :=
  match d with DInterface i => ni_name i | DBond b => Name (nb_name b) | DVlan v => Name (nv_name v) end.

(** *** [conversions.rs] *)

Definition from_interface1 (name : InterfaceName) (c : NetInterfaceV1) : NetworkDDevice :=
  DInterface (mk_nd_interface (Name name) (dhcp4_1 c) (dhcp6_1 c) None None None).
Definition from_interface2 (name : InterfaceId) (c : NetInterfaceV2) : NetworkDDevice :=
  DInterface (mk_nd_interface name (i_dhcp4 c) (i_dhcp6 c) (i_static4 c) (i_static6 c) (i_routes c)).
Definition from_bond (name : InterfaceId) (c : NetBondV1) : result net_error NetworkDDevice :=
  match name with
  | Name n => Ok (DBond (mk_nd_bond n (b_dhcp4 c) (b_dhcp6 c) (b_static4 c) (b_static6 c) (b_routes c)
                          (b_mode c) (b_min_links c) (b_monitoring c) (b_interfaces c)))
  | Mac _ => Err (InvalidWithMac "bond")
  end.
Definition from_vlan (name : InterfaceId) (c : NetVlanV1) : result net_error NetworkDDevice :=
  match name with
  | Name n => Ok (DVlan (mk_nd_vlan n (v_dhcp4 c) (v_dhcp6 c) (v_static4 c) (v_static6 c) (v_routes c) (v_device c) (v_id c)))
  | Mac _ => Err (InvalidWithMac "vlan")
  end.
Definition from_device (name : InterfaceId) (d : NetworkDeviceV1) : result net_error NetworkDDevice :=
  match d with
  | Interface i => Ok (from_interface2 name i)
  | BondDevice b => from_bond name b
  | VlanDevice v => from_vlan name v
  end.

(** *** [networkd/mod.rs] *)

Record NetworkDConfig := mk_networkd { devices : list NetworkDDevice; vlans : Vlans }.

(** [entry(..).or_insert_with(Vec::new).push(..)] *)
Fixpoint push_vlan (device name : InterfaceName) (vlans : Vlans) : Vlans :=
  match vlans with
  | [] => [(device, [name])]
  | (n, l) :: vlans => if decide (n = device) then (n, l ++ [name]) :: vlans else (n, l) :: push_vlan device name vlans
  end.
Definition vlans_of (devices : list NetworkDDevice) : Vlans :=
  foldl (λ vlans d, match d with DVlan v => push_vlan (nv_device v) (nv_name v) vlans | _ => vlans end) [] devices.

Definition vlan_only_interface (name : InterfaceName) : NetworkDDevice :=
  DInterface (mk_nd_interface (Name name) None None None None None).
Definition missing_links (devices : list NetworkDDevice) (vlans : Vlans) : list NetworkDDevice :=
  vlan_only_interface <$> filter (λ n, Name n ∉ ndevice_name <$> devices) vlans.*1.

(** The iteration order of the map [vlans]. *)
Class VlanOrder := {
  vlan_order : Vlans → Vlans;
  vlan_order_perm v : vlan_order v ≡ₚ v }.

Fixpoint mapM_result {E A B} (f : A → result E B) (l : list A) : result E (list B) :=
  match l with
  | [] => Ok []
  | a :: l => let? b := f a in let? l := mapM_result f l in Ok (b :: l)
  end.
Definition networkd_new `{VlanOrder} {T} (convert : T → result net_error NetworkDDevice) (network_devices : list T) :
    result net_error NetworkDConfig :=
  let? devices := mapM_result convert network_devices in
  let vlans := vlan_order (vlans_of devices) in
  Ok (mk_networkd (devices ++ missing_links devices vlans) vlans).

Definition create_files (c : NetworkDConfig) : list NetworkDConfigFile :=
  devices c ≫= λ d, device_create_files d (vlans c).

(** [as_networkd_config] of each version. *)
Definition as_networkd_config `{VlanOrder} (c : NetConfig) : result net_error NetworkDConfig :=
  match c with
  | ConfigV1 c => networkd_new (λ '(name, c), Ok (from_interface1 name c)) (interfaces1 c)
  | ConfigV2 c => networkd_new (λ '(name, c), Ok (from_interface2 (Name name) c)) (interfaces2 c)
  | ConfigV3 c => networkd_new (λ '(name, d), from_device name d) (net_devices c)
  end.

Definition file_path (f : NetworkDConfigFile) : result networkd_error string :=
  match f with Network c => network_config_path c | NetDev c => netdev_config_path c end.
Definition file_to_string `{IpText} (f : NetworkDConfigFile) : string :=
  match f with Network c => network_to_string c | NetDev c => netdev_to_string c end.

(** ** File names *)

(** The part of a file's name that comes from a device. *)
Definition id_file_name (id : InterfaceId) : string :=
  match id with Name n => name_inner n | Mac m => str_delete COLON (mac_inner m) end.

Lemma str_delete_app c s t : str_delete c (s +:+ t) = str_delete c s +:+ str_delete c t.
Proof. induction s as [|a s IH]; cbn; [done|]. case_decide; [done|]. by rewrite str_app_cons, IH. Qed.
Lemma str_delete_none c s : no_char c s → str_delete c s = s.
Proof.
  unfold no_char. induction s as [|a s IH]; cbn; [done|]. intros [Ha%bool_decide_eq_false_1 Hs]%orb_false_iff.
  rewrite decide_False by done. by rewrite IH.
Qed.

Lemma str_delete_join os : Forall (no_char COLON) os → str_delete COLON (str_join ":" os) = str_concat os.
Proof.
  induction 1 as [|o os Ho Hall IH]; [done|]. destruct os as [|o2 os].
  - cbn [str_join str_concat]. by rewrite str_delete_none, str_app_nil_r.
  - rewrite str_join_cons, !str_delete_app, IH, (str_delete_none _ o) by done. done.
Qed.

Lemma str_app_inj_len a b s t : str_len a = str_len b → a +:+ s = b +:+ t → a = b ∧ s = t.
Proof.
  revert b. induction a as [|c a IH]; intros [|d b]; try done. rewrite !str_app_cons.
  intros [= Hl] [= -> Hst]. by destruct (IH b Hl Hst) as [-> ->].
Qed.

Lemma str_concat_inj n os os' :
  length os = length os' → Forall (λ o, str_len o = n) os → Forall (λ o, str_len o = n) os' →
  str_concat os = str_concat os' → os = os'.
Proof.
  intros Hlen Hall. revert os' Hlen. induction Hall as [|o os Ho Hall IH]; intros [|o' os']; try done.
  intros [= Hlen] [Ho' Hall']%Forall_cons. cbn. intros [-> Hc]%str_app_inj_len; [|by rewrite Ho]. f_equal. by apply IH.
Qed.

Lemma mac_file_name_inj m m' :
  mac_shape m → mac_shape m' → str_delete COLON (mac_inner m) = str_delete COLON (mac_inner m') → m = m'.
Proof.
  destruct m as [i], m' as [i']. intros (os & Hi & Hl & Hall) (os' & Hi' & Hl' & Hall'). cbn in *. subst.
  assert (∀ l, Forall (λ o, str_len o = 2 ∧ no_char COLON o ∧ no_char DASH o ∧ str_map ascii_lower o = o ∧
                          is_Some (parse_hex 8 o)) l → Forall (no_char COLON) l ∧ Forall (λ o, str_len o = 2) l) as Hsplit.
  { intros l Hf. split; (eapply Forall_impl; [exact Hf|]); cbn; tauto. }
  destruct (Hsplit _ Hall), (Hsplit _ Hall'). rewrite !str_delete_join by done. intros Hc.
  f_equal. f_equal. apply (str_concat_inj 2); [congruence|done..].
Qed.

(** The identifiers of the [.network] files of a device, and of its [.netdev] file. *)
Definition network_ids (d : NetworkDDevice) : list InterfaceId :=
  match d with
  | DInterface i => [ni_name i]
  | DBond b => Name (nb_name b) :: (Name <$> nb_interfaces b)
  | DVlan v => [Name (nv_name v)]
  end.
Definition netdev_ids (d : NetworkDDevice) : list InterfaceId :=
  match d with DInterface _ => [] | DBond b => [Name (nb_name b)] | DVlan v => [Name (nv_name v)] end.

(** What a [.network] file is for. *)
Definition network_match (c : NetworkConfig) : option InterfaceId :=
  match c_match c with
  | Some m => match m_name m, permanent_mac_address m with
              | Some n, [] => Some (Name n) | None, [mac] => Some (Mac mac) | _, _ => None
              end
  | None => None
  end.
Definition netdev_for (c : NetDevConfig) : option InterfaceId := s ← netdev c; Name <$> nd_name s.

(** The builders only ever change other sections than [Match]. *)
Lemma network_match_id id : network_match (new_with_id id) = Some id.
Proof. by destruct id. Qed.
Lemma on_built_match {T} f (b : NetworkBuilder T) :
  (∀ c, c_match (f c) = c_match c) → c_match (built (on_built f b)) = c_match (built b).
Proof. intros Hf. unfold on_built. cbn. apply Hf. Qed.

Lemma with_dhcp_match {T} `{NotBonded T} dhcp4 dhcp6 (b : NetworkBuilder T) :
  c_match (built (with_dhcp dhcp4 dhcp6 b)) = c_match (built b).
Proof.
  unfold with_dhcp, with_dhcp_impl, with_dhcp4, with_dhcp6.
  destruct dhcp4 as [dhcp4|], dhcp6 as [dhcp6|]; [..|done]; apply on_built_match; intros c; unfold when; cbn;
    by repeat case_match.
Qed.
Lemma foldl_match {T A} (f : A → NetworkBuilder T → NetworkBuilder T) l b :
  (∀ a b, c_match (built (f a b)) = c_match (built b)) →
  c_match (built (foldl (λ b a, f a b) b l)) = c_match (built b).
Proof. intros Hf. revert b. induction l as [|a l IH]; intros b; cbn; [done|]. by rewrite IH. Qed.
Lemma maybe_match {T A} (f : A → NetworkBuilder T → NetworkBuilder T) o b :
  (∀ a b, c_match (built (f a b)) = c_match (built b)) →
  c_match (built (maybe_add_some f o b)) = c_match (built b).
Proof. intros Hf. destruct o; cbn; [apply Hf|done]. Qed.
Lemma add_addressing_match {T} `{NotBonded T} dhcp4 dhcp6 static4 static6 routes (b : NetworkBuilder T) :
  c_match (built (add_addressing dhcp4 dhcp6 static4 static6 routes b)) = c_match (built b).
Proof.
  unfold add_addressing. rewrite !maybe_match; [apply with_dhcp_match|done|done|].
  intros l b'. by apply foldl_match.
Qed.
Lemma maybe_disable_match {T} `{NotBonded T} dhcp6 static6 (b : NetworkBuilder T) :
  c_match (built (maybe_disable_ipv6 dhcp6 static6 b)) = c_match (built b).
Proof. unfold maybe_disable_ipv6. by destruct (negb _). Qed.
Lemma with_vlans_match {T} `{CanHaveVlans T} l (b : NetworkBuilder T) :
  c_match (built (with_vlans l b)) = c_match (built b).
Proof. by apply foldl_match. Qed.

Definition file_key (f : NetworkDConfigFile) : option (InterfaceId * string) :=
  match f with
  | Network c => (λ id, (id, "network")) <$> network_match c
  | NetDev c => (λ id, (id, "netdev")) <$> netdev_for c
  end.
Definition device_keys (d : NetworkDDevice) : list (InterfaceId * string) :=
  ((λ id, (id, "netdev")) <$> netdev_ids d) ++ ((λ id, (id, "network")) <$> network_ids d).
Definition key_path (k : InterfaceId * string) : string := config_file_path (id_file_name k.1) k.2.

Lemma file_path_key f k : file_key f = Some k → file_path f = Ok (key_path k).
Proof.
  destruct f as [c|c]; cbn; intros (id & Hid & ->)%fmap_Some.
  - unfold network_match in Hid. unfold network_config_path. destruct (c_match c) as [m|]; [|done].
    cbn. destruct (m_name m), (permanent_mac_address m) as [|? []]; try done; by injection Hid as <-.
  - unfold netdev_for in Hid. unfold netdev_config_path. destruct (netdev c) as [s|]; [|done]. cbn in *.
    destruct (nd_name s); [|done]. by injection Hid as <-.
Qed.

Lemma network_match_eq c c' : c_match c = c_match c' → network_match c = network_match c'.
Proof. unfold network_match. by intros ->. Qed.

Lemma interface_networks_match i vl : network_match <$> interface_networks i vl = [Some (ni_name i)].
Proof.
  unfold interface_networks. destruct (_ && _); cbn; f_equal; rewrite <-(network_match_id (ni_name i)); apply network_match_eq.
  - rewrite maybe_match by (intros; apply with_vlans_match). done.
  - rewrite maybe_disable_match, maybe_match by (intros; apply with_vlans_match). by rewrite add_addressing_match.
Qed.

Lemma bond_networks_match b vl :
  network_match <$> bond_networks b vl = Some <$> network_ids (DBond b).
Proof.
  unfold bond_networks. cbn. f_equal.
  - rewrite <-(network_match_id (Name (nb_name b))). apply network_match_eq.
    rewrite maybe_disable_match, maybe_match by (intros; apply with_vlans_match).
    etrans; [by apply on_built_match|]. by rewrite add_addressing_match.
  - apply list_eq. intros k. rewrite !list_lookup_fmap, list_lookup_imap.
    destruct (nb_interfaces b !! k) as [w|]; [|done]. cbn. unfold worker_network. by destruct (_ =? 0).
Qed.

Lemma vlan_networks_match v vl : network_match <$> vlan_networks v vl = [Some (Name (nv_name v))].
Proof.
  unfold vlan_networks. cbn. f_equal. rewrite <-(network_match_id (Name (nv_name v))). apply network_match_eq.
  by rewrite maybe_disable_match, add_addressing_match.
Qed.

Lemma bond_netdev_for b : netdev_for (bond_netdev b) = Some (Name (nb_name b)).
Proof. unfold bond_netdev. by destruct (nb_min_links b), (nb_monitoring b). Qed.

Lemma network_keys (cs : list NetworkConfig) (ids : list InterfaceId) :
  network_match <$> cs = Some <$> ids → file_key <$> (Network <$> cs) = Some <$> ((λ id, (id, "network")) <$> ids).
Proof.
  revert ids. induction cs as [|c cs IH]; intros [|id ids]; try done. cbn. intros [= Hc Hcs].
  rewrite Hc. cbn. f_equal. by apply IH.
Qed.

Lemma device_create_files_keys d vl : file_key <$> device_create_files d vl = Some <$> device_keys d.
Proof.
  destruct d as [i|b|v]; cbn [device_create_files].
  - rewrite (network_keys _ [ni_name i]); [done|]. apply interface_networks_match.
  - rewrite fmap_cons, (network_keys _ (network_ids (DBond b))) by apply bond_networks_match.
    unfold device_keys. cbn. by rewrite bond_netdev_for.
  - rewrite fmap_cons, (network_keys _ [Name (nv_name v)]) by apply vlan_networks_match. done.
Qed.

Lemma create_files_keys n : file_key <$> create_files n = Some <$> (devices n ≫= device_keys).
Proof.
  unfold create_files. induction (devices n) as [|d ds IH]; [done|].
  cbn [mbind list_bind]. by rewrite !fmap_app, IH, device_create_files_keys.
Qed.

(** ** VLANs *)

(** The VLANs on a device, in the order of the configuration. *)
Definition attached (name : InterfaceName) (ds : list NetworkDDevice) : list InterfaceName :=
  omap (λ d, match d with
             | DVlan v => if decide (nv_device v = name) then Some (nv_name v) else None
             | _ => None
             end) ds.

Lemma push_vlan_get device name vl n :
  vlans_get n (push_vlan device name vl) =
  if decide (n = device) then Some (default [] (vlans_get n vl) ++ [name]) else vlans_get n vl.
Proof.
  induction vl as [|[m l] vl IH]; cbn [push_vlan vlans_get].
  - by repeat case_decide; subst.
  - destruct (decide (m = device)) as [->|Hne]; cbn [vlans_get].
    + destruct (decide (device = n)) as [->|]; [by rewrite decide_True|]. by rewrite decide_False.
    + rewrite IH. destruct (decide (m = n)) as [->|]; [by rewrite decide_False|]. done.
Qed.
Lemma push_vlan_keys device name vl :
  (push_vlan device name vl).*1 = if decide (device ∈ vl.*1) then vl.*1 else vl.*1 ++ [device].
Proof.
  induction vl as [|[m l] vl IH]; cbn [push_vlan].
  { cbn. rewrite decide_False; [done|]. by intros ?%elem_of_nil. }
  destruct (decide (m = device)) as [->|Hne]; cbn [fmap list_fmap fst].
  - rewrite decide_True; [done|]. by left.
  - fold (@fst InterfaceName (list InterfaceName) <$> push_vlan device name vl). rewrite IH.
    repeat case_decide; set_solver.
Qed.

Lemma vlans_of_snoc ds d :
  vlans_of (ds ++ [d]) = match d with DVlan v => push_vlan (nv_device v) (nv_name v) (vlans_of ds) | _ => vlans_of ds end.
Proof. unfold vlans_of. by rewrite foldl_app. Qed.

Lemma vlans_of_get ds n :
  vlans_get n (vlans_of ds) = if decide (attached n ds = []) then None else Some (attached n ds).
Proof.
  induction ds as [|d ds IH] using rev_ind; [done|]. rewrite vlans_of_snoc. unfold attached in *. rewrite omap_app. cbn.
  destruct d as [i|b|v]; cbn; [by rewrite app_nil_r..|]. rewrite push_vlan_get, IH.
  destruct (decide (n = nv_device v)) as [->|Hne].
  - rewrite (decide_True (P := nv_device v = nv_device v)) by done.
    rewrite (decide_False (P := _ ++ _ = [])) by (by destruct (omap _ ds)). by case_decide as E; rewrite ?E.
  - rewrite (decide_False (P := nv_device v = n)) by done. cbn. by rewrite app_nil_r.
Qed.

Lemma vlans_of_NoDup ds : NoDup (vlans_of ds).*1.
Proof.
  induction ds as [|d ds IH] using rev_ind; [constructor|]. rewrite vlans_of_snoc.
  destruct d as [i|b|v]; [done..|]. rewrite push_vlan_keys. case_decide; [done|].
  apply NoDup_app. split_and!; [done|set_solver|by apply NoDup_singleton].
Qed.

Lemma vlans_get_elem n l vl : NoDup vl.*1 → vlans_get n vl = Some l ↔ (n, l) ∈ vl.
Proof.
  induction vl as [|[m k] vl IH]; cbn; [intros _; split; [done|by intros ?%elem_of_nil]|].
  intros [Hm Hnd]%NoDup_cons. rewrite elem_of_cons. case_decide as E.
  - subst m. split; [intros [= ->]; by left|]. intros [[= ->]|Hin]; [done|]. exfalso. apply Hm.
    apply list_elem_of_fmap. by exists (n, l).
  - rewrite IH by done. split; [by right|]. intros [[= ? ?]|?]; congruence.
Qed.

(** ** The devices of a valid configuration *)

(** A configuration that was read: the keys of a table differ, and it was validated. *)
Definition config_ok (c : NetConfig) : Prop :=
  NoDup (interfaces c) ∧
  match c with
  | ConfigV1 c => validate_v1 c = Ok tt | ConfigV2 c => validate_v2 c = Ok tt | ConfigV3 c => validate_v3 c = Ok tt
  end.

(** The devices of the configuration, in its order. *)
Definition config_devices (c : NetConfig) : result net_error (list NetworkDDevice) :=
  match c with
  | ConfigV1 c => mapM_result (λ '(name, c), Ok (from_interface1 name c)) (interfaces1 c)
  | ConfigV2 c => mapM_result (λ '(name, c), Ok (from_interface2 (Name name) c)) (interfaces2 c)
  | ConfigV3 c => mapM_result (λ '(name, d), from_device name d) (net_devices c)
  end.
Definition worker_ids (ds : list NetworkDDevice) : list InterfaceName :=
  ds ≫= λ d, match d with DBond b => nb_interfaces b | _ => [] end.

(** What validation gives for the devices. *)
Record devices_ok (ds : list NetworkDDevice) : Prop := {
  ids_NoDup : NoDup (ds ≫= network_ids);
  link_not_worker : ∀ v, DVlan v ∈ ds → nv_device v ∉ worker_ids ds }.

Lemma mapM_result_total {E A B} (f : A → result E B) (g : A → B) l :
  (∀ a, a ∈ l → f a = Ok (g a)) → mapM_result f l = Ok (g <$> l).
Proof.
  induction l as [|a l IH]; intros Hf; [done|]. cbn [mapM_result]. rewrite (Hf a) by (by left). cbn.
  by rewrite IH by (intros b Hb; apply Hf; by right).
Qed.

Lemma interfaces_devices_ok (ds : list NetworkDDevice) :
  Forall (λ d, match d with DInterface _ => True | _ => False end) ds → NoDup (ndevice_name <$> ds) → devices_ok ds.
Proof.
  intros Hall Hnd. assert (ds ≫= network_ids = ndevice_name <$> ds) as Hids.
  { clear Hnd. induction Hall as [|[i| |] ds Hd Hall IH]; [done| |done..]. cbn. by rewrite IH. }
  split; [by rewrite Hids|]. intros v Hv. by apply (proj1 (Forall_forall _ _) Hall) in Hv.
Qed.

(** The device of an entry of a valid table. *)
Definition device_of (e : InterfaceId * NetworkDeviceV1) : NetworkDDevice :=
  default (DInterface (mk_nd_interface e.1 None None None None None)) (ok (from_device e.1 e.2)).
Lemma device_of_ok e : entry_ok e → from_device e.1 e.2 = Ok (device_of e).
Proof. destruct e as [[n|m] [i|b|v]]; intros [_ ?]; done. Qed.

Lemma device_of_name e : entry_ok e → ndevice_name (device_of e) = e.1.
Proof. destruct e as [[n|m] [i|b|v]]; intros [_ ?]; done. Qed.

Lemma device_of_ids e : entry_ok e → network_ids (device_of e) = e.1 :: (Name <$> workers_of e.2).
Proof. destruct e as [[n|m] [i|b|v]]; intros [_ ?]; done. Qed.

Lemma device_of_workers e : entry_ok e → match device_of e with DBond b => nb_interfaces b | _ => [] end = workers_of e.2.
Proof. destruct e as [[n|m] [i|b|v]]; intros [_ ?]; done. Qed.

Lemma v3_devices_ok c :
  NoDup (net_devices c).*1 → validate_v3 c = Ok tt → devices_ok (device_of <$> net_devices c).
Proof.
  intros Hkeys (Hall & Hw & Hout & _)%validate_v3_Ok. destruct c as [l]. cbn [net_devices] in *.
  assert ((device_of <$> l) ≫= network_ids ≡ₚ l.*1 ++ (Name <$> workers l)) as Hids.
  { clear -Hall. induction Hall as [|e l He Hall IH]; [done|]. cbn. rewrite device_of_ids by done. cbn. f_equiv.
    rewrite IH, fmap_app. solve_Permutation. }
  assert (worker_ids (device_of <$> l) = workers l) as Hwids.
  { clear -Hall. unfold worker_ids, workers. induction Hall as [|e l He Hall IH]; [done|]. cbn. by rewrite IH, device_of_workers. }
  split.
  - rewrite Hids. apply NoDup_app. split; [done|]. split; [|by apply NoDup_fmap_2; [intros ?? [=]|]].
    intros id Hid (w & -> & Hin)%list_elem_of_fmap. by apply Hout in Hin as [? _].
  - intros v (e & Hv & Hin)%list_elem_of_fmap. rewrite Hwids. intros Hwk.
    apply Hout in Hwk as [_ Hdev]. pose proof (proj1 (Forall_forall _ _) Hall _ Hin) as He.
    destruct e as [[n|m] [i|b|v']]; try (by destruct He); try done. injection Hv as ->. by apply (Hdev (Name n) v').
Qed.

Lemma config_devices_ok c :
  config_ok c → ∃ ds, config_devices c = Ok ds ∧ ndevice_name <$> ds = interfaces c ∧ devices_ok ds.
Proof.
  intros [Hkeys Hv]. destruct c as [c|c|c]; cbn [interfaces config_devices] in *.
  - exists ((λ e, from_interface1 e.1 e.2) <$> interfaces1 c). split; [by apply mapM_result_total; intros []|].
    assert (ndevice_name <$> ((λ e, from_interface1 e.1 e.2) <$> interfaces1 c) = Name <$> (interfaces1 c).*1) as Hn.
    { by rewrite <-!list_fmap_compose. }
    split; [done|]. apply interfaces_devices_ok; [by apply Forall_fmap, Forall_true|by rewrite Hn].
  - exists ((λ e, from_interface2 (Name e.1) e.2) <$> interfaces2 c). split; [by apply mapM_result_total; intros []|].
    assert (ndevice_name <$> ((λ e, from_interface2 (Name e.1) e.2) <$> interfaces2 c) = Name <$> (interfaces2 c).*1) as Hn.
    { by rewrite <-!list_fmap_compose. }
    split; [done|]. apply interfaces_devices_ok; [by apply Forall_fmap, Forall_true|by rewrite Hn].
  - pose proof (v3_devices_ok c Hkeys Hv) as Hok. apply validate_v3_Ok in Hv as (Hall & _).
    exists (device_of <$> net_devices c). split; [|split; [|done]].
    + apply mapM_result_total. intros [id d] Hin. apply (proj1 (Forall_forall _ _) Hall) in Hin. by apply device_of_ok in Hin.
    + clear -Hall. induction Hall as [|e l He Hall IH]; [done|]. cbn. by rewrite IH, device_of_name.
Qed.

(** The devices that are written: those of the configuration and the links that only
    carry VLANs. *)
Definition with_links `{VlanOrder} (ds : list NetworkDDevice) : NetworkDConfig :=
  let vl := vlan_order (vlans_of ds) in mk_networkd (ds ++ missing_links ds vl) vl.

Section written.
Context `{VlanOrder}.

Lemma as_networkd_config_devices c : as_networkd_config c = let? ds := config_devices c in Ok (with_links ds).
Proof. by destruct c. Qed.

Lemma vlan_order_keys ds : NoDup (vlan_order (vlans_of ds)).*1.
Proof. rewrite vlan_order_perm. apply vlans_of_NoDup. Qed.

Lemma vlan_order_get ds n :
  vlans_get n (vlan_order (vlans_of ds)) = if decide (attached n ds = []) then None else Some (attached n ds).
Proof.
  rewrite <-vlans_of_get. apply option_eq. intros l.
  rewrite !vlans_get_elem by (apply vlan_order_keys || apply vlans_of_NoDup). by rewrite vlan_order_perm.
Qed.

Lemma vlan_key n ds : n ∈ (vlan_order (vlans_of ds)).*1 ↔ ∃ v, DVlan v ∈ ds ∧ nv_device v = n.
Proof.
  transitivity (is_Some (vlans_get n (vlan_order (vlans_of ds)))).
  - split.
    + intros ([m l] & -> & Hin)%list_elem_of_fmap. exists l. by apply vlans_get_elem; [apply vlan_order_keys|].
    + intros [l Hl%vlans_get_elem]; [|apply vlan_order_keys]. apply list_elem_of_fmap. by exists (n, l).
  - rewrite vlan_order_get. unfold attached. split.
    + case_decide as E; [by intros []|]. intros _. destruct (omap _ ds) as [|m l] eqn:Eo; [done|].
      assert (m ∈ m :: l) as Hm by by left. rewrite <-Eo in Hm. apply list_elem_of_omap in Hm as ([| |v] & Hin & Hd); try done.
      case_decide; [|done]. eauto.
    + intros (v & Hin & Hd). rewrite decide_False; [eauto|]. intros E.
      assert (nv_name v ∈ ([] : list InterfaceName)) as []%elem_of_nil. rewrite <-E.
      apply list_elem_of_omap. exists (DVlan v). split; [done|]. by rewrite decide_True.
Qed.

Lemma missing_links_ids ds :
  missing_links ds (vlan_order (vlans_of ds)) ≫= network_ids =
  Name <$> filter (λ n, Name n ∉ ndevice_name <$> ds) (vlan_order (vlans_of ds)).*1.
Proof. unfold missing_links. by induction (filter _ _) as [|n l IH]; [|cbn; rewrite IH]. Qed.

Lemma ids_cases ds id : id ∈ ds ≫= network_ids → id ∈ ndevice_name <$> ds ∨ ∃ w, id = Name w ∧ w ∈ worker_ids ds.
Proof.
  rewrite list_elem_of_bind. intros (d & Hid & Hd). destruct d as [i|b|v]; cbn in Hid.
  - apply list_elem_of_singleton in Hid as ->. left. apply list_elem_of_fmap. by exists (DInterface i).
  - apply elem_of_cons in Hid as [->|(w & -> & Hw)%list_elem_of_fmap].
    + left. apply list_elem_of_fmap. by exists (DBond b).
    + right. exists w. split; [done|]. apply list_elem_of_bind. by exists (DBond b).
  - apply list_elem_of_singleton in Hid as ->. left. apply list_elem_of_fmap. by exists (DVlan v).
Qed.

Lemma written_ids_NoDup ds : devices_ok ds → NoDup (devices (with_links ds) ≫= network_ids).
Proof.
  intros [Hids Hlink]. cbn. rewrite bind_app, missing_links_ids. apply NoDup_app. split; [done|]. split.
  - intros id Hid (n & -> & [Hn Hk]%list_elem_of_filter)%list_elem_of_fmap.
    apply ids_cases in Hid as [?|(w & [= <-] & Hw)]; [done|]. apply vlan_key in Hk as (v & Hv & <-).
    by apply (Hlink v Hv).
  - apply NoDup_fmap_2; [by intros ?? [=]|]. apply NoDup_filter, vlan_order_keys.
Qed.

Lemma netdev_ids_sublist ds : (ds ≫= netdev_ids) `sublist_of` (ds ≫= network_ids).
Proof.
  induction ds as [|d ds IH]; [done|]. cbn. apply sublist_app; [|done]. destruct d; cbn.
  - by apply sublist_nil_l.
  - apply sublist_skip, sublist_nil_l.
  - done.
Qed.

Lemma device_keys_NoDup ds : NoDup (ds ≫= network_ids) → NoDup (ds ≫= device_keys).
Proof.
  intros Hnd. assert (ds ≫= device_keys ≡ₚ
    ((λ id, (id, "netdev")) <$> (ds ≫= netdev_ids)) ++ ((λ id, (id, "network")) <$> (ds ≫= network_ids))) as ->.
  { clear Hnd. induction ds as [|d ds IH]; [done|]. cbn. rewrite IH, !fmap_app. unfold device_keys. solve_Permutation. }
  apply NoDup_app. split_and!.
  - apply NoDup_fmap_2; [by intros ?? [=]|]. eapply sublist_NoDup; [exact Hnd|apply netdev_ids_sublist].
  - intros k (id & -> & _)%list_elem_of_fmap (id' & [=] & _)%list_elem_of_fmap.
  - by apply NoDup_fmap_2; [intros ?? [=]|].
Qed.
End written.

Lemma str_app_inj_end a b s t : str_len s = str_len t → a +:+ s = b +:+ t → a = b ∧ s = t.
Proof.
  intros Hl E. apply str_app_inj_len; [|done]. apply (f_equal str_len) in E. rewrite !str_len_app in E. lia.
Qed.

Definition unit_ext (ext : string) : Prop := ext = "network" ∨ ext = "netdev".
Lemma config_file_path_inj a b e e' :
  unit_ext e → unit_ext e' → config_file_path a e = config_file_path b e' → a = b ∧ e = e'.
Proof.
  unfold config_file_path. intros He He' E. do 3 apply str_app_inj_l in E.
  assert (∀ a b, a +:+ ".network" = b +:+ ".netdev" → False) as Hne.
  { clear. intros a b E. change ".network" with (".networ" +:+ "k") in E. change ".netdev" with (".netde" +:+ "v") in E.
    rewrite !str_app_assoc in E. by apply str_app_inj_end in E as [_ [=]]. }
  destruct He as [-> | ->], He' as [-> | ->]; [| |by symmetry in E; destruct (Hne _ _ E)|];
    try (by destruct (Hne _ _ E)); by apply str_app_inj_end in E as [-> _].
Qed.

(** No interface is called like the digits of a configured MAC address. *)
Definition no_clash (ids : list InterfaceId) : Prop :=
  ∀ n m, Name n ∈ ids → Mac m ∈ ids → name_inner n ≠ str_delete COLON (mac_inner m).

Lemma id_file_name_inj ids id id' :
  (∀ m, Mac m ∈ ids → mac_shape m) → no_clash ids → id ∈ ids → id' ∈ ids →
  id_file_name id = id_file_name id' → id = id'.
Proof.
  intros Hmac Hclash Hid Hid'. destruct id as [[n]|m], id' as [[n']|m']; cbn; intros E.
  - by subst.
  - by destruct (Hclash _ _ Hid Hid').
  - by destruct (Hclash _ _ Hid' Hid).
  - f_equal. by apply mac_file_name_inj; [apply Hmac..|].
Qed.

Lemma device_keys_elem k ds : k ∈ ds ≫= device_keys → k.1 ∈ ds ≫= network_ids ∧ unit_ext k.2.
Proof.
  rewrite !list_elem_of_bind. intros (d & Hk & Hd). unfold device_keys in Hk.
  apply elem_of_app in Hk as [(id & -> & Hid)%list_elem_of_fmap|(id & -> & Hid)%list_elem_of_fmap]; cbn.
  - split; [|by right]. exists d. split; [|done]. destruct d; cbn in *; set_solver.
  - split; [|by left]. by exists d.
Qed.

Lemma paths_of_keys fs ks : file_key <$> fs = Some <$> ks → mapM_result file_path fs = Ok (key_path <$> ks).
Proof.
  revert ks. induction fs as [|f fs IH]; intros [|k ks]; try done. cbn. intros [= Hf Hfs].
  rewrite (file_path_key f k) by done. cbn. by rewrite (IH ks).
Qed.

Lemma NoDup_fmap_elem {A B} (f : A → B) l :
  (∀ a b, a ∈ l → b ∈ l → f a = f b → a = b) → NoDup l → NoDup (f <$> l).
Proof.
  intros Hf. induction 1 as [|a l Ha Hnd IH]; cbn; constructor.
  - intros (b & E & Hb)%list_elem_of_fmap. apply Ha. rewrite (Hf a b); [done|by left|by right|done].
  - apply IH. intros b c Hb Hc. by apply Hf; right.
Qed.

(** ** What the files say *)

Definition net (c : NetworkConfig) : NetworkSection := default network_section_default (c_network c).
Definition lnk (c : NetworkConfig) : LinkSection := default link_section_default (c_link c).

(** What stays the same when addressing is added. *)
Record keeps (c c' : NetworkConfig) : Prop := {
  keeps_vlan : vlan (net c') = vlan (net c);
  keeps_bond : bond (net c') = bond (net c);
  keeps_primary : primary_bond_worker (net c') = primary_bond_worker (net c);
  keeps_bind : bind_carrier (net c') = bind_carrier (net c);
  keeps_carrier : configure_wo_carrier (net c') = configure_wo_carrier (net c);
  keeps_local : link_local_addressing (net c') = link_local_addressing (net c);
  keeps_ra : n_ipv6_accept_ra (net c') = n_ipv6_accept_ra (net c) }.

Definition enabled_opt {A} (enabled : A → bool) (o : option A) : bool := match o with Some d => enabled d | None => false end.

(** DHCP of a device: the protocols that are enabled, and whether one of them is
    required; nothing without a DHCP setting. *)
Definition dhcp_spec (dhcp4 : option Dhcp4ConfigV1) (dhcp6 : option Dhcp6ConfigV1) (c : NetworkConfig) : Prop :=
  match dhcp4, dhcp6 with
  | None, None => dhcp (net c) = None ∧ required (lnk c) = None
  | _, _ =>
      dhcp (net c) = Some (dhcp_choice (enabled_opt dhcp4_enabled dhcp4) (enabled_opt dhcp6_enabled dhcp6)) ∧
      required (lnk c) = Some (enabled_opt dhcp4_required dhcp4 || enabled_opt dhcp6_required dhcp6)
  end.

Definition static_addresses (static4 static6 : option StaticConfigV1) : list IpNet :=
  match static4 with Some s => st_addresses s | None => [] end ++
  match static6 with Some s => st_addresses s | None => [] end.

Section spec.
Context {T : DeviceType} `{NotBonded T}.

Lemma with_dhcp_spec dhcp4 dhcp6 (b : NetworkBuilder T) :
  dhcp (net (built b)) = None → required (lnk (built b)) = None →
  let c := built (with_dhcp dhcp4 dhcp6 b) in
  dhcp_spec dhcp4 dhcp6 c ∧ keeps (built b) c ∧ addresses (net c) = addresses (net (built b)) ∧ c_route c = c_route (built b).
Proof.
  intros Hd Hr. unfold with_dhcp, with_dhcp_impl, with_dhcp4, with_dhcp6, dhcp_spec.
  destruct dhcp4 as [dhcp4|], dhcp6 as [dhcp6|]; cbn; unfold when, enabled_opt; [..|by split_and!; [done..|]].
  - destruct (dhcp4_enabled dhcp4), (dhcp6_enabled dhcp6), (dhcp4_required dhcp4), (dhcp6_required dhcp6); by split_and!.
  - destruct (dhcp4_enabled dhcp4), (dhcp4_required dhcp4); by split_and!.
  - destruct (dhcp6_enabled dhcp6), (dhcp6_required dhcp6); by split_and!.
Qed.

Lemma with_routes_built routes (b : NetworkBuilder T) :
  let c := built b in
  built (with_routes routes b) =
    mk_network_config (c_match c) (c_link c) (c_network c) (c_route c ++ (route_section_of <$> routes))
      (c_dhcp4 c) (c_dhcp6 c) (c_ipv6_accept_ra c).
Proof.
  cbn. revert b. induction routes as [|r routes IH]; intros b; cbn.
  - rewrite app_nil_r. by destruct b as [[]].
  - unfold with_routes in IH. rewrite IH. cbn. by rewrite <-app_assoc.
Qed.

Lemma with_static_spec static (b : NetworkBuilder T) :
  let c := built b in let c' := built (maybe_add_some with_static_config static b) in
  keeps c c' ∧ addresses (net c') = addresses (net c) ++ match static with Some s => st_addresses s | None => [] end ∧
  c_route c' = c_route c ∧ dhcp (net c') = dhcp (net c) ∧ lnk c' = lnk c.
Proof. destruct static as [s|]; cbn; [by split_and!|]. rewrite app_nil_r. by split_and!. Qed.
End spec.

Lemma keeps_trans c1 c2 c3 : keeps c1 c2 → keeps c2 c3 → keeps c1 c3.
Proof. intros [] []. split; congruence. Qed.

(** The addressing of a device, on top of a file without any. *)
Record addressed (dhcp4 : option Dhcp4ConfigV1) (dhcp6 : option Dhcp6ConfigV1)
    (static4 static6 : option StaticConfigV1) (routes : option (list RouteV1)) (c : NetworkConfig) : Prop := {
  addressed_dhcp : dhcp_spec dhcp4 dhcp6 c;
  addressed_static : addresses (net c) = static_addresses static4 static6;
  addressed_routes : c_route c = route_section_of <$> default [] routes }.

Lemma add_addressing_spec {T} `{NotBonded T} dhcp4 dhcp6 static4 static6 routes (b : NetworkBuilder T) :
  dhcp (net (built b)) = None → required (lnk (built b)) = None → addresses (net (built b)) = [] → c_route (built b) = [] →
  let c := built (add_addressing dhcp4 dhcp6 static4 static6 routes b) in
  addressed dhcp4 dhcp6 static4 static6 routes c ∧ keeps (built b) c.
Proof.
  intros Hd Hr Ha Hro. destruct (with_dhcp_spec dhcp4 dhcp6 b Hd Hr) as (Hdhcp & Hk1 & Ha1 & Hr1).
  pose proof (with_static_spec static4 (with_dhcp dhcp4 dhcp6 b)) as (Hk2 & Ha2 & Hr2 & Hd2 & Hl2).
  pose proof (with_static_spec static6 (maybe_add_some with_static_config static4 (with_dhcp dhcp4 dhcp6 b)))
    as (Hk3 & Ha3 & Hr3 & Hd3 & Hl3).
  unfold add_addressing. cbv zeta.
  set (b3 := maybe_add_some with_static_config static6 _) in *.
  assert (keeps (built b) (built b3)) as Hk by eauto using keeps_trans.
  assert (dhcp_spec dhcp4 dhcp6 (built b3)) as Hdhcp3.
  { unfold dhcp_spec in *. rewrite Hd3, Hd2, Hl3, Hl2. done. }
  assert (addresses (net (built b3)) = static_addresses static4 static6) as Ha4.
  { rewrite Ha3, Ha2, Ha1, Ha. done. }
  assert (c_route (built b3) = []) as Hr4 by congruence.
  destruct routes as [routes|]; cbn [maybe_add_some]; [rewrite with_routes_built|]; (split; [split|]); try done.
  - cbn. by rewrite Hr4.
  - destruct Hk. by split.
Qed.

(** IPv6 is off when the device configures nothing for it. *)
Definition ipv6_spec (dhcp6 : option Dhcp6ConfigV1) (static6 : option StaticConfigV1) (c : NetworkConfig) : Prop :=
  link_local_addressing (net c) = (if has_ipv6 dhcp6 static6 then None else Some DhcpIpv4) ∧
  n_ipv6_accept_ra (net c) = (if has_ipv6 dhcp6 static6 then None else Some false).

Lemma maybe_disable_spec {T} `{NotBonded T} dhcp6 static6 (b : NetworkBuilder T) :
  link_local_addressing (net (built b)) = None → n_ipv6_accept_ra (net (built b)) = None →
  let c := built b in let c' := built (maybe_disable_ipv6 dhcp6 static6 b) in
  ipv6_spec dhcp6 static6 c' ∧ vlan (net c') = vlan (net c) ∧ bind_carrier (net c') = bind_carrier (net c) ∧
  bond (net c') = bond (net c) ∧ dhcp (net c') = dhcp (net c) ∧ lnk c' = lnk c ∧
  addresses (net c') = addresses (net c) ∧ c_route c' = c_route c.
Proof.
  intros Hl Hr. unfold maybe_disable_ipv6, ipv6_spec. by destruct (has_ipv6 dhcp6 static6); cbn; split_and!.
Qed.

Lemma with_vlans_built {T} `{CanHaveVlans T} vlans (b : NetworkBuilder T) :
  built (maybe_add_some with_vlans vlans b) =
  match vlans with
  | Some ((_ :: _) as l) => network_mut (λ s, set_vlan (vlan s ++ l) s) (built b)
  | _ => built b
  end.
Proof.
  destruct vlans as [l|]; [|done]. cbn [maybe_add_some].
  assert (∀ v l (b : NetworkBuilder T),
    built (with_vlans (v :: l) b) = network_mut (λ s, set_vlan (vlan s ++ v :: l) s) (built b)) as Hc.
  { clear. intros v l. revert v. induction l as [|w l IH]; intros v b; [done|].
    change (with_vlans (v :: w :: l) b) with (with_vlans (w :: l) (with_vlan v b)).
    rewrite IH. cbn. unfold network_mut, set_vlan. cbn. by rewrite <-app_assoc. }
  destruct l as [|v l]; [done|apply Hc].
Qed.

(** ** The contents of the files of a device *)

Definition spec_file (id : InterfaceId) (dhcp4 : option Dhcp4ConfigV1) (dhcp6 : option Dhcp6ConfigV1)
    (static4 static6 : option StaticConfigV1) (routes : option (list RouteV1)) (vlans : list InterfaceName)
    (c : NetworkConfig) : Prop :=
  network_match c = Some id ∧ addressed dhcp4 dhcp6 static4 static6 routes c ∧ vlan (net c) = vlans ∧
  bond (net c) = None.

Lemma addressed_ext dhcp4 dhcp6 static4 static6 routes c c' :
  dhcp (net c') = dhcp (net c) → lnk c' = lnk c → addresses (net c') = addresses (net c) → c_route c' = c_route c →
  addressed dhcp4 dhcp6 static4 static6 routes c → addressed dhcp4 dhcp6 static4 static6 routes c'.
Proof.
  intros Hd Hl Ha Hr [Hdhcp Hs Hro]. split; [|congruence..]. unfold dhcp_spec in *. by rewrite Hd, Hl.
Qed.

(** A file without addressing. *)
Record fresh (c : NetworkConfig) : Prop := {
  fresh_dhcp : dhcp (net c) = None;
  fresh_required : required (lnk c) = None;
  fresh_addresses : addresses (net c) = [];
  fresh_route : c_route c = [];
  fresh_vlan : vlan (net c) = [];
  fresh_bond : bond (net c) = None;
  fresh_local : link_local_addressing (net c) = None;
  fresh_ra : n_ipv6_accept_ra (net c) = None }.

(** What may be added after the addressing: VLANs and the binding to workers. *)
Record extended (vlans : list InterfaceName) (c c' : NetworkConfig) : Prop := {
  extended_dhcp : dhcp (net c') = dhcp (net c);
  extended_link : lnk c' = lnk c;
  extended_addresses : addresses (net c') = addresses (net c);
  extended_route : c_route c' = c_route c;
  extended_vlan : vlan (net c') = vlan (net c) ++ vlans;
  extended_bond : bond (net c') = bond (net c);
  extended_local : link_local_addressing (net c') = link_local_addressing (net c);
  extended_ra : n_ipv6_accept_ra (net c') = n_ipv6_accept_ra (net c) }.

Lemma with_vlans_extended {T} `{CanHaveVlans T} vlans (b : NetworkBuilder T) :
  extended (default [] vlans) (built b) (built (maybe_add_some with_vlans vlans b)).
Proof. rewrite with_vlans_built. destruct vlans as [[]|]; split; cbn; by rewrite ?app_nil_r. Qed.

Lemma finished_file {T} `{NotBonded T} dhcp4 dhcp6 static4 static6 routes vlans (b b2 : NetworkBuilder T) :
  fresh (built b) → extended vlans (built (add_addressing dhcp4 dhcp6 static4 static6 routes b)) (built b2) →
  let c := built (maybe_disable_ipv6 dhcp6 static6 b2) in
  addressed dhcp4 dhcp6 static4 static6 routes c ∧ vlan (net c) = vlans ∧ bond (net c) = None ∧
  bind_carrier (net c) = bind_carrier (net (built b2)) ∧ ipv6_spec dhcp6 static6 c.
Proof.
  intros Hf He c. destruct (add_addressing_spec dhcp4 dhcp6 static4 static6 routes b) as (Had & Hk); [apply Hf..|].
  destruct (maybe_disable_spec dhcp6 static6 b2) as (Hv6 & Hv & Hbind & Hb & Hd & Hl & Ha & Hr).
  { by rewrite (extended_local _ _ _ He), (keeps_local _ _ Hk), (fresh_local _ Hf). }
  { by rewrite (extended_ra _ _ _ He), (keeps_ra _ _ Hk), (fresh_ra _ Hf). }
  subst c. split; [|split; [|split; [|split; [done|done]]]].
  - destruct He. eapply addressed_ext; [..|exact Had]; congruence.
  - by rewrite Hv, (extended_vlan _ _ _ He), (keeps_vlan _ _ Hk), (fresh_vlan _ Hf).
  - by rewrite Hb, (extended_bond _ _ _ He), (keeps_bond _ _ Hk), (fresh_bond _ Hf).
Qed.

Lemma interface_file i vl :
  let vlans := match ni_name i with Name n => vlans_get n vl | Mac _ => None end in
  ∃ c, interface_networks i vl = [c] ∧
    spec_file (ni_name i) (ni_dhcp4 i) (ni_dhcp6 i) (ni_static4 i) (ni_static6 i) (ni_routes i) (default [] vlans) c ∧
    (is_unconfigured i && is_some vlans = false → ipv6_spec (ni_dhcp6 i) (ni_static6 i) c).
Proof.
  cbv zeta. pose proof (interface_networks_match i vl) as Hm. unfold interface_networks in *.
  set (attached_vlans := match ni_name i with Name n => _ | Mac _ => _ end) in *.
  destruct (is_unconfigured i && is_some attached_vlans) eqn:Hun; (eexists; split; [reflexivity|]);
    injection Hm as Hm.
  - split; [|done]. split; [exact Hm|]. apply andb_true_iff in Hun as [Hun _]. unfold is_unconfigured in Hun.
    destruct (ni_dhcp4 i), (ni_dhcp6 i), (ni_static4 i), (ni_static6 i), (ni_routes i); try done.
    destruct (with_vlans_extended attached_vlans (new_vlan_link (ni_name i))) as [Hd Hl Ha Hr Hv Hb _ _].
    destruct (ni_name i); (split; [split|]); cbn in *; rewrite ?Hd, ?Hl, ?Ha, ?Hr, ?Hv, ?Hb; done.
  - destruct (finished_file (ni_dhcp4 i) (ni_dhcp6 i) (ni_static4 i) (ni_static6 i) (ni_routes i)
      (default [] attached_vlans) (new_interface (ni_name i)) (maybe_add_some with_vlans attached_vlans
        (add_addressing (ni_dhcp4 i) (ni_dhcp6 i) (ni_static4 i) (ni_static6 i) (ni_routes i) (new_interface (ni_name i)))))
      as (Had & Hv & Hb & _ & H6); [by destruct (ni_name i)|by apply with_vlans_extended|].
    split; [|done]. by split.
Qed.

Lemma vlan_file v vl :
  ∃ c, vlan_networks v vl = [c] ∧
    spec_file (Name (nv_name v)) (nv_dhcp4 v) (nv_dhcp6 v) (nv_static4 v) (nv_static6 v) (nv_routes v) [] c ∧
    ipv6_spec (nv_dhcp6 v) (nv_static6 v) c.
Proof.
  pose proof (vlan_networks_match v vl) as Hm. unfold vlan_networks in *. eexists. split; [reflexivity|].
  injection Hm as Hm.
  destruct (finished_file (nv_dhcp4 v) (nv_dhcp6 v) (nv_static4 v) (nv_static6 v) (nv_routes v) []
    (new_vlan (nv_name v)) (add_addressing (nv_dhcp4 v) (nv_dhcp6 v) (nv_static4 v) (nv_static6 v) (nv_routes v)
      (new_vlan (nv_name v)))) as (Had & Hv & Hb & _ & H6); [done| |by split].
  split; by rewrite ?app_nil_r.
Qed.

Lemma bond_file b vl :
  ∃ c, bond_networks b vl = c :: imap (worker_network (nb_name b)) (nb_interfaces b) ∧
    spec_file (Name (nb_name b)) (nb_dhcp4 b) (nb_dhcp6 b) (nb_static4 b) (nb_static6 b) (nb_routes b)
      (default [] (vlans_get (nb_name b) vl)) c ∧
    bind_carrier (net c) = nb_interfaces b ∧ ipv6_spec (nb_dhcp6 b) (nb_static6 b) c.
Proof.
  pose proof (bond_networks_match b vl) as Hm. unfold bond_networks in *. eexists. split; [reflexivity|].
  injection Hm as Hm _.
  set (b1 := with_bind_carrier (nb_interfaces b) _) in *.
  destruct (finished_file (nb_dhcp4 b) (nb_dhcp6 b) (nb_static4 b) (nb_static6 b) (nb_routes b)
    (default [] (vlans_get (nb_name b) vl)) (new_bond (nb_name b)) (maybe_add_some with_vlans (vlans_get (nb_name b) vl) b1))
    as (Had & Hv & Hb & Hbind & H6); [done| |].
  - destruct (with_vlans_extended (vlans_get (nb_name b) vl) b1). subst b1. by split.
  - split; [by split|]. split; [|done]. rewrite Hbind, with_vlans_built. subst b1.
    by destruct (vlans_get _ _) as [[]|].
Qed.

Lemma worker_file bond index w :
  let c := worker_network bond index w in
  network_match c = Some (Name w) ∧ Networkd.bond (net c) = Some bond ∧ vlan (net c) = [] ∧ addresses (net c) = [] ∧
  dhcp (net c) = None ∧ c_route c = [] ∧ link_local_addressing (net c) = Some DhcpNo ∧
  primary_bond_worker (net c) = (if index =? 0 then Some true else None).
Proof. unfold worker_network. by destruct (index =? 0). Qed.

(** The file of a device, given the VLANs on each name. *)
Definition device_file (on : InterfaceName → list InterfaceName) (d : NetworkDDevice) (f : NetworkConfig) : Prop :=
  match d with
  | DInterface i =>
      spec_file (ni_name i) (ni_dhcp4 i) (ni_dhcp6 i) (ni_static4 i) (ni_static6 i) (ni_routes i)
        (match ni_name i with Name n => on n | Mac _ => [] end) f ∧
      (is_unconfigured i = false → ipv6_spec (ni_dhcp6 i) (ni_static6 i) f)
  | DBond b =>
      spec_file (Name (nb_name b)) (nb_dhcp4 b) (nb_dhcp6 b) (nb_static4 b) (nb_static6 b) (nb_routes b)
        (on (nb_name b)) f ∧
      bind_carrier (net f) = nb_interfaces b ∧ ipv6_spec (nb_dhcp6 b) (nb_static6 b) f
  | DVlan v =>
      spec_file (Name (nv_name v)) (nv_dhcp4 v) (nv_dhcp6 v) (nv_static4 v) (nv_static6 v) (nv_routes v) [] f ∧
      ipv6_spec (nv_dhcp6 v) (nv_static6 v) f
  end.
(** The file of the k-th worker of a bond. *)
Definition worker_file_spec (bond : InterfaceName) (k : nat) (w : InterfaceName) (f : NetworkConfig) : Prop :=
  network_match f = Some (Name w) ∧ Networkd.bond (net f) = Some bond ∧ addresses (net f) = [] ∧
  dhcp (net f) = None ∧ c_route f = [] ∧ vlan (net f) = [] ∧
  primary_bond_worker (net f) = (if k =? 0 then Some true else None).

Section files.
Context `{VlanOrder}.

Lemma elem_of_create_files n d f :
  d ∈ devices n → f ∈ device_create_files d (vlans n) → f ∈ create_files n.
Proof. intros Hd Hf. apply list_elem_of_bind. by exists d. Qed.

Lemma with_links_file ds d :
  d ∈ devices (with_links ds) →
  ∃ f, Network f ∈ create_files (with_links ds) ∧ device_file (λ n, attached n ds) d f.
Proof.
  intros Hd. assert (∀ n, default [] (vlans_get n (vlan_order (vlans_of ds))) = attached n ds) as Hat.
  { intros n. rewrite vlan_order_get. by case_decide as E; rewrite ?E. }
  destruct d as [i|b|v].
  - destruct (interface_file i (vlans (with_links ds))) as (f & Hf & Hspec & H6). exists f. split.
    { eapply elem_of_create_files; [exact Hd|]. cbn [device_create_files]. rewrite Hf. by left. }
    split; [|by intros Hun; apply H6; rewrite Hun]. cbn [vlans with_links] in Hspec.
    by destruct (ni_name i) as [n|m]; [rewrite Hat in Hspec|].
  - destruct (bond_file b (vlans (with_links ds))) as (f & Hf & Hspec & Hbind & H6). exists f. split.
    { eapply elem_of_create_files; [exact Hd|]. cbn [device_create_files]. rewrite Hf. right. by left. }
    cbn [vlans with_links] in Hspec. rewrite Hat in Hspec. done.
  - destruct (vlan_file v (vlans (with_links ds))) as (f & Hf & Hspec & H6). exists f. split.
    { eapply elem_of_create_files; [exact Hd|]. cbn [device_create_files]. rewrite Hf. right. by left. }
    done.
Qed.

Lemma with_links_worker ds b k w :
  DBond b ∈ ds → nb_interfaces b !! k = Some w →
  ∃ f, Network f ∈ create_files (with_links ds) ∧ worker_file_spec (nb_name b) k w f.
Proof.
  intros Hb Hw. exists (worker_network (nb_name b) k w). split.
  - apply (elem_of_create_files _ (DBond b)); [by apply elem_of_app; left|]. right.
    apply list_elem_of_fmap. eexists. split; [done|]. right.
    apply list_elem_of_lookup. exists k. by rewrite list_lookup_imap, Hw.
  - destruct (worker_file (nb_name b) k w) as (? & ? & ? & ? & ? & ? & ? & ?). by split_and!.
Qed.

(** The device on which a VLAN is put gets a file, unless it is a VLAN itself. *)
Lemma vlan_link_device ds v :
  devices_ok ds → DVlan v ∈ ds → (∀ v', DVlan v' ∈ ds → nv_name v' ≠ nv_device v) →
  ∃ d, d ∈ devices (with_links ds) ∧ ndevice_name d = Name (nv_device v) ∧ match d with DVlan _ => False | _ => True end.
Proof.
  intros Hok Hv Hno. destruct (decide (Name (nv_device v) ∈ ndevice_name <$> ds)) as [Hin|Hout].
  - apply list_elem_of_fmap in Hin as (d & Hn & Hd). exists d. split; [by apply elem_of_app; left|].
    split; [done|]. destruct d as [| |v']; [done..|]. injection Hn as Hn. by apply (Hno v').
  - exists (vlan_only_interface (nv_device v)). split; [|done]. apply elem_of_app. right.
    apply list_elem_of_fmap. eexists. split; [done|]. apply list_elem_of_filter. split; [done|].
    apply vlan_key. eauto.
Qed.

Lemma vlan_attached ds v :
  devices_ok ds → DVlan v ∈ ds → (∀ v', DVlan v' ∈ ds → nv_name v' ≠ nv_device v) →
  ∃ f, Network f ∈ create_files (with_links ds) ∧ network_match f = Some (Name (nv_device v)) ∧ nv_name v ∈ vlan (net f).
Proof.
  intros Hok Hv Hno. destruct (vlan_link_device ds v Hok Hv Hno) as (d & Hd & Hn & Hd').
  destruct (with_links_file ds d Hd) as (f & Hf & Hs). exists f. split; [done|].
  assert (nv_name v ∈ attached (nv_device v) ds) as Hat.
  { apply list_elem_of_omap. exists (DVlan v). split; [done|]. by rewrite decide_True. }
  destruct d as [i|b|]; [..|done]; destruct Hs as [(Hm & _ & Hvl & _) _]; cbn in Hn.
  - rewrite Hn in Hm, Hvl. by rewrite Hvl.
  - injection Hn as Hn. rewrite Hn in Hm, Hvl. by rewrite Hvl.
Qed.
End files.

(** ** The lines of a unit file *)

Definition field_entries (f : field) : list (string * string) :=
  match f with
  | Values entry values => (λ v, (entry, v)) <$> values
  | Joined entry values => let joined := str_join " " values in if str_is_empty joined then [] else [(entry, joined)]
  end.
Definition section_entries (s : section_text) : string * list (string * string) :=
  (section_name s, fields s ≫= field_entries).

(** Texts that stay on their line. *)
Definition key_ok (key : string) : Prop :=
  no_char NEWLINE key ∧ no_char "=" key ∧ match key with String c _ => c ≠ "["%char | EmptyString => False end.
Definition field_ok (f : field) : Prop :=
  match f with
  | Values entry values | Joined entry values => key_ok entry ∧ Forall (no_char NEWLINE) values
  end.
Definition section_ok (s : section_text) : Prop := no_char NEWLINE (section_name s) ∧ Forall field_ok (fields s).

Definition entry_line (e : string * string) : string := e.1 +:+ "=" +:+ e.2.
Definition section_lines (s : section_text) : list string :=
  ("[" +:+ section_name s +:+ "]") :: (entry_line <$> (section_entries s).2).

Lemma str_concat_lines l : str_concat ((λ v, v +:+ NL) <$> l) = foldr (λ v t, v +:+ String NEWLINE t) EmptyString l.
Proof. induction l as [|v l IH]; [done|]. cbn. rewrite IH. by rewrite <-str_app_assoc. Qed.

Lemma str_split_lines l :
  Forall (no_char NEWLINE) l → str_split NEWLINE (str_concat ((λ v, v +:+ NL) <$> l)) = l ++ [EmptyString].
Proof.
  rewrite str_concat_lines. induction 1 as [|v l Hv Hall IH]; [done|]. cbn [foldr].
  by rewrite str_split_sep, (str_split_none _ v), IH by done.
Qed.

Lemma field_to_string_lines f : field_to_string f = str_concat ((λ v, v +:+ NL) <$> (entry_line <$> field_entries f)).
Proof.
  destruct f as [entry values|entry values]; cbn [field_to_string field_entries].
  - f_equal. rewrite <-!list_fmap_compose. apply list_fmap_ext. intros _ v _. unfold entry_line. cbn. by rewrite <-!str_app_assoc.
  - destruct (str_is_empty _); [done|]. unfold entry_line. cbn. by rewrite str_app_nil_r, <-!str_app_assoc.
Qed.

Lemma section_to_string_lines s : section_to_string s = str_concat ((λ v, v +:+ NL) <$> section_lines s).
Proof.
  unfold section_to_string, section_lines, section_entries. cbn [fmap list_fmap str_concat snd].
  assert (∀ fs, str_concat (field_to_string <$> fs) = str_concat ((λ v, v +:+ NL) <$> (entry_line <$> (fs ≫= field_entries))))
    as Hfs.
  { induction fs as [|f fs IH]; [done|]. cbn [mbind list_bind fmap list_fmap str_concat].
    rewrite !fmap_app, str_concat_app, <-IH. f_equal. apply field_to_string_lines. }
  by rewrite Hfs, <-!str_app_assoc.
Qed.

Lemma unit_to_string_lines ss : unit_to_string ss = str_concat ((λ v, v +:+ NL) <$> (ss ≫= section_lines)).
Proof.
  unfold unit_to_string. induction ss as [|s ss IH]; [done|]. cbn [fmap list_fmap str_concat mbind list_bind].
  rewrite fmap_app, str_concat_app. f_equal; [apply section_to_string_lines|exact IH].
Qed.

Lemma field_entries_ok f e : field_ok f → e ∈ field_entries f → key_ok e.1 ∧ no_char NEWLINE e.2.
Proof.
  destruct f as [entry values|entry values]; cbn; intros [Hk Hall].
  - intros (v & -> & Hv)%list_elem_of_fmap. split; [done|]. by apply (proj1 (Forall_forall _ _) Hall).
  - destruct (str_is_empty _); [by intros ?%elem_of_nil|]. intros ->%list_elem_of_singleton. split; [done|]. cbn.
    by apply no_char_join.
Qed.
Lemma section_entries_ok s e : section_ok s → e ∈ (section_entries s).2 → key_ok e.1 ∧ no_char NEWLINE e.2.
Proof.
  intros [_ Hall] (f & He & Hf)%list_elem_of_bind. eapply field_entries_ok; [|exact He].
  by apply (proj1 (Forall_forall _ _) Hall).
Qed.

Lemma section_lines_ok s : section_ok s → Forall (no_char NEWLINE) (section_lines s).
Proof.
  intros Hs. constructor.
  - rewrite !no_char_app. split; [done|]. split; [apply Hs|done].
  - apply Forall_fmap, Forall_forall. intros e He. destruct (section_entries_ok s e Hs He) as [(Hk & _) Hv].
    cbn. unfold entry_line. by rewrite !no_char_app.
Qed.

(** The lines of the text are those of the sections. *)
Lemma unit_lines ss : Forall section_ok ss → str_split NEWLINE (unit_to_string ss) = (ss ≫= section_lines) ++ [EmptyString].
Proof.
  intros Hall. rewrite unit_to_string_lines. apply str_split_lines.
  induction Hall as [|s ss Hs Hall IH]; [constructor|]. rewrite bind_cons. apply Forall_app_2; [by apply section_lines_ok|done].
Qed.

(** The names and addresses that a file holds. *)
Definition match_names (m : MatchSection) : list string :=
  (name_inner <$> opt_list (m_name m)) ++ (mac_inner <$> permanent_mac_address m).
Definition network_names (s : NetworkSection) : list string :=
  (name_inner <$> opt_list (bond s)) ++ (name_inner <$> vlan s) ++ (name_inner <$> bind_carrier s).
Definition netdev_names (s : NetDevSection) : list string :=
  (name_inner <$> opt_list (nd_name s)) ++ match nd_mac_address s with Some (NetDevMac m) => [mac_inner m] | _ => [] end.
Definition file_names (f : NetworkDConfigFile) : list string :=
  match f with
  | Network c => (opt_list (c_match c) ≫= match_names) ++ (opt_list (c_network c) ≫= network_names)
  | NetDev c => opt_list (netdev c) ≫= netdev_names
  end.
Definition file_sections `{IpText} (f : NetworkDConfigFile) : list section_text :=
  match f with Network c => network_sections c | NetDev c => netdev_sections c end.

(** The text of an interface name or MAC address that was read from well-formed text. *)
Definition id_text (t : string) : Prop :=
  (∃ s n, utf8_valid s = true ∧ name_try_from s = Ok n ∧ t = name_inner n) ∨
  (∃ s m, mac_try_from s = Ok m ∧ t = mac_inner m).
Lemma id_text_line t : id_text t → no_char NEWLINE t.
Proof.
  intros [(s & n & Hv & Hn & ->)|(s & m & Hm & ->)]; [by eapply name_try_from_line|].
  by eapply mac_shape_line, mac_try_from_shape.
Qed.

Section sections.
Context `{IpText}.

Lemma opt_field_ok {A} entry (to_string : A → string) o :
  key_ok entry → (∀ v, o = Some v → no_char NEWLINE (to_string v)) → field_ok (opt_field entry to_string o).
Proof. intros Hk Hv. split; [done|]. destruct o as [v|]; repeat constructor. by apply Hv. Qed.
Lemma values_ok entry values : key_ok entry → Forall (no_char NEWLINE) values → field_ok (Values entry values).
Proof. by split. Qed.
Lemma number_line n : no_char NEWLINE (unsigned_to_string n).
Proof. by apply unsigned_to_string_no_char. Qed.
Lemma opt_list_Forall {A B} (f : A → B) (P : B → Prop) o : Forall P (f <$> opt_list o) → ∀ v, o = Some v → P (f v).
Proof. intros Hall v ->. by inversion Hall. Qed.

Ltac fields := repeat (apply Forall_cons; split); try (apply Forall_nil; exact I);
  try (first [apply opt_field_ok | apply values_ok]; [by repeat split|]);
  try (intros [] _; done); try (intros; apply number_line || apply ip_text_line || apply ipnet_text_line);
  try (by apply Forall_fmap, Forall_forall; intros; first [apply ip_text_line|apply ipnet_text_line]).

Lemma network_sections_ok c :
  Forall (no_char NEWLINE) (file_names (Network c)) → Forall section_ok (network_sections c).
Proof.
  cbn [file_names]. intros [Hm Hn]%Forall_app. unfold network_sections.
  repeat (apply Forall_app_2); try (by apply Forall_fmap, Forall_forall; intros; split; [done|]; cbn; fields).
  - destruct (c_match c) as [m|]; [|constructor]. cbn [opt_list] in Hm. rewrite bind_singleton in Hm.
    apply Forall_app in Hm as [Hname Hmac]. apply Forall_singleton. split; [done|]. cbn [fields match_section]. fields; [|done].
    by apply opt_list_Forall.
  - destruct (c_network c) as [s|]; [|constructor]. cbn [opt_list] in Hn. rewrite bind_singleton in Hn.
    apply Forall_app in Hn as [Hb [Hv Hc]%Forall_app]. apply Forall_singleton. split; [done|]. cbn [fields network_section].
    fields; try done. by apply opt_list_Forall.
Qed.

Lemma netdev_sections_ok c :
  Forall (no_char NEWLINE) (file_names (NetDev c)) → Forall section_ok (netdev_sections c).
Proof.
  cbn [file_names]. intros Hn. unfold netdev_sections.
  repeat (apply Forall_app_2); try (by apply Forall_fmap, Forall_forall; intros; split; [done|]; cbn; fields).
  destruct (netdev c) as [s|]; [|constructor]. cbn [opt_list] in Hn. rewrite bind_singleton in Hn.
  apply Forall_app in Hn as [Hname Hmac]. apply Forall_singleton. split; [done|]. cbn [fields netdev_section]. fields.
  - by apply opt_list_Forall.
  - intros [m|] E; [|reflexivity]. rewrite E in Hmac. by inversion Hmac.
Qed.
End sections.

(** The paths of the files that are written for the devices of a valid configuration. *)
Lemma written_paths `{VlanOrder} ds :
  devices_ok ds → (∀ m, Mac m ∈ ndevice_name <$> ds → ∃ s, mac_try_from s = Ok m) →
  no_clash (devices (with_links ds) ≫= network_ids) →
  ∃ paths, mapM_result file_path (create_files (with_links ds)) = Ok paths ∧ NoDup paths ∧
    Forall (λ p, ∃ name ext, p = config_file_path name ext) paths.
Proof.
  intros Hok Hmac Hclash. pose proof (written_ids_NoDup ds Hok) as Hnd.
  exists (key_path <$> (devices (with_links ds) ≫= device_keys)). split; [apply paths_of_keys, create_files_keys|].
  split; [|by apply Forall_fmap, Forall_forall; intros [id e] _; exists (id_file_name id), e].
  apply NoDup_fmap_elem; [|by apply device_keys_NoDup].
  intros [id e] [id' e'] [Hid He]%device_keys_elem [Hid' He']%device_keys_elem.
  intros E. unfold key_path in E. cbn [fst snd] in *. apply config_file_path_inj in E as [Hn ->]; [|done..]. f_equal.
  eapply id_file_name_inj; [|exact Hclash|done..|done].
  intros m Hm. cbn in Hm. rewrite bind_app, missing_links_ids in Hm.
  apply elem_of_app in Hm as [Hm|(? & [=] & _)%list_elem_of_fmap].
  apply ids_cases in Hm as [Hm|(? & [=] & _)].
  apply Hmac in Hm as [s Hs]. by apply mac_try_from_shape in Hs.
Qed.

(** A VLAN on a VLAN is accepted, but no file attaches it. *)
Lemma vlan_lists_none v vl f : f ∈ vlan_networks v vl → vlan (net f) = [].
Proof.
  destruct (vlan_file v vl) as (c & -> & (_ & _ & Hv & _) & _). by intros ->%list_elem_of_singleton.
Qed.
Lemma stacked_vlan_accepted :
  let on device := VlanDevice (mk_vlan1 None (Some (Dhcp4Enabled true)) None None None None (mk_name device) (mk_vlan_id 1)) in
  validate_v3 (mk_config3 [(Name (mk_name "v1"), on "eno1"); (Name (mk_name "v2"), on "v1")]) = Ok tt.
Proof. vm_compute. reflexivity. Qed.

(** ** Properties *)

(** For a configuration that was read and validated, generating the files succeeds,
    and no two of them have the same path: no device overwrites the file of another.
    (MAC addresses are those that were read; an interface must not be called like the
    digits of a configured MAC address.) *)
Lemma network_files_distinct `{VlanOrder} c :
  config_ok c → (∀ m, Mac m ∈ interfaces c → ∃ s, mac_try_from s = Ok m) →
  ∃ n, as_networkd_config c = Ok n ∧
    (no_clash (devices n ≫= network_ids) →
     ∃ paths, mapM_result file_path (create_files n) = Ok paths ∧ NoDup paths).
Proof.
  intros Hc Hmac. destruct (config_devices_ok c Hc) as (ds & Hds & Hnames & Hok).
  exists (with_links ds). rewrite as_networkd_config_devices, Hds. split; [done|]. intros Hclash.
  destruct (written_paths ds Hok) as (paths & Hp & Hnd & _); [by rewrite Hnames|done|]. by exists paths.
Qed.

(** C22. What the files of a valid configuration say.  Each device has a [.network] file
    with its DHCP choice and whether it is required, its static addresses and routes,
    IPv6 switched off when nothing is configured for it, and exactly the VLANs that name
    it (in order; none for a VLAN); a bond waits for its workers; each worker's file
    binds it to its bond, the first one as primary, without any addressing.  Every VLAN
    on a device that is not a VLAN itself is listed in that device's file, also when the
    device has no configuration of its own. *)
Theorem network_files_spec `{VlanOrder} c :
  config_ok c →
  ∃ ds n, config_devices c = Ok ds ∧ ndevice_name <$> ds = interfaces c ∧ as_networkd_config c = Ok n ∧
    (∀ d, d ∈ ds → ∃ f, Network f ∈ create_files n ∧ device_file (λ name, attached name ds) d f) ∧
    (∀ b k w, DBond b ∈ ds → nb_interfaces b !! k = Some w →
       ∃ f, Network f ∈ create_files n ∧ worker_file_spec (nb_name b) k w f) ∧
    (∀ v, DVlan v ∈ ds → (∀ v', DVlan v' ∈ ds → nv_name v' ≠ nv_device v) →
       ∃ f, Network f ∈ create_files n ∧ network_match f = Some (Name (nv_device v)) ∧ nv_name v ∈ vlan (net f)).
Proof.
  intros Hc. destruct (config_devices_ok c Hc) as (ds & Hds & Hnames & Hok).
  exists ds, (with_links ds). rewrite as_networkd_config_devices, Hds. split_and!; [done..| | |].
  - intros d Hd. apply with_links_file. by apply elem_of_app; left.
  - intros b k w. apply with_links_worker.
  - intros v. by apply vlan_attached.
Qed.

(** C23. The lines of a generated file are exactly those of its sections, each a line with the name of the
    section in brackets and a line with key and value for every entry, with an end of line after the
    last: interface names and MAC addresses as netdog accepts them cannot add a line or break
    one, whatever they contain. *)
Theorem unit_file_lines `{IpText} f :
  Forall id_text (file_names f) →
  str_split NEWLINE (file_to_string f) = (file_sections f ≫= section_lines) ++ [EmptyString].
Proof.
  intros Hall. assert (Forall (no_char NEWLINE) (file_names f)) as Hline.
  { eapply Forall_impl; [exact Hall|]. apply id_text_line. }
  destruct f as [c|c]; apply unit_lines; [by apply network_sections_ok|by apply netdev_sections_ok].
Qed.

(** A name that ends in a backslash is accepted; systemd reads its line as continued by the next. *)
Example backslash_name_accepted :
  let name := "eth0" +:+ char_of (ascii_of_nat 92) in name_try_from name = Ok (mk_name name).
Proof. reflexivity. Qed.

(** ** Witnesses *)

#[local] Instance example_order : VlanOrder := {| vlan_order v := v; vlan_order_perm v := Permutation_refl v |}.
Definition example_ip (a : IpAddr) : string := match a with V4 n => unsigned_to_string n | V6 n => unsigned_to_string n end.
Lemma example_ip_line a : no_char NEWLINE (example_ip a).
Proof. destruct a; apply number_line. Qed.
#[local] Instance example_text : IpText := {|
  ip_to_string := example_ip; ip_from_str _ := None;
  ipnet_to_string n := example_ip (net_addr n); ipnet_from_str _ := None;
  ip_text_line := example_ip_line; ipnet_text_line n := example_ip_line (net_addr n) |}.

(** An interface, one with a MAC address, a bond of two workers, and two VLANs: on the
    bond, and on an interface without a configuration. *)
Definition example_dhcp : NetInterfaceV2 := mk_interface2 None (Some (Dhcp4Enabled true)) None None None None.
Definition example_static : NetInterfaceV2 :=
  mk_interface2 None None None (Some (mk_static [mk_ipnet (V4 7) 24])) None (Some [mk_route DefaultRoute None (Some (V4 1)) None]).
Definition example_bond : NetBondV1 :=
  mk_bond1 None (Some (Dhcp4Enabled true)) None None None None ActiveBackup (Some 1%Z)
    (MiiMon (mk_miimon 100 200 200)) [mk_name "eno2"; mk_name "eno3"].
Definition example_vlan (device : string) (id : Z) : NetVlanV1 :=
  mk_vlan1 None (Some (Dhcp4Enabled true)) None None None None (mk_name device) (mk_vlan_id id).
Definition example_mac : MacAddress := mk_mac "f8:75:a4:d5:4f:54".
Definition example_config : NetConfig := ConfigV3 (mk_config3
  [(Name (mk_name "eno1"), Interface example_static); (Mac example_mac, Interface example_dhcp);
   (Name (mk_name "bond0"), BondDevice example_bond);
   (Name (mk_name "vlan10"), VlanDevice (example_vlan "bond0" 10));
   (Name (mk_name "vlan20"), VlanDevice (example_vlan "eno9" 20))]).
Definition example_networkd : NetworkDConfig :=
  default (mk_networkd [] []) (ok (as_networkd_config example_config)).

Lemma network_files_distinct_witness :
  option_map (List.map (String.substring 21 30)) (ok (mapM_result file_path (create_files example_networkd))) =
    Some ["10-eno1.network"; "10-f875a4d54f54.network"; "10-bond0.netdev"; "10-bond0.network"; "10-eno2.network";
          "10-eno3.network"; "10-vlan10.netdev"; "10-vlan10.network"; "10-vlan20.netdev"; "10-vlan20.network";
          "10-eno9.network"] ∧
  ∃ n, as_networkd_config example_config = Ok n ∧
    (no_clash (devices n ≫= network_ids) → ∃ paths, mapM_result file_path (create_files n) = Ok paths ∧ NoDup paths).
Proof.
  split; [vm_compute; reflexivity|]. apply (network_files_distinct example_config).
  - split; [apply (bool_decide_eq_true_1 _); vm_compute; reflexivity|vm_compute; reflexivity].
  - intros m Hm. exists "F8-75-A4-D5-4F-54". assert (m = example_mac) as ->; [|vm_compute; reflexivity].
    repeat (apply elem_of_cons in Hm as [Hm|Hm]; [by inversion Hm|]). by apply elem_of_nil in Hm.
Defined.

Lemma network_files_spec_witness :
  ((λ f, match f with Network c => name_inner <$> vlan (net c) | NetDev _ => [] end) <$> create_files example_networkd) !! 3 =
    Some ["vlan10"] ∧
  ∃ ds n, config_devices example_config = Ok ds ∧ ndevice_name <$> ds = interfaces example_config ∧
    as_networkd_config example_config = Ok n.
Proof.
  split; [vm_compute; reflexivity|].
  destruct (network_files_spec example_config) as (ds & n & Hds & Hnames & Hn & _).
  - split; [apply (bool_decide_eq_true_1 _); vm_compute; reflexivity|vm_compute; reflexivity].
  - exists ds, n. split; [exact Hds|]. split; [exact Hnames|exact Hn].
Defined.

Definition example_file : NetworkDConfigFile :=
  default (Network network_default) (create_files example_networkd !! 0).
Lemma unit_file_lines_witness :
  file_to_string example_file =
    str_concat ((λ l, l +:+ NL) <$> ["[Match]"; "Name=eno1"; "[Network]"; "Address=7"; "IPv6AcceptRA=false";
                                      "LinkLocalAddressing=ipv4"; "[Route]"; "Destination=0"; "Gateway=1"]) ∧
  str_split NEWLINE (file_to_string example_file) = (file_sections example_file ≫= section_lines) ++ [EmptyString].
Proof.
  split; [vm_compute; reflexivity|]. apply unit_file_lines. apply Forall_singleton. left.
  exists "eno1", (mk_name "eno1"). vm_compute. split_and!; reflexivity.
Defined.
