(* ===== verification/Netdog.v ===== *)
(** * netdog's commands ([netdog/src/cli], [dns.rs], [networkd_status.rs]; [dogtag/src])

    The commands as programs over a host: its files, directories and links.  Every
    system call takes an outcome from a list, so that a theorem about all lists is one
    about a failure or a power cut at any point.  Other processes are a function. *)
From S2P Require Import Prelude DsError Key Json Chars Numbers NetConfig Networkd.
From Stdlib Require Import Ascii.
From stdpp Require Import base list strings gmap.
From stdpp Require Import options.

(** ** Definitions *)

(** A call works, or fails; a failed write may leave the first bytes. *)
Inductive outcome := Works | Fails (written : option nat).
Inductive io_error := NotFound | AlreadyExists | IoFailed | PowerCut.

Record Host := mk_host {
  files : gmap string string;
  dirs : gset string;
  file_links : gmap string string;
  outcomes : list outcome;
  commands_run : list (list string);
  printed : list string }.

Definition set_files (m : gmap string string) (h : Host) : Host :=
  mk_host m (dirs h) (file_links h) (outcomes h) (commands_run h) (printed h).
Definition set_outcomes (l : list outcome) (h : Host) : Host :=
  mk_host (files h) (dirs h) (file_links h) l (commands_run h) (printed h).

(** A system call: what it does when it works, and what a failure leaves. *)
Definition syscall {A} (works : Host → Host * result io_error A) (fails : option nat → Host → Host) : stres Host io_error A := λ h,
  match outcomes h with
  | [] => (h, Err PowerCut)
  | Works :: l => works (set_outcomes l h)
  | Fails n :: l => (fails n (set_outcomes l h), Err IoFailed)
  end.

Definition read_to_string (path : string) : stres Host io_error string :=
  syscall (λ h, (h, ok_or (files h !! path) NotFound)) (λ _ h, h).
Definition fs_write (path content : string) : stres Host io_error () :=
  syscall (λ h, (set_files (<[path := content]> (files h)) h, Ok tt))
    (λ n h, match n with Some n => set_files (<[path := str_take n content]> (files h)) h | None => h end).
Definition remove_file (path : string) : stres Host io_error () :=
  syscall (λ h, match files h !! path with
                | Some _ => (set_files (delete path (files h)) h, Ok tt) | None => (h, Err NotFound)
                end) (λ _ h, h).
Definition create_dir_all (path : string) : stres Host io_error () :=
  syscall (λ h, (mk_host (files h) ({[path]} ∪ dirs h) (file_links h) (outcomes h) (commands_run h) (printed h), Ok tt))
    (λ _ h, h).
Definition fs_symlink (target link : string) : stres Host io_error () :=
  syscall (λ h, match file_links h !! link, files h !! link with
                | None, None => (mk_host (files h) (dirs h) (<[link := target]> (file_links h)) (outcomes h) (commands_run h) (printed h), Ok tt)
                | _, _ => (h, Err AlreadyExists)
                end) (λ _ h, h).
Definition remove_link (path : string) : stres Host io_error () :=
  syscall (λ h, match file_links h !! path with
                | Some _ => (mk_host (files h) (dirs h) (delete path (file_links h)) (outcomes h) (commands_run h) (printed h), Ok tt)
                | None => match files h !! path with
                          | Some _ => (set_files (delete path (files h)) h, Ok tt) | None => (h, Err NotFound)
                          end
                end) (λ _ h, h).
Definition rename (from to : string) : stres Host io_error () :=
  syscall (λ h, match files h !! from with
                | Some content => (set_files (<[to := content]> (delete from (files h))) h, Ok tt) | None => (h, Err NotFound)
                end) (λ _ h, h).
Definition path_exists (h : Host) (path : string) : bool :=
  bool_decide (path ∈ dirs h) || bool_decide (is_Some (files h !! path)) || bool_decide (is_Some (file_links h !! path)).
Definition print (s : string) : stres Host io_error () :=
  syscall (λ h, (mk_host (files h) (dirs h) (file_links h) (outcomes h) (commands_run h) (printed h ++ [s]), Ok tt))
    (λ _ h, h).

(** [cli/mod.rs], [dns.rs], [networkd_status.rs]: errors *)
Inductive netdog_error :=
| CreateDir (path : string)
| CurrentIpWriteFailed | CurrentIpReadFailed
| GetDnsSettings | DropInDirCreate (path : string) | DropInFileWrite (path : string)
| FailedSystemdSysctl | FailedSystemctl | FileRemove (path : string)
| GetPrimaryInterface | HostnameDetection | HostnameWriteFailed
| InterfaceNameUtf8 | IpFromString (ip : string)
| NetConfigParseFrom (path : string) (source : net_error)
| NonExistentMac (mac : string)
| NetworkDConfigCreate (source : net_error)
| ConfigWrite (source : networkd_error)
| PathRead (path : string)
| PrimaryInterfaceWrite (path : string)
| ResolvConfWriteFailed
| SysctlConfWrite (path : string)
| SystemdSysctlExecution | SystemctlExecution
| StatusError | PrimaryInterfaceAddress
| Symlink (target link : string)
| StdinRead | NetConfigStdinParse (source : net_error)
| NetConfigDirMissing (path : string)
| JsonSerialize (output : string) | PrintFailed
| CreateTempFile (path : string) | WriteTempFile | PersistTempFile (path : string).

Definition KERNEL_HOSTNAME : string := "/proc/sys/kernel/hostname".
Definition CURRENT_IP : string := "/run/netdog/current_ip".
Definition KERNEL_CMDLINE : string := "/proc/cmdline".
Definition PRIMARY_INTERFACE : string := "/run/netdog/primary_interface".
Definition PRIMARY_MAC_ADDRESS : string := "/run/netdog/primary_mac_address".
Definition DEFAULT_NET_CONFIG_FILE : string := "/.bottlerocket/net.toml".
Definition USR_NET_CONFIG_FILE : string := "/usr/share/bottlerocket/net.toml".
Definition PRIMARY_SYSCTL_CONF : string := "/etc/sysctl.d/90-primary_interface.conf".
Definition SYSCTL_MARKER_FILE : string := "/run/netdog/primary_sysctls_set".
Definition SYSTEMD_SYSCTL : string := "/usr/lib/systemd/systemd-sysctl".
Definition NETDOG_RESOLV_CONF : string := "/run/netdog/resolv.conf".
Definition REAL_RESOLV_CONF : string := "/run/systemd/resolve/resolv.conf".
Definition NETWORKCTL : string := "/usr/bin/networkctl".
Definition SYSTEMCTL : string := "/usr/bin/systemctl".
Definition SYS_CLASS_NET : string := "/sys/class/net".

(** [.ok()] and [if let Ok]: a failure is no value. *)
Definition st_ok {A} (m : stres Host io_error A) : stres Host netdog_error (option A) := λ h,
  let '(h, r) := m h in (h, Ok (ok r)).

Section commands.
Context {V : Type} `{NetToml V} `{IpText} `{VlanOrder} `{SerdeJson}.
(** Commands: whether they succeed, and what they print.
    [sysfs_net]: the directories of [/sys/class/net], by name unless that is not UTF-8,
    each with its [address] if it can be read. *)
Variable exec : list string → bool * string.
Variable sysfs_net : option (list (option string * option string)).
Variable to_lowercase : string → string.

Definition run_command (cmd : list string) : stres Host io_error (bool * string) :=
  syscall (λ h, (mk_host (files h) (dirs h) (file_links h) (outcomes h) (commands_run h ++ [cmd]) (printed h), Ok (exec cmd)))
    (λ _ h, h).
(** A command that must succeed. *)
Definition must_run (cmd : list string) (not_run failed : netdog_error) : stres Host netdog_error () :=
  let! res := st_map_err (λ _, not_run) (run_command cmd) in st_lift (ensure res.1 failed).

Definition print_json (val : string) : stres Host netdog_error () :=
  let! output := st_lift (map_err (λ _, JsonSerialize val) (json_to_string (JString val))) in
  st_map_err (λ _, PrintFailed) (print output).

Definition clean (s : string) : string := to_lowercase (str_trim s).

Fixpoint find_interface (primary_mac : string) (l : list (option string * option string)) : result netdog_error string :=
  match l with
  | [] => Err (NonExistentMac primary_mac)
  | (name, Some address) :: l =>
      if decide (clean address = primary_mac) then ok_or name InterfaceNameUtf8 else find_interface primary_mac l
  | (_, None) :: l => find_interface primary_mac l
  end.
Definition primary_interface_name : stres Host netdog_error string :=
  let! maybe_name := st_ok (read_to_string PRIMARY_INTERFACE) in
  match maybe_name with
  | Some name => st_ret (clean name)
  | None =>
      let! content := st_map_err (λ _, PathRead PRIMARY_MAC_ADDRESS) (read_to_string PRIMARY_MAC_ADDRESS) in
      let! entries := st_lift (ok_or sysfs_net (PathRead SYS_CLASS_NET)) in
      st_lift (find_interface (clean content) entries)
  end.

Definition sysctl_lines (interface : string) : list string :=
  ["-net.ipv4.conf." +:+ interface +:+ ".rp_filter = 2";
   "-net.ipv6.conf." +:+ interface +:+ ".accept_ra = 0";
   "-net.ipv6.conf." +:+ interface +:+ ".accept_ra_defrtr = 0";
   "-net.ipv6.conf." +:+ interface +:+ ".accept_ra_pinfo = 0";
   "-net.ipv6.conf." +:+ interface +:+ ".accept_ra_rtr_pref = 0";
   "-net.ipv6.conf." +:+ interface +:+ ".accept_ra_mtu = 0"].
Definition write_interface_sysctl (interface path : string) : stres Host netdog_error () :=
  st_map_err (λ _, SysctlConfWrite path) (fs_write path (str_concat ((λ l, l +:+ NL) <$> sysctl_lines interface))).

Definition write_primary_interface_sysctl (interface : string) : stres Host netdog_error () :=
  let! _ := λ h, if path_exists h PRIMARY_SYSCTL_CONF then (h, Ok tt)
                 else write_interface_sysctl interface PRIMARY_SYSCTL_CONF h in
  λ h, if path_exists h SYSCTL_MARKER_FILE then (h, Ok tt)
       else (let! _ := must_run [SYSTEMD_SYSCTL; PRIMARY_SYSCTL_CONF] SystemdSysctlExecution FailedSystemdSysctl in
             let! _ := st_ok (fs_write SYSCTL_MARKER_FILE "") in st_ret tt) h.

(** The configuration and the path it was read from. *)
Definition fetch_net_config : stres Host netdog_error (option NetConfig * string) := λ h,
  let from_file path :=
    let! content := st_ok (read_to_string path) in
    let! config := st_lift (map_err (NetConfigParseFrom path) (from_path content)) in
    st_ret (config, path) in
  if path_exists h DEFAULT_NET_CONFIG_FILE then from_file DEFAULT_NET_CONFIG_FILE h
  else if path_exists h USR_NET_CONFIG_FILE then from_file USR_NET_CONFIG_FILE h
  else
    (let! content := st_ok (read_to_string KERNEL_CMDLINE) in
     let! config := st_lift (map_err (NetConfigParseFrom KERNEL_CMDLINE) (from_command_line content)) in
     st_ret (config, KERNEL_CMDLINE)) h.

Definition force_symlink (target link : string) : stres Host netdog_error () :=
  let! _ := λ h, match remove_link link h with
                 | (h, Err NotFound) => (h, Ok tt)
                 | (h, Err _) => (h, Err (Symlink target link))
                 | (h, Ok _) => (h, Ok tt)
                 end in
  st_map_err (λ _, Symlink target link) (fs_symlink target link).

(** *** [generate_net_config.rs] *)

Fixpoint remove_existing (paths : list string) : stres Host netdog_error () :=
  match paths with
  | [] => st_ret tt
  | file :: paths =>
      let! _ := λ h, if path_exists h file then st_map_err (λ _, FileRemove file) (remove_file file) h else (h, Ok tt) in
      remove_existing paths
  end.
Definition remove_old_primary_interface : stres Host netdog_error () :=
  remove_existing [PRIMARY_INTERFACE; PRIMARY_MAC_ADDRESS].
Definition write_primary_interface (interface_id : InterfaceId) : stres Host netdog_error () :=
  st_map_err (λ _, PrimaryInterfaceWrite PRIMARY_INTERFACE)
    match interface_id with
    | Name name => fs_write PRIMARY_INTERFACE (name_inner name)
    | Mac mac => fs_write PRIMARY_MAC_ADDRESS (mac_inner mac)
    end.

(** [NetworkDConfigFile::write_config_file] *)
Definition write_config_file (f : NetworkDConfigFile) : stres Host netdog_error () :=
  let! path := st_lift (map_err ConfigWrite (file_path f)) in
  let what := match f with Network _ => "network config" | NetDev _ => "netdev_config" end in
  st_map_err (λ _, ConfigWrite (NetworkDConfigWrite what path)) (fs_write path (file_to_string f)).

(** The kernel command line cannot say everything; defaults are fixed here. *)
Definition adjust (from_cmd_line : bool) (f : NetworkDConfigFile) : NetworkDConfigFile :=
  match f with
  | Network n => if from_cmd_line then Network (disable_dad (enable_ipv6 n)) else f
  | NetDev _ => f
  end.
Definition write_network_config_files (net_config : NetConfig) (from_cmd_line : bool) : stres Host netdog_error () :=
  let! _ := st_map_err (λ _, CreateDir NETWORKD_CONFIG_DIR) (create_dir_all NETWORKD_CONFIG_DIR) in
  let! networkd_config := st_lift (map_err NetworkDConfigCreate (as_networkd_config net_config)) in
  st_forM (create_files networkd_config) (λ f, write_config_file (adjust from_cmd_line f)).

Definition generate_net_config : stres Host netdog_error () :=
  let! fetched := fetch_net_config in
  let '(maybe_net_config, source) := fetched in
  let from_cmd_line := bool_decide (source = KERNEL_CMDLINE) in
  match maybe_net_config with
  | None => st_ret tt
  | Some net_config =>
      let! primary_interface := st_lift (ok_or (primary_interface net_config) GetPrimaryInterface) in
      let! _ := remove_old_primary_interface in
      let! _ := write_primary_interface primary_interface in
      write_network_config_files net_config from_cmd_line
  end.

(** *** [commit.rs]: [tempfile] is the name of the new temporary file; it is deleted when
    it is dropped. *)
Definition drop_tempfile (tempfile : string) {A} (m : stres Host netdog_error A) : stres Host netdog_error A := λ h,
  match m h with
  | (h, Ok a) => (h, Ok a)
  | (h, Err e) => ((remove_file tempfile h).1, Err e)
  end.
Definition commit (tempfile : string) (stdin : option string) : stres Host netdog_error () :=
  let! content := st_lift (ok_or stdin StdinRead) in
  let! _ := st_lift (map_err NetConfigStdinParse (deserialize_config content)) in
  let config_dir := "/.bottlerocket" in
  let config_file := DEFAULT_NET_CONFIG_FILE in
  λ h, if negb (path_exists h config_dir) then (h, Err (NetConfigDirMissing config_dir))
       else
         (let! _ := st_map_err (λ _, CreateTempFile config_dir) (fs_write tempfile "") in
          drop_tempfile tempfile
            (let! _ := st_map_err (λ _, WriteTempFile) (fs_write tempfile content) in
             st_map_err (λ _, PersistTempFile config_file) (rename tempfile config_file))) h.

(** *** [dns.rs] *)

Record DnsSettings := mk_dns { nameservers : option (list IpAddr); search : option (list string) }.
Definition RESOLVED_CONF_DROPIN_DIR : string := "/etc/systemd/resolved.conf.d".
Definition RESOLVED_CONF_DROPIN_FILE : string := "10-resolv.conf".
Definition DNS_CONFIG : string := "/etc/netdog.toml".

(** [toml::from_str] at type [DnsSettings]; [shuffle] gives an order of the name servers. *)
Variable dns_of_toml : string → option DnsSettings.
Variable shuffle : list IpAddr → list IpAddr.

Definition dns_from_config : stres Host netdog_error DnsSettings := λ h,
  let config_exists := match files h !! DNS_CONFIG with Some s => negb (str_is_empty s) | None => false end in
  if config_exists then
    (let! config_str := st_map_err (λ _, GetDnsSettings) (read_to_string DNS_CONFIG) in
     st_lift (ok_or (dns_of_toml config_str) GetDnsSettings)) h
  else (h, Ok (mk_dns None None)).

Definition resolve_section (dns : list IpAddr) (domains : list string) : section_text :=
  mk_section_text "Resolve" [Joined "DNS" (ip_to_string <$> dns); Joined "Domains" domains].
Definition from_dns_settings (dns : DnsSettings) : section_text :=
  resolve_section (match nameservers dns with Some l => shuffle l | None => [] end) (default [] (search dns)).
Definition write_resolved_dropin (dns : DnsSettings) : stres Host netdog_error () :=
  let! _ := st_map_err (λ _, ResolvConfWriteFailed) (create_dir_all RESOLVED_CONF_DROPIN_DIR) in
  st_map_err (λ _, ResolvConfWriteFailed)
    (fs_write (RESOLVED_CONF_DROPIN_DIR +:+ "/" +:+ RESOLVED_CONF_DROPIN_FILE) (unit_to_string [from_dns_settings dns])).
Definition has_name_servers (dns : DnsSettings) : bool := is_some (nameservers dns).
Definition has_search_domains (dns : DnsSettings) : bool := is_some (search dns).

(** *** [write_resolv_conf.rs] *)

Record InterfaceDNSDropIn := mk_dropin { dns_default_route : bool; use_dns : bool; use_domains : bool }.
Definition dropin_new (settings : DnsSettings) (is_primary : bool) : InterfaceDNSDropIn :=
  if is_primary then
    mk_dropin (negb (has_name_servers settings)) (negb (has_name_servers settings)) (negb (has_search_domains settings))
  else mk_dropin false false false.
Definition dropin_sections (d : InterfaceDNSDropIn) : list section_text :=
  let lease name := mk_section_text name
    [opt_field "UseDNS" bool_to_string (Some (use_dns d)); opt_field "UseDomains" bool_to_string (Some (use_domains d))] in
  [mk_section_text "Network" [opt_field "DNSDefaultRoute" bool_to_string (Some (dns_default_route d))];
   lease "DHCPv4"; lease "DHCPv6"; lease "IPv6AcceptRA"].

Definition dropin_dir (interface : InterfaceId) : string :=
  NETWORKD_CONFIG_DIR +:+ "/10-" +:+ str_delete COLON (id_to_string interface) +:+ ".network.d".
Definition write_dropin (settings : DnsSettings) (primary : string) (interface : InterfaceId) : stres Host netdog_error () :=
  let interface_drop_in := dropin_new settings (bool_decide (id_to_string interface = primary)) in
  let dropin_dir_path := dropin_dir interface in
  let! _ := st_map_err (λ _, DropInDirCreate dropin_dir_path) (create_dir_all dropin_dir_path) in
  let dropin_file_path := dropin_dir_path +:+ "/10-dns.conf" in
  st_map_err (λ _, DropInFileWrite dropin_file_path)
    (fs_write dropin_file_path (unit_to_string (dropin_sections interface_drop_in))).

Definition restart_command (unit : string) : list string := [SYSTEMCTL; "try-reload-or-restart"; "--no-block"; unit].
Definition handle_dns_settings (primary : string) : stres Host netdog_error () :=
  let! dns_settings := dns_from_config in
  let! fetched := fetch_net_config in
  let! _ := match fetched.1 with
            | Some net_config => st_forM (interfaces net_config) (write_dropin dns_settings primary)
            | None => st_ret tt
            end in
  let! _ := write_resolved_dropin dns_settings in
  let! _ := must_run (restart_command "systemd-networkd") SystemctlExecution FailedSystemctl in
  must_run (restart_command "systemd-resolved") SystemctlExecution FailedSystemctl.
Definition write_resolv_conf : stres Host netdog_error () :=
  let! primary := primary_interface_name in handle_dns_settings primary.

(** *** [networkd_status.rs] *)

Record NetworkDInterfaceStatus := mk_status { status_name : InterfaceName; status_addresses : list IpAddr }.

Definition big_endian (bytes : list Z) : Z := foldl (λ acc b, (acc * 256 + b)%Z) 0%Z bytes.
Definition ipaddr_from_vec (address_vec : list Z) : option IpAddr :=
  if length address_vec =? 4 then Some (V4 (big_endian address_vec))
  else if length address_vec =? 16 then Some (V6 (big_endian address_vec))
  else None.
Fixpoint from_networkctl_addresses (addresses : list (list Z)) : option (list IpAddr) :=
  match addresses with
  | [] => Some []
  | addr :: addresses => a ← ipaddr_from_vec addr; l ← from_networkctl_addresses addresses; Some (a :: l)
  end.

(** The fields of networkctl's JSON: the name and the bytes of each address. *)
Variable status_fields : string → option (string * list (list Z)).
Definition status_from_slice (stdout : string) : option NetworkDInterfaceStatus :=
  fields ← status_fields stdout;
  name ← ok (name_try_from fields.1);
  addresses ← from_networkctl_addresses fields.2;
  Some (mk_status name addresses).
Definition status_new (link : string) : stres Host netdog_error NetworkDInterfaceStatus :=
  let! res := st_map_err (λ _, StatusError) (run_command [NETWORKCTL; "status"; "--json=pretty"; link]) in
  let! _ := st_lift (ensure res.1 StatusError) in
  st_lift (ok_or (status_from_slice res.2) StatusError).

Definition primary_address (s : NetworkDInterfaceStatus) : option IpAddr :=
  match List.find is_ipv4 (status_addresses s) with
  | Some addr => Some addr
  | None => head (status_addresses s)
  end.

(** *** [write_network_status.rs], [node_ip.rs], [set_hostname.rs], [generate_hostname.rs] *)

Definition write_current_ip (ip : IpAddr) : stres Host netdog_error () :=
  st_map_err (λ _, CurrentIpWriteFailed) (fs_write CURRENT_IP (ip_to_string ip)).
Definition write_network_status : stres Host netdog_error () :=
  let! primary := primary_interface_name in
  let! primary_link_status := status_new primary in
  let! primary_ip := st_lift (ok_or (primary_address primary_link_status) PrimaryInterfaceAddress) in
  let! _ := write_current_ip primary_ip in
  let! _ := write_primary_interface_sysctl primary in
  force_symlink REAL_RESOLV_CONF NETDOG_RESOLV_CONF.

Definition node_ip : stres Host netdog_error () :=
  let! ip_string := st_map_err (λ _, CurrentIpReadFailed) (read_to_string CURRENT_IP) in
  let! _ := st_lift (ok_or (ip_from_str ip_string) (IpFromString ip_string)) in
  print_json ip_string.

Definition set_hostname (hostname : string) : stres Host netdog_error () :=
  st_map_err (λ _, HostnameWriteFailed) (fs_write KERNEL_HOSTNAME hostname).

(** dogtag: the detectors in reverse order of their names; the first that succeeds
    decides.  [detectors]: the sorted directory, unless it cannot be walked;
    [lossy]: [from_utf8_lossy]. *)
Variable detectors : option (list string).
Variable lossy : string → string.
Fixpoint try_helpers (helpers : list string) (ip_addr : string) : stres Host io_error (option string) :=
  match helpers with
  | [] => st_ret None
  | helper :: helpers => λ h,
      match run_command [helper; "--ip-address"; ip_addr] h with
      | (h, Ok (true, stdout)) => (h, Ok (Some (str_trim (lossy stdout))))
      | (h, Err PowerCut) => (h, Err PowerCut)
      | (h, _) => try_helpers helpers ip_addr h
      end
  end.
Definition replace_colons (s : string) : string := str_map (λ c, if decide (c = COLON) then DASH else c) s.
Definition find_hostname (ip_addr : IpAddr) : stres Host netdog_error string :=
  let! helpers := st_lift (ok_or detectors HostnameDetection) in
  let! found := st_map_err (λ _, HostnameDetection) (try_helpers (rev helpers) (ip_to_string ip_addr)) in
  st_ret (match found with Some hostname => hostname | None => replace_colons (ip_to_string ip_addr) end).
Definition generate_hostname : stres Host netdog_error () :=
  let! ip_string := st_map_err (λ _, CurrentIpReadFailed) (read_to_string CURRENT_IP) in
  let! ip := st_lift (ok_or (ip_from_str ip_string) (IpFromString ip_string)) in
  let! hostname := find_hostname ip in
  print_json hostname.
End commands.

(** ** The system calls *)

Definition same_files (h h' : Host) (except : list string) : Prop := ∀ p, p ∉ except → files h' !! p = files h !! p.

Lemma same_files_refl h ex : same_files h h ex.
Proof. by intros p _. Qed.
Lemma same_files_trans h1 h2 h3 ex1 ex2 : same_files h1 h2 ex1 → same_files h2 h3 ex2 → same_files h1 h3 (ex1 ++ ex2).
Proof. intros H1 H2 p [Hp1 Hp2]%not_elem_of_app. rewrite H2, H1; done. Qed.

Lemma fs_write_files path content h h' r :
  fs_write path content h = (h', r) →
  same_files h h' [path] ∧ (r = Ok tt → files h' !! path = Some content).
Proof.
  assert (∀ h c, same_files h (set_files (<[path := c]> (files h)) h) [path]) as Hins.
  { intros h0 c p Hp. cbn. apply lookup_insert_ne. intros ->. apply Hp. by left. }
  unfold fs_write, syscall. destruct (outcomes h) as [|[|[n|]] l]; intros [= <- <-].
  - by split.
  - split; [exact (Hins (set_outcomes l h) content)|]. intros _. apply lookup_insert_eq.
  - split; [exact (Hins (set_outcomes l h) _)|done].
  - by split.
Qed.

Lemma remove_file_files path h h' r :
  remove_file path h = (h', r) → same_files h h' [path] ∧ (r = Ok tt → files h' !! path = None) ∧
  (files h' !! path = files h !! path ∨ files h' !! path = None).
Proof.
  unfold remove_file, syscall. destruct (outcomes h) as [|[|n] l]; cbn.
  - intros [= <- <-]. split_and!; [apply same_files_refl|done|by left].
  - destruct (files h !! path) eqn:E; intros [= <- <-]; cbn.
    + split; [|split; [intros _; apply lookup_delete_eq|right; apply lookup_delete_eq]].
      intros p Hp. cbn. apply lookup_delete_ne. intros ->. apply Hp. by left.
    + split_and!; [by intros p _|done|by left].
  - intros [= <- <-]. split_and!; [by intros p _|done|by left].
Qed.

Lemma create_dir_all_files path h h' r : create_dir_all path h = (h', r) → files h' = files h.
Proof. unfold create_dir_all, syscall. destruct (outcomes h) as [|[|n] l]; by intros [= <- <-]. Qed.

Lemma read_to_string_files path h h' r :
  read_to_string path h = (h', r) → files h' = files h ∧ (∀ s, r = Ok s → files h !! path = Some s).
Proof.
  unfold read_to_string, syscall. destruct (outcomes h) as [|[|n] l]; intros [= <- <-]; (split; [done|]); cbn; try done.
  intros s. by destruct (files h !! path); cbn; intros [= ->].
Qed.

Lemma rename_files from to h h' r :
  rename from to h = (h', r) →
  (files h' = files h ∧ r ≠ Ok tt) ∨
  (∃ content, files h !! from = Some content ∧ files h' = <[to := content]> (delete from (files h)) ∧ r = Ok tt).
Proof.
  unfold rename, syscall. destruct (outcomes h) as [|[|n] l]; [by intros [= <- <-]; left| |by intros [= <- <-]; left].
  cbn. destruct (files h !! from) as [content|]; intros [= <- <-]; [right; by exists content|by left].
Qed.

Lemma drop_tempfile_files {A} tempfile (m : stres Host netdog_error A) h h' r :
  drop_tempfile tempfile m h = (h', r) →
  ∃ h1 r1, m h = (h1, r1) ∧ (r = r1) ∧ same_files h1 h' [tempfile] ∧ (is_ok r1 = true → h' = h1).
Proof.
  unfold drop_tempfile. destruct (m h) as [h1 [a|e]].
  - intros [= <- <-]. exists h1, (Ok a). by split_and!.
  - intros [= <- <-]. exists h1, (Err e). split_and!; [done|done| |done].
    destruct (remove_file tempfile h1) as [h2 r2] eqn:E. by apply remove_file_files in E as [? _].
Qed.

(** ** Writing the files *)

Lemma st_map_err_inv {S E F A} (f : E → F) (m : stres S E A) s s' r :
  st_map_err f m s = (s', r) → ∃ r1, m s = (s', r1) ∧ r = map_err f r1.
Proof. unfold st_map_err. destruct (m s) as [s1 r1]. intros [= <- <-]. eauto. Qed.

Section writing.
Context {V : Type} `{NetToml V} `{IpText} `{VlanOrder}.

Lemma adjust_path b f : file_path (adjust b f) = file_path f.
Proof. by destruct f, b. Qed.

Lemma write_config_file_Ok f h h' :
  write_config_file f h = (h', Ok tt) →
  ∃ path, file_path f = Ok path ∧ same_files h h' [path] ∧ files h' !! path = Some (file_to_string f).
Proof.
  unfold write_config_file. intros (h1 & path & Hp & Hw)%st_bind_Ok. apply st_lift_Ok in Hp as [-> Hp].
  apply map_err_Ok in Hp. apply st_map_err_Ok in Hw. apply fs_write_files in Hw as [Hs Hf].
  exists path. split; [done|]. split; [done|]. by apply Hf.
Qed.

Lemma write_files_Ok b fs paths h h' :
  st_forM fs (λ f, write_config_file (adjust b f)) h = (h', Ok tt) →
  mapM_result file_path fs = Ok paths → NoDup paths →
  same_files h h' paths ∧ ∀ f path, (f, path) ∈ zip fs paths → files h' !! path = Some (file_to_string (adjust b f)).
Proof.
  revert h paths. induction fs as [|f fs IH]; intros h paths; cbn [st_forM mapM_result].
  { intros [= <-] [= <-] _. split; [apply same_files_refl|]. by intros f path ?%elem_of_nil. }
  intros (h1 & [] & Hw & Hrest)%st_bind_Ok Hp Hnd. rinv. apply NoDup_cons in Hnd as [Hout Hnd].
  apply write_config_file_Ok in Hw as (path' & Hpath & Hs & Hf). rewrite adjust_path in Hpath.
  match goal with H1 : file_path f = Ok ?p, H2 : file_path f = Ok _ |- _ => rewrite H1 in H2; injection H2 as <- end.
  match goal with H : mapM_result _ _ = Ok _ |- _ => destruct (IH _ _ Hrest H Hnd) as [Hs' Hf'] end.
  split; [exact (same_files_trans _ _ _ [_] _ Hs Hs')|].
  intros g q [[= -> ->]|Hin]%elem_of_cons; [|by apply Hf']. by rewrite Hs'.
Qed.

Lemma remove_existing_Ok paths h h' :
  remove_existing paths h = (h', Ok tt) → same_files h h' paths ∧ ∀ p, p ∈ paths → files h' !! p = None.
Proof.
  revert h. induction paths as [|p paths IH]; intros h; cbn [remove_existing].
  { intros [= <-]. split; [apply same_files_refl|by intros p ?%elem_of_nil]. }
  intros (h1 & [] & Hr & Hrest)%st_bind_Ok. apply IH in Hrest as [Hs Hn].
  assert (same_files h h1 [p] ∧ files h1 !! p = None) as [Hs1 Hn1].
  { destruct (path_exists h p) eqn:E.
    - apply st_map_err_Ok, remove_file_files in Hr as (? & Hnone & _). split; [done|]. by apply Hnone.
    - injection Hr as <-. split; [apply same_files_refl|]. unfold path_exists in E.
      apply orb_false_iff in E as [[_ E]%orb_false_iff _]. apply bool_decide_eq_false_1 in E. by apply eq_None_not_Some. }
  split; [exact (same_files_trans _ _ _ [_] _ Hs1 Hs)|]. intros q [->|Hq]%elem_of_cons; [|by apply Hn].
  destruct (decide (p ∈ paths)); [by apply Hn|]. by rewrite Hs.
Qed.

Lemma fetch_net_config_files h h' r : fetch_net_config h = (h', r) → files h' = files h.
Proof.
  assert (∀ path, ∀ h h' r, st_ok (read_to_string path) h = (h', r) → files h' = files h) as Hread.
  { intros path h0 h1 r1. unfold st_ok. destruct (read_to_string path h0) as [h2 r2] eqn:E.
    intros [= <- _]. by apply read_to_string_files in E as [? _]. }
  unfold fetch_net_config. repeat case_match; intros Hf;
    (apply st_bind_inv in Hf as [(e & Hr & ->)|(h1 & content & Hr & Hf)]; apply Hread in Hr; [done|];
     apply st_lift_inv in Hf as [(e & _ & -> & ->)|(c & _ & Hf)]; [done|]; by injection Hf as <- _).
Qed.

Definition primary_file (id : InterfaceId) : string * string :=
  match id with Name n => (PRIMARY_INTERFACE, name_inner n) | Mac m => (PRIMARY_MAC_ADDRESS, mac_inner m) end.
Definition other_primary_file (id : InterfaceId) : string :=
  match id with Name n => PRIMARY_MAC_ADDRESS | Mac m => PRIMARY_INTERFACE end.

Lemma config_path_not_primary name ext p :
  p ∈ [PRIMARY_INTERFACE; PRIMARY_MAC_ADDRESS] → config_file_path name ext ≠ p.
Proof. set_unfold. by intros [-> | [-> | []]]. Qed.
End writing.

(** A device that is configured by its MAC address never counts as the primary interface,
    which is known by its name: its drop-in turns DNS from DHCP off. *)
Lemma mac_never_primary settings m primary :
  mac_shape m → no_char COLON primary →
  dropin_new settings (bool_decide (id_to_string (Mac m) = primary)) = mk_dropin false false false.
Proof.
  intros (os & Hm & Hlen & _) Hno. rewrite bool_decide_eq_false_2; [done|]. cbn. rewrite Hm. intros E.
  destruct os as [|o [|o2 os]]; [done..|]. rewrite str_join_cons in E. rewrite <-E in Hno.
  by apply no_char_app in Hno as [_ [Hno _]%no_char_app].
Qed.

(** ** Properties *)

Section properties.
Context {V : Type} `{NetToml V} `{IpText} `{VlanOrder}.

(** C3. Wherever [netdog commit] stops, [net.toml] is what it was or the whole new text,
    and in that case the text is a valid configuration; only success has the new text,
    and then the temporary file is gone.  No other file changes. *)
Theorem commit_atomic tempfile stdin h h' r :
  tempfile ≠ DEFAULT_NET_CONFIG_FILE →
  commit tempfile stdin h = (h', r) →
  same_files h h' [tempfile; DEFAULT_NET_CONFIG_FILE] ∧
  match r with
  | Ok _ => files h' !! tempfile = None ∧
      ∃ content c, stdin = Some content ∧ files h' !! DEFAULT_NET_CONFIG_FILE = Some content ∧
        deserialize_config content = Ok c
  | Err _ => files h' !! DEFAULT_NET_CONFIG_FILE = files h !! DEFAULT_NET_CONFIG_FILE
  end.
Proof.
  intros Htmp. unfold commit. intros Hc.
  assert (DEFAULT_NET_CONFIG_FILE ∉ [tempfile]) as Hnot by (intros E%list_elem_of_singleton; by subst).
  apply st_lift_inv in Hc as [(e & _ & -> & ->)|(content & Hin & Hc)]; [by split|].
  apply st_lift_inv in Hc as [(e & _ & -> & ->)|(c & Hd & Hc)]; [by split|].
  apply ok_or_Ok in Hin. apply map_err_Ok in Hd.
  destruct (negb _); [by injection Hc as <- <-|].
  apply st_bind_inv in Hc as [(e & Hw & ->)|(h1 & [] & Hw & Hc)];
    apply st_map_err_inv in Hw as (r1 & Hw & _); apply fs_write_files in Hw as [Hs1 _].
  { split; [|by apply Hs1]. intros p Hp. apply Hs1. set_solver. }
  apply drop_tempfile_files in Hc as (h2 & r2 & Hc & -> & Hs3 & Hsame).
  apply st_bind_inv in Hc as [(e & Hw2 & ->)|(h3 & [] & Hw2 & Hr)];
    apply st_map_err_inv in Hw2 as (r3 & Hw2 & Er3); apply fs_write_files in Hw2 as [Hs2 Hcont].
  { split; [|by rewrite Hs3, Hs2, Hs1]. intros p Hp. rewrite Hs3, Hs2, Hs1; [done|set_solver..]. }
  apply st_map_err_inv in Hr as (r4 & Hr & ->). apply rename_files in Hr as [[Hf Hne]|(content' & Ht & Hf & ->)].
  - assert (same_files h h2 [tempfile; DEFAULT_NET_CONFIG_FILE]) as Hs4.
    { intros p Hp. rewrite Hf, Hs2, Hs1; [done|set_solver..]. }
    destruct r4 as [[]|e]; [done|]. cbn. split.
    + intros p Hp. rewrite Hs3 by set_solver. by apply Hs4.
    + by rewrite Hs3, Hf, Hs2, Hs1.
  - specialize (Hsame eq_refl) as ->. rewrite Hcont in Ht by (by destruct r3 as [[]|]). injection Ht as <-. cbn. split.
    + intros p Hp. rewrite Hf, lookup_insert_ne, lookup_delete_ne by set_solver. rewrite Hs2, Hs1; [done|set_solver..].
    + split; [by rewrite Hf, lookup_insert_ne, lookup_delete_eq by done|]. exists content, c.
      split; [by destruct stdin|]. split; [by rewrite Hf, lookup_insert_eq|done].
Qed.

(** When [netdog generate-net-config] succeeds with a valid configuration, every file
    of the configuration stands on disk with its whole text (with the fixed defaults for
    the kernel command line), exactly one of the two primary-interface files exists and
    names the primary interface, and no other file was touched; without a configuration
    nothing is written. *)
Lemma generate_net_config_writes h h' :
  generate_net_config h = (h', Ok tt) →
  ∃ h1 maybe_config source, fetch_net_config h = (h1, Ok (maybe_config, source)) ∧
    match maybe_config with
    | None => files h' = files h
    | Some c =>
        config_ok c → (∀ m, Mac m ∈ interfaces c → ∃ s, mac_try_from s = Ok m) →
        ∃ n primary, as_networkd_config c = Ok n ∧ primary_interface c = Some primary ∧
          (no_clash (devices n ≫= network_ids) →
           ∃ paths, mapM_result file_path (create_files n) = Ok paths ∧
             (∀ f path, (f, path) ∈ zip (create_files n) paths →
                files h' !! path = Some (file_to_string (adjust (bool_decide (source = KERNEL_CMDLINE)) f))) ∧
             files h' !! (primary_file primary).1 = Some (primary_file primary).2 ∧
             files h' !! other_primary_file primary = None ∧
             same_files h h' (PRIMARY_INTERFACE :: PRIMARY_MAC_ADDRESS :: paths))
    end.
Proof.
  unfold generate_net_config. intros (h1 & [maybe source] & Hfetch & Hrun)%st_bind_Ok.
  exists h1, maybe, source. split; [done|]. apply fetch_net_config_files in Hfetch as Hf1.
  destruct maybe as [c|]; [|by injection Hrun as <-]. intros Hc Hmac.
  apply st_bind_Ok in Hrun as (h2 & primary & Hp & Hrun). apply st_lift_Ok in Hp as [-> Hp]. apply ok_or_Ok in Hp.
  apply st_bind_Ok in Hrun as (h3 & [] & Hrem & Hrun). apply remove_existing_Ok in Hrem as [Hs3 Hn3].
  apply st_bind_Ok in Hrun as (h4 & [] & Hw & Hrun).
  assert (same_files h3 h4 [(primary_file primary).1] ∧ files h4 !! (primary_file primary).1 = Some (primary_file primary).2)
    as [Hs4 Hf4].
  { unfold write_primary_interface in Hw. apply st_map_err_Ok in Hw.
    destruct primary; apply fs_write_files in Hw as [? Hw]; (split; [done|by apply Hw]). }
  unfold write_network_config_files in Hrun. apply st_bind_Ok in Hrun as (h5 & [] & Hdir & Hrun).
  apply st_map_err_Ok, create_dir_all_files in Hdir. apply st_bind_Ok in Hrun as (h6 & n & Hn & Hrun).
  apply st_lift_Ok in Hn as [-> Hn]. apply map_err_Ok in Hn. exists n, primary. split; [done|]. split; [done|].
  intros Hclash. destruct (config_devices_ok c Hc) as (ds & Hds & Hnames & Hok).
  rewrite as_networkd_config_devices, Hds in Hn. injection Hn as <-.
  destruct (written_paths ds Hok) as (paths & Hpaths & Hnd & Hshape); [by rewrite Hnames|done|]. exists paths. split; [done|].
  destruct (write_files_Ok _ _ _ _ _ Hrun Hpaths Hnd) as [Hs6 Hf6]. split; [done|].
  assert (∀ p, p ∈ [PRIMARY_INTERFACE; PRIMARY_MAC_ADDRESS] → p ∉ paths) as Hout.
  { intros p Hin Hpin. apply (proj1 (Forall_forall _ _) Hshape) in Hpin as (name & ext & ->).
    by eapply config_path_not_primary. }
  assert ((primary_file primary).1 ∈ [PRIMARY_INTERFACE; PRIMARY_MAC_ADDRESS] ∧
          other_primary_file primary ∈ [PRIMARY_INTERFACE; PRIMARY_MAC_ADDRESS] ∧
          other_primary_file primary ∉ [(primary_file primary).1]) as (Hp1 & Hp2 & Hp3).
  { destruct primary; (split; [set_solver|]); (split; [set_solver|]); by intros ?%list_elem_of_singleton. }
  split; [by rewrite Hs6, Hdir by (by apply Hout)|]. split; [by rewrite Hs6, Hdir, Hs4, Hn3 by (done || by apply Hout)|].
  intros p Hp'. rewrite Hs6, Hdir, Hs4, Hs3, Hf1; [done|..]; set_solver.
Qed.
End properties.

(** ** Witnesses *)

#[local] Existing Instance example_order.
#[local] Existing Instance example_text.
#[local] Instance example_toml : NetToml () := {|
  parse_versioned s := if str_is_empty s then None else Some (3%Z, tt);
  config1_of _ := None; config2_of _ := None;
  config3_of _ := match example_config with ConfigV3 c => Some c | _ => None end |}.

Definition example_host : Host :=
  mk_host {[DEFAULT_NET_CONFIG_FILE := "old"]} {["/.bottlerocket"]} ∅ (replicate 20 Works) [] [].
(** The write of the temporary file fails after three bytes. *)
Definition failing_host : Host :=
  mk_host {[DEFAULT_NET_CONFIG_FILE := "old"]} {["/.bottlerocket"]} ∅ [Works; Fails (Some 3); Works] [] [].

Lemma commit_atomic_witness :
  ((commit "/.bottlerocket/tmp" (Some "new") example_host).2 = Ok tt ∧
   files (commit "/.bottlerocket/tmp" (Some "new") example_host).1 !! DEFAULT_NET_CONFIG_FILE = Some "new") ∧
  (commit "/.bottlerocket/tmp" (Some "new") failing_host).2 = Err WriteTempFile ∧
  files (commit "/.bottlerocket/tmp" (Some "new") failing_host).1 !! DEFAULT_NET_CONFIG_FILE = Some "old".
Proof.
  split; [split; vm_compute; reflexivity|]. split; [vm_compute; reflexivity|].
  destruct (commit_atomic "/.bottlerocket/tmp" (Some "new") failing_host
    (commit "/.bottlerocket/tmp" (Some "new") failing_host).1 (Err WriteTempFile)) as [_ Hc].
  - discriminate.
  - transitivity ((commit "/.bottlerocket/tmp" (Some "new") failing_host).1,
                  (commit "/.bottlerocket/tmp" (Some "new") failing_host).2); [apply surjective_pairing|].
    apply (f_equal (pair _)). vm_compute. reflexivity.
  - rewrite Hc. reflexivity.
Defined.

Lemma generate_net_config_writes_witness :
  files (generate_net_config example_host).1 !! PRIMARY_INTERFACE = Some "eno1" ∧
  files (generate_net_config example_host).1 !! "/etc/systemd/network/10-vlan20.network" ≠ None ∧
  ∃ h1 c, fetch_net_config example_host = (h1, Ok c).
Proof.
  split; [vm_compute; reflexivity|]. split; [vm_compute; discriminate|].
  destruct (generate_net_config_writes example_host (generate_net_config example_host).1) as (h1 & c & source & Hf & _).
  - transitivity ((generate_net_config example_host).1, (generate_net_config example_host).2); [apply surjective_pairing|].
    apply (f_equal (pair _)). vm_compute. reflexivity.
  - exists h1, (c, source). exact Hf.
Defined.
