(* ===== verification/Regex.v ===== *)
(** * Regular expressions, as the [regex] crate matches them

    Expressions with captures, on the characters of a string.  Of the ways to match, the
    first in order of preference counts: an optional part and a repetition take as much
    as they can.  [matches_to] says that a match proceeds from one position to another
    whatever follows; its rules evaluate an expression on a text with variable parts. *)
From S2P Require Import Prelude Chars.
From stdpp Require Import base list strings gmap.
From stdpp Require Import options.

(** ** Definitions *)

Inductive regex :=
| Class (f : string → bool)
| Seq (r1 r2 : regex)
| Opt (r : regex)
| Star (r : regex)
| Capture (name : string) (r : regex).

Abbreviation caps := (gmap string (list string)).

(** Matches [r] and goes on with [k]; each round of a repetition consumes characters, so that [s] has fuel
    enough for all of them. *)
Fixpoint match_from (r : regex) (s : list string) (c : caps) (k : list string → caps → option caps) : option caps :=
  match r with
  | Class f => match s with a :: s' => if f a then k s' c else None | [] => None end
  | Seq r1 r2 => match_from r1 s c (λ s c, match_from r2 s c k)
  | Opt r => match match_from r s c k with Some x => Some x | None => k s c end
  | Star r =>
      (fix rounds (fuel : nat) (s : list string) (c : caps) : option caps :=
         match fuel with
         | 0 => k s c
         | S fuel =>
             match match_from r s c (λ s' c', if length s' <? length s then rounds fuel s' c' else None) with
             | Some x => Some x
             | None => k s c
             end
         end) (length s) s c
  | Capture name r =>
      match_from r s c (λ s' c', k s' (<[name := take (length s - length s') s]> c'))
  end.

(** [captures], for an expression between [^] and [$]. *)
Definition captures (r : regex) (s : string) : option caps :=
  match_from r (str_chars s) ∅ (λ s c, match s with [] => Some c | _ => None end).
Definition captured (name : string) (c : caps) : option string := str_concat <$> c !! name.

(** The rest of the text after a match at its start. *)
Definition match_end (r : regex) (s : list string) : option (list string) :=
  match_from r s ∅ (λ s _, Some (<[EmptyString := s]> ∅)) ≫= (λ c, c !! EmptyString).

(** [Regex::split], for an expression that does not match the empty text. *)
Fixpoint split_from (r : regex) (fuel : nat) (piece s : list string) : list (list string) :=
  match fuel, s with
  | S fuel, a :: s' =>
      match match_end r s with
      | Some rest => piece :: split_from r fuel [] rest
      | None => split_from r fuel (piece ++ [a]) s'
      end
  | _, _ => [piece ++ s]
  end.
Definition re_split (r : regex) (s : string) : list string :=
  str_concat <$> split_from r (str_len s) [] (str_chars s).

Definition Plus (r : regex) : regex := Seq r (Star r).
Definition Lit (a : string) : regex := Class (λ b, bool_decide (b = a)).
Definition SpaceChar : regex := Class char_is_whitespace.

(** ** The rules of matching *)

Definition matches_to (r : regex) (s : list string) (c : caps) (s' : list string) (c' : caps) : Prop :=
  ∀ k x, k s' c' = Some x → match_from r s c k = Some x.
Definition does_not_match (r : regex) (s : list string) : Prop := ∀ c k, match_from r s c k = None.

Lemma match_from_ext r s c k1 k2 : (∀ s c, k1 s c = k2 s c) → match_from r s c k1 = match_from r s c k2.
Proof.
  revert s c k1 k2. induction r as [f|r1 IH1 r2 IH2|r IH|r IH|n r IH]; intros s c k1 k2 Hk; cbn -[Nat.ltb].
  - destruct s as [|b s]; [done|]. by destruct (f b).
  - apply IH1. intros. by apply IH2.
  - by rewrite (IH _ _ _ _ Hk), Hk.
  - generalize (length s) as fuel. intros fuel. revert s c. induction fuel as [|fuel IHf]; intros s c; [done|].
    cbn -[Nat.ltb]. rewrite Hk. erewrite IH; [done|]. intros s' c'. cbn -[Nat.ltb].
    destruct (_ <? _); [apply IHf|done].
  - apply IH. intros. by rewrite Hk.
Qed.

(** The rounds of a repetition, with more fuel than needed. *)
Definition rounds (r : regex) (k : list string → caps → option caps) : nat → list string → caps → option caps :=
  fix rounds fuel s c :=
    match fuel with
    | 0 => k s c
    | S fuel =>
        match match_from r s c (λ s' c', if length s' <? length s then rounds fuel s' c' else None) with
        | Some x => Some x
        | None => k s c
        end
    end.

Lemma match_from_none r s c k : (∀ s c, k s c = None) → match_from r s c k = None.
Proof.
  revert s c k. induction r as [f|r1 IH1 r2 IH2|r IH|r IH|n r IH]; intros s c k Hk; cbn -[Nat.ltb].
  - destruct s as [|b s]; [done|]. by destruct (f b).
  - apply IH1. intros. by apply IH2.
  - by rewrite IH, Hk.
  - generalize (length s) as fuel. intros fuel. revert s c. induction fuel as [|fuel IHf]; intros s c; [apply Hk|].
    cbn -[Nat.ltb]. rewrite IH; [apply Hk|]. intros s' c'. cbn -[Nat.ltb]. destruct (_ <? _); [apply IHf|done].
  - apply IH. intros. apply Hk.
Qed.

Lemma rounds_fuel r k f1 f2 s c : length s ≤ f1 → length s ≤ f2 → rounds r k f1 s c = rounds r k f2 s c.
Proof.
  assert (∀ f c, rounds r k f [] c = k [] c) as Hnil.
  { intros [|f] c'; [done|]. cbn. by rewrite match_from_none. }
  revert f2 s c. induction f1 as [|f1 IH]; intros f2 s c H1 H2.
  { destruct s; [|cbn in H1; lia]. by rewrite !Hnil. }
  destruct f2 as [|f2].
  { destruct s; [|cbn in H2; lia]. by rewrite !Hnil. }
  cbn -[Nat.ltb].
  rewrite (match_from_ext r s c _ (λ s' c', if length s' <? length s then rounds r k f2 s' c' else None)); [done|].
  intros s' c'. destruct (Nat.ltb_spec (length s') (length s)); [|done]. apply IH; lia.
Qed.

Lemma match_star r s c k : match_from (Star r) s c k = rounds r k (length s) s c.
Proof. done. Qed.

Lemma to_class (f : string → bool) a s c : f a = true → matches_to (Class f) (a :: s) c s c.
Proof. intros Hf k x Hk. cbn. by rewrite Hf. Qed.

Lemma to_seq r1 r2 s c s1 c1 s2 c2 :
  matches_to r1 s c s1 c1 → matches_to r2 s1 c1 s2 c2 → matches_to (Seq r1 r2) s c s2 c2.
Proof. intros H1 H2 k x Hk. cbn. apply H1. by apply H2. Qed.

Lemma to_opt r s c s' c' : matches_to r s c s' c' → matches_to (Opt r) s c s' c'.
Proof. intros Hr k x Hk. cbn. by rewrite (Hr _ _ Hk). Qed.

Lemma to_opt_none r s c : does_not_match r s → matches_to (Opt r) s c s c.
Proof. intros Hr k x Hk. cbn. by rewrite Hr. Qed.

Lemma to_star_nil r s c : does_not_match r s → matches_to (Star r) s c s c.
Proof. intros Hr k x Hk. rewrite match_star. destruct (length s); cbn; [done|]. by rewrite Hr. Qed.

Lemma to_star_round r s c s1 c1 s2 c2 : length s1 < length s →
  matches_to r s c s1 c1 → matches_to (Star r) s1 c1 s2 c2 → matches_to (Star r) s c s2 c2.
Proof.
  intros Hl H1 H2 k x Hk. rewrite match_star. destruct (length s) as [|n] eqn:En; [lia|]. cbn -[Nat.ltb].
  erewrite H1; [done|]. rewrite En. rewrite (proj2 (Nat.ltb_lt _ _)) by lia.
  specialize (H2 k x Hk). rewrite match_star in H2. by rewrite (rounds_fuel _ _ _ (length s1)) by lia.
Qed.

Lemma to_capture name r s c s' c' : matches_to r s c s' c' →
  matches_to (Capture name r) s c s' (<[name := take (length s - length s') s]> c').
Proof. intros Hr k x Hk. cbn. by apply Hr. Qed.

Lemma take_prefix {A} (l l' : list A) : take (length (l ++ l') - length l') (l ++ l') = l.
Proof. rewrite length_app, Nat.add_sub. apply take_app_length. Qed.

Lemma no_class (f : string → bool) s : match s with a :: _ => f a = false | [] => True end → does_not_match (Class f) s.
Proof. intros Hf c k. cbn. destruct s as [|a s]; [done|]. by rewrite Hf. Qed.

Lemma no_seq r1 r2 s : does_not_match r1 s → does_not_match (Seq r1 r2) s.
Proof. intros Hr c k. cbn. by rewrite Hr. Qed.

(** After a repetition of a class that is not there, what follows does not match either. *)
Lemma no_seq_star f r2 s : match s with a :: _ => f a = false | [] => True end → does_not_match r2 s →
  does_not_match (Seq (Star (Class f)) r2) s.
Proof.
  intros Hf Hr c k. cbn -[match_from]. change (match_from (Star (Class f)) s c (λ s c, match_from r2 s c k) = None).
  rewrite match_star. destruct (length s); cbn; [apply Hr|]. destruct s as [|a s]; [apply Hr|]. rewrite Hf. apply Hr.
Qed.

(** A repetition of a class takes the whole run of its characters. *)
Lemma to_star_class f run s c : Forall (λ a, f a = true) run →
  match s with a :: _ => f a = false | [] => True end → matches_to (Star (Class f)) (run ++ s) c s c.
Proof.
  intros Hr Hs. induction run as [|a run IH]; cbn [app].
  - by apply to_star_nil, no_class.
  - apply Forall_cons in Hr as [Ha Hr]. eapply to_star_round; [|by apply to_class|by apply IH]. cbn. lia.
Qed.

Lemma to_plus_class f run s c : run ≠ [] → Forall (λ a, f a = true) run →
  match s with a :: _ => f a = false | [] => True end → matches_to (Plus (Class f)) (run ++ s) c s c.
Proof.
  destruct run as [|a run]; [done|]. intros _ [Ha Hr]%Forall_cons Hs. cbn [app].
  eapply to_seq; [by apply to_class|by apply to_star_class].
Qed.

Lemma captures_to r s c : matches_to r (str_chars s) ∅ [] c → captures r s = Some c.
Proof. intros Hm. unfold captures. by apply Hm. Qed.
