(* ===== verification/SchnauzerHelpers.v ===== *)
(** * Template helpers ([sources/api/schnauzer/src/helpers])

    A helper is a function of its call (the values of its parameters and the template
    that it is in) to the text that it writes, a value or the choice of a block.  Output
    goes to a string, so that writing does not fail.  The machine that it runs on is the
    class [HelperHost]; the class [HelperLib] holds other crates: base 64, URLs, CIDR
    blocks, TOML, the settings types, and Unicode's lower case. *)
From S2P Require Import Prelude Json KeyMap BTree Numbers Chars NetConfig.
From Stdlib Require Import Ascii SpecFloat.
From stdpp Require Import base list strings gmap sorting.
From stdpp Require Import options.

(** ** Definitions *)

#[export] Instance ip_addr_eq_dec : EqDecision IpAddr.
Proof. solve_decision. Defined.

Record param := mk_param { param_value : json; relative_path : option string }.
(** [handlebars::Helper], with the name of the root template of the render context. *)
Record helper_call := mk_call {
  call_name : string;
  params : list param;
  root_template_name : option string }.

Inductive template_error :=
| AwsRegion (value : json) (template : string)
| IncorrectNumberOfParams (expected received : nat) (helper template : string)
| ParamUnwrap
| InvalidOciSpecSection (section : string)
| InvalidTemplateValue (expected : string) (value : json) (template : string)
| UnparseableTemplateValue (expected : string) (value : json) (template : string)
| JoinStringsWrongType (expected_type : string) (value : json) (template : string)
| MissingParam (index : nat) (helper_name : string)
| MissingParamPath (index : nat) (helper_name : string)
| MissingTemplateData (template : string)
| Base64Decode (template : string)
| InvalidUTF8 (base64_string template : string)
| UnknownArch (given : string)
| InvalidCidr (cidr : string)
| InvalidIPAddress (ip_address : string)
| CheckEfaFailure
| UrlParse (url_str template : string)
| UrlHost (url_str : string)
| ConvertNumber (what number target : string)
| ConvertUsizeToU16 (number : Z)
| InvalidOutputType (runtime : string)
| InvalidMetadataServiceLimits (rps burst : json)
| TomlEncode (value : json) (template : string)
(** [RenderError::new], an error of [serde_json], an error of [handlebars_helper!] *)
| RenderMessage (msg : string)
| RenderJson
| MacroParam (index : nat).

(** Other crates. *)
Class HelperLib := {
  float_text : Z → string;
  to_lowercase : string → string;
  base64_encode : string → string;
  base64_decode_bytes : string → option string;
  base64_roundtrip s : base64_decode_bytes (base64_encode s) = Some s;
  (** [Url::parse], then [host_str] *)
  url_host : string → option (option string);
  (** [AnyIpCidr::from_str], then [first_address] *)
  cidr_first_address : string → option (option IpAddr);
  (** [toml::Value] of JSON, and its text *)
  toml_text : json → option string;
  (** [EtcHostsEntries] of JSON, and [iter_merged] *)
  etc_hosts_of_json : json → option (list (IpAddr * list string));
  capability : Type;
  capability_eq_dec : EqDecision capability;
  capability_countable : Countable capability;
  capability_linux_string : capability → string;
  capabilities_of_json : json → option (gmap capability bool);
  limit_type : Type;
  limit_type_eq_dec : EqDecision limit_type;
  limit_type_countable : Countable limit_type;
  MaxLockedMemory : limit_type;
  limit_linux_string : limit_type → string;
  limits_of_json : json → option (gmap limit_type (Z * Z)) }.
#[export] Existing Instances capability_eq_dec capability_countable limit_type_eq_dec limit_type_countable.

(** The machine: the FIPS switch, [num_cpus::get], the resolver, the PCI bus. *)
Class HelperHost := {
  fips_sysctl : option string;
  num_cpus : Z;
  lookup_host : string → option (list IpAddr);
  efa_attached : option bool }.

Definition DQ : string := char_of (ascii_of_nat 34).
Definition quoted (s : string) : string := DQ +:+ s +:+ DQ.

(** *** Reading values *)

Definition as_u64 (v : json) : option Z := match v with JNumber (PosInt n) => Some n | _ => None end.
Definition as_object (v : json) : option (list (string * json)) := match v with JObject m => Some m | _ => None end.
Definition is_object (v : json) : bool := match v with JObject _ => true | _ => false end.
Definition is_null (v : json) : bool := match v with JNull => true | _ => false end.
Definition is_boolean (v : json) : bool := match v with JBool _ => true | _ => false end.
Definition is_number (v : json) : bool := match v with JNumber _ => true | _ => false end.
Definition is_string (v : json) : bool := match v with JString _ => true | _ => false end.
Definition is_array (v : json) : bool := match v with JArray _ => true | _ => false end.

Definition bool_text (b : bool) : string := if b then "true" else "false".
Definition number_text `{HelperLib} (n : number) : string :=
  match n with
  | PosInt z => unsigned_to_string z
  | NegInt z => "-" +:+ unsigned_to_string (- z)
  | Float b => float_text b
  end.
(** The [Display] form of a scalar, without the quotes of JSON. *)
Definition scalar_text `{HelperLib} (v : json) : option string :=
  match v with
  | JBool b => Some (bool_text b)
  | JNumber n => Some (number_text n)
  | JString s => Some s
  | _ => None
  end.

(** [str::replace], for a pattern that is not empty; [skip] bytes are part of a match. *)
Fixpoint str_replace_from (pat rep : string) (skip : nat) (s : string) : string :=
  match s, skip with
  | EmptyString, _ => EmptyString
  | String _ t, S skip => str_replace_from pat rep skip t
  | String a t, 0 =>
      if str_starts_with s pat then rep +:+ str_replace_from pat rep (str_len pat - 1) t
      else String a (str_replace_from pat rep 0 t)
  end.
Definition str_replace_all (pat rep s : string) : string := str_replace_from pat rep 0 s.

(** [Vec<String>::sort] *)
Fixpoint insert_string (s : string) (l : list string) : list string :=
  match l with
  | [] => [s]
  | t :: l' => if oleb s t then s :: l else t :: insert_string s l'
  end.
Definition sort_strings (l : list string) : list string := foldr insert_string [] l.

Definition template_name (c : helper_call) : string := default "dynamic template" (root_template_name c).

Definition check_param_count (c : helper_call) (expected : nat) : result template_error () :=
  ensure (bool_decide (length (params c) = expected))
    (IncorrectNumberOfParams expected (length (params c)) (call_name c) (template_name c)).

Definition get_param (c : helper_call) (idx : nat) : result template_error json :=
  ok_or (param_value <$> params c !! idx) (MissingParam idx (call_name c)).

(** [helper.param(i).map(|v| v.value()).context(ParamUnwrap)] *)
Definition unwrap_param (c : helper_call) (idx : nat) : result template_error json :=
  ok_or (param_value <$> params c !! idx) ParamUnwrap.

Definition get_param_key_name (c : helper_call) (idx : nat) : result template_error string :=
  let? p := ok_or (params c !! idx) (MissingParam idx (call_name c)) in
  ok_or (relative_path p) (MissingParamPath idx (call_name c)).

Definition expect_str (c : helper_call) (v : json) : result template_error string :=
  ok_or (as_str v) (InvalidTemplateValue "string" v (template_name c)).

(** *** [helpers/mod.rs] *)

Definition ECR_MAP : gmap string string := list_to_map [
  ("af-south-1", "917644944286"); ("ap-east-1", "375569722642"); ("ap-east-2", "905418444513");
  ("ap-northeast-1", "328549459982"); ("ap-northeast-2", "328549459982");
  ("ap-northeast-3", "328549459982"); ("ap-south-1", "328549459982"); ("ap-south-2", "764716012617");
  ("ap-southeast-1", "328549459982"); ("ap-southeast-2", "328549459982");
  ("ap-southeast-3", "386774335080"); ("ap-southeast-4", "731751899352");
  ("ap-southeast-5", "851725293737"); ("ap-southeast-6", "471112883808");
  ("ap-southeast-7", "211125308421"); ("ca-central-1", "328549459982"); ("ca-west-1", "253897149516");
  ("cn-north-1", "183470599484"); ("cn-northwest-1", "183901325759"); ("eu-central-1", "328549459982");
  ("eu-central-2", "861738308508"); ("eu-isoe-west-1", "589460436674"); ("eu-north-1", "328549459982");
  ("eu-south-1", "586180183710"); ("eu-south-2", "620625777247"); ("eu-west-1", "328549459982");
  ("eu-west-2", "328549459982"); ("eu-west-3", "328549459982"); ("eusc-de-east-1", "587143065468");
  ("il-central-1", "288123944683"); ("me-central-1", "553577323255"); ("me-south-1", "509306038620");
  ("mx-central-1", "590183770263"); ("sa-east-1", "328549459982"); ("us-east-1", "328549459982");
  ("us-east-2", "328549459982"); ("us-gov-east-1", "388230364387"); ("us-gov-west-1", "347163068887");
  ("us-iso-east-1", "999945528765"); ("us-iso-west-1", "928668704122"); ("us-isob-east-1", "782457047625");
  ("us-isob-west-1", "125731337581"); ("us-isof-east-1", "891631471851");
  ("us-isof-south-1", "482061074055"); ("us-northeast-1", "891377225511"); ("us-west-1", "328549459982");
  ("us-west-2", "328549459982")].
Definition ECR_FIPS_REGIONS : gset string := list_to_set
  ["us-east-1"; "us-east-2"; "us-gov-east-1"; "us-gov-west-1"; "us-west-1"; "us-west-2"].
Definition ECR_FALLBACK_REGION : string := "us-east-1".
Definition ECR_FALLBACK_REGISTRY : string := "328549459982".
Definition TUF_ENDPOINT_MAP : gmap string string := list_to_map [
  ("cn-north-1", "bottlerocket-updates-cn-north-1.s3.dualstack");
  ("cn-northwest-1", "bottlerocket-updates-cn-northwest-1.s3.dualstack");
  ("eu-isoe-west-1", "bottlerocket-updates-eu-isoe-west-1.s3");
  ("us-iso-east-1", "bottlerocket-updates-us-iso-east-1.s3");
  ("us-iso-west-1", "bottlerocket-updates-us-iso-west-1.s3");
  ("us-isob-east-1", "bottlerocket-updates-us-isob-east-1.s3");
  ("us-isob-west-1", "bottlerocket-updates-us-isob-west-1.s3");
  ("us-isof-east-1", "bottlerocket-updates-us-isof-east-1.s3");
  ("us-isof-south-1", "bottlerocket-updates-us-isof-south-1.s3");
  ("eusc-de-east-1", "bottlerocket-updates-eusc-de-east-1.s3")].
Definition TUF_PUBLIC_REPOSITORY : string := "https://updates.bottlerocket.aws".
Definition ALT_PARTITION_MAP : gmap string string := list_to_map [
  ("cn-north-1", "aws-cn"); ("cn-northwest-1", "aws-cn"); ("eu-isoe-west-1", "aws-iso-e");
  ("eusc-de-east-1", "aws-eusc"); ("us-gov-east-1", "aws-us-gov"); ("us-gov-west-1", "aws-us-gov");
  ("us-iso-west-1", "aws-iso"); ("us-iso-east-1", "aws-iso"); ("us-isob-east-1", "aws-iso-b");
  ("us-isob-west-1", "aws-iso-b"); ("us-isof-east-1", "aws-iso-f"); ("us-isof-south-1", "aws-iso-f")].
Definition STANDARD_PARTITION : string := "aws".

(** [127.0.0.1] and [::1]. *)
Definition IPV4_LOCALHOST : IpAddr := V4 (127 * 2 ^ 24 + 1).
Definition IPV6_LOCALHOST : IpAddr := V6 1.
Definition DEFAULT_ECS_METADATA_SERVICE_RPS : Z := 40.
Definition DEFAULT_ECS_METADATA_SERVICE_BURST : Z := 60.
Definition RLIMIT_UNLIMITED : Z := -1.

Section helpers.
Context `{HelperLib} `{HelperHost} `{HashOrder} `{IpText}.

(** The taints of one key. *)
Fixpoint taint_pairs (c : helper_call) (key : string) (values : list json) : result template_error (list string) :=
  match values with
  | [] => Ok []
  | v :: vs =>
      let? taint := expect_str c v in
      let? rest := taint_pairs c key vs in
      Ok ((key +:+ "=" +:+ taint) :: rest)
  end.

Fixpoint node_taint_pairs (c : helper_call) (taints : list (string * json)) : result template_error (list string) :=
  match taints with
  | [] => Ok []
  | (key, v) :: rest =>
      let? pairs := match v with
                    | JArray values => taint_pairs c key values
                    | JNull => Err (InvalidTemplateValue "non-null" v (template_name c))
                    | _ => Err (InvalidTemplateValue "sequence" v (template_name c))
                    end in
      let? more := node_taint_pairs c rest in
      Ok (pairs ++ more)
  end.

Definition join_node_taints (c : helper_call) : result template_error string :=
  let? _ := check_param_count c 1 in
  let? node_taints_value := get_param c 0 in
  match as_object node_taints_value with
  | None => Ok EmptyString
  | Some node_taints =>
      let? pairs := node_taint_pairs c node_taints in
      Ok (str_join "," pairs)
  end.

(** Whether FIPS mode is on; a file that cannot be read says no. *)
Definition fips_enabled : bool :=
  match fips_sysctl with Some s => bool_decide (str_trim s = "1") | None => false end.

Definition ecr_registry (region : string) : string :=
  let '(region, registry_id) := match ECR_MAP !! region with
                                | None => (ECR_FALLBACK_REGION, ECR_FALLBACK_REGISTRY)
                                | Some registry_id => (region, registry_id)
                                end in
  let partition := default STANDARD_PARTITION (ALT_PARTITION_MAP !! region) in
  let at_domain (domain : string) := registry_id +:+ ".dkr.ecr." +:+ region +:+ "." +:+ domain in
  if decide (partition = "aws-cn") then at_domain "amazonaws.com.cn"
  else if decide (partition = "aws-iso") then at_domain "c2s.ic.gov"
  else if decide (partition = "aws-iso-b") then at_domain "sc2s.sgov.gov"
  else if decide (partition = "aws-iso-e") then at_domain "cloud.adc-e.uk"
  else if decide (partition = "aws-iso-f") then at_domain "csp.hci.ic.gov"
  else if decide (partition = "aws-eusc") then at_domain "amazonaws.eu"
  else
    let suffix := if fips_enabled && bool_decide (region ∈ ECR_FIPS_REGIONS) then "-fips" else EmptyString in
    registry_id +:+ ".dkr.ecr" +:+ suffix +:+ "." +:+ region +:+ ".amazonaws.com".

Definition tuf_repository (region : string) : string :=
  match TUF_ENDPOINT_MAP !! region with
  | None => TUF_PUBLIC_REPOSITORY
  | Some endpoint =>
      let partition := default STANDARD_PARTITION (ALT_PARTITION_MAP !! region) in
      let at_domain (domain : string) := "https://" +:+ endpoint +:+ "." +:+ region +:+ "." +:+ domain +:+ "/latest" in
      if decide (partition = "aws-cn") then at_domain "amazonaws.com.cn"
      else if decide (partition = "aws-iso") then at_domain "c2s.ic.gov"
      else if decide (partition = "aws-iso-b") then at_domain "sc2s.sgov.gov"
      else if decide (partition = "aws-iso-e") then at_domain "cloud.adc-e.uk"
      else if decide (partition = "aws-iso-f") then at_domain "csp.hci.ic.gov"
      else if decide (partition = "aws-eusc") then at_domain "amazonaws.eu"
      else at_domain "amazonaws.com"
  end.

(** The region that the first parameter must be. *)
Definition region_param (c : helper_call) : result template_error string :=
  let? _ := check_param_count c 1 in
  let? aws_region := get_param c 0 in
  ok_or (as_str aws_region) (AwsRegion aws_region (template_name c)).

Definition ecr_prefix (c : helper_call) : result template_error string :=
  let? aws_region := region_param c in Ok (ecr_registry aws_region).
Definition tuf_prefix (c : helper_call) : result template_error string :=
  let? aws_region := region_param c in Ok (tuf_repository aws_region).
Definition metadata_prefix (c : helper_call) : result template_error string :=
  let? aws_region := region_param c in
  Ok (if decide (is_Some (TUF_ENDPOINT_MAP !! aws_region)) then "/metadata" else EmptyString).

Definition aws_config_text : string :=
  "[default]" +:+ char_of NEWLINE +:+ "use_fips_endpoint=" +:+ bool_text fips_enabled.

Definition aws_config (c : helper_call) : result template_error string :=
  let? _ := check_param_count c 2 in
  let? aws_config := get_param c 0 in
  if negb (is_null aws_config) then Ok EmptyString
  else
    let? profile := get_param c 1 in
    let? aws_profile := match profile with
                        | JNull => Ok "default"
                        | JString s => Ok s
                        | _ => Err (InvalidTemplateValue "string" profile (template_name c))
                        end in
    if decide (aws_profile = "default") then Ok (base64_encode aws_config_text) else Ok EmptyString.

Definition host (c : helper_call) : result template_error string :=
  let? _ := check_param_count c 1 in
  let? url_val := get_param c 0 in
  let? url_str := expect_str c url_val in
  let? url := ok_or (url_host url_str) (UrlParse url_str (template_name c)) in
  ok_or url (UrlHost url_str).

Definition validate_and_parse_cidr (cidr : string) : result template_error IpAddr :=
  let? parsed_cidr := ok_or (cidr_first_address cidr) (InvalidCidr cidr) in
  ok_or parsed_cidr (RenderMessage "Empty CIDR block").

(** The parameter of [handlebars_helper!(.. |cidr: str| ..)]; further ones are ignored. *)
Definition macro_str_param (c : helper_call) : result template_error string :=
  ok_or (params c !! 0 ≫= λ p, as_str (param_value p)) (MacroParam 0).

Definition is_ipv4_helper (c : helper_call) : result template_error json :=
  let? cidr := macro_str_param c in
  let? ip := validate_and_parse_cidr cidr in Ok (JBool (is_ipv4 ip)).
Definition is_ipv6_helper (c : helper_call) : result template_error json :=
  let? cidr := macro_str_param c in
  let? ip := validate_and_parse_cidr cidr in Ok (JBool (negb (is_ipv4 ip))).

Definition cidr_to_ipaddr (c : helper_call) : result template_error string :=
  let? _ := check_param_count c 1 in
  let? cidr_param := get_param c 0 in
  let? cidr := expect_str c cidr_param in
  let? ip := validate_and_parse_cidr cidr in
  Ok (ip_to_string ip).
End helpers.

(** [std::net::Ipv4Addr]: four decimal numbers without leading zeros. *)
Definition octet_from_str (s : string) : option Z :=
  if str_is_empty s || negb (str_forallb (λ a, bool_decide (is_Some (digit a))) s)
     || (3 <? str_len s) || (str_starts_with s "0" && (1 <? str_len s))
  then None else parse_digits 8 s 0.
Definition octets_from_str (s : string) : option (list Z) :=
  match str_split "." s with
  | [a; b; c; d] =>
      a ← octet_from_str a; b ← octet_from_str b; c ← octet_from_str c; d ← octet_from_str d;
      Some [a; b; c; d]
  | _ => None
  end.
Definition octets_to_string (octets : list Z) : string := str_join "." (unsigned_to_string <$> octets).

Definition replace_ipv4_octet (c : helper_call) : result template_error string :=
  let? _ := check_param_count c 3 in
  let? ip_param := get_param c 0 in
  let? octet_index_param := get_param c 1 in
  let? new_value_param := get_param c 2 in
  let? ip_str := expect_str c ip_param in
  let? octet_index := ok_or (as_u64 octet_index_param)
                        (InvalidTemplateValue "integer" octet_index_param (template_name c)) in
  let? new_value := expect_str c new_value_param in
  let? octets := ok_or (octets_from_str ip_str) (InvalidIPAddress ip_str) in
  let? _ := ensure (octet_index <=? 3)%Z
              (RenderMessage ("Invalid index " +:+ unsigned_to_string octet_index +:+ " for IP address " +:+ ip_str)) in
  let? value := ok_or (parse_unsigned 8 new_value)
                  (RenderMessage "Failed to parse the new octet value as an integer") in
  Ok (octets_to_string (<[Z.to_nat octet_index := value]> octets)).

(** [f32]: the IEEE 754 operations of the standard library. *)
Definition f32_of_int (n : Z) : spec_float := binary_normalize 24 128 n 0 false.
Definition f32_add : spec_float → spec_float → spec_float := SFadd 24 128.
Definition f32_sub : spec_float → spec_float → spec_float := SFsub 24 128.
Definition f32_mul : spec_float → spec_float → spec_float := SFmul 24 128.
(** [f32::floor], for finite values. *)
Definition f32_floor (x : spec_float) : option Z :=
  match x with
  | S754_zero _ => Some 0%Z
  | S754_finite s m e =>
      let signed := (if s then Z.neg m else Z.pos m) in
      Some (if (0 <=? e)%Z then (signed * 2 ^ e)%Z else (signed / 2 ^ (- e))%Z)
  | _ => None
  end.

Definition KUBE_RESERVE_1_CORE : spec_float := f32_of_int 60.
Definition KUBE_RESERVE_2_CORES : spec_float := f32_add KUBE_RESERVE_1_CORE (f32_of_int 10).
Definition KUBE_RESERVE_3_CORES : spec_float := f32_add KUBE_RESERVE_2_CORES (f32_of_int 5).
Definition KUBE_RESERVE_4_CORES : spec_float := f32_add KUBE_RESERVE_3_CORES (f32_of_int 5).
(** [2.5] *)
Definition KUBE_RESERVE_ADDITIONAL : spec_float := binary_normalize 24 128 5 (-1) false.

Definition cpu_to_reserve (num_cores : Z) : spec_float :=
  if (num_cores =? 0)%Z then S754_zero false
  else if (num_cores =? 1)%Z then KUBE_RESERVE_1_CORE
  else if (num_cores =? 2)%Z then KUBE_RESERVE_2_CORES
  else if (num_cores =? 3)%Z then KUBE_RESERVE_3_CORES
  else if (num_cores =? 4)%Z then KUBE_RESERVE_4_CORES
  else f32_add KUBE_RESERVE_4_CORES
         (f32_mul (f32_sub (f32_of_int num_cores) (f32_of_int 4)) KUBE_RESERVE_ADDITIONAL).

(** The text of a whole number below 2^24 is its digits. *)
Definition kube_cpu_helper (num_cores : Z) : result template_error string :=
  let? num_cores := if (num_cores <? 2 ^ 16)%Z then Ok num_cores else Err (ConvertUsizeToU16 num_cores) in
  Ok (unsigned_to_string (default 0%Z (f32_floor (cpu_to_reserve num_cores))) +:+ "m").

Section more_helpers.
Context `{HelperLib} `{HelperHost} `{HashOrder} `{IpText}.

(** The multiplication and addition wrap around, as in a release build. *)
Definition kube_reserve_memory (c : helper_call) : result template_error string :=
  let? _ := check_param_count c 2 in
  let? max_num_pods_val := get_param c 0 in
  let? max_num_pods := match max_num_pods_val with
                       | JNumber n => Ok n
                       | _ => Err (InvalidTemplateValue "number" max_num_pods_val (template_name c))
                       end in
  let? max_num_pods := ok_or (as_u64 (JNumber max_num_pods))
                         (ConvertNumber "number of pods" (number_text max_num_pods) "u64") in
  let? memory_to_reserve_value := get_param c 1 in
  match memory_to_reserve_value with
  | JNumber n => Ok (number_text n)
  | JString s => Ok s
  | JNull => Ok (unsigned_to_string (wrap 64 (max_num_pods * 11 + 255)) +:+ "Mi")
  | _ => Err (InvalidTemplateValue "scalar" memory_to_reserve_value (template_name c))
  end.

Definition kube_reserve_cpu (c : helper_call) : result template_error string :=
  let? _ := check_param_count c 1 in
  let? cpu_to_reserve_value := get_param c 0 in
  match cpu_to_reserve_value with
  | JNumber n => Ok (number_text n)
  | JString s => Ok s
  | JNull => kube_cpu_helper num_cpus
  | _ => Err (InvalidTemplateValue "scalar" cpu_to_reserve_value (template_name c))
  end.

Definition is_loopback (ip : IpAddr) : bool := bool_decide (ip = IPV4_LOCALHOST) || bool_decide (ip = IPV6_LOCALHOST).

Definition hostname_resolveable (hostname : string) (configured_hosts : option (list (IpAddr * list string))) : bool :=
  match configured_hosts with
  | Some entries => existsb (λ e, bool_decide (hostname ∈ e.2)) entries
  | None => false
  end ||
  match lookup_host hostname with
  | Some ip_list => negb (bool_decide (ip_list = []) || existsb is_loopback ip_list)
  | None => false
  end.

(** [settings.network.hosts], or nothing when it is null. *)
Definition hosts_param (c : helper_call) (hosts_value : json) : result template_error (option (list (IpAddr * list string))) :=
  if is_null hosts_value then Ok None
  else Some <$> ok_or (etc_hosts_of_json hosts_value)
                  (UnparseableTemplateValue "EtcHostsEntries" hosts_value (template_name c)).

Definition alias_list (localhost_comparator : IpAddr) (hostname : string)
    (hosts : option (list (IpAddr * list string))) : list string :=
  (if negb (str_is_empty hostname) && negb (hostname_resolveable hostname hosts) then [hostname] else [])
  ++ match hosts with
     | Some hosts => from_option snd [] (snd <$> list_find (λ e, e.1 = localhost_comparator) hosts)
     | None => []
     end.

Definition localhost_aliases (c : helper_call) : result template_error string :=
  let? _ := check_param_count c 3 in
  let? ip_version_value := unwrap_param c 0 in
  let? hostname_value := unwrap_param c 1 in
  let? hosts_value := unwrap_param c 2 in
  let? ip_version := expect_str c ip_version_value in
  let? localhost_comparator :=
    if decide (ip_version = "ipv4") then Ok IPV4_LOCALHOST
    else if decide (ip_version = "ipv6") then Ok IPV6_LOCALHOST
    else Err (InvalidTemplateValue ("one of (" +:+ quoted "ipv4" +:+ ", " +:+ quoted "ipv6" +:+ ")")
                ip_version_value (template_name c)) in
  let? hostname := expect_str c hostname_value in
  let? hosts := hosts_param c hosts_value in
  Ok (str_join " " (alias_list localhost_comparator hostname hosts)).

Definition host_line (e : IpAddr * list string) : string := ip_to_string e.1 +:+ " " +:+ str_join " " e.2.

Definition etc_hosts_entries (c : helper_call) : result template_error string :=
  let? _ := check_param_count c 1 in
  let? hosts_value := unwrap_param c 0 in
  let? hosts := hosts_param c hosts_value in
  match hosts with
  | None => Ok EmptyString
  | Some hosts =>
      Ok (str_join (char_of NEWLINE)
            (host_line <$> filter (λ e, e.1 ≠ IPV4_LOCALHOST ∧ e.1 ≠ IPV6_LOCALHOST) hosts))
  end.

Definition ecs_metadata_service_limits (c : helper_call) : result template_error string :=
  let? _ := check_param_count c 2 in
  let? metadata_service_rps := unwrap_param c 0 in
  let? metadata_service_burst := unwrap_param c 1 in
  match metadata_service_rps, metadata_service_burst with
  | JNumber rps, JNumber burst => Ok (number_text rps +:+ "," +:+ number_text burst)
  | JNumber rps, JNull => Ok (number_text rps +:+ "," +:+ unsigned_to_string DEFAULT_ECS_METADATA_SERVICE_BURST)
  | JNull, JNumber burst => Ok (unsigned_to_string DEFAULT_ECS_METADATA_SERVICE_RPS +:+ "," +:+ number_text burst)
  | JNull, JNull =>
      Ok (unsigned_to_string DEFAULT_ECS_METADATA_SERVICE_RPS +:+ "," +:+
          unsigned_to_string DEFAULT_ECS_METADATA_SERVICE_BURST)
  | rps, burst => Err (InvalidMetadataServiceLimits rps burst)
  end.

(** *** The defaults of the OCI spec *)

Inductive OciSpecSection := Capabilities | ResourceLimits.
Definition oci_spec_section_from_str (s : string) : option OciSpecSection :=
  if decide (s = "capabilities") then Some Capabilities
  else if decide (s = "resource-limits") then Some ResourceLimits else None.
Inductive Runtime := Docker | Containerd.
Definition runtime_from_str (s : string) : option Runtime :=
  if decide (s = "docker") then Some Docker
  else if decide (s = "containerd") then Some Containerd else None.

Definition cap_list (name caps end_ : string) : string := quoted name +:+ ": [" +:+ caps +:+ end_.
Definition get_capabilities (r : Runtime) (caps : string) : string :=
  match r with
  | Docker => "[" +:+ caps +:+ "]"
  | Containerd =>
      let nl := char_of NEWLINE in
      cap_list "bounding" caps ("]," +:+ nl) +:+ cap_list "effective" caps ("]," +:+ nl)
      +:+ cap_list "permitted" caps ("]" +:+ nl)
  end.

(** [values] is the soft limit and the hard limit. *)
Definition i64_text (n : Z) : string := if (n <? 0)%Z then "-" +:+ unsigned_to_string (- n) else unsigned_to_string n.

Definition get_limit (limit : Z) : Z := if (limit =? -1)%Z then (2 ^ 64 - 1)%Z else wrap 64 limit.

Definition get_resource_limits (r : Runtime) (t : limit_type) (values : Z * Z) : string :=
  match r with
  | Docker =>
      let name := to_lowercase (str_replace_all "RLIMIT_" EmptyString (limit_linux_string t)) in
      " " +:+ quoted name +:+ ":{ " +:+ quoted "Name" +:+ ": " +:+ quoted name +:+ ", " +:+ quoted "Hard" +:+ ": "
      +:+ i64_text values.2 +:+ ", " +:+ quoted "Soft" +:+ ": " +:+ i64_text values.1 +:+ " }"
  | Containerd =>
      "{ " +:+ quoted "type" +:+ ": " +:+ quoted (limit_linux_string t) +:+ ", " +:+ quoted "hard" +:+ ": "
      +:+ unsigned_to_string (get_limit values.2) +:+ ", " +:+ quoted "soft" +:+ ": "
      +:+ unsigned_to_string (get_limit values.1) +:+ " }"
  end.

Definition oci_spec_capabilities (value : json) : result template_error string :=
  let? oci_default_capabilities := ok_or (capabilities_of_json value) RenderJson in
  let lines := (λ ce, quoted (capability_linux_string ce.1))
                 <$> filter (λ ce, ce.2 = true) (hash_entries oci_default_capabilities) in
  Ok (str_join ("," +:+ char_of NEWLINE) (sort_strings lines)).

Definition oci_spec_resource_limits (value : json) : result template_error (gmap limit_type (Z * Z)) :=
  ok_or (limits_of_json value) RenderJson.

Definition generate_oci_resource_limits (value : json) (is_efa_attached : option bool)
    : result template_error (gmap limit_type (Z * Z)) :=
  let? rlimits := oci_spec_resource_limits value in
  let? attached := ok_or is_efa_attached CheckEfaFailure in
  Ok (if (attached : bool)
      then match rlimits !! MaxLockedMemory with
           | Some _ => rlimits
           | None => <[MaxLockedMemory := (RLIMIT_UNLIMITED, RLIMIT_UNLIMITED)]> rlimits
           end
      else rlimits).

Definition oci_defaults (c : helper_call) : result template_error string :=
  let? _ := check_param_count c 2 in
  let? runtime_val := get_param c 0 in
  let? runtime_str := expect_str c runtime_val in
  let? runtime := ok_or (runtime_from_str runtime_str) (InvalidOutputType runtime_str) in
  let? oci_defaults_values := get_param c 1 in
  let? settings_path := get_param_key_name c 1 in
  let oci_spec_section := default EmptyString (last (str_split "." settings_path)) in
  let? section := ok_or (oci_spec_section_from_str oci_spec_section) (InvalidOciSpecSection oci_spec_section) in
  match section with
  | Capabilities =>
      let? capabilities := oci_spec_capabilities oci_defaults_values in
      Ok (get_capabilities runtime capabilities)
  | ResourceLimits =>
      let? rlimits := generate_oci_resource_limits oci_defaults_values efa_attached in
      Ok (str_join ("," +:+ char_of NEWLINE)
            ((λ tv, get_resource_limits runtime tv.1 tv.2) <$> hash_entries rlimits))
  end.

(** *** [helpers/stdlib/] *)

(** [EnablableObject] of JSON: a struct is also read from an array of its fields. *)
Definition enablable_object (v : json) : option bool :=
  match v with
  | JObject m => match obj_get "enabled" m with Some (JBool b) => Some b | _ => None end
  | JArray [JBool b] => Some b
  | _ => None
  end.
Definition enabled (v : json) : bool := default false (enablable_object v).

Definition any_enabled (c : helper_call) : result template_error json :=
  let? arg := ok_or (param_value <$> params c !! 0) (MacroParam 0) in
  Ok (JBool (match arg with
             | JArray items => existsb enabled items
             | JObject items => existsb (λ kv, enabled kv.2) items
             | _ => false
             end)).

Definition base64_decode (c : helper_call) : result template_error string :=
  let? _ := check_param_count c 1 in
  let? base64_value := unwrap_param c 0 in
  let? base64_str := expect_str c base64_value in
  let? decoded_bytes := ok_or (base64_decode_bytes base64_str) (Base64Decode (template_name c)) in
  let? _ := ensure (utf8_valid decoded_bytes) (InvalidUTF8 base64_str (template_name c)) in
  Ok decoded_bytes.

Fixpoint map_pairs (c : helper_call) (join_key : string) (map : list (string * json)) : result template_error (list string) :=
  match map with
  | [] => Ok []
  | (key, v) :: rest =>
      let? val := match v with
                  | JBool b => Ok (bool_text b)
                  | JNumber n => Ok (number_text n)
                  | JString s => Ok s
                  | JNull => Err (InvalidTemplateValue "non-null" v (template_name c))
                  | JArray _ | JObject _ => Err (InvalidTemplateValue "scalar" v (template_name c))
                  end in
      let? more := map_pairs c join_key rest in
      Ok ((key +:+ join_key +:+ val) :: more)
  end.

Definition join_map (c : helper_call) : result template_error string :=
  let? _ := check_param_count c 4 in
  let? join_key_val := get_param c 0 in
  let? join_key := expect_str c join_key_val in
  let? join_pairs_val := get_param c 1 in
  let? join_pairs := expect_str c join_pairs_val in
  let? fail_behavior_val := get_param c 2 in
  let? fail_behavior_str := ok_or (as_str fail_behavior_val)
                              (InvalidTemplateValue "string" join_pairs_val (template_name c)) in
  let? fail_if_missing :=
    if decide (fail_behavior_str = "fail-if-missing") then Ok true
    else if decide (fail_behavior_str = "no-fail-if-missing") then Ok false
    else Err (InvalidTemplateValue "fail-if-missing or no-fail-if-missing" fail_behavior_val (template_name c)) in
  let? map_value := get_param c 3 in
  match as_object map_value with
  | None => if fail_if_missing : bool then Err (MissingTemplateData (template_name c)) else Ok EmptyString
  | Some map =>
      let? pairs := map_pairs c join_key map in
      Ok (str_join join_pairs pairs)
  end.

Definition default_helper (c : helper_call) : result template_error string :=
  let? _ := check_param_count c 2 in
  let? default_val := get_param c 0 in
  let? default := ok_or (scalar_text default_val)
                    (InvalidTemplateValue "non-null scalar" default_val (template_name c)) in
  let? requested_value := get_param c 1 in
  match requested_value with
  | JNull => Ok default
  | _ => ok_or (scalar_text requested_value) (InvalidTemplateValue "scalar" requested_value (template_name c))
  end.

(** The block that [if_not_null] renders, where the template has it. *)
Inductive template_block := MainBlock | InverseBlock.
Definition if_not_null (c : helper_call) : result template_error template_block :=
  let? _ := check_param_count c 1 in
  let? param := get_param c 0 in
  Ok (if negb (is_null param) then MainBlock else InverseBlock).

Fixpoint join_array_loop (c : helper_call) (array : list json) (delimiter : string) (i : nat) (l : list json)
    (acc : string) : result template_error string :=
  match l with
  | [] => Ok acc
  | value :: l =>
      let acc := if 0 <? i then acc +:+ delimiter else acc in
      let? s := ok_or (as_str value) (JoinStringsWrongType "string" (JArray array) (template_name c)) in
      join_array_loop c array delimiter (S i) l (acc +:+ quoted s)
  end.

Definition join_array (c : helper_call) : result template_error string :=
  let? _ := check_param_count c 2 in
  let? delimiter_param := get_param c 0 in
  let? delimiter := ok_or (as_str delimiter_param) (JoinStringsWrongType "string" delimiter_param (template_name c)) in
  let? array_param := get_param c 1 in
  let? array := match array_param with
                | JArray array => Ok array
                | _ => Err (JoinStringsWrongType "array" array_param (template_name c))
                end in
  join_array_loop c array delimiter 0 array EmptyString.

Definition goarch (c : helper_call) : result template_error string :=
  let? _ := check_param_count c 1 in
  let? arch_val := get_param c 0 in
  let? arch_str := expect_str c arch_val in
  if decide (arch_str ∈ ["x86_64"; "amd64"]) then Ok "amd64"
  else if decide (arch_str ∈ ["aarch64"; "arm64"]) then Ok "arm64"
  else Err (UnknownArch arch_str).

Definition negate_or_else (c : helper_call) : result template_error string :=
  let? _ := check_param_count c 2 in
  let? fallback_value := get_param c 0 in
  let? value_to_negate := get_param c 1 in
  let? fallback := match fallback_value with
                   | JBool b => Ok b
                   | _ => Err (InvalidTemplateValue "boolean" fallback_value (template_name c))
                   end in
  let? output := match value_to_negate with
                 | JBool b => Ok (negb b)
                 | JNull => Ok fallback
                 | _ => Err (InvalidTemplateValue "boolean" value_to_negate (template_name c))
                 end in
  Ok (bool_text output).

Definition toml_encode (c : helper_call) : result template_error string :=
  let? _ := check_param_count c 1 in
  let? encode_param := get_param c 0 in
  ok_or (toml_text encode_param) (TomlEncode encode_param (template_name c)).

(** [json_type_check_helper!] *)
Definition type_check_helper (check_fn : json → bool) (c : helper_call) : result template_error json :=
  let? _ := check_param_count c 1 in
  let? value := get_param c 0 in
  Ok (JBool (check_fn value)).
Definition IsBool := type_check_helper is_boolean.
Definition IsNumber := type_check_helper is_number.
Definition IsString := type_check_helper is_string.
Definition IsArray := type_check_helper is_array.
Definition IsObject := type_check_helper is_object.
Definition IsNull := type_check_helper is_null.
End more_helpers.

(** ** The reserved CPU *)

(** The documented amounts in millicores, for whole cores. *)
Definition reserved_millicores (n : Z) : Z :=
  if (n =? 0)%Z then 0%Z else if (n =? 1)%Z then 60%Z else if (n =? 2)%Z then 70%Z
  else if (n =? 3)%Z then 75%Z else (80 + (n - 4) * 5 / 2)%Z.

Definition cpu_exact (n : Z) : bool :=
  match f32_floor (cpu_to_reserve n) with Some z => (z =? reserved_millicores n)%Z | None => false end.

(** [f] holds of the [2 ^ k] numbers from [n]. *)
Fixpoint forall_below (f : Z → bool) (k : nat) (n : Z) : bool :=
  match k with
  | 0 => f n
  | S k => forall_below f k n && forall_below f k (n + 2 ^ Z.of_nat k)
  end.

Lemma forall_below_spec f k n m : forall_below f k n = true → (n ≤ m < n + 2 ^ Z.of_nat k)%Z → f m = true.
Proof.
  revert n. induction k as [|k IH]; intros n; cbn [forall_below].
  - intros Hf Hm. replace m with n by (change (2 ^ Z.of_nat 0)%Z with 1%Z in Hm; lia). done.
  - intros [H1 H2]%andb_true_iff Hm. rewrite Nat2Z.inj_succ, Z.pow_succ_r in Hm by lia.
    destruct (decide (m < n + 2 ^ Z.of_nat k)%Z); [apply (IH n)|apply (IH (n + 2 ^ Z.of_nat k)%Z)]; auto; lia.
Qed.

(** The largest number of processors that Linux can be built for. *)
Definition MAX_CPUS : Z := 2 ^ 13.

Lemma cpu_exact_small n : (0 ≤ n < MAX_CPUS)%Z → cpu_exact n = true.
Proof.
  intros Hn. apply (forall_below_spec cpu_exact 13 0); [vm_compute; reflexivity|]. exact Hn.
Qed.

(** Binary floating point does not show in the CPU that is reserved for the kubelet: up to 8191 cores the
    text is the whole part of the documented amount (60, 70, 75, then 80 and 2.5 more for each core over
    four) and the unit; a number of cores that does not fit 16 bits is an error. *)
Lemma kube_cpu_exact n : (0 ≤ n)%Z → (n < MAX_CPUS ∨ 2 ^ 16 ≤ n)%Z →
  kube_cpu_helper n = if (n <? 2 ^ 16)%Z then Ok (unsigned_to_string (reserved_millicores n) +:+ "m")
                      else Err (ConvertUsizeToU16 n).
Proof.
  intros Hn Hr. unfold kube_cpu_helper. destruct (Z.ltb_spec n (2 ^ 16)); [|done]. cbn.
  destruct Hr as [Hr|Hr]; [|lia].
  pose proof (cpu_exact_small n (conj Hn Hr)) as Hc. unfold cpu_exact in Hc.
  destruct (f32_floor (cpu_to_reserve n)) as [z|]; [|done].
  do 3 f_equal. by apply Z.eqb_eq.
Qed.

(** ** Addresses *)

Definition octet_reads_back (n : Z) : bool :=
  match octet_from_str (unsigned_to_string n) with Some m => (m =? n)%Z | None => false end.

Lemma octet_roundtrip n : (0 ≤ n < 256)%Z → octet_from_str (unsigned_to_string n) = Some n.
Proof.
  intros Hn. pose proof (forall_below_spec octet_reads_back 8 0 n ltac:(vm_compute; reflexivity) Hn) as Hb.
  unfold octet_reads_back in Hb. destruct (octet_from_str _); [|done]. by apply Z.eqb_eq in Hb as ->.
Qed.

Lemma octet_from_str_bound s n : octet_from_str s = Some n → (0 ≤ n < 256)%Z.
Proof.
  unfold octet_from_str. destruct (_ || _); [done|]. intros Hd.
  apply (parse_digits_bound 8) in Hd; [|lia]. lia.
Qed.

Lemma octets_from_str_spec s octets : octets_from_str s = Some octets →
  length octets = 4 ∧ Forall (λ n, (0 ≤ n < 256)%Z) octets.
Proof.
  unfold octets_from_str. destruct (str_split "." s) as [|a [|b [|d [|e [|]]]]]; [done..| |done].
  destruct (octet_from_str a) eqn:Ea; [|done]. destruct (octet_from_str b) eqn:Eb; [|done].
  destruct (octet_from_str d) eqn:Ed; [|done]. destruct (octet_from_str e) eqn:Ee; [|done].
  intros [= <-]. split; [done|]. repeat (apply Forall_cons; split; [by eapply octet_from_str_bound|]). by apply Forall_nil.
Qed.

Lemma octets_roundtrip octets : length octets = 4 → Forall (λ n, (0 ≤ n < 256)%Z) octets →
  octets_from_str (octets_to_string octets) = Some octets.
Proof.
  destruct octets as [|a [|b [|d [|e [|]]]]]; try done. intros _ Hf.
  unfold octets_from_str, octets_to_string. rewrite str_split_join; [|done|].
  - rewrite !Forall_cons in Hf. destruct Hf as (Ha & Hb & Hd & He & _). cbn.
    by rewrite !octet_roundtrip by done.
  - apply Forall_fmap, Forall_forall. intros n _. by apply unsigned_to_string_no_char.
Qed.

(** Only the given octet of an address changes. *)
Lemma replace_ipv4_octet_spec c ip i v octets x :
  param_value <$> params c = [JString ip; JNumber (PosInt i); JString v] →
  octets_from_str ip = Some octets → (0 ≤ i ≤ 3)%Z → parse_unsigned 8 v = Some x →
  ∃ out, replace_ipv4_octet c = Ok out ∧ octets_from_str out = Some (<[Z.to_nat i := x]> octets).
Proof.
  intros Hp Ho Hi Hx. exists (octets_to_string (<[Z.to_nat i := x]> octets)). split.
  - unfold replace_ipv4_octet, check_param_count, get_param. rewrite <-!list_lookup_fmap, Hp.
    rewrite <-(length_fmap param_value), Hp. cbn. rewrite Ho. cbn.
    rewrite (proj2 (Z.leb_le i 3)) by lia. cbn. by rewrite Hx.
  - apply octets_from_str_spec in Ho as [Hl Hf]. apply octets_roundtrip; [by rewrite length_insert|].
    apply Forall_insert; [done|]. by apply parse_unsigned_bound in Hx.
Qed.

(** ** The hosts file *)

Section hosts.
Context `{HelperLib} `{HelperHost} `{IpText}.

Lemma find_merged {A} (ip : IpAddr) (hosts : list (IpAddr * list A)) : NoDup hosts.*1 →
  from_option snd [] (snd <$> list_find (λ e, e.1 = ip) hosts) = concat (filter (λ e, e.1 = ip) hosts).*2.
Proof.
  induction hosts as [|[ip' l] hosts IH]; [done|]. rewrite fmap_cons, NoDup_cons. intros [Hn Hd].
  rewrite filter_cons. cbn [list_find fst]. destruct (decide (ip' = ip)) as [->|Hne].
  - cbn. assert (filter (λ e : IpAddr * list A, e.1 = ip) hosts = []) as ->; [|by rewrite app_nil_r].
    apply elem_of_nil_inv. intros [ip'' l'] [Heq Hin]%list_elem_of_filter. cbn in Heq. subst ip''. apply Hn, list_elem_of_fmap. by exists (ip, l').
  - rewrite <-IH by done. by destruct (list_find _ hosts) as [[]|].
Qed.

Lemma split_hosts {A} (hosts : list (IpAddr * A)) :
  hosts ≡ₚ filter (λ e, e.1 = IPV4_LOCALHOST) hosts ++ filter (λ e, e.1 = IPV6_LOCALHOST) hosts
           ++ filter (λ e, e.1 ≠ IPV4_LOCALHOST ∧ e.1 ≠ IPV6_LOCALHOST) hosts.
Proof.
  induction hosts as [|[ip l] hosts IH]; [done|]. rewrite !filter_cons. cbn [fst].
  destruct (decide (ip = IPV4_LOCALHOST)) as [->|H4].
  - rewrite decide_False by done. rewrite decide_False by (by intros []). by constructor.
  - destruct (decide (ip = IPV6_LOCALHOST)) as [->|H6].
    + rewrite decide_False by (by intros []). rewrite <-app_comm_cons, <-Permutation_middle. by constructor.
    + rewrite decide_True by done. rewrite <-!Permutation_middle. by constructor.
Qed.
End hosts.

(** ** Reading parameters *)

Definition values_of (c : helper_call) : list json := param_value <$> params c.

Lemma check_params c l n : values_of c = l → length l = n → check_param_count c n = Ok tt.
Proof. intros <- <-. unfold check_param_count, values_of. by rewrite length_fmap, bool_decide_true. Qed.

Lemma unwrap_params c l i v : values_of c = l → l !! i = Some v → unwrap_param c i = Ok v.
Proof. intros <- Hi. unfold unwrap_param. unfold values_of in Hi. rewrite list_lookup_fmap in Hi. by rewrite Hi. Qed.

Lemma get_params c l i v : values_of c = l → l !! i = Some v → get_param c i = Ok v.
Proof. intros <- Hi. unfold get_param. unfold values_of in Hi. rewrite list_lookup_fmap in Hi. by rewrite Hi. Qed.

(** Evaluates the reading of the parameters of a call with the values of [H]. *)
Ltac read_params H :=
  repeat first
    [ match goal with |- context [check_param_count ?c ?n] => rewrite (check_params c _ n H eq_refl) end
    | match goal with |- context [unwrap_param ?c ?i] => erewrite (unwrap_params c _ i _ H) by reflexivity end
    | match goal with |- context [get_param ?c ?i] => erewrite (get_params c _ i _ H) by reflexivity end ]; cbn.

Section hosts_rendered.
Context `{HelperLib} `{HelperHost} `{IpText}.

(** Where a name of the machine is found without an alias for loopback. *)
Definition found_elsewhere (hostname : string) (hosts : list (IpAddr * list string)) : Prop :=
  (∃ e, e ∈ hosts ∧ hostname ∈ e.2) ∨
  (∃ ips, lookup_host hostname = Some ips ∧ ips ≠ [] ∧ (IPV4_LOCALHOST ∉ ips) ∧ (IPV6_LOCALHOST ∉ ips)).

Lemma existsb_loopback ips : existsb is_loopback ips = false ↔ (IPV4_LOCALHOST ∉ ips) ∧ (IPV6_LOCALHOST ∉ ips).
Proof.
  rewrite <-not_true_iff_false, existsb_exists. unfold is_loopback. split.
  - intros Hn. split; intros Hin; apply Hn; eexists; (split; [by apply list_elem_of_In|]); apply orb_true_iff;
      [left|right]; by apply bool_decide_eq_true_2.
  - intros [H4 H6] (ip & Hin%list_elem_of_In & [->%bool_decide_eq_true_1| ->%bool_decide_eq_true_1]%orb_true_iff); done.
Qed.

Lemma hostname_resolveable_spec hostname hosts :
  hostname_resolveable hostname (Some hosts) = true ↔ found_elsewhere hostname hosts.
Proof.
  unfold hostname_resolveable, found_elsewhere. rewrite orb_true_iff, existsb_exists. apply ZifyClasses.or_morph.
  - setoid_rewrite <-(list_elem_of_In hosts). by setoid_rewrite bool_decide_eq_true.
  - destruct (lookup_host hostname) as [ips|]; [|split; [done|by intros (? & ? & _)]].
    rewrite negb_true_iff, orb_false_iff, bool_decide_eq_false, existsb_loopback. naive_solver.
Qed.

(** The entries of [settings.network.hosts] are rendered once each: those of 127.0.0.1 and of ::1 as aliases
    of the line of their own family, every other one as a line of its own with all its names, in order.  The
    host name comes first on both loopback lines exactly when it is not empty and neither the settings nor
    the resolver knows another address for it. *)
Lemma hosts_rendered_once c4 c6 c hostname v hosts :
  values_of c4 = [JString "ipv4"; JString hostname; v] →
  values_of c6 = [JString "ipv6"; JString hostname; v] →
  values_of c = [v] →
  v ≠ JNull → etc_hosts_of_json v = Some hosts → NoDup hosts.*1 →
  ∃ own hosts4 hosts6 others,
    hosts ≡ₚ hosts4 ++ hosts6 ++ others ∧ others `sublist_of` hosts ∧
    Forall (λ e, e.1 = IPV4_LOCALHOST) hosts4 ∧ Forall (λ e, e.1 = IPV6_LOCALHOST) hosts6 ∧
    Forall (λ e, e.1 ≠ IPV4_LOCALHOST ∧ e.1 ≠ IPV6_LOCALHOST) others ∧
    localhost_aliases c4 = Ok (str_join " " (own ++ concat hosts4.*2)) ∧
    localhost_aliases c6 = Ok (str_join " " (own ++ concat hosts6.*2)) ∧
    etc_hosts_entries c = Ok (str_join (char_of NEWLINE) (host_line <$> others)) ∧
    ((own = [hostname] ∧ hostname ≠ EmptyString ∧ ¬ found_elsewhere hostname hosts) ∨
     (own = [] ∧ (hostname = EmptyString ∨ found_elsewhere hostname hosts))).
Proof.
  intros H4 H6 Hc Hv Hh Hd.
  assert (∀ c, hosts_param c v = Ok (Some hosts)) as Hp by (intros c'; unfold hosts_param; rewrite Hh; by destruct v).
  exists (if negb (str_is_empty hostname) && negb (hostname_resolveable hostname (Some hosts)) then [hostname] else []).
  do 3 eexists. split; [apply split_hosts|]. split; [apply sublist_filter|].
  do 3 (split; [apply Forall_forall; by intros e [? _]%list_elem_of_filter|]).
  split; [|split; [|split]].
  - unfold localhost_aliases. read_params H4. rewrite decide_True by done. cbn.
    rewrite Hp. cbn. unfold alias_list. by rewrite find_merged.
  - unfold localhost_aliases. read_params H6. rewrite decide_False, decide_True by done. cbn.
    rewrite Hp. cbn. unfold alias_list. by rewrite find_merged.
  - unfold etc_hosts_entries. read_params Hc.
    by rewrite Hp.
  - pose proof (hostname_resolveable_spec hostname hosts) as Hr.
    destruct hostname as [|a s]; [right; cbn; auto|].
    destruct (hostname_resolveable _ _); [right|left]; cbn; naive_solver.
Qed.
End hosts_rendered.

(** ** Registries *)

(** Every region with a partition of its own has a registry, and repositories but for GovCloud. *)
Definition regions_consistent : bool :=
  forallb (λ rp, bool_decide (is_Some (ECR_MAP !! rp.1)) &&
                 (bool_decide (is_Some (TUF_ENDPOINT_MAP !! rp.1)) || bool_decide (rp.2 = "aws-us-gov")))
    (map_to_list ALT_PARTITION_MAP) &&
  forallb (λ re, bool_decide (is_Some (ALT_PARTITION_MAP !! re.1))) (map_to_list TUF_ENDPOINT_MAP).

Lemma regions_consistent_ok : regions_consistent = true.
Proof. vm_compute. reflexivity. Qed.

Lemma partition_has_registry region partition : ALT_PARTITION_MAP !! region = Some partition → is_Some (ECR_MAP !! region).
Proof.
  intros Hp. pose proof regions_consistent_ok as [Ha _]%andb_true_iff. rewrite forallb_forall in Ha.
  specialize (Ha (region, partition)). rewrite <-list_elem_of_In, elem_of_map_to_list in Ha.
  specialize (Ha Hp) as [Hr _]%andb_true_iff. by apply bool_decide_eq_true_1 in Hr.
Qed.

(** An unknown region gets the registry of the standard partition; one of another partition never does. *)
Lemma ecr_fallback `{HelperHost} region : ECR_MAP !! region = None →
  ALT_PARTITION_MAP !! region = None ∧ ecr_registry region = ecr_registry "us-east-1".
Proof.
  intros Hn. split.
  - destruct (ALT_PARTITION_MAP !! region) eqn:E; [|done]. apply partition_has_registry in E. rewrite Hn in E. by destruct E.
  - unfold ecr_registry. rewrite Hn. reflexivity.
Qed.

(** The profile that [aws_config] writes decodes to its text. *)
Lemma aws_config_decodes `{HelperLib} `{HelperHost} c d :
  values_of c = [JNull; JNull] → (∀ s, aws_config c = Ok s → values_of d = [JString s]) →
  aws_config c = Ok (base64_encode aws_config_text) ∧ base64_decode d = Ok aws_config_text.
Proof.
  intros Hc Hd.
  assert (aws_config c = Ok (base64_encode aws_config_text)) as Ha.
  { unfold aws_config. read_params Hc. by rewrite decide_True by reflexivity. }
  split; [done|]. specialize (Hd _ Ha).
  assert (utf8_valid aws_config_text = true) as Hu by (unfold aws_config_text; by destruct fips_enabled).
  revert Hd Hu. generalize aws_config_text as s. intros s Hd Hu.
  unfold base64_decode. read_params Hd. rewrite base64_roundtrip. cbn. by rewrite Hu.
Qed.

(** A list inside the array counts as enabled, although it is not an object. *)
Lemma any_enabled_nested name : any_enabled (mk_call name [mk_param (JArray [JArray [JBool true]]) None] None) = Ok (JBool true).
Proof. done. Qed.

(** ** Examples *)

Definition example_hosts : list (IpAddr * list string) :=
  [(IPV4_LOCALHOST, ["local"]); (V4 1, ["router"; "gateway"]); (IPV6_LOCALHOST, ["local6"])].
Definition example_lib : HelperLib.
Proof.
  refine {| float_text _ := EmptyString; to_lowercase s := s; base64_encode s := s; base64_decode_bytes := Some;
    url_host _ := None; cidr_first_address _ := None; toml_text _ := None;
    etc_hosts_of_json _ := Some example_hosts;
    capability := (); capability_linux_string _ := "CAP"; capabilities_of_json _ := None;
    limit_type := (); MaxLockedMemory := tt; limit_linux_string _ := "RLIMIT_MEMLOCK"; limits_of_json _ := None |}.
  done.
Defined.
Definition example_machine : HelperHost :=
  {| fips_sysctl := None; num_cpus := 4; lookup_host _ := None; efa_attached := Some false |}.
Definition example_call (values : list json) : helper_call := mk_call "helper" ((λ v, mk_param v None) <$> values) None.
Definition example_ip_text : IpText.
Proof.
  refine {| ip_to_string _ := "ip"; ip_from_str _ := None; ipnet_to_string _ := "net"; ipnet_from_str _ := None |};
    by intros.
Defined.

Lemma kube_cpu_exact_witness : kube_cpu_helper 96 = Ok "310m".
Proof. rewrite (kube_cpu_exact 96); [by vm_compute|done|by left]. Defined.

Lemma hosts_rendered_once_witness :
  let lib := example_lib in let machine := example_machine in let text := example_ip_text in
  ∃ own hosts4 hosts6 others,
    example_hosts ≡ₚ hosts4 ++ hosts6 ++ others ∧ others `sublist_of` example_hosts ∧
    Forall (λ e, e.1 = IPV4_LOCALHOST) hosts4 ∧ Forall (λ e, e.1 = IPV6_LOCALHOST) hosts6 ∧
    Forall (λ e, e.1 ≠ IPV4_LOCALHOST ∧ e.1 ≠ IPV6_LOCALHOST) others ∧
    localhost_aliases (example_call [JString "ipv4"; JString "me"; JBool true]) = Ok (str_join " " (own ++ concat hosts4.*2)) ∧
    localhost_aliases (example_call [JString "ipv6"; JString "me"; JBool true]) = Ok (str_join " " (own ++ concat hosts6.*2)) ∧
    etc_hosts_entries (example_call [JBool true]) = Ok (str_join (char_of NEWLINE) (host_line <$> others)) ∧
    ((own = ["me"] ∧ "me" ≠ EmptyString ∧ ¬ found_elsewhere "me" example_hosts) ∨
     (own = [] ∧ ("me" = EmptyString ∨ found_elsewhere "me" example_hosts))).
Proof.
  intros lib machine text. apply (hosts_rendered_once _ _ _ "me" (JBool true) example_hosts); try done.
  apply (bool_decide_eq_true_1 _). vm_compute. reflexivity.
Defined.
