(* ===== verification/Schnauzer.v ===== *)
(** * schnauzer ([sources/api/schnauzer/src])

    Templates with a frontmatter that names the settings extensions and helpers they
    need: reading them, registering their helpers, fetching their settings and
    rendering; the command lines of schnauzer-v2 and of the older schnauzer.

    The template engine is the argument [handlebars]; the parser that [pest] generates
    from the grammar, and that of TOML, are the class [TemplateSyntax]; the API is the
    class [Host]. *)
From S2P Require Import Prelude Json KeyMap Numbers Chars NetConfig ApiClient TharBeSettings Regex SchnauzerHelpers.
From Stdlib Require Import Ascii.
From stdpp Require Import base list strings gmap.
From stdpp Require Import options.

(** ** Definitions *)

(** *** [v2/template.rs] *)

Record ExtensionRequirement := mk_requirement {
  req_name : string;
  req_version : string;
  req_helpers : list string;
  req_optional : bool }.

Inductive TemplateExtensionRequirements :=
| Version (version : string)
| VersionAndHelpers (version : string) (helpers : list string) (optional : bool).

Record TemplateFrontmatter := mk_frontmatter {
  required_extensions : gmap string TemplateExtensionRequirements }.
Record Template := mk_template { frontmatter : TemplateFrontmatter; body : string }.

Inductive parse_error :=
| GrammarParse
| FrontmatterParse
| HelperNameCollision (helper_names : gset string)
| TemplateParserLogic (message : string).

(** The rules of the grammar that matter, and the spans that a parse gives for them, in order; frontmatter of a
    TOML text. *)
Inductive Rule := RuleTomlDocument | RuleBody | OtherRule.
Class TemplateSyntax := {
  template_pairs : string → option (list (Rule * string));
  toml_frontmatter : string → option (gmap string TemplateExtensionRequirements) }.

#[export] Instance rule_eq_dec : EqDecision Rule.
Proof. solve_decision. Defined.

Definition requirements_from (r : ExtensionRequirement) : TemplateExtensionRequirements :=
  VersionAndHelpers (req_version r) (req_helpers r) (req_optional r).

Definition from_template_requirements (extension_name : string) (requirements : TemplateExtensionRequirements) :
    ExtensionRequirement :=
  match requirements with
  | Version version => mk_requirement extension_name version [] false
  | VersionAndHelpers version helpers optional => mk_requirement extension_name version helpers optional
  end.

Section template.
Context `{HashOrder}.

Definition extension_requirements (f : TemplateFrontmatter) : list ExtensionRequirement :=
  (λ nr, from_template_requirements nr.1 nr.2) <$> map_iter (required_extensions f).

(** One helper name: names seen before are collisions. *)
Definition note_helper (state : gset string * gset string) (helper_name : string) : gset string * gset string :=
  let '(used_helper_names, collisions) := state in
  ({[helper_name]} ∪ used_helper_names,
   if decide (helper_name ∈ used_helper_names) then {[helper_name]} ∪ collisions else collisions).

Definition ensure_no_helper_names_collide (f : TemplateFrontmatter) : result parse_error () :=
  let helper_names := mjoin (req_helpers <$> extension_requirements f) in
  let collisions := (foldl note_helper (∅, ∅) helper_names).2 in
  ensure (bool_decide (collisions = ∅)) (HelperNameCollision collisions).

Definition frontmatter_validate : TemplateFrontmatter → result parse_error () := ensure_no_helper_names_collide.
Definition template_validate (t : Template) : result parse_error () := frontmatter_validate (frontmatter t).

(** The requirements of the command line; a later one replaces an earlier one of the same name. *)
Definition frontmatter_try_from (l : list ExtensionRequirement) : result parse_error TemplateFrontmatter :=
  let f := mk_frontmatter (foldl (λ m r, <[req_name r := requirements_from r]> m) ∅ l) in
  let? _ := frontmatter_validate f in
  Ok f.

Definition template_from_str `{TemplateSyntax} (input_str : string) : result parse_error Template :=
  let? pairs := ok_or (template_pairs input_str) GrammarParse in
  let find_rule (r : Rule) := (λ i : nat * (Rule * string), i.2.2) <$> list_find (λ p, p.1 = r) pairs in
  let? frontmatter_pair := ok_or (find_rule RuleTomlDocument)
                             (TemplateParserLogic "Template parser did not find frontmatter document.") in
  let? frontmatter_document := ok_or (toml_frontmatter frontmatter_pair) FrontmatterParse in
  let? template_body := ok_or (find_rule RuleBody) (TemplateParserLogic "Template parser did not find template body.") in
  let template := mk_template (mk_frontmatter frontmatter_document) template_body in
  let? _ := template_validate template in
  Ok template.
End template.

(** *** [v2/import/helpers.rs] *)

(** How a helper takes part in rendering: it writes text, gives a value to another one, or chooses a block. *)
Inductive helper_def :=
| Writes (f : helper_call → result template_error string)
| Derives (f : helper_call → result template_error json)
| Chooses (f : helper_call → result template_error template_block).

Section all_helpers.
Context `{HelperLib} `{HelperHost} `{HashOrder} `{IpText}.

Definition all_helpers : gmap string (gmap string helper_def) := list_to_map [
  ("aws", list_to_map [("ecr-prefix", Writes ecr_prefix); ("aws-config", Writes aws_config)]);
  ("ecs", list_to_map [("ecs_metadata_service_limits", Writes ecs_metadata_service_limits)]);
  ("kubernetes", list_to_map [
     ("join_node_taints", Writes join_node_taints);
     ("kube_reserve_cpu", Writes kube_reserve_cpu);
     ("kube_reserve_memory", Writes kube_reserve_memory)]);
  ("network", list_to_map [
     ("localhost_aliases", Writes localhost_aliases);
     ("etc_hosts_entries", Writes etc_hosts_entries);
     ("host", Writes host)]);
  ("updates", list_to_map [("tuf-prefix", Writes tuf_prefix); ("metadata-prefix", Writes metadata_prefix)]);
  ("oci-defaults", list_to_map [("oci_defaults", Writes oci_defaults)]);
  ("std", list_to_map [
     ("any_enabled", Derives any_enabled);
     ("base64_decode", Writes base64_decode);
     ("default", Writes default_helper);
     ("toml_encode", Writes toml_encode);
     ("join_array", Writes join_array);
     ("join_map", Writes join_map);
     ("if_not_null", Chooses if_not_null);
     ("goarch", Writes goarch);
     ("negate_or_else", Writes negate_or_else);
     ("is_null", Derives IsNull);
     ("is_bool", Derives IsBool);
     ("is_number", Derives IsNumber);
     ("is_string", Derives IsString);
     ("is_array", Derives IsArray);
     ("is_object", Derives IsObject);
     ("is_ipv4", Derives is_ipv4_helper);
     ("is_ipv6", Derives is_ipv6_helper);
     ("cidr_to_ipaddr", Writes cidr_to_ipaddr);
     ("replace_ipv4_octet", Writes replace_ipv4_octet)])].
End all_helpers.

(** What is registered under a name: extension, version and name of a helper. *)
Record SettingExtensionTemplateHelper := mk_handle {
  setting_extension : string;
  handle_version : string;
  handle_helper : string }.
Abbreviation registry := (gmap string SettingExtensionTemplateHelper).

Inductive helper_error :=
| NoSuchSettingExtension (setting_extension : string)
| NoSuchHelpers (setting_extension extension_version : string) (helpers : gset string).

Section resolver.
Context `{HelperLib} `{HelperHost} `{HashOrder} `{IpText}.

Definition fetch_helper_names_for_extension (setting_extension : string) : result helper_error (gset string) :=
  let? helpers := ok_or (all_helpers !! setting_extension) (NoSuchSettingExtension setting_extension) in
  Ok (dom helpers).

Definition ensure_helpers_exist (r : ExtensionRequirement) : result helper_error () :=
  let requested_helpers : gset string := list_to_set (req_helpers r) in
  if decide (requested_helpers = ∅) then Ok tt
  else
    let? existing_helpers := fetch_helper_names_for_extension (req_name r) in
    let missing_settings := requested_helpers ∖ existing_helpers in
    ensure (bool_decide (missing_settings = ∅)) (NoSuchHelpers (req_name r) (req_version r) missing_settings).

Definition register_template_helpers (template_registry : registry) (r : ExtensionRequirement) :
    result helper_error registry :=
  match req_helpers r with
  | [] => Ok template_registry
  | _ =>
      let? _ := ensure_helpers_exist r in
      Ok (foldl (λ reg h, <[h := mk_handle (req_name r) (req_version r) h]> reg) template_registry (req_helpers r))
  end.

Definition get_helper (h : SettingExtensionTemplateHelper) : result template_error helper_def :=
  let? helpers := ok_or (all_helpers !! setting_extension h)
                    (RenderMessage ("Requested setting extension '" +:+ setting_extension h +:+ "' not found")) in
  ok_or (helpers !! handle_helper h) (RenderMessage ("Requested helper '" +:+ handle_helper h +:+ "' not found")).

(** *** [v2/registry.rs] *)

Inductive registry_error := RegisterExtensionHelpers (setting_extension : string) (source : helper_error).

Fixpoint register_requested_helpers (template_registry : registry) (l : list ExtensionRequirement) :
    result registry_error registry :=
  match l with
  | [] => Ok template_registry
  | requirements :: l =>
      let? reg := map_err (RegisterExtensionHelpers (req_name requirements))
                    (register_template_helpers template_registry requirements) in
      register_requested_helpers reg l
  end.

Definition construct_handlebars_registry (f : TemplateFrontmatter) : result registry_error registry :=
  register_requested_helpers ∅ (extension_requirements f).

(** *** [v2/import/settings.rs] *)

Inductive settings_error :=
| SettingsRequest (source : client_error)
| SettingsJson
| NonJSONObject (key : string)
| MalformedApiResponse (reason : string).

Definition minimize_settings (all_settings : list (string * json)) (l : list ExtensionRequirement) : list (string * json) :=
  foldl (λ m kv, obj_insert kv.1 kv.2 m) []
    (omap (λ r, (λ v, (req_name r, v)) <$> obj_get (req_name r) all_settings) l).

Definition extract_key_from_api_response (key : string) (response : list (string * json)) :
    result settings_error (list (string * json)) :=
  let? v := ok_or (obj_get key response) (MalformedApiResponse ("Response missing `" +:+ key +:+ "` key.")) in
  ok_or (as_object v) (NonJSONObject key).

(** What a template sees of an answer of the API. *)
Definition template_settings (answer : json) (l : list ExtensionRequirement) : result settings_error json :=
  let? all_settings := ok_or (as_object answer) (NonJSONObject "settings") in
  let? settings := extract_key_from_api_response "settings" all_settings in
  let? os := extract_key_from_api_response "os" all_settings in
  Ok (JObject (obj_insert "settings" (JObject (minimize_settings settings l)) (obj_insert "os" (JObject os) []))).
End resolver.

Section rendering.
Context `{HelperLib} `{HelperHost} `{HashOrder} `{IpText} `{SerdeJson} `{TemplateSyntax} {W : Type} `{Host W}.
(** [Handlebars::render_template] in strict mode: the registered helpers, the template, the data. *)
Context {render_failure : Type}.
Variable handlebars : registry → string → json → result render_failure string.
Variable read_to_string : W → string → option string.

(** The state: the cached answer of [get_settings_json], and the world. *)
Abbreviation cached := (option json * W)%type.
Definition in_world {E A} (m : stres W E A) : stres cached E A := λ s, let '(w, r) := m s.2 in ((s.1, w), r).

Definition get_settings_json : stres cached settings_error json := λ s,
  match s.1 with
  | Some v => (s, Ok v)
  | None =>
      match in_world (raw_request api "/" "GET" None) s with
      | (s, Err e) => (s, Err (SettingsRequest e))
      | (s, Ok (_, response_body)) =>
          match json_from_str response_body with
          | Ok v => ((Some v, s.2), Ok v)
          | Err _ => (s, Err SettingsJson)
          end
      end
  end.

Definition fetch_settings (l : list ExtensionRequirement) : stres cached settings_error json :=
  let! answer := get_settings_json in
  st_lift (template_settings answer l).

(** *** [v2/mod.rs] *)

Inductive render_error :=
| ConstructHandlebarsRegistry (source : registry_error)
| RenderTemplate (t : Template) (source : render_failure)
| RetrieveSettings (source : settings_error)
| TemplateParse (source : parse_error)
| TemplateFileRead
| TemplateFileRender (filepath : string) (source : render_error).

Definition render_template (t : Template) : stres cached render_error string :=
  let! reg := st_lift (map_err ConstructHandlebarsRegistry (construct_handlebars_registry (frontmatter t))) in
  let! settings := st_map_err RetrieveSettings (fetch_settings (extension_requirements (frontmatter t))) in
  st_lift (map_err (RenderTemplate t) (handlebars reg (body t) settings)).

Definition render_template_str (template_str : string) : stres cached render_error string :=
  let! t := st_lift (map_err TemplateParse (template_from_str template_str)) in
  render_template t.

Definition render_template_file (input_file : string) : stres cached render_error string := λ s,
  match read_to_string s.2 input_file with
  | None => (s, Err TemplateFileRead)
  | Some template_str => st_map_err (TemplateFileRender input_file) (render_template_str template_str) s
  end.

(** *** [v2/cli/mod.rs] *)

(** The other variants of [CLIError] are in [requirement_error]. *)
Inductive cli_error :=
| CliFrontmatter (source : parse_error)
| CliRender (source : render_error)
| ParseCLICommand
| ParseCLIArgs
| JSONSerialize.

(** The parsed command line: a template with its requirements, or a file. *)
Inductive Subcommand :=
| Render (requires : list ExtensionRequirement) (template : string)
| RenderFile (path : string).

Definition run_with_parsed_args (args : Subcommand) : stres cached cli_error string :=
  match args with
  | Render requires template =>
      let! frontmatter := st_lift (map_err CliFrontmatter (frontmatter_try_from requires)) in
      st_map_err CliRender (render_template (mk_template frontmatter template))
  | RenderFile path => st_map_err CliRender (render_template_file path)
  end.

(** [from_args] is [argh]'s parser. *)
Definition run_with_args (from_args : string → list string → option Subcommand) (inputs : list string) :
    stres cached cli_error string :=
  match inputs with
  | [] => st_lift (Err ParseCLICommand)
  | command_name :: args =>
      let! args := st_lift (ok_or (from_args command_name args) ParseCLIArgs) in
      run_with_parsed_args args
  end.

(** [run]: the text to print. *)
Definition cli_run (args : Subcommand) : stres cached cli_error string :=
  let! rendered_template := run_with_parsed_args args in
  st_lift (map_err (λ _, JSONSerialize) (json_to_string (JString rendered_template))).

(** *** [v1.rs] *)

Variable query_escape : string → string.
(** The settings model as JSON, from the JSON of an answer. *)
Variable model_of_json : json → result json_error json.
(** [Handlebars::render_template] with the helpers of [build_template_registry]. *)
Variable handlebars_v1 : gmap string helper_def → string → json → result render_failure string.

Definition build_template_registry : gmap string helper_def := list_to_map [
  ("base64_decode", Writes base64_decode); ("join_map", Writes join_map);
  ("join_node_taints", Writes join_node_taints); ("default", Writes default_helper);
  ("ecr-prefix", Writes ecr_prefix); ("aws-config", Writes aws_config); ("tuf-prefix", Writes tuf_prefix);
  ("metadata-prefix", Writes metadata_prefix); ("host", Writes host); ("goarch", Writes goarch);
  ("join_array", Writes join_array); ("toml_encode", Writes toml_encode);
  ("kube_reserve_cpu", Writes kube_reserve_cpu); ("kube_reserve_memory", Writes kube_reserve_memory);
  ("localhost_aliases", Writes localhost_aliases); ("etc_hosts_entries", Writes etc_hosts_entries);
  ("any_enabled", Derives any_enabled); ("oci_defaults", Writes oci_defaults);
  ("negate_or_else", Writes negate_or_else);
  ("ecs_metadata_service_limits", Writes ecs_metadata_service_limits);
  ("is_ipv4", Derives is_ipv4_helper); ("is_ipv6", Derives is_ipv6_helper);
  ("cidr_to_ipaddr", Writes cidr_to_ipaddr); ("replace_ipv4_octet", Writes replace_ipv4_octet);
  ("is_null", Derives IsNull); ("is_bool", Derives IsBool); ("is_number", Derives IsNumber);
  ("is_string", Derives IsString); ("is_array", Derives IsArray); ("is_object", Derives IsObject)].

Inductive v1_error :=
| MetadataRequest (method uri : string) (source : client_error)
| DeserializeJson
| MissingMetadata (meta key : string)
| MetadataWrongType (meta expected : string) (value : json)
| GetSettingsFailed (source : tbs_error)
| RenderSetting (setting_name template : string) (source : render_failure)
| SerializeOutput (output : string).

(** The template that a setting has as metadata. *)
Definition metadata_of_response (key meta response_body : string) : result v1_error string :=
  let? response := map_err (λ _, DeserializeJson) (json_from_str response_body) in
  let? response_map := ok_or (as_object response) DeserializeJson in
  let? response_val := ok_or (obj_get key response_map) (MissingMetadata meta key) in
  let? response_str := ok_or (as_str response_val) (MetadataWrongType meta "string" response_val) in
  let? _ := ensure (negb (str_is_empty response_str)) (MissingMetadata meta key) in
  Ok response_str.

Definition get_metadata (key meta : string) : stres W v1_error string :=
  let uri := "/metadata/" +:+ meta +:+ "?keys=" +:+ key in
  let! res := st_map_err (MetadataRequest "GET" uri) (raw_request api uri "GET" None) in
  st_lift (metadata_of_response key meta res.2).

Definition v1_run (setting_name : string) : stres W v1_error string :=
  let! template := get_metadata setting_name "templates" in
  let! settings := st_map_err GetSettingsFailed (get_json query_escape model_of_json "/" None) in
  let! setting := st_lift (map_err (RenderSetting setting_name template)
                             (handlebars_v1 build_template_registry template settings)) in
  st_lift (map_err (λ _, SerializeOutput setting) (json_to_string (JString setting))).
End rendering.

(** *** [v2/cli/clirequirements.rs] *)

Inductive requirement_error := RequirementsParse (requirement reason : string).

Definition name_char (c : string) : bool :=
  match c with
  | String a EmptyString =>
      byte_in 97 122 a || byte_in 65 90 a || byte_in 48 57 a || bool_decide (c = "_") || bool_decide (c = "-")
  | _ => false
  end.
Definition version_char (c : string) : bool := name_char c || bool_decide (c = ".").

Definition Word (s : string) (rest : regex) : regex := foldr (λ c r, Seq (Lit c) r) rest (str_chars s).
Definition Spaces : regex := Star SpaceChar.
Definition COMMA_DELIMITER : regex := Seq Spaces (Seq (Lit ",") Spaces).
Definition HELPER_LIST : regex := Star (Seq (Plus (Class name_char)) (Opt COMMA_DELIMITER)).
(** The pattern, without the anchors at its ends. *)
Definition EXTENSION_REQUIREMENT_RE : regex :=
  Seq Spaces (Seq (Capture "extension" (Plus (Class name_char)))
  (Seq (Lit "@") (Seq (Capture "version" (Plus (Class version_char)))
  (Seq Spaces (Seq
    (Opt (Seq (Lit "(") (Seq Spaces (Seq
      (Opt (Word "helpers" (Seq Spaces (Seq (Lit "=") (Seq Spaces (Seq (Lit "[") (Seq Spaces
              (Seq (Capture "helpers" HELPER_LIST) (Seq Spaces (Seq (Lit "]") Spaces))))))))))
      (Seq Spaces (Lit ")"))))))
    Spaces))))).

Definition split_helpers (helpers : string) : list string := re_split COMMA_DELIMITER helpers.

Definition requirement_from_str (s : string) : result requirement_error ExtensionRequirement :=
  let parse_error reason := RequirementsParse s reason in
  let? re_captures := ok_or (captures EXTENSION_REQUIREMENT_RE s)
                        (parse_error "Extension requirement regex did not find a match") in
  let? name := ok_or (captured "extension" re_captures) (parse_error "Did not find extension name") in
  let? version := ok_or (captured "version" re_captures) (parse_error "Did not find extension version") in
  let helpers := match captured "helpers" re_captures with
                 | Some helpers => filter (λ helper, helper ≠ EmptyString) (split_helpers helpers)
                 | None => []
                 end in
  Ok (mk_requirement name version helpers false).

(** [main.rs] *)
Inductive ToolName := SchnauzerV1 | SchnauzerV2.
Definition from_program_name (name : string) : ToolName := if decide (name = "schnauzer") then SchnauzerV1 else SchnauzerV2.

(** ** Requirements on the command line *)

(** The documented form of a requirement. *)
Definition requirement_to_string (r : ExtensionRequirement) : string :=
  req_name r +:+ "@" +:+ req_version r +:+ "(helpers=[" +:+ str_join ", " (req_helpers r) +:+ "])".

Definition word_ok (f : string → bool) (s : string) : Prop :=
  s ≠ EmptyString ∧ Forall (λ c, f c = true) (str_bytes s).
Record requirement_ok (r : ExtensionRequirement) : Prop := {
  ok_name : word_ok name_char (req_name r);
  ok_version : word_ok version_char (req_version r);
  ok_helpers : Forall (word_ok name_char) (req_helpers r) }.

Lemma name_chars a :
  implb (version_char (char_of a)) (is_ascii a && negb (char_is_whitespace (char_of a))) = true.
Proof. destruct a as [[] [] [] [] [] [] [] []]; by vm_compute. Qed.

Lemma version_char_spec c : version_char c = true → char_is_ascii c = true ∧ char_is_whitespace c = false.
Proof.
  destruct c as [|a [|]]; [done| |by intros [?|[=]%bool_decide_eq_true_1]%orb_true_iff].
  intros Hc. pose proof (name_chars a) as Ha. unfold char_of in Ha at 1. rewrite Hc in Ha.
  apply andb_true_iff in Ha as [Ha Hw%negb_true_iff]. split; [|done]. unfold char_is_ascii. cbn [str_forallb]. by rewrite Ha.
Qed.

Lemma name_version_char c : name_char c = true → version_char c = true.
Proof. unfold version_char. by intros ->. Qed.

Lemma bytes_ascii s : Forall (λ c, char_is_ascii c = true) (str_bytes s) → ascii_str s.
Proof.
  induction s as [|a s IH]; [done|]. cbn. intros [Ha Hs]%Forall_cons. apply ascii_str_cons.
  split; [|by apply IH]. unfold char_is_ascii in Ha. cbn in Ha. by rewrite andb_true_r in Ha.
Qed.

Lemma word_ascii s : word_ok version_char s → ascii_str s.
Proof. intros [_ Hs]. apply bytes_ascii. eapply Forall_impl; [exact Hs|]. intros c. apply version_char_spec. Qed.

Lemma name_word s : word_ok name_char s → word_ok version_char s.
Proof. intros [Hn Hs]. split; [done|]. eapply Forall_impl; [exact Hs|]. apply name_version_char. Qed.

(** The characters of a list of helpers. *)
Fixpoint helper_chars (l : list string) : list string :=
  match l with
  | [] => []
  | [h] => str_bytes h
  | h :: l => str_bytes h ++ "," :: " " :: helper_chars l
  end.

Lemma helper_chars_cons h h' l :
  helper_chars (h :: h' :: l) = str_bytes h ++ "," :: " " :: helper_chars (h' :: l).
Proof. done. Qed.

Lemma join_chars l : str_bytes (str_join ", " l) = helper_chars l.
Proof.
  induction l as [|h [|h' l] IH]; [done..|]. rewrite str_join_cons, !str_bytes_app, IH. done.
Qed.

Lemma helpers_ascii l : Forall (word_ok name_char) l → ascii_str (str_join ", " l).
Proof.
  induction l as [|h [|h' l] IH]; intros Hl; [done| |].
  - apply Forall_cons in Hl as [Hh _]. by apply word_ascii, name_word.
  - apply Forall_cons in Hl as [Hh Hl]. rewrite str_join_cons, !ascii_str_app. split; [|split; [done|by apply IH]].
    by apply word_ascii, name_word.
Qed.

(** No helper name begins with one of these characters. *)
Definition ends_word (s : list string) : Prop :=
  match s with a :: _ => name_char a = false | [] => True end.
Definition not_space (s : list string) : Prop :=
  match s with a :: _ => char_is_whitespace a = false | [] => True end.

Lemma word_bytes f s : word_ok f s → str_bytes s ≠ [].
Proof. intros [Hs _]. by destruct s. Qed.

(** *** The pattern on the text of a requirement *)

Lemma to_spaces s c : not_space s → matches_to Spaces s c s c.
Proof. intros Hs. apply (to_star_class _ [] s); [by apply Forall_nil|]. exact Hs. Qed.

Lemma to_one_space s c : not_space s → matches_to Spaces (" " :: s) c s c.
Proof. intros Hs. apply (to_star_class _ [" "] s); [by apply Forall_singleton|]. exact Hs. Qed.

Lemma to_lit a s c : matches_to (Lit a) (a :: s) c s c.
Proof. apply to_class. by apply bool_decide_eq_true_2. Qed.

Lemma to_word w rest s c s' c' : matches_to rest s c s' c' → matches_to (Word w rest) (str_chars w ++ s) c s' c'.
Proof.
  intros Hr. unfold Word. induction (str_chars w) as [|a l IH]; [done|]. cbn.
  eapply to_seq; [apply to_lit|done].
Qed.

(** A comma and a space before the next word. *)
Lemma to_comma s c : not_space s → matches_to COMMA_DELIMITER ("," :: " " :: s) c s c.
Proof.
  intros Hs. eapply to_seq; [by apply to_spaces|]. eapply to_seq; [apply to_lit|by apply to_one_space].
Qed.

(** There is no delimiter where the text is neither white space nor a comma. *)
Lemma no_comma s : not_space s → match s with a :: _ => a ≠ "," | [] => True end → does_not_match COMMA_DELIMITER s.
Proof.
  intros Hs Ha. apply no_seq_star; [done|]. apply no_seq, no_class.
  destruct s as [|a s]; [done|]. by apply bool_decide_eq_false_2.
Qed.

Lemma word_head s t : word_ok version_char s → not_space (str_bytes s ++ t).
Proof.
  intros [Hne Hs]. destruct s as [|a s]; [done|]. cbn in *. apply Forall_cons in Hs as [Ha _].
  by apply version_char_spec in Ha as [_ ?].
Qed.

Lemma helpers_head h l t : Forall (word_ok name_char) (h :: l) → not_space (helper_chars (h :: l) ++ t).
Proof.
  intros [Hh _]%Forall_cons. apply name_word in Hh. destruct l; cbn [helper_chars]; [|rewrite <-app_assoc]; by apply word_head.
Qed.

Lemma helper_round h s c : word_ok name_char h → ends_word s →
  (∀ c, matches_to (Opt COMMA_DELIMITER) s c s c) →
  matches_to (Seq (Plus (Class name_char)) (Opt COMMA_DELIMITER)) (str_bytes h ++ s) c s c.
Proof.
  intros Hh Hs Hc. eapply to_seq; [|apply Hc]. apply to_plus_class; [by eapply word_bytes|by destruct Hh|exact Hs].
Qed.

Lemma word_length s t : word_ok name_char s → length t < length (str_bytes s ++ t).
Proof. intros Hs%word_bytes. rewrite length_app. destruct (str_bytes s); [done|]. cbn. lia. Qed.

Lemma to_helper_list l c : Forall (word_ok name_char) l → matches_to HELPER_LIST (helper_chars l ++ ["]"; ")"]) c ["]"; ")"] c.
Proof.
  induction l as [|h [|h' l] IH]; intros Hl.
  - apply to_star_nil. by apply no_seq, no_seq, no_class.
  - apply Forall_cons in Hl as [Hl _]. cbn [helper_chars]. eapply (to_star_round _ _ _ [_; _]); [by apply word_length| |].
    + eapply helper_round; [done..|]. intros c'. apply to_opt_none, no_comma; [by vm_compute|done].
    + apply to_star_nil. by apply no_seq, no_seq, no_class.
  - apply Forall_cons in Hl as [Hh Hl]. cbn [helper_chars]. fold (helper_chars (h' :: l)).
    rewrite <-app_assoc. rewrite <-!app_comm_cons.
    eapply (to_star_round _ _ _ (helper_chars (h' :: l) ++ ["]"; ")"])); [| |by apply IH].
    + rewrite (length_app (str_bytes h)). cbn [length helper_chars]. lia.
    + eapply to_seq.
      * by apply to_plus_class; [by eapply word_bytes|destruct Hh|].
      * apply to_opt, to_comma. by apply helpers_head.
Qed.

Definition requirement_caps (r : ExtensionRequirement) : caps :=
  <["helpers" := helper_chars (req_helpers r)]> (<["version" := str_bytes (req_version r)]>
    (<["extension" := str_bytes (req_name r)]> ∅)).

Lemma requirement_chars r : requirement_ok r →
  str_chars (requirement_to_string r) =
    str_bytes (req_name r) ++ "@" :: str_bytes (req_version r) ++
      "(" :: str_chars "helpers" ++ "=" :: "[" :: helper_chars (req_helpers r) ++ ["]"; ")"].
Proof.
  intros [Hn Hv Hh]. unfold requirement_to_string. rewrite str_chars_ascii.
  - rewrite !str_bytes_app, join_chars. done.
  - rewrite !ascii_str_app. repeat split; try done; [by apply word_ascii, name_word|by apply word_ascii|by apply helpers_ascii].
Qed.

Lemma to_named name f w s c : word_ok f w → match s with a :: _ => f a = false | [] => True end →
  matches_to (Capture name (Plus (Class f))) (str_bytes w ++ s) c s (<[name := str_bytes w]> c).
Proof.
  intros Hw Hs. pose proof (to_plus_class f (str_bytes w) s c (word_bytes _ _ Hw) (proj2 Hw) Hs) as Hp.
  apply (to_capture name) in Hp. by rewrite take_prefix in Hp.
Qed.

Lemma helper_list_head l t : Forall (word_ok name_char) l → not_space t → not_space (helper_chars l ++ t).
Proof. destruct l as [|h l]; [done|]. intros Hl _. by apply helpers_head. Qed.

Lemma requirement_captures r : requirement_ok r →
  captures EXTENSION_REQUIREMENT_RE (requirement_to_string r) = Some (requirement_caps r).
Proof.
  intros Hr. apply captures_to. rewrite requirement_chars by done. destruct Hr as [Hn Hv Hh].
  eapply to_seq; [by apply to_spaces, word_head, name_word|].
  eapply to_seq; [by apply to_named|]. eapply to_seq; [apply to_lit|].
  eapply to_seq; [by apply to_named|]. eapply to_seq; [by apply to_spaces|].
  eapply to_seq; [|by apply to_spaces]. apply to_opt.
  eapply to_seq; [apply to_lit|]. eapply to_seq; [by apply to_spaces|].
  eapply to_seq.
  - apply to_opt, to_word. eapply to_seq; [by apply to_spaces|]. eapply to_seq; [apply to_lit|].
    eapply to_seq; [by apply to_spaces|]. eapply to_seq; [apply to_lit|].
    eapply to_seq; [apply to_spaces; by apply helper_list_head|].
    eapply to_seq; [apply to_capture; by apply to_helper_list|].
    eapply to_seq; [by apply to_spaces|]. eapply to_seq; [apply to_lit|]. by apply to_spaces.
  - rewrite take_prefix. eapply to_seq; [by apply to_spaces|apply to_lit].
Qed.

(** *** Splitting the list of helpers *)

Lemma match_end_to r s s' : matches_to r s ∅ s' ∅ → match_end r s = Some s'.
Proof. intros Hm. unfold match_end. rewrite (Hm _ (<[EmptyString := s']> ∅)) by done. cbn. by rewrite lookup_insert_eq. Qed.

Lemma match_end_none r s : does_not_match r s → match_end r s = None.
Proof. intros Hm. unfold match_end. by rewrite Hm. Qed.

Lemma name_char_no_comma c s : name_char c = true → does_not_match COMMA_DELIMITER (c :: s).
Proof.
  intros Hc. apply no_comma; [by apply version_char_spec, name_version_char|]. by intros ->.
Qed.

Lemma split_word fuel piece w s : Forall (λ c, name_char c = true) w → length w ≤ fuel →
  split_from COMMA_DELIMITER fuel piece (w ++ s) = split_from COMMA_DELIMITER (fuel - length w) (piece ++ w) s.
Proof.
  revert fuel piece. induction w as [|a w IH]; intros fuel piece Hw Hf.
  { by rewrite app_nil_r, Nat.sub_0_r. }
  apply Forall_cons in Hw as [Ha Hw]. destruct fuel as [|fuel]; [cbn in Hf; lia|].
  cbn [split_from app]. rewrite match_end_none by by apply name_char_no_comma.
  rewrite IH; [|done|cbn in Hf; lia]. by rewrite <-app_assoc.
Qed.

Lemma split_helper_chars fuel l : l ≠ [] → Forall (word_ok name_char) l → length (helper_chars l) ≤ fuel →
  split_from COMMA_DELIMITER fuel [] (helper_chars l) = str_bytes <$> l.
Proof.
  intros Hne Hl. revert fuel. induction l as [|h [|h' l] IH]; intros fuel Hf; [done| |].
  - apply Forall_cons in Hl as [[_ Hh] _]. cbn [helper_chars] in *. rewrite <-(app_nil_r (str_bytes h)) at 1.
    rewrite split_word by done. destruct (fuel - _); cbn; by rewrite !app_nil_r.
  - apply Forall_cons in Hl as [[_ Hh] Hl]. rewrite helper_chars_cons, length_app in Hf.
    cbn [length] in Hf. rewrite helper_chars_cons, split_word by (done || lia).
    destruct (fuel - length (str_bytes h)) as [|fuel'] eqn:Ef; [lia|]. cbn [split_from app].
    rewrite (match_end_to _ _ (helper_chars (h' :: l))).
    + rewrite IH by (done || lia). done.
    + apply to_comma. rewrite <-(app_nil_r (helper_chars _)). by apply helpers_head.
Qed.

Lemma str_len_bytes s : str_len s = length (str_bytes s).
Proof. induction s as [|a s IH]; [done|]. cbn. by rewrite IH. Qed.

Lemma split_helpers_join l : Forall (word_ok name_char) l →
  filter (λ h, h ≠ EmptyString) (split_helpers (str_join ", " l)) = l.
Proof.
  intros Hl. destruct l as [|h l]; [done|]. unfold split_helpers, re_split.
  rewrite str_chars_ascii by by apply helpers_ascii. rewrite join_chars, split_helper_chars; [|done|done|].
  - assert (∀ k, str_concat <$> (str_bytes <$> k) = k) as ->.
    { intros k. induction k as [|s k IH]; [done|]. cbn. by rewrite str_concat_bytes, IH. }
    clear -Hl. induction Hl as [|s k [Hs _] _ IH]; [done|]. by rewrite filter_cons_True, IH by done.
  - by rewrite str_len_bytes, join_chars.
Qed.

(** A requirement written the documented way, extension@version(helpers=[a, b]), is read from the command
    line as that extension, version and list of helpers, for all names of the characters that the pattern
    allows, with any number of helpers. *)
Lemma requirement_roundtrip r : requirement_ok r → req_optional r = false →
  requirement_from_str (requirement_to_string r) = Ok r.
Proof.
  intros Hr Ho. unfold requirement_from_str. rewrite requirement_captures by done. cbn [ok_or mbind result_bind].
  unfold captured, requirement_caps. rewrite (lookup_insert_ne _ "helpers" "extension") by done.
  rewrite (lookup_insert_ne _ "version" "extension") by done. rewrite lookup_insert_eq. cbn [fmap option_fmap option_map ok_or].
  rewrite (lookup_insert_ne _ "helpers" "version") by done. rewrite !lookup_insert_eq. cbn [fmap option_fmap option_map ok_or].
  rewrite <-join_chars, !str_concat_bytes, split_helpers_join by by destruct Hr.
  destruct r as [n v l o]. cbn in *. by subst o.
Qed.

(** ** What a template is given *)

Section given.
Context `{HelperLib} `{HelperHost} `{HashOrder} `{IpText} `{SerdeJson} `{TemplateSyntax} {W : Type} `{Host W}.
Context {render_failure : Type}.
Variable handlebars : registry → string → json → result render_failure string.

(** Two answers of the API that agree on the operating system and on the settings of some extensions. *)
Definition agree_on (names : list string) (m1 m2 : list (string * json)) : Prop :=
  ∃ s1 s2 os, obj_get "settings" m1 = Some (JObject s1) ∧ obj_get "settings" m2 = Some (JObject s2) ∧
    obj_get "os" m1 = Some (JObject os) ∧ obj_get "os" m2 = Some (JObject os) ∧
    Forall (λ n, obj_get n s1 = obj_get n s2) names.

Lemma minimize_agree s1 s2 l : Forall (λ n, obj_get n s1 = obj_get n s2) (req_name <$> l) →
  minimize_settings s1 l = minimize_settings s2 l.
Proof.
  intros Ha. unfold minimize_settings. f_equal.
  induction l as [|r l IH]; [done|]. apply Forall_cons in Ha as [Hr Ha]. cbn. by rewrite Hr, IH.
Qed.

(** C10. A template sees only the settings of the extensions that it requires: whatever the template engine does,
    two hosts whose API answers agree on those and on the operating system render it to the same text or
    the same error. *)
Theorem template_sees_only_required t w1 w2 m1 m2 :
  agree_on (req_name <$> extension_requirements (frontmatter t)) m1 m2 →
  (render_template handlebars t (Some (JObject m1), w1)).2 = (render_template handlebars t (Some (JObject m2), w2)).2.
Proof.
  intros (s1 & s2 & os & E1 & E2 & O1 & O2 & Ha).
  assert (template_settings (JObject m1) (extension_requirements (frontmatter t)) =
          template_settings (JObject m2) (extension_requirements (frontmatter t))) as Hs.
  { unfold template_settings, extract_key_from_api_response. cbn. rewrite E1, E2, O1, O2. cbn.
    by rewrite (minimize_agree s1 s2). }
  unfold render_template, st_bind, st_lift, st_map_err, fetch_settings.
  destruct (map_err _ (construct_handlebars_registry _)); [|done]. cbn [get_settings_json fst].
  unfold st_bind, st_lift. cbn -[template_settings]. rewrite Hs. by destruct (template_settings (JObject m2) _).
Qed.

(** The answer is requested once: later renderings use the first one that was read. *)
Lemma settings_cached (w w' : W) c v s' : get_settings_json (c, w) = (s', Ok v) →
  s'.1 = Some v ∧ get_settings_json (s'.1, w') = ((Some v, w'), Ok v).
Proof.
  unfold get_settings_json. destruct c as [v'|]; cbn.
  - by intros [= <- <-].
  - unfold in_world. cbn. destruct (raw_request _ _ _ _ w) as [w1 [[? resp]|e]]; cbn; [|done].
    destruct (json_from_str resp); [|done]. by intros [= <- <-].
Qed.
End given.

(** ** The helpers that are registered *)

Lemma note_helpers_spec l u c : (foldl note_helper (u, c) l).2 = ∅ ↔ c = ∅ ∧ NoDup l ∧ ∀ x, x ∈ l → x ∉ u.
Proof.
  revert u c. induction l as [|x l IH]; intros u c.
  { cbn. split; [|by intros (? & _)]. intros ->. split; [done|]. split; [constructor|]. by intros ? ?%elem_of_nil. }
  cbn [foldl note_helper]. rewrite IH, NoDup_cons. setoid_rewrite elem_of_cons. case_decide as Hx.
  - split; [|intros (_ & _ & Hn); by destruct (Hn x (or_introl eq_refl))]. set_solver.
  - split.
    + intros (-> & Hd & Hn). split; [done|]. split; [split; [|done]|].
      * intros Hin. apply (Hn x Hin). set_solver.
      * intros y [->|Hy]; [done|]. specialize (Hn y Hy). set_solver.
    + intros (-> & [Hn Hd] & Hu). split; [done|]. split; [done|]. intros y Hy. pose proof (Hu y (or_intror Hy)).
      assert (y ≠ x) by naive_solver. set_solver.
Qed.

Section registered.
Context `{HelperLib} `{HelperHost} `{HashOrder} `{IpText}.

Definition handles (r : ExtensionRequirement) : list (string * SettingExtensionTemplateHelper) :=
  (λ h, (h, mk_handle (req_name r) (req_version r) h)) <$> req_helpers r.
Definition insert_handle (m : registry) (kv : string * SettingExtensionTemplateHelper) : registry := <[kv.1 := kv.2]> m.

Lemma insert_handles_lookup l m h v : NoDup l.*1 →
  foldl insert_handle m l !! h = Some v ↔ (h, v) ∈ l ∨ ((h ∉ l.*1) ∧ m !! h = Some v).
Proof.
  revert m. induction l as [|[k w] l IH]; intros m; cbn [foldl].
  { intros _. cbn. split; [intros ?; right; split; [apply not_elem_of_nil|done]|]. by intros [?%elem_of_nil|[_ ?]]. }
  rewrite fmap_cons, NoDup_cons. intros [Hk Hd]. rewrite IH by done. unfold insert_handle. cbn [fst snd].
  rewrite elem_of_cons, not_elem_of_cons. destruct (decide (h = k)) as [->|Hne].
  - rewrite lookup_insert_eq. naive_solver.
  - rewrite lookup_insert_ne by done. naive_solver.
Qed.

Lemma helpers_exist_resolve r h : ensure_helpers_exist r = Ok tt → h ∈ req_helpers r →
  ∃ d, get_helper (mk_handle (req_name r) (req_version r) h) = Ok d.
Proof.
  unfold ensure_helpers_exist, fetch_helper_names_for_extension, get_helper. cbn -[all_helpers].
  case_decide as He; [set_solver|]. destruct (all_helpers !! req_name r) as [hs|]; [|done]. cbn -[all_helpers].
  intros Hm%ensure_Ok%bool_decide_eq_true_1 Hin.
  assert (h ∈ dom hs) as [d Hd]%elem_of_dom by set_solver. exists d. by rewrite Hd.
Qed.

Lemma insert_handles_fold (f : string → SettingExtensionTemplateHelper) m l :
  foldl (λ reg h, <[h := f h]> reg) m l = foldl insert_handle m ((λ h, (h, f h)) <$> l).
Proof. revert m. induction l as [|h l IH]; intros m; [done|]. cbn. apply IH. Qed.

Lemma register_spec m r m' : register_template_helpers m r = Ok m' →
  m' = foldl insert_handle m (handles r) ∧
  Forall (λ h, ∃ d, get_helper (mk_handle (req_name r) (req_version r) h) = Ok d) (req_helpers r).
Proof.
  unfold register_template_helpers, handles. destruct (req_helpers r) as [|h l] eqn:El.
  { intros [= <-]. by split. }
  destruct (ensure_helpers_exist r) as [[]|] eqn:Ee; [|done]. intros [= <-]. split.
  - exact (insert_handles_fold _ m (h :: l)).
  - rewrite <-El. apply Forall_forall. intros x Hx. by apply helpers_exist_resolve.
Qed.

Lemma register_all_spec m l m' : register_requested_helpers m l = Ok m' →
  m' = foldl insert_handle m (l ≫= handles) ∧
  ∀ h v, (h, v) ∈ l ≫= handles → ∃ d, get_helper v = Ok d.
Proof.
  revert m. induction l as [|r l IH]; intros m; cbn [register_requested_helpers].
  { intros [= <-]. split; [done|]. by intros h v ?%elem_of_nil. }
  destruct (register_template_helpers m r) as [m1|] eqn:E; [|done].
  intros Hm. change (register_requested_helpers m1 l = Ok m') in Hm. apply register_spec in E as [-> Hf]. apply IH in Hm as [-> Hr]. rewrite bind_cons, foldl_app. split; [done|].
  intros h v [Hin|Hin]%elem_of_app; [|by eapply Hr]. unfold handles in Hin.
  apply list_elem_of_fmap in Hin as (x & [= -> ->] & Hx). rewrite Forall_forall in Hf. by apply Hf.
Qed.

Lemma handle_names l : (l ≫= handles).*1 = mjoin (req_helpers <$> l).
Proof.
  induction l as [|r l IH]; [done|]. rewrite bind_cons, fmap_app, IH. cbn. f_equal. unfold handles.
  rewrite <-list_fmap_compose. apply list_fmap_id.
Qed.

(** When reading a template accepts its frontmatter and its helpers exist, exactly the helpers that it lists
    are registered, each for the extension and version that lists it, and each resolves when it is called;
    as the names do not collide, the order in which extensions are visited does not matter. *)
Lemma registry_exact f reg : ensure_no_helper_names_collide f = Ok tt → construct_handlebars_registry f = Ok reg →
  ∀ h v, reg !! h = Some v ↔
    ∃ name req, required_extensions f !! name = Some req ∧
      h ∈ req_helpers (from_template_requirements name req) ∧
      v = mk_handle name (req_version (from_template_requirements name req)) h ∧
      ∃ d, get_helper v = Ok d.
Proof.
  intros Hc Hr h v. unfold ensure_no_helper_names_collide in Hc. apply ensure_Ok, bool_decide_eq_true_1 in Hc.
  apply note_helpers_spec in Hc as (_ & Hd & _). rewrite <-handle_names in Hd.
  apply register_all_spec in Hr as [-> Hres]. rewrite insert_handles_lookup by done. rewrite lookup_empty.
  split.
  - intros [Hin|[_ [=]]]. pose proof (Hres _ _ Hin) as Hd'. apply list_elem_of_bind in Hin as (r & Hin & Hr).
    apply list_elem_of_fmap in Hr as ([n req] & -> & Hn). apply elem_of_map_iter in Hn.
    unfold handles in Hin. apply list_elem_of_fmap in Hin as (x & [= -> ->] & Hx).
    exists n, req. cbn [fst snd] in *. split; [done|]. split; [done|]. by destruct req.
  - intros (n & req & Hn & Hh & -> & _). left. apply list_elem_of_bind. exists (from_template_requirements n req). split.
    + unfold handles. apply list_elem_of_fmap. exists h. by destruct req.
    + apply list_elem_of_fmap. exists (n, req). split; [done|]. by apply elem_of_map_iter.
Qed.
End registered.

(** ** Examples *)

Definition example_requirement : ExtensionRequirement := mk_requirement "std" "v1" ["default"; "join_map"] false.
Definition example_frontmatter : TemplateFrontmatter :=
  mk_frontmatter (<["std" := requirements_from example_requirement]> ∅).

Lemma requirement_roundtrip_witness :
  requirement_from_str "std@v1(helpers=[default, join_map])" = Ok example_requirement.
Proof.
  apply (requirement_roundtrip example_requirement); [|done]. split.
  - split; [done|]. apply (bool_decide_eq_true_1 _). vm_compute. reflexivity.
  - split; [done|]. apply (bool_decide_eq_true_1 _). vm_compute. reflexivity.
  - repeat (apply Forall_cons; split); [| |by apply Forall_nil];
      (split; [done|]; apply (bool_decide_eq_true_1 _); vm_compute; reflexivity).
Defined.

(** A world without an API. *)
Definition example_world : Host () :=
  {| api _ := st_lift (Err RequestSend); TharBeSettings.render_template_file _ := st_lift (Err tt); exists_path _ _ := false;
     create_dir_all _ := st_lift (Err tt); write_file _ _ _ := st_lift (Err tt);
     run_command _ := st_lift (Err tt) |}.

Lemma template_sees_only_required_witness :
  let answer (secret : string) :=
    [("os", JObject []); ("settings", JObject [("secret", JString secret); ("std", JBool true)])] in
  let lib := example_lib in let machine := example_machine in let order := example_order in
  let text := example_ip_text in let json := example_json in let host := example_world in
  let engine := (λ _ _ settings, map_err (λ _, tt) (json_to_string settings))
                  : registry → string → Json.json → result () string in
  let t := mk_template example_frontmatter "text" in
  (render_template engine t (Some (JObject (answer "one")), tt)).2 =
  (render_template engine t (Some (JObject (answer "two")), tt)).2.
Proof.
  intros answer lib machine order text json host engine t.
  apply (template_sees_only_required engine t tt tt (answer "one") (answer "two")).
  do 3 eexists. repeat (split; [reflexivity|]).
  vm_compute. constructor; [reflexivity|constructor].
Defined.

Lemma registry_exact_witness :
  let lib := example_lib in let machine := example_machine in let order := example_order in
  let text := example_ip_text in
  ∃ reg, construct_handlebars_registry example_frontmatter = Ok reg ∧
    (reg !! "default" = Some (mk_handle "std" "v1" "default") ↔
     ∃ name req, required_extensions example_frontmatter !! name = Some req ∧
       "default" ∈ req_helpers (from_template_requirements name req) ∧
       mk_handle "std" "v1" "default" = mk_handle name (req_version (from_template_requirements name req)) "default" ∧
       ∃ d, get_helper (mk_handle "std" "v1" "default") = Ok d).
Proof.
  intros lib machine order text. eexists. split; [vm_compute; reflexivity|].
  eapply registry_exact; vm_compute; reflexivity.
Defined.
