(* ===== verification/Bloodhound.v ===== *)
(** * bloodhound ([sources/bloodhound/src]): compliance reports

    [results.rs], [lib.rs], [output.rs], [args.rs] and [main.rs]: the results of checkers
    and their JSON, the helpers that checkers are made of, the report with its counts and
    its two forms, and the program that finds the checkers of a directory, runs them and
    writes the report.  The checkers are in the file BloodhoundChecks.

    [SystemAccess] is what a checker sees of the machine and [Host] what the program
    does; the text of JSON is the class [JsonText].  A file that opens can be read. *)
From S2P Require Import Prelude Json KeyMap BTree Numbers Chars NetConfig Filesystem.
From Stdlib Require Import Ascii.
From stdpp Require Import base list strings gmap.
From stdpp Require Import options.

(** ** Definitions *)

(** *** Text *)

(** [String::from_utf8_lossy]: what is not UTF-8 is replaced, a maximal broken sequence
    at a time. *)
Definition REPLACEMENT : string := bytes_str [239; 191; 189].
Definition is_cont : ascii → bool := byte_in 128 191.
Definition second_of_3 (a b : ascii) : bool :=
  byte_in (if byte_in 224 224 a then 160 else 128) (if byte_in 237 237 a then 159 else 191) b.
Definition second_of_4 (a b : ascii) : bool :=
  byte_in (if byte_in 240 240 a then 144 else 128) (if byte_in 244 244 a then 143 else 191) b.
Fixpoint from_utf8_lossy (s : string) : string :=
  match s with
  | EmptyString => EmptyString
  | String a s1 =>
      if byte_in 0 127 a then String a (from_utf8_lossy s1)
      else if byte_in 194 223 a then
        match s1 with
        | String b s2 =>
            if is_cont b then String a (String b (from_utf8_lossy s2)) else REPLACEMENT +:+ from_utf8_lossy s1
        | EmptyString => REPLACEMENT
        end
      else if byte_in 224 239 a then
        match s1 with
        | String b s2 =>
            if second_of_3 a b then
              match s2 with
              | String c s3 =>
                  if is_cont c then String a (String b (String c (from_utf8_lossy s3)))
                  else REPLACEMENT +:+ from_utf8_lossy s2
              | EmptyString => REPLACEMENT
              end
            else REPLACEMENT +:+ from_utf8_lossy s1
        | EmptyString => REPLACEMENT
        end
      else if byte_in 240 244 a then
        match s1 with
        | String b s2 =>
            if second_of_4 a b then
              match s2 with
              | String c s3 =>
                  if is_cont c then
                    match s3 with
                    | String d s4 =>
                        if is_cont d then String a (String b (String c (String d (from_utf8_lossy s4))))
                        else REPLACEMENT +:+ from_utf8_lossy s3
                    | EmptyString => REPLACEMENT
                    end
                  else REPLACEMENT +:+ from_utf8_lossy s2
              | EmptyString => REPLACEMENT
              end
            else REPLACEMENT +:+ from_utf8_lossy s1
        | EmptyString => REPLACEMENT
        end
      else REPLACEMENT +:+ from_utf8_lossy s1
  end.

(** [str::contains] *)
Fixpoint str_contains (s pat : string) : bool :=
  str_starts_with s pat || match s with String _ s' => str_contains s' pat | EmptyString => false end.

(** [BufRead::lines], each with [unwrap_or_default]: a line that is not UTF-8 is empty. *)
Definition reader_lines (content : string) : list string :=
  (λ line, if utf8_valid line then line else EmptyString) <$> str_lines content.

(** [split_ascii_whitespace] *)
Definition is_ascii_whitespace (a : ascii) : bool :=
  bool_decide (nat_of_ascii a ∈ [32; 9; 10; 12; 13]).
Fixpoint words_from (s word : string) : list string :=
  let emit := if str_is_empty word then [] else [word] in
  match s with
  | EmptyString => emit
  | String a s' => if is_ascii_whitespace a then emit ++ words_from s' EmptyString
                   else words_from s' (str_push word a)
  end.
Definition split_ascii_whitespace (s : string) : list string := words_from s EmptyString.

(** [{:o}] of a number below 512, and [{:n$}]: spaces up to a width in characters. *)
Definition octal_digit (n : Z) : string := unsigned_to_string (n mod 8).
Definition octal (n : Z) : string :=
  (if (64 <=? n)%Z then octal_digit (n / 64) else EmptyString) +:+
  (if (8 <=? n)%Z then octal_digit (n / 8) else EmptyString) +:+ octal_digit n.
Definition BLANK : ascii := ascii_of_nat 32.
Definition spaces (n : nat) : string := Nat.iter n (String BLANK) EmptyString.
Definition pad_right (width : nat) (s : string) : string := s +:+ spaces (width - length (str_chars s)).

(** *** [system_access.rs] *)

Record FileMetadata := mk_meta { uid : Z; gid : Z; mode : Z }.
Record Output := mk_output { success : bool; stdout : string; stderr : string }.

(** The trait's operations; [walk_dir] is [WalkDir], which checkers use next to it: the
    path of each entry that could be listed, and of its metadata whether it is a file,
    and its mode. *)
Record SystemAccess := mk_sac {
  sac_open : string → option string;
  sac_metadata : string → option FileMetadata;
  sac_exists : string → bool;
  command_output : string → list string → option Output;
  walk_dir : string → list (option (string * option (bool * Z))) }.

(** *** [results.rs] *)

Inductive CheckStatus :=
| PASS
| FAIL
| SKIP
| OVERRIDE (inner : CheckStatus).
#[export] Instance check_status_eq_dec : EqDecision CheckStatus.
Proof. solve_decision. Defined.

Inductive Mode := Automatic | Manual.

Record ReportMetadata := mk_report_metadata {
  benchmark_name : option string;
  version : option string;
  url : option string }.

Record CheckerMetadata := mk_metadata {
  name : string;
  check_id : string;
  level : Z;
  title : string;
  check_mode : Mode }.

Record CheckerResult := mk_result {
  status : CheckStatus;
  error : string;
  override_reason : option string }.
Definition default_result : CheckerResult := mk_result SKIP EmptyString None.

Record OverrideConfig := mk_override {
  reason : string;
  reference : option string;
  override_status : string }.

(** The trait [Checker]. *)
Record Checker := mk_checker {
  execute : SystemAccess → CheckerResult;
  metadata : CheckerMetadata }.

Definition ManualChecker (name id title : string) (level : Z) : Checker := {|
  execute _ := mk_result SKIP "Manual check, see benchmark for audit details." None;
  metadata := mk_metadata name id level title Manual |}.

(** [Display], which is [Debug]. *)
Fixpoint status_text (s : CheckStatus) : string :=
  match s with
  | PASS => "PASS"
  | FAIL => "FAIL"
  | SKIP => "SKIP"
  | OVERRIDE inner => "OVERRIDE(" +:+ status_text inner +:+ ")"
  end.
Definition mode_text (m : Mode) : string := match m with Automatic => "Automatic" | Manual => "Manual" end.

(** *** JSON *)

(** The text of JSON: [serde_json::to_string], and the value that a text holds, with the
    fields of an object in the order of the text, repeated ones too.  A printed value
    is read back, also from a line. *)
Class JsonText := {
  json_text : json → string;
  json_tree : string → option json;
  json_text_utf8 v : utf8_valid (json_text v) = true;
  json_tree_line v : json_wf v → json_tree (str_push (json_text v) NEWLINE) = Some v }.

(** What serde derives for structs: the fields of an object, each at most once and with
    others ignored, or the elements of an array. *)
Definition field_of (m : list (string * json)) (n : string) : option (option json) :=
  match filter (λ kv, kv.1 = n) m with
  | [] => Some None
  | [kv] => Some (Some kv.2)
  | _ => None
  end.
Definition fields_of (names : list string) (v : json) : option (list (option json)) :=
  match v with
  | JObject m => mapM (field_of m) names
  | JArray l => if (length l =? length names)%nat then Some (Some <$> l) else None
  | _ => None
  end.
Definition required {A} (f : json → option A) (o : option json) : option A := o ≫= f.
Definition optional {A} (f : json → option A) (o : option json) : option (option A) :=
  match o with
  | None | Some JNull => Some None
  | Some v => Some <$> f v
  end.
Definition as_u8 (v : json) : option Z :=
  match v with JNumber (PosInt n) => if (n <? 256)%Z then Some n else None | _ => None end.

Definition unit_status (s : string) : option CheckStatus :=
  if decide (s = "PASS") then Some PASS
  else if decide (s = "FAIL") then Some FAIL
  else if decide (s = "SKIP") then Some SKIP else None.
Fixpoint status_of_json (v : json) : option CheckStatus :=
  match v with
  | JString s => unit_status s
  | JObject [(k, v)] =>
      if decide (k = "OVERRIDE") then OVERRIDE <$> status_of_json v
      else match v with JNull => unit_status k | _ => None end
  | _ => None
  end.
Fixpoint status_json (s : CheckStatus) : json :=
  match s with
  | OVERRIDE inner => JObject [("OVERRIDE", status_json inner)]
  | s => JString (status_text s)
  end.

Definition unit_mode (s : string) : option Mode :=
  if decide (s = "Automatic") then Some Automatic
  else if decide (s = "Manual") then Some Manual else None.
Definition mode_of_json (v : json) : option Mode :=
  match v with
  | JString s | JObject [(s, JNull)] => unit_mode s
  | _ => None
  end.

(** A field with [skip_serializing_if = Option::is_none]. *)
Definition some_field (k : string) (o : option string) : list (string * json) :=
  match o with Some s => [(k, JString s)] | None => [] end.

Definition metadata_json (m : CheckerMetadata) : json :=
  JObject [("name", JString (name m)); ("id", JString (check_id m)); ("level", JNumber (PosInt (level m)));
           ("title", JString (title m)); ("mode", JString (mode_text (check_mode m)))].
Definition metadata_of_json (v : json) : option CheckerMetadata :=
  fs ← fields_of ["name"; "id"; "level"; "title"; "mode"] v;
  match fs with
  | [n; i; l; t; m] =>
      n ← required as_str n; i ← required as_str i; l ← required as_u8 l;
      t ← required as_str t; m ← required mode_of_json m;
      Some (mk_metadata n i l t m)
  | _ => None
  end.

Definition result_json (r : CheckerResult) : json :=
  JObject ([("status", status_json (status r)); ("error", JString (error r))] ++
           some_field "override_reason" (override_reason r)).
Definition result_of_json (v : json) : option CheckerResult :=
  fs ← fields_of ["status"; "error"; "override_reason"] v;
  match fs with
  | [s; e; o] =>
      s ← required status_of_json s; e ← required as_str e; o ← optional as_str o;
      Some (mk_result s e o)
  | _ => None
  end.

Definition override_of_json (v : json) : option OverrideConfig :=
  fs ← fields_of ["reason"; "reference"; "status"] v;
  match fs with
  | [r; f; s] =>
      r ← required as_str r; f ← optional as_str f; s ← required as_str s;
      Some (mk_override r f s)
  | _ => None
  end.

Definition report_metadata_of_json (v : json) : option ReportMetadata :=
  fs ← fields_of ["name"; "version"; "url"] v;
  match fs with
  | [n; w; u] =>
      n ← optional as_str n; w ← optional as_str w; u ← optional as_str u;
      Some (mk_report_metadata n w u)
  | _ => None
  end.

(** *** The report *)

Record IndividualResult := mk_individual { ind_metadata : CheckerMetadata; ind_result : CheckerResult }.

Definition individual_json (r : IndividualResult) : json :=
  let m := ind_metadata r in
  JObject [("name", JString (name m)); ("id", JString (check_id m)); ("level", JNumber (PosInt (level m)));
           ("title", JString (title m)); ("mode", JString (mode_text (check_mode m)));
           ("status", JString (match status (ind_result r) with
                               | OVERRIDE inner => status_text inner
                               | s => status_text s
                               end));
           ("error", JString (default (error (ind_result r)) (override_reason (ind_result r))))].

(** The results are a [BTreeMap]. *)
Record ReportResults := mk_report {
  report_level : Z;
  total : nat;
  passed : nat;
  skipped : nat;
  failed : nat;
  report_status : CheckStatus;
  timestamp : string;
  report_metadata : ReportMetadata;
  results : list (string * IndividualResult) }.

Definition new_report (level : Z) (metadata : ReportMetadata) (now : string) : ReportResults :=
  mk_report level 0 0 0 0 SKIP now metadata [].

Definition count_failed (r : ReportResults) : ReportResults :=
  mk_report (report_level r) (total r) (passed r) (skipped r) (S (failed r)) FAIL
    (timestamp r) (report_metadata r) (results r).
Definition count_passed (r : ReportResults) : ReportResults :=
  mk_report (report_level r) (total r) (S (passed r)) (skipped r) (failed r)
    (if decide (report_status r = SKIP) then PASS else report_status r)
    (timestamp r) (report_metadata r) (results r).
Definition count_skipped (r : ReportResults) : ReportResults :=
  mk_report (report_level r) (total r) (passed r) (S (skipped r)) (failed r) (report_status r)
    (timestamp r) (report_metadata r) (results r).

Definition add_result (self : ReportResults) (metadata : CheckerMetadata) (result : CheckerResult) : ReportResults :=
  let self := mk_report (report_level self) (S (total self)) (passed self) (skipped self) (failed self)
                (report_status self) (timestamp self) (report_metadata self) (results self) in
  let self :=
    match status result with
    | FAIL => count_failed self
    | PASS => count_passed self
    | SKIP => count_skipped self
    | OVERRIDE inner_status =>
        match inner_status with
        | FAIL => count_failed self
        | PASS => count_passed self
        | SKIP => count_skipped self
        | OVERRIDE _ => count_skipped self
        end
    end in
  mk_report (report_level self) (total self) (passed self) (skipped self) (failed self) (report_status self)
    (timestamp self) (report_metadata self)
    (bt_insert (name metadata) (mk_individual metadata result) (results self)).

(** *** [output.rs] *)

Definition nat_json (n : nat) : json := JNumber (PosInt (Z.of_nat n)).
Definition nat_text (n : nat) : string := unsigned_to_string (Z.of_nat n).

Definition report_json (r : ReportResults) : json :=
  JObject ([("level", JNumber (PosInt (report_level r))); ("total", nat_json (total r));
            ("passed", nat_json (passed r)); ("skipped", nat_json (skipped r));
            ("failed", nat_json (failed r)); ("status", status_json (report_status r));
            ("timestamp", JString (timestamp r))] ++
           some_field "name" (benchmark_name (report_metadata r)) ++
           some_field "version" (version (report_metadata r)) ++
           some_field "url" (url (report_metadata r)) ++
           [("results", JObject ((λ kv, (kv.1, individual_json kv.2)) <$> results r))]).

Definition label_line (label value : string) : string := pad_right 17 label +:+ value.
Definition some_line (label : string) (o : option string) : list string :=
  match o with Some value => [label_line label value] | None => [] end.

Definition result_line (r : IndividualResult) : string :=
  let '(status_display, mode_display) :=
    match status (ind_result r) with
    | OVERRIDE embedded_status => (status_text embedded_status, "Exception")
    | s => (status_text s, mode_text (check_mode (ind_metadata r)))
    end in
  "[" +:+ status_display +:+ "] " +:+ pad_right 9 (check_id (ind_metadata r)) +:+ " " +:+ title (ind_metadata r) +:+
  " (" +:+ mode_display +:+ ")".
Definition exception_of (r : IndividualResult) : option (string * string) :=
  match status (ind_result r), override_reason (ind_result r) with
  | OVERRIDE _, Some reason => Some (check_id (ind_metadata r), reason)
  | _, _ => None
  end.

Definition text_lines (r : ReportResults) : list string :=
  some_line "Benchmark name:" (benchmark_name (report_metadata r)) ++
  some_line "Version:" (version (report_metadata r)) ++
  some_line "Reference:" (url (report_metadata r)) ++
  [label_line "Benchmark level:" (unsigned_to_string (report_level r));
   label_line "Start time:" (timestamp r); EmptyString] ++
  ((λ kv, result_line kv.2) <$> results r) ++
  [EmptyString; label_line "Passed:" (nat_text (passed r)); label_line "Failed:" (nat_text (failed r));
   label_line "Skipped:" (nat_text (skipped r)); label_line "Total checks:" (nat_text (total r));
   EmptyString; "Compliance check result: " +:+ status_text (report_status r)] ++
  match omap (λ kv, exception_of kv.2) (results r) with
  | [] => []
  | exceptions => [EmptyString; "Exceptions:"] ++ ((λ e, "*  " +:+ e.1 +:+ " " +:+ e.2) <$> exceptions)
  end.

Definition text_report (r : ReportResults) : string :=
  str_concat ((λ line, str_push line NEWLINE) <$> text_lines r).
Definition json_report `{JsonText} (r : ReportResults) : string :=
  str_push (json_text (report_json r)) NEWLINE.

(** *** [lib.rs] *)

Definition look_for_word_in_file (sac : SystemAccess) (path search_word : string) : option bool :=
  content ← sac_open sac path;
  Some (existsb (λ line, existsb (λ word, bool_decide (word = search_word)) (split_ascii_whitespace line))
          (reader_lines content)).

Definition look_for_string_in_file (sac : SystemAccess) (path search_str : string) : option bool :=
  content ← sac_open sac path;
  Some (existsb (λ line, str_contains line search_str) (reader_lines content)).

(** The loops count the pairs of a line and a string that it holds. *)
Definition matches (lines : list string) (search_strs : list string) : nat :=
  foldl (λ matched content,
    foldl (λ matched search_str, if str_contains content search_str then S matched else matched) matched search_strs)
    0 lines.

Definition look_for_strings_in_file (sac : SystemAccess) (path : string) (search_strs : list string) : option bool :=
  content ← sac_open sac path;
  Some (length search_strs <=? matches (reader_lines content) search_strs)%nat.

Definition look_for_strings_in_output (sac : SystemAccess) (cmd : string) (args search_strs : list string) : option bool :=
  output ← command_output sac cmd args;
  if success output then
    Some (length search_strs <=? matches (str_lines (from_utf8_lossy (stdout output))) search_strs)%nat
  else None.

Definition look_for_string_in_output (sac : SystemAccess) (cmd : string) (args : list string) (search_str : string)
    : option bool :=
  look_for_strings_in_output sac cmd args [search_str].

Definition check_file_exists (sac : SystemAccess) (path unable_to_find_error : string) : CheckerResult :=
  match sac_open sac path with
  | Some _ => mk_result PASS EmptyString None
  | None => mk_result FAIL unable_to_find_error None
  end.

Definition check_file_contains (sac : SystemAccess) (path : string) (strings_to_match : list string)
    (unable_to_check_error unable_to_find_error : string) : CheckerResult :=
  match look_for_strings_in_file sac path strings_to_match with
  | Some found => if (found : bool) then mk_result PASS EmptyString None else mk_result FAIL unable_to_find_error None
  | None => mk_result SKIP unable_to_check_error None
  end.

Definition check_output_contains (sac : SystemAccess) (cmd : string) (args strings_to_match : list string)
    (unable_to_check_error unable_to_find_error : string) : CheckerResult :=
  match look_for_strings_in_output sac cmd args strings_to_match with
  | Some found => if (found : bool) then mk_result PASS EmptyString None else mk_result FAIL unable_to_find_error None
  | None => mk_result SKIP unable_to_check_error None
  end.

Definition check_file_not_mode (sac : SystemAccess) (file_path : string) (forbidden : Z) : CheckerResult :=
  match sac_metadata sac file_path with
  | Some metadata =>
      let file_mode := Z.land (mode metadata) 511 in
      if (0 <? Z.land file_mode forbidden)%Z then
        mk_result FAIL ("file " +:+ file_path +:+ " has extra permissions: 0x" +:+ octal file_mode) None
      else mk_result PASS EmptyString None
  | None => mk_result SKIP "unable to get file metadata information" None
  end.

Definition ensure_file_owner_and_group_root (sac : SystemAccess) (file_path : string) : CheckerResult :=
  match sac_metadata sac file_path with
  | Some metadata =>
      if negb (uid metadata =? 0)%Z || negb (gid metadata =? 0)%Z then
        mk_result FAIL "File owner is not root:root" None
      else mk_result PASS EmptyString None
  | None => mk_result SKIP "unable to get file metadata" None
  end.

(** *** [args.rs] *)

Inductive Format := Text | Json.
Definition format_from_str (value : string) : option Format :=
  let value := str_map ascii_lower value in
  if decide (value = "text") then Some Text else if decide (value = "json") then Some Json else None.

Definition DEFAULT_CHECK_PATH : string := "/usr/libexec/cis-checks/bottlerocket".
Record Arguments := mk_arguments {
  check_dir : string;
  format : Format;
  arg_level : Z;
  output : option string }.

(** *** [main.rs] *)

Definition CHECKER_DISCOVERY_ERROR : Z := 2.
Definition REPORT_OUTPUT_ERROR : Z := 3.
Definition NO_CHECKS_RUN_ERROR : Z := 4.

(** The file system, the commands and the destinations for the report, [None] being the
    standard output.  [read_dir] has the path of each entry that could be listed;
    [file_metadata] says whether a path is a directory, and its mode. *)
Class Host := {
  is_dir : string → bool;
  read_dir : string → option (list (option string));
  file_metadata : string → option (bool * Z);
  run_command : string → list string → option Output;
  path_exists : string → bool;
  read_bytes : string → option string;
  create_file : string → bool;
  can_write : option string → bool }.

(** What becomes of a run: what was written where, and the exit code, or a panic. *)
Record run_outcome := mk_outcome {
  written : option (option string * string);
  exit_code : option Z }.

Section main.
Context `{HashOrder, JsonText, Host}.

Definition read_metadata (check_dir : string) : ReportMetadata :=
  default (mk_report_metadata None None None)
    (text ← read_bytes (path_join check_dir "metadata.json"); json_tree text ≫= report_metadata_of_json).

(** One turn of the loop of [find_checkers]. *)
Definition add_checker (level_ : Z) (found : gmap string CheckerMetadata * list string) (path : string)
    : gmap string CheckerMetadata * list string :=
  let '(checkers, test_names) := found in
  match file_metadata path with
  | Some (is_dir, mode) =>
      if is_dir || (Z.land mode 73 =? 0)%Z then found
      else
        match run_command path ["metadata"] with
        | Some output =>
            match json_tree (from_utf8_lossy (stdout output)) ≫= metadata_of_json with
            | Some checker_data =>
                if (level checker_data <=? level_)%Z then
                  (<[from_utf8_lossy path := checker_data]> checkers, test_names ++ [name checker_data])
                else found
            | None => found
            end
        | None => found
        end
  | None => found
  end.

(** [None] is the panic of [read_dir(..).unwrap()]. *)
Definition find_checkers (check_dir : string) (level : Z) : option (gmap string CheckerMetadata * list string) :=
  entries ← read_dir check_dir;
  Some (foldl (add_checker level) (∅, []) (omap id entries)).

Definition load_override_config (path : string) : option OverrideConfig :=
  file_content ← read_bytes path;
  if utf8_valid file_content then json_tree file_content ≫= override_of_json else None.

Definition find_overrides (check_dir : string) (test_names : list string) : gmap string OverrideConfig :=
  foldl (λ overrides test_name,
    let override_path := path_join check_dir (test_name +:+ ".json") in
    if path_exists override_path then
      match load_override_config override_path with
      | Some override_config => <[test_name := override_config]> overrides
      | None => overrides
      end
    else overrides) ∅ test_names.

Definition find_directory_contents (check_dir : string) (level : Z)
    : option (gmap string CheckerMetadata * gmap string OverrideConfig) :=
  '(checkers, test_names) ← find_checkers check_dir level;
  Some (checkers, find_overrides check_dir test_names).

Definition find_override_for_test (overrides : gmap string OverrideConfig) (test_name : string) : option OverrideConfig :=
  overrides !! test_name.

Definition apply_override (report : ReportResults) (data : CheckerMetadata) (override_config : OverrideConfig)
    : ReportResults :=
  add_result report data
    (mk_result (OVERRIDE (default SKIP (unit_status (override_status override_config)))) EmptyString
       (Some (reason override_config))).

Definition process_checker_results (output : Output) (data : CheckerMetadata) (report : ReportResults) : ReportResults :=
  let failure := add_result report data (mk_result SKIP (from_utf8_lossy (stderr output)) None) in
  if success output then
    match json_tree (from_utf8_lossy (stdout output)) ≫= result_of_json with
    | Some checker_result => add_result report data checker_result
    | None => failure
    end
  else failure.

Definition run_checker (overrides : gmap string OverrideConfig) (report : ReportResults)
    (entry : string * CheckerMetadata) : ReportResults :=
  let '(checker, data) := entry in
  match find_override_for_test overrides (name data) with
  | Some override_config => apply_override report data override_config
  | None =>
      match run_command checker [] with
      | Some output => process_checker_results output data report
      | None => add_result report data (mk_result SKIP ("Error executing " +:+ name data +:+ " checker.") None)
      end
  end.

Definition gather (check_dir : string) (level : Z) (now : string) (checkers : gmap string CheckerMetadata)
    (overrides : gmap string OverrideConfig) : ReportResults :=
  foldl (run_checker overrides) (new_report level (read_metadata check_dir) now) (map_iter checkers).

Definition get_output (output : option string) : bool :=
  match output with Some path => create_file path | None => true end.

Definition run (args : Arguments) (now : string) : run_outcome :=
  if negb (is_dir (check_dir args)) then mk_outcome None (Some CHECKER_DISCOVERY_ERROR)
  else
    match find_directory_contents (check_dir args) (arg_level args) with
    | None => mk_outcome None None
    | Some (checkers, overrides) =>
        if decide (checkers = ∅) then mk_outcome None (Some CHECKER_DISCOVERY_ERROR)
        else
          let report := gather (check_dir args) (arg_level args) now checkers overrides in
          if negb (get_output (output args)) then mk_outcome None (Some REPORT_OUTPUT_ERROR)
          else
            let text := match format args with Json => json_report report | Text => text_report report end in
            if negb (can_write (output args)) then mk_outcome None (Some REPORT_OUTPUT_ERROR)
            else mk_outcome (Some (output args, text))
                   (Some (if decide (report_status report = SKIP) then NO_CHECKS_RUN_ERROR else 0%Z))
    end.
End main.

(** *** The report that is promised *)

Abbreviation finding := (CheckerMetadata * CheckerResult)%type.

(** The status that counts: that of the override, if there is one. *)
Definition effective (s : CheckStatus) : CheckStatus :=
  match s with
  | OVERRIDE (OVERRIDE _) => SKIP
  | OVERRIDE inner => inner
  | s => s
  end.
Definition tally (s : CheckStatus) (l : list finding) : nat :=
  length (filter (λ f, effective (status f.2) = s) l).
Definition verdict (l : list finding) : CheckStatus :=
  if (0 <? tally FAIL l)%nat then FAIL else if (0 <? tally PASS l)%nat then PASS else SKIP.
Definition report_of (level : Z) (metadata : ReportMetadata) (now : string) (l : list finding) : ReportResults :=
  foldl (λ report f, add_result report f.1 f.2) (new_report level metadata now) l.

(** ** Text *)

(** Induction on the characters of a valid string. *)
Lemma utf8_ind (P : string → Prop) :
  P EmptyString →
  (∀ a s, byte_in 0 127 a = true → P s → P (String a s)) →
  (∀ a b s, byte_in 0 127 a = false → byte_in 194 223 a = true → is_cont b = true → P s →
     P (String a (String b s))) →
  (∀ a b c s, byte_in 0 127 a = false → byte_in 194 223 a = false → byte_in 224 239 a = true →
     second_of_3 a b = true → is_cont c = true → P s → P (String a (String b (String c s)))) →
  (∀ a b c d s, byte_in 0 127 a = false → byte_in 194 223 a = false → byte_in 224 239 a = false →
     byte_in 240 244 a = true → second_of_4 a b = true → is_cont c = true → is_cont d = true → P s →
     P (String a (String b (String c (String d s))))) →
  ∀ s, utf8_valid s = true → P s.
Proof.
  intros H0 H1 H2 H3 H4 s. remember (str_len s) as n eqn:En. revert s En.
  induction n as [n IH] using lt_wf_ind. intros s -> Hv.
  destruct s as [|a s]; [done|]. cbn -[byte_in] in Hv.
  destruct (byte_in 0 127 a) eqn:E1; [apply H1, (IH (str_len s)); [done|cbn; lia|done..]|].
  destruct (byte_in 194 223 a) eqn:E2.
  { destruct s as [|b s]; [done|]. apply andb_true_iff in Hv as [Hb Hv].
    apply H2, (IH (str_len s)); [done..|cbn; lia|done|done]. }
  destruct (byte_in 224 239 a) eqn:E3.
  { destruct s as [|b [|c s]]; [done..|]. apply andb_true_iff in Hv as [Hb Hv]. apply andb_true_iff in Hb as [Hb Hc].
    apply H3, (IH (str_len s)); [done..|cbn; lia|done|done]. }
  destruct (byte_in 240 244 a) eqn:E4; [|done].
  destruct s as [|b [|c [|d s]]]; [done..|]. apply andb_true_iff in Hv as [Hb Hv].
  apply andb_true_iff in Hb as [Hb Hd]. apply andb_true_iff in Hb as [Hb Hc].
  apply H4, (IH (str_len s)); [done..|cbn; lia|done|done].
Qed.

(** Rewrites with the tests on bytes that are known, after a step on the first byte. *)
Ltac byte_tests := repeat match goal with H : @eq bool _ _ |- _ => progress rewrite ?H; clear H end.
Ltac first_byte :=
  match goal with |- context [String ?a ?t] =>
    let s := fresh "s" in let E := fresh "E" in
    remember t as s eqn:E in |- *; cbn -[byte_in is_cont second_of_3 second_of_4 String.append];
    repeat match goal with H : byte_in _ _ a = _ |- _ => rewrite H; clear H end;
    rewrite ?E; cbv match; clear E
  end.

Lemma from_utf8_lossy_valid s : utf8_valid s = true → from_utf8_lossy s = s.
Proof.
  revert s. apply utf8_ind; [done|..]; intros; first_byte; byte_tests; congruence.
Qed.

Lemma utf8_valid_app s t : utf8_valid s = true → utf8_valid t = true → utf8_valid (s +:+ t) = true.
Proof.
  intros Hs Ht. revert s Hs. apply utf8_ind; [done|..]; intros; cbn [String.append];
    first_byte; unfold is_cont, second_of_3, second_of_4 in *; byte_tests; done.
Qed.

Lemma ascii_utf8 s : ascii_str s → utf8_valid s = true.
Proof.
  induction s as [|a s IH]; intros Hs; [done|]. apply ascii_str_cons in Hs as [Ha Hs].
  assert (Hb : byte_in 0 127 a = true).
  { unfold is_ascii in Ha. apply Nat.ltb_lt in Ha. apply andb_true_iff. split; apply Nat.leb_le; lia. }
  cbn -[byte_in]. rewrite Hb. by apply IH.
Qed.

(** ** JSON *)

Lemma status_roundtrip s : status_of_json (status_json s) = Some s.
Proof. induction s as [| | |s IH]; [done..|]. cbn. by rewrite IH. Qed.

Lemma status_json_wf s : json_wf (status_json s).
Proof.
  induction s as [| | |s IH]; [done..|]. cbn. split; [|done]. apply NoDup_cons. split; [set_solver|constructor].
Qed.

Lemma metadata_roundtrip m : (0 <= level m < 256)%Z → metadata_of_json (metadata_json m) = Some m.
Proof.
  intros [_ Hl%Z.ltb_lt]. unfold metadata_of_json.
  replace (fields_of _ _) with (Some (Some <$> [JString (name m); JString (check_id m); JNumber (PosInt (level m));
    JString (title m); JString (mode_text (check_mode m))])) by reflexivity.
  cbn -[Z.ltb]. rewrite Hl. cbn. by destruct m as [? ? ? ? []].
Qed.

Lemma result_roundtrip r : result_of_json (result_json r) = Some r.
Proof.
  unfold result_of_json.
  replace (fields_of _ _) with (Some [Some (status_json (status r)); Some (JString (error r)); JString <$> override_reason r])
    by (by destruct r as [s e []]).
  cbn. rewrite status_roundtrip. by destruct r as [s e []].
Qed.

Lemma metadata_json_wf m : (0 <= level m < 256)%Z → json_wf (metadata_json m).
Proof.
  intros Hl. unfold metadata_json. split; [by apply (bool_decide_eq_true_1 _)|]. cbn. split_and!; try done; lia.
Qed.

Lemma result_json_wf r : json_wf (result_json r).
Proof.
  destruct r as [s e []]; cbn; (split; [by apply (bool_decide_eq_true_1 _)|]; split; [apply status_json_wf|done]).
Qed.

(** What a checker prints is read back. *)
Lemma printed_line `{JsonText} v : json_wf v →
  json_tree (from_utf8_lossy (str_push (json_text v) NEWLINE)) = Some v.
Proof.
  intros Hv. rewrite from_utf8_lossy_valid; [by apply json_tree_line|].
  apply utf8_valid_app; [apply json_text_utf8|done].
Qed.

Lemma read_metadata_line `{JsonText} m : (0 <= level m < 256)%Z →
  json_tree (from_utf8_lossy (str_push (json_text (metadata_json m)) NEWLINE)) ≫= metadata_of_json = Some m.
Proof. intros Hm. rewrite printed_line by by apply metadata_json_wf. by apply metadata_roundtrip. Qed.

Lemma read_result_line `{JsonText} r :
  json_tree (from_utf8_lossy (str_push (json_text (result_json r)) NEWLINE)) ≫= result_of_json = Some r.
Proof. rewrite printed_line by apply result_json_wf. apply result_roundtrip. Qed.

(** A concrete text: the binary digits of a code. *)
Lemma bits_ascii p : ascii_str (bits_to_string p).
Proof. induction p as [p IH|p IH|]; [by apply ascii_str_cons..|done]. Qed.

Definition example_json_text : JsonText.
Proof.
  refine {| json_text v := bits_to_string (encode (json_to_tree v));
            json_tree s := json_of_tree <$> decode (bits_of_string (default s (strip_last NEWLINE s))) |}.
  - intros v. apply ascii_utf8, bits_ascii.
  - intros v _. unfold str_push. fold (char_of NEWLINE). rewrite strip_last_app. cbn [default].
    cbn -[json_of_tree json_to_tree encode decode]. rewrite bits_of_to_string, decode_encode.
    cbn -[json_of_tree json_to_tree]. by rewrite json_of_to_tree.
Defined.

(** ** The report *)

Lemma effective_cases s : effective s = PASS ∨ effective s = FAIL ∨ effective s = SKIP.
Proof. destruct s as [| | |[]]; auto. Qed.

Lemma tally_snoc s l f : tally s (l ++ [f]) = tally s l + (if decide (effective (status f.2) = s) then 1 else 0).
Proof.
  unfold tally. rewrite filter_app, length_app, filter_cons, filter_nil. by destruct (decide _).
Qed.

(** One more result, by its effective status. *)
Lemma add_result_effective r m x :
  add_result r m x =
  mk_report (report_level r) (S (total r))
    (passed r + (if decide (effective (status x) = PASS) then 1 else 0))
    (skipped r + (if decide (effective (status x) = SKIP) then 1 else 0))
    (failed r + (if decide (effective (status x) = FAIL) then 1 else 0))
    (if decide (effective (status x) = FAIL) then FAIL
     else if decide (effective (status x) = PASS ∧ report_status r = SKIP) then PASS else report_status r)
    (timestamp r) (report_metadata r) (bt_insert (name m) (mk_individual m x) (results r)).
Proof.
  destruct r as [rl t p s f rs ts rm res], x as [[| | |[]] e o]; unfold add_result; cbn;
    rewrite ?Nat.add_0_r, ?Nat.add_1_r; try done; by destruct rs.
Qed.

Lemma report_of_snoc level meta now l f :
  report_of level meta now (l ++ [f]) = add_result (report_of level meta now l) f.1 f.2.
Proof. unfold report_of. by rewrite foldl_app. Qed.

(** The invariant of the report, after any number of results. *)
Lemma report_of_counts level meta now l :
  report_of level meta now l =
  mk_report level (length l) (tally PASS l) (tally SKIP l) (tally FAIL l) (verdict l) now meta
    (results (report_of level meta now l)) ∧
  bt_sorted (results (report_of level meta now l)).
Proof.
  induction l as [|f l [IH Hs]] using rev_ind; [split; [done|constructor]|].
  rewrite report_of_snoc, add_result_effective. cbn. split; [|by apply bt_insert_sorted].
  rewrite IH. cbn. unfold verdict. rewrite length_app, !tally_snoc, Nat.add_1_r. f_equal.
  destruct (effective_cases (status f.2)) as [E|[E|E]]; rewrite E;
    repeat match goal with |- context [(0 <? ?n)%nat] => destruct (Nat.ltb_spec 0 n) end;
    repeat case_decide; destruct_and?; try lia; naive_solver lia.
Qed.

Lemma report_of_get level meta now l k i :
  NoDup ((λ f : finding, name f.1) <$> l) →
  bt_get k (results (report_of level meta now l)) = Some i ↔
  (ind_metadata i, ind_result i) ∈ l ∧ name (ind_metadata i) = k.
Proof.
  induction l as [|[m x] l IH] using rev_ind; [cbn; set_solver|].
  rewrite fmap_app, NoDup_app. intros (Hl & Hd & _). rewrite report_of_snoc, add_result_effective. cbn.
  rewrite bt_get_insert, elem_of_app, list_elem_of_singleton.
  assert (Hnew : ∀ i, (ind_metadata i, ind_result i) ∈ l → name (ind_metadata i) ≠ name m).
  { intros j Hj E. apply (Hd (name m)); [|cbn; set_solver]. rewrite <-E.
    apply (list_elem_of_fmap_2 (λ f : finding, name f.1) l _ Hj). }
  destruct (oeqb k (name m)) eqn:E; [apply oeqb_spec in E as ->|rewrite IH by done].
  - split; [intros [= <-]; auto|]. intros [[Hin|Hi] Hn]; [by destruct (Hnew i)|].
    destruct i. cbn in Hi. by injection Hi as -> ->.
  - split; [intros [? ?]; auto|]. intros [[Hin|[= Hm Hx]] <-]; [done|].
    rewrite Hm in E. by rewrite (proj2 (oeqb_spec _ _)) in E.
Qed.

Lemma tally_perm s l l' : l' ≡ₚ l → tally s l' = tally s l.
Proof. intros Hp. unfold tally. by rewrite Hp. Qed.

Lemma report_of_perm level meta now l l' :
  NoDup ((λ f : finding, name f.1) <$> l) → l' ≡ₚ l → report_of level meta now l' = report_of level meta now l.
Proof.
  intros Hd Hp. destruct (report_of_counts level meta now l) as [-> Hs].
  destruct (report_of_counts level meta now l') as [-> Hs'].
  unfold verdict. rewrite !(tally_perm _ l l') by done. f_equal; [by rewrite Hp|].
  apply bt_ext; [done..|]. intros k. apply option_eq. intros i.
  rewrite !report_of_get; [by rewrite Hp|done|by rewrite Hp].
Qed.

Lemma tally_pos s l : 0 < tally s l ↔ ∃ f, f ∈ l ∧ effective (status f.2) = s.
Proof.
  unfold tally. split.
  - intros Hl. destruct (filter _ l) as [|f l'] eqn:E; [cbn in Hl; lia|]. exists f.
    assert (Hf : f ∈ filter (λ f, effective (status f.2) = s) l) by (rewrite E; left).
    by apply list_elem_of_filter in Hf as [? ?].
  - intros (f & Hf & Hs).
    assert (Hin : f ∈ filter (λ f, effective (status f.2) = s) l) by (by apply list_elem_of_filter).
    destruct (filter _ l); [by apply elem_of_nil in Hin|cbn; lia].
Qed.

Lemma tally_sum l : tally PASS l + tally FAIL l + tally SKIP l = length l.
Proof.
  induction l as [|f l IH] using rev_ind; [done|]. rewrite !tally_snoc, length_app. cbn.
  destruct (effective_cases (status f.2)) as [E|[E|E]]; rewrite E; repeat case_decide; (done || lia).
Qed.

(** C12. The report of bloodhound, whatever the order in which the results come: every result
    is counted once, [passed] being the number of those that passed, [failed] of those that
    failed and [skipped] of those that were skipped, an overridden one by the status of
    its override, and they add up to [total]; the report fails exactly when a result fails, and is left undecided
    exactly when all are skipped; it holds for each checker its metadata and result; and
    it does not depend on the order. *)
Theorem report_correct level meta now l l' :
  NoDup ((λ f : finding, name f.1) <$> l) → l' ≡ₚ l →
  let r := report_of level meta now l' in
  passed r = length (filter (λ f, effective (status f.2) = PASS) l) ∧
  failed r = length (filter (λ f, effective (status f.2) = FAIL) l) ∧
  skipped r = length (filter (λ f, effective (status f.2) = SKIP) l) ∧
  total r = length l ∧ passed r + failed r + skipped r = total r ∧
  (report_status r = FAIL ↔ ∃ f, f ∈ l ∧ effective (status f.2) = FAIL) ∧
  (report_status r = SKIP ↔ ∀ f, f ∈ l → effective (status f.2) = SKIP) ∧
  (∀ k i, bt_get k (results r) = Some i ↔ (ind_metadata i, ind_result i) ∈ l ∧ name (ind_metadata i) = k) ∧
  r = report_of level meta now l.
Proof.
  intros Hd Hp r. assert (Hr : r = report_of level meta now l) by (by apply report_of_perm).
  rewrite Hr. clear r Hr. assert (Hg := λ k i, report_of_get level meta now l k i Hd).
  split_and!; [..|exact Hg|done]; destruct (report_of_counts level meta now l) as [-> _]; cbn;
    [done..|rewrite <-(tally_sum l); lia| |]; unfold verdict; rewrite <-?tally_pos.
  - destruct (Nat.ltb_spec 0 (tally FAIL l)), (Nat.ltb_spec 0 (tally PASS l)); split; (done || lia).
  - transitivity (¬ 0 < tally FAIL l ∧ ¬ 0 < tally PASS l).
    { destruct (Nat.ltb_spec 0 (tally FAIL l)), (Nat.ltb_spec 0 (tally PASS l)); split; intros ?;
        (done || lia || (exfalso; lia)). }
    rewrite !tally_pos. split.
    + intros [Hf Hps] f Hin. destruct (effective_cases (status f.2)) as [E|[E|E]]; [| |done]; exfalso; eauto.
    + intros Hs. split; intros (f & Hin & E); specialize (Hs f Hin); congruence.
Qed.

Lemma report_correct_witness :
  let m n := mk_metadata n n 1 n Automatic in
  let l := [(m "a", mk_result PASS "" None); (m "b", mk_result (OVERRIDE FAIL) "" (Some "known"))] in
  let r := report_of 1 (mk_report_metadata None None None) "now" (reverse l) in
  report_status r = FAIL ∧ passed r = 1 ∧ failed r = 1 ∧ skipped r = 0.
Proof.
  intros m l r. split; [done|].
  destruct (report_correct 1 (mk_report_metadata None None None) "now" l (reverse l)) as (Hp & Hf & Hs & _);
    [..|split_and!; [exact Hp|exact Hf|exact Hs]].
  - apply (bool_decide_eq_true_1 _). reflexivity.
  - apply reverse_Permutation.
Defined.

(** ** The helpers of checkers *)

Definition found_on_a_line (lines : list string) (s : string) : bool := existsb (λ line, str_contains line s) lines.

(** The number of lines with a string, and of given strings that a line holds. *)
Definition lines_with (lines : list string) (s : string) : nat :=
  sum_list ((λ line, Nat.b2n (str_contains line s)) <$> lines).
Definition held (strs : list string) (line : string) : nat :=
  sum_list ((λ s, Nat.b2n (str_contains line s)) <$> strs).

Lemma inner_count strs line n :
  foldl (λ matched s, if str_contains line s then S matched else matched) n strs = n + held strs line.
Proof.
  revert n. induction strs as [|s strs IH]; intros n; cbn; [lia|]. rewrite IH.
  destruct (str_contains line s); unfold held; cbn; lia.
Qed.

Lemma matches_sum lines strs : matches lines strs = sum_list (held strs <$> lines).
Proof.
  unfold matches. enough (Hg : ∀ n, foldl (λ matched content, foldl (λ matched s,
    if str_contains content s then S matched else matched) matched strs) n lines = n + sum_list (held strs <$> lines))
    by apply (Hg 0).
  induction lines as [|line lines IH]; intros n; [cbn; lia|].
  cbn [foldl]. rewrite IH, inner_count. cbn. lia.
Qed.

(** Counted by strings. *)
Lemma matches_by_string lines strs : matches lines strs = sum_list (lines_with lines <$> strs).
Proof.
  rewrite matches_sum. induction lines as [|line lines IH].
  { unfold lines_with. cbn. induction strs as [|s strs IH]; [done|]. exact IH. }
  cbn. rewrite IH. clear IH. unfold held, lines_with.
  induction strs as [|s strs IH]; [done|]. cbn in *. lia.
Qed.

Lemma lines_with_pos lines s : 0 < lines_with lines s ↔ found_on_a_line lines s = true.
Proof.
  unfold lines_with, found_on_a_line. induction lines as [|line lines IH]; cbn; [split; [lia|done]|].
  destruct (str_contains line s); cbn; [split; [done|lia]|exact IH].
Qed.

Lemma sum_pos (f : string → nat) l : Forall (λ x, 0 < f x) l → length l ≤ sum_list (f <$> l).
Proof. induction 1; cbn; lia. Qed.

(** When all strings are found, the count is large enough. *)
Lemma all_found lines strs : Forall (λ s, found_on_a_line lines s = true) strs → (length strs <=? matches lines strs)%nat = true.
Proof.
  intros Hf. apply Nat.leb_le. rewrite matches_by_string. apply sum_pos.
  eapply Forall_impl; [exact Hf|]. intros s. by apply lines_with_pos.
Qed.

(** When each is on one line at most, the count is exact. *)
Lemma count_exact lines strs : Forall (λ s, lines_with lines s ≤ 1) strs →
  (length strs <=? matches lines strs)%nat = true → Forall (λ s, found_on_a_line lines s = true) strs.
Proof.
  intros H1 Hle%Nat.leb_le. rewrite matches_by_string in Hle.
  assert (Hub : ∀ l, Forall (λ s, lines_with lines s ≤ 1) l → sum_list (lines_with lines <$> l) ≤ length l)
    by (induction 1; cbn; lia).
  revert Hle. induction H1 as [|s strs Hs Hss IH]; intros Hle; [constructor|].
  cbn in Hle. pose proof (Hub strs Hss). constructor; [apply lines_with_pos; lia|]. apply IH. lia.
Qed.

Lemma single_found lines s : (length [s] <=? matches lines [s])%nat = found_on_a_line lines s.
Proof.
  apply eq_true_iff_eq. rewrite Nat.leb_le, matches_by_string, <-lines_with_pos. cbn. lia.
Qed.

(** What a check for strings says of the lines it looks at, if it can look. *)
Definition check_says (lines : option (list string)) (strs : list string) (r : CheckerResult) : Prop :=
  (status r = SKIP ↔ lines = None) ∧
  (∀ ls, lines = Some ls → Forall (λ s, found_on_a_line ls s = true) strs → status r = PASS) ∧
  (∀ ls, lines = Some ls → Forall (λ s, lines_with ls s ≤ 1) strs →
     status r = PASS → Forall (λ s, found_on_a_line ls s = true) strs) ∧
  (∀ ls s, lines = Some ls → strs = [s] → status r = if found_on_a_line ls s then PASS else FAIL).

Lemma check_says_intro lines strs e1 e2 :
  check_says lines strs
    (match (ls ← lines; Some (length strs <=? matches ls strs)%nat) with
     | Some found => if (found : bool) then mk_result PASS EmptyString None else mk_result FAIL e2 None
     | None => mk_result SKIP e1 None
     end).
Proof.
  destruct lines as [ls|]; cbn; [|split_and!; [done|by intros..]].
  destruct (length strs <=? matches ls strs)%nat eqn:E; split_and!; cbn; intros; simplify_eq; try done.
  - by apply count_exact.
  - by rewrite single_found in E; rewrite E.
  - by rewrite all_found in E.
  - by rewrite single_found in E; rewrite E.
Qed.

Lemma look_in_output sac cmd args strs :
  look_for_strings_in_output sac cmd args strs =
  (ls ← (output ← command_output sac cmd args;
         if success output then Some (str_lines (from_utf8_lossy (stdout output))) else None);
   Some (length strs <=? matches ls strs)%nat).
Proof.
  unfold look_for_strings_in_output. destruct (command_output sac cmd args) as [o|]; [|done].
  cbn -[from_utf8_lossy str_lines matches Nat.leb]. by destruct (success o).
Qed.

(** The checks for strings in a file and in the output of a command: they are undecided
    exactly when the file cannot be opened or the command fails; they pass when every
    string is on some line; a single string passes exactly when it is on some line; and
    when no string is on two lines, they pass only if all are found. *)
Lemma checks_for_strings sac path cmd args strs e1 e2 :
  check_says (reader_lines <$> sac_open sac path) strs (check_file_contains sac path strs e1 e2) ∧
  check_says (output ← command_output sac cmd args;
              if success output then Some (str_lines (from_utf8_lossy (stdout output))) else None)
    strs (check_output_contains sac cmd args strs e1 e2).
Proof.
  split.
  - unfold check_file_contains, look_for_strings_in_file.
    replace (_ ≫= _) with (ls ← reader_lines <$> sac_open sac path; Some (length strs <=? matches ls strs)%nat)
      by (by destruct (sac_open sac path)).
    apply check_says_intro.
  - unfold check_output_contains.
    rewrite look_in_output. apply check_says_intro.
Qed.

(** Two lines with one string make up for another string that is nowhere. *)
Lemma missing_string_passes :
  let content := str_concat ((λ l, str_push l NEWLINE) <$> ["root=/dev/dm-0 a"; "root=/dev/dm-0 b"]) in
  let sac := mk_sac (λ _, Some content) (λ _, None) (λ _, false) (λ _ _, None) (λ _, []) in
  status (check_file_contains sac "/proc/cmdline" ["root=/dev/dm-0"; "restart_on_corruption"] "" "") = PASS.
Proof. reflexivity. Qed.
