(* ===== verification/BloodhoundChecks.v ===== *)
(** * The checkers of bloodhound ([sources/bloodhound/src/bin])

    The checkers of the CIS benchmarks for Bottlerocket and Kubernetes and those for FIPS,
    each with the metadata that it reports, and the three programs that choose a checker by
    the name they are called with.  The YAML of kubelet's configuration is the class
    [Yaml]. *)
From S2P Require Import Prelude Json KeyMap BTree Numbers Chars NetConfig Filesystem Bloodhound.
From Stdlib Require Import Ascii.
From stdpp Require Import base list strings gmap.
From stdpp Require Import options.

(** ** Definitions *)

Definition passing : CheckerResult := mk_result PASS EmptyString None.
Definition failing (error : string) : CheckerResult := mk_result FAIL error None.
Definition unable (error : string) : CheckerResult := mk_result SKIP error None.

(** *** [bottlerocket-cis-checks] *)

Definition PROC_MODULES_FILE : string := "/proc/modules".
Definition PROC_CMDLINE_FILE : string := "/proc/cmdline".
Definition LOCKDOWN_FILE : string := "/sys/kernel/security/lockdown".
Definition CHRONY_CONF_FILE : string := "/etc/chrony.conf".
Definition JOURNALD_CONF_FILE : string := "/usr/lib/systemd/journald.conf.d/journald.conf".
Definition SYSCTL_CMD : string := "/usr/sbin/sysctl".
Definition SYSTEMCTL_CMD : string := "/usr/bin/systemctl".
Definition MODPROBE_CMD : string := "/bin/modprobe".
Definition SESTATUS_CMD : string := "/usr/bin/sestatus".
Definition IPTABLES_CMD : string := "/usr/sbin/iptables".
Definition IP6TABLES_CMD : string := "/usr/sbin/ip6tables".

(** A module that is loaded is a failure; otherwise [modprobe] tells whether it could be. *)
Definition module_disabled (sac : SystemAccess) (module loaded_error no_modules_error modprobe_error enabled_error : string)
    : CheckerResult :=
  match look_for_word_in_file sac PROC_MODULES_FILE module with
  | Some true => failing loaded_error
  | Some false =>
      check_output_contains sac MODPROBE_CMD ["-n"; "-v"; module] ["install /bin/true"] modprobe_error enabled_error
  | None => unable no_modules_error
  end.

(** The loop over the INPUT rules: a line with the first rule, and one with the second
    after it. *)
Definition has_both (line : string) (rule : string * string) : bool :=
  str_contains line rule.1 && str_contains line rule.2.
Fixpoint rules_in_order (first second : string * string) (first_found : bool) (lines : list string) : bool * bool :=
  match lines with
  | [] => (first_found, false)
  | line :: lines =>
      if negb first_found && has_both line first then rules_in_order first second true lines
      else if first_found && has_both line second then (true, true)
      else rules_in_order first second first_found lines
  end.
Definition loopback_configured (sac : SystemAccess) (cmd : string) (first second : string * string) (output_rule : string)
    : CheckerResult :=
  let input :=
    match command_output sac cmd ["-L"; "INPUT"; "-v"; "-n"] with
    | Some output =>
        let '(first_found, second_found) :=
          if success output then rules_in_order first second false (str_lines (from_utf8_lossy (stdout output)))
          else (false, false) in
        if first_found && second_found then passing
        else failing "Unable to find expected iptables INPUT values"
    | None => unable "unable to verify iptables INPUT settings"
    end in
  if decide (status input = FAIL) then input
  else
    match look_for_string_in_output sac cmd ["-L"; "OUTPUT"; "-v"; "-n"] output_rule with
    | Some found => if (found : bool) then mk_result PASS (error input) None else failing "iptables OUTPUT rule not found"
    | None =>
        mk_result (status input) "unable to parse iptables OUTPUT rules to verify loopback policy" None
    end.

(** The journal files: the first one with permissions for others is a failure. *)
Section journal.
(** [{:?}] of a path. *)
Variable path_debug : string → string.

Fixpoint journal_permissions (files : list (option (string * option (bool * Z)))) : CheckerResult :=
  match files with
  | [] => passing
  | Some (path, Some (true, mode)) :: files =>
      if (0 <? Z.land mode 7)%Z then failing ("file " +:+ path_debug path +:+ " has permissions for 'other'")
      else journal_permissions files
  | _ :: files => journal_permissions files
  end.

Definition sestatus_lines : list (string * string) := [
  ("SELinux status: ", " enabled"); ("Loaded policy name: ", " fortified"); ("Current mode: ", " enforcing");
  ("Mode from config file: ", " enforcing"); ("Policy MLS status: ", " enabled");
  ("Policy deny_unknown status: ", " denied"); ("Memory protection checking: ", " actual (secure)")].

Definition BR01010101Checker : Checker := {|
  execute sac :=
    module_disabled sac "udf" "udf is currently loaded"
      "unable to parse modprobe output to check if udf is enabled"
      "unable to parse modprobe output to check if udf is enabled" "modprobe for udf is not disabled";
  metadata := mk_metadata "br01010101" "1.1.1.1" 2
    "Ensure mounting of udf filesystems is disabled"
    Automatic |}.

Definition BR01030100Checker : Checker := {|
  execute sac :=
    check_file_contains sac PROC_CMDLINE_FILE ["dm-mod.create=root,,,ro,0"; "root=/dev/dm-0";
      "restart_on_corruption"] "unable to verify cmdline includes dm-verity settings"
      "unable to verify dm-verity enforcement, settings not found";
  metadata := mk_metadata "br01030100" "1.3.1" 1
    "Ensure dm-verity is configured"
    Automatic |}.

Definition BR01040100Checker : Checker := {|
  execute sac :=
    check_output_contains sac SYSCTL_CMD ["fs.suid_dumpable"] ["fs.suid_dumpable = 0"]
      "unable to verify fs.suid_dumpable setting" "setuid core dumps are not disabled";
  metadata := mk_metadata "br01040100" "1.4.1" 1
    "Ensure setuid programs do not create core dumps"
    Automatic |}.

Definition BR01040200Checker : Checker := {|
  execute sac :=
    check_output_contains sac SYSCTL_CMD ["kernel.randomize_va_space"] ["kernel.randomize_va_space = 2"]
      "unable to verify kernel.randomize_va_space setting"
      "Address space layout randomization is not enabled";
  metadata := mk_metadata "br01040200" "1.4.2" 1
    "Ensure address space layout randomization (ASLR) is enabled"
    Automatic |}.

Definition BR01040300Checker : Checker := {|
  execute sac :=
    check_output_contains sac SYSCTL_CMD ["kernel.unprivileged_bpf_disabled"]
      ["kernel.unprivileged_bpf_disabled = 1"]
      "unable to verify kernel.unprivileged_bpf_disabled setting"
      "unprivileged eBPF is not disabled";
  metadata := mk_metadata "br01040300" "1.4.3" 1
    "Ensure unprivileged eBPF is disabled"
    Automatic |}.

Definition BR01040400Checker : Checker := {|
  execute sac :=
    check_output_contains sac SYSCTL_CMD ["user.max_user_namespaces"] ["user.max_user_namespaces = 0"]
      "unable to verify user.max_user_namespaces setting" "user namespaces are not disabled";
  metadata := mk_metadata "br01040400" "1.4.4" 2
    "Ensure user namespaces are disabled"
    Automatic |}.

Definition BR01050100Checker : Checker := {|
  execute sac :=
    match command_output sac SESTATUS_CMD [] with
    | Some output =>
        if success output then
          let matched :=
            foldl (λ matched line, if existsb (has_both line) sestatus_lines then S matched else matched) 0
              (str_lines (from_utf8_lossy (stdout output))) in
          if (length sestatus_lines =? matched)%nat then passing
          else failing "Unable to find expected SELinux values"
        else default_result
    | None => unable "unable to verify SELinux settings"
    end;
  metadata := mk_metadata "br01050100" "1.5.1" 1
    "Ensure SELinux is configured"
    Automatic |}.

Definition BR01050200Checker : Checker := {|
  execute sac :=
    check_file_contains sac LOCKDOWN_FILE ["[integrity]"] "unable to verify lockdown mode"
      "lockdown integrity mode is not enabled";
  metadata := mk_metadata "br01050200" "1.5.2" 2
    "Ensure Lockdown is configured"
    Automatic |}.

Definition BR02010101Checker : Checker := {|
  execute sac :=
    let result := check_file_contains sac CHRONY_CONF_FILE ["pool"] "unable to verify time-servers setting"
      "no ntp servers are configured" in
    if decide (status result = FAIL) then result
    else check_output_contains sac SYSTEMCTL_CMD ["show"; "--property"; "ActiveState"; "chronyd"] ["ActiveState=active"]
      "unable to verify chronyd service enabled" "chronyd NTP service is not enabled";
  metadata := mk_metadata "br02010101" "2.1.1.1" 1
    "Ensure chrony is configured"
    Automatic |}.

Definition BR03010100Checker : Checker := {|
  execute sac :=
    check_output_contains sac SYSCTL_CMD ["net.ipv4.conf.all.send_redirects";
      "net.ipv4.conf.default.send_redirects"] ["net.ipv4.conf.all.send_redirects = 0";
      "net.ipv4.conf.default.send_redirects = 0"] "unable to verify redirect settings"
      "redirects not disabled";
  metadata := mk_metadata "br03010100" "3.1.1" 2
    "Ensure packet redirect sending is disabled"
    Automatic |}.

Definition BR03020100Checker : Checker := {|
  execute sac :=
    check_output_contains sac SYSCTL_CMD ["net.ipv4.conf.all.accept_source_route";
      "net.ipv4.conf.default.accept_source_route"; "net.ipv6.conf.all.accept_source_route";
      "net.ipv6.conf.default.accept_source_route"] ["net.ipv4.conf.all.accept_source_route = 0";
      "net.ipv4.conf.default.accept_source_route = 0"; "net.ipv6.conf.all.accept_source_route = 0";
      "net.ipv6.conf.default.accept_source_route = 0"] "unable to verify source route settings"
      "accept source route not disabled";
  metadata := mk_metadata "br03020100" "3.2.1" 2
    "Ensure source routed packets are not accepted"
    Automatic |}.

Definition BR03020200Checker : Checker := {|
  execute sac :=
    check_output_contains sac SYSCTL_CMD ["net.ipv4.conf.all.accept_redirects";
      "net.ipv4.conf.default.accept_redirects"; "net.ipv6.conf.all.accept_redirects";
      "net.ipv6.conf.default.accept_redirects"] ["net.ipv4.conf.all.accept_redirects = 0";
      "net.ipv4.conf.default.accept_redirects = 0"; "net.ipv6.conf.all.accept_redirects = 0";
      "net.ipv6.conf.default.accept_redirects = 0"] "unable to verify redirect settings"
      "accept redirects not disabled";
  metadata := mk_metadata "br03020200" "3.2.2" 2
    "Ensure ICMP redirects are not accepted"
    Automatic |}.

Definition BR03020300Checker : Checker := {|
  execute sac :=
    check_output_contains sac SYSCTL_CMD ["net.ipv4.conf.all.secure_redirects";
      "net.ipv4.conf.default.secure_redirects"] ["net.ipv4.conf.all.secure_redirects = 0";
      "net.ipv4.conf.default.secure_redirects = 0"] "unable to verify secure redirect settings"
      "secure redirects not disabled";
  metadata := mk_metadata "br03020300" "3.2.3" 2
    "Ensure secure ICMP redirects are not accepted"
    Automatic |}.

Definition BR03020400Checker : Checker := {|
  execute sac :=
    check_output_contains sac SYSCTL_CMD ["net.ipv4.conf.all.log_martians";
      "net.ipv4.conf.default.log_martians"] ["net.ipv4.conf.all.log_martians = 1";
      "net.ipv4.conf.default.log_martians = 1"] "unable to verify martian packet logging settings"
      "martian packet logging not enabled";
  metadata := mk_metadata "br03020400" "3.2.4" 2
    "Ensure suspicious packets are logged"
    Automatic |}.

Definition BR03020500Checker : Checker := {|
  execute sac :=
    check_output_contains sac SYSCTL_CMD ["net.ipv4.icmp_echo_ignore_broadcasts"]
      ["net.ipv4.icmp_echo_ignore_broadcasts = 1"]
      "unable to verify broadcast ICMP requests setting" "broadcast ICMP requests not ignored";
  metadata := mk_metadata "br03020500" "3.2.5" 1
    "Ensure broadcast ICMP requests are ignored"
    Automatic |}.

Definition BR03020600Checker : Checker := {|
  execute sac :=
    check_output_contains sac SYSCTL_CMD ["net.ipv4.icmp_ignore_bogus_error_responses"]
      ["net.ipv4.icmp_ignore_bogus_error_responses = 1"]
      "unable to verify bogus ICMP bogus requests setting" "ignore bogus ICMP requests not ignored";
  metadata := mk_metadata "br03020600" "3.2.6" 1
    "Ensure bogus ICMP responses are ignored"
    Automatic |}.

Definition BR03020700Checker : Checker := {|
  execute sac :=
    check_output_contains sac SYSCTL_CMD ["net.ipv4.tcp_syncookies"] ["net.ipv4.tcp_syncookies = 1"]
      "unable to verify SYN flood cookie protection setting"
      "SYN flood cookie protection not enabled";
  metadata := mk_metadata "br03020700" "3.2.7" 1
    "Ensure TCP SYN Cookies is enabled"
    Automatic |}.

Definition BR03030100Checker : Checker := {|
  execute sac :=
    module_disabled sac "sctp" "sctp is currently loaded" "unable to parse modules to check for sctp"
      "unable to parse modprobe output to check if sctp is enabled" "modprobe for sctp is not disabled";
  metadata := mk_metadata "br03030100" "3.3.1" 2
    "Ensure SCTP is disabled"
    Automatic |}.

Definition BR03040101Checker : Checker := {|
  execute sac :=
    check_output_contains sac IPTABLES_CMD ["-L"] ["Chain INPUT (policy DROP)";
      "Chain FORWARD (policy DROP)"; "Chain OUTPUT (policy DROP)"]
      "unable to verify iptables settings" "unable to find expected iptables values";
  metadata := mk_metadata "br03040101" "3.4.1.1" 2
    "Ensure IPv4 default deny firewall policy"
    Automatic |}.

Definition BR03040102Checker : Checker := {|
  execute sac :=
    loopback_configured sac IPTABLES_CMD
      ("ACCEPT", "--  lo     *       0.0.0.0/0            0.0.0.0/0")
      ("DROP", "--  *      *       127.0.0.0/8          0.0.0.0/0")
      "ACCEPT     all  --  *      lo      0.0.0.0/0            0.0.0.0/0";
  metadata := mk_metadata "br03040102" "3.4.1.2" 2
    "Ensure IPv4 loopback traffic is configured"
    Automatic |}.

Definition BR03040201Checker : Checker := {|
  execute sac :=
    check_output_contains sac IP6TABLES_CMD ["-L"] ["Chain INPUT (policy DROP)";
      "Chain FORWARD (policy DROP)"; "Chain OUTPUT (policy DROP)"]
      "unable to verify ip6tables settings" "unable to find expected ip6tables values";
  metadata := mk_metadata "br03040201" "3.4.2.1" 2
    "Ensure IPv6 default deny firewall policy"
    Automatic |}.

Definition BR03040202Checker : Checker := {|
  execute sac :=
    loopback_configured sac IP6TABLES_CMD
      ("ACCEPT", "--  lo     *       ::/0                 ::/0")
      ("DROP", "--  *      *       ::1                  ::/0")
      "ACCEPT     all  --  *      lo      ::/0                 ::/0";
  metadata := mk_metadata "br03040202" "3.4.2.2" 2
    "Ensure IPv6 loopback traffic is configured"
    Automatic |}.

Definition BR04010101Checker : Checker := {|
  execute sac :=
    check_file_contains sac JOURNALD_CONF_FILE ["Storage=persistent"]
      "unable to verify journald settings" "journald is not configured";
  metadata := mk_metadata "br04010101" "4.1.1.1" 1
    "Ensure journald is configured to write logs to persistent disk"
    Automatic |}.

Definition BR04010200Checker : Checker := {|
  execute sac :=
    journal_permissions (walk_dir sac "/var/log/journal");
  metadata := mk_metadata "br04010200" "4.1.2" 1
    "Ensure permissions on journal files are configured"
    Automatic |}.

(** The [match] on the name is the first entry of a table; no other name has a checker. *)
Definition bottlerocket_checks (cmd_name : string) : option Checker :=
  obj_get cmd_name [
  ("br01010101", BR01010101Checker);
  ("br01020100", ManualChecker cmd_name "1.2.1"
      "Ensure software update repositories are configured" 1);
  ("br01030100", BR01030100Checker);
  ("br01040100", BR01040100Checker);
  ("br01040200", BR01040200Checker);
  ("br01040300", BR01040300Checker);
  ("br01040400", BR01040400Checker);
  ("br01050100", BR01050100Checker);
  ("br01050200", BR01050200Checker);
  ("br01060000", ManualChecker cmd_name "1.6"
      "Ensure updates, patches, and additional security software are installed" 1);
  ("br02010101", BR02010101Checker);
  ("br03010100", BR03010100Checker);
  ("br03020100", BR03020100Checker);
  ("br03020200", BR03020200Checker);
  ("br03020300", BR03020300Checker);
  ("br03020400", BR03020400Checker);
  ("br03020500", BR03020500Checker);
  ("br03020600", BR03020600Checker);
  ("br03020700", BR03020700Checker);
  ("br03030100", BR03030100Checker);
  ("br03040101", BR03040101Checker);
  ("br03040102", BR03040102Checker);
  ("br03040103", ManualChecker cmd_name "3.4.1.3"
      "Ensure IPv4 outbound and established connections are configured" 1);
  ("br03040201", BR03040201Checker);
  ("br03040202", BR03040202Checker);
  ("br03040203", ManualChecker cmd_name "3.4.2.3"
      "Ensure IPv6 outbound and established connections are configured" 1);
  ("br04010101", BR04010101Checker);
  ("br04010200", BR04010200Checker)].
End journal.

(** *** [bottlerocket-fips-checks] *)

Definition CRYPTO_FIPS_ENABLED : string := "/proc/sys/crypto/fips_enabled".
Definition EXPECTED_FIPS_ENABLED : string := "1".
Definition CRYPTO_FIPS_NAME : string := "/proc/sys/crypto/fips_name".
Definition EXPECTED_FIPS_NAME : string := "Amazon Linux 2023 Kernel Cryptographic API".
Definition FIPS_KERNEL_CHECK_MARKER : string := "/etc/.fips-kernel-check-passed".
Definition FIPS_MODULE_CHECK_MARKER : string := "/etc/.fips-module-check-passed".

Definition FIPS01000000Checker : Checker := {|
  execute sac :=
    check_file_contains sac CRYPTO_FIPS_ENABLED [EXPECTED_FIPS_ENABLED]
      (CRYPTO_FIPS_ENABLED +:+ " != " +:+ EXPECTED_FIPS_ENABLED) (CRYPTO_FIPS_ENABLED +:+ " not found");
  metadata := mk_metadata "fips01000000" "1.0" 0
    "FIPS mode is enabled."
    Automatic |}.

Definition FIPS01010000Checker : Checker := {|
  execute sac :=
    check_file_contains sac CRYPTO_FIPS_NAME [EXPECTED_FIPS_NAME]
      (CRYPTO_FIPS_NAME +:+ " != '" +:+ EXPECTED_FIPS_NAME +:+ "'") (CRYPTO_FIPS_NAME +:+ " not found");
  metadata := mk_metadata "fips01010000" "1.1" 0
    ("FIPS module is " +:+ EXPECTED_FIPS_NAME +:+ ".")
    Automatic |}.

Definition FIPS01020000Checker : Checker := {|
  execute sac :=
    let result := check_file_exists sac FIPS_KERNEL_CHECK_MARKER (FIPS_KERNEL_CHECK_MARKER +:+ " not found") in
    if decide (status result = FAIL) then result
    else check_file_exists sac FIPS_MODULE_CHECK_MARKER (FIPS_MODULE_CHECK_MARKER +:+ " not found");
  metadata := mk_metadata "fips01020000" "1.2" 0
    "FIPS self-tests passed."
    Automatic |}.

Definition fips_checks (cmd_name : string) : option Checker :=
  obj_get cmd_name [
  ("fips01000000", FIPS01000000Checker);
  ("fips01010000", FIPS01010000Checker);
  ("fips01020000", FIPS01020000Checker)].

(** *** [kubernetes-cis-checks] *)

Definition KUBELET_SERVICE_FILE : string := "/etc/systemd/system/kubelet.service.d/exec-start.conf".
Definition KUBELET_KUBECONFIG_FILE : string := "/etc/kubernetes/kubelet/kubeconfig".
Definition KUBELET_CLIENT_CA_FILE : string := "/etc/kubernetes/pki/ca.crt".
Definition KUBELET_CONF_FILE : string := "/etc/kubernetes/kubelet/config".
Definition KUBEPROXY_CONF_FILE : string := "/etc/kubernetes/kube-proxy/kube-proxy.conf".

(** The permission bits of libc. *)
Definition S_IXUSR : Z := 64.
Definition S_IRWXG : Z := 56.
Definition S_IWGRP : Z := 16.
Definition S_IXGRP : Z := 8.
Definition S_IRWXO : Z := 7.
Definition S_IWOTH : Z := 2.
Definition S_IXOTH : Z := 1.

(** serde_yaml: a document, the field that a struct needs of a mapping ([None] when it is
    missing or repeated, or there is no mapping), and what a value is when a boolean, a
    string, an integer or a sequence is asked for. *)
Class Yaml := {
  yaml : Type;
  yaml_from_reader : string → option yaml;
  yaml_field : yaml → string → option yaml;
  yaml_bool : yaml → option bool;
  yaml_str : yaml → option string;
  yaml_int : yaml → option Z;
  yaml_seq : yaml → option (list yaml) }.

Section kubernetes.
Context `{Yaml}.

(** [i32] and [i64]. *)
Definition yaml_integer (w : Z) (v : yaml) : option Z :=
  n ← yaml_int v; if ((- 2 ^ (w - 1) <=? n) && (n <? 2 ^ (w - 1)))%Z then Some n else None.

(** The shape of the checks of a configuration file: it is opened, decoded and judged. *)
Definition with_config {A} (sac : SystemAccess) (path : string) (decode : yaml → option A)
    (judge : A → CheckerResult) (undecoded : CheckerResult) : CheckerResult :=
  match sac_open sac path with
  | Some kubelet_file =>
      match yaml_from_reader kubelet_file ≫= decode with
      | Some config => judge config
      | None => undecoded
      end
  | None => unable ("unable to read '" +:+ path +:+ "'")
  end.

Definition allowed_suites : list string := [
  "TLS_ECDHE_ECDSA_WITH_AES_128_GCM_SHA256"; "TLS_ECDHE_RSA_WITH_AES_128_GCM_SHA256";
  "TLS_ECDHE_ECDSA_WITH_CHACHA20_POLY1305"; "TLS_ECDHE_RSA_WITH_AES_256_GCM_SHA384";
  "TLS_ECDHE_RSA_WITH_CHACHA20_POLY1305"; "TLS_ECDHE_ECDSA_WITH_AES_256_GCM_SHA384"].

Definition K8S04010100Checker : Checker := {|
  execute sac :=
    check_file_not_mode sac KUBELET_SERVICE_FILE (Z.lor (Z.lor S_IXUSR S_IRWXG) S_IRWXO);
  metadata := mk_metadata "k8s04010100" "4.1.1" 1
    "Ensure that the kubelet service file permissions are set to 600 or more restrictive"
    Automatic |}.

Definition K8S04010200Checker : Checker := {|
  execute sac :=
    ensure_file_owner_and_group_root sac KUBELET_SERVICE_FILE;
  metadata := mk_metadata "k8s04010200" "4.1.2" 1
    "Ensure that the kubelet service file ownership is set to root:root"
    Automatic |}.

Definition K8S04010500Checker : Checker := {|
  execute sac :=
    check_file_not_mode sac KUBELET_KUBECONFIG_FILE (Z.lor (Z.lor S_IXUSR S_IRWXG) S_IRWXO);
  metadata := mk_metadata "k8s04010500" "4.1.5" 1
    "Ensure that the --kubeconfig kubelet.conf file permissions are set to 600 or more restrictive"
    Automatic |}.

Definition K8S04010600Checker : Checker := {|
  execute sac :=
    ensure_file_owner_and_group_root sac KUBELET_KUBECONFIG_FILE;
  metadata := mk_metadata "k8s04010600" "4.1.6" 1
    "Ensure that the --kubeconfig kubelet.conf file ownership is set to root:root"
    Automatic |}.

Definition K8S04010700Checker : Checker := {|
  execute sac :=
    check_file_not_mode sac KUBELET_CLIENT_CA_FILE
      (Z.lor (Z.lor (Z.lor (Z.lor S_IXUSR S_IXGRP) S_IWGRP) S_IXOTH) S_IWOTH);
  metadata := mk_metadata "k8s04010700" "4.1.7" 1
    "Ensure that the certificate authorities file permissions are set to 644 or more restrictive"
    Automatic |}.

Definition K8S04010800Checker : Checker := {|
  execute sac :=
    ensure_file_owner_and_group_root sac KUBELET_CLIENT_CA_FILE;
  metadata := mk_metadata "k8s04010800" "4.1.8" 1
    "Ensure that the client certificate authorities file ownership is set to root:root"
    Automatic |}.

Definition K8S04010900Checker : Checker := {|
  execute sac :=
    check_file_not_mode sac KUBELET_CONF_FILE (Z.lor (Z.lor S_IXUSR S_IRWXG) S_IRWXO);
  metadata := mk_metadata "k8s04010900" "4.1.9" 1
    "If the kubelet config.yaml configuration file is being used validate permissions set to 600 or more restrictive"
    Automatic |}.

Definition K8S04011000Checker : Checker := {|
  execute sac :=
    ensure_file_owner_and_group_root sac KUBELET_CONF_FILE;
  metadata := mk_metadata "k8s04011000" "4.1.10" 1
    "If the kubelet config.yaml configuration file is being used validate file ownership is set to root:root"
    Automatic |}.

Definition K8S04020100Checker : Checker := {|
  execute sac :=
    with_config sac KUBELET_CONF_FILE
      (λ config, authentication ← yaml_field config "authentication"; anonymous ← yaml_field authentication "anonymous";
         yaml_field anonymous "enabled" ≫= yaml_bool)
      (λ enabled, if (enabled : bool) then failing "anonymous authentication is configured" else passing)
      (unable "unable to parse kubelet config");
  metadata := mk_metadata "k8s04020100" "4.2.1" 1
    "Ensure that the --anonymous-auth argument is set to false"
    Automatic |}.

Definition K8S04020200Checker : Checker := {|
  execute sac :=
    with_config sac KUBELET_CONF_FILE
      (λ config, authorization ← yaml_field config "authorization"; yaml_field authorization "mode" ≫= yaml_str)
      (λ mode, if decide (mode = "AlwaysAllow") then failing "AlwaysAllow authorization is configured" else passing)
      (unable "unable to parse kubelet config");
  metadata := mk_metadata "k8s04020200" "4.2.2" 1
    "Ensure that the --authorization-mode argument is not set to AlwaysAllow"
    Automatic |}.

Definition K8S04020300Checker : Checker := {|
  execute sac :=
    with_config sac KUBELET_CONF_FILE
      (λ config, authentication ← yaml_field config "authentication"; x509 ← yaml_field authentication "x509";
         yaml_field x509 "clientCAFile" ≫= yaml_str)
      (λ client_ca_file, if negb (str_is_empty client_ca_file) && sac_exists sac client_ca_file then passing
       else failing "CA file not set to expected path")
      (unable "unable to parse kubelet config");
  metadata := mk_metadata "k8s04020300" "4.2.3" 1
    "Ensure that the --client-ca-file argument is set as appropriate"
    Automatic |}.

Definition K8S04020400Checker : Checker := {|
  execute sac :=
    with_config sac KUBELET_CONF_FILE
      (λ config, yaml_field config "readOnlyPort" ≫= yaml_integer 32)
      (λ read_only_port, if negb (read_only_port =? 0)%Z then failing "Kubelet readOnlyPort not set to 0" else passing)
      (unable "unable to parse kubelet config");
  metadata := mk_metadata "k8s04020400" "4.2.4" 1
    "Verify that if defined, readOnlyPort is set to 0"
    Automatic |}.

Definition K8S04020500Checker : Checker := {|
  execute sac :=
    with_config sac KUBELET_CONF_FILE
      (λ config, yaml_field config "streamingConnectionIdleTimeout" ≫= yaml_integer 32)
      (λ timeout, if (timeout =? 0)%Z then failing "Kubelet streamingConnectionIdleTimeout is set to 0" else passing)
      passing;
  metadata := mk_metadata "k8s04020500" "4.2.5" 1
    "Ensure that the --streaming-connection-idle-timeout argument is not set to 0"
    Automatic |}.

Definition K8S04020600Checker : Checker := {|
  execute sac :=
    with_config sac KUBELET_CONF_FILE
      (λ config, yaml_field config "makeIPTablesUtilChains" ≫= yaml_bool)
      (λ make_iptables_util_chains, if negb make_iptables_util_chains then failing "Kubelet makeIPTablesUtilChains is disabled"
       else passing)
      passing;
  metadata := mk_metadata "k8s04020600" "4.2.6" 1
    "Ensure that the --make-iptables-util-chains argument is set to true"
    Automatic |}.

Definition K8S04020900Checker : Checker := {|
  execute sac :=
    with_config sac KUBELET_CONF_FILE
      (λ config, tls_cert_file ← yaml_field config "tlsCertFile" ≫= yaml_str;
         tls_private_key_file ← yaml_field config "tlsPrivateKeyFile" ≫= yaml_str;
         Some (tls_cert_file, tls_private_key_file))
      (λ '(tls_cert_file, tls_private_key_file),
       if (negb (str_is_empty tls_cert_file) && sac_exists sac tls_cert_file) &&
          (negb (str_is_empty tls_private_key_file) && sac_exists sac tls_private_key_file) then passing
       else failing "TLS files not set to expected path")
      passing;
  metadata := mk_metadata "k8s04020900" "4.2.9" 1
    "Ensure that the --tls-cert-file and --tls-private-key-file arguments are set as appropriate"
    Automatic |}.

Definition K8S04021000Checker : Checker := {|
  execute sac :=
    with_config sac KUBELET_CONF_FILE
      (λ config, yaml_field config "rotateCertificates" ≫= yaml_bool)
      (λ rotate_certificates, if negb rotate_certificates then failing "Kubelet rotateCertificates is disabled"
       else passing)
      (failing "Kubelet rotateCertificates is disabled");
  metadata := mk_metadata "k8s04021000" "4.2.10" 1
    "Ensure that the --rotate-certificates argument is not set to false"
    Automatic |}.

Definition K8S04021100Checker : Checker := {|
  execute sac :=
    with_config sac KUBELET_CONF_FILE
      (λ config, feature_gates ← yaml_field config "featureGates";
         yaml_field feature_gates "RotateKubeletServerCertificate" ≫= yaml_bool)
      (λ rotate, if negb rotate then failing "Kubelet RotateKubeletServerCertificate is disabled" else passing)
      passing;
  metadata := mk_metadata "k8s04021100" "4.2.11" 1
    "Verify that the RotateKubeletServerCertificate argument is set to true"
    Automatic |}.

Definition K8S04021200Checker : Checker := {|
  execute sac :=
    with_config sac KUBELET_CONF_FILE
      (λ config, l ← yaml_field config "tlsCipherSuites" ≫= yaml_seq; mapM yaml_str l)
      (λ suites, if forallb (λ suite, bool_decide (suite ∈ allowed_suites)) suites then passing
       else failing "Found disallowed cipher suites")
      (unable "unable to parse kubelet config");
  metadata := mk_metadata "k8s04021200" "4.2.12" 1
    "Ensure that the Kubelet only makes use of Strong Cryptographic Ciphers"
    Automatic |}.

Definition K8S04021300Checker : Checker := {|
  execute sac :=
    with_config sac KUBELET_CONF_FILE
      (λ config, yaml_field config "podPidsLimit" ≫= yaml_integer 64)
      (λ pod_pids_limit, if (pod_pids_limit <=? 0)%Z then failing "podPidsLimit is unrestricted" else passing)
      (failing "podPidsLimit is not configured");
  metadata := mk_metadata "k8s04021300" "4.2.13" 1
    "Ensure that a limit is set on pod PIDs"
    Automatic |}.

Definition K8S04021400Checker : Checker := {|
  execute sac :=
    with_config sac KUBELET_CONF_FILE
      (λ config, yaml_field config "seccompDefault" ≫= yaml_bool)
      (λ seccomp_default, if negb seccomp_default then failing "Kubelet seccompDefault is not set to true" else passing)
      (failing "Kubelet seccompDefault is not configured or set to true");
  metadata := mk_metadata "k8s04021400" "4.2.14" 1
    "Ensure that the --seccomp-default parameter is set to true"
    Automatic |}.

Definition K8S04030100Checker : Checker := {|
  execute sac :=
    with_config sac KUBEPROXY_CONF_FILE
      (λ config, yaml_field config "metricsBindAddress" ≫= yaml_str)
      (λ metrics_bind_address, if str_contains metrics_bind_address "0.0.0.0" || str_contains metrics_bind_address "[::]"
       then failing "Kubelet metricsBindAddress binds to more than localhost" else passing)
      passing;
  metadata := mk_metadata "k8s04030100" "4.3.1" 1
    "Ensure that the kube-proxy metrics service is bound to localhost"
    Automatic |}.

Definition K8S04010300Checker : Checker := {|
  execute sac :=
    check_file_not_mode sac KUBEPROXY_CONF_FILE (Z.lor (Z.lor S_IXUSR S_IRWXG) S_IRWXO);
  metadata := mk_metadata "k8s04010300" "4.1.3" 1
    "If proxy kubeconfig file exists ensure permissions are set to 600 or more restrictive"
    Automatic |}.

Definition K8S04010400Checker : Checker := {|
  execute sac :=
    ensure_file_owner_and_group_root sac KUBEPROXY_CONF_FILE;
  metadata := mk_metadata "k8s04010400" "4.1.4" 1
    "If proxy kubeconfig file exists ensure ownership is set to root:root"
    Automatic |}.

Definition kubernetes_checks (sac : SystemAccess) (cmd_name : string) : option Checker :=
  obj_get cmd_name [
  ("k8s04010100", K8S04010100Checker);
  ("k8s04010200", K8S04010200Checker);
  ("k8s04010300", if sac_exists sac KUBEPROXY_CONF_FILE then K8S04010300Checker
      else ManualChecker cmd_name "4.1.3"
      "If proxy kubeconfig file exists ensure permissions are set to 600 or more restrictive" 1);
  ("k8s04010400", if sac_exists sac KUBEPROXY_CONF_FILE then K8S04010400Checker
      else ManualChecker cmd_name "4.1.4"
      "If proxy kubeconfig file exists ensure ownership is set to root:root" 1);
  ("k8s04010500", K8S04010500Checker);
  ("k8s04010600", K8S04010600Checker);
  ("k8s04010700", K8S04010700Checker);
  ("k8s04010800", K8S04010800Checker);
  ("k8s04010900", K8S04010900Checker);
  ("k8s04011000", K8S04011000Checker);
  ("k8s04020100", K8S04020100Checker);
  ("k8s04020200", K8S04020200Checker);
  ("k8s04020300", K8S04020300Checker);
  ("k8s04020400", K8S04020400Checker);
  ("k8s04020500", K8S04020500Checker);
  ("k8s04020600", K8S04020600Checker);
  ("k8s04020700", ManualChecker cmd_name "4.2.7"
      "Ensure that the --hostname-override argument is not set (not valid for Bottlerocket)" 1);
  ("k8s04020800", ManualChecker cmd_name "4.2.8"
      "Ensure that the eventRecordQPS argument is set to a level which ensures appropriate event capture" 2);
  ("k8s04020900", K8S04020900Checker);
  ("k8s04021000", K8S04021000Checker);
  ("k8s04021100", K8S04021100Checker);
  ("k8s04021200", K8S04021200Checker);
  ("k8s04021300", K8S04021300Checker);
  ("k8s04021400", K8S04021400Checker);
  ("k8s04021500", ManualChecker cmd_name "4.2.15"
      "Ensure that the --IPAddressDeny is set to any" 2);
  ("k8s04030100", if sac_exists sac KUBEPROXY_CONF_FILE then K8S04030100Checker
      else ManualChecker cmd_name "4.3.1"
      "Ensure that the kube-proxy metrics service is bound to localhost" 1)].
End kubernetes.

(** *** The programs *)

(** [Path::file_name] *)
Definition file_name (p : string) : option string :=
  c ← last (components p); if decide (c = "..") then None else Some c.

(** [main], which is the same in all three, of the arguments after the first: it succeeds
    also for a name that it does not know. *)
Definition checker_main `{JsonText} (select : string → option Checker) (sac : SystemAccess) (argv0 : string)
    (args : list string) : Output :=
  let cmd_name := default EmptyString (file_name argv0) in
  match select cmd_name with
  | None => mk_output true EmptyString (str_push ("Command " +:+ cmd_name +:+ " is not supported.") NEWLINE)
  | Some checker =>
      let get_metadata := bool_decide (default EmptyString (head args) = "metadata") in
      mk_output true
        (str_push (json_text (if get_metadata then metadata_json (metadata checker)
                              else result_json (execute checker sac))) NEWLINE) EmptyString
  end.

(** *** An installation *)

(** The three programs, which select a checker by name. *)
Inductive program := BottlerocketCis | KubernetesCis | Fips.
Definition select_of `{Yaml} (path_debug : string → string) (sac : SystemAccess) (p : program) : string → option Checker :=
  match p with
  | BottlerocketCis => bottlerocket_checks path_debug
  | KubernetesCis => kubernetes_checks sac
  | Fips => fips_checks
  end.

(** A directory with a link to the program for each name, and no overrides. *)
Record installed `{JsonText, Host} (select : string → option Checker) (sac : SystemAccess) (dir : string)
    (names : list string) : Prop := {
  inst_dir : is_dir dir = true;
  inst_utf8 : utf8_valid dir = true;
  inst_entries : read_dir dir = Some ((λ n, Some (path_join dir n)) <$> names);
  inst_nodup : NoDup names;
  inst_known n : n ∈ names → is_Some (select n);
  inst_executable n : n ∈ names → ∃ mode, file_metadata (path_join dir n) = Some (false, mode) ∧ Z.land mode 73 ≠ 0%Z;
  inst_runs n args : n ∈ names →
    run_command (path_join dir n) args = Some (checker_main select sac (path_join dir n) args);
  inst_no_override n : n ∈ names → path_exists (path_join dir (n +:+ ".json")) = false }.

(** What the checkers up to a level find. *)
Definition due (select : string → option Checker) (sac : SystemAccess) (level_ : Z) (names : list string) : list finding :=
  omap (λ n,
    c ← select n;
    if (level (metadata c) <=? level_)%Z then Some (metadata c, execute c sac) else None) names.

(** ** The tables *)

Record well_named (n : string) (c : Checker) : Prop := {
  wn_name : name (metadata c) = n;
  wn_level : (0 <= level (metadata c) < 256)%Z;
  wn_ascii : ascii_str n;
  wn_relative : str_starts_with n "/" = false;
  wn_component : components n = [n];
  wn_parent : n ≠ ".." }.

Lemma obj_get_in {A} k (l : list (string * A)) v : obj_get k l = Some v → (k, v) ∈ l.
Proof.
  induction l as [|[k' v'] l IH]; cbn; [done|]. case_decide as Hk; [|right; by apply IH].
  intros [= ->]. subst. left.
Qed.

Ltac table :=
  intros n c Hc%obj_get_in;
  repeat (apply elem_of_cons in Hc as [[= -> ->]|Hc];
    [repeat case_match; (split; [done|done|done|done|done|done])|]);
  by apply elem_of_nil in Hc.

Lemma bottlerocket_named path_debug n c : bottlerocket_checks path_debug n = Some c → well_named n c.
Proof. revert n c. table. Qed.
Lemma fips_named n c : fips_checks n = Some c → well_named n c.
Proof. revert n c. table. Qed.
Lemma kubernetes_named `{Yaml} sac n c : kubernetes_checks sac n = Some c → well_named n c.
Proof. revert n c. table. Qed.

Lemma select_named `{Yaml} path_debug sac p n c : select_of path_debug sac p n = Some c → well_named n c.
Proof. destruct p; [apply bottlerocket_named|apply kubernetes_named|apply fips_named]. Qed.

(** ** The whole run *)

Section run.
Context `{HashOrder, JsonText, Host, Yaml}.
Variables (path_debug : string → string) (sac : SystemAccess) (p : program) (dir : string) (names : list string).
Let select := select_of path_debug sac p.
Hypothesis Hinst : installed select sac dir names.

Let path (n : string) : string := path_join dir n.

Lemma known n : n ∈ names → ∃ c, select n = Some c ∧ well_named n c.
Proof using Hinst.
  intros Hn. destruct (inst_known _ _ _ _ Hinst n Hn) as [c Hc]. exists c. split; [done|].
  by eapply select_named.
Qed.

Lemma path_file_name n : n ∈ names → file_name (path n) = Some n.
Proof using Hinst.
  intros (c & _ & Hw)%known. unfold file_name, path.
  rewrite components_path_join by apply (wn_relative _ _ Hw). rewrite (wn_component _ _ Hw), last_snoc. cbn.
  by rewrite decide_False by apply (wn_parent _ _ Hw).
Qed.

Lemma path_utf8 n : n ∈ names → from_utf8_lossy (path n) = path n.
Proof using Hinst.
  intros (c & _ & Hw)%known. apply from_utf8_lossy_valid. unfold path, path_join.
  pose proof (inst_utf8 _ _ _ _ Hinst) as Hd. pose proof (ascii_utf8 n (wn_ascii _ _ Hw)) as Hn.
  destruct n as [|a n]; [discriminate (wn_component _ _ Hw)|]. case_decide; [done|].
  destruct (_ || _); apply utf8_valid_app; done.
Qed.

(** What the program prints, as it is read. *)
Lemma program_runs n args c : n ∈ names → select n = Some c →
  ∃ o, run_command (path n) args = Some o ∧ success o = true ∧
    stdout o = str_push (json_text (if bool_decide (default EmptyString (head args) = "metadata")
                                    then metadata_json (metadata c) else result_json (execute c sac))) NEWLINE.
Proof using Hinst.
  intros Hn Hc. eexists. split; [by apply (inst_runs _ _ _ _ Hinst)|]. unfold checker_main.
  fold (path n). rewrite path_file_name by done. cbn. by rewrite Hc.
Qed.

Definition due_entry (level_ : Z) (n : string) : option (string * CheckerMetadata) :=
  c ← select n; if (level (metadata c) <=? level_)%Z then Some (path n, metadata c) else None.

Lemma add_checker_due level_ n m ts : n ∈ names →
  add_checker level_ (m, ts) (path n) =
  match due_entry level_ n with
  | Some (k, v) => (<[k := v]> m, ts ++ [name v])
  | None => (m, ts)
  end.
Proof using Hinst.
  intros Hn. destruct (known n Hn) as (c & Hc & Hw). unfold add_checker, due_entry.
  destruct (inst_executable _ _ _ _ Hinst n Hn) as (md & Hm & Hx). fold (path n) in Hm. rewrite Hm, Hc.
  cbn [orb]. rewrite (proj2 (Z.eqb_neq _ _) Hx).
  destruct (program_runs n ["metadata"] c Hn Hc) as (o & -> & _ & Ho). cbv match. rewrite Ho.
  change (bool_decide _) with true. cbv match.
  rewrite read_metadata_line by apply (wn_level _ _ Hw). rewrite path_utf8 by done.
  cbn. by destruct (_ <=? _)%Z.
Qed.

Lemma due_entry_path level_ n k v : due_entry level_ n = Some (k, v) → k = path n.
Proof. unfold due_entry. intros (c & _ & Hc)%bind_Some. destruct (_ <=? _)%Z; naive_solver. Qed.

Lemma find_due level_ ns : ns ⊆ names → NoDup ns →
  let '(m, ts) := foldl (add_checker level_) (∅, []) (path <$> ns) in
  map_to_list m ≡ₚ omap (due_entry level_) ns ∧ Forall (λ t, t ∈ names) ts.
Proof using Hinst.
  induction ns as [|n ns IH] using rev_ind; intros Hsub Hnd; [cbn; by rewrite map_to_list_empty|].
  apply NoDup_app in Hnd as (Hnd & Hfresh & _). rewrite fmap_app, foldl_app.
  specialize (IH ltac:(set_solver) Hnd). destruct (foldl _ _ _) as [m ts] eqn:E. cbn [foldl fmap list_fmap].
  assert (Hn : n ∈ names) by set_solver. rewrite add_checker_due, omap_app by done. cbn.
  destruct IH as [Hm Hts]. destruct (due_entry level_ n) as [[k v]|] eqn:Ed; [|by rewrite app_nil_r].
  pose proof (due_entry_path _ _ _ _ Ed) as ->. split.
  - rewrite map_to_list_insert, Hm; [by rewrite (Permutation_app_comm _ [_])|].
    destruct (m !! path n) as [v'|] eqn:Ep; [|done]. exfalso.
    apply elem_of_map_to_list in Ep. rewrite Hm in Ep. apply list_elem_of_omap in Ep as (n' & Hn' & Ed').
    apply due_entry_path in Ed' as Ep. assert (Hin : n' ∈ names) by set_solver.
    pose proof (path_file_name n Hn) as Hf. rewrite Ep, path_file_name in Hf by done. injection Hf as ->.
    apply (Hfresh n); [done|]. by left.
  - apply Forall_app. split; [done|]. apply Forall_singleton.
    unfold due_entry in Ed. apply bind_Some in Ed as (c & Hc & Ed). destruct (_ <=? _)%Z; [|done].
    injection Ed as <-. destruct (known n Hn) as (c' & Hc' & Hw). rewrite Hc in Hc'. injection Hc' as <-.
    by rewrite (wn_name _ _ Hw).
Qed.
Lemma no_overrides ts : Forall (λ t, t ∈ names) ts → find_overrides dir ts = ∅.
Proof using Hinst.
  unfold find_overrides. induction 1 as [|t ts Ht _ IH]; [done|]. cbn [foldl].
  by rewrite (inst_no_override _ _ _ _ Hinst t Ht).
Qed.

Lemma run_checker_due r n c : n ∈ names → select n = Some c →
  run_checker ∅ r (path n, metadata c) = add_result r (metadata c) (execute c sac).
Proof using Hinst.
  intros Hn Hc. unfold run_checker, find_override_for_test. rewrite lookup_empty.
  destruct (program_runs n [] c Hn Hc) as (o & -> & Hs & Ho). unfold process_checker_results.
  rewrite Hs, Ho. change (bool_decide _) with false. cbv match. by rewrite read_result_line.
Qed.

Definition finding_of (e : string * CheckerMetadata) : finding :=
  (e.2, match select (name e.2) with Some c => execute c sac | None => default_result end).

Lemma finding_of_due level_ ns : ns ⊆ names →
  finding_of <$> omap (due_entry level_) ns = due select sac level_ ns.
Proof using Hinst.
  induction ns as [|n ns IH]; intros Hsub; [done|]. destruct (known n) as (c & Hc & Hw); [set_solver|].
  specialize (IH ltac:(set_solver)). unfold due in *. cbn. unfold due_entry at 1. rewrite Hc. cbn.
  destruct (_ <=? _)%Z; [|done]. cbn. rewrite IH. unfold finding_of. cbn. by rewrite (wn_name _ _ Hw), Hc.
Qed.

Lemma due_names level_ ns : ns ⊆ names →
  sublist ((λ f : finding, name f.1) <$> due select sac level_ ns) ns.
Proof using Hinst.
  induction ns as [|n ns IH]; intros Hsub; [constructor|]. destruct (known n) as (c & Hc & Hw); [set_solver|].
  specialize (IH ltac:(set_solver)). unfold due in *. cbn. rewrite Hc. cbn.
  destruct (_ <=? _)%Z; cbn; [|by constructor]. rewrite (wn_name _ _ Hw). by constructor.
Qed.

Lemma run_all_due level_ r es : es ⊆ omap (due_entry level_) names →
  foldl (run_checker ∅) r es = foldl (λ report f, add_result report f.1 f.2) r (finding_of <$> es).
Proof using Hinst.
  revert r. induction es as [|e es IH]; intros r Hsub; [done|]. cbn [foldl fmap list_fmap].
  rewrite IH by set_solver. f_equal.
  assert (He : e ∈ omap (due_entry level_) names) by set_solver.
  apply list_elem_of_omap in He as (n & Hn & He). unfold due_entry in He.
  apply bind_Some in He as (c & Hc & He). destruct (_ <=? _)%Z; [|done]. injection He as <-.
  rewrite run_checker_due by done. unfold finding_of. cbn. destruct (known n Hn) as (c' & Hc' & Hw).
  rewrite Hc in Hc'. injection Hc' as <-. by rewrite (wn_name _ _ Hw), Hc.
Qed.

Lemma gather_due level_ now m : map_to_list m ≡ₚ omap (due_entry level_) names →
  gather dir level_ now m ∅ = report_of level_ (read_metadata dir) now (due select sac level_ names).
Proof using Hinst.
  intros Hm. assert (Hp : map_iter m ≡ₚ omap (due_entry level_) names).
  { rewrite <-Hm. apply NoDup_Permutation; [eapply NoDup_fmap_1, map_iter_NoDup|apply NoDup_map_to_list|].
    intros [k v]. by rewrite elem_of_map_iter, elem_of_map_to_list. }
  unfold gather. rewrite (run_all_due level_) by (intros e; by rewrite Hp).
  apply report_of_perm; [|by rewrite Hp, finding_of_due].
  eapply sublist_NoDup; [apply (inst_nodup _ _ _ _ Hinst)|by apply due_names].
Qed.
End run.

(** C11. bloodhound in a directory with links to one of the checker programs and without
    overrides, whatever the order of its hash map: it writes, in the format that is asked
    for, exactly the report of what the checkers up to the level find, each having been
    read from what the program prints; it exits with 4 when all of them are skipped and
    with 0 otherwise, with 2 and no report when no checker is of that level, and with 3
    when the destination cannot be opened or written. *)
Theorem bloodhound_reports_checks `{HashOrder, JsonText, Host, Yaml} path_debug sac p names args now :
  installed (select_of path_debug sac p) sac (check_dir args) names →
  let found := due (select_of path_debug sac p) sac (arg_level args) names in
  let report := report_of (arg_level args) (read_metadata (check_dir args)) now found in
  run args now =
    if decide (found = []) then mk_outcome None (Some CHECKER_DISCOVERY_ERROR)
    else if get_output (output args) && can_write (output args) then
      mk_outcome (Some (output args, match format args with Json => json_report report | Text => text_report report end))
        (Some (if decide (verdict found = SKIP) then NO_CHECKS_RUN_ERROR else 0%Z))
    else mk_outcome None (Some REPORT_OUTPUT_ERROR).
Proof.
  intros Hinst found report. unfold run. rewrite (inst_dir _ _ _ _ Hinst). cbn [negb].
  unfold find_directory_contents, find_checkers. rewrite (inst_entries _ _ _ _ Hinst). cbn [mbind option_bind].
  replace (omap id _) with ((λ n, path_join (check_dir args) n) <$> names)
    by (clear; induction names as [|n l IH]; [done|]; cbn; by f_equal).
  pose proof (find_due path_debug sac p (check_dir args) names Hinst (arg_level args) names
    ltac:(done) (inst_nodup _ _ _ _ Hinst)) as Hf.
  destruct (foldl _ _ _) as [m ts]. destruct Hf as [Hm Hts].
  rewrite (no_overrides _ _ _ _ _ Hinst ts Hts), (gather_due _ _ _ _ _ Hinst _ _ _ Hm).
  fold found. fold report.
  pose proof (finding_of_due path_debug sac p _ names Hinst (arg_level args) names ltac:(done)) as Hfd.
  fold found in Hfd. rewrite (decide_ext (m = ∅) (found = [])).
  2: { rewrite <-map_to_list_empty_iff, <-Hfd. split.
       - intros E. rewrite E in Hm. apply Permutation.Permutation_nil in Hm. by rewrite Hm.
       - intros E%fmap_nil_inv. rewrite E in Hm. by apply Permutation.Permutation_nil, symmetry. }
  case_decide; [done|]. destruct (get_output _); [|done]. cbn [negb andb]. destruct (can_write _); [|done].
  cbn [negb]. destruct (report_of_counts (arg_level args) (read_metadata (check_dir args)) now found) as [E _].
  fold report in E. by rewrite (f_equal report_status E).
Qed.

Definition example_yaml : Yaml := {|
  yaml := unit; yaml_from_reader _ := None; yaml_field _ _ := None; yaml_bool _ := None;
  yaml_str _ := None; yaml_int _ := None; yaml_seq _ := None |}.
Definition example_sac : SystemAccess :=
  mk_sac (λ path, if decide (path = CRYPTO_FIPS_ENABLED) then Some "1" else None) (λ _, None) (λ _, false)
    (λ _ _, None) (λ _, []).
Definition example_host : Host := {|
  is_dir _ := true;
  read_dir _ := Some [Some "/checks/fips01000000"; Some "/checks/fips01010000"];
  file_metadata _ := Some (false, 493%Z);
  run_command path args := Some (checker_main (H := example_json_text) fips_checks example_sac path args);
  path_exists _ := false;
  read_bytes _ := None;
  create_file _ := true;
  can_write _ := true |}.

Lemma bloodhound_reports_checks_witness :
  exit_code (run (H := example_order) (H0 := example_json_text) (H1 := example_host)
    (mk_arguments "/checks" Text 1 None) "now") = Some 0%Z.
Proof.
  rewrite (bloodhound_reports_checks (H := example_order) (H0 := example_json_text) (H1 := example_host)
    (H2 := example_yaml) id example_sac Fips ["fips01000000"; "fips01010000"]); [reflexivity|].
  split; try done.
  - apply (bool_decide_eq_true_1 _). reflexivity.
  - intros n Hn. repeat (apply elem_of_cons in Hn as [->|Hn]; [by eexists|]). by apply elem_of_nil in Hn.
  - intros n _. by exists 493%Z.
Defined.

(** ** What the checkers do not see *)

(** A key without a certificate: the file is not decoded, and the check passes. *)
Lemma lone_key_passes (Y : Yaml) sac text doc :
  sac_open sac KUBELET_CONF_FILE = Some text → yaml_from_reader text = Some doc →
  yaml_field doc "tlsCertFile" = None →
  status (execute K8S04020900Checker sac) = PASS.
Proof.
  intros Ho Hy Hf. cbn -[with_config]. unfold with_config. rewrite Ho, Hy. cbn. by rewrite Hf.
Qed.

(** A kubelet configuration that is not YAML passes four checks. *)
Lemma broken_config_passes (Y : Yaml) sac text c :
  sac_open sac KUBELET_CONF_FILE = Some text → yaml_from_reader text = None →
  c ∈ [K8S04020500Checker; K8S04020600Checker; K8S04020900Checker; K8S04021100Checker] →
  status (execute c sac) = PASS.
Proof.
  intros Ho Hy Hc. repeat (apply elem_of_cons in Hc as [->|Hc];
    [cbn -[with_config]; unfold with_config; by rewrite Ho, Hy|]). by apply elem_of_nil in Hc.
Qed.

(** The INPUT rules cannot be listed, and the check passes. *)
Lemma unread_input_passes sac o :
  command_output sac IPTABLES_CMD ["-L"; "INPUT"; "-v"; "-n"] = None →
  command_output sac IPTABLES_CMD ["-L"; "OUTPUT"; "-v"; "-n"] = Some o → success o = true →
  found_on_a_line (str_lines (from_utf8_lossy (stdout o)))
    "ACCEPT     all  --  *      lo      0.0.0.0/0            0.0.0.0/0" = true →
  execute BR03040102Checker sac = mk_result PASS "unable to verify iptables INPUT settings" None.
Proof.
  intros Hi Ho Hs Hf. cbn -[loopback_configured]. unfold loopback_configured. rewrite Hi. cbn [status unable].
  rewrite decide_False by done. unfold look_for_string_in_output. rewrite look_in_output, Ho.
  cbn [mbind option_bind]. rewrite Hs. cbn [mbind option_bind]. by rewrite single_found, Hf.
Qed.
