(* ===== verification/Machine.v ===== *)
(** * A machine for the programs that set up containers

    The files and directories, the commands that were run, in order, and the operations
    on them in the state monad of the prelude.  Every operation may fail: whether it
    works in a given state is the class [MachineOps], as are the results of commands.  What
    the container programs share is here too: running a command with its check, systemd
    units, and the other crates that they call. *)
From S2P Require Import Prelude Json Chars Filesystem Bloodhound.
From Stdlib Require Import Ascii.
From stdpp Require Import base list strings gmap.
From stdpp Require Import options.

(** ** Definitions *)

(** A command is the program and its arguments. *)
Abbreviation event := (string * list string)%type.
Record machine := mk_machine {
  files : gmap string string;
  dirs : gset string;
  dir_modes : gmap string Z;
  ran : list event }.

Inductive io_op := ReadFile | WriteFile | CreateFile | CreateDirs | SetPermissions | RemoveFile | TempDir | TempFile | Persist | Exchange | InitLogger.

(** Whether an operation on a path works in a state, how many bytes of a write that fails are
    in the file, which the write truncates first ([None] when it cannot be opened), and the
    outcome of a command: [None] when it cannot be started, otherwise whether it succeeds,
    and its output. *)
Class MachineOps := {
  io_ok : io_op → string → machine → bool;
  write_left : string → machine → option nat;
  outcome : string → list string → machine → option (bool * string) }.

(** Other crates: base 64, and the names of log levels. *)
Class CtrLib := {
  b64_decode : string → option string;
  level_filter : string → bool }.

Definition set_file (path content : string) (m : machine) : machine :=
  mk_machine (<[path := content]> (files m)) (dirs m) (dir_modes m) (ran m).
Definition unset_file (path : string) (m : machine) : machine :=
  mk_machine (delete path (files m)) (dirs m) (dir_modes m) (ran m).
Definition add_dir (path : string) (m : machine) : machine :=
  mk_machine (files m) ({[path]} ∪ dirs m) (dir_modes m) (ran m).
Definition set_dir_mode (path : string) (mode : Z) (m : machine) : machine :=
  mk_machine (files m) (dirs m) (<[path := mode]> (dir_modes m)) (ran m).
Definition note_ran (e : event) (m : machine) : machine :=
  mk_machine (files m) (dirs m) (dir_modes m) (ran m ++ [e]).

Section ops.
Context `{MachineOps} {E : Type}.

(** An operation with its effect, or the error [e]. *)
Definition io (op : io_op) (path : string) (effect : machine → machine) (e : E) : stres machine E () := λ m,
  if io_ok op path m then (effect m, Ok tt) else (m, Err e).

Definition fs_read_to_string (path : string) (e : E) : stres machine E string := λ m,
  match files m !! path with
  | Some content => if io_ok ReadFile path m && utf8_valid content then (m, Ok content) else (m, Err e)
  | None => (m, Err e)
  end.
(** [fs::write]: a write that fails may leave a part of the content in place of the old one. *)
Definition fs_write_file (path content : string) (e : E) : stres machine E () := λ m,
  if io_ok WriteFile path m then (set_file path content m, Ok tt)
  else (match write_left path m with Some n => set_file path (str_take n content) m | None => m end, Err e).
Definition fs_create_dir_all (path : string) (e : E) : stres machine E () := io CreateDirs path (add_dir path) e.
Definition fs_set_permissions (path : string) (mode : Z) (e : E) : stres machine E () :=
  io SetPermissions path (set_dir_mode path mode) e.

(** The wrapper [command]: the output of a command that succeeds. *)
Definition command (execution_failure : string → list string → E) (command_failure : string → E)
    (bin_path : string) (args : list string) : stres machine E string := λ m,
  let m' := note_ran (bin_path, args) m in
  match outcome bin_path args m with
  | None => (m', Err (execution_failure bin_path args))
  | Some (true, stdout) => (m', Ok (from_utf8_lossy stdout))
  | Some (false, _) => (m', Err (command_failure bin_path))
  end.

(** [is_active] and [is_enabled]: a command that fails is an answer. *)
Definition systemctl_asks (is_command_failure : E → bool) (cmd : stres machine E string) : stres machine E bool := λ m,
  match cmd m with
  | (m', Ok _) => (m', Ok true)
  | (m', Err e) => if is_command_failure e then (m', Ok false) else (m', Err e)
  end.

(** The loops that go on after an error: the number of failures. *)
Fixpoint count_failures {A} (l : list A) (f : A → stres machine E ()) : machine → machine * nat := λ m,
  match l with
  | [] => (m, 0)
  | a :: l =>
      let '(m1, r) := f a m in
      let '(m2, n) := count_failures l f m1 in
      (m2, if is_ok r then n else S n)
  end.
End ops.

Definition SYSTEMCTL_BIN : string := "/bin/systemctl".
Definition HOST_CTR_BIN : string := "/bin/host-ctr".

(** [split_whitespace] *)
Fixpoint whitespace_words (chars : list string) (word : string) : list string :=
  let emit := if str_is_empty word then [] else [word] in
  match chars with
  | [] => emit
  | c :: chars => if char_is_whitespace c then emit ++ whitespace_words chars EmptyString
                  else whitespace_words chars (word +:+ c)
  end.
Definition split_whitespace (s : string) : list string := whitespace_words (str_chars s) EmptyString.

(** [writeln!], a line at a time. *)
Definition text_of_lines (lines : list string) : string := str_concat ((λ line, str_push line NEWLINE) <$> lines).

(** ** Names *)

(** What the code relies on of [Identifier]: names are not empty and have no slash, no
    dot and no [@]. *)
Definition AT : ascii := ascii_of_nat 64.
Record plain_name (n : string) : Prop := {
  plain_ne : n ≠ EmptyString;
  plain_slash : no_char SLASH n;
  plain_dot : no_char DOT n;
  plain_at : no_char AT n }.

Lemma str_app_inj_r s1 s2 t : s1 +:+ t = s2 +:+ t → s1 = s2.
Proof.
  revert s2. induction s1 as [|a s1 IH]; intros [|b s2] E; [done|..].
  - apply (f_equal str_len) in E. rewrite !str_len_app in E. cbn in E. lia.
  - apply (f_equal str_len) in E. rewrite !str_len_app in E. cbn in E. lia.
  - injection E as -> E. by rewrite (IH s2).
Qed.

(** Joining a name to a directory that does not end in a slash. *)
Lemma path_join_plain dir n t : no_char SLASH n → n ≠ EmptyString →
  str_is_empty dir || str_ends_with dir SLASH = false →
  path_join dir (n +:+ t) = dir +:+ "/" +:+ (n +:+ t).
Proof.
  intros Hs Hne Hd. destruct n as [|a n]; [done|]. cbn [String.append]. unfold path_join.
  rewrite decide_False, Hd; [done|]. intros ->. unfold no_char in Hs. cbn in Hs. by rewrite bool_decide_true in Hs.
Qed.

Lemma ends_with_app x n c : no_char c n → n ≠ EmptyString → str_ends_with (x +:+ n) c = false.
Proof.
  intros Hn Hne. destruct (str_ends_with (x +:+ n) c) eqn:E; [|done]. exfalso.
  apply ends_with_split in E as (t & E). destruct (str_snoc n) as [->|(n' & b & ->)]; [done|].
  unfold char_of in E. rewrite str_app_assoc in E.
  assert (Hb : b = c).
  { clear -E. revert t E. induction (x +:+ n') as [|d s IH]; intros [|d' t] E; cbn in E; injection E as; subst;
      try done; [by destruct t|by destruct s|by eapply IH]. }
  subst b. unfold no_char in Hn. rewrite str_existsb_app in Hn. cbn in Hn.
  by rewrite bool_decide_true, orb_true_r in Hn.
Qed.

(** ** Running *)

Section facts.
Context `{MachineOps} {E : Type}.

Lemma io_Ok op path effect (e : E) m m' : io op path effect e m = (m', Ok tt) → m' = effect m.
Proof. unfold io. destruct (io_ok op path m); naive_solver. Qed.

(** What a write leaves: the content, or on an error the old file or a part of the content. *)
Lemma fs_write_file_inv path content (e : E) m m' r : fs_write_file path content e m = (m', r) →
  (r = Ok tt ∧ m' = set_file path content m) ∨
  (r = Err e ∧ (m' = m ∨ ∃ n, m' = set_file path (str_take n content) m)).
Proof.
  unfold fs_write_file. destruct (io_ok WriteFile path m); [intros [= <- <-]; by left|].
  destruct (write_left path m) as [n|]; intros [= <- <-]; right; (split; [done|]); [right; by exists n|by left].
Qed.

Lemma fs_write_file_Ok path content (e : E) m m' : fs_write_file path content e m = (m', Ok tt) → m' = set_file path content m.
Proof. by intros [[_ ->]|[? _]]%fs_write_file_inv. Qed.

Lemma command_Ok ef cf bin args m m' s : command (E := E) ef cf bin args m = (m', Ok s) →
  m' = note_ran (bin, args) m.
Proof. unfold command. destruct (outcome bin args m) as [[[] ?]|]; naive_solver. Qed.

(** Whatever comes of it, a command is noted. *)
Lemma command_ran ef cf bin args m : (command (E := E) ef cf bin args m).1 = note_ran (bin, args) m.
Proof. unfold command. by destruct (outcome bin args m) as [[[] ?]|]. Qed.

Lemma systemctl_asks_state p (cmd : stres machine E string) m : (systemctl_asks p cmd m).1 = (cmd m).1.
Proof. unfold systemctl_asks. destruct (cmd m) as [m' [s|e]]; [done|]. by destruct (p e). Qed.

Lemma count_failures_app {A} l1 l2 (f : A → stres machine E ()) m :
  count_failures (l1 ++ l2) f m =
  let '(m1, n1) := count_failures l1 f m in
  let '(m2, n2) := count_failures l2 f m1 in (m2, n1 + n2).
Proof.
  revert m. induction l1 as [|a l1 IH]; intros m; cbn [count_failures app]; [by destruct (count_failures _ _ _)|].
  destruct (f a m) as [m1 r]. rewrite IH. destruct (count_failures l1 f m1) as [m2 n].
  destruct (count_failures l2 f m2). by destruct (is_ok r).
Qed.

(** The rule for these loops: an invariant of the elements done, the failures so far and
    the state, which every step keeps. *)
Lemma count_failures_inv {A} (I : list A → nat → machine → Prop) l (f : A → stres machine E ()) m :
  I [] 0 m →
  (∀ dn a rest n m1 m2 r, l = dn ++ a :: rest → I dn n m1 → f a m1 = (m2, r) →
     I (dn ++ [a]) (if is_ok r then n else S n) m2) →
  I l (count_failures l f m).2 (count_failures l f m).1.
Proof.
  intros H0 Hstep. revert Hstep. induction l as [|a l IH] using rev_ind; intros Hstep; [done|].
  rewrite count_failures_app. destruct (count_failures l f m) as [m1 n1] eqn:E1. cbn.
  destruct (f a m1) as [m2 r] eqn:Ea. cbn. replace (n1 + _) with (if is_ok r then n1 else S n1)
    by (destruct (is_ok r); lia).
  eapply (Hstep l a []); [done| |done]. apply IH. intros dn b rest ? ? ? ? -> ?.
  apply (Hstep dn b (rest ++ [a])); [|done]. by rewrite <-app_assoc.
Qed.
End facts.

(** ** A relation that a program keeps, whatever its result *)

Definition st_rel {S E A} (R : S → S → Prop) (m : stres S E A) : Prop := ∀ s, R s (m s).1.

Section rel.
Context {S E : Type} (R : S → S → Prop) {HR : PreOrder R}.

Lemma st_rel_ret {A} (a : A) : st_rel (E := E) R (st_ret a).
Proof using HR. intros s. reflexivity. Qed.
Lemma st_rel_lift {A} (r : result E A) : st_rel R (st_lift r).
Proof using HR. intros s. reflexivity. Qed.
Lemma st_rel_bind {A B} (m : stres S E A) (k : A → stres S E B) :
  st_rel R m → (∀ a, st_rel R (k a)) → st_rel R (st_bind m k).
Proof using HR.
  intros Hm Hk s. unfold st_bind. specialize (Hm s). destruct (m s) as [s1 [a|e]]; [|done].
  transitivity s1; [done|apply Hk].
Qed.
Lemma st_rel_if {A} (b : bool) (m1 m2 : stres S E A) : st_rel R m1 → st_rel R m2 → st_rel R (if b then m1 else m2).
Proof. by destruct b. Qed.
End rel.
Create HintDb st_rel.
#[export] Hint Resolve st_rel_ret st_rel_lift st_rel_bind st_rel_if : st_rel.

(** Splits a program into its steps. *)
Ltac st_rel_steps :=
  repeat (first [apply st_rel_bind; [apply _| |intros ?] | apply st_rel_ret | apply st_rel_lift |
                 case_match | case_decide]); try apply _.

(** A machine on which everything works, for evaluating the programs. *)
Definition example_ops : MachineOps := {|
  io_ok _ _ _ := true;
  write_left _ _ := None;
  outcome _ _ _ := Some (true, "multi-user.target") |}.
Definition example_ctr_lib : CtrLib := {| b64_decode := Some; level_filter _ := true |}.
Definition machine_with (l : list (string * string)) : machine := mk_machine (list_to_map l) ∅ ∅ [].

Lemma plain_by_compute n : negb (str_is_empty n) && negb (str_existsb (λ a, bool_decide (a = SLASH)) n) &&
  negb (str_existsb (λ a, bool_decide (a = DOT)) n) && negb (str_existsb (λ a, bool_decide (a = AT)) n) = true →
  plain_name n.
Proof.
  intros [[[H1 H2%negb_true_iff]%andb_true_iff H3%negb_true_iff]%andb_true_iff H4%negb_true_iff]%andb_true_iff.
  split; [by intros ->|done..].
Qed.
