(* ===== verification/HostContainers.v ===== *)
(** * host-containers ([sources/api/host-containers])

    The program that brings the host containers to what the settings say: for each
    container that a change concerns it writes the user data and the environment file and
    stops, cleans up and enables or disables its unit.  The theorem says what a run
    leaves on the machine. *)
From S2P Require Import Prelude Json KeyMap Chars Filesystem Bloodhound Machine.
From Stdlib Require Import Ascii.
From stdpp Require Import base list strings gmap.
From stdpp Require Import options.

(** ** Definitions *)

Definition ENV_FILE_DIR : string := "/etc/host-containers".
Definition CONFIG_FILE : string := "/etc/host-containers/host-containers.toml".
Definition PERSISTENT_STORAGE_BASE_DIR : string := "/local/host-containers".

(** [config::HostContainer] *)
Record HostContainer := mk_host_container {
  source : option string;
  enabled : option bool;
  superpowered : option bool;
  user_data : option string;
  entrypoint : list string }.

Inductive error :=
| ReadConfig (config_file : string)
| ConfigToml (config_file : string)
| MissingField (name field : string)
| EnvFileWriteFailed (path : string)
| ExecutionFailure (program : string) (args : list string)
| CommandFailure (bin_path : string)
| ManageContainersFailed (failed tried : nat)
| Logger
| Base64Decode (name : string)
| Mkdir (dir : string)
| UserDataWrite (name : string)
| SetPermissions_ (name : string)
| SerializeContainerCommand (args : list string).

Definition is_command_failure (e : error) : bool := match e with CommandFailure _ => true | _ => false end.

(** The TOML of the configuration: its containers, if it has any. *)
Class HostConfig := { host_config_of_toml : string → option (option (gmap string HostContainer)) }.

Record Args := mk_args { log_level : string; config_path : string }.

Section program.
Context `{SerdeJson, HashOrder, MachineOps, CtrLib, HostConfig}.

Abbreviation act A := (stres machine error A).

Definition run_command_ : string → list string → act string := command ExecutionFailure CommandFailure.

Definition get_host_containers (config_path : string) : act (gmap string HostContainer) :=
  let! config := fs_read_to_string config_path (ReadConfig config_path) in
  let! config := st_lift (ok_or (host_config_of_toml config) (ConfigToml config_path)) in
  st_ret (default ∅ config).

(** *** [SystemdUnit] *)

Definition is_active (unit_ : string) : act bool :=
  systemctl_asks is_command_failure (run_command_ SYSTEMCTL_BIN ["is-active"; unit_]).
Definition stop (unit_ : string) : act () := λ m, ((run_command_ SYSTEMCTL_BIN ["stop"; unit_] m).1, Ok tt).
Definition enable (unit_ : string) : act () :=
  let! _ := run_command_ SYSTEMCTL_BIN ["enable"; unit_; "--no-reload"; "--no-block"] in st_ret tt.
Definition enable_now (unit_ : string) : act () :=
  let! _ := run_command_ SYSTEMCTL_BIN ["enable"; unit_; "--now"; "--no-block"] in st_ret tt.
Definition disable (unit_ : string) : act () :=
  let! _ := run_command_ SYSTEMCTL_BIN ["disable"; unit_; "--no-reload"; "--no-block"] in st_ret tt.
Definition disable_now (unit_ : string) : act () :=
  let! _ := run_command_ SYSTEMCTL_BIN ["disable"; unit_; "--now"; "--no-block"] in st_ret tt.

(** *** The environment file *)

Definition bool_text (b : bool) : string := if b then "true" else "false".
Definition env_text (source : string) (enabled superpowered : bool) (command : string) : string :=
  text_of_lines ["CTR_SUPERPOWERED=" +:+ bool_text superpowered; "CTR_SOURCE=" +:+ source; "CTR_COMMAND=" +:+ command;
    EmptyString; "# Just for reference; service is enabled or disabled by host-containers service";
    "# CTR_ENABLED=" +:+ bool_text enabled].
Definition env_path (name : string) : string := path_join ENV_FILE_DIR (name +:+ ".env").
Definition write_env_file (name source : string) (enabled superpowered : bool) (command : string) : act () :=
  fs_write_file (env_path name) (env_text source enabled superpowered command) (EnvFileWriteFailed (env_path name)).

(** *** One container *)

Definition storage_dir (name : string) : string := path_join PERSISTENT_STORAGE_BASE_DIR name.
Definition user_data_path (name : string) : string := path_join (storage_dir name) "user-data".
Definition unit_name (name : string) : string := "host-containers@" +:+ name +:+ ".service".

Definition write_user_data (name : string) (image_details : HostContainer) : act () :=
  match user_data image_details with
  | Some data =>
      let! decoded_bytes := st_lift (ok_or (b64_decode data) (Base64Decode name)) in
      fs_write_file (user_data_path name) decoded_bytes (UserDataWrite name)
  | None => st_ret tt
  end.

Definition settle_unit (unit_ target : string) (enabled : bool) : act () :=
  if decide (str_trim target = "multi-user.target") then
    if enabled then enable_now unit_ else disable_now unit_
  else if enabled then enable unit_ else disable unit_.

Definition handle_host_container (name : string) (image_details : HostContainer) : act () :=
  let! source := st_lift (ok_or (source image_details) (MissingField name "source")) in
  let enabled := default false (enabled image_details) in
  let superpowered := default false (superpowered image_details) in
  let! command := st_lift (map_err (λ _, SerializeContainerCommand (entrypoint image_details))
                    (json_to_string (JArray (JString <$> entrypoint image_details)))) in
  let dir := storage_dir name in
  let! _ := fs_create_dir_all dir (Mkdir dir) in
  let! _ := fs_set_permissions dir 448 (SetPermissions_ name) in
  let! _ := write_user_data name image_details in
  let! _ := write_env_file name source enabled superpowered command in
  let! _ := stop (unit_name name) in
  let! active := is_active "host-containerd.service" in
  let! _ := (if (active : bool) then
               let! _ := run_command_ HOST_CTR_BIN ["clean-up"; "--container-id"; name] in st_ret tt
             else st_ret tt) in
  let! systemd_target := run_command_ SYSTEMCTL_BIN ["get-default"] in
  settle_unit (unit_name name) systemd_target enabled.

(** *** The run *)

(** The loop over the changed settings. *)
Fixpoint affected_by (setting_prefix container_prefix : string) (settings : list string) : bool :=
  match settings with
  | [] => false
  | setting :: settings =>
      if str_starts_with setting container_prefix then true
      else if negb (str_starts_with setting setting_prefix) then true
      else affected_by setting_prefix container_prefix settings
  end.
Definition SETTING_PREFIX : string := "settings.host-containers.".
Definition is_container_affected (settings : list string) (container_name : string) : bool :=
  match settings with
  | [] => true
  | _ => affected_by SETTING_PREFIX (SETTING_PREFIX +:+ container_name +:+ ".") settings
  end.

(** [None] is the exit with status 2 of [usage]. *)
Fixpoint parse_args_loop (args : list string) (log_level config_path : option string) : option Args :=
  match args with
  | [] => Some (mk_args (default "info" log_level) (default CONFIG_FILE config_path))
  | "--log-level" :: args =>
      match args with
      | level :: args => if level_filter level then parse_args_loop args (Some level) config_path else None
      | [] => None
      end
  | "--config-path" :: args =>
      match args with
      | path :: args => parse_args_loop args log_level (Some path)
      | [] => None
      end
  | _ => None
  end.
Definition parse_args (args : list string) : option Args := parse_args_loop args None None.

Definition step (changed_settings : list string) (entry : string * HostContainer) : act () :=
  if is_container_affected changed_settings entry.1 then handle_host_container entry.1 entry.2 else st_ret tt.

(** [CHANGED_SETTINGS] of the environment is an argument. *)
Definition run (args : Args) (changed_settings_env : option string) : act () :=
  let changed_settings := split_whitespace (default EmptyString changed_settings_env) in
  let! _ := io InitLogger EmptyString id Logger in
  let! host_containers := get_host_containers (config_path args) in
  λ m,
    let '(m, failed) := count_failures (map_iter host_containers) (step changed_settings) m in
    (m, ensure (failed =? 0)%nat (ManageContainersFailed failed (size host_containers))).

Definition main (args : list string) (changed_settings_env : option string) (m : machine) : machine * Z :=
  match parse_args args with
  | None => (m, 2%Z)
  | Some args => let '(m, r) := run args changed_settings_env m in (m, if is_ok r then 0%Z else 1%Z)
  end.
End program.

(** ** One container *)

Section facts.
Context `{SerdeJson, HashOrder, MachineOps, CtrLib, HostConfig}.
Implicit Types (n : string) (c : HostContainer) (m : machine).

(** The events that name a unit. *)
Definition unit_events (u : string) (evs : list event) : list event := filter (λ e, u ∈ e.2) evs.

(** What work on a container may touch: its two files, and no unit of another one. *)
Record own_only n m m' : Prop := {
  own_files p : p ≠ env_path n → p ≠ user_data_path n → files m' !! p = files m !! p;
  own_ran : ∃ evs, ran m' = ran m ++ evs ∧
    ∀ n', plain_name n → plain_name n' → n' ≠ n → unit_events (unit_name n') evs = [] }.

#[local] Instance own_only_preorder n : PreOrder (own_only n).
Proof.
  split.
  - intros m. split; [done|]. exists []. by rewrite app_nil_r.
  - intros m1 m2 m3 [F1 (e1 & R1 & U1)] [F2 (e2 & R2 & U2)]. split.
    + intros p Hp1 Hp2. by rewrite F2, F1.
    + exists (e1 ++ e2). split; [by rewrite R2, R1, app_assoc|]. intros n' Hn Hn' Hne.
      unfold unit_events. rewrite filter_app. unfold unit_events in *. by rewrite U1, U2.
Qed.

Lemma unit_events_in u bin args evs : u ∈ args → unit_events u ((bin, args) :: evs) = (bin, args) :: unit_events u evs.
Proof. intros Hu. unfold unit_events. by rewrite filter_cons_True. Qed.
Lemma unit_events_out u bin args evs : u ∉ args → unit_events u ((bin, args) :: evs) = unit_events u evs.
Proof. intros Hu. unfold unit_events. by rewrite filter_cons_False. Qed.

Lemma unit_name_inj n n' : unit_name n = unit_name n' → n = n'.
Proof. intros E%str_app_inj_l. by apply str_app_inj_r in E. Qed.

(** A unit is not a plain name, an option, or another program's unit. *)
Lemma unit_not_plain n n' : plain_name n' → unit_name n ≠ n'.
Proof.
  intros Hp E. pose proof (plain_at _ Hp) as Ha. rewrite <-E in Ha. unfold no_char, unit_name in Ha.
  rewrite str_existsb_app in Ha. done.
Qed.

(** A command whose arguments do not name another container's unit. *)
Definition own_args n (args : list string) : Prop :=
  ∀ n', plain_name n → plain_name n' → n' ≠ n → unit_name n' ∉ args.

Lemma own_args_unit n verb flags : verb ∈ ["stop"; "enable"; "disable"] → Forall (λ f, f ∈ ["--no-reload"; "--no-block"; "--now"]) flags →
  own_args n (verb :: unit_name n :: flags).
Proof.
  intros Hv Hf n' Hn Hn' Hne. rewrite !elem_of_cons. intros [E|[E%unit_name_inj|Hin]]; [|done|].
  - subst verb. repeat (apply elem_of_cons in Hv as [Hv|Hv]; [discriminate|]). by apply elem_of_nil in Hv.
  - rewrite Forall_forall in Hf. apply Hf in Hin.
    repeat (apply elem_of_cons in Hin as [Hv'|Hin]; [discriminate|]). by apply elem_of_nil in Hin.
Qed.

Lemma run_own n bin args : own_args n args → st_rel (own_only n) (run_command_ bin args).
Proof.
  intros Ha m. unfold run_command_. rewrite command_ran. split; [done|]. exists [(bin, args)]. split; [done|].
  intros n' Hn Hn' Hne. unfold unit_events. rewrite filter_cons_False; [done|]. by apply Ha.
Qed.

Lemma io_own n op path effect e :
  (∀ m, own_only n m (effect m)) → st_rel (own_only n) (io (E := error) op path effect e).
Proof. intros He m. unfold io. destruct (io_ok _ _ _); [apply He|reflexivity]. Qed.

Lemma write_own n path content e : path = env_path n ∨ path = user_data_path n →
  st_rel (own_only n) (fs_write_file (E := error) path content e).
Proof.
  intros Hp m. assert (Hs : ∀ text, own_only n m (set_file path text m)).
  { intros text. split; cbn; [|exists []; by rewrite app_nil_r].
    intros p ? ?. apply lookup_insert_ne. intros ->. by destruct Hp. }
  destruct (fs_write_file path content e m) as [m' r] eqn:E.
  apply fs_write_file_inv in E as [[_ ->]|[_ [->|[k ->]]]]; [apply Hs|reflexivity|apply Hs].
Qed.

Lemma asks_own n u : (∀ n', plain_name n' → unit_name n' ≠ u) → st_rel (own_only n) (is_active u).
Proof.
  intros Hu m. unfold is_active. rewrite systemctl_asks_state. apply run_own.
  intros n' _ Hn' _. rewrite !elem_of_cons, elem_of_nil. intros [E|[E|[]]]; [discriminate|by apply (Hu n')].
Qed.

Lemma handle_own n c : plain_name n → st_rel (own_only n) (handle_host_container n c).
Proof.
  intros Hn.
  assert (Hio : ∀ op path e f, (∀ m, files (f m) = files m ∧ ran (f m) = ran m) → st_rel (own_only n) (io (E := error) op path f e)).
  { intros op path e f Hf. apply io_own. intros m. destruct (Hf m) as [Ef Er]. split; [by rewrite Ef|].
    exists []. by rewrite Er, app_nil_r. }
  assert (Hfl : ∀ verb flags, verb ∈ ["stop"; "enable"; "disable"] → Forall (λ f, f ∈ ["--no-reload"; "--no-block"; "--now"]) flags →
    st_rel (own_only n) (run_command_ SYSTEMCTL_BIN (verb :: unit_name n :: flags))).
  { intros. by apply run_own, own_args_unit. }
  unfold handle_host_container, write_user_data, write_env_file, settle_unit, enable, enable_now, disable, disable_now.
  cbv zeta. st_rel_steps.
  all: try (by apply Hio). all: try (by apply write_own; auto).
  all: try (apply Hfl; [set_solver|repeat constructor; set_solver]).
  - apply asks_own. intros n' _. discriminate.
  - apply run_own. intros n' _ Hn' _. rewrite !elem_of_cons, elem_of_nil.
    intros [E|[E|[E|[]]]]; [discriminate..|by apply (unit_not_plain n' n)].
  - apply run_own. intros n' _ _ _. rewrite elem_of_cons, elem_of_nil. intros [E|[]]. discriminate.
Qed.

(** The command that settles the unit. *)
Definition settling n (target : string) (enabled : bool) : event :=
  (SYSTEMCTL_BIN, [if enabled then "enable" else "disable"; unit_name n;
                   if decide (str_trim target = "multi-user.target") then "--now" else "--no-reload"; "--no-block"]).

Lemma settle_ran n target b m m' : settle_unit (unit_name n) target b m = (m', Ok tt) →
  m' = note_ran (settling n target b) m.
Proof.
  unfold settle_unit, settling, enable_now, disable_now, enable, disable.
  destruct (decide (str_trim target = "multi-user.target")), b; intros Hs; sinv;
    injection Hs as <-; by eapply command_Ok.
Qed.

(** What has become of a container that was handled. *)
Definition settled n c (m' : machine) : Prop :=
  ∃ s cmd, source c = Some s ∧ json_to_string (JArray (JString <$> entrypoint c)) = Ok cmd ∧
    files m' !! env_path n = Some (env_text s (default false (enabled c)) (default false (superpowered c)) cmd) ∧
    (∀ data, user_data c = Some data → ∃ bytes, b64_decode data = Some bytes ∧ files m' !! user_data_path n = Some bytes).

Lemma path_of_env n : plain_name n → env_path n = ENV_FILE_DIR +:+ "/" +:+ (n +:+ ".env").
Proof. intros Hn. by apply path_join_plain; [apply Hn|apply Hn|]. Qed.

Lemma path_of_data n : plain_name n → user_data_path n = PERSISTENT_STORAGE_BASE_DIR +:+ "/" +:+ (n +:+ "/user-data").
Proof.
  intros Hn. unfold user_data_path, storage_dir. rewrite <-(str_app_nil_r n) at 1.
  rewrite path_join_plain by (apply Hn || done). rewrite str_app_nil_r, (str_app_assoc _ "/" n).
  unfold path_join at 1. rewrite decide_False by done. rewrite ends_with_app by apply Hn.
  cbn -[PERSISTENT_STORAGE_BASE_DIR]. by rewrite <-!str_app_assoc.
Qed.

Lemma paths_apart n n' : plain_name n → plain_name n' →
  env_path n ≠ user_data_path n' ∧ (n ≠ n' → env_path n ≠ env_path n' ∧ user_data_path n ≠ user_data_path n').
Proof.
  intros Hn Hn'. rewrite !path_of_env, !path_of_data by done. split; [discriminate|]. intros Hne. split.
  - intros E%str_app_inj_l%str_app_inj_l. by apply str_app_inj_r in E.
  - intros E%str_app_inj_l%str_app_inj_l. by apply str_app_inj_r in E.
Qed.
Lemma user_data_done n c m m' : write_user_data n c m = (m', Ok tt) →
  ran m' = ran m ∧
  (∀ data, user_data c = Some data → ∃ bytes, b64_decode data = Some bytes ∧ files m' !! user_data_path n = Some bytes).
Proof.
  unfold write_user_data. destruct (user_data c) as [data|]; [|intros [= <-]; by split].
  intros (? & bytes & [-> Hb%ok_or_Ok]%st_lift_Ok & ->%fs_write_file_Ok)%st_bind_Ok. split; [done|].
  intros ? [= <-]. exists bytes. split; [done|]. apply lookup_insert_eq.
Qed.

Lemma stop_state u m m' r : stop u m = (m', r) → m' = note_ran (SYSTEMCTL_BIN, ["stop"; u]) m.
Proof.
  intros Hs. assert (E : (stop u m).1 = m') by (by rewrite Hs). rewrite <-E. apply command_ran.
Qed.

Lemma is_active_state u m m' b : is_active u m = (m', Ok b) → m' = note_ran (SYSTEMCTL_BIN, ["is-active"; u]) m.
Proof.
  intros Ha. assert (E : (is_active u m).1 = m') by (by rewrite Ha). rewrite <-E. unfold is_active.
  rewrite systemctl_asks_state. apply command_ran.
Qed.

Lemma clean_up_state n (b : bool) m m' :
  (if b then let! _ := run_command_ HOST_CTR_BIN ["clean-up"; "--container-id"; n] in st_ret tt else st_ret tt) m = (m', Ok tt) →
  files m' = files m ∧ ran m' = ran m ++ (if b then [(HOST_CTR_BIN, ["clean-up"; "--container-id"; n])] else []).
Proof.
  destruct b; [|intros [= <-]; by rewrite app_nil_r].
  intros (? & ? & Hc%command_Ok & [= <-])%st_bind_Ok. by subst.
Qed.

Lemma handle_done n c m m' : plain_name n → handle_host_container n c m = (m', Ok tt) →
  settled n c m' ∧ ∃ target evs, ran m' = ran m ++ evs ∧
    unit_events (unit_name n) evs =
      [(SYSTEMCTL_BIN, ["stop"; unit_name n]); settling n target (default false (enabled c))].
Proof.
  intros Hn Hh. pose proof (paths_apart n n Hn Hn) as [Hp _]. unfold handle_host_container in Hh. cbv zeta in Hh.
  apply st_bind_Ok in Hh as (? & s & Hs & Hh). apply st_lift_Ok in Hs as [-> Hs%ok_or_Ok].
  apply st_bind_Ok in Hh as (? & cmd & Hc & Hh). apply st_lift_Ok in Hc as [-> Hc%map_err_Ok].
  apply st_bind_Ok in Hh as (m1 & [] & Hd & Hh). apply io_Ok in Hd as ->.
  apply st_bind_Ok in Hh as (m1 & [] & Hd & Hh). apply io_Ok in Hd as ->.
  apply st_bind_Ok in Hh as (m1 & [] & [Hur Hud]%user_data_done & Hh).
  apply st_bind_Ok in Hh as (m2 & [] & He & Hh). apply fs_write_file_Ok in He as ->.
  apply st_bind_Ok in Hh as (m2 & [] & ->%stop_state & Hh).
  apply st_bind_Ok in Hh as (m3 & active & ->%is_active_state & Hh).
  apply st_bind_Ok in Hh as (m4 & [] & [Hcf Hcr]%clean_up_state & Hh).
  apply st_bind_Ok in Hh as (m5 & target & ->%command_Ok & ->%settle_ran).
  split.
  - exists s, cmd. split_and!; [done..| |]; cbn; rewrite Hcf; cbn.
    + by rewrite lookup_insert_eq.
    + intros data Hdata. destruct (Hud data Hdata) as (bytes & Hb & Hf). exists bytes. split; [done|].
      by rewrite lookup_insert_ne.
  - exists target. eexists. cbn. rewrite Hcr. cbn. rewrite Hur. cbn. rewrite <-!app_assoc. split; [done|].
    unfold settling. assert (Hx : unit_name n ∉ ["clean-up"; "--container-id"; n]).
    { rewrite !elem_of_cons, elem_of_nil. intros [E|[E|[E|[]]]]; [discriminate..|by apply (unit_not_plain n n)]. }
    rewrite !app_assoc. cbn [app]. rewrite unit_events_in by set_solver. f_equal.
    destruct active; cbn [app]; rewrite ?unit_events_out by (exact Hx || (rewrite ?elem_of_cons, elem_of_nil;
      intros E; repeat destruct E as [E|E]; done)); by rewrite unit_events_in by set_solver.
Qed.
(** A container is affected at boot, by a change below it, or by a change elsewhere. *)
Lemma is_container_affected_spec settings n :
  is_container_affected settings n = true ↔
  settings = [] ∨ ∃ s, s ∈ settings ∧
    (str_starts_with s (SETTING_PREFIX +:+ n +:+ ".") = true ∨ str_starts_with s SETTING_PREFIX = false).
Proof.
  assert (Ha : ∀ l, affected_by SETTING_PREFIX (SETTING_PREFIX +:+ n +:+ ".") l =
    existsb (λ s, str_starts_with s (SETTING_PREFIX +:+ n +:+ ".") || negb (str_starts_with s SETTING_PREFIX)) l).
  { induction l as [|s l IH]; [done|]. cbn -[SETTING_PREFIX String.prefix]. rewrite IH.
    by destruct (str_starts_with s (SETTING_PREFIX +:+ n +:+ ".")), (str_starts_with s SETTING_PREFIX). }
  destruct settings as [|s l]; [split; [by left|done]|]. unfold is_container_affected.
  rewrite Ha, existsb_exists. split.
  - intros (x & Hx%list_elem_of_In & Hb). right. exists x. split; [done|].
    apply orb_true_iff in Hb as [Hb|Hb%negb_true_iff]; auto.
  - intros [|(x & Hx%list_elem_of_In & Hb)]; [done|]. exists x. split; [done|].
    apply orb_true_iff. rewrite negb_true_iff. destruct Hb; auto.
Qed.

Lemma settled_kept n c n' m m' : plain_name n → plain_name n' → n ≠ n' →
  own_only n' m m' → settled n c m → settled n c m'.
Proof.
  intros Hn Hn' Hne [Hf _] (s & cmd & Hs & Hc & He & Hu).
  destruct (paths_apart n n' Hn Hn') as [H1' H2'], (paths_apart n' n Hn' Hn) as [H3' _], (H2' Hne) as [H4' H5'].
  exists s, cmd. split_and!; [done..| |]; [by rewrite Hf|]. intros data Hd. destruct (Hu data Hd) as (bytes & ? & ?).
  exists bytes. split; [done|]. by rewrite Hf.
Qed.

(** What holds in the middle of the loop. *)
Definition progress (changed : list string) (m0 : machine) (dn : list (string * HostContainer)) (failed : nat) (m : machine) : Prop :=
  ∃ evs, ran m = ran m0 ++ evs ∧
    (failed = 0 → ∀ n c, (n, c) ∈ dn → is_container_affected changed n = true →
       settled n c m ∧ ∃ target, unit_events (unit_name n) evs =
         [(SYSTEMCTL_BIN, ["stop"; unit_name n]); settling n target (default false (enabled c))]) ∧
    (∀ n, plain_name n → (∀ c, (n, c) ∈ dn → is_container_affected changed n = false) →
       files m !! env_path n = files m0 !! env_path n ∧ files m !! user_data_path n = files m0 !! user_data_path n ∧
       unit_events (unit_name n) evs = []).

Lemma unit_events_app u e1 e2 : unit_events u (e1 ++ e2) = unit_events u e1 ++ unit_events u e2.
Proof. apply filter_app. Qed.

Lemma progress_step changed m0 dn n c k m1 m2 r :
  NoDup (dn ++ [(n, c)]).*1 → Forall plain_name (dn ++ [(n, c)]).*1 →
  progress changed m0 dn k m1 → step changed (n, c) m1 = (m2, r) →
  progress changed m0 (dn ++ [(n, c)]) (if is_ok r then k else S k) m2.
Proof.
  rewrite fmap_app, NoDup_app, Forall_app. intros (_ & Hfresh & _) [Hpl Hn] (evs & Hran & Hh & Ho) Hs.
  apply Forall_cons_1 in Hn as [Hn _]. cbn in Hn.
  unfold step in Hs. cbn [fst snd] in *. destruct (is_container_affected changed n) eqn:Ha.
  2: { injection Hs as <- <-. cbn [is_ok]. exists evs. refine (conj Hran (conj _ _)).
       - intros Hk n' c' [Hin|Hin%list_elem_of_singleton]%elem_of_app; [by apply Hh|]. intros ?; simplify_eq; congruence.
       - intros n' Hn' Hc'. apply Ho; [done|]. intros c' Hin. apply (Hc' c'), elem_of_app. by left. }
  pose proof (handle_own n c Hn m1) as Hown. rewrite Hs in Hown. cbn in Hown.
  destruct (own_ran _ _ _ Hown) as (new & Hnew & Hforeign).
  exists (evs ++ new). split; [by rewrite Hnew, Hran, app_assoc|split].
  - destruct r as [[]|e]; [|done]. cbn [is_ok]. intros -> n' c' [Hin|Hin%list_elem_of_singleton]%elem_of_app Ha'.
    + destruct (Hh eq_refl n' c' Hin Ha') as [Hset (target & Hu)].
      assert (Hin1 : n' ∈ dn.*1) by by apply (list_elem_of_fmap_2 fst _ (n', c')).
      assert (Hne : n' ≠ n) by (intros ->; apply (Hfresh n Hin1); by left).
      assert (Hn' : plain_name n') by (rewrite Forall_forall in Hpl; by apply Hpl).
      split; [by eapply (settled_kept n' c' n)|]. exists target. by rewrite unit_events_app, Hu, Hforeign.
    + simplify_eq. destruct (handle_done n c m1 m2 Hn Hs) as (Hset & target & new' & Hnew' & Hu). split; [done|].
      exists target. rewrite Hnew in Hnew'. apply app_inv_head in Hnew' as <-. rewrite unit_events_app, Hu.
      destruct (Ho n Hn) as (_ & _ & ->); [|done]. intros c' Hin. exfalso.
      apply (Hfresh n); [|by left]. by apply (list_elem_of_fmap_2 fst _ (n, c')).
  - intros n' Hn' Hc'. assert (Hne : n' ≠ n).
    { intros ->. rewrite (Hc' c) in Ha; [done|]. apply elem_of_app. right. by left. }
    destruct (Ho n' Hn') as (He & Hd & Hu). { intros c' Hin. apply (Hc' c'), elem_of_app. by left. }
    destruct (paths_apart n' n Hn' Hn) as [H1' H2'], (paths_apart n n' Hn Hn') as [H3' _], (H2' Hne) as [H4' H5'].
    destruct Hown as [Hof _]. rewrite !Hof, unit_events_app, Hu, Hforeign by done. done.
Qed.
Lemma config_read p m m' r text cfg : files m !! p = Some text → host_config_of_toml text = Some cfg →
  get_host_containers p m = (m', r) → m' = m ∧ (r = Ok (default ∅ cfg) ∨ r = Err (ReadConfig p)).
Proof.
  intros Ht Hcfg. unfold get_host_containers, st_bind, fs_read_to_string, st_lift. rewrite Ht.
  destruct (io_ok _ _ _ && _); [rewrite Hcfg|]; cbn; intros [= <- <-]; auto.
Qed.

Lemma loop_progress changed m (cs : gmap string HostContainer) : (∀ n, is_Some (cs !! n) → plain_name n) →
  let '(m', k) := count_failures (map_iter cs) (step changed) m in progress changed m (map_iter cs) k m'.
Proof.
  intros Hpl. assert (Hall : Forall plain_name (map_iter cs).*1).
  { apply Forall_forall. intros n ([n' c] & -> & Hin%elem_of_map_iter)%list_elem_of_fmap. apply Hpl. by exists c. }
  pose proof (count_failures_inv (progress changed m) (map_iter cs) (step changed) m) as Hi.
  destruct (count_failures _ _ _) as [m' k]. apply Hi; clear Hi.
  - exists []. split_and!; [by rewrite app_nil_r|intros _ n c Hin; by apply elem_of_nil in Hin|done].
  - intros dn [n c] rest k' m1 m2 r El Hp Hs. eapply progress_step; [| |exact Hp|exact Hs].
    + eapply sublist_NoDup; [apply (map_iter_NoDup cs)|]. rewrite El, !fmap_app. cbn.
      apply sublist_app; [done|]. constructor. apply sublist_nil_l.
    + rewrite Forall_forall in Hall. apply Forall_forall. intros x Hx. apply Hall. rewrite El, fmap_app.
      rewrite fmap_app in Hx. set_solver.
Qed.

(** The run that ends before the loop. *)
Lemma nothing_done changed m (cfg : option (gmap string HostContainer)) e p : e = Logger ∨ e = ReadConfig p →
  ∃ evs, ran m = ran m ++ evs ∧
    (Err (A := ()) e = Ok tt → ∀ n c, default ∅ cfg !! n = Some c → is_container_affected changed n = true →
       settled n c m ∧ ∃ target, unit_events (unit_name n) evs =
         [(SYSTEMCTL_BIN, ["stop"; unit_name n]); settling n target (default false (enabled c))]) ∧
    (∀ n, plain_name n → (∀ c, default ∅ cfg !! n = Some c → is_container_affected changed n = false) →
       files m !! env_path n = files m !! env_path n ∧ files m !! user_data_path n = files m !! user_data_path n ∧
       unit_events (unit_name n) evs = []) ∧
    (∀ e', Err (A := ()) e = Err e' → e' = Logger ∨ e' = ReadConfig p ∨
       ∃ k, 0 < k ∧ e' = ManageContainersFailed k (size (default (∅ : gmap string HostContainer) cfg))).
Proof. intros He. exists []. rewrite app_nil_r. split_and!; [done..|]. intros e' [= <-]. tauto. Qed.
End facts.

(** C13. A run of host-containers, of which every step may fail. If it succeeds, every
    container that the changed settings affect has its environment file and, if it has
    any, its user data as its settings say, and its unit was stopped and then enabled or
    disabled as the setting says, and nothing else. Whatever comes of it, the files
    of a container that is not affected or not configured are as they were, and its
    unit was not touched; and the run fails only with the number of the containers that
    could not be handled. *)
Theorem host_containers_run `{SerdeJson, HashOrder, MachineOps, CtrLib, HostConfig} args env m m' r text cfg :
  files m !! config_path args = Some text → host_config_of_toml text = Some cfg →
  (∀ n, is_Some (default ∅ cfg !! n) → plain_name n) →
  run args env m = (m', r) →
  let changed := split_whitespace (default EmptyString env) in
  ∃ evs, ran m' = ran m ++ evs ∧
    (r = Ok tt → ∀ n c, default ∅ cfg !! n = Some c → is_container_affected changed n = true →
       settled n c m' ∧ ∃ target, unit_events (unit_name n) evs =
         [(SYSTEMCTL_BIN, ["stop"; unit_name n]); settling n target (default false (enabled c))]) ∧
    (∀ n, plain_name n → (∀ c, default ∅ cfg !! n = Some c → is_container_affected changed n = false) →
       files m' !! env_path n = files m !! env_path n ∧ files m' !! user_data_path n = files m !! user_data_path n ∧
       unit_events (unit_name n) evs = []) ∧
    (∀ e, r = Err e → e = Logger ∨ e = ReadConfig (config_path args) ∨
       ∃ k, 0 < k ∧ e = ManageContainersFailed k (size (default ∅ cfg))).
Proof.
  intros Ht Hcfg Hpl Hr changed. unfold run in Hr.
  assert (Hnone : ∀ e, m' = m → r = Err e → (e = Logger ∨ e = ReadConfig (config_path args)) → _) by
    (intros e -> -> He; exact (nothing_done changed m cfg e (config_path args) He)).
  apply st_bind_inv in Hr as [(e & Hl & ->)|(m1 & [] & ->%io_Ok & Hr)].
  { unfold io in Hl. destruct (io_ok _ _ _); [done|]. injection Hl as <- <-. apply (Hnone Logger); auto. }
  apply st_bind_inv in Hr as [(e & Hl & ->)|(m1 & cs & Hl & Hr)];
    eapply config_read in Hl as [-> [Hl|Hl]]; try exact Ht; try exact Hcfg; try discriminate Hl.
  { injection Hl as ->. apply (Hnone (ReadConfig (config_path args))); auto. }
  injection Hl as ->. cbn [id] in Hr. set (cs := default ∅ cfg) in *.
  pose proof (loop_progress changed m cs Hpl) as Hp.
  destruct (count_failures _ _ _) as [m1 k]. injection Hr as <- <-. destruct Hp as (evs & Hran & Hh & Ho).
  exists evs. split_and!; [done|..].
  - intros Hk%ensure_Ok n c Hc Ha. apply Nat.eqb_eq in Hk. apply Hh; [done| |done]. by apply elem_of_map_iter.
  - intros n Hn Hc. apply Ho; [done|]. intros c Hin%elem_of_map_iter. by apply (Hc c).
  - intros e He. right. right. exists k. destruct (Nat.eqb_spec k 0); cbn in He; [done|]. split; [lia|congruence].
Qed.

Lemma host_containers_run_witness :
  let c := mk_host_container (Some "registry/admin") (Some true) None (Some "data") [] in
  let config := {| host_config_of_toml _ := Some (Some {["admin" := c]}) |} in
  let m := machine_with [(CONFIG_FILE, "")] in
  let ran_ := run (H := example_json) (H0 := example_order) (H1 := example_ops) (H2 := example_ctr_lib) (H3 := config)
    (mk_args "info" CONFIG_FILE) (Some "settings.host-containers.admin.enabled") m in
  ran_.2 = Ok tt ∧ settled (H := example_json) (H2 := example_ctr_lib) "admin" c ran_.1.
Proof.
  intros c config m ran_. assert (Hr : ran_.2 = Ok tt) by (vm_compute; reflexivity). split; [exact Hr|].
  destruct (host_containers_run (H := example_json) (H0 := example_order) (H1 := example_ops) (H2 := example_ctr_lib)
    (H3 := config) (mk_args "info" CONFIG_FILE) (Some "settings.host-containers.admin.enabled") m ran_.1 (Ok tt) EmptyString
    (Some {["admin" := c]})) as (evs & _ & Hs & _); [reflexivity|reflexivity| | |].
  - intros n [c' Hc]. cbn in Hc. apply lookup_singleton_Some in Hc as [<- _]. by apply plain_by_compute.
  - rewrite <-Hr. apply surjective_pairing.
  - apply (Hs eq_refl "admin" c); reflexivity.
Defined.
