(* ===== verification/BootstrapContainers.v ===== *)
(** * bootstrap-containers ([sources/api/bootstrap-containers])

    The program that prepares the units of the bootstrap containers for the next boot, and
    that turns off a container that was to run once.  The facts say what a container that
    was handled leaves, and when [mark-bootstrap] changes the settings. *)
From S2P Require Import Prelude Json KeyMap Chars Filesystem Bloodhound Machine.
From Stdlib Require Import Ascii.
From stdpp Require Import base list strings gmap.
From stdpp Require Import options.

(** ** Definitions *)

Definition ENV_FILE_DIR : string := "/etc/bootstrap-containers".
Definition DROPIN_FILE_DIR : string := "/etc/systemd/system".
Definition PERSISTENT_STORAGE_DIR : string := "/local/bootstrap-containers".
Definition DROP_IN_FILENAME : string := "overrides.conf".
Definition DEFAULT_CONFIG_PATH : string := "/etc/bootstrap-containers/bootstrap-containers.toml".

Record BootstrapContainer := mk_bootstrap_container {
  source : option string;
  mode : option string;
  user_data : option string;
  essential : option bool;
  entrypoint : list string }.

Inductive error :=
| ReadConfig (config_path : string)
| Deserialization (config_path : string)
| Base64Decode (name : string)
| BootstrapModeError
| CommandFailure (bin_path : string)
| ExecutionFailure (program : string) (args : list string)
| Logger
| LogLevel (log_level : string)
| ManageContainersFailed (failed tried : nat)
| MissingField (name field : string)
| Mkdir (dir : string)
| Usage (message : string)
| UserDataWrite (name : string)
| WriteConfigurationFile (path : string)
| SerializeContainerCommand (args : list string).

Definition is_command_failure (e : error) : bool := match e with CommandFailure _ => true | _ => false end.

(** The TOML of the configuration, and the type [BootstrapMode]: its default and the
    texts that it accepts. *)
Class BootstrapConfig := {
  bootstrap_of_toml : string → option (gmap string BootstrapContainer);
  default_mode : string;
  mode_try_from : string → bool }.

Record Args := mk_args { log_level : string; config_path : string }.
Record MarkBootstrapArgs := mk_mark_args { container_id : string; mark_mode : string }.
Inductive Subcommand :=
| CreateContainers
| MarkBootstrap (args : MarkBootstrapArgs).

Section program.
Context `{SerdeJson, HashOrder, MachineOps, CtrLib, BootstrapConfig}.

Abbreviation act A := (stres machine error A).

(** *** Arguments *)

Fixpoint parse_mark_bootstrap_loop (args : list string) (container_id mode : option string)
    : result error (option string * option string) :=
  match args with
  | [] => Ok (container_id, mode)
  | "--container-id" :: args =>
      match args with
      | id :: args => parse_mark_bootstrap_loop args (Some id) mode
      | [] => Err (Usage "Did not give argument to --container-id")
      end
  | "--mode" :: args =>
      match args with
      | m :: args => parse_mark_bootstrap_loop args container_id (Some m)
      | [] => Err (Usage "Did not give argument to --mode")
      end
  | x :: _ => Err (Usage ("Unexpected argument '" +:+ x +:+ "'"))
  end.
Definition parse_mark_bootstrap_args (args : list string) : result error Subcommand :=
  let? found := parse_mark_bootstrap_loop args None None in
  let? container_id := ok_or found.1 (Usage "Did not give argument to --container-id") in
  let? mode := ok_or found.2 (Usage "Did not give argument to --mode") in
  let? _ := ensure (mode_try_from mode) BootstrapModeError in
  Ok (MarkBootstrap (mk_mark_args container_id mode)).

Fixpoint parse_args_loop (args : list string) (global_args : Args) (subcommand : option string) (rest : list string)
    : result error (Args * option string * list string) :=
  match args with
  | [] => Ok (global_args, subcommand, rest)
  | arg :: args =>
      if decide (arg = "--log-level") then
        match args with
        | level :: args =>
            if level_filter level then parse_args_loop args (mk_args level (config_path global_args)) subcommand rest
            else Err (LogLevel level)
        | [] => Err (Usage "Did not give argument to --log-level")
        end
      else if decide (arg ∈ ["-c"; "--config-path"]) then
        match args with
        | path :: args => parse_args_loop args (mk_args (log_level global_args) path) subcommand rest
        | [] => Err (Usage "Did not give argument to --config-path")
        end
      else if decide (arg ∈ ["create-containers"; "mark-bootstrap"] ∧ subcommand = None) then
        parse_args_loop args global_args (Some arg) rest
      else parse_args_loop args global_args subcommand (rest ++ [arg])
  end.
Definition parse_args (args : list string) : result error (Args * Subcommand) :=
  let? parsed := parse_args_loop args (mk_args "info" DEFAULT_CONFIG_PATH) None [] in
  let '(global_args, subcommand, rest) := parsed in
  match subcommand with
  | None => Err (Usage "Missing subcommand")
  | Some s =>
      if decide (s = "create-containers") then Ok (global_args, CreateContainers)
      else if decide (s = "mark-bootstrap") then
        let? sub := parse_mark_bootstrap_args rest in Ok (global_args, sub)
      else Err (Usage ("Unknown subcommand '" +:+ s +:+ "'"))
  end.

(** *** [SystemdUnit] *)

Definition run_command_ (bin_path : string) (args : list string) : act () :=
  let! _ := command ExecutionFailure CommandFailure bin_path args in st_ret tt.
Definition ask (verb unit_ : string) : act bool :=
  systemctl_asks is_command_failure (command ExecutionFailure CommandFailure SYSTEMCTL_BIN [verb; unit_]).
Definition is_enabled : string → act bool := ask "is-enabled".
Definition is_active : string → act bool := ask "is-active".
Definition enable (unit_ : string) : act () := run_command_ SYSTEMCTL_BIN ["enable"; unit_; "--no-reload"].
Definition disable (unit_ : string) : act () := run_command_ SYSTEMCTL_BIN ["disable"; unit_; "--no-reload"].

(** *** Files *)

Definition env_path (name : string) : string := path_join ENV_FILE_DIR (name +:+ ".env").
Definition env_text (source mode command : string) : string :=
  text_of_lines ["CTR_SOURCE=" +:+ source; "CTR_MODE=" +:+ mode; "CTR_COMMAND=" +:+ command].
Definition drop_in_dir (name : string) : string :=
  path_join DROPIN_FILE_DIR ("bootstrap-containers@" +:+ name +:+ ".service.d").
Definition drop_in_path (name : string) : string := path_join (drop_in_dir name) DROP_IN_FILENAME.
Definition drop_in_text (essential : bool) : string :=
  text_of_lines ["[Install]"; (if essential then "RequiredBy" else "WantedBy") +:+ "=configured.target"].

Definition write_config_files (name source mode : string) (essential : bool) (command : string) : act () :=
  let! _ := fs_write_file (env_path name) (env_text source mode command) (WriteConfigurationFile (env_path name)) in
  let! _ := fs_create_dir_all (drop_in_dir name) (Mkdir (drop_in_dir name)) in
  fs_write_file (drop_in_path name) (drop_in_text essential) (WriteConfigurationFile (drop_in_path name)).

(** *** One container *)

Definition storage_dir (name : string) : string := path_join PERSISTENT_STORAGE_DIR name.
Definition user_data_path (name : string) : string := path_join (storage_dir name) "user-data".
Definition unit_name (name : string) : string := "bootstrap-containers@" +:+ name +:+ ".service".

Definition clean_up (name : string) : act () :=
  run_command_ HOST_CTR_BIN ["clean-up"; "--container-id"; "boot." +:+ name].

Definition write_user_data (name : string) (container_details : BootstrapContainer) : act () :=
  match user_data container_details with
  | Some data =>
      let! decoded_bytes := st_lift (ok_or (b64_decode data) (Base64Decode name)) in
      fs_write_file (user_data_path name) decoded_bytes (UserDataWrite name)
  | None => st_ret tt
  end.

Definition handle_bootstrap_container (name : string) (container_details : BootstrapContainer) : act () :=
  let! source := st_lift (ok_or (source container_details) (MissingField name "source")) in
  let mode := default default_mode (mode container_details) in
  let essential := default false (essential container_details) in
  let! command := st_lift (map_err (λ _, SerializeContainerCommand (entrypoint container_details))
                    (json_to_string (JArray (JString <$> entrypoint container_details)))) in
  let! _ := fs_create_dir_all (storage_dir name) (Mkdir (storage_dir name)) in
  let! _ := write_user_data name container_details in
  let! _ := write_config_files name source mode essential command in
  if decide (mode = "off") then
    let! _ := disable (unit_name name) in
    let! active := is_active "host-containerd.service" in
    if (active : bool) then clean_up name else st_ret tt
  else
    let! active := is_active "host-containerd.service" in
    let! stale := (if (active : bool) then
                     let! enabled := is_enabled (unit_name name) in st_ret (negb enabled)
                   else st_ret false) in
    let! _ := (if (stale : bool) then clean_up name else st_ret tt) in
    enable (unit_name name).

(** *** The run *)

Definition get_bootstrap_containers (config_path : string) : act (gmap string BootstrapContainer) :=
  let! config_str := fs_read_to_string config_path (ReadConfig config_path) in
  st_lift (ok_or (bootstrap_of_toml config_str) (Deserialization config_path)).

Definition create_containers (config_path : string) : act () :=
  let! bootstrap_containers := get_bootstrap_containers config_path in
  λ m,
    let '(m, failed) :=
      count_failures (map_iter bootstrap_containers) (λ entry, handle_bootstrap_container entry.1 entry.2) m in
    (m, ensure (failed =? 0)%nat (ManageContainersFailed failed (size bootstrap_containers))).

Definition mark_bootstrap (args : MarkBootstrapArgs) : act () :=
  if decide (mark_mode args = "always") then st_ret tt
  else run_command_ "apiclient" ["set"; "settings.bootstrap-containers." +:+ container_id args +:+ ".mode=off"].

Definition run (args : list string) : act () :=
  let! parsed := st_lift (parse_args args) in
  let '(args, subcommand) := parsed in
  let! _ := io InitLogger EmptyString id Logger in
  match subcommand with
  | CreateContainers => create_containers (config_path args)
  | MarkBootstrap args => mark_bootstrap args
  end.

(** The exit status. *)
Definition main (args : list string) (m : machine) : machine * Z :=
  let '(m, r) := run args m in (m, if is_ok r then 0%Z else 1%Z).
End program.

(** ** Facts *)

Section facts.
Context `{SerdeJson, HashOrder, MachineOps, CtrLib, BootstrapConfig}.

Lemma run_Ok bin args m m' : run_command_ bin args m = (m', Ok tt) → m' = note_ran (bin, args) m.
Proof. by intros (? & ? & ->%command_Ok & [= <-])%st_bind_Ok. Qed.

Lemma ask_state verb u m m' b : ask verb u m = (m', Ok b) → m' = note_ran (SYSTEMCTL_BIN, [verb; u]) m.
Proof.
  intros Ha. assert (E : (ask verb u m).1 = m') by (by rewrite Ha). rewrite <-E. unfold ask.
  rewrite systemctl_asks_state. apply command_ran.
Qed.

Lemma boot_user_data_done n c m m' : write_user_data n c m = (m', Ok tt) →
  ran m' = ran m ∧ ∀ data, user_data c = Some data →
    ∃ bytes, b64_decode data = Some bytes ∧ files m' !! user_data_path n = Some bytes.
Proof.
  unfold write_user_data. destruct (user_data c) as [data|]; [|intros [= <-]; by split].
  intros (? & bytes & [-> Hb%ok_or_Ok]%st_lift_Ok & ->%fs_write_file_Ok)%st_bind_Ok. split; [done|].
  intros ? [= <-]. exists bytes. split; [done|]. apply lookup_insert_eq.
Qed.

(** A container that was handled: its files are as its settings say, and its unit is
    disabled first of all if it is off, and otherwise enabled last of all. *)
Lemma handled_container n c m m' : handle_bootstrap_container n c m = (m', Ok tt) →
  ∃ s cmd evs, source c = Some s ∧ json_to_string (JArray (JString <$> entrypoint c)) = Ok cmd ∧
    files m' !! drop_in_path n = Some (drop_in_text (default false (essential c))) ∧
    (env_path n ≠ drop_in_path n → files m' !! env_path n = Some (env_text s (default default_mode (mode c)) cmd)) ∧
    ran m' = ran m ++ evs ∧
    (if decide (default default_mode (mode c) = "off") then
       head evs = Some (SYSTEMCTL_BIN, ["disable"; unit_name n; "--no-reload"])
     else last evs = Some (SYSTEMCTL_BIN, ["enable"; unit_name n; "--no-reload"])).
Proof.
  intros Hh. unfold handle_bootstrap_container in Hh. cbv zeta in Hh.
  apply st_bind_Ok in Hh as (? & s & [-> Hs%ok_or_Ok]%st_lift_Ok & Hh).
  apply st_bind_Ok in Hh as (? & cmd & [-> Hc%map_err_Ok]%st_lift_Ok & Hh).
  apply st_bind_Ok in Hh as (? & [] & ->%io_Ok & Hh).
  apply st_bind_Ok in Hh as (m1 & [] & [Hur _]%boot_user_data_done & Hh).
  apply st_bind_Ok in Hh as (m2 & [] & Hw & Hh). unfold write_config_files in Hw.
  apply st_bind_Ok in Hw as (? & [] & ->%fs_write_file_Ok & Hw). apply st_bind_Ok in Hw as (? & [] & ->%io_Ok & ->%fs_write_file_Ok).
  assert (Hfiles : ∀ m3, files m3 = files (set_file (drop_in_path n) (drop_in_text (default false (essential c)))
      (add_dir (drop_in_dir n) (set_file (env_path n) (env_text s (default default_mode (mode c)) cmd) m1))) →
    files m3 !! drop_in_path n = Some (drop_in_text (default false (essential c))) ∧
    (env_path n ≠ drop_in_path n → files m3 !! env_path n = Some (env_text s (default default_mode (mode c)) cmd))).
  { intros m3 ->. cbn. split; [apply lookup_insert_eq|]. intros Hne.
    by rewrite lookup_insert_ne, lookup_insert_eq. }
  exists s, cmd. case_decide as Hm.
  - apply st_bind_Ok in Hh as (? & [] & ->%run_Ok & Hh). apply st_bind_Ok in Hh as (? & b & ->%ask_state & Hh).
    destruct b; [apply run_Ok in Hh as ->|injection Hh as <-]; eexists; (split_and!; [done..|by apply Hfiles|by apply Hfiles| |]);
      cbn; rewrite ?Hur, <-?app_assoc; done.
  - apply st_bind_Ok in Hh as (? & b & ->%ask_state & Hh). apply st_bind_Ok in Hh as (? & stale & Hst & Hh).
    apply st_bind_Ok in Hh as (? & [] & Hcl & ->%run_Ok).
    assert (Hst' : ∃ e1, files x = files (note_ran (SYSTEMCTL_BIN, ["is-active"; "host-containerd.service"])
      (set_file (drop_in_path n) (drop_in_text (default false (essential c)))
      (add_dir (drop_in_dir n) (set_file (env_path n) (env_text s (default default_mode (mode c)) cmd) m1)))) ∧ ran x = ran m ++ e1).
    { destruct b; [apply st_bind_Ok in Hst as (? & e & ->%ask_state & [= <- <-])|injection Hst as <- <-];
        eexists; (split; [done|]); cbn; rewrite Hur, <-?app_assoc; done. }
    destruct Hst' as (e1 & Hf1 & Hr1).
    assert (Hcl' : ∃ e2, files x0 = files x ∧ ran x0 = ran x ++ e2).
    { destruct stale; [apply run_Ok in Hcl as ->; by eexists|injection Hcl as <-; exists []; by rewrite app_nil_r]. }
    destruct Hcl' as (e2 & Hf2 & Hr2).
    exists (e1 ++ e2 ++ [(SYSTEMCTL_BIN, ["enable"; unit_name n; "--no-reload"])]).
    split_and!; [done..|apply Hfiles; cbn; by rewrite Hf2, Hf1|apply Hfiles; cbn; by rewrite Hf2, Hf1| |].
    + cbn. by rewrite Hr2, Hr1, <-!app_assoc.
    + by rewrite app_assoc, last_snoc.
Qed.

(** [mark-bootstrap] changes the settings of a container unless it always runs; it asks
    for nothing else. *)
Lemma mark_bootstrap_spec args m :
  ran (mark_bootstrap args m).1 = ran m ++
    if decide (mark_mode args = "always") then []
    else [("apiclient", ["set"; "settings.bootstrap-containers." +:+ container_id args +:+ ".mode=off"])].
Proof.
  unfold mark_bootstrap. case_decide; [by rewrite app_nil_r|]. unfold run_command_, st_bind.
  pose proof (command_ran (E := error) ExecutionFailure CommandFailure "apiclient"
    ["set"; "settings.bootstrap-containers." +:+ container_id args +:+ ".mode=off"] m) as Hr.
  destruct (command _ _ _ _ m) as [m' []]; cbn in Hr |- *; by subst.
Qed.
End facts.
