(* ===== verification/BootstrapCommands.v ===== *)
(** * bootstrap-commands ([sources/bootstrap-commands])

    The program that runs the bootstrap commands of the settings at boot, in the order of
    their names, each as a sequence of API commands, and that turns off those that were
    to run once.  The theorem says which commands a run issues, in which order, and what
    it means that it succeeds. *)
From S2P Require Import Prelude Json KeyMap BTree Chars Filesystem Bloodhound Machine.
From Stdlib Require Import Ascii.
From stdpp Require Import base list strings gmap sorting.
From stdpp Require Import options.

(** ** Definitions *)

Definition DEFAULT_CONFIG_PATH : string := "/etc/bootstrap-commands/bootstrap-commands.toml".

(** [ApiclientCommand] is a parameter, and what [get_command_and_args] gives for it. *)
Class BootstrapCommandLib := {
  ApiclientCommand : Type;
  get_command_and_args : ApiclientCommand → string * list string }.

Section data.
Context `{BootstrapCommandLib}.
Record BootstrapCommand := mk_bootstrap_command {
  commands : list ApiclientCommand;
  mode : string;
  essential : bool }.
End data.

(** The entries of the TOML table, in its order. *)
Class CommandsConfig `{BootstrapCommandLib} := {
  commands_of_toml : string → option (list (string * BootstrapCommand)) }.

Inductive error :=
| ReadConfig (config_path : string)
| Deserialization (config_path : string)
| BootstrapCommandExecution (name : string)
| ExecutionFailure (program : string) (args : list string)
| CommandFailure (bin_path : string)
| Logger
| LogLevel (log_level : string)
| Usage (message : string).

Record Args := mk_args { log_level : string; config_path : string }.

Section program.
Context `{MachineOps, CtrLib, CommandsConfig}.

Abbreviation act A := (stres machine error A).

Definition run_command (bin_path : string) (args : list string) : act () :=
  let! _ := command ExecutionFailure CommandFailure bin_path args in st_ret tt.

Definition off_setting (name : string) : string := "settings.bootstrap-commands." +:+ name +:+ ".mode=off".

Definition handle_bootstrap_command (name : string) (bootstrap_command : BootstrapCommand) : act () :=
  if decide (mode bootstrap_command = "off") then st_ret tt
  else
    let! _ := st_forM (commands bootstrap_command)
                (λ c, let '(cmd, args) := get_command_and_args c in run_command cmd args) in
    if decide (mode bootstrap_command = "once") then run_command "apiclient" ["set"; off_setting name]
    else st_ret tt.

(** The commands of the configuration, in a [BTreeMap]. *)
Definition get_bootstrap_commands (config_path : string) : act (list (string * BootstrapCommand)) :=
  let! config_str := fs_read_to_string config_path (ReadConfig config_path) in
  let! entries := st_lift (ok_or (commands_of_toml config_str) (Deserialization config_path)) in
  st_ret (foldl (λ m kv, bt_insert kv.1 kv.2 m) [] entries).

Fixpoint parse_args_loop (args : list string) (global_args : Args) : result error Args :=
  match args with
  | [] => Ok global_args
  | arg :: args =>
      if decide (arg = "--log-level") then
        match args with
        | level :: args =>
            if level_filter level then parse_args_loop args (mk_args level (config_path global_args))
            else Err (LogLevel level)
        | [] => Err (Usage "Did not give argument to --log-level")
        end
      else if decide (arg ∈ ["-c"; "--config-path"]) then
        match args with
        | path :: args => parse_args_loop args (mk_args (log_level global_args) path)
        | [] => Err (Usage "Did not give argument to --config-path")
        end
      else parse_args_loop args global_args
  end.
Definition parse_args (args : list string) : result error Args :=
  parse_args_loop args (mk_args "info" DEFAULT_CONFIG_PATH).

(** The body of the loop over the commands. *)
Definition run_entry (entry : string * BootstrapCommand) : act () := λ m,
  let '(m, result) := handle_bootstrap_command entry.1 entry.2 m in
  (m, ensure (negb (essential entry.2) || is_ok result) (BootstrapCommandExecution entry.1)).

Definition run (args : list string) : act () :=
  let! args := st_lift (parse_args args) in
  let! _ := io InitLogger EmptyString id Logger in
  let! bootstrap_commands := get_bootstrap_commands (config_path args) in
  st_forM bootstrap_commands run_entry.

(** The exit status. *)
Definition main (args : list string) (m : machine) : machine * Z :=
  let '(m, r) := run args m in (m, if is_ok r then 0%Z else 1%Z).

(** *** What a run is to issue *)

(** All commands of an entry, then the change of its mode if it is to run once. *)
Definition all_events (entry : string * BootstrapCommand) : list event :=
  if decide (mode entry.2 = "off") then []
  else (get_command_and_args <$> commands entry.2) ++
       (if decide (mode entry.2 = "once") then [("apiclient", ["set"; off_setting entry.1])] else []).
End program.

Abbreviation entry := (string * BootstrapCommand)%type.

(** The machine after commands that were issued: nothing else changes. *)
Definition after (m : machine) (evs : list event) : machine :=
  mk_machine (files m) (dirs m) (dir_modes m) (ran m ++ evs).
Definition succeeds `{MachineOps} (e : event) (m : machine) : bool :=
  match outcome e.1 e.2 m with Some (b, _) => b | None => false end.

(** [evs] is what is issued of the commands [all] when the first failure ends them: a
    prefix of them, in which each command worked but the last one of a prefix that ended
    in failure; all of them unless one failed. *)
Record issued `{MachineOps} (m : machine) (all evs : list event) (ok : bool) : Prop := {
  issued_prefix : evs `prefix_of` all;
  issued_success i e : evs !! i = Some e →
    (succeeds e (after m (take i evs)) = true ↔ S i < length evs ∨ ok = true);
  issued_all : ok = true → evs = all;
  issued_failed : ok = false → evs ≠ [] }.

(** Entry by entry: what is issued for it, and that only the failure of an essential
    entry ends the run. *)
Inductive entries_run `{MachineOps, BootstrapCommandLib} : machine → list entry → machine → result error () → Prop :=
| no_more m : entries_run m [] m (Ok tt)
| next_entry m e entries evs ok m' r :
    issued m (all_events e) evs ok → (essential e.2 = true → ok = true) →
    entries_run (after m evs) entries m' r → entries_run m (e :: entries) m' r
| essential_failed m e entries evs :
    issued m (all_events e) evs false → essential e.2 = true →
    entries_run m (e :: entries) (after m evs) (Err (BootstrapCommandExecution e.1)).

(** The entries of a table in the order of their names; a name that occurs again
    replaces the one before. *)
Definition by_name `{BootstrapCommandLib} (l entries : list entry) : Prop :=
  StronglySorted (λ a b : entry, olt a.1 b.1) entries ∧
  ∀ e, e ∈ entries ↔ last (filter (λ e', e'.1 = e.1) l) = Some e.

(** A run that does not get to its entries has issued nothing and says why. *)
Definition not_configured `{CtrLib, CommandsConfig} (args : list string) (m : machine) (e : error) : Prop :=
  parse_args args = Err e ∨
  ∃ a, parse_args args = Ok a ∧
    (e = Logger ∨ e = ReadConfig (config_path a) ∨
     e = Deserialization (config_path a) ∧
       ∃ text, files m !! config_path a = Some text ∧ commands_of_toml text = None).

(** ** Facts *)

Section facts.
Context `{MachineOps, CtrLib, CommandsConfig}.

Lemma run_command_ran bin args m : (run_command bin args m).1 = note_ran (bin, args) m.
Proof.
  unfold run_command, st_bind. pose proof (command_ran (E := error) ExecutionFailure CommandFailure bin args m) as Hr.
  by destruct (command _ _ _ _ m) as [m' []].
Qed.

Lemma run_command_result bin args m : is_ok (run_command bin args m).2 = succeeds (bin, args) m.
Proof.
  unfold run_command, st_bind, command, succeeds. cbn. by destruct (outcome bin args m) as [[[] ?]|].
Qed.

Lemma after_app m evs evs' : after (after m evs) evs' = after m (evs ++ evs').
Proof. unfold after. cbn. by rewrite app_assoc. Qed.

Lemma after_nil m : after m [] = m.
Proof. unfold after. rewrite app_nil_r. by destruct m. Qed.

Lemma issued_nil m : issued m [] [] true.
Proof. by split. Qed.

Lemma issued_fail m e all : succeeds e m = false → issued m (e :: all) [e] false.
Proof.
  intros He. split; [by exists all| |done|done]. intros [|i] x; [|done]. intros [= <-]. cbn.
  rewrite after_nil, He. split; [done|intros [?|?]; [lia|done]].
Qed.

Lemma issued_cons m e all evs ok :
  succeeds e m = true → issued (after m [e]) all evs ok → issued m (e :: all) (e :: evs) ok.
Proof.
  intros He [Hp Hs Ha Hf]. split; [by apply prefix_cons| |intros; f_equal; auto|done].
  intros [|i] x; cbn; [intros [= <-]|intros Hx].
  - rewrite after_nil, He. split; [intros _|done]. destruct ok; [by right|]. left.
    destruct evs; [by destruct Hf|cbn; lia].
  - specialize (Hs i x Hx). rewrite after_app in Hs. rewrite Hs. split; (intros [?|?]; [left; lia|by right]).
Qed.

Lemma issued_then m l1 l2 evs ok :
  issued m l1 l1 true → issued (after m l1) l2 evs ok → issued m (l1 ++ l2) (l1 ++ evs) ok.
Proof.
  revert m. induction l1 as [|e l1 IH]; intros m Hl Hi; [by rewrite after_nil in Hi|].
  assert (He : succeeds e m = true).
  { rewrite <-(after_nil m). apply (issued_success _ _ _ _ Hl 0 e eq_refl). by right. }
  apply issued_cons; [done|]. apply IH; [|by rewrite after_app].
  split; [done| |done|done]. intros i x Hx. rewrite after_app.
  rewrite (issued_success _ _ _ _ Hl (S i) x Hx : succeeds x (after m ([e] ++ take i l1)) = true ↔ _).
  cbn. split; (intros [?|?]; [left; lia|by right]).
Qed.

Lemma issued_stop m l1 l2 evs : issued m l1 evs false → issued m (l1 ++ l2) evs false.
Proof. intros [Hp Hs Ha Hf]. split; [by apply prefix_app_r|done|done|done]. Qed.

Lemma commands_issued cs m m' r :
  st_forM cs (λ c, let '(cmd, args) := get_command_and_args c in run_command cmd args) m = (m', r) →
  ∃ evs, m' = after m evs ∧ issued m (get_command_and_args <$> cs) evs (is_ok r).
Proof.
  revert m. induction cs as [|c cs IH]; intros m; cbn [st_forM].
  { intros [= <- <-]. exists []. split; [by rewrite after_nil|apply issued_nil]. }
  cbn [fmap list_fmap]. destruct (get_command_and_args c) as [cmd args].
  pose proof (run_command_ran cmd args m) as Hm. pose proof (run_command_result cmd args m) as Hr.
  intros [(e & Hc & ->)|(m1 & [] & Hc & Hrest)]%st_bind_inv; rewrite Hc in Hm, Hr; cbn in Hm, Hr; subst.
  - exists [(cmd, args)]. split; [done|]. by apply issued_fail.
  - destruct (IH _ Hrest) as (evs & -> & Hi). exists ((cmd, args) :: evs).
    change (note_ran (cmd, args) m) with (after m [(cmd, args)]) in *. rewrite after_app. split; [done|].
    by apply issued_cons.
Qed.

Lemma handle_issued (e : entry) m m' r : handle_bootstrap_command e.1 e.2 m = (m', r) →
  ∃ evs, m' = after m evs ∧ issued m (all_events e) evs (is_ok r).
Proof.
  unfold handle_bootstrap_command, all_events. case_decide as Hoff.
  { intros [= <- <-]. exists []. split; [by rewrite after_nil|apply issued_nil]. }
  intros [(x & Hc & ->)|(m1 & [] & Hc & Hrest)]%st_bind_inv;
    destruct (commands_issued _ _ _ _ Hc) as (evs & -> & Hi); cbn in Hi.
  { exists evs. split; [done|]. by apply issued_stop. }
  pose proof (issued_all _ _ _ _ Hi eq_refl) as ->. case_decide as Honce.
  - set (off := ("apiclient", ["set"; off_setting e.1])).
    pose proof (run_command_ran "apiclient" ["set"; off_setting e.1] (after m (get_command_and_args <$> commands e.2))) as Hm.
    pose proof (run_command_result "apiclient" ["set"; off_setting e.1] (after m (get_command_and_args <$> commands e.2))) as Hr.
    rewrite Hrest in Hm, Hr. cbn in Hm, Hr. exists ((get_command_and_args <$> commands e.2) ++ [off]).
    split; [rewrite <-after_app; exact Hm|]. apply issued_then; [done|].
    destruct r as [[]|x]; [|by apply issued_fail]. apply issued_cons; [done|apply issued_nil].
  - injection Hrest as <- <-. rewrite app_nil_r. by eexists.
Qed.

Lemma entries_run_spec entries m m' r : st_forM entries run_entry m = (m', r) → entries_run m entries m' r.
Proof.
  revert m. induction entries as [|e entries IH]; intros m; cbn [st_forM].
  { intros [= <- <-]. constructor. }
  destruct (run_entry e m) as [m1 r1] eqn:E1. unfold st_bind at 1. rewrite E1. unfold run_entry in E1.
  destruct (handle_bootstrap_command e.1 e.2 m) as [m2 r2] eqn:E2. injection E1 as <- <-.
  destruct (handle_issued _ _ _ _ E2) as (evs & -> & Hi).
  destruct (essential e.2) eqn:Ee, r2 as [[]|x]; cbn; intros Hrest;
    try (by eapply next_entry; [exact Hi|cbn; congruence|by apply IH]).
  injection Hrest as <- <-. by apply essential_failed.
Qed.

Lemma config_entries p m m' r :
  (let! config_str := fs_read_to_string p (ReadConfig p) in
   let! entries := st_lift (ok_or (commands_of_toml config_str) (Deserialization p)) in
   st_ret (foldl (λ m kv, bt_insert kv.1 kv.2 m) [] entries)) m = (m', r) →
  m' = m ∧ match r with
           | Ok entries => ∃ text l, files m !! p = Some text ∧ commands_of_toml text = Some l ∧
               entries = foldl (λ m kv, bt_insert kv.1 kv.2 m) [] l
           | Err e => e = ReadConfig p ∨
               e = Deserialization p ∧ ∃ text, files m !! p = Some text ∧ commands_of_toml text = None
           end.
Proof.
  unfold st_bind, fs_read_to_string, st_lift, st_ret. destruct (files m !! p) as [text|] eqn:Ef; [|intros [= <- <-]; auto].
  destruct (io_ok _ _ _ && _); [|intros [= <- <-]; auto].
  destruct (commands_of_toml text) as [l|] eqn:El; intros [= <- <-]; split; try done; [by exists text, l|right; by eauto].
Qed.

End facts.

(** C14. A run of bootstrap-commands, of which every command may fail, either does not
    get to its entries, because of its arguments, its logger or its configuration, and
    then issues nothing; or takes the entries of the configuration in the order of their
    names.  For each of them it issues the entry's commands in their order up to the
    first that fails, and, if the entry is to run once and all of them worked, the change
    of its mode to off; for an entry that is off nothing.  A failure in an essential entry
    ends the run with the error that names it, any other is passed over; the run succeeds
    exactly when all essential entries worked.  Nothing but the commands is done. *)
Theorem bootstrap_commands_ordered `{MachineOps, CtrLib, CommandsConfig} args m m' r :
  run args m = (m', r) →
  (∃ e, r = Err e ∧ m' = m ∧ not_configured args m e) ∨
  ∃ a text l entries, parse_args args = Ok a ∧ files m !! config_path a = Some text ∧
    commands_of_toml text = Some l ∧ by_name l entries ∧ entries_run m entries m' r.
Proof.
  unfold run, get_bootstrap_commands. intros [(e & He & ->)|(m1 & a & Ha & Hr)]%st_bind_inv.
  { left. exists e. unfold st_lift in He. injection He as <- He. split_and!; [done..|by left]. }
  apply st_lift_Ok in Ha as [-> Ha].
  apply st_bind_inv in Hr as [(e & He & ->)|(m1 & [] & ->%io_Ok & Hr)].
  { left. exists e. unfold io in He. destruct (io_ok _ _ _); [done|]. injection He as <- <-.
    split_and!; [done..|]. right. exists a. auto. }
  apply st_bind_inv in Hr as [(e & He & ->)|(m1 & entries & He & Hr)]; cbn [id] in He;
    apply config_entries in He as [-> He].
  - left. exists e. split_and!; [done..|]. right. exists a. split; [done|]. naive_solver.
  - right. destruct He as (text & l & Ht & Hl & ->). exists a, text, l. eexists.
    split_and!; [done..|apply bt_collect_spec|by apply entries_run_spec].
Qed.

Lemma bootstrap_commands_ordered_witness :
  let lib := {| ApiclientCommand := string; get_command_and_args c := ("apiclient", [c]) |} in
  let config := {| commands_of_toml _ := Some [("002", mk_bootstrap_command (H := lib) ["b"] "always" false);
    ("001", mk_bootstrap_command (H := lib) ["a"] "once" true)] |} in
  let m := machine_with [(DEFAULT_CONFIG_PATH, "")] in
  let ran_ := run (H := example_ops) (H0 := example_ctr_lib) (H2 := config) [] m in
  ran ran_.1 = [("apiclient", ["a"]); ("apiclient", ["set"; "settings.bootstrap-commands.001.mode=off"]); ("apiclient", ["b"])] ∧
  ∃ l entries, by_name (H := lib) l entries ∧ entries_run (H := example_ops) (H0 := lib) m entries ran_.1 ran_.2.
Proof.
  intros lib config m ran_. split; [vm_compute; reflexivity|].
  destruct (bootstrap_commands_ordered (H := example_ops) (H0 := example_ctr_lib) (H2 := config) [] m ran_.1 ran_.2)
    as [(e & He & _)|(a & text & l & entries & _ & _ & _ & Hb & Hr)].
  - apply surjective_pairing.
  - by vm_compute in He.
  - by exists l, entries.
Defined.
