(* ===== verification/StaticPods.v ===== *)
(** * static-pods ([sources/static-pods])

    The program that writes the manifests of the enabled static pods where kubelet reads
    them and removes those of disabled ones.  A manifest goes to a temporary file that
    replaces the old one at once; the temporary file has a name of its own and is a value
    here.  The theorem says what a run leaves in the directory. *)
From S2P Require Import Prelude Json KeyMap Chars Filesystem Bloodhound Machine.
From Stdlib Require Import Ascii.
From stdpp Require Import base list strings gmap.
From stdpp Require Import options.

(** ** Definitions *)

Definition DEFAULT_CONFIG_PATH : string := "/etc/kubernetes/static-pods-manifest.toml".
Definition STATIC_POD_DIR : string := "/etc/kubernetes/static-pods".
Definition ETC_KUBE_DIR : string := "/etc/kubernetes".

Record StaticPod := mk_static_pod {
  enabled : option bool;
  manifest : option string }.

Inductive error :=
| Usage (message : string)
| ReadConfig (path : string)
| Deserialization (path : string)
| MissingField (name field : string)
| ManageStaticPodsFailed (failed tried : nat)
| Logger
| Base64Decode (name : string)
| Mkdir (dir : string)
| ManifestWrite (name : string)
| ManifestDelete (name : string)
| CreateTempdir
| CreateTempfile
| PersistPodManifest (path : string).

(** The TOML of the configuration, and how much of a buffer one [write] takes. *)
Class PodConfig := {
  pods_of_toml : string → option (option (gmap string StaticPod));
  write_count : string → machine → nat }.

Record Args := mk_args { log_level : string; config_path : string }.

Section program.
Context `{HashOrder, MachineOps, CtrLib, PodConfig}.

Abbreviation act A := (stres machine error A).

Definition get_static_pods (config_path : string) : act (option (gmap string StaticPod)) :=
  let! config_str := fs_read_to_string config_path (ReadConfig config_path) in
  st_lift (ok_or (pods_of_toml config_str) (Deserialization config_path)).

Definition target_path (name : string) : string := path_join STATIC_POD_DIR name.

(** [Write::write], once: what is in the temporary file then. *)
Definition write_temp (name manifest : string) : act string := λ m,
  if io_ok WriteFile EmptyString m then (m, Ok (str_take (Nat.min (write_count manifest m) (str_len manifest)) manifest))
  else (m, Err (ManifestWrite name)).

Definition write_manifest_file (name manifest : string) : act () :=
  let! _ := fs_create_dir_all STATIC_POD_DIR (Mkdir STATIC_POD_DIR) in
  let! _ := io TempDir ETC_KUBE_DIR id CreateTempdir in
  let! _ := io TempFile EmptyString id CreateTempfile in
  let! content := write_temp name manifest in
  io Persist (target_path name) (set_file (target_path name) content) (PersistPodManifest (target_path name)).

Definition delete_manifest_file (name : string) : act () := λ m,
  match files m !! target_path name with
  | Some _ => io RemoveFile (target_path name) (unset_file (target_path name)) (ManifestDelete name) m
  | None => (m, Ok tt)
  end.

Definition handle_static_pod (name : string) (pod_info : StaticPod) : act () :=
  let! enabled := st_lift (ok_or (enabled pod_info) (MissingField name "enabled")) in
  if (enabled : bool) then
    let! manifest := st_lift (ok_or (manifest pod_info) (MissingField name "manifest")) in
    let! manifest := st_lift (ok_or (b64_decode manifest) (Base64Decode name)) in
    write_manifest_file name manifest
  else delete_manifest_file name.

Fixpoint parse_args_loop (args : list string) (log_level config_path : option string) : result error Args :=
  match args with
  | [] => Ok (mk_args (default "info" log_level) (default DEFAULT_CONFIG_PATH config_path))
  | "--log-level" :: args =>
      match args with
      | level :: args =>
          if level_filter level then parse_args_loop args (Some level) config_path
          else Err (Usage ("Invalid log level '" +:+ level +:+ "'"))
      | [] => Err (Usage "Did not give argument to --log-level")
      end
  | "--config-path" :: args =>
      match args with
      | path :: args => parse_args_loop args log_level (Some path)
      | [] => Err (Usage "Did not give argument to --config-path")
      end
  | _ => Err (Usage "unexpected argument")
  end.
Definition parse_args (args : list string) : result error Args := parse_args_loop args None None.

(** The part of [run] after the arguments and the logger. *)
Definition sync_pods (config_path : string) : act () :=
  let! pods := get_static_pods config_path in
  match pods with
  | Some static_pods => λ m,
      let '(m, failed) := count_failures (map_iter static_pods) (λ entry, handle_static_pod entry.1 entry.2) m in
      (m, ensure (failed =? 0)%nat (ManageStaticPodsFailed failed (size static_pods)))
  | None => st_ret tt
  end.
Definition run (args : list string) : act () :=
  let! args := st_lift (parse_args args) in
  let! _ := io InitLogger EmptyString id Logger in
  sync_pods (config_path args).

Definition is_usage (e : error) : bool := match e with Usage _ => true | _ => false end.
Definition main (args : list string) (m : machine) : machine * Z :=
  match run args m with
  | (m, Ok _) => (m, 0%Z)
  | (m, Err e) => (m, if is_usage e then 2%Z else 1%Z)
  end.
End program.

(** ** Facts *)

Section facts.
Context `{HashOrder, MachineOps, CtrLib, PodConfig}.
Implicit Types (n : string) (pod : StaticPod) (m : machine).

(** What a handled pod leaves in its place: the part of its manifest that one write took,
    or nothing. *)
Definition in_place n pod m : Prop :=
  match enabled pod with
  | Some true => ∃ data bytes m0, manifest pod = Some data ∧ b64_decode data = Some bytes ∧
      files m !! target_path n = Some (str_take (Nat.min (write_count bytes m0) (str_len bytes)) bytes)
  | Some false => files m !! target_path n = None
  | None => False
  end.

(** What the settings say: the whole manifest of an enabled pod, no file for a disabled one. *)
Definition as_settings n pod m : Prop :=
  match enabled pod with
  | Some true => ∃ data bytes, manifest pod = Some data ∧ b64_decode data = Some bytes ∧
      files m !! target_path n = Some bytes
  | Some false => files m !! target_path n = None
  | None => False
  end.

Lemma str_take_all s : str_take (str_len s) s = s.
Proof. pose proof (str_take_app s EmptyString) as E. by rewrite str_app_nil_r in E. Qed.

(** When a write takes all that it is given, the manifest is complete. *)
Lemma in_place_complete n pod m : (∀ s m0, str_len s ≤ write_count s m0) → in_place n pod m → as_settings n pod m.
Proof.
  intros Hall. unfold in_place, as_settings. destruct (enabled pod) as [[]|]; [|done..].
  intros (data & bytes & m0 & Hd & Hb & Hf). exists data, bytes.
  rewrite Nat.min_r, str_take_all in Hf by apply Hall. done.
Qed.

Lemma write_manifest_done n bytes m m' : write_manifest_file n bytes m = (m', Ok tt) →
  ∃ m0, files m' = <[target_path n := str_take (Nat.min (write_count bytes m0) (str_len bytes)) bytes]> (files m).
Proof.
  intros Hw. unfold write_manifest_file in Hw.
  apply st_bind_Ok in Hw as (? & [] & ->%io_Ok & Hw). apply st_bind_Ok in Hw as (? & [] & ->%io_Ok & Hw).
  apply st_bind_Ok in Hw as (? & [] & ->%io_Ok & Hw). apply st_bind_Ok in Hw as (m1 & content & Hc & ->%io_Ok).
  unfold write_temp in Hc. destruct (io_ok _ _ _); [|done]. injection Hc as <- <-. cbn. by eexists.
Qed.

Lemma handle_in_place n pod m m' : handle_static_pod n pod m = (m', Ok tt) → in_place n pod m'.
Proof.
  intros Hh. unfold handle_static_pod in Hh. apply st_bind_Ok in Hh as (? & b & [-> Hb%ok_or_Ok]%st_lift_Ok & Hh).
  unfold in_place. rewrite Hb. destruct b.
  - apply st_bind_Ok in Hh as (? & data & [-> Hd%ok_or_Ok]%st_lift_Ok & Hh).
    apply st_bind_Ok in Hh as (? & bytes & [-> Hby%ok_or_Ok]%st_lift_Ok & Hh).
    apply write_manifest_done in Hh as (m0 & Hf). exists data, bytes, m0. by rewrite Hf, lookup_insert_eq.
  - unfold delete_manifest_file in Hh. destruct (files m !! target_path n) eqn:E.
    + apply io_Ok in Hh as ->. apply lookup_delete_eq.
    + by injection Hh as <-.
Qed.

(** A pod's turn changes nothing but its own file, and that only as a whole. *)
Lemma handle_only n pod m : let m' := (handle_static_pod n pod m).1 in
  (∀ p, p ≠ target_path n → files m' !! p = files m !! p) ∧
  (files m' !! target_path n = files m !! target_path n ∨ in_place n pod m').
Proof.
  cbn zeta. destruct (handle_static_pod n pod m) as [m' r] eqn:E. cbn [fst].
  enough (Hf : files m' = files m ∨ r = Ok tt ∧ ∀ p, p ≠ target_path n → files m' !! p = files m !! p).
  { destruct Hf as [->|[-> Hp]]; [by split; [|left]|]. split; [done|]. right. by eapply handle_in_place. }
  revert E. unfold handle_static_pod, write_manifest_file, write_temp, delete_manifest_file, st_bind, st_lift, io,
    fs_create_dir_all, io.
  destruct (ok_or (enabled pod) _) as [[]|]; [| |intros [= <- <-]; by left].
  - destruct (ok_or (manifest pod) _); [|intros [= <- <-]; by left]. destruct (ok_or (b64_decode _) _); [|intros [= <- <-]; by left].
    repeat case_match; simplify_eq; intros; simplify_eq; try (by left). right. split; [done|].
    intros p Hp. cbn. by rewrite lookup_insert_ne.
  - repeat case_match; intros; simplify_eq; try (by left). right. split; [done|]. intros p Hp. cbn. by rewrite lookup_delete_ne.
Qed.

Lemma target_inj n n' : plain_name n → plain_name n' → target_path n = target_path n' → n = n'.
Proof.
  intros Hn Hn'. unfold target_path. rewrite <-(str_app_nil_r n), <-(str_app_nil_r n') at 1.
  rewrite !path_join_plain by (apply Hn || apply Hn' || done). intros E%str_app_inj_l%str_app_inj_l.
  by rewrite !str_app_nil_r in E.
Qed.
(** What the loop keeps. *)
Definition pods_progress (m0 : machine) (dn : list (string * StaticPod)) (failed : nat) (m : machine) : Prop :=
  (∀ p, (∀ n pod, (n, pod) ∈ dn → p ≠ target_path n) → files m !! p = files m0 !! p) ∧
  (∀ n pod, (n, pod) ∈ dn →
     (files m !! target_path n = files m0 !! target_path n ∨ in_place n pod m) ∧ (failed = 0 → in_place n pod m)).

Lemma in_place_files n pod m m' : files m' !! target_path n = files m !! target_path n →
  in_place n pod m → in_place n pod m'.
Proof. unfold in_place. by intros ->. Qed.

Lemma pods_progress_step m0 dn n pod k m1 m2 r : Forall plain_name (dn ++ [(n, pod)]).*1 → NoDup (dn ++ [(n, pod)]).*1 →
  pods_progress m0 dn k m1 → handle_static_pod n pod m1 = (m2, r) →
  pods_progress m0 (dn ++ [(n, pod)]) (if is_ok r then k else S k) m2.
Proof.
  rewrite fmap_app, NoDup_app, Forall_app. intros [Hpl Hn%Forall_cons_1] (_ & Hfresh & _) [Ho Hd] Hh.
  destruct Hn as [Hn _]. cbn in Hn. pose proof (handle_only n pod m1) as Hon. cbn zeta in Hon. rewrite Hh in Hon.
  cbn in Hon. destruct Hon as [Hother Hown].
  assert (Hne : ∀ n' pod', (n', pod') ∈ dn → target_path n' ≠ target_path n).
  { intros n' pod' Hin E. assert (Hin1 : n' ∈ dn.*1) by by apply (list_elem_of_fmap_2 fst _ (n', pod')).
    apply target_inj in E as ->; [|rewrite Forall_forall in Hpl; by apply Hpl|done]. apply (Hfresh n Hin1). by left. }
  assert (Hself : files m1 !! target_path n = files m0 !! target_path n).
  { apply Ho. intros n' pod' Hin E. by apply (Hne n' pod' Hin). }
  split.
  - intros p Hp. rewrite Hother; [apply Ho|]; [intros n' pod' Hin|]; eapply Hp; apply elem_of_app; [by left|by right; left].
  - intros n' pod' [Hin|Hin%list_elem_of_singleton]%elem_of_app.
    + destruct (Hd n' pod' Hin) as [Hc Hz]. rewrite (Hother (target_path n')) by by eapply Hne. split.
      * destruct Hc as [Hc|Hc]; [by left|right]. eapply in_place_files; [|exact Hc]. apply Hother. by eapply Hne.
      * intros Hk. eapply in_place_files; [apply Hother; by eapply Hne|]. apply Hz. by destruct (is_ok r).
    + simplify_eq. split; [by rewrite <-Hself|]. destruct r as [[]|]; [|done]. intros _. by eapply handle_in_place.
Qed.

Lemma pods_loop m (pods : gmap string StaticPod) : (∀ n, is_Some (pods !! n) → plain_name n) →
  let '(m', k) := count_failures (map_iter pods) (λ entry, handle_static_pod entry.1 entry.2) m in
  pods_progress m (map_iter pods) k m'.
Proof.
  intros Hpl. assert (Hall : Forall plain_name (map_iter pods).*1).
  { apply Forall_forall. intros n ([n' c] & -> & Hin%elem_of_map_iter)%list_elem_of_fmap. apply Hpl. by exists c. }
  pose proof (count_failures_inv (pods_progress m) (map_iter pods) (λ entry, handle_static_pod entry.1 entry.2) m) as Hi.
  destruct (count_failures _ _ _) as [m' k]. apply Hi; clear Hi.
  - split; [done|]. intros n pod Hin. by apply elem_of_nil in Hin.
  - intros dn [n pod] rest k' m1 m2 r El Hp Hs. eapply pods_progress_step; [| |exact Hp|exact Hs].
    + rewrite Forall_forall in Hall. apply Forall_forall. intros x Hx. apply Hall. rewrite El, fmap_app.
      rewrite fmap_app in Hx. set_solver.
    + eapply sublist_NoDup; [apply (map_iter_NoDup pods)|]. rewrite El, !fmap_app. cbn.
      apply sublist_app; [done|]. constructor. apply sublist_nil_l.
Qed.
End facts.

(** C21. A run of static-pods, of which every step may fail.  Only the files of configured pods
    change.  When writes are complete, each pod's file is at any outcome as it was or as the settings
    say, the decoded manifest of an enabled pod and no file for a disabled one, and if the run
    succeeds every pod's file is as they say.  The program calls [write] once and does not look at
    the number of bytes it took: when a write is short, the file of an enabled pod is the beginning
    of its manifest that the write took, put in place whole, and the run may succeed with it. *)
Theorem static_pods_sync `{HashOrder, MachineOps, CtrLib, PodConfig} args a m m' r text pods :
  parse_args args = Ok a → files m !! config_path a = Some text → pods_of_toml text = Some (Some pods) →
  (∀ n, is_Some (pods !! n) → plain_name n) →
  run args m = (m', r) →
  (∀ p, (∀ n pod, pods !! n = Some pod → p ≠ target_path n) → files m' !! p = files m !! p) ∧
  ((∀ s m0, str_len s ≤ write_count s m0) →
     (∀ n pod, pods !! n = Some pod → files m' !! target_path n = files m !! target_path n ∨ as_settings n pod m') ∧
     (r = Ok tt → ∀ n pod, pods !! n = Some pod → as_settings n pod m')) ∧
  (∀ n pod, pods !! n = Some pod → files m' !! target_path n = files m !! target_path n ∨ in_place n pod m') ∧
  (r = Ok tt → ∀ n pod, pods !! n = Some pod → in_place n pod m').
Proof.
  intros Ha Ht Hp Hpl Hr.
  assert (Hcase : (m' = m ∧ r ≠ Ok tt) ∨ ∃ k, pods_progress m (map_iter pods) k m' ∧ (r = Ok tt → k = 0)).
  { unfold run in Hr. rewrite Ha in Hr.
    apply st_bind_inv in Hr as [(e & He & ->)|(? & ? & [= <- <-] & Hr)]; [done|].
    apply st_bind_inv in Hr as [(e & He & ->)|(? & [] & ->%io_Ok & Hr)].
    { unfold io in He. destruct (io_ok _ _ _); [done|]. injection He as <- <-. by left. }
    unfold sync_pods, get_static_pods, fs_read_to_string, st_bind in Hr. cbn [id] in Hr. rewrite Ht in Hr.
    destruct (io_ok _ _ _ && _); [|injection Hr as <- <-; by left].
    rewrite Hp in Hr. cbn in Hr. right. pose proof (pods_loop m pods Hpl) as Hl.
    destruct (count_failures _ _ _) as [m1 k]. injection Hr as <- <-. exists k. split; [done|].
    intros Hk%ensure_Ok. by apply Nat.eqb_eq. }
  assert (Hany : (∀ p, (∀ n pod, pods !! n = Some pod → p ≠ target_path n) → files m' !! p = files m !! p) ∧
    (∀ n pod, pods !! n = Some pod → files m' !! target_path n = files m !! target_path n ∨ in_place n pod m') ∧
    (r = Ok tt → ∀ n pod, pods !! n = Some pod → in_place n pod m')).
  { destruct Hcase as [[-> Hne]|(k & [Ho Hd] & Hk)]; [split_and!; [done|by left|done]|]. split_and!.
    - intros p Hpp. apply Ho. intros n pod Hin%elem_of_map_iter. by eapply Hpp.
    - intros n pod Hin. apply (Hd n pod). by apply elem_of_map_iter.
    - intros Hrk n pod Hin. apply (Hd n pod); [by apply elem_of_map_iter|by apply Hk]. }
  destruct Hany as (Hf & Hc & Hok). split_and!; [done| |done..]. intros Hall. split.
  - intros n pod Hin. destruct (Hc n pod Hin) as [?|Hi]; [by left|right]. by apply in_place_complete.
  - intros Hr' n pod Hin. apply in_place_complete; auto.
Qed.

Lemma static_pods_sync_witness :
  let pod := mk_static_pod (Some true) (Some "kind: Pod") in
  let config := {| pods_of_toml _ := Some (Some {["web" := pod]}); write_count s _ := str_len s |} in
  let m := machine_with [(DEFAULT_CONFIG_PATH, "")] in
  let ran_ := run (H := example_order) (H0 := example_ops) (H1 := example_ctr_lib) (H2 := config) [] m in
  ran_.2 = Ok tt ∧ as_settings (H1 := example_ctr_lib) "web" pod ran_.1.
Proof.
  intros pod config m ran_. assert (Hr : ran_.2 = Ok tt) by (vm_compute; reflexivity). split; [exact Hr|].
  refine (proj2 (proj1 (proj2 (static_pods_sync (H := example_order) (H0 := example_ops) (H1 := example_ctr_lib) (H2 := config)
    [] (mk_args "info" DEFAULT_CONFIG_PATH) m ran_.1 (Ok tt) EmptyString {["web" := pod]} _ _ _ _ _)) _) eq_refl "web" pod _);
    [reflexivity|reflexivity|reflexivity| | |done|reflexivity].
  - intros n [c' Hc]. apply lookup_singleton_Some in Hc as [<- _]. by apply plain_by_compute.
  - rewrite <-Hr. apply surjective_pairing.
Defined.

(** A short write truncates a manifest, and the run succeeds. *)
Lemma short_write_succeeds :
  let pod := mk_static_pod (Some true) (Some "kind: Pod") in
  let config := {| pods_of_toml _ := Some (Some {["web" := pod]}); write_count _ _ := 4 |} in
  let ran_ := run (H := example_order) (H0 := example_ops) (H1 := example_ctr_lib) (H2 := config) []
    (machine_with [(DEFAULT_CONFIG_PATH, "")]) in
  ran_.2 = Ok tt ∧ files ran_.1 !! target_path "web" = Some "kind".
Proof. split; vm_compute; reflexivity. Qed.
