(* ===== verification/Corndog.v ===== *)
(** * corndog ([sources/api/corndog])

    The program that applies the kernel settings: sysctls, through a file for
    systemd-sysctl, and the lockdown mode; it also generates the number of huge pages.
    The theorem says that a run never asks the kernel to lower the lockdown mode, and the
    facts what it writes for sysctls.

    The kernel's file of the lockdown mode is a file of the machine; what it reads
    after a write is the kernel's doing. *)
From S2P Require Import Prelude Json KeyMap Numbers Chars Filesystem Bloodhound Machine.
From Stdlib Require Import Ascii.
From stdpp Require Import base list strings gmap.
From stdpp Require Import options.

(** ** Definitions *)

Definition LOCKDOWN_PATH : string := "/sys/kernel/security/lockdown".
Definition DEFAULT_CONFIG_PATH : string := "/etc/corndog.toml".
Definition SYSCTL_CONFIG_DIR : string := "/etc/sysctl.d".
Definition SYSCTL_CONFIG_FILENAME : string := "95-corndog.conf".
Definition SYSTEMD_SYSCTL_BIN : string := "/usr/lib/systemd/systemd-sysctl".
Definition NR_HUGEPAGES_PATH_SYSCTL : string := "/proc/sys/vm/nr_hugepages".
Definition HUGEPAGES_2MB_PER_CORE : Z := 110.

Record KernelSettings := mk_kernel_settings {
  lockdown : option string;
  sysctl : option (gmap string string) }.

Inductive error :=
| Usage (message : string)
| ReadConfigFile
| Deserialization
| SerializeJson
| Lockdown (current lockdown : string)
| Logger
| CreateTempFile (path : string)
| WriteTempFile
| PersistTempFile (path : string)
| RunSystemdSysctl
| SystemdSysctlFailed (output : string).

(** The TOML of the configuration, PCI devices ([None] is an error) and the number of
    processors, a [usize]. *)
Class KernelHost := {
  kernel_of_toml : string → option KernelSettings;
  is_efa_attached : option bool;
  num_cpus : Z }.

Record Args := mk_args { subcommand : string; log_level : string; config_path : string }.

Definition DASH : ascii := ascii_of_nat 45.
Definition LBRACKET : ascii := ascii_of_nat 91.
Definition RBRACKET : ascii := ascii_of_nat 93.

(** A line of the file for systemd-sysctl: a dash lets the setting fail. *)
Definition sysctl_line (key value : string) : string :=
  let prefix := if negb (str_starts_with key (char_of DASH)) then char_of DASH else EmptyString in
  prefix +:+ key +:+ " = " +:+ str_trim value.

Definition generate_sysctl_config `{HashOrder} (sysctls : gmap string string) : string :=
  fold_left (λ config_content '(key, value), config_content +:+ str_push (sysctl_line key value) NEWLINE)
    (map_iter sysctls) EmptyString.

(** [find] and the slices after it, for delimiters of one byte. *)
Definition parse_kernel_setting (setting : string) : string :=
  let setting := str_trim setting in
  let setting :=
    match str_splitn2 LBRACKET setting with
    | (_, Some rest) => if str_is_empty rest then setting else rest
    | (_, None) => setting
    end in
  (str_splitn2 RBRACKET setting).1.

Definition check_for_existing_hugepages (existing_hugepages_value : string) : string :=
  match parse_unsigned 64 (str_trim existing_hugepages_value) with
  | Some value => unsigned_to_string value
  | None => "0"
  end.

(** The multiplication is of 64 bits. *)
Definition compute_hugepages_for_efa (num_cores : Z) : string :=
  unsigned_to_string (wrap 64 (num_cores * HUGEPAGES_2MB_PER_CORE)).

Section program.
Context `{HashOrder, MachineOps, CtrLib, SerdeJson, KernelHost}.

Abbreviation act A := (stres machine error A).

Definition get_kernel_settings (config_path : string) : act KernelSettings :=
  let! config_str := fs_read_to_string config_path ReadConfigFile in
  st_lift (ok_or (kernel_of_toml config_str) Deserialization).

(** The temporary file, in the directory, has a name of its own; [persist] renames it. *)
Definition persist_sysctl_config (config_content config_dir config_filename : string) : act string :=
  let! _ := io TempFile config_dir id (CreateTempFile config_dir) in
  let! _ := io WriteFile EmptyString id WriteTempFile in
  let config_path := path_join config_dir config_filename in
  let! _ := io Persist config_path (set_file config_path config_content) (PersistTempFile config_path) in
  st_ret config_path.

Definition apply_sysctl_config (systemd_sysctl_bin : string) : act () := λ m,
  let m' := note_ran (systemd_sysctl_bin, []) m in
  match outcome systemd_sysctl_bin [] m with
  | None => (m', Err RunSystemdSysctl)
  | Some (true, _) => (m', Ok tt)
  | Some (false, output) => (m', Err (SystemdSysctlFailed (from_utf8_lossy output)))
  end.

Definition set_sysctls (sysctls : gmap string string) : act () :=
  let config_content := generate_sysctl_config sysctls in
  let! _ := persist_sysctl_config config_content SYSCTL_CONFIG_DIR SYSCTL_CONFIG_FILENAME in
  apply_sysctl_config SYSTEMD_SYSCTL_BIN.

(** Reading a file of which an error does not matter. *)
Definition read_or (path d : string) (m : machine) : string :=
  default d (ok (fs_read_to_string (E := error) path ReadConfigFile m).2).

Definition generate_hugepages_setting (m : machine) : string :=
  let hugepages :=
    match (fs_read_to_string (E := error) NR_HUGEPAGES_PATH_SYSCTL ReadConfigFile m).2 with
    | Ok value => check_for_existing_hugepages value
    | Err _ => "0"
    end in
  if decide (hugepages = "0") then
    if default false is_efa_attached then compute_hugepages_for_efa num_cpus else hugepages
  else hugepages.

(** A file of the kernel takes what is written as a request: a failed one changes nothing. *)
Definition kernel_write (path content : string) (e : error) : act () := io WriteFile path (set_file path content) e.

Definition set_lockdown (lockdown : string) : act () := λ m,
  let current_raw := read_or LOCKDOWN_PATH "unknown" m in
  let current := parse_kernel_setting current_raw in
  if decide (current = lockdown) then (m, Ok tt)
  else if decide (current = "confidentiality" ∨ (current = "integrity" ∧ lockdown = "none")) then (m, Ok tt)
  else kernel_write LOCKDOWN_PATH lockdown (Lockdown current lockdown) m.

Fixpoint parse_args_loop (args : list string) (subcommand log_level config_path : option string) : result error Args :=
  match args with
  | [] =>
      match subcommand with
      | Some subcommand => Ok (mk_args subcommand (default "info" log_level) (default DEFAULT_CONFIG_PATH config_path))
      | None => Err (Usage "Must specify a subcommand.")
      end
  | "--log-level" :: args =>
      match args with
      | level :: args =>
          if level_filter level then parse_args_loop args subcommand (Some level) config_path
          else Err (Usage ("Invalid log level '" +:+ level +:+ "'"))
      | [] => Err (Usage "Did not give argument to --log-level")
      end
  | "--config-path" :: args =>
      match args with
      | path :: args => parse_args_loop args subcommand log_level (Some path)
      | [] => Err (Usage "Did not give argument to --config-path")
      end
  | arg :: args =>
      if bool_decide (arg ∈ ["sysctl"; "lockdown"; "generate-hugepages-setting"])
      then parse_args_loop args (Some arg) log_level config_path
      else Err (Usage EmptyString)
  end.
Definition parse_args (args : list string) : result error Args := parse_args_loop args None None None.

(** [run]: what it prints. *)
Definition run (args : list string) : act string :=
  let! args := st_lift (parse_args args) in
  let! _ := io InitLogger EmptyString id Logger in
  if decide (subcommand args = "sysctl") then
    let! kernel := get_kernel_settings (config_path args) in
    match sysctl kernel with
    | Some sysctls => let! _ := set_sysctls sysctls in st_ret EmptyString
    | None => st_ret EmptyString
    end
  else if decide (subcommand args = "lockdown") then
    let! kernel := get_kernel_settings (config_path args) in
    match lockdown kernel with
    | Some lockdown => let! _ := set_lockdown lockdown in st_ret EmptyString
    | None => st_ret EmptyString
    end
  else if decide (subcommand args = "generate-hugepages-setting") then λ m,
    let hugepages_setting := generate_hugepages_setting m in
    match json_to_string (JString hugepages_setting) with
    | Ok output => (m, Ok (str_push output NEWLINE))
    | Err _ => (m, Err SerializeJson)
    end
  else st_lift (Err (Usage ("Unknown subcommand '" +:+ subcommand args +:+ "'"))).

Definition is_usage (e : error) : bool := match e with Usage _ => true | _ => false end.
Definition main (args : list string) (m : machine) : machine * Z :=
  match run args m with
  | (m, Ok _) => (m, 0%Z)
  | (m, Err e) => (m, if is_usage e then 2%Z else 1%Z)
  end.
End program.

(** ** Lockdown *)

Definition MODES : list string := ["none"; "integrity"; "confidentiality"].

(** The kernel's file: all modes, with the current one in brackets. *)
Definition kernel_display (current : string) : string :=
  str_push (str_join " " ((λ mode, if decide (mode = current)
    then char_of LBRACKET +:+ mode +:+ char_of RBRACKET else mode) <$> MODES)) NEWLINE.

Definition mode_rank (mode : string) : nat :=
  if decide (mode = "none") then 0 else if decide (mode = "integrity") then 1 else 2.

Lemma mode_cases mode : mode ∈ MODES → mode = "none" ∨ mode = "integrity" ∨ mode = "confidentiality".
Proof. unfold MODES. rewrite !elem_of_cons, elem_of_nil. tauto. Qed.

Lemma parse_kernel_display mode : mode ∈ MODES → parse_kernel_setting (kernel_display mode) = mode.
Proof. intros [->|[->| ->]]%mode_cases; by vm_compute. Qed.

Lemma display_utf8 mode : mode ∈ MODES → utf8_valid (kernel_display mode) = true.
Proof. intros [->|[->| ->]]%mode_cases; by vm_compute. Qed.

(** The condition under which the code leaves the mode alone. *)
Definition keeps_mode (current lockdown : string) : bool :=
  bool_decide (current = lockdown) || bool_decide (current = "confidentiality" ∨ (current = "integrity" ∧ lockdown = "none")).

Lemma keeps_mode_rank cur new : cur ∈ MODES → new ∈ MODES →
  keeps_mode cur new = false ↔ mode_rank cur < mode_rank new.
Proof.
  intros Hc Hn. rewrite <-Nat.ltb_lt, <-negb_true_iff.
  enough (E : negb (keeps_mode cur new) = (mode_rank cur <? mode_rank new)%nat) by by rewrite E.
  apply mode_cases in Hc as [->|[->| ->]], Hn as [->|[->| ->]]; by vm_compute.
Qed.

Section facts.
Context `{HashOrder, MachineOps, CtrLib, SerdeJson, KernelHost}.
Implicit Types m : machine.

Lemma set_lockdown_keeps cur new m : cur ∈ MODES → files m !! LOCKDOWN_PATH = Some (kernel_display cur) →
  io_ok ReadFile LOCKDOWN_PATH m = true →
  set_lockdown new m =
    if keeps_mode cur new then (m, Ok tt) else kernel_write LOCKDOWN_PATH new (Lockdown cur new) m.
Proof.
  intros Hc Hf Hr. unfold set_lockdown, read_or, fs_read_to_string, keeps_mode. rewrite Hf, Hr, display_utf8 by done.
  cbn [ok from_option snd andb id]. rewrite (parse_kernel_display cur) by done.
  rewrite !bool_decide_decide. by repeat destruct (decide _).
Qed.

(** What the arguments and the configuration ask for. *)
Definition asks_lockdown (args : list string) m (new : string) : Prop := ∃ a text kernel,
  parse_args args = Ok a ∧ subcommand a = "lockdown" ∧ files m !! config_path a = Some text ∧
  kernel_of_toml text = Some kernel ∧ lockdown kernel = Some new.

Lemma run_lockdown args m new : asks_lockdown args m new →
  (∃ e, run args m = (m, Err e)) ∨
  run args m = (let! _ := set_lockdown new in st_ret EmptyString) m.
Proof.
  intros (a & text & kernel & Ha & Hs & Ht & Hk & Hl). unfold run. rewrite Ha. unfold st_bind, st_lift, io.
  destruct (io_ok InitLogger EmptyString m); [|left; by eexists]. cbn [id].
  rewrite decide_False, decide_True by (done || by rewrite Hs).
  unfold get_kernel_settings, fs_read_to_string, st_bind, st_lift. rewrite Ht.
  destruct (io_ok _ _ _ && _); [|left; by eexists]. rewrite Hk. cbn. rewrite Hl. by right.
Qed.

(** No other run touches the file. *)
Lemma run_other args m m' r : run args m = (m', r) →
  files m' !! LOCKDOWN_PATH = files m !! LOCKDOWN_PATH ∨ ∃ new, asks_lockdown args m new.
Proof.
  intros Hr. unfold run in Hr.
  apply st_lift_inv in Hr as [(e & _ & -> & _)|(a & Ha & Hr)]; [by left|].
  apply st_bind_inv in Hr as [(e & He & _)|(m1 & [] & ->%io_Ok & Hr)].
  { unfold io in He. destruct (io_ok _ _ _); by injection He as <-; left. }
  assert (Hget : ∀ m1 e, get_kernel_settings (config_path a) m = (m1, e) → m1 = m ∧
    ∀ k, e = Ok k → ∃ text, files m !! config_path a = Some text ∧ kernel_of_toml text = Some k).
  { intros m1 e. unfold get_kernel_settings, fs_read_to_string, st_bind, st_lift. cbn [id].
    destruct (files m !! config_path a) as [text|] eqn:Et; [|intros [= <- <-]; by split].
    destruct (io_ok _ _ _ && _); [|intros [= <- <-]; by split]. intros [= <- <-]. split; [done|].
    intros k Hk%ok_or_Ok. by exists text. }
  case_decide as Hs; [|case_decide as Hl; [|case_decide]].
  - left. apply st_bind_inv in Hr as [(e & [-> _]%Hget & _)|(m1 & k & [-> _]%Hget & Hr)]; [done|].
    destruct (sysctl k) as [l|]; [|by injection Hr as <- <-].
    unfold set_sysctls, persist_sysctl_config, apply_sysctl_config, io, st_bind, st_ret, st_lift in Hr.
    repeat case_match; simplify_eq; cbn; rewrite ?lookup_insert_ne by (by vm_compute); done.
  - apply st_bind_inv in Hr as [(e & [-> _]%Hget & _)|(m1 & k & [-> Hk]%Hget & Hr)]; [by left|].
    destruct (Hk k eq_refl) as (text & Ht & Hto). destruct (lockdown k) as [new|] eqn:El.
    + right. exists new, a, text, k. done.
    + left. by injection Hr as <- <-.
  - left. by destruct (json_to_string _); injection Hr as <- <-.
  - left. by injection Hr as <- <-.
Qed.
End facts.

(** C15. A run of corndog on a kernel that shows its lockdown mode never asks for a lower mode,
    nor for the same: if it writes the kernel's file, it is the [lockdown] subcommand and the mode
    of the configuration is strictly higher than the current one; and a run that is asked for
    a higher mode and succeeds has written it. *)
Theorem lockdown_only_raised `{HashOrder, MachineOps, CtrLib, SerdeJson, KernelHost} args cur m m' r :
  (∀ text kernel new, kernel_of_toml text = Some kernel → lockdown kernel = Some new → new ∈ MODES) →
  cur ∈ MODES → files m !! LOCKDOWN_PATH = Some (kernel_display cur) → io_ok ReadFile LOCKDOWN_PATH m = true →
  run args m = (m', r) →
  (files m' !! LOCKDOWN_PATH = files m !! LOCKDOWN_PATH ∨
   ∃ new, asks_lockdown args m new ∧ mode_rank cur < mode_rank new ∧ files m' !! LOCKDOWN_PATH = Some new) ∧
  (∀ new, asks_lockdown args m new → is_ok r = true →
     if decide (mode_rank cur < mode_rank new) then files m' !! LOCKDOWN_PATH = Some new else m' = m).
Proof.
  intros Hmodes Hc Hf Hread Hr.
  assert (Hask : ∀ new, asks_lockdown args m new → new ∈ MODES ∧
    ((m' = m ∧ is_ok r = false) ∨ (keeps_mode cur new = true ∧ m' = m) ∨
     (keeps_mode cur new = false ∧ m' = set_file LOCKDOWN_PATH new m))).
  { intros new Ha. split; [destruct Ha as (a & text & k & _ & _ & _ & Hk & Hl); by eapply Hmodes|].
    destruct (run_lockdown args m new Ha) as [[e E]|E]; rewrite E in Hr; [injection Hr as <- <-; by left|].
    unfold st_bind in Hr. rewrite (set_lockdown_keeps cur) in Hr by done.
    destruct (keeps_mode cur new); [injection Hr as <- <-; by right; left|].
    unfold kernel_write, io, st_ret, st_lift in Hr. destruct (io_ok WriteFile LOCKDOWN_PATH m); injection Hr as <- <-; [by right; right|by left]. }
  split.
  - destruct (run_other args m m' r Hr) as [E|[new Ha]]; [by left|].
    destruct (Hask new Ha) as [Hn [[-> _]|[[_ ->]|[Hk ->]]]]; [by left..|]. right. exists new.
    split_and!; [done|by apply keeps_mode_rank|]. cbn. by rewrite lookup_insert_eq.
  - intros new Ha Hok. destruct (Hask new Ha) as [Hn [[_ E]|[[Hk ->]|[Hk ->]]]]; [by rewrite E in Hok|..].
    + rewrite decide_False; [done|]. rewrite <-(keeps_mode_rank cur new) by done. by rewrite Hk.
    + rewrite decide_True by (by apply keeps_mode_rank). cbn. by rewrite lookup_insert_eq.
Qed.

Lemma lockdown_only_raised_witness :
  let host := {| kernel_of_toml _ := Some (mk_kernel_settings (Some "integrity") None);
                 is_efa_attached := None; num_cpus := 2 |} in
  let m := machine_with [(DEFAULT_CONFIG_PATH, ""); (LOCKDOWN_PATH, kernel_display "none")] in
  let ran_ := run (H := example_order) (H0 := example_ops) (H1 := example_ctr_lib) (H2 := example_json) (H3 := host)
    ["lockdown"] m in
  files ran_.1 !! LOCKDOWN_PATH = Some "integrity".
Proof.
  intros host m ran_.
  refine (proj2 (lockdown_only_raised (H := example_order) (H0 := example_ops) (H1 := example_ctr_lib)
    (H2 := example_json) (H3 := host) ["lockdown"] "none" m ran_.1 ran_.2 _ _ _ _ _) "integrity" _ _);
    [|by left|reflexivity..|eexists _, _, _; split_and!; reflexivity|reflexivity].
  intros text kernel new [= <-] Hl. cbn in Hl. injection Hl as <-. by right; left.
Defined.

(** ** Sysctls and huge pages *)

(** Every line of the file for systemd-sysctl may fail: it starts with a dash. *)
Lemma sysctl_line_dash key value : ∃ t, sysctl_line key value = char_of DASH +:+ t.
Proof.
  unfold sysctl_line. destruct (str_starts_with key (char_of DASH)) eqn:E; cbn [negb].
  - apply str_starts_with_spec in E as [t ->]. cbn [String.append]. by eexists.
  - by eexists.
Qed.

Lemma sysctl_config_lines `{HashOrder} sysctls :
  generate_sysctl_config sysctls = text_of_lines ((λ kv, sysctl_line kv.1 kv.2) <$> map_iter sysctls).
Proof.
  unfold generate_sysctl_config, text_of_lines. rewrite <-(str_app_nil_l (str_concat _)).
  generalize EmptyString. induction (map_iter sysctls) as [|[k v] l IH]; intros s; cbn [fold_left fmap list_fmap str_concat].
  - by rewrite str_app_nil_r.
  - by rewrite IH, <-str_app_assoc.
Qed.

(** The setting for huge pages is the text of a 64-bit number, whatever the kernel's file
    holds. *)
Lemma hugepages_number `{MachineOps, KernelHost} m : ∃ n, (0 ≤ n < 2 ^ 64)%Z ∧
  generate_hugepages_setting m = unsigned_to_string n.
Proof.
  assert (Hp : ∀ v, ∃ n, (0 ≤ n < 2 ^ 64)%Z ∧ check_for_existing_hugepages v = unsigned_to_string n).
  { intros v. unfold check_for_existing_hugepages. destruct (parse_unsigned 64 (str_trim v)) as [n|] eqn:E.
    - apply parse_unsigned_bound in E; [by exists n|lia].
    - by exists 0%Z. }
  assert (He : ∃ n, (0 ≤ n < 2 ^ 64)%Z ∧ compute_hugepages_for_efa num_cpus = unsigned_to_string n).
  { eexists. split; [|done]. by apply Z.mod_pos_bound. }
  unfold generate_hugepages_setting. cbn zeta. case_decide; [destruct (default false is_efa_attached); [exact He|]|];
    destruct (fs_read_to_string _ _ m).2 as [v|e]; try apply Hp; by exists 0%Z.
Qed.
