(* ===== verification/Imdsclient.v ===== *)
(** * imdsclient ([sources/imdsclient])

    The client of the instance metadata service: sessions with tokens, requests that are
    repeated until they are answered or the time is up, and what is fetched for the other
    programs.  The theorem says that the requests of a call follow the protocol of sessions
    and which answer decides the call.

    The network is the class [Imds]: the answers that arrive within the time limit, in the order
    of the requests; that they run out means that the time is up.  Both time limits of the code
    have one duration and the inner one starts later, so that the outer one ends the call. *)
From S2P Require Import Prelude Json Numbers Chars Filesystem Bloodhound Machine.
From Stdlib Require Import Ascii.
From stdpp Require Import base list strings.
From stdpp Require Import options.

(** ** Definitions *)

Definition BASE_URI : string := "http://169.254.169.254".
Definition PINNED_SCHEMA : string := "2021-07-15".
Definition SESSION_TARGET : string := "latest/api/token".

(** The errors that a call can end with; [Panicked] is a panic.  Every other error of the
    source makes the call try again. *)
Inductive error :=
| TimeoutFetchIMDS
| NonUtf8Response
| Serde
| MacAddresses
| KeyNotFound (target : string)
| Panicked.

(** A request, with its token, and what came of it: no response, or a status with the body,
    if that could be read. *)
Inductive request := Put (uri : string) | Get (uri token : string).
Inductive answer := NoResponse | Response (code : Z) (body : option string).

Record ImdsClient := mk_client {
  imds_base_uri : string;
  session_token : option string;
  sent : list (request * answer) }.

(** The answers to the requests of a call that starts in a state of the client; the decoding of
    text, and whether a token can be sent in a header, are [reqwest]'s. *)
Class Imds := {
  answers : ImdsClient → list answer;
  response_text : string → string;
  header_ok : string → bool }.

(** [printable_string], for which the body is sliced even when nothing is logged:
    [None] is a panic. *)
Definition printable_string (bytes : string) : option string :=
  if utf8_valid bytes then
    if (str_len bytes <? 2048)%nat then Some bytes
    else (λ s, s +:+ "<truncated...>") <$> str_slice bytes 0 2034
  else Some "<binary>".

Definition EQ_SIGN : ascii := ascii_of_nat 61.
Definition build_public_key_targets (public_key_list : string) : list string :=
  omap (λ available_key,
      let f0 := (str_splitn2 EQ_SIGN available_key).1 in
      (λ _, "meta-data/public-keys/" +:+ f0 +:+ "/openssh-key") <$> parse_u32 f0)
    (str_lines public_key_list).

(** [to_ascii_lowercase] and [trim_end_matches('.')]. *)
Definition to_ascii_lowercase (s : string) : string :=
  str_concat ((λ a, char_of (if ((65 <=? nat_of_ascii a) && (nat_of_ascii a <=? 90))%nat
    then ascii_of_nat (nat_of_ascii a + 32) else a)) <$> String.list_ascii_of_string s).
Fixpoint trim_end_dots (s : string) : string :=
  match s with
  | EmptyString => EmptyString
  | String a s =>
      let s := trim_end_dots s in
      if decide (a = DOT ∧ s = EmptyString) then EmptyString else String a s
  end.

Section client.
Context `{Imds, SerdeJson}.

(** The attempts of a call: the token as it is, the requests so far and the outcome.  Without
    a token one is fetched; a token that is no longer valid is cleared.  With a token that
    no header can carry no request is ever sent. *)
Fixpoint attempts (uri token_uri : string) (answers : list answer) (token : option string) :
    option string * list (request * answer) * result error (option string) :=
  match token with
  | None =>
      match answers with
      | [] => (None, [], Err TimeoutFetchIMDS)
      | a :: answers =>
          let token :=
            match a with
            | Response code (Some body) => if decide (code = 200%Z) then Some (response_text body) else None
            | _ => None
            end in
          let '(token, log, r) := attempts uri token_uri answers token in
          (token, (Put token_uri, a) :: log, r)
      end
  | Some t =>
      if negb (header_ok t) then (Some t, [], Err TimeoutFetchIMDS)
      else
        match answers with
        | [] => (Some t, [], Err TimeoutFetchIMDS)
        | a :: answers =>
            let again token :=
              let '(token, log, r) := attempts uri token_uri answers token in
              (token, (Get uri t, a) :: log, r) in
            let finish r := (Some t, [(Get uri t, a)], r) in
            match a with
            | NoResponse => again (Some t)
            | Response code body =>
                if decide (code = 404%Z) then finish (Ok None)
                else if decide (code = 401%Z) then again None
                else
                  match body with
                  | None => again (Some t)
                  | Some body =>
                      match printable_string body with
                      | None => finish (Err Panicked)
                      | Some _ => if decide (code = 200%Z) then finish (Ok (Some body)) else again (Some t)
                      end
                  end
            end
        end
  end.

Abbreviation act A := (stres ImdsClient error A).

Definition fetch_imds (schema_version target : string) : act (option string) := λ c,
  let uri := imds_base_uri c +:+ "/" +:+ schema_version +:+ "/" +:+ target in
  let token_uri := imds_base_uri c +:+ "/" +:+ SESSION_TARGET in
  let '(token, log, r) := attempts uri token_uri (answers c) (session_token c) in
  (mk_client (imds_base_uri c) token (sent c ++ log), r).

Definition fetch_userdata : act (option string) := fetch_imds PINNED_SCHEMA "user-data".
Definition fetch_bytes (end_target : string) : act (option string) := fetch_imds PINNED_SCHEMA end_target.
Definition fetch_string (end_target : string) : act (option string) :=
  let! response := fetch_imds PINNED_SCHEMA end_target in
  match response with
  | Some response_body => if utf8_valid response_body then st_ret (Some response_body) else st_lift (Err NonUtf8Response)
  | None => st_ret None
  end.

Definition fetch_identity_document : act (option json) :=
  let! response := fetch_bytes "dynamic/instance-identity/document" in
  match response with
  | Some response =>
      match json_from_str response with
      | Ok doc => st_ret (Some doc)
      | Err _ => st_lift (Err Serde)
      end
  | None => st_ret None
  end.
(** [doc.get(name).and_then(as_str)] *)
Definition document_field (name : string) (doc : json) : option string :=
  match doc with JObject m => obj_get name m ≫= as_str | _ => None end.
Definition fetch_region : act (option string) :=
  let! doc := fetch_identity_document in st_ret (doc ≫= document_field "region").
Definition fetch_zone : act (option string) :=
  let! doc := fetch_identity_document in st_ret (doc ≫= document_field "availabilityZone").

Definition fetch_partition : act (option string) := fetch_string "meta-data/services/partition".
Definition fetch_mac_addresses : act (option (list string)) :=
  let! macs := fetch_string "meta-data/network/interfaces/macs" in st_ret (str_lines <$> macs).
Definition fetch_cidr_blocks_for_mac (mac : string) : act (option (list string)) :=
  let! cidr_blocks := fetch_string ("meta-data/network/interfaces/macs/" +:+ mac +:+ "/vpc-ipv4-cidr-blocks") in
  st_ret (str_lines <$> cidr_blocks).
Definition fetch_local_ipv4_address : act (option string) := fetch_string "meta-data/local-ipv4".
Definition fetch_primary_ipv6_address : act (option string) :=
  let! macs := fetch_mac_addresses in
  let! macs := st_lift (ok_or macs MacAddresses) in
  let! mac := st_lift (ok_or (head macs) MacAddresses) in
  let! ipv6_address := fetch_string ("meta-data/network/interfaces/macs/" +:+ mac +:+ "/ipv6s") in
  st_ret (ipv6_address ≫= λ ipv6_addresses, head (str_lines ipv6_addresses)).
Definition fetch_instance_type : act (option string) := fetch_string "meta-data/instance-type".
Definition fetch_instance_id : act (option string) := fetch_string "meta-data/instance-id".
Definition fetch_autoscaling_lifecycle_state : act (option string) :=
  fetch_string "meta-data/autoscaling/target-lifecycle-state".

Fixpoint fetch_keys (targets : list string) (public_keys : list string) : act (list string) :=
  match targets with
  | [] => st_ret public_keys
  | target :: targets =>
      let! public_key_text := fetch_string target in
      let! public_key_text := st_lift (ok_or public_key_text (KeyNotFound target)) in
      let public_key := trim_end public_key_text in
      fetch_keys targets (if str_starts_with public_key "ssh" then public_keys ++ [public_key] else public_keys)
  end.
Definition fetch_public_ssh_keys : act (option (list string)) :=
  let! public_key_list := fetch_string "meta-data/public-keys" in
  match public_key_list with
  | Some public_key_list =>
      let! public_keys := fetch_keys (build_public_key_targets public_key_list) [] in
      st_ret (Some public_keys)
  | None => st_ret None
  end.

Definition fetch_hostname : act (option string) :=
  let! h := fetch_string "meta-data/local-hostname" in
  st_ret (h ≫= λ h, (λ h, to_ascii_lowercase (trim_end_dots h)) <$> head (split_whitespace h)).
End client.

Definition imds_client_new (imds_base_uri : string) : ImdsClient := mk_client imds_base_uri None [].

(** ** The protocol of sessions *)

(** The answer to a GET that ends a call, with its outcome. *)
Definition verdict (a : answer) : option (result error (option string)) :=
  match a with
  | NoResponse => None
  | Response code body =>
      if decide (code = 404%Z) then Some (Ok None)
      else if decide (code = 401%Z) then None
      else
        match body with
        | None => None
        | Some body =>
            match printable_string body with
            | None => Some (Err Panicked)
            | Some _ => if decide (code = 200%Z) then Some (Ok (Some body)) else None
            end
        end
  end.
Definition decides (e : request * answer) : option (result error (option string)) :=
  match e with (Get _ _, a) => verdict a | (Put _, _) => None end.

Definition is_unauthorized (a : answer) : bool :=
  match a with Response code _ => bool_decide (code = 401%Z) | NoResponse => false end.

Section protocol.
Context `{Imds}.

(** The token in the answer to a PUT. *)
Definition fetched (a : answer) : option string :=
  match a with
  | Response code (Some body) => if decide (code = 200%Z) then Some (response_text body) else None
  | _ => None
  end.

(** Sessions: a token is only fetched when there is none, every GET carries the current token,
    and the answer 401 ends the session.  The token after a sequence of exchanges that follows
    this, [None] for one that does not. *)
Fixpoint session (token : option string) (log : list (request * answer)) : option (option string) :=
  match log with
  | [] => Some token
  | (Put _, a) :: log => if decide (token = None) then session (fetched a) log else None
  | (Get _ t, a) :: log =>
      if decide (token = Some t) then session (if is_unauthorized a then None else token) log else None
  end.

(** How a call ends: with the first exchange that decides it, or when the time is up. *)
Definition call_outcome (uri : string) (answers : list answer) (token : option string) (log : list (request * answer))
    (r : result error (option string)) : Prop :=
  (∃ before t a, log = before ++ [(Get uri t, a)] ∧ Forall (λ e, decides e = None) before ∧ verdict a = Some r) ∨
  (r = Err TimeoutFetchIMDS ∧ Forall (λ e, decides e = None) log ∧
   (log.*2 = answers ∨ ∃ t, token = Some t ∧ header_ok t = false)).

Lemma call_outcome_cons uri answers token e log r a : decides e = None → e.2 = a →
  call_outcome uri answers token log r → call_outcome uri (a :: answers) token (e :: log) r.
Proof.
  intros He <- [(before & t & a' & -> & Hb & Hv)|(-> & Hf & Ha)].
  - left. exists (e :: before), t, a'. split; [done|]. split; [by constructor|done].
  - right. split; [done|]. split; [by constructor|]. destruct Ha as [<-|Ha]; [by left|by right].
Qed.

Lemma attempts_spec uri token_uri answers token :
  let '(token', log, r) := attempts uri token_uri answers token in
  session token log = Some token' ∧ log.*2 `prefix_of` answers ∧
  Forall (λ e, e.1 = Put token_uri ∨ ∃ t, e.1 = Get uri t ∧ header_ok t = true) log ∧
  call_outcome uri answers token' log r.
Proof.
  revert token. induction answers as [|a answers IH]; intros token.
  - cbn [attempts]. destruct token as [t|]; [destruct (header_ok t) eqn:Eh; cbn [negb]|];
      (split_and!; [done..|constructor|right; split_and!; [done|constructor|]]); [by left|right; by exists t|by left].
  - destruct token as [t|]; cbn [attempts].
    + destruct (header_ok t) eqn:Eh; cbn [negb];
        [|split_and!; [done|by exists (a :: answers)|constructor|right; split_and!; [done|constructor|right; by exists t]]].
      assert (Hfin : ∀ r, verdict a = Some r → is_unauthorized a = false →
        session (Some t) [(Get uri t, a)] = Some (Some t) ∧ [(Get uri t, a)].*2 `prefix_of` a :: answers ∧
        Forall (λ e, e.1 = Put token_uri ∨ ∃ t, e.1 = Get uri t ∧ header_ok t = true) [(Get uri t, a)] ∧
        call_outcome uri (a :: answers) (Some t) [(Get uri t, a)] r).
      { intros r Hv Hu. split_and!.
        - cbn [session]. by rewrite decide_True, Hu.
        - by exists answers.
        - constructor; [right; by exists t|constructor].
        - left. by exists [], t, a. }
      assert (Hag : ∀ tok, verdict a = None → tok = (if is_unauthorized a then None else Some t) →
        let '(token', log, r) :=
          (let '(token, log, r) := attempts uri token_uri answers tok in (token, (Get uri t, a) :: log, r)) in
        session (Some t) log = Some token' ∧ log.*2 `prefix_of` a :: answers ∧
        Forall (λ e, e.1 = Put token_uri ∨ ∃ t, e.1 = Get uri t ∧ header_ok t = true) log ∧
        call_outcome uri (a :: answers) token' log r).
      { intros tok Hv Ht. specialize (IH tok). destruct (attempts uri token_uri answers tok) as [[token' log] r].
        destruct IH as (Hs & Hp & Hf & Hc). split_and!.
        - cbn [session]. by rewrite decide_True, <-Ht.
        - by apply prefix_cons.
        - constructor; [right; by exists t|done].
        - by apply call_outcome_cons. }
      destruct a as [|code body]; [by apply Hag|]. cbn [verdict is_unauthorized] in Hfin, Hag.
      case_decide as H4; [subst; by apply Hfin|]. case_decide as H1; [subst; by apply Hag|].
      rewrite bool_decide_false in Hfin, Hag by done.
      destruct body as [body|]; [|by apply Hag]. destruct (printable_string body); [|by apply Hfin].
      case_decide; [by apply Hfin|by apply Hag].
    + specialize (IH (fetched a)). unfold fetched in IH at 1.
      destruct (attempts uri token_uri answers _) as [[token' log] r]. destruct IH as (Hs & Hp & Hf & Hc). split_and!.
      * cbn [session]. by rewrite decide_True.
      * by apply prefix_cons.
      * constructor; [by left|done].
      * by apply call_outcome_cons.
Qed.
End protocol.

(** C16. A call of the client sends its requests in sessions (a token is fetched when there is none,
    every GET carries the last token fetched, and none after the answer 401 ended its session), and it ends
    with the first answer to a GET that decides: the body of a 200, nothing for a 404; only
    when no answer in time decides, or the token cannot be sent, it ends in the error of the timeout. *)
Theorem fetch_imds_session `{Imds} schema_version target c c' r :
  fetch_imds schema_version target c = (c', r) →
  let uri := imds_base_uri c +:+ "/" +:+ schema_version +:+ "/" +:+ target in
  let token_uri := imds_base_uri c +:+ "/" +:+ SESSION_TARGET in
  imds_base_uri c' = imds_base_uri c ∧
  ∃ log, sent c' = sent c ++ log ∧ log.*2 `prefix_of` answers c ∧
    session (session_token c) log = Some (session_token c') ∧
    Forall (λ e, e.1 = Put token_uri ∨ ∃ t, e.1 = Get uri t ∧ header_ok t = true) log ∧
    call_outcome uri (answers c) (session_token c') log r.
Proof.
  intros Hf. cbn zeta. unfold fetch_imds in Hf.
  pose proof (attempts_spec (imds_base_uri c +:+ "/" +:+ schema_version +:+ "/" +:+ target)
    (imds_base_uri c +:+ "/" +:+ SESSION_TARGET) (answers c) (session_token c)) as Hs.
  destruct (attempts _ _ _ _) as [[token log] r']. injection Hf as <- <-. split; [done|]. exists log.
  by destruct Hs as (? & ? & ? & ?).
Qed.

(** A service that answers at once, and a client whose token has expired. *)
Definition example_imds (body : string) : Imds := {|
  answers _ := [Response 401 None; Response 200 (Some "new"); NoResponse; Response 200 (Some body)];
  response_text := id;
  header_ok _ := true |}.

Lemma fetch_imds_session_witness :
  let c := mk_client BASE_URI (Some "old") [] in
  let c' := (fetch_imds (H := example_imds "m5.large") PINNED_SCHEMA "meta-data/instance-type" c).1 in
  ∃ log, sent c' = log ∧ session (H := example_imds "m5.large") (Some "old") log = Some (Some "new").
Proof.
  intros c c'. destruct (fetch_imds_session (H := example_imds "m5.large") PINNED_SCHEMA "meta-data/instance-type"
    c c' (Ok (Some "m5.large")) ltac:(vm_compute; reflexivity)) as (_ & log & Hs & _ & Hl & _).
  exists log. split; [exact Hs|exact Hl].
Defined.

(** ** Bodies *)

(** A body of ASCII text does not make a call panic. *)
Lemma printable_ascii bytes : ascii_str bytes → is_Some (printable_string bytes).
Proof.
  intros Ha. unfold printable_string. destruct (utf8_valid bytes); [|by eexists].
  destruct (Nat.ltb_spec (str_len bytes) 2048); [by eexists|]. rewrite str_slice_ascii by (done || lia). by eexists.
Qed.

(** Other text of 2048 bytes or more does, when byte 2034 is inside a character. *)
Lemma printable_panics bytes : utf8_valid bytes = true → 2048 ≤ str_len bytes →
  starts_inside (str_drop 2034 bytes) = true → printable_string bytes = None.
Proof.
  intros Hu Hl Hs. unfold printable_string. rewrite Hu. destruct (Nat.ltb_spec (str_len bytes) 2048); [lia|].
  unfold str_slice. assert (Hb : is_boundary bytes 2034 = false).
  { unfold is_boundary. rewrite Hs, andb_false_r, orb_false_r. apply Nat.eqb_neq. lia. }
  by rewrite Hb, andb_false_r.
Qed.

Definition long_body : string := "x" +:+ str_concat (replicate 1024 (bytes_str [195; 169])).
Lemma long_body_panics : printable_string long_body = None.
Proof. apply printable_panics; vm_compute; [reflexivity|lia|reflexivity]. Qed.

(** Host names are in lower case and do not end in a dot. *)
Lemma trim_end_dots_spec s : ∃ n, s = trim_end_dots s +:+ str_concat (replicate n (char_of DOT)) ∧
  ¬ ∃ t, trim_end_dots s = t +:+ char_of DOT.
Proof.
  induction s as [|a s (n & E & Hn)]; cbn [trim_end_dots].
  - exists 0. split; [done|]. intros ([|b t] & Ht); by apply (f_equal str_len) in Ht.
  - case_decide as Hd.
    + destruct Hd as [-> Hd]. rewrite Hd in E. exists (S n). split; [|intros ([|b t] & Ht); by apply (f_equal str_len) in Ht].
      cbn [replicate str_concat]. rewrite str_app_nil_l in *. by rewrite E at 1.
    + exists n. split; [by rewrite str_app_cons, <-E|]. intros (t & Ht). destruct t as [|b t].
      * injection Ht as -> Ht. by apply Hd.
      * injection Ht as -> Ht. apply Hn. by exists t.
Qed.
