(* ===== verification/Pluto.v ===== *)
(** * pluto ([sources/api/pluto])

    The program that generates the settings of Kubernetes on AWS that the user has not set: the
    address of the cluster's DNS, the node's address, the number of pods, the provider's
    identifier and the node's name, from the metadata service, EKS and EC2.  The theorem
    says that a run sends at most one change, of settings that had no value.

    The answers of EKS and EC2 and the types of settings are the class [PlutoHost]; the
    text of addresses is [IpText]. *)
From S2P Require Import Prelude Json Numbers Chars Filesystem NetConfig Bloodhound Machine Imdsclient.
From Stdlib Require Import Ascii.
From stdpp Require Import base list strings gmap.
From stdpp Require Import options.

(** ** Definitions *)

Definition DEFAULT_DNS_CLUSTER_IP : string := "10.100.0.10".
Definition DEFAULT_10_RANGE_DNS_CLUSTER_IP : string := "172.20.0.10".
Definition ENI_MAX_PODS_PATH : string := "/usr/share/eks/eni-max-pods".
Definition ENI_MAX_PODS_OVERRIDE_PATH : string := "/usr/share/eks/eni-max-pods-override".
Definition AWS_CONFIG_FILE : string := "config.pluto".
Definition APICLIENT_BIN : string := "/usr/bin/apiclient".

(** *** Settings *)

Inductive KubernetesClusterDnsIp := Scalar (ip : IpAddr) | Vector (ips : list IpAddr).
Definition dns_ips (x : KubernetesClusterDnsIp) : list IpAddr :=
  match x with Scalar ip => [ip] | Vector ips => ips end.
Inductive KubernetesHostnameOverrideSource := PrivateDNSName | InstanceID.

(** The settings models, with the fields that the program uses; text types are strings. *)
Record AwsSettings := mk_aws { region : option string; aws_config : option string }.
Record NetworkSettings := mk_network { https_proxy : option string; no_proxy : option (list string) }.
Record KubernetesSettings := mk_kubernetes {
  cluster_name : option string;
  max_pods : option Z;
  cluster_dns_ip : option KubernetesClusterDnsIp;
  node_ip : option IpAddr;
  provider_id : option string;
  hostname_override : option string;
  hostname_override_source : option KubernetesHostnameOverrideSource }.
Definition kubernetes_default : KubernetesSettings := mk_kubernetes None None None None None None None.

Record SettingsView := mk_view {
  aws : option AwsSettings;
  network : option NetworkSettings;
  kubernetes : option KubernetesSettings }.
Record SettingsViewDelta := mk_delta { readonly : SettingsView; delta : SettingsView }.
Definition from_api_response (readonly : SettingsView) : SettingsViewDelta :=
  mk_delta readonly (mk_view None None None).

(** The macro [settings_view_get!], for a field of a section. *)
Definition settings_view_get {S A} (section : SettingsView → option S) (field : S → option A)
    (settings : SettingsViewDelta) : option A :=
  match section (delta settings) ≫= field with
  | Some v => Some v
  | None => section (readonly settings) ≫= field
  end.

(** The macro [settings_view_set!]: only fields of [kubernetes] are set. *)
Definition set_kubernetes (set : KubernetesSettings → KubernetesSettings) (settings : SettingsViewDelta) : SettingsViewDelta :=
  let d := delta settings in
  mk_delta (readonly settings) (mk_view (aws d) (network d) (Some (set (default kubernetes_default (kubernetes d))))).

Definition set_max_pods (v : Z) (k : KubernetesSettings) : KubernetesSettings :=
  mk_kubernetes (cluster_name k) (Some v) (cluster_dns_ip k) (node_ip k) (provider_id k) (hostname_override k) (hostname_override_source k).
Definition set_cluster_dns_ip (v : KubernetesClusterDnsIp) (k : KubernetesSettings) : KubernetesSettings :=
  mk_kubernetes (cluster_name k) (max_pods k) (Some v) (node_ip k) (provider_id k) (hostname_override k) (hostname_override_source k).
Definition set_node_ip (v : IpAddr) (k : KubernetesSettings) : KubernetesSettings :=
  mk_kubernetes (cluster_name k) (max_pods k) (cluster_dns_ip k) (Some v) (provider_id k) (hostname_override k) (hostname_override_source k).
Definition set_provider_id (v : string) (k : KubernetesSettings) : KubernetesSettings :=
  mk_kubernetes (cluster_name k) (max_pods k) (cluster_dns_ip k) (node_ip k) (Some v) (hostname_override k) (hostname_override_source k).
Definition set_hostname_override (v : string) (k : KubernetesSettings) : KubernetesSettings :=
  mk_kubernetes (cluster_name k) (max_pods k) (cluster_dns_ip k) (node_ip k) (provider_id k) (Some v) (hostname_override_source k).

(** *** Errors *)

Inductive api_error := CommandFailure | ExecutionFailure (reason : string) | Deserialize.
Inductive pluto_error :=
| AwsInfo (source : api_error)
| AwsRegion
| AwsBase64Decode
| ParseToU32 (setting : string)
| CidrParse (cidr reason : string)
| BadIp (ip : string)
| NoIp
| ImdsRequest (source : Imdsclient.error)
| ImdsNone (what : string)
| InvalidHostname
| InvalidUrl
| EksError
| Ec2Error
| EniMaxPodsFile (path : string)
| IoReadLine
| SerializeError
| SetFailure (source : api_error)
| NoInstanceTypeMaxPods (instance_type : string)
| CreateAwsConfigFile (filepath : string)
| WriteAwsConfigFile (filepath : string)
| Tempdir.

(** *** State and environment *)

Inductive IpFamily := Ipv4 | Ipv6 | OtherFamily.
Record ClusterNetworkConfig := mk_network_config {
  ip_family : option IpFamily;
  service_ipv4_cidr : option string;
  service_ipv6_cidr : option string }.

(** The client of the metadata service, the machine, the variable [AWS_CONFIG_FILE] and
    the settings. *)
Record pluto := mk_pluto {
  client : ImdsClient;
  host : machine;
  aws_config_file : option string;
  aws_k8s_info : SettingsViewDelta }.

(** The reservations of an answer of EC2, down to the private name of an instance. *)
Abbreviation reservations := (option (list (option (list (option string)))))%type.

(** [describe_cluster] is the answer of EKS, [None] an error or no answer in time, with the
    cluster and its configuration; [describe_instances] are the answers of EC2 that arrive in
    time, of which some may be errors. *)
Class PlutoHost := {
  describe_cluster : string → string → option string → option (list string) → pluto → option (option (option ClusterNetworkConfig));
  describe_instances : string → string → option string → option (list string) → pluto → list (option reservations);
  settings_view_of_slice : string → option SettingsView;
  kubernetes_to_value : KubernetesSettings → option json;
  valid_hostname : string → bool;
  valid_url : string → bool;
  temp_dir_path : string }.

(** *** Text *)

Definition HASH : ascii := ascii_of_nat 35.

(** The loop over the lines of a max-pods file. *)
Fixpoint max_pods_in (instance_type : string) (lines : list string) : result pluto_error Z :=
  match lines with
  | [] => Err (NoInstanceTypeMaxPods instance_type)
  | line :: lines =>
      if negb (utf8_valid line) then Err IoReadLine
      else if str_starts_with (trim_start line) (char_of HASH) then max_pods_in instance_type lines
      else
        match split_whitespace line with
        | [name; setting] =>
            if decide (name = instance_type) then ok_or (parse_u32 setting) (ParseToU32 setting)
            else max_pods_in instance_type lines
        | _ => max_pods_in instance_type lines
        end
  end.

Definition get_dns_from_ipv4_cidr (cidr : string) : result pluto_error string :=
  let split := str_split DOT cidr in
  let? _ := ensure (length split =? 4)%nat
    (CidrParse cidr ("expected 4 components but found " +:+ unsigned_to_string (Z.of_nat (length split)))) in
  Ok (str_join "." (<[3 := "10"]> split)).

(** [segments[7] = 0xa]: the low 16 bits of the address. *)
Definition set_last_segment (a : Z) : Z := Z.lor (Z.shiftl (Z.shiftr a 16) 16) 10.

Definition get_dns_from_ipv6_cidr `{IpText} (cidr : string) : result pluto_error string :=
  let addr_str := (str_splitn2 SLASH cidr).1 in
  match ip_from_str addr_str with
  | Some (V6 base_addr) => Ok (ip_to_string (V6 (set_last_segment base_addr)))
  | _ => Err (BadIp addr_str)
  end.

Definition get_dns_from_cluster_config `{IpText} (config : ClusterNetworkConfig) : option string :=
  match ip_family config with
  | Some Ipv6 => service_ipv6_cidr config ≫= λ cidr, ok (get_dns_from_ipv6_cidr cidr)
  | _ => service_ipv4_cidr config ≫= λ cidr, ok (get_dns_from_ipv4_cidr cidr)
  end.

(** The first private name in an answer, unless it is empty. *)
Definition private_dns_name (answer : reservations) : option string :=
  name ← (reservations ← answer; r ← head reservations; instances ← r; i ← head instances; i);
  if str_is_empty name then None else Some name.

Definition API_SETTINGS_URI : string := "/settings".
Definition LAUNCH_TRANSACTION : string := "bottlerocket-launch".

(** A panic of the client ends the program. *)
Definition is_panic (e : pluto_error) : bool := match e with ImdsRequest Panicked => true | _ => false end.

(** *** The program

    The temporary directory is removed when the program ends; that its file stays is of no
    consequence here. *)

Section program.
Context `{Imds, SerdeJson, JsonText, MachineOps, CtrLib, IpText, PlutoHost}.

Abbreviation act A := (stres pluto pluto_error A).

Definition on_host {A} (f : stres machine pluto_error A) : act A := λ s,
  let '(m, r) := f (host s) in (mk_pluto (client s) m (aws_config_file s) (aws_k8s_info s), r).
Definition get {S A} (section : SettingsView → option S) (field : S → option A) (s : pluto) : option A :=
  settings_view_get section field (aws_k8s_info s).

(** A request to the metadata service with its error and with what it is that must be found. *)
Definition on_client {A} (f : stres ImdsClient Imdsclient.error A) : act A := λ s,
  let '(c, r) := f (client s) in
  (mk_pluto c (host s) (aws_config_file s) (aws_k8s_info s), map_err ImdsRequest r).
Definition imds {A} (f : stres ImdsClient Imdsclient.error (option A)) (what : string) : act A :=
  let! o := on_client f in st_lift (ok_or o (ImdsNone what)).

(** The assignment: the section is made first, then the value, which may fail. *)
Definition view_set {A} (set : A → KubernetesSettings → KubernetesSettings) (value : result pluto_error A) : act () := λ s,
  let put f := mk_pluto (client s) (host s) (aws_config_file s) (set_kubernetes f (aws_k8s_info s)) in
  match value with
  | Ok v => (put (set v), Ok tt)
  | Err e => (put id, Err e)
  end.

Definition client_command (args : list string) : stres machine api_error string := λ m,
  let m' := note_ran (APICLIENT_BIN, args) m in
  match outcome APICLIENT_BIN args m with
  | None => (m', Err CommandFailure)
  | Some (true, stdout) => (m', Ok stdout)
  | Some (false, stderr) => (m', Err (ExecutionFailure (from_utf8_lossy stderr)))
  end.

Definition get_aws_k8s_info : stres machine api_error SettingsView :=
  let! view_str := client_command ["get"; "settings.aws"; "settings.network"; "settings.kubernetes"] in
  st_lift (ok_or (settings_view_of_slice view_str) Deserialize).

Definition get_max_pods_from_file (instance_type pods_file : string) (m : machine) : result pluto_error Z :=
  match files m !! pods_file with
  | Some content =>
      if io_ok ReadFile pods_file m then max_pods_in instance_type (str_lines content) else Err (EniMaxPodsFile pods_file)
  | None => Err (EniMaxPodsFile pods_file)
  end.

Definition get_max_pods : act Z :=
  let! instance_type := imds fetch_instance_type "instance_type" in λ s,
  match get_max_pods_from_file instance_type ENI_MAX_PODS_OVERRIDE_PATH (host s) with
  | Ok max_pods => (s, Ok max_pods)
  | Err _ => (s, get_max_pods_from_file instance_type ENI_MAX_PODS_PATH (host s))
  end.

Definition generate_max_pods : act () := λ s,
  match get kubernetes max_pods s with
  | Some _ => (s, Ok tt)
  | None =>
      match get_max_pods s with
      | (s, Ok max_pods) => view_set set_max_pods (Ok max_pods) s
      | (s, Err e) => (s, if is_panic e then Err e else Ok tt)
      end
  end.

Definition get_cluster_network_config (region cluster : string) (https_proxy : option string)
    (no_proxy : option (list string)) (s : pluto) : option ClusterNetworkConfig :=
  describe_cluster region cluster https_proxy no_proxy s ≫= λ cluster, cluster ≫= id.

Definition get_eks_network_config (s : pluto) : option string :=
  match get aws region s, get kubernetes cluster_name s with
  | Some region, Some cluster_name =>
      get_cluster_network_config region cluster_name (get network https_proxy s) (get network no_proxy s) s
        ≫= get_dns_from_cluster_config
  | _, _ => None
  end.

Definition get_ipv4_cluster_dns_ip_from_imds_mac : act string :=
  let! macs := imds fetch_mac_addresses "mac addresses" in
  let! mac := st_lift (ok_or (head macs) (ImdsNone "mac addresses")) in
  let! cidr_blocks := imds (fetch_cidr_blocks_for_mac mac) "CIDR blocks" in
  let! cidr_block := st_lift (ok_or (head cidr_blocks) (ImdsNone "CIDR blocks")) in
  st_ret (if str_starts_with cidr_block "10." then DEFAULT_10_RANGE_DNS_CLUSTER_IP else DEFAULT_DNS_CLUSTER_IP).

Definition parse_ip (ip : string) : result pluto_error IpAddr := ok_or (ip_from_str ip) (BadIp ip).

Definition generate_cluster_dns_ip : act () := λ s,
  match get kubernetes cluster_dns_ip s with
  | Some _ => (s, Ok tt)
  | None =>
      (let! ip_addr :=
         match get_eks_network_config s with
         | Some ip => st_ret ip
         | None => get_ipv4_cluster_dns_ip_from_imds_mac
         end in
       view_set set_cluster_dns_ip (Scalar <$> parse_ip ip_addr)) s
  end.

Definition generate_node_ip : act () := λ s,
  match get kubernetes node_ip s with
  | Some _ => (s, Ok tt)
  | None =>
      (let! _ := generate_cluster_dns_ip in
       let! cluster_dns_ip := λ s, (s, ok_or (get kubernetes cluster_dns_ip s ≫= λ x, head (dns_ips x)) NoIp) in
       let! node_ip :=
         match cluster_dns_ip with
         | V4 _ => imds fetch_local_ipv4_address "node ipv4 address"
         | V6 _ => imds fetch_primary_ipv6_address "ipv6s associated with primary network interface"
         end in
       view_set set_node_ip (parse_ip node_ip)) s
  end.

Definition generate_provider_id : act () := λ s,
  match get kubernetes provider_id s with
  | Some _ => (s, Ok tt)
  | None =>
      (let! instance_id := imds fetch_instance_id "instance ID" in
       let! zone := imds fetch_zone "zone" in
       let url := "aws:///" +:+ zone +:+ "/" +:+ instance_id in
       view_set set_provider_id (if valid_url url then Ok url else Err InvalidUrl)) s
  end.

(** The retries: the first answer with a name counts. *)
Definition get_private_dns_name (region instance_id : string) (https_proxy : option string)
    (no_proxy : option (list string)) (s : pluto) : option string :=
  head (omap (λ answer, answer ≫= private_dns_name) (describe_instances region instance_id https_proxy no_proxy s)).

Definition to_hostname (name : string) : result pluto_error string :=
  if valid_hostname name then Ok name else Err InvalidHostname.

Definition generate_node_name : act () := λ s,
  match get kubernetes hostname_override s, get kubernetes hostname_override_source s with
  | Some _, _ | None, None => (s, Ok tt)
  | None, Some hostname_source =>
      (let! region := st_lift (ok_or (get aws region s) AwsRegion) in
       let! instance_id := imds fetch_instance_id "instance ID" in
       match hostname_source with
       | PrivateDNSName =>
           let! hostname_override := λ s,
             (s, let? name := ok_or (get_private_dns_name region instance_id (get network https_proxy s) (get network no_proxy s) s) Ec2Error in
                 to_hostname name) in
           view_set set_hostname_override (Ok hostname_override)
       | InstanceID => view_set set_hostname_override (to_hostname instance_id)
       end) s
  end.

Definition set_aws_config (filepath : string) : act () := λ s,
  match get aws aws_config s with
  | Some config_contents =>
      (let! decoded_bytes := st_lift (ok_or (b64_decode config_contents) AwsBase64Decode) in
       let! _ := on_host (io CreateFile filepath (set_file filepath EmptyString) (CreateAwsConfigFile filepath)) in
       let! _ := on_host (fs_write_file filepath decoded_bytes (WriteAwsConfigFile filepath)) in λ s,
       (mk_pluto (client s) (host s) (Some filepath) (aws_k8s_info s), Ok tt)) s
  | None => (s, Ok tt)
  end.

Definition patch_args (generated_settings : json) : list string :=
  ["raw"; "-m"; "PATCH"; "-u"; API_SETTINGS_URI +:+ "?tx=" +:+ LAUNCH_TRANSACTION; "-d"; json_text generated_settings].

(** Sending what was generated, if anything was. *)
Definition send_delta : act () := λ s,
  match kubernetes (delta (aws_k8s_info s)) with
  | Some k8s_settings =>
      (let! value := st_lift (ok_or (kubernetes_to_value k8s_settings) SerializeError) in
       let! _ := on_host (st_map_err SetFailure (client_command (patch_args (JObject [("kubernetes", value)])))) in
       st_ret tt) s
  | None => (s, Ok tt)
  end.

(** The part of [run] between reading the settings and sending the new ones. *)
Definition generate : act () :=
  let! _ := on_host (io TempDir EmptyString id Tempdir) in
  let! _ := set_aws_config (path_join temp_dir_path AWS_CONFIG_FILE) in
  let! _ := generate_cluster_dns_ip in
  let! _ := generate_node_ip in
  let! _ := generate_max_pods in
  let! _ := generate_provider_id in
  generate_node_name.

Definition run (m : machine) : pluto * result pluto_error () :=
  let start := mk_pluto (imds_client_new BASE_URI) m None (from_api_response (mk_view None None None)) in
  (let! current_settings := on_host (st_map_err AwsInfo get_aws_k8s_info) in
   let! _ := λ s, (mk_pluto (client s) (host s) (aws_config_file s) (from_api_response current_settings), Ok tt) in
   let! _ := generate in
   send_delta) start.

Definition main (m : machine) : pluto * Z :=
  match run m with
  | (s, Ok _) => (s, 0%Z)
  | (s, Err e) => (s, if is_panic e then 101%Z else 1%Z)
  end.
End program.

(** ** What a run changes *)

(** The fields that the program may set. *)
Inductive generated : ∀ {A}, (KubernetesSettings → option A) → Prop :=
| gen_max_pods : generated max_pods
| gen_cluster_dns_ip : generated cluster_dns_ip
| gen_node_ip : generated node_ip
| gen_provider_id : generated provider_id
| gen_hostname_override : generated hostname_override.

(** The value of a field that is to be sent. *)
Definition changed {A} (f : KubernetesSettings → option A) (s : pluto) : option A :=
  kubernetes (delta (aws_k8s_info s)) ≫= f.

(** What every step keeps: no command is run, what was read stays, a field with a value keeps
    it, and a field that is newly to be sent had none. *)
Record advances (s s' : pluto) : Prop := {
  adv_ran : ran (host s') = ran (host s);
  adv_readonly : readonly (aws_k8s_info s') = readonly (aws_k8s_info s);
  adv_keep {A} (f : KubernetesSettings → option A) v : generated f → get kubernetes f s = Some v → get kubernetes f s' = Some v;
  adv_fresh {A} (f : KubernetesSettings → option A) v : generated f → changed f s' = Some v →
    changed f s = Some v ∨ get kubernetes f s = None }.

#[global] Instance advances_preorder : PreOrder advances.
Proof.
  split; [by split; auto|]. intros s1 s2 s3 [R1 O1 K1 F1] [R2 O2 K2 F2]. split; [congruence..|by eauto|].
  intros A f v Hg Hc. destruct (F2 A f v Hg Hc) as [H2|H2]; [by apply F1|]. right.
  destruct (get kubernetes f s1) as [w|] eqn:E; [|done]. by rewrite (K1 A f w Hg E) in H2.
Qed.

(** A step that leaves the settings alone. *)
Definition quiet (s s' : pluto) : Prop := ran (host s') = ran (host s) ∧ aws_k8s_info s' = aws_k8s_info s.
#[global] Instance quiet_preorder : PreOrder quiet.
Proof. split; [done|]. intros s1 s2 s3 [? ?] [? ?]. split; congruence. Qed.

Lemma quiet_advances s s' : quiet s s' → advances s s'.
Proof.
  intros [Hr Hi]. split; unfold get, changed; rewrite ?Hr, ?Hi; auto.
Qed.

(** A setter of the field [f] leaves the other fields alone. *)
Definition sets {A} (f : KubernetesSettings → option A) (put : KubernetesSettings → KubernetesSettings) : Prop :=
  (∀ k, is_Some (f (put k))) ∧
  ∀ B (g : KubernetesSettings → option B), generated g →
    (∀ k, g (put k) = g k) ∨ (∀ t, settings_view_get kubernetes f t = None → settings_view_get kubernetes g t = None).

Ltac solve_sets := split; [by eexists|intros ? ? []; (by left) || (by right)].
Lemma sets_max_pods v : sets max_pods (set_max_pods v).
Proof. solve_sets. Qed.
Lemma sets_cluster_dns_ip v : sets cluster_dns_ip (set_cluster_dns_ip v).
Proof. solve_sets. Qed.
Lemma sets_node_ip v : sets node_ip (set_node_ip v).
Proof. solve_sets. Qed.
Lemma sets_provider_id v : sets provider_id (set_provider_id v).
Proof. solve_sets. Qed.
Lemma sets_hostname_override v : sets hostname_override (set_hostname_override v).
Proof. solve_sets. Qed.

Lemma generated_default {A} (f : KubernetesSettings → option A) : generated f → f kubernetes_default = None.
Proof. by destruct 1. Qed.

(** Putting a value into a section that may not be there yet. *)
Lemma default_field {A} (f : KubernetesSettings → option A) o : generated f →
  f (default kubernetes_default o) = o ≫= f.
Proof. intros Hg. destruct o; [done|]. by apply generated_default. Qed.

Section facts.
Context `{Imds, SerdeJson, JsonText, MachineOps, CtrLib, IpText, PlutoHost}.
Implicit Types s : pluto.

Lemma view_set_advances {A B} (f : KubernetesSettings → option B) (put : A → KubernetesSettings → KubernetesSettings) value s :
  (∀ v, sets f (put v)) → get kubernetes f s = None → advances s (view_set put value s).1.
Proof.
  intros Hs Hn. assert (Hput : ∀ p, (p = id ∨ sets f p) →
    advances s (mk_pluto (client s) (host s) (aws_config_file s) (set_kubernetes p (aws_k8s_info s)))).
  { intros p Hp. set (k0 := kubernetes (delta (aws_k8s_info s))).
    assert (Hsame : ∀ C (g : KubernetesSettings → option C), generated g →
      g (p (default kubernetes_default k0)) = k0 ≫= g ∨ get kubernetes g s = None).
    { intros C g Hg. destruct Hp as [->|[_ Hp]]; [left; by apply default_field|].
      destruct (Hp C g Hg) as [E|E]; [left; by rewrite E, default_field|right; by apply E]. }
    split; [done..| |].
    - intros C g v Hg Hv. destruct (Hsame C g Hg) as [E|E]; [|by rewrite E in Hv].
      unfold get, settings_view_get in *. cbn. fold k0. fold k0 in Hv. by rewrite E.
    - intros C g v Hg Hv. destruct (Hsame C g Hg) as [E|E]; [left|by right].
      unfold changed in Hv. cbn in Hv. fold k0 in Hv. by rewrite E in Hv. }
  unfold view_set. destruct value as [v|e]; apply Hput; [right; apply Hs|by left].
Qed.

Lemma view_set_Ok {A B} (f : KubernetesSettings → option B) (put : A → KubernetesSettings → KubernetesSettings) value s s' :
  (∀ v, sets f (put v)) → view_set put value s = (s', Ok tt) → is_Some (get kubernetes f s').
Proof.
  intros Hs. unfold view_set. destruct value as [v|e]; [|done]. intros [= <-].
  destruct (proj1 (Hs v) (default kubernetes_default (kubernetes (delta (aws_k8s_info s))))) as [w E].
  unfold get, settings_view_get. cbn. rewrite E. by eexists.
Qed.

Lemma view_set_other {A D} (g : KubernetesSettings → option D) (put : A → KubernetesSettings → KubernetesSettings) value s :
  generated g → (∀ v k, g (put v k) = g k) → get kubernetes g (view_set put value s).1 = get kubernetes g s.
Proof.
  intros Hg Hp. unfold view_set, get, settings_view_get.
  destruct value as [v|e]; cbn; rewrite ?Hp; unfold id; by rewrite default_field.
Qed.

Lemma on_client_quiet {A} (f : stres ImdsClient Imdsclient.error A) : st_rel quiet (on_client f).
Proof. intros s. unfold on_client. by destruct (f (client s)) as [c r]. Qed.
Lemma imds_quiet {A} (f : stres ImdsClient Imdsclient.error (option A)) what : st_rel quiet (imds f what).
Proof. apply st_rel_bind; [apply _|apply on_client_quiet|]. intros o. apply st_rel_lift, _. Qed.
Lemma on_host_quiet {A} (f : stres machine pluto_error A) :
  st_rel (λ m m', ran m' = ran m) f → st_rel quiet (on_host f).
Proof. intros Hf s. unfold on_host. specialize (Hf (host s)). by destruct (f (host s)) as [m r]. Qed.
Lemma io_ran op path effect (e : pluto_error) : (∀ m, ran (effect m) = ran m) →
  st_rel (λ m m', ran m' = ran m) (io op path effect e).
Proof. intros He m. unfold io. by destruct (io_ok op path m); [apply He|]. Qed.

Lemma write_ran path content (e : pluto_error) : st_rel (λ m m', ran m' = ran m) (fs_write_file path content e).
Proof.
  intros m. destruct (fs_write_file path content e m) as [m' r] eqn:E.
  by apply fs_write_file_inv in E as [[_ ->]|[_ [->|[n ->]]]].
Qed.

Lemma set_aws_config_quiet path : st_rel quiet (set_aws_config path).
Proof.
  intros s. unfold set_aws_config. destruct (get aws aws_config s) as [c|]; [|done].
  refine (st_rel_bind quiet _ _ _ _ s); [apply st_rel_lift, _|]. intros bytes.
  apply st_rel_bind; [apply _|by apply on_host_quiet, io_ran|]. intros _.
  apply st_rel_bind; [apply _|apply on_host_quiet, write_ran|]. intros _ ?. done.
Qed.

Lemma mac_dns_quiet : st_rel quiet get_ipv4_cluster_dns_ip_from_imds_mac.
Proof.
  unfold get_ipv4_cluster_dns_ip_from_imds_mac.
  repeat first [apply imds_quiet | apply st_rel_lift, _ | apply st_rel_ret, _ |
                apply st_rel_bind; [apply _| |intros ?]].
Qed.

(** After quiet steps a field that had no value has none. *)
Lemma quiet_get {A} (f : KubernetesSettings → option A) s s' : quiet s s' → get kubernetes f s' = get kubernetes f s.
Proof. intros [_ Hi]. unfold get. by rewrite Hi. Qed.

(** A quiet step before an assignment to a field without a value: the field has one if all goes
    well, and a field that the setter leaves alone is as it was. *)
Lemma quiet_then_set {A B C} (f : KubernetesSettings → option B) (put : A → KubernetesSettings → KubernetesSettings)
    (m : stres pluto pluto_error C) value s s' r :
  (∀ v, sets f (put v)) → st_rel quiet m → get kubernetes f s = None →
  st_bind m (λ c, view_set put (value c)) s = (s', r) →
  advances s s' ∧ (r = Ok tt → is_Some (get kubernetes f s')) ∧
  ∀ D (g : KubernetesSettings → option D), generated g → (∀ v k, g (put v k) = g k) → get kubernetes g s' = get kubernetes g s.
Proof.
  intros Hs Hm Hn [(e & He & ->)|(s1 & c & Hc & Hv)]%st_bind_inv.
  - specialize (Hm s). rewrite He in Hm. split_and!; [by apply quiet_advances|done|]. intros D g _ _. by apply quiet_get.
  - specialize (Hm s). rewrite Hc in Hm. cbn in Hm. split_and!.
    + transitivity s1; [by apply quiet_advances|].
      pose proof (view_set_advances f put (value c) s1 Hs) as Ha. rewrite Hv in Ha. apply Ha. by rewrite (quiet_get f s s1).
    + intros ->. by eapply view_set_Ok.
    + intros D g Hg Hp. pose proof (view_set_other g put (value c) s1 Hg Hp) as Ho. rewrite Hv in Ho. cbn in Ho.
      rewrite Ho. by apply quiet_get.
Qed.

Lemma generate_cluster_dns_ip_spec s s' r : generate_cluster_dns_ip s = (s', r) →
  advances s s' ∧ (r = Ok tt → is_Some (get kubernetes cluster_dns_ip s')) ∧ get kubernetes node_ip s' = get kubernetes node_ip s.
Proof.
  unfold generate_cluster_dns_ip. destruct (get kubernetes cluster_dns_ip s) as [v|] eqn:E; intros Hr.
  - injection Hr as <- <-. split_and!; [done| |done]. rewrite E. by eexists.
  - eapply quiet_then_set in Hr as (Ha & Hs & Ho); [|exact (λ v, sets_cluster_dns_ip v)| |exact E].
    + split_and!; [done..|]. by apply (Ho _ node_ip gen_node_ip).
    + destruct (get_eks_network_config s); [apply st_rel_ret, _|apply mac_dns_quiet].
Qed.

Lemma generate_node_ip_spec s s' r : generate_node_ip s = (s', r) →
  advances s s' ∧ (r = Ok tt → is_Some (get kubernetes node_ip s')).
Proof.
  unfold generate_node_ip. destruct (get kubernetes node_ip s) as [v|] eqn:E; intros Hr.
  { injection Hr as <- <-. split; [done|]. rewrite E. by eexists. }
  apply st_bind_inv in Hr as [(e & (Ha & _)%generate_cluster_dns_ip_spec & ->)|(s1 & [] & Hd & Hr)]; [done|].
  apply generate_cluster_dns_ip_spec in Hd as (Ha & _ & E1). rewrite E in E1.
  apply st_bind_inv in Hr as [(e & Hn & ->)|(s2 & ip & Hn & Hr)].
  { injection Hn as <- _. by split. }
  injection Hn as <- _.
  eapply quiet_then_set in Hr as (Ha1 & Hs & _); [split; [by transitivity s1|exact Hs]|exact (λ v, sets_node_ip v)| |exact E1].
  destruct ip; apply imds_quiet.
Qed.

Lemma generate_max_pods_spec s s' r : generate_max_pods s = (s', r) → advances s s'.
Proof.
  unfold generate_max_pods. destruct (get kubernetes max_pods s) as [v|] eqn:E; [by intros [= <- _]|].
  assert (Hq : st_rel quiet get_max_pods).
  { apply st_rel_bind; [apply _|apply imds_quiet|]. intros t s0. by destruct (get_max_pods_from_file _ _ _). }
  specialize (Hq s). destruct (get_max_pods s) as [s1 [n|e]]; cbn in Hq; intros Hr.
  - transitivity s1; [by apply quiet_advances|]. injection Hr as <- _.
    apply (view_set_advances max_pods set_max_pods (Ok n) s1); [exact (λ v, sets_max_pods v)|by rewrite (quiet_get _ s)].
  - injection Hr as <- _. by apply quiet_advances.
Qed.

Lemma generate_provider_id_spec s s' r : generate_provider_id s = (s', r) →
  advances s s' ∧ (r = Ok tt → is_Some (get kubernetes provider_id s')).
Proof.
  unfold generate_provider_id. destruct (get kubernetes provider_id s) as [v|] eqn:E; intros Hr.
  { injection Hr as <- <-. split; [done|]. rewrite E. by eexists. }
  apply st_bind_inv in Hr as [(e & He & ->)|(s1 & i & Hi & Hr)].
  - pose proof (imds_quiet fetch_instance_id "instance ID" s) as Hq. rewrite He in Hq. split; [by apply quiet_advances|done].
  - pose proof (imds_quiet fetch_instance_id "instance ID" s) as Hq. rewrite Hi in Hq.
    eapply quiet_then_set in Hr as (Ha & Hs & _); [|exact (λ v, sets_provider_id v)|apply imds_quiet|by rewrite (quiet_get _ s)].
    split; [|exact Hs]. transitivity s1; [by apply quiet_advances|done].
Qed.

Lemma generate_node_name_spec s s' r : generate_node_name s = (s', r) → advances s s'.
Proof.
  unfold generate_node_name. destruct (get kubernetes hostname_override s) as [v|] eqn:E; [by intros [= <- _]|].
  destruct (get kubernetes hostname_override_source s) as [src|]; [|by intros [= <- _]]. intros Hr.
  apply st_bind_inv in Hr as [(e & He & _)|(s0 & reg & He & Hr)]; injection He as <- _; [done|].
  pose proof (imds_quiet fetch_instance_id "instance ID" s) as Hq.
  apply st_bind_inv in Hr as [(e & He & _)|(s1 & i & Hi & Hr)]; [rewrite He in Hq; by apply quiet_advances|].
  rewrite Hi in Hq. cbn in Hq. transitivity s1; [by apply quiet_advances|].
  assert (E1 : get kubernetes hostname_override s1 = None) by by rewrite (quiet_get _ s). destruct src.
  - eapply quiet_then_set in Hr as (Ha & _); [done|exact (λ v, sets_hostname_override v)| |done]. by intros ?.
  - pose proof (view_set_advances hostname_override set_hostname_override (to_hostname i) s1) as Ha. rewrite Hr in Ha.
    apply Ha; [exact (λ v, sets_hostname_override v)|done].
Qed.

(** A step that keeps what every step keeps, and after which, if it succeeds, [P] holds. *)
Definition ensures (m : stres pluto pluto_error ()) (P : pluto → Prop) : Prop :=
  ∀ s s' r, m s = (s', r) → advances s s' ∧ (r = Ok tt → P s').
Definition has {A} (f : KubernetesSettings → option A) s : Prop := is_Some (get kubernetes f s).

Lemma has_stable {A} (f : KubernetesSettings → option A) s s' : generated f → advances s s' → has f s → has f s'.
Proof. intros Hg Ha [v Hv]. exists v. by apply (adv_keep _ _ Ha). Qed.

Lemma ensures_quiet m : st_rel quiet m → ensures m (λ _, True).
Proof. intros Hm s s' r Hr. specialize (Hm s). rewrite Hr in Hm. by split; [apply quiet_advances|]. Qed.

Lemma ensures_bind m k P Q : (∀ s s', advances s s' → P s → P s') → ensures m P → ensures k Q →
  ensures (let! _ := m in k) (λ s, P s ∧ Q s).
Proof.
  intros Hst Hm Hk s s' r [(e & He & ->)|(s1 & [] & Hm1 & Hk1)]%st_bind_inv.
  - apply Hm in He as [Ha _]. by split.
  - apply Hm in Hm1 as [Ha HP]. apply Hk in Hk1 as [Ha1 HQ]. split; [by transitivity s1|].
    intros Hr. split; [apply (Hst s1); [done|by apply HP]|by apply HQ].
Qed.

(** What generating does, and what is known when it succeeds. *)
Lemma generate_spec : ensures generate (λ s, has cluster_dns_ip s ∧ has node_ip s ∧ has provider_id s).
Proof.
  assert (Hg : ensures generate (λ s, True ∧ True ∧ has cluster_dns_ip s ∧ has node_ip s ∧ True ∧ has provider_id s ∧ True)).
  { unfold generate. repeat apply ensures_bind; try (intros ? ? ?; apply has_stable; [constructor|done]); try done.
    - by apply ensures_quiet, on_host_quiet, io_ran.
    - apply ensures_quiet, set_aws_config_quiet.
    - intros s s' r (Ha & Hs & _)%generate_cluster_dns_ip_spec. by split.
    - intros s s' r Hr. by apply generate_node_ip_spec.
    - intros s s' r Hr%generate_max_pods_spec. by split.
    - intros s s' r Hr. by apply generate_provider_id_spec.
    - intros s s' r Hr%generate_node_name_spec. by split. }
  intros s s' r [Ha Hp]%Hg. split; [done|]. intros (_ & _ & ? & ? & _ & ? & _)%Hp. done.
Qed.

(** What a run that has read the settings leaves: the commands that it ran after reading them,
    and what it sends. *)
Definition READ_ARGS : list string := ["get"; "settings.aws"; "settings.network"; "settings.kubernetes"].
Definition sent_once (m : machine) s (r : result pluto_error ()) : Prop :=
  (ran (host s) = ran m ++ [(APICLIENT_BIN, READ_ARGS)] ∧ (r = Ok tt → kubernetes (delta (aws_k8s_info s)) = None)) ∨
  (∃ k value, kubernetes (delta (aws_k8s_info s)) = Some k ∧ kubernetes_to_value k = Some value ∧
     ran (host s) = ran m ++ [(APICLIENT_BIN, READ_ARGS); (APICLIENT_BIN, patch_args (JObject [("kubernetes", value)]))]).

(** What the API answers: the settings in the output of a command that succeeds. *)
Definition api_answer (m : machine) : option SettingsView :=
  match outcome APICLIENT_BIN READ_ARGS m with
  | Some (true, stdout) => settings_view_of_slice stdout
  | _ => None
  end.

(** A field with a value, in the settings of the API or among those that are sent. *)
Definition known {A} (view : SettingsView) (f : KubernetesSettings → option A) s : Prop :=
  is_Some (changed f s) ∨ is_Some (kubernetes view ≫= f).

Lemma client_command_ran args m m' r : client_command args m = (m', r) → ran m' = ran m ++ [(APICLIENT_BIN, args)].
Proof. unfold client_command. destruct (outcome _ _ _) as [[[] ?]|]; by intros [= <- _]. Qed.

Lemma read_settings s : ∃ m1 r,
  on_host (st_map_err AwsInfo get_aws_k8s_info) s = (mk_pluto (client s) m1 (aws_config_file s) (aws_k8s_info s), r) ∧
  ran m1 = ran (host s) ++ [(APICLIENT_BIN, READ_ARGS)] ∧
  match r with Ok view => api_answer (host s) = Some view | Err e => (∃ e', e = AwsInfo e') ∧ api_answer (host s) = None end.
Proof.
  unfold on_host, st_map_err, get_aws_k8s_info, st_bind, client_command, api_answer. fold READ_ARGS.
  destruct (outcome APICLIENT_BIN READ_ARGS (host s)) as [[[] out]|]; cbn.
  - destruct (settings_view_of_slice out) as [view|]; eexists _, _; (split; [reflexivity|]); (split; [done|]); [done|split; [by eexists|done]].
  - eexists _, _. split; [reflexivity|]. eauto.
  - eexists _, _. split; [reflexivity|]. eauto.
Qed.

Lemma send_delta_spec m s s' r : ran (host s) = ran m ++ [(APICLIENT_BIN, READ_ARGS)] →
  send_delta s = (s', r) → aws_k8s_info s' = aws_k8s_info s ∧ sent_once m s' r.
Proof.
  intros Hran. unfold send_delta. destruct (kubernetes (delta (aws_k8s_info s))) as [k|] eqn:E.
  - intros [(e & _ & -> & ->)|(value & Hv%ok_or_Ok & Hr)]%st_lift_inv; [by split; [|left]|].
    assert (Hs : ∃ m1, s' = mk_pluto (client s) m1 (aws_config_file s) (aws_k8s_info s) ∧
      ran m1 = ran (host s) ++ [(APICLIENT_BIN, patch_args (JObject [("kubernetes", value)]))]).
    { unfold st_bind, on_host, st_map_err in Hr.
      destruct (client_command _ (host s)) as [m1 r1] eqn:Ec. exists m1. apply client_command_ran in Ec.
      destruct (map_err SetFailure r1); by injection Hr as <- _. }
    destruct Hs as (m1 & -> & Hm1). split; [done|]. right. exists k, value. split; [done|]. split; [done|].
    cbn. rewrite Hm1, Hran. by rewrite <-app_assoc.
  - intros [= <- <-]. split; [done|]. by left.
Qed.
End facts.

(** C17. A run of pluto asks the API for the settings with its first command.  Without
    a readable answer it fails, generates nothing and runs no other command.  Otherwise
    it runs at most one more, which changes the launch transaction to exactly the
    settings that were generated; whatever fails, only settings without a value in the
    answer of the API are generated; and when the run succeeds the cluster's DNS, the node's
    address and the provider's identifier have a value, in the answer of the API or
    among those sent. *)
Theorem pluto_fills_missing `{Imds, SerdeJson, JsonText, MachineOps, CtrLib, IpText, PlutoHost} m s r :
  run m = (s, r) →
  match api_answer m with
  | None => (∃ e, r = Err (AwsInfo e)) ∧ ran (host s) = ran m ++ [(APICLIENT_BIN, READ_ARGS)] ∧
      kubernetes (delta (aws_k8s_info s)) = None
  | Some view =>
      sent_once m s r ∧
      (∀ A (f : KubernetesSettings → option A) v, generated f → changed f s = Some v → kubernetes view ≫= f = None) ∧
      (r = Ok tt → known view cluster_dns_ip s ∧ known view node_ip s ∧ known view provider_id s)
  end.
Proof.
  unfold run. set (start := mk_pluto _ _ _ _). intros Hr. destruct (read_settings start) as (m1 & r2 & E2 & Hm1 & Ha).
  unfold st_bind at 1 in Hr. rewrite E2 in Hr. cbn [host start] in Hm1, Ha.
  destruct r2 as [view|e]; [|destruct Ha as [[e' ->] Ha]; injection Hr as <- <-; rewrite Ha; split_and!; [by eexists|exact Hm1|done]].
  apply st_bind_inv in Hr as [(e & He & _)|(s2 & [] & [= <-] & Hr)]; [done|]. rewrite Ha.
  assert (Hfresh : ∀ s3, advances (mk_pluto (client start) m1 (aws_config_file start) (from_api_response view)) s3 →
    ran (host s3) = ran m ++ [(APICLIENT_BIN, READ_ARGS)] ∧
    ∀ A (f : KubernetesSettings → option A) v, generated f → changed f s3 = Some v → kubernetes view ≫= f = None).
  { intros s3 Hs3. split; [by rewrite (adv_ran _ _ Hs3)|]. intros A f v Hg Hc. by destruct (adv_fresh _ _ Hs3 f v Hg Hc). }
  apply st_bind_inv in Hr as [(e & He & ->)|(s3 & [] & Hg & Hr)].
  - apply generate_spec in He as [Hs3 _]. destruct (Hfresh _ Hs3) as [Hran Hf]. split_and!; [by left|exact Hf|done].
  - apply generate_spec in Hg as [Hs3 Hk]. destruct (Hfresh _ Hs3) as [Hran Hf].
    apply (send_delta_spec m) in Hr as [Hi Hs]; [|done]. split; [done|].
    split; [unfold changed; rewrite Hi; exact Hf|]. intros _. destruct (Hk eq_refl) as (H1' & H2' & H3').
    assert (∀ A (f : KubernetesSettings → option A), has f s3 → known view f s) as Hkn; [|by split_and!; apply Hkn].
    intros A f. unfold has, known, get, settings_view_get, changed. rewrite Hi, (adv_readonly _ _ Hs3). cbn.
    destruct (kubernetes (delta (aws_k8s_info s3)) ≫= f); [by left|by right].
Qed.

(** A node on which nothing is set, and whose service does not answer but with an address. *)
Definition example_pluto_imds : Imds := {|
  answers c :=
    [Response 200 (Some (if (length (sent c) =? 0)%nat then "token" else "10.0.0.7"));
     Response 200 (Some "10.0.0.7"); Response 200 (Some "10.0.0.7")];
  response_text := id;
  header_ok _ := true |}.
Definition example_pluto_text : IpText.
Proof.
  refine {| ip_to_string _ := "10.0.0.7"; ip_from_str _ := Some (V4 0); ipnet_to_string _ := "net"; ipnet_from_str _ := None |};
    by intros.
Defined.
Definition example_pluto_host : PlutoHost := {|
  describe_cluster _ _ _ _ _ := Some (Some (Some (mk_network_config None (Some "10.100.0.0/16") None)));
  describe_instances _ _ _ _ _ := [];
  settings_view_of_slice _ := Some (mk_view None None (Some (mk_kubernetes None (Some 5%Z) None None (Some "aws:///z/i") None None)));
  kubernetes_to_value _ := Some (JObject []);
  valid_hostname _ := true;
  valid_url _ := true;
  temp_dir_path := "/tmp/x" |}.

Lemma pluto_fills_missing_witness :
  let ran_ := run (H := example_pluto_imds) (H0 := example_json) (H1 := example_json_text) (H2 := example_ops)
    (H3 := example_ctr_lib) (H4 := example_pluto_text) (H5 := example_pluto_host) (machine_with []) in
  ∃ view, api_answer (H2 := example_ops) (H5 := example_pluto_host) (machine_with []) = Some view ∧
  ran_.2 = Ok tt ∧ changed node_ip ran_.1 = Some (V4 0) ∧ changed max_pods ran_.1 = None ∧ known view provider_id ran_.1.
Proof.
  cbn zeta. set (ran_ := run _). eexists. split; [reflexivity|].
  assert (Hr : ran_.2 = Ok tt) by (vm_compute; reflexivity).
  split; [exact Hr|]. split; [vm_compute; reflexivity|]. split; [vm_compute; reflexivity|].
  refine (proj2 (proj2 (proj2 (proj2 (pluto_fills_missing (H := example_pluto_imds) (H0 := example_json) (H1 := example_json_text)
    (H2 := example_ops) (H3 := example_ctr_lib) (H4 := example_pluto_text) (H5 := example_pluto_host)
    (machine_with []) ran_.1 ran_.2 _)) Hr))).
  apply surjective_pairing.
Defined.

(** ** Addresses *)

(** Of four components the last is replaced, with the length of the prefix. *)
Lemma ipv4_dns a b c rest : no_char DOT a → no_char DOT b → no_char DOT c → no_char DOT rest →
  get_dns_from_ipv4_cidr (a +:+ "." +:+ b +:+ "." +:+ c +:+ "." +:+ rest) = Ok (a +:+ "." +:+ b +:+ "." +:+ c +:+ ".10").
Proof.
  intros Ha Hb Hc Hr. unfold get_dns_from_ipv4_cidr.
  assert (E : ∀ t, "." +:+ t = String DOT t) by done. rewrite !E, !str_split_sep, !str_split_none by done. done.
Qed.

(** The last segment of an IPv6 address is ten, and the others stay. *)
Lemma last_segment_spec a : (set_last_segment a mod 2 ^ 16 = 10 ∧ set_last_segment a / 2 ^ 16 = a / 2 ^ 16)%Z.
Proof.
  unfold set_last_segment. rewrite Z.shiftl_mul_pow2, Z.shiftr_div_pow2 by lia.
  assert (E : Z.lor (a / 2 ^ 16 * 2 ^ 16) 10 = (a / 2 ^ 16 * 2 ^ 16 + 10)%Z).
  { rewrite <-Z.add_lor_land at 1. assert (Hl : Z.land (a / 2 ^ 16 * 2 ^ 16) 10 = 0%Z); [|lia].
    apply Z.bits_inj'. intros n Hn. rewrite Z.land_spec, Z.bits_0.
    destruct (Z.ltb_spec n 16).
    - by rewrite Z.mul_pow2_bits_low by lia.
    - rewrite (Z.bits_above_log2 10); [by rewrite andb_false_r|done|]. cbn. lia. }
  rewrite E. split; [by rewrite Z.add_comm, Z.mod_add|]. rewrite Z.div_add_l, (Z.div_small 10) by lia. lia.
Qed.
