(* ===== verification/Registries.v ===== *)
(** * thar-be-registries ([sources/api/thar-be-registries])

    The program that writes containerd's configuration of registries, the mirrors and the
    credentials of each, into a new directory that takes the place of the old one at once.
    The theorem says that the directory is, at any outcome, the old one or the whole new one.

    URLs are the class [UrlLib], TOML the class [RegistryToml].  The kernel resolves the
    names [.] and [..] in a path ([resolve]); links are not modelled.  A registry whose host is one
    of these names is written outside of its directory ([dots_escape]), which the theorem
    therefore excludes. *)
From S2P Require Import Prelude Json Numbers Chars Filesystem Bloodhound Machine.
From Stdlib Require Import Ascii.
From stdpp Require Import base list strings gmap.
From stdpp Require Import options.

(** ** Definitions *)

Definition CERTS_DIR : string := "/etc/containerd/certs.d".
Definition INPUT_FILE : string := "/etc/containerd/thar-be-registries.toml".
Definition DOCKER_HUB_HOST : string := "docker.io".
Definition DOCKER_HUB_REGISTRY : string := "registry-1.docker.io".

Record Mirror := mk_mirror { mirror_registry : string; endpoint : list string }.
Record Credential := mk_credential {
  cred_registry : string;
  username : option string;
  password : option string;
  auth : option string;
  identitytoken : option string }.
Record Settings := mk_settings { mirrors : option (list Mirror); credentials : option (list Credential) }.

Inductive Capability := Pull | Resolve | Push.
Record HostConfig := mk_host_config {
  capabilities : option (list Capability);
  override_path : option bool }.
(** The map of endpoints is sorted by their names. *)
Record HostNamespace := mk_namespace {
  server : option string;
  host : list (string * HostConfig) }.
Record RegistryCredentials := mk_registry_credentials {
  rc_username : option string;
  rc_password : option string;
  rc_auth : option string;
  rc_identitytoken : option string }.

Inductive error :=
| ReadSettings (path : string)
| ParseSettings (path : string)
| CreateDir (path : string)
| WriteFileError (path : string)
| SerializeToml
| WriteRegistries (failure_count total_count : nat)
| ParseRegistry (registry : string)
| RenameDir (from to : string).

(** A parsed URL, and what is relied on of its host: it is not empty and has no slash. *)
Record Url := mk_url { scheme : string; host_str : option string; port : option Z; url_path : string }.
Class UrlLib := {
  url_parse : string → option Url;
  url_host s u h : url_parse s = Some u → host_str u = Some h → h ≠ EmptyString ∧ no_char SLASH h }.

Class RegistryToml := {
  settings_of_toml : string → option Settings;
  namespace_to_toml : HostNamespace → option string;
  credentials_to_toml : RegistryCredentials → option string }.

Definition format_host_port (host : string) (port : option Z) : string :=
  match port with
  | Some p => host +:+ ":" +:+ unsigned_to_string p
  | None => host
  end.

(** [rfind]: the parts before and after the last [c]. *)
Fixpoint str_rsplit (c : ascii) (s : string) : option (string * string) :=
  match s with
  | EmptyString => None
  | String a s =>
      match str_rsplit c s with
      | Some (x, y) => Some (String a x, y)
      | None => if decide (a = c) then Some (EmptyString, s) else None
      end
  end.

Definition COLON : ascii := ascii_of_nat 58.
Definition encode_registry_name (name : string) : string :=
  if decide (name = "*") then "_default"
  else match str_rsplit COLON name with
       | Some (host, port) => host +:+ "_" +:+ port +:+ "_"
       | None => name
       end.

Section program.
Context `{UrlLib, RegistryToml, MachineOps}.

Abbreviation act A := (stres machine error A).

(** The host with its port, and the scheme. *)
Definition url_host_port (registry : string) : option (string * Url) :=
  url ← url_parse registry; host ← host_str url; Some (format_host_port host (port url), url).
Definition parse_registry (registry : string) : result error (string * string) :=
  match url_host_port registry with
  | Some (host, url) => Ok (host, scheme url)
  | None =>
      match url_host_port ("https://" +:+ registry) with
      | Some (host, _) => Ok (host, "https")
      | None => Err (ParseRegistry registry)
      end
  end.

Definition has_path_component (endpoint : string) : bool :=
  match url_parse endpoint with
  | Some url => negb (str_is_empty (url_path url)) && bool_decide (url_path url ≠ "/")
  | None => false
  end.

Definition host_config (endpoint : string) : HostConfig :=
  mk_host_config (Some [Pull; Resolve]) (if has_path_component endpoint then Some true else None).

(** The content of [hosts.toml], for a parsed registry. *)
Definition namespace_of (host scheme : string) (mirror : Mirror) : HostNamespace :=
  let server :=
    if decide (host = "*") then None
    else if decide (host = DOCKER_HUB_HOST) then Some ("https://" +:+ DOCKER_HUB_REGISTRY)
    else Some (scheme +:+ "://" +:+ host) in
  mk_namespace server (fold_left (λ m ep, obj_insert ep (host_config ep) m) (endpoint mirror) []).

(** The path that a path leads to: empty names and [.] are skipped, [..] is the parent. *)
Definition resolve_step (acc : list string) (n : string) : list string :=
  if decide (n = EmptyString ∨ n = ".") then acc
  else if decide (n = "..") then take (pred (length acc)) acc
  else acc ++ [n].
Definition resolve (path : string) : string :=
  "/" +:+ str_join "/" (fold_left resolve_step (str_split SLASH path) []).

Definition write_hosts_toml (base_dir : string) (mirror : Mirror) : act () :=
  let! (host, scheme) := st_lift (parse_registry (mirror_registry mirror)) in
  let dir := path_join base_dir (encode_registry_name host) in
  let! _ := fs_create_dir_all (resolve dir) (CreateDir dir) in
  let! content := st_lift (ok_or (namespace_to_toml (namespace_of host scheme mirror)) SerializeToml) in
  let path := path_join dir "hosts.toml" in
  fs_write_file (resolve path) content (WriteFileError path).

Definition credentials_of (cred : Credential) : RegistryCredentials :=
  mk_registry_credentials (username cred) (password cred) (auth cred) (identitytoken cred).
Definition cred_host (host : string) : string :=
  if decide (host = DOCKER_HUB_HOST) then DOCKER_HUB_REGISTRY else host.

(** Opening a file for writing creates it with its mode, or truncates it. *)
Definition MODE_0600 : Z := 384.
Definition open_private (path : string) (m : machine) : machine :=
  let m' := set_file path EmptyString m in
  match files m !! path with Some _ => m' | None => set_dir_mode path MODE_0600 m' end.

Definition write_credentials_toml (base_dir : string) (cred : Credential) : act () :=
  let! (host, _) := st_lift (parse_registry (cred_registry cred)) in
  let dir := path_join base_dir (encode_registry_name (cred_host host)) in
  let! _ := fs_create_dir_all (resolve dir) (CreateDir dir) in
  let! content := st_lift (ok_or (credentials_to_toml (credentials_of cred)) SerializeToml) in
  let path := path_join dir "credentials.toml" in
  let! _ := io CreateFile path (open_private (resolve path)) (WriteFileError path) in
  fs_write_file (resolve path) content (WriteFileError path).

Definition read_settings (path : string) : act Settings :=
  let! contents := fs_read_to_string path (ReadSettings path) in
  st_lift (ok_or (settings_of_toml contents) (ParseSettings path)).

(** A path in the directory, and what [RENAME_EXCHANGE] makes of a path. *)
Definition under (dir path : string) : bool := str_starts_with path (dir +:+ "/").
Definition swap_dir (a b path : string) : string :=
  if under a path then b +:+ str_drop (str_len a) path
  else if under b path then a +:+ str_drop (str_len b) path
  else path.
Definition exchange (a b : string) (m : machine) : machine :=
  mk_machine (kmap (swap_dir a b) (files m)) (dirs m) (kmap (swap_dir a b) (dir_modes m)) (ran m).
Definition rename_exchange_dir (a b : string) : act () := io Exchange a (exchange a b) (RenameDir a b).

(** The removal of the temporary directory, whose error does not matter. *)
Definition drop_temp (temp_dir : string) (m : machine) : machine :=
  if io_ok RemoveFile temp_dir m then
    mk_machine (filter (λ e, under temp_dir e.1 = false) (files m)) (dirs m)
      (filter (λ e, under temp_dir e.1 = false) (dir_modes m)) (ran m)
  else m.

(** The part of [run] that fills the temporary directory and puts it in place. *)
Definition write_registries (temp_dir : string) (settings : Settings) : act () := λ m,
  let mirrors := default [] (mirrors settings) in
  let credentials := default [] (credentials settings) in
  let total_count := length mirrors + length credentials in
  let '(m, failed_hosts) := count_failures mirrors (write_hosts_toml temp_dir) m in
  let '(m, failed_credentials) := count_failures credentials (write_credentials_toml temp_dir) m in
  let failure_count := failed_hosts + failed_credentials in
  if (0 <? failure_count)%nat then (m, Err (WriteRegistries failure_count total_count))
  else
    (let! _ := fs_create_dir_all CERTS_DIR (CreateDir CERTS_DIR) in
     rename_exchange_dir temp_dir CERTS_DIR) m.

(** [run], for the name that the temporary directory gets. *)
Definition run (temp_dir : string) : act () := λ m,
  match files m !! INPUT_FILE with
  | None => (m, Ok tt)
  | Some _ =>
      (let! settings := read_settings INPUT_FILE in
       let! _ := io TempDir "/etc/containerd" id (CreateDir "/etc/containerd") in λ m,
       let '(m, r) := write_registries temp_dir settings m in (drop_temp temp_dir m, r)) m
  end.

Definition main (temp_dir : string) (m : machine) : machine * Z :=
  match run temp_dir m with
  | (m, Ok _) => (m, 0%Z)
  | (m, Err _) => (m, 1%Z)
  end.
End program.

(** ** Facts *)

Section facts.
Context `{UrlLib, RegistryToml, MachineOps}.
Implicit Types m : machine.

(** *** What the directory is to hold *)

(** The files of a mirror and of a credential, by their path in the directory. *)
Definition hosts_file (mirror : Mirror) : option (string * string) :=
  '(host, scheme) ← ok (parse_registry (mirror_registry mirror));
  content ← namespace_to_toml (namespace_of host scheme mirror);
  Some (encode_registry_name host +:+ "/hosts.toml", content).
Definition credentials_file (cred : Credential) : option (string * string) :=
  '(host, _) ← ok (parse_registry (cred_registry cred));
  content ← credentials_to_toml (credentials_of cred);
  Some (encode_registry_name (cred_host host) +:+ "/credentials.toml", content).

(** Contents with modes; [None] is the default one. *)
Abbreviation contents := (gmap string (string * option Z)).
Definition put_hosts (e : contents) (mirror : Mirror) : contents :=
  match hosts_file mirror with Some (rel, c) => <[rel := (c, None)]> e | None => e end.
Definition put_credentials (e : contents) (cred : Credential) : contents :=
  match credentials_file cred with
  | Some (rel, c) => <[rel := (c, match e !! rel with Some (_, mode) => mode | None => Some MODE_0600 end)]> e
  | None => e
  end.
Definition expected (settings : Settings) : contents :=
  fold_left put_credentials (default [] (credentials settings)) (fold_left put_hosts (default [] (mirrors settings)) ∅).

(** The directory holds these contents. *)
Definition holds (dir : string) (e : contents) m : Prop := ∀ rel,
  files m !! (dir +:+ "/" +:+ rel) = fst <$> e !! rel ∧ dir_modes m !! (dir +:+ "/" +:+ rel) = e !! rel ≫= snd.

(** Two machines are the same but for the directory. *)
Definition same_but (dir : string) m m' : Prop := ∀ p, under dir p = false →
  files m' !! p = files m !! p ∧ dir_modes m' !! p = dir_modes m !! p.
#[local] Instance same_but_preorder dir : PreOrder (same_but dir).
Proof.
  split; [done|]. intros m1 m2 m3 H12 H23 p Hp. destruct (H12 p Hp), (H23 p Hp). split; congruence.
Qed.

Lemma under_spec dir p : under dir p = true ↔ ∃ t, p = dir +:+ "/" +:+ t.
Proof. unfold under. rewrite str_starts_with_spec. by setoid_rewrite <-str_app_assoc. Qed.

(** *** Names of registries *)

Lemma registry_name_no_slash h : h ≠ EmptyString → no_char SLASH h →
  encode_registry_name h ≠ EmptyString ∧ no_char SLASH (encode_registry_name h).
Proof.
  intros Hne Hs. unfold encode_registry_name. case_decide; [done|].
  assert (Hr : ∀ c s x y, str_rsplit c s = Some (x, y) → s = x +:+ String c y).
  { intros c s. induction s as [|a s IH]; cbn; [done|]. intros x y. destruct (str_rsplit c s) as [[x' y']|].
    - intros [= <- <-]. cbn. by rewrite (IH x' y').
    - case_decide; [|done]. by intros [= <- <-]; subst. }
  destruct (str_rsplit COLON h) as [[x y]|] eqn:E; [|done]. apply Hr in E as ->.
  split; [by destruct x|]. apply no_char_app in Hs as [Hx Hy]. change (String COLON y) with (":" +:+ y) in Hy.
  rewrite !no_char_app in *. naive_solver.
Qed.

Lemma host_port_plain reg h u : url_host_port reg = Some (h, u) → h ≠ EmptyString ∧ no_char SLASH h.
Proof.
  unfold url_host_port. destruct (url_parse reg) as [u'|] eqn:E; cbn; [|done].
  destruct (host_str u') as [h'|] eqn:Eh; cbn; [|done]. intros [= <- <-]. destruct (url_host _ _ _ E Eh) as [Hne Hs].
  unfold format_host_port. destruct (port u') as [p|]; [|done]. split; [by destruct h'|].
  rewrite !no_char_app. split_and!; [done..|]. by apply unsigned_to_string_no_char.
Qed.

Lemma registry_plain reg h sch : parse_registry reg = Ok (h, sch) → h ≠ EmptyString ∧ no_char SLASH h.
Proof.
  unfold parse_registry. destruct (url_host_port reg) as [[h' u]|] eqn:E; [intros [= <- <-]; by eapply host_port_plain|].
  destruct (url_host_port ("https://" +:+ reg)) as [[h' u]|] eqn:E2; [|done]. intros [= <- <-]. by eapply host_port_plain.
Qed.

Lemma cred_host_plain h : h ≠ EmptyString ∧ no_char SLASH h → cred_host h ≠ EmptyString ∧ no_char SLASH (cred_host h).
Proof. unfold cred_host. by case_decide. Qed.

(** Names that a path may go through and that stay in their directory. *)
Definition dots (n : string) : Prop := n = "." ∨ n = "..".
Definition dir_name (n : string) : Prop := n ≠ EmptyString ∧ no_char SLASH n ∧ ¬ dots n.

Lemma registry_dir_name h : h ≠ EmptyString ∧ no_char SLASH h → ¬ dots h → dir_name (encode_registry_name h).
Proof.
  intros [Hne Hs] Hd. destruct (registry_name_no_slash h Hne Hs) as [Hne' Hs']. split_and!; [done..|].
  unfold encode_registry_name. case_decide; [by intros [?|?]|]. destruct (str_rsplit COLON h) as [[x y]|]; [|done].
  assert (Hu : ∀ t, no_char (ascii_of_nat 95) t → x +:+ "_" +:+ y +:+ "_" ≠ t).
  { intros t Ht <-. rewrite !no_char_app in Ht. by destruct Ht as (_ & ? & _). }
  by intros [E|E]; apply Hu in E.
Qed.

Lemma cred_host_dots h : ¬ dots h → ¬ dots (cred_host h).
Proof. unfold cred_host. case_decide; [|done]. by intros _ [?|?]. Qed.

(** A directory below which paths without dots lead to themselves. *)
Record temp_ok (tmp : string) : Prop := {
  temp_base : str_is_empty tmp || str_ends_with tmp SLASH = false;
  temp_resolve n f : dir_name n → dir_name f →
    resolve (tmp +:+ "/" +:+ n +:+ "/" +:+ f) = tmp +:+ "/" +:+ n +:+ "/" +:+ f }.

Lemma resolve_step_name acc n : dir_name n → resolve_step acc n = acc ++ [n].
Proof.
  intros (Hne & _ & Hd). unfold resolve_step. rewrite !decide_False; [done|..].
  - intros ->. apply Hd. by right.
  - intros [->| ->]; [done|]. apply Hd. by left.
Qed.

(** The path of a file in a registry's directory. *)
Lemma file_path base h f : temp_ok base → h ≠ EmptyString ∧ no_char SLASH h → ¬ dots h → dir_name f →
  resolve (path_join (path_join base (encode_registry_name h)) f) = base +:+ "/" +:+ encode_registry_name h +:+ "/" +:+ f.
Proof.
  intros [Hb Hr] Hh Hd Hdf. pose proof (registry_dir_name h Hh Hd) as (Hne' & Hs' & Hd').
  rewrite <-(Hr (encode_registry_name h) f) by done. f_equal. destruct Hdf as (Hf & Hfs & _).
  rewrite <-(str_app_nil_r (encode_registry_name h)) at 1. rewrite path_join_plain by done.
  rewrite str_app_nil_r. rewrite <-(str_app_nil_r f) at 1. rewrite path_join_plain; [|done..|].
  - by rewrite str_app_nil_r, !str_app_assoc.
  - rewrite str_app_assoc, ends_with_app by done. by destruct base.
Qed.

(** *** Writing the files *)

Lemma under_path dir rel : under dir (dir +:+ "/" +:+ rel) = true.
Proof. apply under_spec. by exists rel. Qed.
Lemma under_ne dir p rel : under dir p = false → p ≠ dir +:+ "/" +:+ rel.
Proof. intros Hu ->. by rewrite under_path in Hu. Qed.

(** The registry of a mirror or a credential has no host that is a dot or two. *)
Definition no_dots (registry : string) : Prop := ∀ h sch, parse_registry registry = Ok (h, sch) → ¬ dots h.

Lemma write_hosts_steps tmp mirror m m' r : temp_ok tmp → no_dots (mirror_registry mirror) →
  write_hosts_toml tmp mirror m = (m', r) →
  same_but tmp m m' ∧
  (r = Ok tt → ∃ rel content, hosts_file mirror = Some (rel, content) ∧
     files m' = <[tmp +:+ "/" +:+ rel := content]> (files m) ∧ dir_modes m' = dir_modes m).
Proof.
  intros Hb Hnd Hw. unfold write_hosts_toml in Hw.
  apply st_lift_inv in Hw as [(e & He & -> & ->)|([h sch] & Hp & Hw)]; [done|].
  pose proof (registry_plain _ _ _ Hp) as Hpl. unfold hosts_file. rewrite Hp. cbn [ok mbind option_bind].
  apply st_bind_inv in Hw as [(e & He & ->)|(m1 & [] & ->%io_Ok & Hw)].
  { unfold fs_create_dir_all, io in He. by destruct (io_ok _ _ _); [|injection He as <-]. }
  apply st_lift_inv in Hw as [(e & He & -> & ->)|(content & Hc%ok_or_Ok & Hw)]; [by split; [intros ?|]|].
  rewrite Hc. rewrite file_path in Hw; [|done..|by eapply Hnd|by split_and!; [..|intros [?|?]]].
  assert (Hset : ∀ t, same_but tmp m (set_file (tmp +:+ "/" +:+ encode_registry_name h +:+ "/" +:+ "hosts.toml") t m)).
  { intros t p Hu. cbn. rewrite lookup_insert_ne; [done|]. apply not_eq_sym, (under_ne _ _ _ Hu). }
  apply fs_write_file_inv in Hw as [[-> ->]|[-> [->|[n ->]]]]; (split; [|done || (intros _; by eexists _, content)]);
    [apply Hset|done|apply Hset].
Qed.

Lemma write_credentials_steps tmp cred m m' r : temp_ok tmp → no_dots (cred_registry cred) →
  write_credentials_toml tmp cred m = (m', r) →
  same_but tmp m m' ∧
  (r = Ok tt → ∃ rel content, credentials_file cred = Some (rel, content) ∧
     files m' = <[tmp +:+ "/" +:+ rel := content]> (files m) ∧
     dir_modes m' = match files m !! (tmp +:+ "/" +:+ rel) with
                    | Some _ => dir_modes m
                    | None => <[tmp +:+ "/" +:+ rel := MODE_0600]> (dir_modes m)
                    end).
Proof.
  intros Hb Hnd Hw. unfold write_credentials_toml in Hw.
  apply st_lift_inv in Hw as [(e & He & -> & ->)|([h sch] & Hp & Hw)]; [done|].
  pose proof (cred_host_plain _ (registry_plain _ _ _ Hp)) as Hpl. unfold credentials_file. rewrite Hp. cbn [ok mbind option_bind].
  apply st_bind_inv in Hw as [(e & He & ->)|(m1 & [] & ->%io_Ok & Hw)].
  { unfold fs_create_dir_all, io in He. by destruct (io_ok _ _ _); [|injection He as <-]. }
  apply st_lift_inv in Hw as [(e & He & -> & ->)|(content & Hc%ok_or_Ok & Hw)]; [by split; [intros ?|]|].
  rewrite Hc. rewrite !file_path in Hw; [|done..|by eapply cred_host_dots, Hnd|by split_and!; [..|intros [?|?]]]. set (p := tmp +:+ "/" +:+ _) in Hw.
  assert (Hop : ∀ m0, same_but tmp m0 (open_private p m0)).
  { intros m0 q Hq. pose proof (under_ne _ _ (encode_registry_name (cred_host h) +:+ "/credentials.toml") Hq) as Hne.
    unfold open_private. cbn zeta. destruct (files m0 !! p); cbn; by rewrite ?lookup_insert_ne. }
  apply st_bind_inv in Hw as [(e & He & ->)|(m1 & [] & ->%io_Ok & Hw)].
  { unfold io in He. by destruct (io_ok _ _ _); [|injection He as <-]. }
  set (m1 := open_private p _) in Hw. assert (Hm1 : same_but tmp m m1) by (intros q Hq; by destruct (Hop (add_dir (resolve (path_join tmp (encode_registry_name (cred_host h)))) m) q Hq)).
  assert (Hset : ∀ t, same_but tmp m (set_file p t m1)).
  { intros t. transitivity m1; [done|]. intros q Hq.
    pose proof (under_ne _ _ (encode_registry_name (cred_host h) +:+ "/credentials.toml") Hq) as Hne.
    cbn. by rewrite lookup_insert_ne. }
  apply fs_write_file_inv in Hw as [[-> ->]|[-> [->|[n ->]]]]; (split; [done || apply Hset|]); [|done..].
  intros _. eexists _, content. split; [done|]. change (tmp +:+ "/" +:+ _) with p. unfold m1, open_private. cbn [files add_dir].
  destruct (files m !! p); cbn; by rewrite insert_insert_eq.
Qed.

(** A loop that goes on after failures and whose steps, if they succeed, put files into the
    directory. *)
Lemma loop_holds {A} tmp (f : A → stres machine error ()) (put : contents → A → contents) (inv : contents → Prop) l :
  (∀ a e m m' r, a ∈ l → f a m = (m', r) → same_but tmp m m' ∧
     (r = Ok tt → inv e → holds tmp e m → inv (put e a) ∧ holds tmp (put e a) m')) →
  ∀ e m, same_but tmp m (count_failures l f m).1 ∧
    ((count_failures l f m).2 = 0 → inv e → holds tmp e m →
     inv (fold_left put l e) ∧ holds tmp (fold_left put l e) (count_failures l f m).1).
Proof.
  intros Hf. induction l as [|a l IH]; intros e m; cbn [count_failures fold_left]; [by split|].
  destruct (f a m) as [m1 r] eqn:Ea. destruct (Hf a e m m1 r ltac:(by left) Ea) as [Hs Ht].
  destruct (IH (λ b e m m' r Hb, Hf b e m m' r ltac:(by right)) (put e a) m1) as [Hs1 Ht1].
  destruct (count_failures l f m1) as [m2 n]. cbn in *. split; [by transitivity m1|].
  destruct r as [[]|]; [|done]. cbn. intros Hn Hi Hh. destruct (Ht eq_refl Hi Hh). by apply Ht1.
Qed.

Definition no_modes (e : contents) : Prop := ∀ rel c mode, e !! rel = Some (c, mode) → mode = None.

Lemma rel_ne tmp rel rel' : rel ≠ rel' → tmp +:+ "/" +:+ rel ≠ tmp +:+ "/" +:+ rel'.
Proof. intros Hne E. by apply str_app_inj_l, str_app_inj_l in E. Qed.

Lemma put_hosts_holds tmp mirror e m m' r : temp_ok tmp → no_dots (mirror_registry mirror) →
  write_hosts_toml tmp mirror m = (m', r) →
  same_but tmp m m' ∧ (r = Ok tt → no_modes e → holds tmp e m → no_modes (put_hosts e mirror) ∧ holds tmp (put_hosts e mirror) m').
Proof.
  intros Hb Hnd Hw. apply write_hosts_steps in Hw as [Hs Hok]; [|done..]. split; [done|]. intros Hr Hn Hh.
  destruct (Hok Hr) as (rel & c & E & Hf & Hd). unfold put_hosts. rewrite E. split.
  - intros rel' c' mode. destruct (decide (rel = rel')) as [->|]; [rewrite lookup_insert_eq; by intros [= _ <-]|].
    rewrite lookup_insert_ne by done. apply Hn.
  - intros rel'. rewrite Hf, Hd. destruct (Hh rel') as [Hh1 Hh2]. destruct (decide (rel = rel')) as [->|].
    + rewrite !lookup_insert_eq. split; [done|]. rewrite Hh2. destruct (e !! rel') as [[c' mode]|] eqn:Ee; [|done].
      cbn. by rewrite (Hn _ _ _ Ee).
    + rewrite !lookup_insert_ne by (done || by apply rel_ne). done.
Qed.

Lemma put_credentials_holds tmp cred e m m' r : temp_ok tmp → no_dots (cred_registry cred) →
  write_credentials_toml tmp cred m = (m', r) →
  same_but tmp m m' ∧ (r = Ok tt → True → holds tmp e m → True ∧ holds tmp (put_credentials e cred) m').
Proof.
  intros Hb Hnd Hw. apply write_credentials_steps in Hw as [Hs Hok]; [|done..]. split; [done|]. intros Hr _ Hh. split; [done|].
  destruct (Hok Hr) as (rel & c & E & Hf & Hd). unfold put_credentials. rewrite E. intros rel'. rewrite Hf, Hd.
  destruct (Hh rel) as [Hh1 Hh2]. destruct (decide (rel = rel')) as [<-|].
  - rewrite !lookup_insert_eq. split; [done|]. rewrite Hh1. destruct (e !! rel) as [[c' mode]|]; cbn in *; [done|].
    by rewrite lookup_insert_eq.
  - rewrite !lookup_insert_ne by (done || by apply rel_ne). destruct (Hh rel') as [Hh1' Hh2']. split; [done|].
    destruct (files m !! _); [done|]. by rewrite lookup_insert_ne by by apply rel_ne.
Qed.

(** No registry of the settings has such a host. *)
Definition settings_named (settings : Settings) : Prop :=
  (∀ mirror, mirror ∈ default [] (mirrors settings) → no_dots (mirror_registry mirror)) ∧
  (∀ cred, cred ∈ default [] (credentials settings) → no_dots (cred_registry cred)).

Lemma write_all_holds tmp settings m : temp_ok tmp → settings_named settings → holds tmp ∅ m →
  let c1 := count_failures (default [] (mirrors settings)) (write_hosts_toml tmp) m in
  let c2 := count_failures (default [] (credentials settings)) (write_credentials_toml tmp) c1.1 in
  same_but tmp m c2.1 ∧ (c1.2 = 0 → c2.2 = 0 → holds tmp (expected settings) c2.1).
Proof.
  intros Hb [Hdm Hdc] Hh. cbn zeta.
  destruct (loop_holds tmp (write_hosts_toml tmp) put_hosts no_modes (default [] (mirrors settings))
    (λ a e m m' r Ha, put_hosts_holds tmp a e m m' r Hb (Hdm a Ha)) ∅ m) as [Hs1 Hk1].
  destruct (count_failures (default [] (mirrors settings)) _ m) as [m1 n1]. cbn in *.
  destruct (loop_holds tmp (write_credentials_toml tmp) put_credentials (λ _, True) (default [] (credentials settings))
    (λ a e m m' r Ha, put_credentials_holds tmp a e m m' r Hb (Hdc a Ha))
    (fold_left put_hosts (default [] (mirrors settings)) ∅) m1) as [Hs2 Hk2].
  split; [by transitivity m1|]. intros E1 E2. apply Hk2; [done..|]. apply Hk1; [done| |done]. by intros rel c mode.
Qed.

(** *** The exchange of directories *)

Definition apart (a b : string) : Prop := ∀ t, under a (b +:+ "/" +:+ t) = false ∧ under b (a +:+ "/" +:+ t) = false.

Lemma swap_dir_l a b t : swap_dir a b (a +:+ "/" +:+ t) = b +:+ "/" +:+ t.
Proof. unfold swap_dir. by rewrite under_path, str_drop_app. Qed.
Lemma swap_dir_r a b t : apart a b → swap_dir a b (b +:+ "/" +:+ t) = a +:+ "/" +:+ t.
Proof. intros Hab. unfold swap_dir. by rewrite (proj1 (Hab t)), under_path, str_drop_app. Qed.
Lemma swap_dir_other a b p : under a p = false → under b p = false → swap_dir a b p = p.
Proof. intros Ha Hb. unfold swap_dir. by rewrite Ha, Hb. Qed.

Lemma swap_dir_involutive a b p : apart a b → swap_dir a b (swap_dir a b p) = p.
Proof.
  intros Hab. destruct (under a p) eqn:Ea; [apply under_spec in Ea as [t ->]; by rewrite swap_dir_l, swap_dir_r|].
  destruct (under b p) eqn:Eb; [apply under_spec in Eb as [t ->]; by rewrite swap_dir_r, swap_dir_l|].
  by rewrite !(swap_dir_other a b p Ea Eb).
Qed.

Lemma exchange_lookup {A} (f : gmap string A) a b p : apart a b → (kmap (swap_dir a b) f : gmap string A) !! p = f !! swap_dir a b p.
Proof.
  intros Hab. assert (Hinj : Inj (=) (=) (swap_dir a b)).
  { intros x y E. by rewrite <-(swap_dir_involutive a b x Hab), E, swap_dir_involutive. }
  transitivity ((kmap (swap_dir a b) f : gmap string A) !! swap_dir a b (swap_dir a b p)); [by rewrite swap_dir_involutive|].
  apply (lookup_kmap (swap_dir a b)).
Qed.

Lemma exchange_holds a b e m : apart a b → holds a e m → holds b e (exchange a b m).
Proof. intros Hab Hh rel. unfold exchange. cbn [files dir_modes]. rewrite !exchange_lookup, swap_dir_r by done. apply Hh. Qed.

(** Names without a slash in one directory. *)
Lemma names_apart parent n1 n2 : no_char SLASH n1 → no_char SLASH n2 → n1 ≠ n2 →
  apart (parent +:+ "/" +:+ n1) (parent +:+ "/" +:+ n2).
Proof.
  assert (Hone : ∀ x y t, no_char SLASH x → no_char SLASH y → x ≠ y → under (parent +:+ "/" +:+ x) ((parent +:+ "/" +:+ y) +:+ "/" +:+ t) = false).
  { intros x y t Hx Hy Hne. destruct (under _ _) eqn:E; [|done]. exfalso. apply under_spec in E as [t' E]. apply Hne.
    rewrite <-!str_app_assoc in E. do 2 apply str_app_inj_l in E.
    pose proof (str_splitn2_char SLASH x t' Hx) as E1. pose proof (str_splitn2_char SLASH y t Hy) as E2.
    change (String SLASH ?u) with ("/" +:+ u) in E1, E2. rewrite E in E2. congruence. }
  intros Hn1 Hn2 Hne t. split; apply Hone; congruence.
Qed.

(** *** The run *)

Definition TEMP_PARENT : string := "/etc/containerd".
Definition temp_path (name : string) : string := TEMP_PARENT +:+ "/" +:+ name.

Lemma temp_path_ok name : dir_name name → temp_ok (temp_path name).
Proof.
  intros Hd. pose proof Hd as (Hne & Hs & _). split.
  { unfold temp_path. rewrite str_app_assoc, ends_with_app by done. done. }
  intros n f Hn Hf. pose proof Hn as (_ & Hns & _). pose proof Hf as (_ & Hfs & _).
  assert (E : str_split SLASH (temp_path name +:+ "/" +:+ n +:+ "/" +:+ f) = [""; "etc"; "containerd"; name; n; f]).
  { rewrite <-(str_split_join SLASH [""; "etc"; "containerd"; name; n; f]); [|done|by repeat constructor].
    f_equal. }
  unfold resolve. rewrite E. cbn [fold_left].
  change (resolve_step (resolve_step (resolve_step [] "") "etc") "containerd") with ["etc"; "containerd"].
  rewrite !resolve_step_name by done. unfold temp_path, TEMP_PARENT. by rewrite <-!str_app_assoc.
Qed.

Lemma filter_under {A} tmp (f : gmap string A) p : under tmp p = false →
  filter (λ e, under tmp e.1 = false) f !! p = f !! p.
Proof. intros Hp. apply option_eq. intros x. rewrite map_lookup_filter_Some. cbn. tauto. Qed.
Lemma drop_temp_same tmp m : same_but tmp m (drop_temp tmp m).
Proof. intros p Hp. unfold drop_temp. destruct (io_ok _ _ _); [|done]. cbn. by rewrite !filter_under. Qed.
Lemma same_but_holds tmp dir e m m' : (∀ t, under tmp (dir +:+ "/" +:+ t) = false) → same_but tmp m m' →
  holds dir e m → holds dir e m'.
Proof. intros Hu Hs Hh rel. destruct (Hs _ (Hu rel)) as [-> ->]. apply Hh. Qed.

(** What the run does once it has read its settings: the directory is exchanged at the end or not
    touched. *)
Lemma write_registries_outcome name settings m m' r : dir_name name → name ≠ "certs.d" → settings_named settings →
  holds (temp_path name) ∅ m → write_registries (temp_path name) settings m = (m', r) →
  (∀ p, under (temp_path name) p = false → under CERTS_DIR p = false →
     files m' !! p = files m !! p ∧ dir_modes m' !! p = dir_modes m !! p) ∧
  (if is_ok r then holds CERTS_DIR (expected settings) m' else same_but (temp_path name) m m').
Proof.
  intros Hn Hc Hset Hh Hw.
  assert (Hap : apart (temp_path name) CERTS_DIR) by (by apply (names_apart TEMP_PARENT); [apply Hn|..]).
  destruct (write_all_holds (temp_path name) settings m (temp_path_ok name Hn) Hset Hh) as [Hsame Hexp]. revert Hw Hsame Hexp.
  unfold write_registries. cbn zeta. destruct (count_failures _ (write_hosts_toml _) m) as [m1 n1]. cbn [fst snd].
  destruct (count_failures _ (write_credentials_toml _) m1) as [m2 n2]. cbn [fst snd]. intros Hw Hsame Hexp.
  assert (Hfail : is_ok r = false → m' = m2 ∨ m' = add_dir CERTS_DIR m2 →
    (∀ p, under (temp_path name) p = false → under CERTS_DIR p = false →
     files m' !! p = files m !! p ∧ dir_modes m' !! p = dir_modes m !! p) ∧
    (if is_ok r then holds CERTS_DIR (expected settings) m' else same_but (temp_path name) m m')).
  { intros ->. assert (Hm2 : same_but (temp_path name) m (add_dir CERTS_DIR m2)) by exact Hsame.
    intros [->| ->]; (split; [intros p Hp _; by apply Hsame|done]). }
  destruct (Nat.ltb_spec 0 (n1 + n2)) as [|Hz]; [injection Hw as <- <-; apply Hfail; [done|by left]|].
  apply st_bind_inv in Hw as [(e & He & ->)|(m3 & [] & ->%io_Ok & Hw)].
  { unfold fs_create_dir_all, io in He. destruct (io_ok _ _ _); [done|]. injection He as <-. apply Hfail; [done|by left]. }
  unfold rename_exchange_dir, io in Hw. destruct (io_ok _ _ _); injection Hw as <- <-; [|apply Hfail; [done|by right]].
  split.
  - intros p Hp Hp'. cbn. rewrite !exchange_lookup, swap_dir_other by done. by apply Hsame.
  - apply (exchange_holds (temp_path name)); [done|]. apply Hexp; lia.
Qed.

(** *** Private files *)

Definition is_credentials (rel : string) : Prop := ∃ dir, no_char SLASH dir ∧ rel = dir +:+ "/credentials.toml".
Definition private (e : contents) : Prop := ∀ rel c mode, is_credentials rel → e !! rel = Some (c, mode) → mode = Some MODE_0600.

Lemma put_hosts_private e mirror : private e → private (put_hosts e mirror).
Proof.
  intros He. unfold put_hosts, hosts_file. destruct (parse_registry _) as [[h sch]|] eqn:Ep; cbn; [|done].
  destruct (namespace_to_toml _) as [t|]; cbn; [|done]. apply registry_plain in Ep as [Hne Hs].
  destruct (registry_name_no_slash h Hne Hs) as [_ Hes]. intros rel c mode (dir & Hd & ->). rewrite lookup_insert_ne; [by apply He; exists dir|].
  intros E. pose proof (str_splitn2_char SLASH _ "hosts.toml" Hes) as E1.
  pose proof (str_splitn2_char SLASH dir "credentials.toml" Hd) as E2.
  change (String SLASH "hosts.toml") with "/hosts.toml" in E1. change (String SLASH "credentials.toml") with "/credentials.toml" in E2.
  rewrite E in E1. congruence.
Qed.

Lemma put_credentials_private e cred : private e → private (put_credentials e cred).
Proof.
  intros He. unfold put_credentials. destruct (credentials_file cred) as [[rel c]|] eqn:Ec; [|done].
  intros rel' c' mode Hc. destruct (decide (rel = rel')) as [<-|]; [|rewrite lookup_insert_ne by done; by apply He].
  rewrite lookup_insert_eq. intros [= <- <-]. destruct (e !! rel) as [[c'' mode'']|] eqn:E; [by eapply He|done].
Qed.

Lemma fold_private {A} (put : contents → A → contents) l e : (∀ e a, private e → private (put e a)) → private e →
  private (fold_left put l e).
Proof. intros Hp. revert e. induction l as [|a l IH]; intros e He; [done|]. cbn. by apply IH, Hp. Qed.

(** Every file of credentials that a run puts in place is private. *)
Lemma credentials_private settings rel c mode : is_credentials rel → expected settings !! rel = Some (c, mode) →
  mode = Some MODE_0600.
Proof.
  apply fold_private; [apply put_credentials_private|]. apply fold_private; [apply put_hosts_private|].
  by intros rel' c' mode' _.
Qed.
End facts.

(** C18. A run of thar-be-registries, in which every step may fail and a failed write may leave
    part of a file, for any name of its temporary directory and for settings in which no registry
    has the host "." or "..", touches no file outside of that directory and of certs.d; and certs.d
    is at any outcome all as it was, or, when the run succeeds, exactly the files of the settings,
    each mirror's and each credential's, with the mode of private files for credentials. *)
Theorem registries_replaced_at_once `{UrlLib, RegistryToml, MachineOps} name m m' r :
  dir_name name → name ≠ "certs.d" → holds (temp_path name) ∅ m →
  (∀ text settings, files m !! INPUT_FILE = Some text → settings_of_toml text = Some settings → settings_named settings) →
  run (temp_path name) m = (m', r) →
  (∀ p, under (temp_path name) p = false → under CERTS_DIR p = false →
     files m' !! p = files m !! p ∧ dir_modes m' !! p = dir_modes m !! p) ∧
  match files m !! INPUT_FILE with
  | Some text =>
      if is_ok r then ∃ settings, settings_of_toml text = Some settings ∧ holds CERTS_DIR (expected settings) m'
      else ∀ p, under CERTS_DIR p = true → files m' !! p = files m !! p ∧ dir_modes m' !! p = dir_modes m !! p
  | None => m' = m ∧ r = Ok tt
  end.
Proof.
  intros Hn Hc Hh Hset Hr. assert (Hap : apart (temp_path name) CERTS_DIR) by (by apply (names_apart TEMP_PARENT); [apply Hn|..]).
  unfold run in Hr. destruct (files m !! INPUT_FILE) as [text|] eqn:Et; [|by injection Hr as <- <-].
  apply st_bind_inv in Hr as [(e & He & ->)|(m1 & settings & Hrs & Hr)].
  { assert (m' = m) as ->; [|done]. revert He. unfold read_settings, fs_read_to_string, st_bind, st_lift. rewrite Et.
    destruct (io_ok _ _ _ && _); by intros [= <- _]. }
  assert (Hrs' : m1 = m ∧ settings_of_toml text = Some settings).
  { revert Hrs. unfold read_settings, fs_read_to_string, st_bind, st_lift. rewrite Et.
    destruct (io_ok _ _ _ && _); [|done]. by intros [= <- ?%ok_or_Ok]. }
  destruct Hrs' as [-> Htoml].
  apply st_bind_inv in Hr as [(e & He & ->)|(m1 & [] & ->%io_Ok & Hr)].
  { unfold io in He. destruct (io_ok _ _ _); [done|]. by injection He as <-. }
  cbn [id] in Hr. destruct (write_registries _ settings m) as [m1 r1] eqn:Ew. injection Hr as <- <-.
  destruct (write_registries_outcome name settings m m1 r1 Hn Hc (Hset text settings eq_refl Htoml) Hh Ew) as [Ho Hd].
  assert (Hcerts : ∀ p, under CERTS_DIR p = true → under (temp_path name) p = false).
  { intros p [t ->]%under_spec. apply Hap. }
  split.
  - intros p Hp Hp'. destruct (drop_temp_same (temp_path name) m1 p Hp) as [-> ->]. by apply Ho.
  - destruct (is_ok r1).
    + exists settings. split; [done|]. eapply same_but_holds; [apply Hap|apply drop_temp_same|done].
    + intros p Hp%Hcerts. destruct (drop_temp_same (temp_path name) m1 p Hp) as [-> ->]. by apply Hd.
Qed.

Definition example_urls : UrlLib.
Proof.
  refine {| url_parse s := if str_starts_with s "https://" then Some (mk_url "https" (Some "docker.io") None "/") else None |}.
  intros s u h. destruct (str_starts_with s "https://"); [|done]. by intros [= <-] [= <-].
Defined.
Definition example_toml : RegistryToml := {|
  settings_of_toml _ := Some (mk_settings (Some [mk_mirror "docker.io" ["https://mirror"]])
    (Some [mk_credential "docker.io" (Some "u") (Some "p") None None]));
  namespace_to_toml _ := Some "hosts";
  credentials_to_toml _ := Some "credentials" |}.

Lemma registries_replaced_at_once_witness :
  let m := machine_with [(INPUT_FILE, "")] in
  let ran_ := run (H := example_urls) (H0 := example_toml) (H1 := example_ops) (temp_path ".tmp1") m in
  ran_.2 = Ok tt ∧ ∃ settings, holds CERTS_DIR (expected (H := example_urls) (H0 := example_toml) settings) ran_.1.
Proof.
  cbn zeta. set (m := machine_with _). set (ran_ := run _ m).
  assert (Hr : ran_.2 = Ok tt) by (vm_compute; reflexivity). split; [exact Hr|].
  pose proof (registries_replaced_at_once (H := example_urls) (H0 := example_toml) (H1 := example_ops) ".tmp1"
    m ran_.1 ran_.2) as Ht. rewrite Hr in Ht.
  destruct Ht as [_ Ht].
  - split_and!; [done|reflexivity|by intros [?|?]].
  - done.
  - intros rel. split; [|done]. apply lookup_singleton_ne. intros E. apply (f_equal (String.substring 16 1)) in E. vm_compute in E.
    discriminate E.
  - intros text settings _ [= <-]. split; cbn; intros x ->%list_elem_of_singleton h sch [= <- _]; by intros [?|?].
  - rewrite <-Hr. apply surjective_pairing.
  - destruct Ht as (settings & _ & Hh). exists settings. exact Hh.
Defined.

(** A registry with the host [..]: its file is written into the parent of the temporary directory. *)
Lemma dots_escape `{RegistryToml, MachineOps} (urls : UrlLib) m content :
  url_parse ".." = Some (mk_url "https" (Some "..") None "/") →
  namespace_to_toml (namespace_of ".." "https" (mk_mirror ".." [])) = Some content →
  (∀ op path m, io_ok op path m = true) →
  let written := write_hosts_toml (temp_path ".tmp1") (mk_mirror ".." []) m in
  written.2 = Ok tt ∧ files written.1 = <["/etc/containerd/hosts.toml" := content]> (files m).
Proof.
  intros Hu Ht Hio. unfold write_hosts_toml, parse_registry, url_host_port. cbn [mirror_registry].
  rewrite Hu. cbn [mbind option_bind host_str port format_host_port scheme].
  unfold st_bind, st_lift, fs_create_dir_all, io, fs_write_file. rewrite !Hio, Ht. cbn [ok_or]. split; [done|].
  cbn [fst files set_file]. change (files (add_dir _ m)) with (files m). f_equal.
Qed.
