(* ===== verification/ManifestFile.v ===== *)
(** * The manifest as a file ([sources/updater/update_metadata/src/de.rs], [se.rs])

    The JSON of a manifest, with its two maps whose keys are not strings: the bounds of
    waves, and the pairs of versions of migrations, which the code finds with a regular
    expression.  The theorem says that a manifest that is written is read back. *)
From S2P Require Import Prelude Json Numbers Chars Regex Bloodhound BTree UpdateMetadata.
From Stdlib Require Import Ascii.
From stdpp Require Import base numbers list strings gmap sorting.
From stdpp Require Import options.

(** ** Definitions *)

(** The text of versions and times and of JSON.  Printed values are read back; the text of
    a version is ASCII without spaces, commas and brackets; times are those that
    [DateTime<Utc>] can hold. *)
Class ManifestText (V : Type) := {
  version_of_string : string → option V;
  string_of_version : V → string;
  time_of_string : string → option Z;
  string_of_time : Z → string;
  is_time : Z → bool;
  json_pretty : json → string;
  json_read : string → option json;
  version_text v : version_of_string (string_of_version v) = Some v;
  version_chars v : string_of_version v ≠ EmptyString ∧
    str_forallb (λ a, is_ascii a && negb (bool_decide (char_of a ∈ [" "; ","; ")"; "("]))) (string_of_version v) = true;
  time_text t : is_time t = true → time_of_string (string_of_time t) = Some t;
  time_range s t : time_of_string s = Some t → is_time t = true;
  json_pretty_read v : json_wf v → json_read (json_pretty v) = Some v }.

(** A map from the entries in their order, of which none may repeat a key. *)
Definition bt_insert_new `{TotalOrd K} {A} (k : K) (v : A) (m : list (K * A)) : option (list (K * A)) :=
  match bt_get k m with None => Some (bt_insert k v m) | Some _ => None end.
Definition collect_new `{TotalOrd K} {A B} (parse : A → option (K * B)) (entries : list A) : option (list (K * B)) :=
  foldl (λ m a, m ← m; '(k, v) ← parse a; bt_insert_new k v m) (Some []) entries.

Definition json_array (v : json) : option (list json) := match v with JArray l => Some l | _ => None end.
Definition json_object (v : json) : option (list (string * json)) := match v with JObject m => Some m | _ => None end.

(** The regular expression of the keys of migrations, and the first match in a text. *)
Definition NotSeparator : regex := Class (λ a, negb (bool_decide (a ∈ [" "; ","]))).
Definition versions_regex : regex :=
  Seq (Lit "(") (Seq (Capture "from_ver" (Plus NotSeparator)) (Seq (Lit ",") (Seq (Star (Lit " "))
    (Seq (Capture "to_ver" (Plus NotSeparator)) (Lit ")"))))).
Fixpoint find_captures (r : regex) (s : list string) : option caps :=
  match match_from r s ∅ (λ _ c, Some c) with
  | Some c => Some c
  | None => match s with _ :: s => find_captures r s | [] => None end
  end.

Definition parse_versions (key : string) : option (string * string) :=
  c ← find_captures versions_regex (str_chars key);
  from ← captured "from_ver" c; to ← captured "to_ver" c; Some (from, to).

Section file.
Context `{TotalOrd V, ManifestText V}.

Definition parse_tuple_key (entry : string * list string) : option ((V * V) * list string) :=
  '(from, to) ← parse_versions entry.1;
  from ← version_of_string from; to ← version_of_string to; Some ((from, to), entry.2).
Definition deserialize_migration (entries : list (string * list string)) : option (list ((V * V) * list string)) :=
  collect_new parse_tuple_key entries.

Definition bound_to_int (entry : string * Z) : option (Z * Z) :=
  bound ← parse_u32 entry.1; Some (bound, entry.2).
Definition deserialize_bound (entries : list (string * Z)) : option (list (Z * Z)) :=
  collect_new bound_to_int entries.

Definition version_key (from to : V) : string := "(" +:+ string_of_version from +:+ ", " +:+ string_of_version to +:+ ")".
Definition serialize_migration (value : list ((V * V) * list string)) : list (string * list string) :=
  fold_left (λ map '((from, to), val), bt_insert (version_key from to) val map) value [].

(** What serde derives for the structures. *)
Definition images_to_json (i : Images) : json :=
  JObject [("boot", JString (im_boot i)); ("root", JString (im_root i)); ("hash", JString (im_hash i))].
Definition images_of_json (v : json) : option Images :=
  fs ← fields_of ["boot"; "root"; "hash"] v;
  match fs with
  | [boot; root; hash] =>
      boot ← required as_str boot; root ← required as_str root; hash ← required as_str hash; Some (mk_images boot root hash)
  | _ => None
  end.

Definition waves_to_json (w : list (Z * Z)) : json :=
  JObject ((λ kv, (unsigned_to_string kv.1, JString (string_of_time kv.2))) <$> w).
Definition as_time (v : json) : option Z := as_str v ≫= time_of_string.
Definition waves_of_json (v : json) : option (list (Z * Z)) :=
  m ← json_object v; entries ← mapM (λ kv, t ← as_time kv.2; Some (kv.1, t)) m; deserialize_bound entries.

Definition update_to_json (u : Update V) : json :=
  JObject [("variant", JString (variant u)); ("arch", JString (arch u));
           ("version", JString (string_of_version (version u))); ("max_version", JString (string_of_version (max_version u)));
           ("waves", waves_to_json (waves u)); ("images", images_to_json (images u))].
Definition as_version (v : json) : option V := as_str v ≫= version_of_string.
Definition update_of_json (v : json) : option (Update V) :=
  fs ← fields_of ["variant"; "arch"; "version"; "max_version"; "waves"; "images"] v;
  match fs with
  | [variant; arch; version; max_version; waves; images] =>
      variant ← required as_str variant; arch ← required as_str arch; version ← required as_version version;
      max_version ← required as_version max_version; waves ← required waves_of_json waves;
      images ← required images_of_json images; Some (mk_update variant arch version max_version waves images)
  | _ => None
  end.

Definition manifest_to_json (m : Manifest V) : json :=
  JObject [("updates", JArray (update_to_json <$> updates m));
           ("migrations", JObject ((λ kv, (kv.1, JArray (JString <$> kv.2))) <$> serialize_migration (migrations m)))].
Definition as_strings (v : json) : option (list string) := json_array v ≫= mapM as_str.
Definition migrations_of_json (v : json) : option (list ((V * V) * list string)) :=
  m ← json_object v; entries ← mapM (λ kv, l ← as_strings kv.2; Some (kv.1, l)) m; deserialize_migration entries.
Definition manifest_of_json (v : json) : option (Manifest V) :=
  fs ← fields_of ["updates"; "migrations"] v;
  match fs with
  | [updates; migrations] =>
      updates ← required (λ v, json_array v ≫= mapM update_of_json) updates;
      migrations ← required migrations_of_json migrations; Some (mk_manifest updates migrations)
  | _ => None
  end.

(** The file: its text, and what it is read as. *)
Definition manifest_text (m : Manifest V) : string := json_pretty (manifest_to_json m).
Definition manifest_of_text (text : string) : option (Manifest V) := json_read text ≫= manifest_of_json.
End file.

(** ** Maps from their entries *)

Section collect.
Context `{TotalOrd K} {A : Type}.

Lemma bt_get_None_elem (m : list (K * A)) k : bt_sorted m → bt_get k m = None ↔ k ∉ m.*1.
Proof.
  intros Hs. rewrite eq_None_not_Some. apply not_iff_compat. split.
  - intros [v Hv%bt_get_elem]; [|done]. by apply (list_elem_of_fmap_2 fst _ (k, v)).
  - intros ([k' v] & -> & Hin)%list_elem_of_fmap. exists v. by apply bt_get_elem.
Qed.

(** What a sorted map holds after new entries are inserted. *)
Lemma bt_insert_new_elem (m : list (K * A)) k v kv : bt_sorted m → k ∉ m.*1 →
  kv ∈ bt_insert k v m ↔ kv = (k, v) ∨ kv ∈ m.
Proof.
  intros Hs Hk. destruct kv as [k' v']. rewrite <-!bt_get_elem, bt_get_insert by (done || by apply bt_insert_sorted).
  destruct (oeqb k' k) eqn:E.
  - apply oeqb_spec in E as ->. rewrite (proj2 (bt_get_None_elem m k Hs) Hk). naive_solver.
  - split; [by right|]. intros [[= -> _]|]; [|done]. by rewrite (proj2 (oeqb_spec k k) eq_refl) in E.
Qed.

Lemma collect_new_spec {B} (parse : B → option (K * A)) l l' m : bt_sorted m →
  Forall2 (λ b kv, parse b = Some kv) l l' → NoDup (m.*1 ++ l'.*1) →
  ∃ r, foldl (λ m a, m ← m; '(k, v) ← parse a; bt_insert_new k v m) (Some m) l = Some r ∧ bt_sorted r ∧
    ∀ kv, kv ∈ r ↔ kv ∈ m ∨ kv ∈ l'.
Proof.
  intros Hs Hp. revert m Hs. induction Hp as [|b [k v] l l' Hb Hp IH]; intros m Hs Hnd; cbn [foldl].
  - exists m. split; [done|]. split; [done|]. intros kv. rewrite elem_of_nil. tauto.
  - cbn [fmap list_fmap fst] in Hnd.
    assert (Hk : k ∉ m.*1) by (apply NoDup_app in Hnd as (_ & Hd & _); intros Hin; apply (Hd k Hin); by left).
    assert (Hstep : (m ← Some m; '(k, v) ← parse b; bt_insert_new k v m) = Some (bt_insert k v m)).
    { rewrite Hb. cbn. unfold bt_insert_new. by rewrite (proj2 (bt_get_None_elem m k Hs) Hk). }
    rewrite Hstep. destruct (IH (bt_insert k v m)) as (r & Er & Hr & Hin).
    + by apply bt_insert_sorted.
    + assert (Hperm : (bt_insert k v m).*1 ≡ₚ k :: m.*1).
      { change (k :: m.*1) with (((k, v) :: m).*1). apply fmap_Permutation, NoDup_Permutation.
        - by apply bt_sorted_nodup, bt_insert_sorted.
        - constructor; [|by apply bt_sorted_nodup]. intros Hin. apply Hk. by apply (list_elem_of_fmap_2 fst _ (k, v)).
        - intros kv. rewrite elem_of_cons. by apply bt_insert_new_elem. }
      rewrite Hperm. by rewrite <-Permutation_middle in Hnd.
    + exists r. split; [done|]. split; [done|]. intros kv. rewrite Hin, bt_insert_new_elem, elem_of_cons by done. tauto.
Qed.
End collect.

(** Insertion of entries with keys that are new. *)
Lemma fold_insert_spec `{TotalOrd K} {A B} (f : B → K * A) l m : bt_sorted m → NoDup (m.*1 ++ (f <$> l).*1) →
  bt_sorted (fold_left (λ m b, bt_insert (f b).1 (f b).2 m) l m) ∧
  ∀ kv, kv ∈ fold_left (λ m b, bt_insert (f b).1 (f b).2 m) l m ↔ kv ∈ m ∨ kv ∈ f <$> l.
Proof.
  intros Hs Hn. destruct (collect_new_spec (Some ∘ f) l (f <$> l) m Hs) as (r & Er & Hr); [|done|].
  { apply Forall2_fmap_r, Forall_Forall2_diag, Forall_forall. done. }
  assert (E : fold_left (λ m b, bt_insert (f b).1 (f b).2 m) l m = r); [|by rewrite E].
  clear Hs Hn Hr. revert m Er. induction l as [|b l IH]; intros m Er; cbn in *; [by injection Er|].
  apply IH. destruct (f b) as [k v]. cbn in *. unfold bt_insert_new in Er. destruct (bt_get k m); [|done].
  exfalso. clear IH. induction l as [|b' l IHl]; [done|]. by apply IHl.
Qed.

(** Two sorted maps with the same entries are one. *)
Lemma sorted_elems_eq `{TotalOrd K} {A} (m1 m2 : list (K * A)) : bt_sorted m1 → bt_sorted m2 →
  (∀ kv, kv ∈ m1 ↔ kv ∈ m2) → m1 = m2.
Proof.
  intros H1 H2 He. apply bt_ext; [done..|]. intros k. apply option_eq. intros v. by rewrite !bt_get_elem, He by done.
Qed.

Lemma bt_sorted_keys `{TotalOrd K} {A} (m : list (K * A)) : bt_sorted m → NoDup m.*1.
Proof.
  unfold bt_sorted. induction 1 as [|[k v] m Hs IH Hf]; [constructor|]. cbn. constructor; [|done].
  intros ([k' v'] & E & Hin)%list_elem_of_fmap. rewrite Forall_forall in Hf. apply Hf in Hin. cbn in *. subst. by destruct (olt_irrefl k').
Qed.

(** ** Keys of migrations *)

Lemma rounds_step r k fuel s c : rounds r k (S fuel) s c =
  match match_from r s c (λ s' c', if length s' <? length s then rounds r k fuel s' c' else None) with
  | Some x => Some x
  | None => k s c
  end.
Proof. done. Qed.

(** A repetition of a class that is followed by one more character of the class: the repetition takes
    that too, and gives it back when what follows needs it. *)
Lemma star_gives_back f run a c k x : Forall (λ b, f b = true) run → f a = true →
  (∀ c, k [] c = None) → k [a] c = Some x → match_from (Star (Class f)) (run ++ [a]) c k = Some x.
Proof.
  intros Hrun Ha Hnil Hk. rewrite match_star.
  enough (Hn : ∀ n, length run ≤ n → rounds (Class f) k (S n) (run ++ [a]) c = Some x).
  { rewrite length_app, Nat.add_1_r. by apply Hn. }
  induction Hrun as [|b run Hb Hrun IH]; intros n Hn; cbn [app]; rewrite rounds_step; cbn [match_from].
  - rewrite Ha. cbn [length Nat.ltb Nat.leb]. destruct n; cbn; by rewrite Hnil.
  - rewrite Hb, (proj2 (Nat.ltb_lt _ _)) by (cbn; lia). cbn in Hn. destruct n as [|n]; [lia|]. by rewrite IH by lia.
Qed.

(** The match of a key, from the letters of its versions. *)
Lemma versions_match fs ts : fs ≠ [] → Forall (λ a, negb (bool_decide (a ∈ [" "; ","])) = true) fs →
  ts ≠ [] → Forall (λ a, negb (bool_decide (a ∈ [" "; ","])) = true) ts →
  match_from versions_regex ("(" :: fs ++ "," :: " " :: ts ++ [")"]) ∅ (λ _ c, Some c) =
    Some (<["to_ver" := ts]> (<["from_ver" := fs]> ∅)).
Proof.
  intros Hf Hfs Ht Hts. unfold versions_regex. cbn [match_from].
  change (match_from (Lit "(") ("(" :: ?s) ?c ?k) with (k s c). cbn beta.
  apply (to_plus_class _ fs ("," :: " " :: ts ++ [")"]) ∅ Hf Hfs eq_refl). cbn beta.
  rewrite take_prefix. change (match_from (Lit ",") ("," :: ?s) ?c ?k) with (k s c). cbn beta.
  destruct ts as [|t ts]; [done|]. apply Forall_cons in Hts as [Ht1 Hts].
  assert (Hsp : t ≠ " ") by (intros ->; done).
  set (c1 := <["from_ver" := fs]> ∅).
  change (match_from (Seq (Star (Lit " ")) (Seq (Capture "to_ver" (Plus NotSeparator)) (Lit ")"))) ((" " :: (t :: ts)) ++ [")"]) c1 (λ _ c, Some c)
    = Some (<["to_ver" := t :: ts]> c1)).
  change (match_from (Star (Lit " ")) ([" "] ++ ((t :: ts) ++ [")"])) c1 (λ s c,
    match_from (Seq (Capture "to_ver" (Plus NotSeparator)) (Lit ")")) s c (λ _ c, Some c)) = Some (<["to_ver" := t :: ts]> c1)).
  apply (to_star_class (λ b, bool_decide (b = " ")) [" "] ((t :: ts) ++ [")"]) c1);
    [by repeat constructor|by apply bool_decide_false|]. cbn beta.
  cbn [app match_from Plus NotSeparator]. rewrite Ht1.
  apply star_gives_back; [done|done|done|]. cbn [match_from Lit]. rewrite bool_decide_true by done.
  change (t :: ts ++ [")"]) with ((t :: ts) ++ [")"]). by rewrite take_prefix.
Qed.

Section keys.
Context `{TotalOrd V, ManifestText V}.

Definition version_letters (v : V) : list string := str_bytes (string_of_version v).

Lemma version_letters_spec v : version_letters v ≠ [] ∧
  Forall (λ a, negb (bool_decide (a ∈ [" "; ","])) = true) (version_letters v) ∧
  str_concat (version_letters v) = string_of_version v.
Proof.
  destruct (version_chars v) as [Hne Hc]. unfold version_letters. split_and!; [|clear Hne|apply str_concat_bytes].
  - by destruct (string_of_version v).
  - induction (string_of_version v) as [|a t IH]; [constructor|]. cbn in *.
    apply andb_true_iff in Hc as [[_ Ha]%andb_true_iff Hc]. constructor; [|by apply IH].
    apply negb_true_iff, bool_decide_eq_false in Ha. apply negb_true_iff, bool_decide_eq_false. set_solver.
Qed.

Lemma version_ascii v : ascii_str (string_of_version v).
Proof.
  destruct (version_chars v) as [_ Hc]. unfold ascii_str. induction (string_of_version v) as [|a t IH]; [done|]. cbn in *.
  apply andb_true_iff in Hc as [[Ha _]%andb_true_iff Hc]. by rewrite Ha, IH.
Qed.

Lemma version_key_letters from to :
  str_chars (version_key from to) = "(" :: version_letters from ++ "," :: " " :: version_letters to ++ [")"].
Proof.
  unfold version_key. rewrite str_chars_ascii by (rewrite !ascii_str_app; split_and!; (done || apply version_ascii)).
  by rewrite !str_bytes_app.
Qed.

Lemma parse_versions_key from to : parse_versions (version_key from to) = Some (string_of_version from, string_of_version to).
Proof.
  unfold parse_versions. rewrite version_key_letters.
  destruct (version_letters_spec from) as (Hf1 & Hf2 & Hf3). destruct (version_letters_spec to) as (Ht1 & Ht2 & Ht3).
  revert Hf1 Hf2 Hf3 Ht1 Ht2 Ht3. generalize (version_letters from) as fs, (version_letters to) as ts. intros fs ts Hf1 Hf2 Hf3 Ht1 Ht2 Ht3.
  assert (Hm := versions_match fs ts Hf1 Hf2 Ht1 Ht2). cbn [find_captures]. rewrite Hm. cbn [mbind option_bind]. unfold captured.
  assert (E : (<["to_ver" := ts]> (<["from_ver" := fs]> ∅) : caps) !! "from_ver" = Some fs)
    by by rewrite lookup_insert_ne, lookup_insert_eq.
  rewrite E, lookup_insert_eq. cbn. by rewrite Hf3, Ht3.
Qed.

Lemma version_inj v1 v2 : string_of_version v1 = string_of_version v2 → v1 = v2.
Proof. intros E. pose proof (version_text v1) as E1. rewrite E, version_text in E1. congruence. Qed.

Lemma version_key_inj f1 t1 f2 t2 : version_key f1 t1 = version_key f2 t2 → (f1, t1) = (f2, t2).
Proof.
  intros E. pose proof (parse_versions_key f1 t1) as E1. rewrite E, parse_versions_key in E1.
  injection E1 as Ef%version_inj Et%version_inj. congruence.
Qed.

(** ** Round trips of the maps *)

Definition keyed (e : (V * V) * list string) : string * list string := (version_key e.1.1 e.1.2, e.2).

Lemma keyed_nodup (m : list ((V * V) * list string)) : NoDup m.*1 → NoDup (keyed <$> m).*1.
Proof.
  intros Hn. assert (E : (keyed <$> m).*1 = (λ k, version_key k.1 k.2) <$> m.*1).
  { by rewrite <-!list_fmap_compose. }
  rewrite E. apply NoDup_fmap_2_strong; [|done]. intros [f1 t1] [f2 t2] _ _. apply version_key_inj.
Qed.

Lemma serialize_migration_spec m : bt_sorted m →
  bt_sorted (serialize_migration m) ∧ ∀ e, e ∈ serialize_migration m ↔ e ∈ keyed <$> m.
Proof.
  intros Hs. pose proof (fold_insert_spec keyed m []) as Hf. destruct Hf as [Hf1 Hf2].
  - constructor.
  - cbn. by apply keyed_nodup, bt_sorted_keys.
  - assert (E : serialize_migration m = fold_left (λ m b, bt_insert (keyed b).1 (keyed b).2 m) m []).
    { unfold serialize_migration. clear. generalize (@nil (string * list string)).
      induction m as [|[[f t] v] m IH]; intros acc; [done|]. apply IH. }
    rewrite E. split; [done|]. intros e. rewrite Hf2, elem_of_nil. tauto.
Qed.

Lemma deserialize_serialize_migration m : bt_sorted m → deserialize_migration (serialize_migration m) = Some m.
Proof.
  intros Hs. destruct (serialize_migration_spec m Hs) as [Hss He].
  assert (Hp : serialize_migration m ≡ₚ keyed <$> m).
  { apply NoDup_Permutation; [by apply bt_sorted_nodup| |done].
    apply (NoDup_fmap_1 fst), keyed_nodup, bt_sorted_keys, Hs. }
  apply Permutation_map_inv in Hp as (l & -> & Hl). unfold deserialize_migration, collect_new.
  destruct (collect_new_spec parse_tuple_key (keyed <$> l) l []) as (r & Er & Hr & Hin).
  - constructor.
  - apply Forall2_fmap_l, Forall_Forall2_diag, Forall_forall. intros [[f t] v] _. unfold parse_tuple_key, keyed. cbn [fst snd].
    cbn [compose fst snd]. rewrite parse_versions_key. cbn. by rewrite !version_text.
  - cbn. rewrite <-Hl. by apply bt_sorted_keys.
  - etransitivity; [exact Er|]. f_equal. apply sorted_elems_eq; [done..|]. intros kv. rewrite Hin, elem_of_nil, Hl. tauto.
Qed.

(** The waves of an update: bounds are of 32 bits, times those that can be held. *)
Definition waves_wf (w : list (Z * Z)) : Prop :=
  bt_sorted w ∧ Forall (λ kv, (0 ≤ kv.1 < 2 ^ 32)%Z ∧ is_time kv.2 = true) w.

Lemma waves_roundtrip w : waves_wf w → waves_of_json (waves_to_json w) = Some w.
Proof.
  intros [Hs Hw]. unfold waves_of_json, waves_to_json. cbn [json_object mbind option_bind].
  assert (E : mapM (λ kv : string * json, t ← as_time kv.2; Some (kv.1, t))
    ((λ kv, (unsigned_to_string kv.1, JString (string_of_time kv.2))) <$> w) = Some ((λ kv, (unsigned_to_string kv.1, kv.2)) <$> w)).
  { apply mapM_Some, Forall2_fmap, Forall_Forall2_diag. eapply Forall_impl; [exact Hw|]. intros [k t] [_ Ht]. cbn in *.
    unfold as_time. cbn. by rewrite time_text. }
  rewrite E. cbn. unfold deserialize_bound, collect_new.
  destruct (collect_new_spec bound_to_int ((λ kv, (unsigned_to_string kv.1, kv.2)) <$> w) w []) as (r & Er & Hr & Hin).
  - constructor.
  - apply Forall2_fmap_l, Forall_Forall2_diag. eapply Forall_impl; [exact Hw|]. intros [k t] [Hk _]. unfold bound_to_int, parse_u32. cbn.
    by rewrite parse_unsigned_to_string.
  - cbn. by apply bt_sorted_keys.
  - etransitivity; [exact Er|]. f_equal. apply sorted_elems_eq; [done..|]. intros kv. rewrite Hin, elem_of_nil. tauto.
Qed.

Lemma images_roundtrip i : images_of_json (images_to_json i) = Some i.
Proof. by destruct i. Qed.

Lemma as_version_text v : as_version (JString (string_of_version v)) = Some v.
Proof. apply version_text. Qed.

Lemma update_roundtrip u : waves_wf (waves u) → update_of_json (update_to_json u) = Some u.
Proof.
  intros Hw. unfold update_of_json.
  assert (E : fields_of ["variant"; "arch"; "version"; "max_version"; "waves"; "images"] (update_to_json u) =
    Some [Some (JString (variant u)); Some (JString (arch u)); Some (JString (string_of_version (version u)));
          Some (JString (string_of_version (max_version u))); Some (waves_to_json (waves u)); Some (images_to_json (images u))])
    by reflexivity.
  rewrite E. cbn [mbind option_bind required as_str].
  rewrite !as_version_text. cbn [mbind option_bind]. rewrite waves_roundtrip by done. cbn [mbind option_bind].
  rewrite images_roundtrip. by destruct u.
Qed.

(** What every manifest that the program holds satisfies. *)
Record manifest_wf (m : Manifest V) : Prop := {
  mwf_updates : Forall (λ u, waves_wf (waves u)) (updates m);
  mwf_migrations : bt_sorted (migrations m) }.

Lemma migrations_roundtrip m : bt_sorted m →
  migrations_of_json (JObject ((λ kv, (kv.1, JArray (JString <$> kv.2))) <$> serialize_migration m)) = Some m.
Proof.
  intros Hs. unfold migrations_of_json. cbn [json_object mbind option_bind].
  assert (E : mapM (λ kv : string * json, l ← as_strings kv.2; Some (kv.1, l))
    ((λ kv, (kv.1, JArray (JString <$> kv.2))) <$> serialize_migration m) = Some (serialize_migration m)).
  { apply mapM_fmap_Some. intros [k l]. cbn. unfold as_strings. cbn. by rewrite mapM_fmap_Some. }
  rewrite E. by apply deserialize_serialize_migration.
Qed.

(** What is written is JSON. *)
Lemma array_json_wf l : Forall json_wf l → json_wf (JArray l).
Proof. by induction 1. Qed.
Lemma object_json_wf m : NoDup m.*1 → Forall (λ kv, json_wf kv.2) m → json_wf (JObject m).
Proof. intros Hn Hm. split; [done|]. clear Hn. by induction Hm. Qed.
Lemma strings_wf (l : list string) : Forall json_wf (JString <$> l).
Proof. by apply Forall_fmap, Forall_true. Qed.

Ltac constant_keys := refine (bool_decide_unpack _ _); vm_compute; exact I.

Lemma images_json_wf i : json_wf (images_to_json i).
Proof. apply object_json_wf; [constant_keys|]. by repeat constructor. Qed.

Lemma waves_json_wf w : waves_wf w → json_wf (waves_to_json w).
Proof.
  intros [Hs Hw]. apply object_json_wf; [|by apply Forall_fmap, Forall_true].
  assert (E : ((λ kv : Z * Z, (unsigned_to_string kv.1, JString (string_of_time kv.2))) <$> w).*1 =
    unsigned_to_string <$> w.*1) by by rewrite <-!list_fmap_compose.
  rewrite E. apply NoDup_fmap_2_strong; [|by apply bt_sorted_keys].
  intros k1 k2 (kv1 & -> & H1)%list_elem_of_fmap (kv2 & -> & H2)%list_elem_of_fmap.
  rewrite Forall_forall in Hw. apply Hw in H1 as [? _], H2 as [? _]. apply unsigned_to_string_inj; lia.
Qed.

Lemma update_json_wf u : waves_wf (waves u) → json_wf (update_to_json u).
Proof.
  intros Hw. apply object_json_wf; [constant_keys|].
  do 4 (constructor; [done|]). constructor; [by apply waves_json_wf|]. constructor; [apply images_json_wf|constructor].
Qed.

Lemma manifest_json_wf m : manifest_wf m → json_wf (manifest_to_json m).
Proof.
  intros [Hu Hm]. apply object_json_wf; [constant_keys|]. constructor; [|constructor; [|constructor]].
  - apply array_json_wf, Forall_fmap. eapply Forall_impl; [exact Hu|]. intros u. apply update_json_wf.
  - destruct (serialize_migration_spec _ Hm) as [Hs _]. apply object_json_wf.
    + rewrite <-list_fmap_compose. change (NoDup ((serialize_migration (migrations m)).*1)). by apply bt_sorted_keys.
    + apply Forall_fmap, Forall_true. intros kv. apply array_json_wf, strings_wf.
Qed.
End keys.

(** What is read is well formed. *)
Section read_wf.
Context `{TotalOrd V, ManifestText V}.

Lemma collect_new_sorted `{TotalOrd K} {A B} (parse : A → option (K * B)) (P : K * B → Prop) l r :
  (∀ a kv, a ∈ l → parse a = Some kv → P kv) → collect_new parse l = Some r → bt_sorted r ∧ Forall P r.
Proof.
  intros Hp. unfold collect_new. assert (Hstart : bt_sorted (@nil (K * B)) ∧ Forall P []) by (split; constructor).
  revert Hstart. generalize (@nil (K * B)) as m. revert Hp. induction l as [|a l IH]; intros Hp m Hm; cbn [foldl]; [by intros [= <-]|].
  destruct (m ← Some m; '(k, v) ← parse a; bt_insert_new k v m) as [m1|] eqn:E.
  - apply IH; [intros a' kv Ha'; apply Hp; by right|]. cbn in E. destruct (parse a) as [[k v]|] eqn:Ep; [|done]. cbn in E.
    unfold bt_insert_new in E. destruct (bt_get k m); [done|]. injection E as <-. destruct Hm as [Hs Hf].
    split; [by apply bt_insert_sorted|]. apply Forall_forall. intros kv [->|Hin]%bt_insert_elem;
      [eapply Hp; [by left|done]|rewrite Forall_forall in Hf; by apply Hf].
  - intros Hn. exfalso. clear -Hn. by induction l as [|b l IH]; [|apply IH].
Qed.

Lemma waves_of_json_wf v w : waves_of_json v = Some w → waves_wf w.
Proof.
  unfold waves_of_json. destruct (json_object v) as [m|]; [|done]. cbn.
  destruct (mapM _ m) as [entries|] eqn:E; [|done]. cbn. intros Hd.
  eapply (collect_new_sorted bound_to_int (λ kv, (0 ≤ kv.1 < 2 ^ 32)%Z ∧ is_time kv.2 = true)); [|exact Hd].
  intros [k t] kv Hin Hb. unfold bound_to_int in Hb. cbn in Hb. destruct (parse_u32 k) as [n|] eqn:En; [|done].
  injection Hb as <-. split; [by eapply parse_u32_bound|]. cbn.
  apply mapM_Some in E. apply list_elem_of_lookup in Hin as [i Hi]. eapply Forall2_lookup_r in E as ([k' v'] & _ & Ht); [|exact Hi].
  cbn in Ht. unfold as_time in Ht. destruct (as_str v'); [|done]. cbn in Ht.
  destruct (time_of_string _) as [t'|] eqn:Et; [|done]. injection Ht as _ <-. by eapply time_range.
Qed.

Lemma manifest_of_text_wf text m : manifest_of_text text = Some m → manifest_wf m.
Proof.
  unfold manifest_of_text. destruct (json_read text) as [v|]; [|done]. cbn. unfold manifest_of_json.
  destruct (fields_of _ v) as [[|us [|ms [|]]]|]; try done. cbn. unfold required.
  destruct us as [us|]; [|done]. cbn. destruct (json_array us) as [us'|]; [|done]. cbn.
  destruct (mapM update_of_json us') as [l|] eqn:El; [|done]. cbn. destruct ms as [ms|]; [|done]. cbn.
  destruct (migrations_of_json ms) as [mig|] eqn:Em; [|done]. intros [= <-]. split; cbn.
  - apply mapM_Some in El. apply Forall_forall. intros u [i Hi]%list_elem_of_lookup.
    eapply Forall2_lookup_r in El as (j & _ & Hj); [|exact Hi]. unfold update_of_json in Hj.
    destruct (fields_of _ j) as [[|a [|b [|c [|d [|w [|im [|]]]]]]]|]; try done. cbn in Hj. unfold required in Hj.
    repeat (apply bind_Some in Hj as (? & ? & Hj)). injection Hj as <-. cbn.
    match goal with Hw : _ ≫= waves_of_json = Some _ |- _ => apply bind_Some in Hw as (wj & _ & Hw); by eapply waves_of_json_wf end.
  - unfold migrations_of_json in Em. destruct (json_object ms) as [o|]; [|done]. cbn in Em.
    destruct (mapM _ o) as [entries|]; [|done]. cbn in Em.
    by destruct (collect_new_sorted parse_tuple_key (λ _, True) entries mig) as [Hs _].
Qed.
End read_wf.

Section roundtrip.
Context `{TotalOrd V, ManifestText V}.

Lemma manifest_roundtrip_wf (m : Manifest V) : manifest_wf m → manifest_of_text (manifest_text m) = Some m.
Proof.
  intros Hm. unfold manifest_of_text, manifest_text. rewrite json_pretty_read by by apply manifest_json_wf.
  cbn [mbind option_bind]. unfold manifest_of_json.
  assert (E : fields_of ["updates"; "migrations"] (manifest_to_json m) =
    Some [Some (JArray (update_to_json <$> updates m));
          Some (JObject ((λ kv, (kv.1, JArray (JString <$> kv.2))) <$> serialize_migration (migrations m)))]) by reflexivity.
  rewrite E. cbn [mbind option_bind required json_array]. destruct Hm as [Hu Hm].
  rewrite mapM_fmap_Forall_Some by (eapply Forall_impl; [exact Hu|]; intros u; apply update_roundtrip).
  cbn [mbind option_bind]. rewrite migrations_roundtrip by done. by destruct m.
Qed.
End roundtrip.

(** C19. The manifests that some file holds are exactly the well-formed ones (the bounds of waves in order and
    of 32 bits, times in range, the pairs of versions of migrations in order), and each of them is
    read back as it is from the text that is written for it, where its pairs of versions travel
    through the keys of an object and a regular expression. *)
Theorem manifest_roundtrip `{TotalOrd V, ManifestText V} (m : Manifest V) :
  (manifest_wf m ↔ ∃ text, manifest_of_text text = Some m) ∧
  (manifest_wf m → manifest_of_text (manifest_text m) = Some m).
Proof.
  split; [|apply manifest_roundtrip_wf]. split; [|intros [text Ht]; by eapply manifest_of_text_wf].
  intros Hm. exists (manifest_text m). by apply manifest_roundtrip_wf.
Qed.

(** Numbers for versions, for evaluating. *)
Definition example_manifest_text : ManifestText Z.
Proof.
  refine {| version_of_string s := decode (bits_of_string (str_drop 1 s)); string_of_version v := String (ascii_of_nat 118) (bits_to_string (encode v));
            time_of_string s := decode (bits_of_string s); string_of_time t := bits_to_string (encode t); is_time _ := true;
            json_pretty v := bits_to_string (encode (json_to_tree v)); json_read s := json_of_tree <$> decode (bits_of_string s) |}.
  - intros v. cbn. by rewrite bits_of_to_string, decode_encode.
  - intros v. split; [done|]. cbn. induction (encode v) as [p IH|p IH|]; [exact IH|exact IH|done].
  - intros t _. by rewrite bits_of_to_string, decode_encode.
  - done.
  - intros v _. rewrite bits_of_to_string, decode_encode. cbn. by rewrite json_of_to_tree.
Defined.

Lemma manifest_roundtrip_witness :
  let m := mk_manifest [example_update] [((1, 2)%Z, ["migrate_v2"]); ((2, 3)%Z, ["a"; "b"])] in
  manifest_of_text (H0 := example_manifest_text) (manifest_text (H0 := example_manifest_text) m) = Some m.
Proof.
  cbn zeta. refine (proj2 (manifest_roundtrip (H0 := example_manifest_text) _) _). split.
  - constructor; [|constructor]. split; [apply example_waves_sorted|]. repeat constructor; cbn; lia.
  - repeat constructor.
Defined.
