(* ===== verification/Updata.v ===== *)
(** * updata ([sources/updater/updog/src/bin/updata.rs])

    The release tool that edits a manifest file: it reads the manifest, changes it with the
    operations of [update_metadata] and writes it back.  The theorem says what each command
    leaves in the file.

    The command line is a value of [Command]; TOML, the clock and the arguments' own parsers are
    the class [UpdataHost]. *)
From S2P Require Import Prelude Chars Filesystem Bloodhound Machine BTree ParseDatetime UpdateMetadata ManifestFile.
From stdpp Require Import base list strings gmap sorting.
From stdpp Require Import options.

(** ** Definitions *)

Inductive error (V : Type) :=
| FileRead (path : string)
| ManifestParse
| FileWrite (path : string)
| Metadata (source : um_error V)
| WaveFileArg
| ConfigRead (path : string)
| ConfigParse (path : string)
| ReleaseParse (path : string)
| Logger.
Arguments FileRead {V}.
Arguments ManifestParse {V}.
Arguments FileWrite {V}.
Arguments Metadata {V}.
Arguments WaveFileArg {V}.
Arguments ConfigRead {V}.
Arguments ConfigParse {V}.
Arguments ReleaseParse {V}.
Arguments Logger {V}.

(** The arguments of the subcommands. *)
Record AddUpdateArgs (V : Type) := mk_add_args {
  add_file : string; add_variant : string; add_version : V; add_arch : string;
  add_max_version : option V; add_images : Images }.
Arguments mk_add_args {V}. Arguments add_file {V}. Arguments add_variant {V}. Arguments add_version {V}.
Arguments add_arch {V}. Arguments add_max_version {V}. Arguments add_images {V}.
Record RemoveUpdateArgs (V : Type) := mk_remove_args {
  rm_file : string; rm_variant : string; rm_version : V; rm_arch : string }.
Arguments mk_remove_args {V}. Arguments rm_file {V}. Arguments rm_variant {V}. Arguments rm_version {V}. Arguments rm_arch {V}.
Record WaveArgs (V : Type) := mk_wave_args {
  wv_file : string; wv_variant : string; wv_version : V; wv_arch : string;
  wave_file : option string; start_at : option Z }.
Arguments mk_wave_args {V}. Arguments wv_file {V}. Arguments wv_variant {V}. Arguments wv_version {V}.
Arguments wv_arch {V}. Arguments wave_file {V}. Arguments start_at {V}.
Record MigrationArgs := mk_migration_args { mig_from : string; mig_to : string }.
Record MaxVersionArgs (V : Type) := mk_max_args { max_file : string; max_to : V }.
Arguments mk_max_args {V}. Arguments max_file {V}. Arguments max_to {V}.

Inductive Command (V : Type) :=
| Init (file : string)
| AddUpdate (args : AddUpdateArgs V)
| SetWaves (args : WaveArgs V)
| SetMaxVersion (args : MaxVersionArgs V)
| RemoveUpdate (args : RemoveUpdateArgs V)
| SetMigrations (args : MigrationArgs)
| Validate (file : string).
Arguments Init {V}. Arguments AddUpdate {V}. Arguments SetWaves {V}. Arguments SetMaxVersion {V}.
Arguments RemoveUpdate {V}. Arguments SetMigrations {V}. Arguments Validate {V}.

(** The TOML of wave files, and that of releases down to the entries of their migrations. *)
Class UpdataHost := {
  waves_of_toml : string → option (list UpdateWave);
  release_of_toml : string → option (list (string * list string));
  utc_now : machine → Z }.

Section program.
Context `{MachineOps, UpdataHost} {V : Type} `{TotalOrd V} `{!ManifestText V}.

Abbreviation act A := (stres machine (error V) A).

Definition load_file (path : string) : act (Manifest V) := λ m,
  match files m !! path with
  | Some text =>
      if io_ok ReadFile path m then (m, ok_or (manifest_of_text text) ManifestParse) else (m, Err (FileRead path))
  | None => (m, Err (FileRead path))
  end.
Definition write_file (path : string) (manifest : Manifest V) : act () :=
  fs_write_file path (manifest_text manifest) (FileWrite path).

Definition add_update_run (args : AddUpdateArgs V) : act () :=
  let! manifest := load_file (add_file args) in
  write_file (add_file args)
    (add_update manifest (add_version args) (add_max_version args) (add_arch args) (add_variant args) (add_images args)).

(** Removal of exactly matching updates. *)
Definition retained (args : RemoveUpdateArgs V) (update : Update V) : bool :=
  bool_decide (arch update ≠ rm_arch args) || bool_decide (variant update ≠ rm_variant args) ||
  negb (oeqb (version update) (rm_version args)).
Definition remove_update (args : RemoveUpdateArgs V) (manifest : Manifest V) : Manifest V :=
  mk_manifest (filter (λ u, retained args u = true) (updates manifest)) (migrations manifest).
Definition remove_update_run (args : RemoveUpdateArgs V) : act () :=
  let! manifest := load_file (rm_file args) in
  write_file (rm_file args) (remove_update args manifest).

Definition wave_args_set (args : WaveArgs V) : act () :=
  let! manifest := load_file (wv_file args) in
  let! wave_file := st_lift (ok_or (wave_file args) WaveFileArg) in
  let! wave_str := fs_read_to_string wave_file (ConfigRead wave_file) in
  let! waves := st_lift (ok_or (waves_of_toml wave_str) (ConfigParse wave_file)) in λ m,
  let start_at := default (utc_now m) (start_at args) in
  let '(manifest, r) := set_waves (wv_variant args) (wv_arch args) (wv_version args) start_at waves manifest in
  match r with
  | Ok _ => write_file (wv_file args) manifest m
  | Err e => (m, Err (Metadata e))
  end.

Definition migration_args_set (args : MigrationArgs) : act () :=
  let! manifest := load_file (mig_to args) in
  let! release_data := fs_read_to_string (mig_from args) (ConfigRead (mig_from args)) in
  let! release := st_lift (ok_or (release_of_toml release_data ≫= deserialize_migration) (ReleaseParse (mig_from args))) in
  write_file (mig_to args) (mk_manifest (updates manifest) release).

Definition max_version_run (args : MaxVersionArgs V) : act () :=
  let! manifest := load_file (max_file args) in
  write_file (max_file args) (update_max_version manifest (max_to args) None None).

Definition main_inner (cmd : Command V) : act () :=
  let! _ := io InitLogger EmptyString id Logger in
  match cmd with
  | Init file => write_file file (mk_manifest [] [])
  | AddUpdate args => add_update_run args
  | SetWaves args => wave_args_set args
  | SetMaxVersion args => max_version_run args
  | RemoveUpdate args => remove_update_run args
  | SetMigrations args => migration_args_set args
  | Validate file => let! _ := load_file file in st_ret tt
  end.

Definition main (cmd : Command V) (m : machine) : machine * Z :=
  match main_inner cmd m with
  | (m, Ok _) => (m, 0%Z)
  | (m, Err (Metadata UmPanicked)) => (m, 101%Z)
  | (m, Err _) => (m, 1%Z)
  end.
End program.

(** ** What the commands do to the file *)

Section facts.
Context `{MachineOps, UpdataHost} {V : Type} `{TotalOrd V} `{!ManifestText V}.
Implicit Types (man : Manifest V) (u : Update V) (m : machine).

Definition target (cmd : Command V) : string :=
  match cmd with
  | Init file | Validate file => file
  | AddUpdate args => add_file args
  | SetWaves args => wv_file args
  | SetMaxVersion args => max_file args
  | RemoveUpdate args => rm_file args
  | SetMigrations args => mig_to args
  end.

(** What a command is to make of the manifest [man], on a machine with its input files. *)
Definition edit_spec m (cmd : Command V) man man' : Prop :=
  match cmd with
  | Init _ => man' = mk_manifest [] []
  | AddUpdate a =>
      migrations man' = migrations man ∧
      ∃ max, (add_max_version a = Some max ∨ add_max_version a = None ∧ ole (add_version a) max) ∧
        updates man' =
          ((λ u, if bool_decide (arch u = add_arch a) && bool_decide (variant u = add_variant a)
                 then with_max_version u max else u) <$> updates man) ++
          [mk_update (add_variant a) (add_arch a) (add_version a) max [] (add_images a)] ∧
        ∀ u, u ∈ updates man' → arch u = add_arch a → variant u = add_variant a → max_version u = max
  | SetWaves a =>
      migrations man' = migrations man ∧
      (∃ file text ws, wave_file a = Some file ∧ files m !! file = Some text ∧ waves_of_toml text = Some ws ∧
         Forall2 (λ u u', if bool_decide (arch u = wv_arch a ∧ variant u = wv_variant a ∧ version u = wv_version a)
                          then u' = with_waves u (waves u') ∧ bt_sorted (waves u') ∧
                               ∃ entries, wave_plan (default (utc_now m) (start_at a)) ws 0 entries ∧
                               ∀ e, e ∈ waves u' ↔ last (filter (λ e', e'.1 = e.1) entries) = Some e
                          else u' = u) (updates man) (updates man')) ∧
      Forall (λ u, StronglySorted (λ a b, (a.2 < b.2)%Z) (waves u)) (updates man')
  | SetMaxVersion a =>
      migrations man' = migrations man ∧ updates man' = (λ u, with_max_version u (max_to a)) <$> updates man
  | RemoveUpdate a =>
      migrations man' = migrations man ∧ updates man' `sublist_of` updates man ∧
      ∀ u, u ∈ updates man' ↔ u ∈ updates man ∧ ¬ (arch u = rm_arch a ∧ variant u = rm_variant a ∧ version u = rm_version a)
  | SetMigrations a =>
      updates man' = updates man ∧
      ∃ text, files m !! mig_from a = Some text ∧ release_of_toml text ≫= deserialize_migration = Some (migrations man')
  | Validate _ => man' = man
  end.

Lemma add_update_spec a man m : edit_spec m (AddUpdate a) man
  (add_update man (add_version a) (add_max_version a) (add_arch a) (add_variant a) (add_images a)).
Proof.
  unfold add_update. cbn [edit_spec]. set (max := match add_max_version a with Some v => v | None => _ end).
  split; [done|]. exists max. split_and!; [|done|].
  - unfold max. destruct (add_max_version a) as [v|]; [by left|right]. split; [done|].
    destruct (head (updates man)) as [u|]; [|apply ole_refl]. unfold vmax.
    destruct (oleb (add_version a) (max_version u)) eqn:E; [by apply oleb_spec|apply ole_refl].
  - cbn. intros u [Hu| ->%list_elem_of_singleton]%elem_of_app; [|done].
    apply list_elem_of_fmap in Hu as (u0 & -> & _). intros Ha Hv.
    destruct (bool_decide (arch u0 = add_arch a) && bool_decide (variant u0 = add_variant a)) eqn:E; [done|].
    by rewrite Ha, Hv, !bool_decide_true in E.
Qed.

Lemma remove_update_spec a man m : edit_spec m (RemoveUpdate a) man (remove_update a man).
Proof.
  cbn. split; [done|]. split; [apply sublist_filter|]. intros u. rewrite list_elem_of_filter.
  assert (E : retained a u = true ↔ ¬ (arch u = rm_arch a ∧ variant u = rm_variant a ∧ version u = rm_version a)).
  { unfold retained. rewrite !orb_true_iff, !bool_decide_eq_true, negb_true_iff, <-not_true_iff_false, oeqb_spec.
    destruct (decide (arch u = rm_arch a)), (decide (variant u = rm_variant a)); naive_solver. }
  rewrite E. tauto.
Qed.

Lemma set_max_version_spec a man m : edit_spec m (SetMaxVersion a) man (update_max_version man (max_to a) None None).
Proof. done. Qed.

(** ** Files *)

Definition in_range man : Prop := Forall (λ u, Forall (λ kv, is_time kv.2 = true) (waves u)) (updates man).

(** The manifest that a command makes of the one in its file. *)
Definition edit_of m (cmd : Command V) man' : Prop := ∃ man,
  ((∃ file, cmd = Init file) ∨ ∃ text, files m !! target cmd = Some text ∧ manifest_of_text text = Some man) ∧
  edit_spec m cmd man man'.

(** The machine after a command that edits its file, and after one of which the writing failed
    and left a part of the text. *)
Definition file_edited m m' (cmd : Command V) : Prop := ∃ man',
  edit_of m cmd man' ∧ m' = set_file (target cmd) (manifest_text man') m ∧
  (in_range man' → manifest_of_text (manifest_text man') = Some man').
Definition partly_written m m' (cmd : Command V) : Prop := ∃ man' n,
  edit_of m cmd man' ∧ m' = set_file (target cmd) (str_take n (manifest_text man')) m.
Definition edited m m' (cmd : Command V) (r : result (error V) ()) : Prop :=
  if is_ok r then file_edited m m' cmd
  else m' = m ∨ (r = Err (FileWrite (target cmd)) ∧ partly_written m m' cmd).

(** The waves of a manifest that a command makes of one that is well formed are in order, and their
    bounds have 32 bits. *)
Definition waves_ok u : Prop := bt_sorted (waves u) ∧ Forall (λ kv, (0 ≤ kv.1 < 2 ^ 32)%Z) (waves u).
Lemma wf_of_ok man : Forall waves_ok (updates man) → bt_sorted (migrations man) → in_range man → manifest_wf man.
Proof.
  intros Hw Hm Hr. split; [|done]. unfold in_range in Hr. rewrite Forall_forall in Hr. apply Forall_forall.
  intros u Hu. rewrite Forall_forall in Hw. destruct (Hw u Hu) as [Hs Hb]. split; [done|]. apply Forall_and. by split; [|apply Hr].
Qed.
Lemma ok_of_wf man : manifest_wf man → Forall waves_ok (updates man) ∧ bt_sorted (migrations man).
Proof.
  intros [Hu Hm]. split; [|done]. eapply Forall_impl; [exact Hu|]. intros u [Hs Hw]. split; [done|].
  eapply Forall_impl; [exact Hw|]. by intros kv [].
Qed.

Lemma load_file_Ok path m m' man : load_file path m = (m', Ok man) →
  m' = m ∧ ∃ text, files m !! path = Some text ∧ manifest_of_text text = Some man.
Proof.
  unfold load_file. destruct (files m !! path) as [text|] eqn:E; [|done]. destruct (io_ok _ _ _); [|done].
  intros [= <- Hm%ok_or_Ok]. eauto.
Qed.
Lemma load_file_same path m : (load_file path m).1 = m.
Proof. unfold load_file. destruct (files m !! path); [|done]. by destruct (io_ok _ _ _). Qed.

(** Writing what was made of the manifest in the file. *)
Lemma write_edited cmd man man' m m' r :
  ((∃ file, cmd = Init file) ∨ ∃ text, files m !! target cmd = Some text ∧ manifest_of_text text = Some man) →
  edit_spec m cmd man man' → Forall waves_ok (updates man') → bt_sorted (migrations man') →
  write_file (target cmd) man' m = (m', r) → edited m m' cmd r.
Proof.
  intros Hl He Hw Hm. assert (Hof : edit_of m cmd man') by by exists man.
  intros [[-> ->]|[-> [->|[n ->]]]]%fs_write_file_inv; unfold edited; cbn [is_ok].
  - exists man'. split_and!; [done..|]. intros Hr. by apply manifest_roundtrip_wf, wf_of_ok.
  - by left.
  - right. split; [done|]. by exists man', n.
Qed.

(** The part that most commands share: reading, and what is done with the manifest. *)
Lemma load_then path m m' r (k : Manifest V → stres machine (error V) ()) (Q : machine → result (error V) () → Prop) :
  (∀ e, Q m (Err e)) →
  (∀ man text, files m !! path = Some text → manifest_of_text text = Some man → Forall waves_ok (updates man) →
     bt_sorted (migrations man) → k man m = (m', r) → Q m' r) →
  (let! man := load_file path in k man) m = (m', r) → Q m' r.
Proof.
  intros HQ Hk [(e & He & ->)|(m1 & man & (-> & text & Ht & Hm)%load_file_Ok & Hr)]%st_bind_inv.
  - pose proof (load_file_same path m) as Hs. rewrite He in Hs. cbn in Hs. by subst.
  - destruct (ok_of_wf man (manifest_of_text_wf _ _ Hm)). by eapply Hk.
Qed.

Lemma read_same path (e : error V) m : (fs_read_to_string path e m).1 = m.
Proof. unfold fs_read_to_string. destruct (files m !! path); [|done]. by destruct (io_ok _ _ _ && _). Qed.
Lemma read_Ok path (e : error V) m m' text : fs_read_to_string path e m = (m', Ok text) → m' = m ∧ files m !! path = Some text.
Proof.
  unfold fs_read_to_string. destruct (files m !! path) as [t|] eqn:E; [|done]. destruct (io_ok _ _ _ && _); [|done].
  by intros [= <- <-].
Qed.

Lemma not_edited m cmd e : edited m m cmd (Err e).
Proof. by left. Qed.

Lemma matches_update_spec v a ver u :
  matches_update v a ver u = bool_decide (arch u = a ∧ variant u = v ∧ version u = ver).
Proof.
  unfold matches_update. destruct (oeqb (version u) ver) eqn:E.
  - apply oeqb_spec in E. destruct (bool_decide_reflect (arch u = a)), (bool_decide_reflect (variant u = v)); cbn;
      case_bool_decide; naive_solver.
  - rewrite andb_false_r. symmetry. apply bool_decide_eq_false. intros (_ & _ & Hv%oeqb_spec). congruence.
Qed.

Lemma wave_args_edited a m m' r : wave_args_set a m = (m', r) → edited m m' (SetWaves a) r.
Proof.
  apply (load_then _ _ _ _ _ (λ m' r, edited m m' (SetWaves a) r)); [apply not_edited|]. intros man text Ht Hm Hw Hmig Hk.
  apply st_lift_inv in Hk as [(e & He & -> & ->)|(wf & Hwf%ok_or_Ok & Hk)]; [apply not_edited|].
  apply st_bind_inv in Hk as [(e & He & ->)|(m1 & wave_str & [-> Hws]%read_Ok & Hk)].
  { pose proof (read_same wf (ConfigRead wf) m) as Hs. rewrite He in Hs. cbn in Hs. subst. apply not_edited. }
  apply st_lift_inv in Hk as [(e & He & -> & ->)|(ws & Hto%ok_or_Ok & Hk)]; [apply not_edited|]. cbn zeta in Hk.
  destruct (set_waves _ _ _ _ _ man) as [man' [n|e]] eqn:Es; [|injection Hk as <- <-; apply not_edited].
  destruct (set_waves_result _ _ _ _ _ _ _ _ Es) as (_ & Hmig' & Hf & Hord).
  pose proof (set_waves_planned _ _ _ _ _ _ _ _ Es) as Hf'.
  eapply (write_edited (SetWaves a) man man'); [|split_and!; [done| |done]| |by rewrite Hmig'|done].
  - right. by exists text.
  - exists wf, wave_str, ws. split_and!; [done..|]. eapply Forall2_impl; [exact Hf'|]. intros u u'.
    cbn. by rewrite matches_update_spec.
  - apply Forall_forall. intros u' [i Hi]%list_elem_of_lookup. eapply Forall2_lookup_r in Hf as (u & Hu & Hc); [|exact Hi].
    cbn in Hc. destruct (matches_update _ _ _ u).
    + destruct Hc as (Hs & Hb & _ & _). split; [done|]. eapply Forall_impl; [exact Hb|]. unfold MAX_SEED. intros kv ?. lia.
    + subst u'. rewrite Forall_forall in Hw. apply Hw. by eapply list_elem_of_lookup_2.
Qed.

Lemma migration_args_edited a m m' r : migration_args_set a m = (m', r) → edited m m' (SetMigrations a) r.
Proof.
  apply (load_then _ _ _ _ _ (λ m' r, edited m m' (SetMigrations a) r)); [apply not_edited|]. intros man text Ht Hm Hw _ Hk.
  apply st_bind_inv in Hk as [(e & He & ->)|(m1 & release & [-> Hrel]%read_Ok & Hk)].
  { pose proof (read_same (mig_from a) (ConfigRead (mig_from a)) m) as Hs. rewrite He in Hs. cbn in Hs. subst.
    apply not_edited. }
  apply st_lift_inv in Hk as [(e & He & -> & ->)|(mig & Hmig%ok_or_Ok & Hk)]; [apply not_edited|].
  eapply (write_edited (SetMigrations a) man (mk_manifest (updates man) mig)); [|split; [done|by exists release]|done| |done].
  - right. by exists text.
  - apply bind_Some in Hmig as (entries & _ & Hd).
    by destruct (collect_new_sorted parse_tuple_key (λ _, True) entries mig) as [Hs _].
Qed.

Lemma waves_ok_fmap (f : Update V → Update V) us : (∀ u, waves (f u) = waves u) → Forall waves_ok us → Forall waves_ok (f <$> us).
Proof. intros Hf Hu. apply Forall_fmap. eapply Forall_impl; [exact Hu|]. intros u Hw.
  unfold compose, waves_ok. by rewrite Hf. Qed.
End facts.


Definition example_updata : UpdataHost := {| waves_of_toml _ := Some []; release_of_toml _ := Some []; utc_now _ := 0%Z |}.

