(* ===== verification/ExecServer.v ===== *)
(** * The server of exec ([sources/api/apiserver/src/server/exec.rs], [exec/])

    A client runs a command in a container over a WebSocket.  The actor [WsExec] answers
    the messages of the client and of its own mailbox; for each spawned child there are
    three threads, which write its input from a bounded channel, read its output and wait
    for its end.  Handlers and thread steps are functions of the server's state; their
    interleavings are the step relation of the file Exec.

    The frames that were sent are a list, of which the client has seen a part.  The text of
    control messages is the class [ExecText]; spawning through containerd gives a process
    or an error, an argument of the handler. *)
From S2P Require Import Prelude Numbers.
From stdpp Require Import base list strings.
From stdpp Require Import options.

(** ** Messages ([sources/models/src/exec.rs]) *)

Record Size := mk_Size { rows : Z; cols : Z }.
Record TtyInit := mk_TtyInit { size : option Size }.
Record Initialize := mk_Initialize { command : list string; target : string; tty : option TtyInit }.
Inductive ClientMessage := ClientInitialize (init : Initialize) | ContentComplete | Winch (size : Size).
Record Capacity := mk_Capacity { max_messages_outstanding : Z; messages_written : Z }.
Inductive ServerMessage := ServerCapacity (capacity : Capacity).

(** Control messages as JSON: reading gives a message or the text of the error. *)
Class ExecText := {
  client_text : ClientMessage → string;
  client_of_text : string → result string ClientMessage;
  client_text_read m : client_of_text (client_text m) = Ok m;
  server_text : ServerMessage → string;
  server_of_text : string → result string ServerMessage;
  server_text_read m : server_of_text (server_text m) = Ok m }.

(** ** The WebSocket *)

Inductive CloseCode := Normal | Policy | SizeCode | ErrorCode | Invalid | Unsupported | OtherCode (code : Z).
Record CloseReason := mk_CloseReason { code : CloseCode; description : option string }.

(** The messages of both WebSocket libraries: [Continuation] and [Nop] are the server's,
    [Frame] the client's. *)
Inductive Message :=
| Text (text : string)
| Binary (data : string)
| Ping (data : string)
| Pong (data : string)
| Close (reason : option CloseReason)
| Continuation
| Nop
| Frame.

(** The actor's own messages. *)
Inductive actor_message :=
| ProcessOutput (output : string)
| ProcessReturn (return_code : Z)
| CapacityUpdate (capacity : Capacity).

Definition CLIENT_TIMEOUT : Z := 10000.
Definition MAX_MESSAGES_OUTSTANDING : Z := 1024.
Definition CAPACITY_UPDATE_INTERVAL : Z := 128.

(** ** The child and its threads ([exec/child.rs]) *)

(** The thread that writes: waiting at the channel, in [write_all], or ended (and its
    file and its end of the channel are closed). *)
Inductive Writer := Receiving | Writing (data : string) | WriterDone.
(** The thread that reads: [Sending] repeats [try_send] until the mailbox has room. *)
Inductive Reader := Reading | Sending (data : string) | ReaderDone.
(** The thread that waits; at the end, whether it had the signal that reading was complete. *)
Inductive Waiter := WaitingChild | WaitingReads (code : Z) | WaiterDone (code : Z) (complete : bool).
Inductive WaitStatus := Exited (code : Z) | Signaled (signal : Z) | OtherStatus.

(** The handles of a child ([pid], [child_tty], [write_tx]), the channel, its three threads, and
    the process: the command, its window, what it has been given on its standard input, what was
    read from it, and whether it was told to end. *)
Record Child := mk_Child {
  pid : Z;
  child_tty : bool;
  write_tx : bool;
  channel : list string;
  writer : Writer;
  written : Z;
  reader : Reader;
  waiter : Waiter;
  args : list string;
  winsize : option Size;
  stdin : string;
  output : string;
  terminated : bool }.

Definition with_write_tx (b : bool) (c : Child) : Child :=
  mk_Child (pid c) (child_tty c) b (channel c) (writer c) (written c) (reader c) (waiter c) (args c) (winsize c)
    (stdin c) (output c) (terminated c).
Definition with_channel (l : list string) (w : Writer) (c : Child) : Child :=
  mk_Child (pid c) (child_tty c) (write_tx c) l w (written c) (reader c) (waiter c) (args c) (winsize c)
    (stdin c) (output c) (terminated c).
Definition with_written (n : Z) (s : string) (w : Writer) (c : Child) : Child :=
  mk_Child (pid c) (child_tty c) (write_tx c) (channel c) w n (reader c) (waiter c) (args c) (winsize c)
    s (output c) (terminated c).
Definition with_reader (r : Reader) (s : string) (c : Child) : Child :=
  mk_Child (pid c) (child_tty c) (write_tx c) (channel c) (writer c) (written c) r (waiter c) (args c) (winsize c)
    (stdin c) s (terminated c).
Definition with_waiter (w : Waiter) (c : Child) : Child :=
  mk_Child (pid c) (child_tty c) (write_tx c) (channel c) (writer c) (written c) (reader c) w (args c) (winsize c)
    (stdin c) (output c) (terminated c).
Definition with_winsize (o : option Size) (c : Child) : Child :=
  mk_Child (pid c) (child_tty c) (write_tx c) (channel c) (writer c) (written c) (reader c) (waiter c) (args c) o
    (stdin c) (output c) (terminated c).

(** [ChildHandles::new]: the arguments of [ctr], and the child once it runs. *)
Definition ctr_args (exec_socket_path exec_id : string) (init : Initialize) : list string :=
  ["-a"; exec_socket_path; "task"; "exec"; "--exec-id"; exec_id] ++
  (if tty init is Some _ then ["--tty"] else []) ++ [target init] ++ command init.
Definition new_child (exec_socket_path exec_id : string) (init : Initialize) (p : Z) : Child :=
  mk_Child p (bool_decide (is_Some (tty init))) true [] Receiving 0 Reading WaitingChild
    (ctr_args exec_socket_path exec_id init) (tty init ≫= size) EmptyString EmptyString false.

(** [ChildHandles::stop]. *)
Definition stop_child (c : Child) : Child :=
  mk_Child (pid c) (child_tty c) (write_tx c) (channel c) (writer c) (written c) (reader c) (waiter c) (args c)
    (winsize c) (stdin c) (output c) true.
Definition set_winsize (s : Size) (c : Child) : Child :=
  if negb (child_tty c) then c else with_winsize (Some s) c.

(** [SyncSender::try_send] on the channel of that size. *)
Inductive try_send_result := Sent (c : Child) | Full | Disconnected.
Definition try_send (data : string) (c : Child) : try_send_result :=
  match writer c with
  | WriterDone => Disconnected
  | _ => if (Z.of_nat (length (channel c)) <? MAX_MESSAGES_OUTSTANDING)%Z
         then Sent (with_channel (channel c ++ [data]) (writer c) c) else Full
  end.

(** [write_to_child], one action at a time, with the message that it sends to the actor: it
    receives from the channel, which fails when the channel is empty and the other end closed; a
    write succeeds, or fails after the first [n] bytes. *)
Definition writer_receive (c : Child) : Child :=
  match writer c, channel c with
  | Receiving, data :: rest => with_channel rest (Writing data) c
  | Receiving, [] => if write_tx c then c else with_channel [] WriterDone c
  | _, _ => c
  end.
Definition writer_write (c : Child) : Child * option actor_message :=
  match writer c with
  | Writing data =>
      let messages_written := wrap 64 (written c + 1) in
      (with_written messages_written (stdin c +:+ data) Receiving c,
       if (messages_written mod CAPACITY_UPDATE_INTERVAL =? 0)%Z
       then Some (CapacityUpdate (mk_Capacity MAX_MESSAGES_OUTSTANDING messages_written)) else None)
  | _ => (c, None)
  end.
Definition writer_fail (n : nat) (c : Child) : Child :=
  match writer c with
  | Writing data => with_written (written c) (stdin c +:+ String.substring 0 n data) WriterDone c
  | _ => c
  end.

(** [read_from_child]: it reads at most 4096 bytes, or the output is at its end or fails; what was read
    goes to the actor, unless that has stopped. *)
Definition reader_read (data : string) (c : Child) : Child :=
  match reader c with Reading => with_reader (Sending data) (output c +:+ data) c | _ => c end.
Definition reader_end (c : Child) : Child :=
  match reader c with Reading => with_reader ReaderDone (output c) c | _ => c end.
Definition reader_send (stopped : bool) (c : Child) : Child * option actor_message :=
  match reader c with
  | Sending data => if stopped then (with_reader ReaderDone (output c) c, None)
                    else (with_reader Reading (output c) c, Some (ProcessOutput data))
  | _ => (c, None)
  end.

(** [wait_for_child]: the code of the child that ended; then it waits for the end of
    reading, or until the timeout. *)
Definition wait_code (s : WaitStatus) : Z :=
  match s with Exited c => c | Signaled signal_int => 128 + signal_int | OtherStatus => 0 end.
Definition waiter_exit (s : WaitStatus) (c : Child) : Child :=
  match waiter c with WaitingChild => with_waiter (WaitingReads (wait_code s)) c | _ => c end.
Definition waiter_return (timeout : bool) (c : Child) : Child * option actor_message :=
  match waiter c with
  | WaitingReads code =>
      let complete := match reader c with ReaderDone => true | _ => false end in
      if complete || timeout then (with_waiter (WaiterDone code complete) c, Some (ProcessReturn code)) else (c, None)
  | _ => (c, None)
  end.

(** ** The actor *)

(** [child_handles] is the index of its child among [children]. *)
Record server := mk_server {
  heartbeat : Z;
  child_handles : option nat;
  children : list Child;
  mailbox : list actor_message;
  frames : list Message;
  stopped : bool }.

Definition set_heartbeat (now : Z) (s : server) : server :=
  mk_server now (child_handles s) (children s) (mailbox s) (frames s) (stopped s).
Definition set_children (l : list Child) (s : server) : server :=
  mk_server (heartbeat s) (child_handles s) l (mailbox s) (frames s) (stopped s).
Definition set_mailbox (l : list actor_message) (s : server) : server :=
  mk_server (heartbeat s) (child_handles s) (children s) l (frames s) (stopped s).

(** What the threads send to the actor arrives while it is there. *)
Definition post (o : option actor_message) (s : server) : server :=
  match o with
  | Some m => if stopped s then s else set_mailbox (mailbox s ++ [m]) s
  | None => s
  end.

Definition on_child (f : Child → Child) (s : server) : server :=
  match child_handles s with Some i => set_children (alter f i (children s)) s | None => s end.

(** The context: sending a frame, and stopping at once, which drops the mailbox and the handles. *)
Definition ctx_send (m : Message) (s : server) : server :=
  mk_server (heartbeat s) (child_handles s) (children s) (mailbox s) (frames s ++ [m]) (stopped s).
Definition ctx_close (reason : option CloseReason) : server → server := ctx_send (Close reason).
Definition ctx_stop (s : server) : server :=
  let s := on_child (with_write_tx false) s in
  mk_server (heartbeat s) (child_handles s) (children s) [] (frames s) true.
Definition stop (message : option string) (closecode : CloseCode) (s : server) : server :=
  ctx_stop (ctx_close (Some (mk_CloseReason closecode message)) s).

Definition started (now : Z) : server :=
  mk_server now None [] [CapacityUpdate (mk_Capacity MAX_MESSAGES_OUTSTANDING 0)] [] false.

(** The task of [heartbeat], each time it runs. *)
Definition server_heartbeat (now : Z) (s : server) : server :=
  if (CLIENT_TIMEOUT <? now - heartbeat s)%Z then ctx_stop s else ctx_send (Ping EmptyString) s.

Section handlers.
Context `{ExecText}.

(** Process input. *)
Definition handle_binary (data : string) (s : server) : server :=
  match child_handles s with
  | None => stop (Some "process data sent before initialization") Policy s
  | Some i =>
      match children s !! i with
      | Some c =>
          if write_tx c then
            match try_send data c with
            | Sent c' => set_children (<[i:=c']> (children s)) s
            | Full => ctx_close (Some (mk_CloseReason SizeCode (Some "write buffer full; obey capacity updates"))) s
            | Disconnected => stop (Some "writing to process failed") ErrorCode s
            end
          else s
      | None => s
      end
  end.

(** [Initialize]: new handles replace the old ones. *)
Definition handle_initialize (exec_socket_path exec_id : string) (spawned : result string Z) (init : Initialize)
    (s : server) : server :=
  match spawned with
  | Err e => stop (Some ("failed to spawn process: " +:+ e)) ErrorCode s
  | Ok p =>
      let s := on_child (with_write_tx false) s in
      mk_server (heartbeat s) (Some (length (children s)))
        (children s ++ [new_child exec_socket_path exec_id init p]) (mailbox s) (frames s) (stopped s)
  end.

Definition handle_text (exec_socket_path exec_id : string) (spawned : result string Z) (msg : string)
    (s : server) : server :=
  match client_of_text msg with
  | Err e => stop (Some ("invalid JSON in client message: " +:+ e)) Invalid s
  | Ok (ClientInitialize init) => handle_initialize exec_socket_path exec_id spawned init s
  | Ok ContentComplete =>
      match child_handles s with
      | None => stop (Some "ContentComplete sent before initialization") Policy s
      | Some _ => on_child (with_write_tx false) s
      end
  | Ok (Winch size) => on_child (set_winsize size) s
  end.

(** [StreamHandler::handle]; [None] is a protocol error. *)
Definition handle (exec_socket_path exec_id : string) (spawned : result string Z) (now : Z) (msg : option Message)
    (s : server) : server :=
  match msg with
  | Some (Ping msg) => ctx_send (Pong msg) (set_heartbeat now s)
  | Some (Pong _) => set_heartbeat now s
  | Some (Binary data) => handle_binary data s
  | Some (Text msg) => handle_text exec_socket_path exec_id spawned msg s
  | Some (Close reason) => ctx_stop (ctx_close reason s)
  | Some Continuation => stop (Some "Continuation messages not supported") Unsupported s
  | Some Nop | Some Frame => s
  | None => ctx_stop s
  end.

Definition finished (s : server) : server := ctx_stop (on_child stop_child s).

(** The handlers of the actor's own messages. *)
Definition u16_or_zero (n : Z) : Z := if ((0 <=? n) && (n <? 2 ^ 16))%Z then n else 0%Z.
Definition handle_actor (m : actor_message) (s : server) : server :=
  match m with
  | ProcessOutput output => ctx_send (Binary output) s
  | ProcessReturn c => stop (Some (unsigned_to_string (u16_or_zero c))) Normal s
  | CapacityUpdate capacity => ctx_send (Text (server_text (ServerCapacity capacity))) s
  end.
End handlers.
