(* ===== verification/ExecClient.v ===== *)
(** * The client of exec ([sources/api/apiclient/src/exec.rs])

    The threads of the client: one reads input and sends it while the server has capacity,
    one handles the frames of the server, and others watch the heartbeat and signals; the
    main task ends at the first of them that is done and finds the exit code.  The
    capacity is two atomic numbers: loading them and storing them are two steps each. *)
From S2P Require Import Prelude Numbers Chars ExecServer.
From stdpp Require Import base list strings.
From stdpp Require Import options.

Definition SERVER_TIMEOUT : Z := 10000.

(** The errors of a session that runs; those of its set-up come before. *)
Inductive exec_error :=
| CloseMarker
| Deserialize (e : string)
| ReadFromUserError
| ReadWebSocket
| SendMessage (kind : string)
| ServerCount (messages_read messages_written : Z)
| WriteOutput.

(** [read_stdin]: the two loads of [wait_for_capacity], then reading. *)
Inductive UserThread :=
| LoadMax
| LoadWritten (max_outstanding : Z)
| ReadInput
| UserDone
| UserFailed (e : exec_error).

(** [read_from_server]: listening, between the two stores of a capacity update, or ended. *)
Inductive Receiver := Listening | Storing (new : Capacity) | ReceiverEnded (res : result exec_error ()).

(** The branches of the final [select!]. *)
Inductive ending :=
| ServerReadEnded (res : result exec_error ())
| ReadFromUserFailed (e : exec_error)
| SignalReceived (signal : Z)
| HeartbeatDied.

(** [input] is what is left of the standard input, [sent] every message so far, [seen] how many
    of the server's frames were read. *)
Record client := mk_client {
  is_tty : bool;
  input : string;
  user : UserThread;
  messages_read : Z;
  cap_max : Z;
  cap_written : Z;
  receiver : Receiver;
  stdout : string;
  ret : option CloseReason;
  setter : Z;
  finished_rx : bool;
  signal_rx : option Z;
  seen : nat;
  sent : list Message;
  ended : option ending }.

Definition set_user (u : UserThread) (c : client) : client :=
  mk_client (is_tty c) (input c) u (messages_read c) (cap_max c) (cap_written c) (receiver c) (stdout c) (ret c)
    (setter c) (finished_rx c) (signal_rx c) (seen c) (sent c) (ended c).
Definition set_read (i : string) (n : Z) (c : client) : client :=
  mk_client (is_tty c) i (user c) n (cap_max c) (cap_written c) (receiver c) (stdout c) (ret c)
    (setter c) (finished_rx c) (signal_rx c) (seen c) (sent c) (ended c).
Definition set_capacity (m w : Z) (c : client) : client :=
  mk_client (is_tty c) (input c) (user c) (messages_read c) m w (receiver c) (stdout c) (ret c)
    (setter c) (finished_rx c) (signal_rx c) (seen c) (sent c) (ended c).
Definition set_receiver (r : Receiver) (c : client) : client :=
  mk_client (is_tty c) (input c) (user c) (messages_read c) (cap_max c) (cap_written c) r (stdout c) (ret c)
    (setter c) (finished_rx c) (signal_rx c) (seen c) (sent c) (ended c).
Definition set_stdout (o : string) (c : client) : client :=
  mk_client (is_tty c) (input c) (user c) (messages_read c) (cap_max c) (cap_written c) (receiver c) o (ret c)
    (setter c) (finished_rx c) (signal_rx c) (seen c) (sent c) (ended c).
Definition set_ret (r : option CloseReason) (c : client) : client :=
  mk_client (is_tty c) (input c) (user c) (messages_read c) (cap_max c) (cap_written c) (receiver c) (stdout c) r
    (setter c) (finished_rx c) (signal_rx c) (seen c) (sent c) (ended c).
Definition set_setter (now : Z) (c : client) : client :=
  mk_client (is_tty c) (input c) (user c) (messages_read c) (cap_max c) (cap_written c) (receiver c) (stdout c) (ret c)
    now (finished_rx c) (signal_rx c) (seen c) (sent c) (ended c).
Definition set_alerts (f : bool) (o : option Z) (c : client) : client :=
  mk_client (is_tty c) (input c) (user c) (messages_read c) (cap_max c) (cap_written c) (receiver c) (stdout c) (ret c)
    (setter c) f o (seen c) (sent c) (ended c).
Definition set_seen (n : nat) (c : client) : client :=
  mk_client (is_tty c) (input c) (user c) (messages_read c) (cap_max c) (cap_written c) (receiver c) (stdout c) (ret c)
    (setter c) (finished_rx c) (signal_rx c) n (sent c) (ended c).
Definition unbounded_send (m : Message) (c : client) : client :=
  mk_client (is_tty c) (input c) (user c) (messages_read c) (cap_max c) (cap_written c) (receiver c) (stdout c) (ret c)
    (setter c) (finished_rx c) (signal_rx c) (seen c) (sent c ++ [m]) (ended c).
Definition set_ended (e : ending) (c : client) : client :=
  mk_client (is_tty c) (input c) (user c) (messages_read c) (cap_max c) (cap_written c) (receiver c) (stdout c) (ret c)
    (setter c) (finished_rx c) (signal_rx c) (seen c) (sent c) (Some e).

(** [Terminal::new]: whether to use a TTY. *)
Definition use_tty (tty : option bool) (stdin_tty stdout_tty : bool) : bool := default (stdin_tty && stdout_tty) tty.

Section client.
Context `{ExecText}.

(** The start of [exec], up to the threads: the first message asks for the command. *)
Definition exec_start (command : list string) (target : string) (terminal_tty : option TtyInit) (stdin : string)
    (now : Z) : client :=
  mk_client (bool_decide (is_Some terminal_tty)) stdin LoadMax 0 0 0 Listening EmptyString None now false None 0
    [Text (client_text (ClientInitialize (mk_Initialize command target terminal_tty)))] None.

(** [retry_read] ([sources/retry-read/src/lib.rs]): it reads until the buffer is full or a read
    finds nothing, however the input arrives.  A read returns some of what has arrived, and may
    be interrupted. *)
Inductive arrival :=
| Arrived (data : string)
| Interrupted.

Fixpoint retry_read (space : nat) (reads : list arrival) : string * list arrival :=
  match space, reads with
  | 0, _ => (EmptyString, reads)
  | _, [] => (EmptyString, [])
  | _, Interrupted :: reads => retry_read space reads
  | _, Arrived data :: reads' =>
      if str_is_empty data then (EmptyString, reads')
      else if (str_len data <=? space)%nat then
        let '(more, rest) := retry_read (space - str_len data) reads' in (data +:+ more, rest)
      else (str_take space data, Arrived (str_drop space data) :: reads')
  end.

Definition arrived (reads : list arrival) : string :=
  foldr (λ a s, match a with Arrived data => data +:+ s | Interrupted => s end) EmptyString reads.

(** A batch of input: a byte on a TTY, otherwise as much as fits the buffer, which is
    what [retry_read] returns ([retry_read_spec]). *)
Definition BUFFER : nat := 4096.
Definition batch_size (c : client) : nat := if is_tty c then 1 else BUFFER.
Definition batch (c : client) : string := str_take (batch_size c) (input c).

(** [read_stdin] and [read_stdin_tty], one action at a time; [sending] is whether the channel
    to the WebSocket is there. *)
Definition user_step (sending : bool) (c : client) : client :=
  match user c with
  | LoadMax => set_user (LoadWritten (cap_max c)) c
  | LoadWritten max_outstanding =>
      if (messages_read c <? cap_written c)%Z
      then set_user (UserFailed (ServerCount (messages_read c) (cap_written c))) c
      else if (messages_read c - cap_written c <=? max_outstanding)%Z then set_user ReadInput c
      else set_user LoadMax c
  | ReadInput =>
      if str_is_empty (batch c) then
        if sending then set_user UserDone (unbounded_send (Text (client_text ContentComplete)) c)
        else if is_tty c then set_user UserDone c
        else set_user (UserFailed (SendMessage "content complete")) c
      else
        let c' := set_read (str_drop (batch_size c) (input c)) (wrap 64 (messages_read c + 1)) c in
        if sending then set_user LoadMax (unbounded_send (Binary (batch c)) c')
        else set_user (UserFailed (SendMessage "user input")) c'
  | UserDone | UserFailed _ => c
  end.
Definition user_read_fails (c : client) : client :=
  match user c with ReadInput => set_user (UserFailed ReadFromUserError) c | _ => c end.

(** [read_from_server] for one message; [lost] is [Some n] when writing the output fails after
    [n] bytes.  The library answers a ping by itself. *)
Definition client_handle (now : Z) (lost : option nat) (m : Message) (c : client) : client :=
  match m with
  | Binary data =>
      match lost with
      | None => set_stdout (stdout c +:+ data) c
      | Some n => set_receiver (ReceiverEnded (Err WriteOutput)) (set_stdout (stdout c +:+ String.substring 0 n data) c)
      end
  | Ping data => set_setter now (unbounded_send (Pong data) c)
  | Pong _ => set_setter now c
  | Close r => set_receiver (ReceiverEnded (Err CloseMarker)) (match r with Some _ => set_ret r c | None => c end)
  | Text raw_msg =>
      match server_of_text raw_msg with
      | Err e => set_receiver (ReceiverEnded (Err (Deserialize e))) c
      | Ok (ServerCapacity new) =>
          set_receiver (Storing new) (set_capacity (max_messages_outstanding new) (cap_written c) c)
      end
  | Continuation | Nop | Frame => c
  end.
Definition store_written (c : client) : client :=
  match receiver c with
  | Storing new => set_receiver Listening (set_capacity (cap_max c) (messages_written new) c)
  | _ => c
  end.

(** The thread [Heartbeat::heartbeat], each time it wakes up. *)
Definition client_heartbeat (now : Z) (c : client) : client :=
  if finished_rx c then c
  else if (SERVER_TIMEOUT <? now - setter c)%Z then set_alerts true (signal_rx c) c
  else unbounded_send (Ping EmptyString) c.

(** [handle_signals]: a change of the window, if its size is known, or a terminal signal. *)
Definition SIGWINCH : Z := 28.
Definition handle_signal (winsize : option ExecServer.Size) (signal : Z) (c : client) : client :=
  match signal_rx c with
  | Some _ => c
  | None =>
      if (signal =? SIGWINCH)%Z then
        match winsize with Some size => unbounded_send (Text (client_text (Winch size))) c | None => c end
      else set_alerts (finished_rx c) (Some signal) c
  end.
End client.

(** What the [select!] can take. *)
Definition endings (c : client) : list ending :=
  match receiver c with ReceiverEnded res => [ServerReadEnded res] | _ => [] end ++
  match user c with UserFailed e => [ReadFromUserFailed e] | _ => [] end ++
  match signal_rx c with Some signal => [SignalReceived signal] | None => [] end ++
  (if finished_rx c then [HeartbeatDied] else []).

(** The exit code, or the error that [exec] returns. *)
Definition exec_exit (e : ending) (r : option CloseReason) : result exec_error Z :=
  match e with
  | ReadFromUserFailed err => Err err
  | _ =>
      Ok match r with
         | Some ret =>
             let reason := default EmptyString (description ret) in
             match code ret with
             | Normal => if str_is_empty reason then 1%Z else default 1%Z (parse_unsigned 16 reason)
             | _ => 1%Z
             end
         | None => match e with SignalReceived signal => (128 + signal)%Z | _ => 1%Z end
         end
  end.

(** ** Reading a batch *)

Lemma str_take_app_le n s t : str_len s ≤ n → str_take n (s +:+ t) = s +:+ str_take (n - str_len s) t.
Proof.
  unfold str_take. revert n. induction s as [|a s IH]; intros n Hn; cbn in *; [by rewrite Nat.sub_0_r|].
  destruct n as [|n]; [lia|]. cbn. by rewrite IH by lia.
Qed.

Lemma str_drop_app_le n s t : str_len s ≤ n → str_drop n (s +:+ t) = str_drop (n - str_len s) t.
Proof.
  revert n. induction s as [|a s IH]; intros n Hn; cbn in *; [by rewrite Nat.sub_0_r|].
  destruct n as [|n]; [lia|]. cbn. by rewrite IH by lia.
Qed.

Lemma str_take_drop_app_lt n s t :
  n < str_len s → str_take n (s +:+ t) = str_take n s ∧ str_drop n (s +:+ t) = str_drop n s +:+ t.
Proof.
  unfold str_take. revert n. induction s as [|a s IH]; intros [|n] Hn; cbn in *; [lia|lia|done|].
  destruct (IH n) as [-> ->]; [lia|done].
Qed.

(** However the input arrives, in pieces and with interruptions, a batch is as much of it
    as fits the buffer, and the rest is there for the next one. *)
Lemma retry_read_spec n reads :
  Forall (λ a, a ≠ Arrived EmptyString) reads →
  (retry_read n reads).1 = str_take n (arrived reads) ∧
  arrived (retry_read n reads).2 = str_drop n (arrived reads).
Proof.
  intros Hne. assert (∀ s, str_take 0 s = EmptyString) as H0 by by intros [].
  revert n. induction Hne as [|[data|] reads Hd _ IH]; intros [|n]; try by cbn [retry_read]; rewrite H0.
  - done.
  - cbn [retry_read arrived foldr]. fold (arrived reads). destruct (str_is_empty data) eqn:E;
      [destruct data; [done|discriminate]|].
    destruct (Nat.leb_spec (str_len data) (S n)) as [Hle|Hlt].
    + specialize (IH (S n - str_len data)) as [E1 E2].
      destruct (retry_read _ reads) as [more rest]. cbn [fst snd] in *.
      by rewrite str_take_app_le, str_drop_app_le, E1, E2.
    + destruct (str_take_drop_app_lt (S n) data (arrived reads) Hlt) as [-> ->]. done.
  - apply IH.
Qed.
