(* ===== verification/Exec.v ===== *)
(** * The exec session: client and server together

    The client of the file ExecClient and the server of the file ExecServer, connected in both
    directions: one step relation interleaves the threads of the client, the server's actor and
    the threads of the child, and lets input, output, signals, failures and time happen at any
    point.  The invariants of each side are here; what they come to is in the files ExecFlow
    (input and capacity), ExecOutput (output and the exit code) and ExecSession. *)
From S2P Require Import Prelude Numbers Chars ExecServer ExecClient.
From stdpp Require Import base list strings.
From stdpp Require Import options.

(** [got] is how many of the client's messages the actor has taken. *)
Record session := mk_session {
  cl : client;
  sv : server;
  got : nat;
  now : Z }.

(** ** Steps *)

(** An action of one of the child's threads, with the message for the actor. *)
Inductive child_action (stopped : bool) (c : Child) : Child * option actor_message → Prop :=
| act_receive : child_action stopped c (writer_receive c, None)
| act_write : child_action stopped c (writer_write c)
| act_write_fail n : child_action stopped c (writer_fail n c, None)
| act_read data : data ≠ EmptyString → str_len data ≤ 4096 → child_action stopped c (reader_read data c, None)
| act_read_end : child_action stopped c (reader_end c, None)
| act_send : child_action stopped c (reader_send stopped c)
| act_exit status : child_action stopped c (waiter_exit status c, None)
| act_return timeout : child_action stopped c (waiter_return timeout c).

Section steps.
Context `{ExecText}.

(** A step of the client, which sees the server's frames. *)
Inductive client_step (frames : list Message) (now : Z) (c : client) : client → Prop :=
| client_user sending : client_step frames now c (user_step sending c)
| client_read_fails : client_step frames now c (user_read_fails c)
| client_receive lost m : receiver c = Listening → frames !! seen c = Some m →
    client_step frames now c (client_handle now lost m (set_seen (S (seen c)) c))
| client_store : client_step frames now c (store_written c)
| client_stream_ends res : receiver c = Listening → res = Ok tt ∨ res = Err ReadWebSocket →
    client_step frames now c (set_receiver (ReceiverEnded res) c)
| client_beat : client_step frames now c (client_heartbeat now c)
| client_signal winsize signal : client_step frames now c (handle_signal winsize signal c)
| client_select e : e ∈ endings c → client_step frames now c (set_ended e c).

(** A step of the actor, of the connection, or of a child's thread. *)
Inductive server_step (exec_socket_path : string) (sent : list Message) (now : Z) (s : server) (got : nat) :
    server → nat → Prop :=
| server_receive exec_id spawned m : stopped s = false → sent !! got = Some m →
    server_step exec_socket_path sent now s got (handle exec_socket_path exec_id spawned now (Some m) s) (S got)
| server_error exec_id spawned : stopped s = false →
    server_step exec_socket_path sent now s got (handle exec_socket_path exec_id spawned now None s) got
| server_finished : stopped s = false → server_step exec_socket_path sent now s got (finished s) got
| server_mail m rest : stopped s = false → mailbox s = m :: rest →
    server_step exec_socket_path sent now s got (handle_actor m (set_mailbox rest s)) got
| server_beat : stopped s = false → server_step exec_socket_path sent now s got (server_heartbeat now s) got
| server_child i c r : children s !! i = Some c → child_action (stopped s) c r →
    server_step exec_socket_path sent now s got (post r.2 (set_children (<[i:=r.1]> (children s)) s)) got.

Inductive step (exec_socket_path : string) (s : session) : session → Prop :=
| step_time d : (0 ≤ d)%Z → step exec_socket_path s (mk_session (cl s) (sv s) (got s) (now s + d))
| step_client c : ended (cl s) = None → client_step (frames (sv s)) (now s) (cl s) c →
    step exec_socket_path s (mk_session c (sv s) (got s) (now s))
| step_server v g : server_step exec_socket_path (sent (cl s)) (now s) (sv s) (got s) v g →
    step exec_socket_path s (mk_session (cl s) v g (now s)).

Definition session_start (init : Initialize) (stdin : string) (t : Z) : session :=
  mk_session (exec_start (command init) (target init) (tty init) stdin t) (started t) 0 t.

Inductive reachable (exec_socket_path : string) (init : Initialize) (stdin : string) (t : Z) : session → Prop :=
| reachable_start : reachable exec_socket_path init stdin t (session_start init stdin t)
| reachable_step s s' : reachable exec_socket_path init stdin t s → step exec_socket_path s s' →
    reachable exec_socket_path init stdin t s'.
End steps.

(** ** What was sent *)

Definition bins (l : list Message) : list string :=
  omap (λ m, match m with Binary data => Some data | _ => None end) l.

Section proofs.
Context `{ExecText}.

Definition is_complete (m : Message) : bool :=
  match m with Text t => match client_of_text t with Ok ContentComplete => true | _ => false end | _ => false end.

(** The input before [ContentComplete]. *)
Fixpoint open_bins (l : list Message) : list string :=
  match l with
  | [] => []
  | m :: l => if is_complete m then [] else bins [m] ++ open_bins l
  end.
Definition completed (l : list Message) : bool := existsb is_complete l.

Lemma bins_cons m l : bins (m :: l) = match m with Binary data => data :: bins l | _ => bins l end.
Proof. by destruct m. Qed.
Lemma bins_nil : bins [] = [].
Proof. done. Qed.
Lemma completed_cons m l : completed (m :: l) = is_complete m || completed l.
Proof. done. Qed.
#[local] Arguments bins : simpl never.
#[local] Arguments completed : simpl never.

Lemma bins_app l1 l2 : bins (l1 ++ l2) = bins l1 ++ bins l2.
Proof. apply omap_app. Qed.

Lemma open_bins_app l1 l2 : open_bins (l1 ++ l2) = if completed l1 then open_bins l1 else open_bins l1 ++ open_bins l2.
Proof.
  induction l1 as [|m l1 IH]; [done|]. cbn [open_bins app]. rewrite completed_cons.
  destruct (is_complete m); [done|]. cbn [orb]. rewrite IH.
  destruct (completed l1); [done|]. by rewrite app_assoc.
Qed.

Lemma completed_app l1 l2 : completed (l1 ++ l2) = completed l1 || completed l2.
Proof. apply existsb_app. Qed.

Lemma open_bins_incl l : length (open_bins l) ≤ length (bins l).
Proof.
  induction l as [|m l IH]; [done|]. cbn [open_bins]. change (m :: l) with ([m] ++ l). rewrite bins_app, length_app.
  destruct (is_complete m); [cbn; lia|]. rewrite length_app. lia.
Qed.

Lemma open_bins_take n l : ∃ rest, open_bins l = open_bins (take n l) ++ rest.
Proof.
  assert (open_bins l = open_bins (take n l ++ drop n l)) as -> by (by rewrite take_drop).
  rewrite open_bins_app. case_match; [exists []; by rewrite app_nil_r|by eexists].
Qed.

(** ** The client's part *)

Definition user_failed (c : client) : bool := match user c with UserFailed _ => true | _ => false end.

(** What follows the first message. *)
Definition later (m : Message) : Prop :=
  match m with
  | Binary _ | Ping _ | Pong _ => True
  | Text t => t = client_text ContentComplete ∨ ∃ size, t = client_text (Winch size)
  | _ => False
  end.
Definition protocol (init : Initialize) (l : list Message) : Prop :=
  match l with [] => True | m :: l => m = Text (client_text (ClientInitialize init)) ∧ Forall later l end.

Lemma protocol_app init l1 l2 : l1 ≠ [] → protocol init l1 → Forall later l2 → protocol init (l1 ++ l2).
Proof. destruct l1 as [|m l1]; [done|]. intros _ [-> Hl] Hl2. split; [done|]. by apply Forall_app. Qed.
Lemma app_ne {A} (l1 l2 : list A) : l1 ≠ [] → l1 ++ l2 ≠ [].
Proof. by destruct l1. Qed.

Record client_ok (init : Initialize) (whole : string) (c : client) : Prop := {
  co_input : ∃ lost, str_concat (bins (sent c)) +:+ lost +:+ input c = whole ∧ (user_failed c = false → lost = EmptyString);
  co_count : (Z.of_nat (length (bins (sent c))) ≤ messages_read c)%Z;
  co_exact : user_failed c = false → messages_read c = Z.of_nat (length (bins (sent c)));
  co_nonempty : Forall (λ d, d ≠ EmptyString) (bins (sent c));
  co_first : sent c ≠ [];
  co_protocol : protocol init (sent c);
  co_done : completed (sent c) = true → user c = UserDone;
  co_open : open_bins (sent c) = bins (sent c) }.

Lemma concat_length l : Forall (λ d, d ≠ EmptyString) l → length l ≤ str_len (str_concat l).
Proof.
  induction 1 as [|d l Hd _ IH]; [done|]. cbn. rewrite str_len_app. destruct d; [done|]. cbn. lia.
Qed.

(** A client whose input and thread did not change, and which sent something that is not input. *)
Lemma client_ok_same init whole c c' l :
  client_ok init whole c → user c' = user c → input c' = input c → messages_read c' = messages_read c →
  sent c' = sent c ++ l → Forall later l → bins l = [] → completed l = false → client_ok init whole c'.
Proof.
  intros [] Hu Hi Hm Hs Hl Hb Hc. unfold user_failed in *.
  assert (Hbs : bins (sent c') = bins (sent c)) by (rewrite Hs, bins_app, Hb; apply app_nil_r).
  split; unfold user_failed; rewrite ?Hu, ?Hi, ?Hm, ?Hbs; try done.
  - rewrite Hs. by apply app_ne.
  - rewrite Hs. by apply protocol_app.
  - rewrite Hs, completed_app, Hc, orb_false_r. done.
  - rewrite Hs, open_bins_app. destruct (completed (sent c)); [exact co_open0|]. rewrite co_open0.
    pose proof (open_bins_incl l) as Hle. rewrite Hb in Hle. destruct (open_bins l); [|cbn in Hle; lia]. apply app_nil_r.
Qed.

Context (init : Initialize) (whole : string) (Hwhole : (Z.of_nat (str_len whole) < 2 ^ 64)%Z).

Lemma client_ok_start t : client_ok init whole (exec_start (command init) (target init) (tty init) whole t).
Proof.
  assert (Hi : mk_Initialize (command init) (target init) (tty init) = init) by (by destruct init).
  split; cbn; rewrite ?completed_cons, ?bins_cons; cbn; rewrite ?client_text_read, ?Hi; try done.
  by exists EmptyString.
Qed.

Lemma bins_small c : client_ok init whole c → (Z.of_nat (length (bins (sent c)) + str_len (input c)) < 2 ^ 64)%Z.
Proof using Hwhole.
  intros []. destruct co_input0 as (lost & E & _). pose proof (concat_length _ co_nonempty0) as Hl.
  apply (f_equal str_len) in E. rewrite !str_len_app in E. lia.
Qed.

Lemma batch_input c : batch c +:+ str_drop (batch_size c) (input c) = input c.
Proof. apply str_take_drop. Qed.

(** Reading a batch, and sending it or not. *)
Lemma user_read_ok c : client_ok init whole c → user c = ReadInput → str_is_empty (batch c) = false →
  let c' := set_read (str_drop (batch_size c) (input c)) (wrap 64 (messages_read c + 1)) c in
  client_ok init whole (set_user LoadMax (unbounded_send (Binary (batch c)) c')) ∧
  client_ok init whole (set_user (UserFailed (SendMessage "user input")) c').
Proof using Hwhole.
  intros Hok Hu Hb. pose proof (bins_small c Hok) as Hs. pose proof (batch_input c) as Hbi.
  assert (Hlen : 0 < str_len (input c)).
  { rewrite <-Hbi, str_len_app. destruct (batch c); [done|]. cbn. lia. }
  destruct Hok. unfold user_failed in *. rewrite Hu in *.
  specialize (co_exact0 eq_refl). destruct co_input0 as (lost & E & Hlost). rewrite Hlost in * by done. clear Hlost.
  rewrite wrap_small in * by lia.
  assert (Hcp : completed (sent c) = false) by (apply not_true_is_false; intros Hc; by specialize (co_done0 Hc)).
  split; split; unfold user_failed; cbn; rewrite ?bins_app, ?bins_cons, ?bins_nil; try done.
  - exists EmptyString. split; [|done]. rewrite str_concat_app. cbn. rewrite str_app_nil_r, <-str_app_assoc.
    by rewrite Hbi.
  - rewrite length_app. cbn. lia.
  - intros _. rewrite length_app. cbn. lia.
  - apply Forall_app. split; [done|]. constructor; [|done]. by intros E'; rewrite E' in Hb.
  - by apply app_ne.
  - apply protocol_app; [done..|by repeat constructor].
  - by rewrite completed_app, Hcp.
  - by rewrite open_bins_app, Hcp, co_open0.
  - exists (batch c). split; [|done]. rewrite Hbi. by rewrite str_app_nil_l in E.
  - lia.
  - by rewrite Hcp.
Qed.

(** A change of the thread alone, not to or from reading. *)
Lemma client_ok_user c u : client_ok init whole c → user_failed c = false → user c ≠ UserDone →
  client_ok init whole (set_user u c).
Proof.
  intros [] Hf Hu. destruct co_input0 as (lost & E & Hlost). specialize (Hlost Hf). subst lost.
  split; cbn; try done.
  - by exists EmptyString.
  - intros _. by apply co_exact0.
  - intros Hc. by destruct (Hu (co_done0 Hc)).
Qed.

Lemma client_ok_done c : client_ok init whole c → user c = ReadInput →
  client_ok init whole (set_user UserDone (unbounded_send (Text (client_text ContentComplete)) c)).
Proof.
  intros [] Hu. unfold user_failed in *. rewrite Hu in *.
  assert (Hcp : completed (sent c) = false) by (apply not_true_is_false; intros Hc; by specialize (co_done0 Hc)).
  split; unfold user_failed; cbn; rewrite ?bins_app, ?bins_cons, ?bins_nil, ?app_nil_r; try done.
  - by apply app_ne.
  - apply protocol_app; [done..|]. repeat constructor.
  - rewrite open_bins_app, Hcp. cbn. by rewrite client_text_read, app_nil_r.
Qed.

Lemma user_step_ok sending c : client_ok init whole c → client_ok init whole (user_step sending c).
Proof using Hwhole.
  intros Hok. unfold user_step. destruct (user c) eqn:Hu.
  - apply client_ok_user; [done| |]; unfold user_failed; by rewrite Hu.
  - repeat case_match; apply client_ok_user; try done; unfold user_failed; by rewrite Hu.
  - destruct (str_is_empty (batch c)) eqn:Hb.
    + case_match; [by apply client_ok_done|].
      case_match; apply client_ok_user; try done; unfold user_failed; by rewrite Hu.
    + pose proof (user_read_ok c Hok Hu Hb) as [Ho Hf]. by case_match.
  - done.
  - done.
Qed.

Lemma client_ok_quiet c c' : client_ok init whole c → user c' = user c → input c' = input c →
  messages_read c' = messages_read c → sent c' = sent c → client_ok init whole c'.
Proof. intros. eapply client_ok_same with (l := []); try done. by rewrite app_nil_r. Qed.

Lemma client_step_ok fs t c c' : client_ok init whole c → client_step fs t c c' → client_ok init whole c'.
Proof using Hwhole.
  intros Hok Hs. destruct Hs as [sending| |lost m Hr Hm| | | |ws sig|e He].
  - by apply user_step_ok.
  - unfold user_read_fails. case_match eqn:Hu; try done.
    apply client_ok_user; [done| |]; unfold user_failed; by rewrite Hu.
  - destruct m; cbn; repeat case_match; try (by eapply client_ok_quiet).
    eapply client_ok_same with (l := [Pong data]); try done. by repeat constructor.
  - unfold store_written. case_match; try done. by eapply client_ok_quiet.
  - by eapply client_ok_quiet.
  - unfold client_heartbeat. repeat case_match; [done|by eapply client_ok_quiet|].
    eapply client_ok_same with (l := [Ping EmptyString]); try done. by repeat constructor.
  - unfold handle_signal. repeat case_match; try done; try (by eapply client_ok_quiet).
    eapply client_ok_same with (l := [Text (client_text (Winch s))]); try done.
    + constructor; [right; by eexists|constructor].
    + rewrite completed_cons. cbn. by rewrite client_text_read.
  - by eapply client_ok_quiet.
Qed.
End proofs.

Lemma client_step_sent `{ExecText} fs t c c' : client_step fs t c c' → ∃ l, sent c' = sent c ++ l.
Proof.
  intros Hs. assert (Hq : ∃ l, sent c = sent c ++ l) by (exists []; by rewrite app_nil_r).
  destruct Hs as [sending| |lost m Hr Hm| | | |ws sig|e He].
  - unfold user_step. repeat case_match; try done; by eexists.
  - unfold user_read_fails. by case_match.
  - destruct m; cbn; repeat case_match; try done; by eexists.
  - unfold store_written. by case_match.
  - done.
  - unfold client_heartbeat. repeat case_match; try done; by eexists.
  - unfold handle_signal. repeat case_match; try done; by eexists.
  - done.
Qed.

(** ** The server's part *)

Lemma substring_prefix n s : ∃ rest, s = String.substring 0 n s +:+ rest.
Proof. exists (str_drop n s). symmetry. apply str_take_drop. Qed.

Section server_part.
Context `{ExecText} (init : Initialize).
#[local] Arguments bins : simpl never.
#[local] Arguments completed : simpl never.

(** The actor sent that its buffer is full. *)
Definition refused (fs : list Message) : Prop := ∃ r, Close (Some r) ∈ fs ∧ code r = SizeCode.

Definition hand (c : Child) : list string := match writer c with Writing data => [data] | _ => [] end.

(** A child that was spawned as asked, after the messages [hist]. *)
Record child_ok (path : string) (hist : list Message) (refusal : Prop) (stop : bool) (c : Child) : Prop := {
  ch_args : ∃ exec_id, args c = ctr_args path exec_id init;
  ch_tx : write_tx c = if stop then false else negb (completed hist);
  ch_written : (0 ≤ written c ∧ written c + Z.of_nat (length (hand c ++ channel c)) ≤ Z.of_nat (length (open_bins hist)))%Z;
  ch_stream : ¬ refusal →
    match writer c with
    | WriterDone => ∃ rest, stdin c +:+ rest = str_concat (open_bins hist)
    | _ => ∃ dn, open_bins hist = dn ++ hand c ++ channel c ∧ str_concat dn = stdin c ∧ Z.of_nat (length dn) = written c
    end }.

Definition server_ok (path : string) (hist : list Message) (s : server) : Prop :=
  match children s with
  | [] => child_handles s = None ∧ (stopped s = false → hist = []) ∧ open_bins hist = []
  | [c] => child_handles s = Some 0 ∧ hist ≠ [] ∧ child_ok path hist (refused (frames s)) (stopped s) c
  | _ => False
  end.

Lemma child_ok_mono path hist (r r' : Prop) st c : (r → r') → child_ok path hist r st c → child_ok path hist r' st c.
Proof. intros Hr []. split; try done. intros Hn. apply ch_stream0. by intros ?%Hr. Qed.

Lemma child_ok_stop path hist r st c : child_ok path hist r st c → child_ok path hist r true (with_write_tx false c).
Proof. by intros []. Qed.

(** A message that is not input, or input that is not looked at. *)
Lemma child_ok_hist path hist r st c m :
  child_ok path hist r st c → st = true ∨ is_complete m = false → completed hist = true ∨ bins [m] = [] →
  child_ok path (hist ++ [m]) r st c.
Proof.
  intros [] Hst Hm.
  assert (E : open_bins (hist ++ [m]) = open_bins hist).
  { rewrite open_bins_app. destruct (completed hist) eqn:Hc; [done|]. destruct Hm as [|Hm]; [congruence|]. cbn [open_bins].
    by rewrite Hm; destruct (is_complete m); rewrite ?app_nil_r. }
  split; rewrite ?E; try done. rewrite ch_tx0. destruct Hst as [->|Hst]; [done|].
  by rewrite completed_app, completed_cons, Hst, orb_false_r.
Qed.

(** A stop at input that cannot be written. *)
Lemma child_ok_disconnected path hist r st c m : child_ok path hist r st c → writer c = WriterDone →
  child_ok path (hist ++ [m]) r true (with_write_tx false c).
Proof.
  intros [] Hw.
  assert (∃ l, open_bins (hist ++ [m]) = open_bins hist ++ l) as [l E].
  { rewrite open_bins_app. destruct (completed hist); [exists []; by rewrite app_nil_r|by eexists]. }
  split; cbn; try done.
  - unfold hand in ch_written0 |- *. cbn. rewrite E, !length_app. rewrite length_app in ch_written0. lia.
  - rewrite Hw in ch_stream0 |- *. intros Hn. destruct (ch_stream0 Hn) as [rest Er]. exists (rest +:+ str_concat l).
    by rewrite E, str_concat_app, <-Er, str_app_assoc.
Qed.

(** Input that goes into the channel. *)
Lemma child_ok_push path hist r c data c' : child_ok path hist r false c → write_tx c = true →
  try_send data c = Sent c' → child_ok path (hist ++ [Binary data]) r false c'.
Proof.
  intros [] Htx Hts. rewrite Htx in ch_tx0. assert (Hc : completed hist = false) by (destruct (completed hist); done).
  assert (E : open_bins (hist ++ [Binary data]) = open_bins hist ++ [data]) by (by rewrite open_bins_app, Hc).
  unfold try_send in Hts.
  assert (writer c ≠ WriterDone ∧ c' = with_channel (channel c ++ [data]) (writer c) c) as [Hw ->].
  { destruct (writer c); [..|done]; (case_match; [|done]); by injection Hts as <-. }
  split; cbn; try done.
  - by rewrite Htx, completed_app, completed_cons, Hc.
  - unfold hand in ch_written0 |- *. cbn. rewrite E, !length_app. cbn. rewrite length_app in ch_written0. lia.
  - intros Hn. specialize (ch_stream0 Hn). unfold hand in ch_stream0 |- *. cbn.
    destruct (writer c); [..|done]; destruct ch_stream0 as (dn & Eo & Es & El); exists dn;
      by rewrite E, Eo, <-!app_assoc.
Qed.

(** Input that is refused. *)
Lemma child_ok_refused path hist (r : Prop) st c m : child_ok path hist r st c → r → is_complete m = false →
  child_ok path (hist ++ [m]) r st c.
Proof.
  intros [] Hr Hm. split; try done.
  - by rewrite completed_app, completed_cons, Hm, orb_false_r.
  - destruct (open_bins_take (length hist) (hist ++ [m])) as [l E]. rewrite take_app_length in E.
    rewrite E, !length_app. rewrite length_app in ch_written0. lia.
Qed.

Lemma child_ok_complete path hist r c m : child_ok path hist r false c → is_complete m = true →
  child_ok path (hist ++ [m]) r false (with_write_tx false c).
Proof.
  intros [] Hm.
  assert (E : open_bins (hist ++ [m]) = open_bins hist).
  { rewrite open_bins_app. destruct (completed hist); [done|]. cbn. by rewrite Hm, app_nil_r. }
  split; cbn; rewrite ?E; try done. by rewrite completed_app, completed_cons, Hm, orb_true_r.
Qed.

Lemma child_ok_winsize path hist r st c sz : child_ok path hist r st c → child_ok path hist r st (set_winsize sz c).
Proof. intros []. unfold set_winsize. destruct (negb (child_tty c)); by split. Qed.

Lemma child_ok_new path hist r exec_id p : completed hist = false → open_bins hist = [] →
  child_ok path hist r false (new_child path exec_id init p).
Proof.
  intros Hc Ho. split; cbn; rewrite ?Hc, ?Ho; try done; [by eexists|]. intros _. by exists [].
Qed.

Lemma refused_app fs l : refused fs → refused (fs ++ l).
Proof. intros (r & Hr & ?). exists r. split; [|done]. apply elem_of_app. by left. Qed.

Lemma server_ok_send path hist m s : server_ok path hist s → server_ok path hist (ctx_send m s).
Proof.
  unfold server_ok. cbn. destruct (children s) as [|c [|]]; try done. intros (? & ? & Hc). split_and!; try done.
  eapply child_ok_mono; [|done]. apply refused_app.
Qed.
Lemma server_ok_stop path hist s : server_ok path hist s → server_ok path hist (ctx_stop s).
Proof.
  unfold server_ok, ctx_stop, on_child. destruct (children s) as [|c [|]] eqn:Ec; try done.
  - intros (E & _ & ?). rewrite E. cbn. rewrite ?Ec. by split_and!.
  - intros (E & ? & Hc). rewrite E. cbn. split_and!; try done. by eapply child_ok_stop.
Qed.

(** The server's one child, once there was a message. *)
Lemma one_child path hist s : server_ok path hist s → stopped s = false → hist ≠ [] →
  ∃ c, children s = [c] ∧ child_handles s = Some 0 ∧ child_ok path hist (refused (frames s)) false c.
Proof.
  unfold server_ok. intros Hs Hst Hne. rewrite Hst in Hs. destruct (children s) as [|c [|]]; [|by naive_solver|done].
  destruct Hs as (_ & Hh & _). by destruct (Hne (Hh eq_refl)).
Qed.
Lemma server_ok_child path hist s c : child_handles s = Some 0 → children s = [c] → hist ≠ [] →
  child_ok path hist (refused (frames s)) (stopped s) c → server_ok path hist s.
Proof. unfold server_ok. by intros ? -> ?. Qed.

Lemma handle_binary_ok path hist data s : server_ok path hist s → stopped s = false → hist ≠ [] →
  server_ok path (hist ++ [Binary data]) (handle_binary data s).
Proof.
  intros Hs Hst Hne. destruct (one_child _ _ _ Hs Hst Hne) as (c & Ec & Eh & Hc).
  assert (Hne' : hist ++ [Binary data] ≠ []) by (by apply app_ne).
  unfold handle_binary. rewrite Eh, Ec. cbn. destruct (write_tx c) eqn:Htx.
  - destruct (try_send data c) as [c'| |] eqn:Ets.
    + eapply server_ok_child with (c := c'); try done; cbn. rewrite Hst. by eapply child_ok_push.
    + eapply server_ok_child with (c := c); try done; cbn. rewrite Hst.
      eapply child_ok_refused; [|eexists; split; [apply elem_of_app; right; by left|done]|done].
      eapply child_ok_mono; [|done]. apply refused_app.
    + eapply server_ok_child with (c := with_write_tx false c); unfold stop, ctx_stop, on_child; cbn; rewrite ?Eh, ?Ec; try done.
      cbn. eapply child_ok_mono; [apply refused_app|]. eapply child_ok_disconnected; [done|].
      unfold try_send in Ets. destruct (writer c); [by case_match..|done].
  - eapply server_ok_child with (c := c); try done. rewrite Hst. eapply child_ok_hist; [done|by right|].
    left. destruct Hc. rewrite Htx in ch_tx0. by destruct (completed hist).
Qed.

Lemma handle_first path exec_id spawned t m s : server_ok path [] s → stopped s = false → protocol init [m] →
  server_ok path [m] (handle path exec_id spawned t (Some m) s).
Proof.
  intros Hs Hst [-> _].
  assert (Hc : children s = [] ∧ child_handles s = None).
  { unfold server_ok in Hs. destruct (children s) as [|c [|]]; naive_solver. }
  destruct Hc as [Ec Eh]. cbn. unfold handle_text. rewrite client_text_read. unfold handle_initialize.
  destruct spawned as [p|e].
  - unfold on_child. rewrite Eh. eapply server_ok_child; cbn; rewrite ?Ec, ?Hst; try done.
    apply child_ok_new; [rewrite completed_cons|]; cbn; by rewrite client_text_read.
  - unfold stop, ctx_stop, on_child. cbn. rewrite Eh. unfold server_ok. cbn. rewrite Ec, client_text_read. by split_and!.
Qed.

Lemma handle_later path exec_id spawned t hist m s : server_ok path hist s → stopped s = false → hist ≠ [] → later m →
  server_ok path (hist ++ [m]) (handle path exec_id spawned t (Some m) s).
Proof.
  intros Hs Hst Hne Hm. destruct (one_child _ _ _ Hs Hst Hne) as (c & Ec & Eh & Hc).
  assert (Hne' : hist ++ [m] ≠ []) by (by apply app_ne).
  destruct m as [text|data|data|data|reason| | |]; try done; cbn.
  - unfold handle_text. destruct Hm as [->|[sz ->]]; rewrite client_text_read; unfold on_child; rewrite Eh.
    + eapply server_ok_child; cbn; rewrite ?Ec, ?Hst; try done.
      apply child_ok_complete; [done|]. cbn. by rewrite client_text_read.
    + eapply server_ok_child; cbn; rewrite ?Ec, ?Hst; try done. apply child_ok_winsize.
      apply child_ok_hist; [done| |by right]. right. cbn. by rewrite client_text_read.
  - by apply handle_binary_ok.
  - apply server_ok_send. eapply server_ok_child; cbn; rewrite ?Hst; try done.
    apply child_ok_hist; [done|by right|by right].
  - eapply server_ok_child; cbn; rewrite ?Hst; try done.
    apply child_ok_hist; [done|by right|by right].
Qed.

Lemma handle_ok path exec_id spawned t hist m s : server_ok path hist s → stopped s = false → protocol init (hist ++ [m]) →
  server_ok path (hist ++ [m]) (handle path exec_id spawned t (Some m) s).
Proof.
  intros Hs Hst Hp. destruct hist as [|m0 hist]; [by apply handle_first|].
  apply handle_later; [done..|]. destruct Hp as [_ Hp]. apply Forall_app in Hp as [_ Hp]. by apply Forall_cons in Hp as [Hm _].
Qed.

(** A thread of the child. *)
Lemma child_action_ok path hist r st b c p : child_ok path hist r st c →
  (Z.of_nat (length (open_bins hist)) < 2 ^ 64)%Z → child_action b c p → child_ok path hist r st p.1.
Proof.
  intros Hok Hsmall Ha. pose proof Hok as [Hargs Htx Hwr Hstr]. unfold hand in Hwr, Hstr. destruct Ha; cbn.
  - unfold writer_receive. destruct (writer c) as [|data|] eqn:Hw; [|done..]. cbn in Hwr.
    destruct (channel c) as [|data rest] eqn:Hch; [destruct (write_tx c) eqn:E; [done|]|]; split; cbn; try done.
    + congruence.
    + intros Hn. destruct (Hstr Hn) as (dn & Eo & Es & _). exists EmptyString.
      rewrite app_nil_r in Eo. by rewrite Eo, Es, str_app_nil_r.
  - unfold writer_write. destruct (writer c) as [|data|] eqn:Hw; [done| |done]. cbn in Hwr.
    rewrite wrap_small by lia. split; cbn; try done; [lia|].
    intros Hn. destruct (Hstr Hn) as (dn & Eo & Es & El). exists (dn ++ [data]). split_and!.
    + by rewrite <-app_assoc.
    + rewrite str_concat_app, Es. cbn. by rewrite str_app_nil_r.
    + rewrite length_app. cbn. lia.
  - unfold writer_fail. destruct (writer c) as [|data|] eqn:Hw; [done| |done]. cbn in Hwr.
    split; cbn; try done; [lia|]. intros Hn. destruct (Hstr Hn) as (dn & Eo & Es & El).
    destruct (substring_prefix n data) as [rest Er]. exists (rest +:+ str_concat (channel c)).
    rewrite Eo, !str_concat_app, Es. cbn. rewrite str_app_nil_r, <-!str_app_assoc.
    by rewrite (str_app_assoc (String.substring 0 n data)), <-Er.
  - unfold reader_read. by destruct (reader c); [split| |].
  - unfold reader_end. by destruct (reader c); [split| |].
  - unfold reader_send. destruct (reader c); [done| |done]. by destruct b; split.
  - unfold waiter_exit. by destruct (waiter c); [split| |].
  - unfold waiter_return. destruct (waiter c); [done| |done]. by destruct (_ || _); [split|].
Qed.

Lemma handle_actor_ok path hist m s : server_ok path hist s → server_ok path hist (handle_actor m s).
Proof. intros Hs. destruct m; cbn; [|apply server_ok_stop|]; by apply server_ok_send. Qed.

Lemma finished_ok path hist s : server_ok path hist s → server_ok path hist (finished s).
Proof.
  intros Hs. apply server_ok_stop. unfold on_child. destruct (child_handles s) as [i|] eqn:Ei; [|done].
  unfold server_ok in *. cbn. destruct (children s) as [|c [|]]; try done.
  destruct Hs as (E & ? & Hc). rewrite Ei in E. injection E as ->. cbn. split_and!; try done. by destruct Hc.
Qed.

Lemma child_step_ok path hist s i c p : server_ok path hist s → (Z.of_nat (length (open_bins hist)) < 2 ^ 64)%Z →
  children s !! i = Some c → child_action (stopped s) c p →
  server_ok path hist (post p.2 (set_children (<[i:=p.1]> (children s)) s)).
Proof.
  unfold server_ok. intros Hs Hsmall Hi Ha. destruct (children s) as [|c' [|]]; [done| |done].
  destruct i as [|i]; [|done]. injection Hi as ->. destruct Hs as (? & ? & Hc).
  assert (server_ok path hist (set_children [p.1] s)).
  { eapply server_ok_child; try done. by eapply child_action_ok. }
  unfold post. destruct p.2; [|done]. by destruct (stopped _).
Qed.

Lemma server_step_ok path l t s g s' g' : server_ok path (take g l) s → protocol init l →
  (Z.of_nat (length (bins l)) < 2 ^ 64)%Z → server_step path l t s g s' g' → server_ok path (take g' l) s'.
Proof.
  intros Hs Hp Hsmall Hst. destruct Hst as [id sp m H0 Hm|id sp H0|H0|m rest H0 Hm|H0|i c r Hi Ha].
  - rewrite (take_S_r _ _ _ Hm). apply handle_ok; [done..|]. rewrite <-(take_S_r _ _ _ Hm).
    destruct l as [|x l]; [done|]. cbn. destruct Hp as [-> Hp]. split; [done|]. by apply Forall_take.
  - by apply server_ok_stop.
  - by apply finished_ok.
  - by apply handle_actor_ok.
  - unfold server_heartbeat. case_match; [by apply server_ok_stop|by apply server_ok_send].
  - eapply child_step_ok; [done| |done..].
    destruct (open_bins_take g l) as [rest E]. pose proof (open_bins_incl l) as Hl. rewrite E, length_app in Hl. lia.
Qed.

Lemma server_ok_start path t : server_ok path [] (started t).
Proof. by split_and!. Qed.
End server_part.

(** ** Steps that neither report nor return *)

Section quiet.
Context `{ExecText}.

Definition frame_cap (m : Message) : option Capacity :=
  match m with Text t => match server_of_text t with Ok (ServerCapacity k) => Some k | Err _ => None end | _ => None end.

(** What a child reported and what it will. *)
Definition view (c : Child) : Z * Reader * Waiter * string := (written c, reader c, waiter c, output c).
Definition views (s : server) := view <$> children s.
Definition fresh_view : Z * Reader * Waiter * string := (0%Z, Reading, WaitingChild, EmptyString).

Definition normal (m : Message) : bool := match m with Close (Some (mk_CloseReason Normal _)) => true | _ => false end.
Definition quiet_frame (m : Message) : Prop := frame_cap m = None ∧ bins [m] = [] ∧ normal m = false.

Record quiet (s s' : server) : Prop := {
  q_frames : ∃ fs, frames s' = frames s ++ fs ∧ Forall quiet_frame fs;
  q_views : views s' = views s ∨ views s' = views s ++ [fresh_view];
  q_mailbox : stopped s' = stopped s ∧ mailbox s' = mailbox s ∨ stopped s' = true ∧ mailbox s' = [] }.

Lemma quiet_refl s : quiet s s.
Proof. split; [exists []; by rewrite app_nil_r|by left|by left]. Qed.

Lemma views_on_child f s : (∀ c, view (f c) = view c) → views (on_child f s) = views s.
Proof.
  intros Hf. unfold on_child, views. destruct (child_handles s) as [i|]; [cbn|done].
  generalize (children s) as l. revert i. clear -Hf. intros i l. revert i.
  induction l as [|c l IH]; intros [|i]; [done..| |]; cbn; [by rewrite Hf|by rewrite IH].
Qed.
Lemma frames_on_child f s : frames (on_child f s) = frames s.
Proof. unfold on_child. by destruct (child_handles s). Qed.

Lemma quiet_stop s s' : quiet s s' → views s' = views s → quiet s (ctx_stop s').
Proof.
  intros [(fs & Hfs & ?) _ _] Hv. split; [|left|by right].
  - exists fs. split; [|done]. by rewrite <-Hfs, <-(frames_on_child (with_write_tx false) s').
  - rewrite <-Hv. by rewrite <-(views_on_child (with_write_tx false) s').
Qed.

Lemma quiet_send m s : quiet_frame m → quiet s (ctx_send m s).
Proof. intros Hm. split; [exists [m]; split; [done|by constructor]|by left|by left]. Qed.

Lemma quiet_stop_with msg c s : c ≠ Normal → quiet s (stop msg c s).
Proof. intros Hc. apply quiet_stop; [|done]. apply quiet_send. split_and!; try done. by destruct c. Qed.

Lemma quiet_on_child f s : (∀ c, view (f c) = view c) → quiet s (on_child f s).
Proof.
  intros Hf. split.
  - exists []. by rewrite frames_on_child, app_nil_r.
  - left. by apply views_on_child.
  - left. unfold on_child. by destruct (child_handles s).
Qed.

Lemma handle_binary_quiet data s : quiet s (handle_binary data s).
Proof.
  unfold handle_binary. destruct (child_handles s) as [i|]; [|by apply quiet_stop_with].
  destruct (children s !! i) as [c|] eqn:Ec; [|apply quiet_refl]. destruct (write_tx c); [|apply quiet_refl].
  destruct (try_send data c) as [c'| |] eqn:Et; [|by apply quiet_send|by apply quiet_stop_with].
  split; [exists []; by rewrite app_nil_r| |by left]. left. unfold views. cbn. rewrite list_fmap_insert.
  apply list_insert_id. rewrite list_lookup_fmap, Ec. cbn. f_equal. unfold try_send in Et.
  destruct (writer c); [..|done]; (case_match; [|done]); by injection Et as <-.
Qed.

Lemma handle_quiet path exec_id spawned t m s : (∀ r, m ≠ Some (Close r)) →
  quiet s (handle path exec_id spawned t m s).
Proof.
  intros Hm. destruct m as [[text|data|data|data|reason| | |]|]; cbn; try apply quiet_refl.
  - unfold handle_text. destruct (client_of_text text) as [[cm| |sz]|e]; [| | |by apply quiet_stop_with].
    + unfold handle_initialize. destruct spawned as [p|e]; [|by apply quiet_stop_with].
      split; [exists []; cbn; by rewrite frames_on_child, app_nil_r| |].
      * right. unfold views. cbn. rewrite fmap_app. cbn. f_equal. by apply (views_on_child (with_write_tx false)).
      * left. cbn. unfold on_child. by destruct (child_handles s).
    + destruct (child_handles s); [by apply quiet_on_child|by apply quiet_stop_with].
    + apply quiet_on_child. intros c. unfold set_winsize. by destruct (negb _).
  - apply handle_binary_quiet.
  - split; [eexists; split; [done|by repeat constructor]|by left|by left].
  - split; [exists []; by rewrite app_nil_r|by left|by left].
  - by destruct (Hm reason).
  - by apply quiet_stop_with.
  - apply quiet_stop; [apply quiet_refl|done].
Qed.

Lemma finished_quiet s : quiet s (finished s).
Proof. apply quiet_stop; [by apply quiet_on_child|by apply views_on_child]. Qed.

Lemma heartbeat_quiet t s : quiet s (server_heartbeat t s).
Proof. unfold server_heartbeat. case_match; [apply quiet_stop; [apply quiet_refl|done]|by apply quiet_send]. Qed.

Lemma server_step_cases path init l t s g s' g' : protocol init l → server_step path l t s g s' g' →
  (quiet s s' ∧ stopped s = false) ∨
  (∃ m rest, stopped s = false ∧ mailbox s = m :: rest ∧ s' = handle_actor m (set_mailbox rest s)) ∨
  (∃ i c p, children s !! i = Some c ∧ child_action (stopped s) c p ∧
     s' = post p.2 (set_children (<[i:=p.1]> (children s)) s)).
Proof.
  intros Hp Hs. destruct Hs as [id sp m H0 Hm|id sp H0|H0|m rest H0 Hm|H0|i c r Hi Ha].
  - left. split; [|done]. apply handle_quiet. intros r [= ->]. destruct l as [|x l]; [done|]. destruct Hp as [-> Hp].
    destruct g as [|g]; [done|]. by apply (Forall_lookup_1 _ _ _ _ Hp Hm).
  - left. split; [|done]. by apply handle_quiet.
  - left. split; [|done]. apply finished_quiet.
  - right. left. by eexists _, _.
  - left. split; [|done]. apply heartbeat_quiet.
  - right. right. by eexists _, _, _.
Qed.
End quiet.
