(* ===== verification/ExecFlow.v ===== *)
(** * The input of an exec session, and its capacity

    Invariants of the session about the capacities under way to the client, and about the input:
    how many messages may be unwritten, when one is refused, and that a client does not wait for
    nothing.  The lemma [obedient_client_refused] finds a run in which a client that keeps to the capacity
    is closed for not keeping to it. *)
From S2P Require Import Prelude Numbers Chars ExecServer ExecClient Exec.
From stdpp Require Import base list strings.
From stdpp Require Import options.

#[local] Arguments bins : simpl never.
#[local] Arguments completed : simpl never.

(** ** Capacity *)

Section capacity.
Context `{ExecText}.

Definition storing (r : Receiver) : list Capacity := match r with Storing k => [k] | _ => [] end.
Definition mail_cap (m : actor_message) : option Capacity := match m with CapacityUpdate k => Some k | _ => None end.

(** The capacities that the client has and those under way to it, in order. *)
Definition caps (c : client) (s : server) : list Capacity :=
  mk_Capacity (cap_max c) (cap_written c) :: storing (receiver c) ++
  omap frame_cap (drop (seen c) (frames s)) ++ omap mail_cap (mailbox s).

Definition written_of (s : server) : Z := match views s with v :: _ => v.1.1.1 | [] => 0%Z end.
Definition reported (n : Z) : Z := (CAPACITY_UPDATE_INTERVAL * (n / CAPACITY_UPDATE_INTERVAL))%Z.

Definition cap_ok (n : Z) (k : Capacity) : Prop :=
  (max_messages_outstanding k ≤ MAX_MESSAGES_OUTSTANDING ∧ 0 ≤ messages_written k ≤ n)%Z.

Record caps_ok (c : client) (s : server) : Prop := {
  cp_seen : seen c ≤ length (frames s);
  cp_all : Forall (cap_ok (written_of s)) (caps c s);
  cp_storing : match receiver c with Storing k => max_messages_outstanding k = cap_max c | _ => True end;
  cp_last : stopped s = false → last (caps c s) = Some (mk_Capacity MAX_MESSAGES_OUTSTANDING (reported (written_of s)));
  cp_user : (match user c with
             | LoadWritten m => m ≤ MAX_MESSAGES_OUTSTANDING
             | ReadInput => messages_read c ≤ written_of s + MAX_MESSAGES_OUTSTANDING
             | _ => True
             end)%Z;
  cp_read : (messages_read c ≤ written_of s + MAX_MESSAGES_OUTSTANDING + 1)%Z }.

Lemma caps_ok_same c c' s : caps_ok c s → caps c' s = caps c s → seen c' = seen c → receiver c' = receiver c →
  cap_max c' = cap_max c → user c' = user c → messages_read c' = messages_read c → caps_ok c' s.
Proof. intros [] E1 E2 E3 E4 E5 E6. by split; rewrite ?E1, ?E2, ?E3, ?E4, ?E5, ?E6. Qed.

(** A client that changed only its thread. *)
Lemma caps_ok_user c c' s : caps_ok c s → caps c' s = caps c s → seen c' = seen c → receiver c' = receiver c →
  cap_max c' = cap_max c →
  (match user c' with
   | LoadWritten m => m ≤ MAX_MESSAGES_OUTSTANDING
   | ReadInput => messages_read c' ≤ written_of s + MAX_MESSAGES_OUTSTANDING
   | _ => True
   end)%Z → (messages_read c' ≤ written_of s + MAX_MESSAGES_OUTSTANDING + 1)%Z → caps_ok c' s.
Proof. intros [] E1 E2 E3 E4 ? ?. by split; rewrite ?E1, ?E2, ?E3, ?E4. Qed.

Lemma user_step_caps sending c s : caps_ok c s → (0 ≤ messages_read c)%Z → caps_ok (user_step sending c) s.
Proof.
  intros Hok H0. pose proof Hok as [_ Hall _ _ Hu Hr]. apply Forall_cons in Hall as [[Hm [Hw0 Hw]] _]. cbn in Hm, Hw0, Hw.
  pose proof (Z.mod_le (messages_read c + 1) (2 ^ 64)) as Hle.
  unfold user_step. destruct (user c) eqn:Eu.
  - by eapply caps_ok_user.
  - destruct (_ <? _)%Z; [by eapply caps_ok_user|].
    destruct (Z.leb_spec (messages_read c - cap_written c) max_outstanding); eapply caps_ok_user; try done. cbn. lia.
  - destruct (str_is_empty (batch c)); [|destruct sending; eapply caps_ok_user; try done; cbn; unfold wrap; lia].
    destruct sending; [|case_match]; eapply caps_ok_user; done.
  - done.
  - done.
Qed.

Lemma client_step_caps c s t c' : caps_ok c s → (0 ≤ messages_read c)%Z → client_step (frames s) t c c' → caps_ok c' s.
Proof.
  intros Hok H0 Hs. pose proof Hok as [Hseen Hall Hst Hlast Hu Hr]. destruct Hs as [sending| |lost m Hl Hm| |res Hl _| |ws sig|e He].
  - by apply user_step_caps.
  - unfold user_read_fails. by destruct (user c) eqn:Eu.
  - assert (Hd : drop (seen c) (frames s) = m :: drop (S (seen c)) (frames s)) by (by apply drop_S).
    apply lookup_lt_Some in Hm. unfold caps in Hall, Hlast. rewrite Hl, Hd in Hall, Hlast. cbn [storing app] in Hall, Hlast.
    assert (Hq : frame_cap m = None → ∀ c', seen c' = S (seen c) → storing (receiver c') = [] →
      cap_max c' = cap_max c → cap_written c' = cap_written c → user c' = user c → messages_read c' = messages_read c →
      caps_ok c' s).
    { intros Ek c' E1 E2 E3 E4 E5 E6. cbn in Hall, Hlast. rewrite Ek in Hall, Hlast.
      split; unfold caps; rewrite ?E1, ?E2, ?E3, ?E4, ?E5, ?E6; try done. by destruct (receiver c'). }
    destruct m as [text|data|data|data|[reason|]| | |]; cbn; try (by apply Hq; cbn; rewrite ?Hl).
    + destruct (server_of_text text) as [[k]|e] eqn:Et; [|by apply Hq; [cbn; rewrite Et|..]].
      cbn in Hall, Hlast. rewrite Et in Hall, Hlast. apply Forall_cons in Hall as [[Hk0 Hw0] Hall].
      pose proof Hall as [[Hk Hw] _]%Forall_cons. split; cbn; try done. constructor; [by split|done].
    + destruct lost; apply Hq; cbn; rewrite ?Hl; done.
  - unfold store_written. destruct (receiver c) as [|k|] eqn:Er; [done| |done]. unfold caps in Hall, Hlast.
    rewrite Er in Hall, Hlast. cbn [storing app] in Hall, Hlast.
    assert (E : mk_Capacity (cap_max c) (messages_written k) = k) by (rewrite <-Hst; by destruct k).
    split; unfold caps; cbn; rewrite ?E; try done. by apply Forall_cons in Hall as [_ Hall].
  - unfold caps in Hall, Hlast. rewrite Hl in Hall, Hlast. by split.
  - unfold client_heartbeat. destruct (finished_rx c); [done|]. destruct (_ <? _)%Z; by eapply caps_ok_same.
  - unfold handle_signal. destruct (signal_rx c); [done|]. destruct (_ =? _)%Z; [destruct ws|]; try done; by eapply caps_ok_same.
  - by eapply caps_ok_same.
Qed.

Lemma reported_step n : reported (n + 1) = if (((n + 1) mod CAPACITY_UPDATE_INTERVAL) =? 0)%Z then (n + 1)%Z else reported n.
Proof.
  unfold reported, CAPACITY_UPDATE_INTERVAL. pose proof (Z.div_mod (n + 1) 128 ltac:(lia)).
  pose proof (Z.mod_pos_bound (n + 1) 128 ltac:(lia)). destruct (Z.eqb_spec ((n + 1) mod 128) 0); [lia|].
  f_equal. apply (Z.div_unique n 128 ((n + 1) / 128) ((n + 1) mod 128 - 1)); lia.
Qed.

Lemma cap_ok_mono n n' k : (n ≤ n')%Z → cap_ok n k → cap_ok n' k.
Proof. unfold cap_ok. lia. Qed.

(** What the server may do to the capacities under way: nothing, when the number of messages that it
    reported is still right; add the new number; or lose those in the mailbox, with the actor. *)
Lemma caps_ok_server c s s' extra : caps_ok c s → (written_of s ≤ written_of s')%Z → seen c ≤ length (frames s') →
  Forall (cap_ok (written_of s')) extra →
  (caps c s' = caps c s ++ extra ∧
     (extra = [] ∧ (stopped s' = stopped s ∧ reported (written_of s') = reported (written_of s) ∨ stopped s' = true) ∨
      extra = [mk_Capacity MAX_MESSAGES_OUTSTANDING (reported (written_of s'))]) ∨
   stopped s' = true ∧ ∃ lost, caps c s = caps c s' ++ lost) → caps_ok c s'.
Proof.
  intros [] Hw Hseen He Hc.
  assert (Hall : Forall (cap_ok (written_of s')) (caps c s)).
  { eapply Forall_impl; [done|]. intros k. by apply cap_ok_mono. }
  split; [done| |done| | |lia].
  - destruct Hc as [[-> _]|[_ [lost E]]]; [by apply Forall_app|]. rewrite E in Hall. by apply Forall_app in Hall as [? _].
  - intros Hst. destruct Hc as [[-> [[-> [[E1 E2]|E1]]| ->]]|[E1 _]]; [|congruence| |congruence].
    + rewrite app_nil_r, E2. apply cp_last0. congruence.
    + apply last_snoc.
  - destruct (user c); try done. lia.
Qed.

Lemma quiet_frames_caps fs : Forall quiet_frame fs → omap frame_cap fs = [].
Proof. induction 1 as [|m fs (E & _) _ IH]; [done|]. cbn. by rewrite E. Qed.

Lemma caps_frames c s s' fs : frames s' = frames s ++ fs → seen c ≤ length (frames s) →
  caps c s' = mk_Capacity (cap_max c) (cap_written c) :: storing (receiver c) ++
    omap frame_cap (drop (seen c) (frames s)) ++ omap frame_cap fs ++ omap mail_cap (mailbox s').
Proof. intros E Hn. unfold caps. rewrite E, drop_app_le by done. by rewrite omap_app, <-app_assoc. Qed.

Lemma quiet_caps c s s' : quiet s s' → caps_ok c s → caps_ok c s'.
Proof.
  intros [(fs & Ef & Hq) Hv Hm] Hok. pose proof (cp_seen _ _ Hok) as Hseen.
  assert (Hw : written_of s' = written_of s).
  { unfold written_of. destruct Hv as [->| ->]; [done|]. by destruct (views s). }
  pose proof (caps_frames c s s' fs Ef Hseen) as Hc. rewrite (quiet_frames_caps fs Hq) in Hc. cbn [app] in Hc.
  eapply caps_ok_server with (extra := []); [done|lia|rewrite Ef, length_app; lia|done|].
  destruct Hm as [[E1 E2]|[E1 E2]]; rewrite E2 in Hc.
  - left. rewrite app_nil_r. split; [done|]. left. split; [done|]. left. by rewrite Hw.
  - right. split; [done|]. exists (omap mail_cap (mailbox s)). rewrite Hc. unfold caps. cbn. by rewrite <-app_assoc, app_nil_r.
Qed.

Lemma mail_caps c s m rest : caps_ok c s → mailbox s = m :: rest → caps_ok c (handle_actor m (set_mailbox rest s)).
Proof.
  intros Hok Em. pose proof (cp_seen _ _ Hok) as Hseen.
  destruct m as [o|code|k]; cbn [handle_actor].
  - eapply caps_ok_server with (extra := []); [done|done|cbn; rewrite length_app; lia|done|]. left. split.
    + erewrite (caps_frames c s _ [Binary o]) by done. unfold caps. rewrite Em. by rewrite app_nil_r.
    + left. split; [done|]. by left.
  - eapply caps_ok_server with (extra := []); [done| | |done|].
    + unfold stop, ctx_stop. unfold written_of at 2. unfold views. cbn [children].
      fold (views (on_child (with_write_tx false) (ctx_close (Some (mk_CloseReason Normal
        (Some (unsigned_to_string (u16_or_zero code))))) (set_mailbox rest s)))).
      by rewrite views_on_child.
    + cbn. rewrite frames_on_child. cbn. rewrite length_app. lia.
    + right. split; [done|]. exists (omap mail_cap (mailbox s)).
      erewrite (caps_frames c s (stop _ _ _)); [|cbn; by rewrite frames_on_child|done]. unfold caps. cbn.
      by rewrite <-app_assoc, app_nil_r.
  - eapply caps_ok_server with (extra := []); [done|done|cbn; rewrite length_app; lia|done|]. left. split.
    + erewrite (caps_frames c s _ [Text (server_text (ServerCapacity k))]) by done. unfold caps. rewrite Em. cbn.
      by rewrite server_text_read, app_nil_r.
    + left. split; [done|]. by left.
Qed.

Lemma action_written b c p : child_action b c p → (0 ≤ written c)%Z →
  (∀ d, writer c = Writing d → written c + 1 < 2 ^ 64)%Z →
  written p.1 = written c ∧ (p.2 ≫= mail_cap) = None ∨
  written p.1 = (written c + 1)%Z ∧
    p.2 = if ((written c + 1) mod CAPACITY_UPDATE_INTERVAL =? 0)%Z
          then Some (CapacityUpdate (mk_Capacity MAX_MESSAGES_OUTSTANDING (written c + 1))) else None.
Proof.
  intros Ha H0 Hs. destruct Ha; cbn.
  - left. unfold writer_receive. destruct (writer c); [|done..]. destruct (channel c); [|done]. by destruct (write_tx c).
  - unfold writer_write. destruct (writer c) as [|d|] eqn:E; [by left| |by left].
    right. rewrite wrap_small by (specialize (Hs d eq_refl); lia). done.
  - left. unfold writer_fail. by destruct (writer c).
  - left. unfold reader_read. by destruct (reader c).
  - left. unfold reader_end. by destruct (reader c).
  - left. unfold reader_send. destruct (reader c); [done| |done]. by destruct b.
  - left. unfold waiter_exit. by destruct (waiter c).
  - left. unfold waiter_return. destruct (waiter c); [done| |done]. by destruct (_ || _).
Qed.

Lemma child_caps c s c0 p : children s = [c0] → child_action (stopped s) c0 p → (0 ≤ written c0)%Z →
  (∀ d, writer c0 = Writing d → written c0 + 1 < 2 ^ 64)%Z → caps_ok c s →
  caps_ok c (post p.2 (set_children [p.1] s)).
Proof.
  intros Ec Ha H0 Hs Hok. pose proof (cp_seen _ _ Hok) as Hseen.
  assert (Hw : written_of s = written c0) by (unfold written_of, views; by rewrite Ec).
  assert (Hw' : written_of (post p.2 (set_children [p.1] s)) = written p.1).
  { unfold post. destruct p.2; [|done]. by destruct (stopped _). }
  assert (Hf : frames (post p.2 (set_children [p.1] s)) = frames s).
  { unfold post. destruct p.2; [|done]. by destruct (stopped _). }
  assert (Hst : stopped (post p.2 (set_children [p.1] s)) = stopped s).
  { unfold post. cbn. destruct p.2; [|done]. by destruct (stopped s) eqn:E. }
  assert (Hc : caps c (post p.2 (set_children [p.1] s)) =
    caps c s ++ if stopped s then [] else match p.2 ≫= mail_cap with Some k => [k] | None => [] end).
  { unfold post. cbn. destruct p.2 as [m|]; cbn; [|destruct (stopped s); by rewrite app_nil_r].
    destruct (stopped s); [by rewrite app_nil_r|]. unfold caps. cbn. rewrite omap_app, <-!app_assoc. cbn.
    by destruct (mail_cap m). }
  revert Hw' Hf Hst Hc. generalize (post p.2 (set_children [p.1] s)). intros s' Hw' Hf Hst Hc.
  pose proof (reported_step (written c0)) as Hr.
  destruct (action_written _ _ _ Ha H0 Hs) as [[E1 E2]|[E1 E2]].
  - eapply caps_ok_server with (extra := []); [done|lia|by rewrite Hf|done|]. left. rewrite Hc, E2. split.
    + by destruct (stopped s).
    + left. split; [done|]. left. by rewrite Hst, Hw', Hw, E1.
  - rewrite E2 in Hc. destruct ((_ mod _ =? 0)%Z) eqn:Em.
    + eapply (caps_ok_server _ _ _ (if stopped s then [] else [_])); [done|lia|by rewrite Hf| |left; split; [apply Hc|]].
      * case_match; [done|]. constructor; [|done]. split; cbn; [done|]. lia.
      * rewrite Hw', E1, Hst. destruct (stopped s); [left; split; [done|by right]|]. right. by rewrite Hr.
    + eapply caps_ok_server with (extra := []); [done|lia|by rewrite Hf|done|]. left. rewrite Hc. split.
      * by destruct (stopped s).
      * left. split; [done|]. left. by rewrite Hst, Hw', Hw, E1, Hr.
Qed.

Lemma server_step_caps path init l t s g s' g' c : server_ok init path (take g l) s → protocol init l →
  (Z.of_nat (length (bins l)) < 2 ^ 64)%Z → caps_ok c s → server_step path l t s g s' g' → caps_ok c s'.
Proof.
  intros Hs Hp Hsmall Hok Hst. destruct (server_step_cases _ _ _ _ _ _ _ _ Hp Hst) as
    [[Hq _]|[(m & rest & _ & Em & ->)|(i & c0 & p & Hi & Ha & ->)]]; [by eapply quiet_caps|by apply mail_caps|].
  unfold server_ok in Hs. destruct (children s) as [|c1 [|]] eqn:Ec; [done| |done].
  destruct i as [|i]; [|done]. injection Hi as ->. cbn. destruct Hs as (_ & _ & Hc). destruct Hc as [_ _ [H0 Hw] _].
  apply child_caps with (c0 := c0); [done..| |done]. intros d Ed.
  destruct (open_bins_take g l) as [rest E]. pose proof (open_bins_incl l) as Hl. rewrite E, length_app in Hl.
  unfold hand in Hw. rewrite Ed in Hw. cbn in Hw. lia.
Qed.

Lemma caps_ok_start init whole t : caps_ok (exec_start (command init) (target init) (tty init) whole t) (started t).
Proof. split; cbn; try done. by repeat constructor. Qed.
End capacity.

(** ** The session: input *)

Section session.
Context `{ExecText} (path : string) (init : Initialize) (whole : string).
Hypothesis Hwhole : (Z.of_nat (str_len whole) < 2 ^ 64)%Z.
#[local] Arguments bins : simpl never.
#[local] Arguments completed : simpl never.

Lemma reachable_ok t s : reachable path init whole t s →
  client_ok init whole (cl s) ∧ server_ok init path (take (got s) (sent (cl s))) (sv s) ∧ got s ≤ length (sent (cl s)).
Proof using Hwhole.
  induction 1 as [|s s' Hr (Hc & Hs & Hg) Hst].
  - split_and!; [by apply client_ok_start|by apply server_ok_start|cbn; lia].
  - destruct Hst as [d Hd|c He Hst|v g Hst]; cbn.
    + done.
    + pose proof (client_step_ok init whole Hwhole _ _ _ _ Hc Hst). destruct (client_step_sent _ _ _ _ Hst) as [l ->].
      rewrite take_app_le by done. rewrite length_app. split_and!; [done..|lia].
    + split_and!; [done| |].
      * eapply server_step_ok; [done|by destruct Hc| |done]. pose proof (bins_small init whole Hwhole _ Hc). lia.
      * destruct Hst; try done. by apply lookup_lt_Some in H1.
Qed.

Lemma reachable_caps t s : reachable path init whole t s → caps_ok (cl s) (sv s).
Proof using Hwhole.
  induction 1 as [|s s' Hr IH Hst]; [apply caps_ok_start|]. destruct (reachable_ok _ _ Hr) as (Hc & Hs & Hg).
  destruct Hst as [d Hd|c He Hst|v g Hst]; cbn; [done| |].
  - eapply client_step_caps; [done| |done]. pose proof (co_count _ _ _ Hc). lia.
  - eapply server_step_caps; [done|by destruct Hc| |done..]. pose proof (bins_small init whole Hwhole _ Hc). lia.
Qed.

(** All that was written was sent. *)
Lemma written_taken t s : reachable path init whole t s →
  (written_of (sv s) ≤ Z.of_nat (length (open_bins (take (got s) (sent (cl s))))) ≤
   Z.of_nat (length (bins (sent (cl s)))))%Z.
Proof using Hwhole.
  intros Hr. destruct (reachable_ok _ _ Hr) as (Hc & Hs & _). split.
  - unfold server_ok in Hs. unfold written_of, views. destruct (children (sv s)) as [|c [|]]; [cbn; lia| |done].
    destruct Hs as (_ & _ & [_ _ Hw _]). cbn. lia.
  - destruct (open_bins_take (got s) (sent (cl s))) as [rest E]. rewrite <-(co_open _ _ _ Hc), E, length_app. lia.
Qed.

(** What the actor took is the beginning of the input. *)
Lemma taken_input t s : reachable path init whole t s →
  ∃ rest, str_concat (open_bins (take (got s) (sent (cl s)))) +:+ rest = whole.
Proof using Hwhole.
  intros Hr. destruct (reachable_ok _ _ Hr) as (Hc & _ & _). destruct (co_input _ _ _ Hc) as (lost & E & _).
  destruct (open_bins_take (got s) (sent (cl s))) as [l El]. rewrite (co_open _ _ _ Hc) in El.
  rewrite El, str_concat_app, <-str_app_assoc in E. by eexists.
Qed.

(** Input that is refused although the client waited for capacity. *)
Lemma refusal t s c data : reachable path init whole t s → children (sv s) = [c] → write_tx c = true →
  sent (cl s) !! got s = Some (Binary data) → try_send data c = Full →
  writer c = Receiving ∧ messages_read (cl s) = (written c + MAX_MESSAGES_OUTSTANDING + 1)%Z.
Proof using Hwhole.
  intros Hr Ec Htx Hm Hf. destruct (reachable_ok _ _ Hr) as (Hc & Hs & _).
  unfold server_ok in Hs. rewrite Ec in Hs. destruct Hs as (_ & _ & [_ Htx' Hw _]). rewrite Htx in Htx'.
  assert (Hcp : completed (take (got s) (sent (cl s))) = false) by (destruct (stopped _), (completed _); done).
  destruct (open_bins_take (S (got s)) (sent (cl s))) as [l El]. rewrite (co_open _ _ _ Hc) in El.
  rewrite (take_S_r _ _ _ Hm), open_bins_app, Hcp in El. apply (f_equal length) in El. cbn in El.
  rewrite !length_app, bins_cons, bins_nil in El. cbn in El. rewrite length_app in Hw.
  pose proof (co_count _ _ _ Hc). pose proof (cp_read _ _ (reachable_caps _ _ Hr)) as Hread.
  unfold written_of, views in Hread. rewrite Ec in Hread. cbn in Hread.
  unfold try_send in Hf. unfold hand in Hw.
  destruct (writer c); [..|done]; (destruct (Z.ltb_spec (Z.of_nat (length (channel c))) MAX_MESSAGES_OUTSTANDING); [done|]);
    cbn in Hw; [split; [done|]|]; lia.
Qed.

(** A client that waits for capacity while nothing is under way. *)
Lemma waiting_not_stuck t s c : reachable path init whole t s → children (sv s) = [c] → stopped (sv s) = false →
  ¬ refused (frames (sv s)) → writer c ≠ WriterDone → user_failed (cl s) = false → receiver (cl s) = Listening →
  (cap_max (cl s) < messages_read (cl s) - cap_written (cl s))%Z →
  got s < length (sent (cl s)) ∨ hand c ++ channel c ≠ [] ∨ mailbox (sv s) ≠ [] ∨ seen (cl s) < length (frames (sv s)).
Proof using Hwhole.
  intros Hr Ec Hst Hnr Hw Hf Hl Hwait. destruct (reachable_ok _ _ Hr) as (Hc & Hs & Hg).
  destruct (decide (got s < length (sent (cl s)))) as [|Hgot]; [by left|right].
  destruct (decide (hand c ++ channel c = [])) as [Eh|]; [right|by left].
  destruct (mailbox (sv s)) as [|] eqn:Em; [right|by left].
  destruct (decide (seen (cl s) < length (frames (sv s)))) as [|Hseen]; [done|exfalso].
  rewrite take_ge in Hs by lia. unfold server_ok in Hs. rewrite Ec in Hs. destruct Hs as (_ & _ & [_ _ _ Hstream]).
  rewrite (co_open _ _ _ Hc) in Hstream. specialize (Hstream Hnr).
  assert (Hwr : Z.of_nat (length (bins (sent (cl s)))) = written c).
  { destruct (writer c); [..|done]; destruct Hstream as (dn & Eo & _ & El); by rewrite Eo, Eh, app_nil_r. }
  pose proof (co_exact _ _ _ Hc Hf) as Hx.
  pose proof (cp_last _ _ (reachable_caps _ _ Hr) Hst) as Hlast. unfold caps in Hlast.
  rewrite Hl, Em, drop_ge in Hlast by lia. cbn in Hlast. injection Hlast as E1 E2.
  unfold written_of, views in E2. rewrite Ec in E2. cbn in E2.
  unfold reported, CAPACITY_UPDATE_INTERVAL in E2. unfold MAX_MESSAGES_OUTSTANDING in E1.
  pose proof (Z.div_mod (written c) 128 ltac:(lia)). pose proof (Z.mod_pos_bound (written c) 128 ltac:(lia)). lia.
Qed.

Lemma no_server_count t s r w : reachable path init whole t s → user (cl s) ≠ UserFailed (ServerCount r w).
Proof using Hwhole.
  induction 1 as [|s s' Hr IH Hst]; [done|]. destruct (reachable_ok _ _ Hr) as (Hc & Hs & _).
  pose proof (reachable_caps _ _ Hr) as Hcaps.
  destruct Hst as [d Hd|c He Hst|v g Hst]; cbn; [done| |done].
  destruct Hst as [sending| |lost m Hl Hm| |res Hl _| |ws sig|e]; try done.
  - unfold user_step. destruct (user (cl s)) eqn:Eu; [done| | |congruence..].
    + destruct (Z.ltb_spec (messages_read (cl s)) (cap_written (cl s))); [|by case_match].
      exfalso. pose proof (co_exact _ _ _ Hc) as Hx. unfold user_failed in Hx. rewrite Eu in Hx. specialize (Hx eq_refl).
      pose proof (cp_all _ _ Hcaps) as [[_ [_ Hw]] _]%Forall_cons. cbn in Hw.
      pose proof (written_taken _ _ Hr). lia.
    + repeat case_match; done.
  - unfold user_read_fails. destruct (user (cl s)) eqn:Eu; cbn; congruence.
  - destruct m; cbn; repeat case_match; done.
  - unfold store_written. by destruct (receiver (cl s)).
  - unfold client_heartbeat. destruct (finished_rx _); [done|]. by destruct (_ <? _)%Z.
  - unfold handle_signal. destruct (signal_rx _); [done|]. destruct (_ =? _)%Z; [by destruct ws|done].
Qed.

End session.

(** ** A client that keeps to the capacity and is closed for not keeping to it *)

Lemma drop_byte n s : n < str_len s → ∃ a, str_drop n s = String a (str_drop (S n) s).
Proof.
  revert s. induction n as [|n IH]; intros [|a s] Hn; cbn in Hn; [lia|by exists a|lia|].
  apply IH. cbn in *. lia.
Qed.

Section refusal.
Context `{ExecText} (path : string) (init : Initialize) (whole : string) (t : Z).
Hypothesis Htty : is_Some (tty init).
Abbreviation reach := (reachable path init whole t).

Lemma one_server_step s v g : reach s → server_step path (sent (cl s)) (now s) (sv s) (got s) v g →
  reach (mk_session (cl s) v g (now s)).
Proof. intros Hr Hs. eapply reachable_step; [done|]. by apply step_server. Qed.
Lemma one_client_step s c : reach s → ended (cl s) = None → client_step (frames (sv s)) (now s) (cl s) c →
  reach (mk_session c (sv s) (got s) (now s)).
Proof. intros Hr He Hs. eapply reachable_step; [done|]. by apply step_client. Qed.

(** [n] messages are in the channel and none was taken from it. *)
Record filled (n : nat) (s : session) : Prop := {
  f_reach : reach s;
  f_client : is_tty (cl s) = true ∧ user (cl s) = LoadMax ∧ ended (cl s) = None ∧ messages_read (cl s) = Z.of_nat n;
  f_cap : cap_max (cl s) = MAX_MESSAGES_OUTSTANDING ∧ cap_written (cl s) = 0%Z;
  f_input : input (cl s) = str_drop n whole;
  f_got : got s = length (sent (cl s));
  f_server : stopped (sv s) = false ∧ child_handles (sv s) = Some 0;
  f_child : ∃ c, children (sv s) = [c] ∧ write_tx c = true ∧ writer c = Receiving ∧ length (channel c) = n }.

Lemma filled_0 : ∃ s, filled 0 s.
Proof using Htty.
  assert (Hi : mk_Initialize (command init) (target init) (tty init) = init) by (by destruct init).
  pose proof (reachable_start path init whole t) as R0.
  eapply one_server_step in R0; [|by eapply (server_receive _ _ _ _ _ "id" (Ok 1%Z))]. cbn in R0.
  unfold handle_text in R0. rewrite client_text_read, Hi in R0. cbn in R0.
  eapply one_server_step in R0; [|by eapply server_mail]. cbn in R0.
  eapply one_client_step in R0; [|done|by eapply (client_receive _ _ _ None)]. cbn in R0.
  rewrite server_text_read in R0. cbn in R0.
  eapply one_client_step in R0; [|done|by eapply client_store]. cbn in R0.
  eexists. split; [exact R0|..]; cbn; try done.
  - by rewrite bool_decide_true.
  - by eexists.
Qed.

(** The client loads the capacity, which allows it to read, and sends a byte. *)
Lemma send_byte n s : filled n s → (Z.of_nat n ≤ MAX_MESSAGES_OUTSTANDING)%Z → n < str_len whole →
  ∃ d, str_len d = 1 ∧ str_drop n whole = d +:+ str_drop (S n) whole ∧
  reach (mk_session (unbounded_send (Binary d) (set_user LoadMax (set_read (str_drop (S n) whole) (Z.of_nat (S n)) (cl s))))
    (sv s) (got s) (now s)).
Proof.
  intros [R (Ht & Hu & He & Hm) (Hmax & Hw) Hi Hg _ _] Hn Hlen. destruct (drop_byte n whole Hlen) as (a & Ea).
  rewrite Ea. rewrite Ea in Hi. clear Ea. revert Hi. generalize (str_drop (S n) whole). intros rest Hi.
  destruct s as [c v g tm]. cbn in *. destruct c as [itty inp us rd cmax cwr rc out rt st fi sg sn se en]. cbn in *. subst.
  eapply one_client_step in R; [|done|by eapply (client_user _ _ _ true)]. cbn in R.
  eapply one_client_step in R; [|done|by eapply (client_user _ _ _ true)]. cbn in R.
  rewrite Z.sub_0_r, (proj2 (Z.ltb_ge _ _)), (proj2 (Z.leb_le _ _)) in R by lia.
  eapply one_client_step in R; [|done|by eapply (client_user _ _ _ true)]. cbn in R.
  exists (String a EmptyString). split; [done|]. split; [done|].
  unfold batch in R. cbn in R. rewrite wrap_small in R by (unfold MAX_MESSAGES_OUTSTANDING in Hn; lia).
  replace (Z.of_nat (S n)) with (Z.of_nat n + 1)%Z by lia. destruct rest; exact R.
Qed.

Lemma bool_decide_full n : n < Z.to_nat MAX_MESSAGES_OUTSTANDING → (Z.of_nat n <? MAX_MESSAGES_OUTSTANDING)%Z = true.
Proof. unfold MAX_MESSAGES_OUTSTANDING. intros Hn. apply Z.ltb_lt. lia. Qed.

Lemma filled_S n s : filled n s → n < Z.to_nat MAX_MESSAGES_OUTSTANDING → n < str_len whole → ∃ s', filled (S n) s'.
Proof.
  intros Hf Hn Hlen. destruct (send_byte n s Hf) as (d & _ & _ & R); [unfold MAX_MESSAGES_OUTSTANDING in *; lia|done|].
  destruct Hf as [_ (Ht & Hu & He & Hm) (Hmax & Hw) Hi Hg [Hst Hh] (c & Ec & Htx & Hwr & Hl)].
  eapply one_server_step in R; [|eapply (server_receive _ _ _ _ _ EmptyString (Ok 0%Z)); [done|cbn; by rewrite Hg, list_lookup_middle]].
  cbn in R. unfold handle_binary, try_send in R. rewrite Hh, Ec in R. cbn in R. rewrite Htx, Hwr, Hl, bool_decide_full in R by done.
  eexists. split; [exact R|..]; cbn; try done.
  - rewrite length_app. cbn. lia.
  - eexists. split; [done|]. cbn. split_and!; try done. rewrite length_app. cbn. lia.
Qed.

Lemma filled_all n : n ≤ Z.to_nat MAX_MESSAGES_OUTSTANDING → n ≤ str_len whole → ∃ s, filled n s.
Proof using Htty.
  induction n as [|n IH]; intros Hn Hl; [apply filled_0|]. destruct IH as [s Hs]; [lia..|].
  eapply filled_S; [done|lia..].
Qed.

(** The client may send one message more than fits: with input enough, a client that waits for
    capacity has its connection closed for not obeying it, when the thread that writes has not taken
    a message yet. *)
Lemma obedient_client_refused : Z.to_nat MAX_MESSAGES_OUTSTANDING < str_len whole →
  ∃ s, reach s ∧ refused (frames (sv s)) ∧ cap_max (cl s) = MAX_MESSAGES_OUTSTANDING.
Proof using Htty.
  intros Hlen. destruct (filled_all (Z.to_nat MAX_MESSAGES_OUTSTANDING)) as [s Hf]; [lia..|].
  destruct (send_byte _ _ Hf) as (d & _ & _ & R); [unfold MAX_MESSAGES_OUTSTANDING; lia|lia|].
  destruct Hf as [_ (Ht & Hu & He & Hm) (Hmax & Hw) Hi Hg [Hst Hh] (c & Ec & Htx & Hwr & Hl)].
  eapply one_server_step in R; [|eapply (server_receive _ _ _ _ _ EmptyString (Ok 0%Z)); [done|cbn; by rewrite Hg, list_lookup_middle]].
  cbn in R. unfold handle_binary, try_send in R. rewrite Hh, Ec in R. cbn [lookup list_lookup] in R.
  rewrite Htx, Hwr, Hl in R.
  rewrite Z2Nat.id, Z.ltb_irrefl in R by done. eexists. split; [exact R|]. split; [|done].
  eexists. split; [cbn; apply elem_of_app; right; by left|done].
Qed.
End refusal.
