(* ===== verification/ExecOutput.v ===== *)
(** * The output of an exec session

    The invariant that follows the output of the process and its return code through the reading
    thread, the mailbox of the actor and the frames to what the client printed. *)
From S2P Require Import Prelude Numbers Chars ExecServer ExecClient Exec.
From stdpp Require Import base list strings.
From stdpp Require Import options.

#[local] Arguments bins : simpl never.
#[local] Arguments completed : simpl never.

(** ** Output *)

Section output.
Context `{ExecText}.
#[local] Arguments bins : simpl never.

Definition outs (l : list actor_message) : list string :=
  omap (λ m, match m with ProcessOutput o => Some o | _ => None end) l.
Definition codes (l : list actor_message) : list Z :=
  omap (λ m, match m with ProcessReturn c => Some c | _ => None end) l.
Definition rhand (c : Child) : string := match reader c with Sending data => data | _ => EmptyString end.

(** The client has read without a failure. *)
Definition good (c : client) : Prop :=
  match receiver c with ReceiverEnded _ => is_Some (ret c) | _ => True end.
Definition delivered (c : client) (s : server) : string :=
  stdout c +:+ str_concat (bins (drop (seen c) (frames s))).
Definition no_normal (fs : list Message) : Prop := Forall (λ m, normal m = false) fs.
Definition last_frame (c : Z) : Message :=
  Close (Some (mk_CloseReason Normal (Some (unsigned_to_string (u16_or_zero c))))).

(** Where the code of a child that ended is: in the mailbox, in the last frame, or lost with the
    actor. *)
Definition returned (c : client) (s : server) (ch : Child) (n : Z) (complete : bool) : Prop :=
  (complete = true → reader ch = ReaderDone) ∧
  (stopped s = false ∧ no_normal (frames s) ∧
     (∃ a b, mailbox s = a ++ ProcessReturn n :: b ∧ codes a = [] ∧ codes b = [] ∧ (complete = true → outs b = [])) ∨
   stopped s = true ∧ (∃ fs, frames s = fs ++ [last_frame n] ∧ no_normal fs) ∧
     (complete = true → good c → delivered c s = output ch) ∨
   stopped s = true ∧ no_normal (frames s)).

Definition out_ok (c : client) (s : server) : Prop :=
  (stopped s = true → mailbox s = []) ∧
  match children s with
  | [] => codes (mailbox s) = [] ∧ no_normal (frames s) ∧ outs (mailbox s) = [] ∧ (good c → delivered c s = EmptyString)
  | [ch] =>
      (stopped s = false → good c → delivered c s +:+ str_concat (outs (mailbox s)) +:+ rhand ch = output ch) ∧
      match waiter ch with
      | WaiterDone n complete => returned c s ch n complete
      | _ => codes (mailbox s) = [] ∧ no_normal (frames s)
      end
  | _ => True
  end.

Definition ret_ok (c : client) (s : server) : Prop :=
  match receiver c with
  | ReceiverEnded _ => ∀ r, ret c = Some r → Close (Some r) ∈ take (seen c) (frames s)
  | _ => ret c = None
  end.

(** *** The client *)

Lemma out_ok_client c c' s : out_ok c s → (good c' → good c ∧ delivered c' s = delivered c s) → out_ok c' s.
Proof.
  intros [Hmb Ho] Hg. split; [done|]. destruct (children s) as [|ch [|]]; [| |done].
  - destruct Ho as (? & ? & ? & Hd). split_and!; try done. intros Hg'. destruct (Hg Hg') as [? ->]. by apply Hd.
  - destruct Ho as [Hd Hw]. split; [intros Hst Hg'; destruct (Hg Hg') as [? ->]; by apply Hd|].
    destruct (waiter ch); [done..|]. destruct Hw as [Hrd Hw]. split; [done|].
    destruct Hw as [?|[(? & ? & Hw)|?]]; [by left| |by right; right]. right. left. split_and!; try done.
    intros Hcmp Hg'. destruct (Hg Hg') as [? ->]. by apply Hw.
Qed.

Lemma output_same c c' s : ret_ok c s → receiver c' = receiver c → ret c' = ret c → stdout c' = stdout c → seen c' = seen c →
  ret_ok c' s ∧ (good c' → good c ∧ delivered c' s = delivered c s).
Proof. unfold ret_ok, good, delivered. intros Hr -> -> -> ->. split; [done|]. by intros ?. Qed.

(** What a step of the client does to its output. *)
Lemma client_step_output c s t c' : ret_ok c s → client_step (frames s) t c c' →
  ret_ok c' s ∧ (good c' → good c ∧ delivered c' s = delivered c s).
Proof.
  intros Hr Hs. destruct Hs as [sending| |lost m Hl Hm| |res Hl _| |ws sig|e He].
  - apply output_same; [done|..]; unfold user_step; destruct (user c); repeat case_match; done.
  - apply output_same; [done|..]; unfold user_read_fails; by destruct (user c).
  - unfold ret_ok in Hr |- *. assert (Hd : drop (seen c) (frames s) = m :: drop (S (seen c)) (frames s)) by (by apply drop_S).
    assert (Ht : take (S (seen c)) (frames s) = take (seen c) (frames s) ++ [m]) by (by apply take_S_r).
    unfold good, delivered. rewrite Hl in Hr |- *. rewrite Hd, bins_cons.
    destruct m as [text|data|data|data|[reason|]| | |]; cbn; rewrite ?Hl, ?Hr; try done.
    + destruct (server_of_text text) as [[k]|e]; cbn; rewrite ?Hr; [done|]. split; [done|]. by intros [? ?].
    + destruct lost; cbn; rewrite ?Hl, ?Hr; [split; [done|]; by intros [? ?]|]. split; [done|]. intros _. split; [done|].
      by rewrite str_app_assoc.
    + split; [|done]. intros r [= <-]. rewrite Ht. apply elem_of_app. right. by left.
  - unfold store_written. destruct (receiver c) as [|k|] eqn:El; [by apply output_same| |by apply output_same].
    unfold ret_ok, good in *. cbn. rewrite El in Hr |- *. by split.
  - unfold ret_ok, good in *. cbn. rewrite Hl in Hr. rewrite Hr. split; [done|]. by intros [? ?].
  - apply output_same; [done|..]; unfold client_heartbeat; destruct (finished_rx c); try done; by destruct (_ <? _)%Z.
  - apply output_same; [done|..]; unfold handle_signal; destruct (signal_rx c); try done;
      destruct (_ =? _)%Z; try done; by destruct ws.
  - by apply output_same.
Qed.

(** *** The server *)

Lemma outs_app l1 l2 : outs (l1 ++ l2) = outs l1 ++ outs l2.
Proof. apply omap_app. Qed.
Lemma codes_app l1 l2 : codes (l1 ++ l2) = codes l1 ++ codes l2.
Proof. apply omap_app. Qed.
Lemma delivered_app c s s' fs : frames s' = frames s ++ fs → seen c ≤ length (frames s) →
  delivered c s' = delivered c s +:+ str_concat (bins fs).
Proof.
  intros E Hs. unfold delivered. rewrite E, drop_app_le by done. rewrite bins_app, str_concat_app. apply str_app_assoc.
Qed.

Lemma quiet_frames_out fs : Forall quiet_frame fs → bins fs = [] ∧ no_normal fs.
Proof.
  induction 1 as [|m fs (_ & Hb & Hn) _ [IH1 IH2]]; [split; [done|constructor]|]. split; [|by constructor].
  change (m :: fs) with ([m] ++ fs). by rewrite bins_app, Hb.
Qed.

(** The parts of a child that matter here. *)
Lemma one_view s s' ch : views s' = views s → children s = [ch] →
  ∃ ch', children s' = [ch'] ∧ view ch' = view ch.
Proof.
  unfold views. intros E Ec. rewrite Ec in E. destruct (children s') as [|ch' [|]]; try done.
  change ([view ch'] = [view ch]) in E. exists ch'. split; [done|congruence].
Qed.

Lemma out_ok_one c s ch : children s = [ch] →
  out_ok c s ↔ (stopped s = true → mailbox s = []) ∧
      (stopped s = false → good c → delivered c s +:+ str_concat (outs (mailbox s)) +:+ rhand ch = output ch) ∧
      match waiter ch with
      | WaiterDone n complete => returned c s ch n complete
      | _ => codes (mailbox s) = [] ∧ no_normal (frames s)
      end.
Proof. unfold out_ok. by intros ->. Qed.

(** The quiet steps of an actor that was running. *)
Lemma quiet_out c s s' : out_ok c s → seen c ≤ length (frames s) → stopped s = false → length (children s') ≤ 1 →
  quiet s s' → out_ok c s'.
Proof.
  intros Ho Hseen Hst Hlen [(fs & Ef & Hq) Hv Hm]. destruct (quiet_frames_out _ Hq) as [Hb Hn].
  pose proof (delivered_app c s s' fs Ef Hseen) as Hd. rewrite Hb, str_app_nil_r in Hd.
  assert (Hmb : mailbox s' = mailbox s ∧ stopped s' = false ∨ mailbox s' = [] ∧ stopped s' = true)
    by (destruct Hm as [[-> ->]|[-> ->]]; auto).
  assert (Hnf : no_normal (frames s) → no_normal (frames s')) by (intros ?; rewrite Ef; by apply Forall_app).
  split; [destruct Hmb as [[_ E]|[E _]]; [by rewrite E|done]|]. destruct Ho as [_ Ho].
  destruct (children s) as [|ch [|]] eqn:Ec.
  - destruct Ho as (Hc & Hnn & Hout & Hdel). rewrite Hd. apply Hnf in Hnn.
    assert (codes (mailbox s') = [] ∧ outs (mailbox s') = []) as [Hc' Ho'].
    { by destruct Hmb as [[-> _]|[-> _]]. }
    destruct Hv as [Hv|Hv]; unfold views in Hv; rewrite Ec in Hv.
    + apply fmap_nil_inv in Hv. by rewrite Hv.
    + destruct (children s') as [|ch' [|]]; try done. injection Hv as _ Hr Hw Hout'. rewrite Hw, Ho', Hout'.
      split; [|done]. intros _ Hg. unfold rhand. by rewrite (Hdel Hg), Hr.
  - destruct Hv as [Hv|Hv]; [|unfold views in Hv; rewrite Ec in Hv; apply (f_equal length) in Hv; cbn in Hv;
      rewrite length_fmap in Hv; lia].
    destruct (one_view _ _ _ Hv Ec) as (ch' & Ec' & Ev). rewrite Ec'. injection Ev as _ Hr Hw Hout'.
    destruct Ho as [Hdel Hret]. unfold rhand, returned in *. rewrite Hw, Hr, Hout', Hd.
    split; [intros Hst'; destruct Hmb as [[-> _]|[_ E]]; [by apply Hdel|congruence]|].
    destruct (waiter ch).
    + destruct Hret. split; [by destruct Hmb as [[-> _]|[-> _]]|by apply Hnf].
    + destruct Hret. split; [by destruct Hmb as [[-> _]|[-> _]]|by apply Hnf].
    + destruct Hret as [Hrd Hret]. split; [done|]. destruct Hret as [(_ & Hnn & Hab)|[[E _]|[E _]]]; [|congruence..].
      apply Hnf in Hnn. destruct Hmb as [[-> E]|[_ E]]; rewrite E; [by left|by right; right].
  - rewrite <-length_fmap with (f := view) in Hlen. change (view <$> children s') with (views s') in Hlen.
    assert (length (views s) ≤ 1) as Hl by (destruct Hv as [E|E]; rewrite E in Hlen; rewrite ?length_app in Hlen; lia).
    unfold views in Hl. rewrite length_fmap, Ec in Hl. cbn in Hl. lia.
Qed.

(** The head of the mailbox is handled. *)
Lemma frame_out c s m rest fs : seen c ≤ length (frames s) → stopped s = false → mailbox s = m :: rest → out_ok c s →
  codes [m] = [] → bins fs = outs [m] → no_normal fs →
  out_ok c (mk_server (heartbeat s) (child_handles s) (children s) rest (frames s ++ fs) (stopped s)).
Proof.
  intros Hseen Hst Em [_ Ho] Hcm Hb Hn. set (s' := mk_server _ _ _ _ _ _).
  pose proof (delivered_app c s s' fs eq_refl Hseen) as Hd. rewrite Hb in Hd.
  change (m :: rest) with ([m] ++ rest) in Em. rewrite Em, outs_app, codes_app, Hcm in Ho. cbn [app] in Ho.
  split; [cbn; congruence|]. cbn [s' children mailbox frames stopped].
  destruct (children s) as [|ch [|]]; [| |done].
  - destruct Ho as (Hc & Hnn & Hout & Hdel). apply app_eq_nil in Hout as [E1 E2]. split_and!; try done.
    + by apply Forall_app.
    + intros Hg. by rewrite Hd, E1, (Hdel Hg).
  - destruct Ho as [Hdel Hret]. split.
    + intros _ Hg. rewrite <-(Hdel Hst Hg), Hd, str_concat_app. by rewrite !str_app_assoc.
    + destruct (waiter ch); [split; [apply Hret|apply Forall_app; split; [apply Hret|done]]..|].
      destruct Hret as [Hrd Hret]. split; [done|].
      destruct Hret as [(_ & Hnn & a & b & E & Ha & Hb' & Hc)|[[E _]|[E _]]]; [|congruence..].
      left. split_and!; [done|by apply Forall_app|]. rewrite Em in E. destruct a as [|m' a].
      * injection E as -> _. done.
      * injection E as -> E. exists a, b. split_and!; try done. change (m' :: a) with ([m'] ++ a) in Ha.
        rewrite codes_app in Ha. by apply app_eq_nil in Ha as [_ ?].
Qed.

Lemma mail_out c s m rest : seen c ≤ length (frames s) → stopped s = false → mailbox s = m :: rest → length (children s) ≤ 1 →
  out_ok c s → out_ok c (handle_actor m (set_mailbox rest s)).
Proof.
  intros Hseen Hst Em Hlen Ho. destruct m as [o|n|k].
  - apply (frame_out c s (ProcessOutput o) rest [Binary o]); try done. by repeat constructor.
  - destruct (children s) as [|ch [|]] eqn:Ec; [| |cbn in Hlen; lia].
    { destruct Ho as [_ Ho]. rewrite Ec, Em in Ho. by destruct Ho. }
    pose proof Ho as [_ [Hdel Hret]]%(out_ok_one c s ch Ec).
    destruct (waiter ch) as [| |n' complete] eqn:Ew; [rewrite Em in Hret; by destruct Hret..|].
    destruct Hret as [Hrd [(_ & Hnn & a & b & E & Ha & Hb & Hc)|[[E _]|[E _]]]]; [|congruence..].
    rewrite Em in E. destruct a as [|m' a]; [|by injection E as <- _]. injection E as <- ->.
    set (s' := handle_actor _ _).
    assert (Hv : views s' = views s) by exact (views_on_child (with_write_tx false) (ctx_close _ (set_mailbox b s)) (λ _, eq_refl)).
    assert (Hf : frames s' = frames s ++ [last_frame n]) by exact (frames_on_child (with_write_tx false) (ctx_close _ (set_mailbox b s))).
    destruct (one_view _ _ _ Hv Ec) as (ch' & Ec' & Ev). injection Ev as _ Er Ew' Eo.
    apply (out_ok_one c s' ch' Ec'). rewrite Ew', Ew. split; [done|]. split; [done|]. unfold returned. rewrite Er, Eo.
    split; [done|]. right. left. split; [done|]. split; [by exists (frames s)|].
    intros Hcmp Hg. rewrite (delivered_app c s s' _ Hf Hseen). specialize (Hdel Hst Hg). rewrite Em in Hdel.
    change (ProcessReturn n :: b) with ([ProcessReturn n] ++ b) in Hdel. rewrite outs_app, (Hc Hcmp) in Hdel.
    unfold rhand in Hdel. rewrite (Hrd Hcmp) in Hdel. exact Hdel.
  - apply (frame_out c s (CapacityUpdate k) rest [Text (server_text (ServerCapacity k))]); try done. by repeat constructor.
Qed.

(** What a thread of the child did, when it posts [o] and leaves the child as [ch']. *)
Lemma post_out c s ch' o :
  (stopped s = true → mailbox s = []) →
  (stopped s = false → good c → delivered c s +:+ str_concat (outs (mailbox s)) +:+
     (str_concat (outs (option_list o)) +:+ rhand ch') = output ch') →
  (let mb := if stopped s then [] else mailbox s ++ option_list o in
   match waiter ch' with
   | WaiterDone n complete => returned c (mk_server 0 None [] mb (frames s) (stopped s)) ch' n complete
   | _ => codes mb = [] ∧ no_normal (frames s)
   end) → out_ok c (post o (set_children [ch'] s)).
Proof.
  intros Hmb Hdel Hret.
  set (s' := post o _). assert (Ec : children s' = [ch'] ∧ frames s' = frames s ∧ stopped s' = stopped s).
  { unfold s', post. destruct o; [|done]. cbn. by destruct (stopped s) eqn:E. }
  assert (Em : mailbox s' = if stopped s then [] else mailbox s ++ option_list o).
  { unfold s', post. cbn. destruct (stopped s) eqn:Es; [specialize (Hmb eq_refl)|]; destruct o; cbn; rewrite ?Es; cbn;
      by rewrite ?app_nil_r. }
  clearbody s'. destruct Ec as (Ec & Ef & Es).
  apply (out_ok_one c s' ch' Ec). unfold returned, delivered in *. cbn [frames stopped mailbox] in Hret.
  rewrite Em, Ef, Es. split; [by intros ->|]. split; [|done].
  intros Hst Hg. rewrite Hst, outs_app, str_concat_app, <-(Hdel Hst Hg). by rewrite !str_app_assoc.
Qed.

(** A thread that is not the one that waits; what a reader that is done has read does not change. *)
Lemma ret_same c s ch ch' o : waiter ch' = waiter ch → codes (option_list o) = [] →
  (reader ch = ReaderDone → reader ch' = ReaderDone ∧ output ch' = output ch ∧ outs (option_list o) = []) →
  match waiter ch with
  | WaiterDone n complete => returned c s ch n complete
  | _ => codes (mailbox s) = [] ∧ no_normal (frames s)
  end →
  let mb := if stopped s then [] else mailbox s ++ option_list o in
  match waiter ch' with
  | WaiterDone n complete => returned c (mk_server 0 None [] mb (frames s) (stopped s)) ch' n complete
  | _ => codes mb = [] ∧ no_normal (frames s)
  end.
Proof.
  intros Ew Ec Hr Hret. cbv zeta. rewrite Ew. destruct (waiter ch);
    [by destruct Hret; destruct (stopped s); rewrite ?codes_app, ?Ec, ?app_nil_r..|].
  unfold returned in *. cbn [mailbox frames stopped]. destruct Hret as [Hrd Hret].
  assert (Hd : complete = true → reader ch' = ReaderDone ∧ output ch' = output ch ∧ outs (option_list o) = []) by auto.
  split; [intros Hcmp; by apply Hd|]. destruct Hret as [(Est & Hnn & a & b & Em & Ha & Hb & Hc)|[(Est & Hl & Hc)|Hret]].
  - left. split_and!; [done..|]. rewrite Est, Em. exists a, (b ++ option_list o).
    rewrite codes_app, Ec, app_nil_r, <-app_assoc. split_and!; try done. intros Hcmp.
    destruct (Hd Hcmp) as (_ & _ & E). by rewrite outs_app, E, app_nil_r, Hc.
  - right. left. split_and!; try done. intros Hcmp Hg. destruct (Hd Hcmp) as (_ & -> & _). by apply Hc.
  - by right; right.
Qed.

(** A thread of the child. *)
Lemma child_out c s ch p : children s = [ch] → child_action (stopped s) ch p → out_ok c s →
  out_ok c (post p.2 (set_children [p.1] s)).
Proof.
  intros Ec Ha Ho. pose proof Ho as [Hmb [Hdel Hret]]%(out_ok_one c s ch Ec).
  assert (Hsame : out_ok c (post None (set_children [ch] s))).
  { apply post_out; [done|done|by apply (ret_same c s ch)]. }
  destruct Ha; cbn [fst snd].
  - unfold writer_receive. destruct (writer ch), (channel ch); try done. by destruct (write_tx ch).
  - unfold writer_write. destruct (writer ch); try done.
    assert (Hcap : ∀ k, out_ok c (post (Some (CapacityUpdate k)) (set_children [ch] s))).
    { intros k. apply post_out; [done|done|by apply (ret_same c s ch)]. }
    cbn [fst snd]. destruct (_ =? _)%Z; [|exact Hsame].
    specialize (Hcap (mk_Capacity MAX_MESSAGES_OUTSTANDING (wrap 64 (written ch + 1)))).
    unfold post in *. cbn in *. destruct (stopped s); exact Hcap.
  - unfold writer_fail. by destruct (writer ch).
  - unfold reader_read. destruct (reader ch) eqn:Er; try done. unfold rhand in Hdel. rewrite Er in Hdel.
    apply post_out; [done| |apply (ret_same c s ch); [done|done|intros ?; congruence|done]].
    intros Hst Hg. cbn. rewrite <-(Hdel Hst Hg), str_app_nil_r. by rewrite !str_app_assoc.
  - unfold reader_end. destruct (reader ch) eqn:Er; try done. unfold rhand in Hdel. rewrite Er in Hdel.
    apply post_out; [done|done|apply (ret_same c s ch); [done|done|intros ?; congruence|done]].
  - unfold reader_send. destruct (reader ch) eqn:Er; try done. unfold rhand in Hdel. rewrite Er in Hdel.
    destruct (Sumbool.sumbool_of_bool (stopped s)) as [Est|Est]; rewrite Est; cbn [fst snd];
      (apply post_out; [done| |apply (ret_same c s ch); [done|done|intros ?; congruence|done]]); [congruence|].
    intros _ Hg. cbn. rewrite <-(Hdel Est Hg), !str_app_nil_r. done.
  - unfold waiter_exit. by destruct (waiter ch) eqn:Ew.
  - unfold waiter_return. destruct (waiter ch) as [|code|] eqn:Ew; try done. destruct Hret as [Hc Hn].
    destruct (_ || timeout); [|done]. apply post_out; [done|done|]. cbn. unfold returned. cbn [mailbox frames stopped reader with_waiter].
    split; [by destruct (reader ch)|]. destruct (stopped s); [by right; right|]. left. split_and!; try done.
    by exists (mailbox s), [].
Qed.

Lemma server_step_out path init l t s g s' g' c : server_ok init path (take g l) s → server_ok init path (take g' l) s' →
  protocol init l → seen c ≤ length (frames s) → out_ok c s → server_step path l t s g s' g' → out_ok c s'.
Proof.
  intros Hs Hs' Hp Hseen Ho Hst.
  assert (Hl : ∀ h v, server_ok init path h v → length (children v) ≤ 1).
  { intros h v. unfold server_ok. by destruct (children v) as [|? [|]]; cbn; [lia|lia|]. }
  destruct (server_step_cases _ _ _ _ _ _ _ _ Hp Hst) as
    [[Hq Hns]|[(m & rest & Hns & Em & ->)|(i & c0 & p & Hi & Ha & ->)]].
  - by eapply quiet_out; eauto.
  - by apply mail_out; eauto.
  - unfold server_ok in Hs. destruct (children s) as [|c1 [|]] eqn:Ec; [done| |done].
    destruct i as [|i]; [|done]. injection Hi as ->. cbn. by eapply child_out.
Qed.

Lemma handle_actor_frames m s : ∃ fs, frames (handle_actor m s) = frames s ++ fs.
Proof.
  destruct m; cbn; [by eexists| |by eexists]. unfold stop, ctx_stop. cbn. rewrite frames_on_child. by eexists.
Qed.

Lemma server_step_frames path l t s g s' g' : server_step path l t s g s' g' → ∃ fs, frames s' = frames s ++ fs.
Proof.
  intros Hst. destruct Hst as [id sp m H0 Hm|id sp H0|H0|m rest H0 Hm|H0|i c r Hi Ha].
  - assert ((∃ r, m = Close r) ∨ ¬ ∃ r, m = Close r) as [[r ->]|Hc] by (destruct m; naive_solver).
    + cbn. rewrite frames_on_child. by eexists.
    + destruct (handle_quiet path id sp t (Some m) s) as [(fs & E & _) _ _]; [naive_solver|by exists fs].
  - destruct (handle_quiet path id sp t None s) as [(fs & E & _) _ _]; [done|by exists fs].
  - destruct (finished_quiet s) as [(fs & E & _) _ _]. by exists fs.
  - apply (handle_actor_frames m (set_mailbox rest s)).
  - destruct (heartbeat_quiet t s) as [(fs & E & _) _ _]. by exists fs.
  - exists []. rewrite app_nil_r. unfold post. destruct r.2; [|done]. by destruct (stopped _).
Qed.

Lemma ret_ok_server path l t s g s' g' c : ret_ok c s → server_step path l t s g s' g' → ret_ok c s'.
Proof.
  intros Hr Hst. destruct (server_step_frames _ _ _ _ _ _ _ Hst) as [fs E].
  unfold ret_ok in *. destruct (receiver c); try done. intros r Er. rewrite E. apply Hr in Er.
  apply list_elem_of_lookup in Er as [i Hi]. apply list_elem_of_lookup. exists i.
  apply lookup_take_Some in Hi as [Hi Hlt]. apply lookup_take_Some. split; [|done]. by apply lookup_app_l_Some.
Qed.
End output.
