(* ===== verification/ExecSession.v ===== *)
(** * What an exec session promises

    The two theorems about sessions, from the invariants of the files ExecFlow and ExecOutput, and a session
    step by step as their witness. *)
From S2P Require Import Prelude Json Numbers Chars ExecServer ExecClient Exec ExecFlow ExecOutput.
From stdpp Require Import base countable list strings.
From stdpp Require Import options.

Section session_output.
Context `{ExecText} (path : string) (init : Initialize) (whole : string).
Hypothesis Hwhole : (Z.of_nat (str_len whole) < 2 ^ 64)%Z.

Lemma reachable_out t s : reachable path init whole t s → out_ok (cl s) (sv s) ∧ ret_ok (cl s) (sv s).
Proof using Hwhole.
  induction 1 as [|s s' Hr [Ho Hret] Hst].
  { split; [|done]. split_and!; try done. by repeat constructor. }
  destruct (reachable_ok path init whole Hwhole _ _ Hr) as (Hc & Hs & Hg). pose proof (reachable_step _ _ _ _ _ _ Hr Hst) as Hr'.
  destruct (reachable_ok path init whole Hwhole _ _ Hr') as (_ & Hs' & _). pose proof (cp_seen _ _ (reachable_caps path init whole Hwhole _ _ Hr)) as Hseen.
  destruct Hst as [d Hd|c He Hst|v g Hst]; cbn in *; [done| |].
  - destruct (client_step_output _ _ _ _ Hret Hst) as [? ?]. split; [|done]. by eapply out_ok_client.
  - split; [|by eapply ret_ok_server]. eapply server_step_out; [exact Hs|exact Hs'|by destruct Hc|done..].
Qed.
End session_output.

(** ** What a session promises *)

(** What was taken from the channel is the beginning of what the actor took. *)
Lemma stream_input (c : Child) (taken : list string) (rest whole : string) :
  str_concat taken +:+ rest = whole →
  match writer c with
  | WriterDone => ∃ rest, stdin c +:+ rest = str_concat taken
  | _ => ∃ dn, taken = dn ++ hand c ++ channel c ∧ str_concat dn = stdin c ∧ Z.of_nat (length dn) = written c
  end →
  (∃ rest, stdin c +:+ rest = whole) ∧
  (writer c ≠ WriterDone → ∃ rest, stdin c +:+ str_concat (hand c ++ channel c) +:+ rest = whole).
Proof.
  intros <- Hs.
  assert (Hlive : (∃ dn, taken = dn ++ hand c ++ channel c ∧ str_concat dn = stdin c ∧ Z.of_nat (length dn) = written c) →
    stdin c +:+ str_concat (hand c ++ channel c) +:+ rest = str_concat taken +:+ rest).
  { intros (dn & -> & Es & _). by rewrite (str_concat_app dn), Es, str_app_assoc. }
  destruct (writer c); [split; [|intros _]; eexists; by apply Hlive..|].
  split; [|done]. destruct Hs as [r <-]. exists (r +:+ rest). by rewrite str_app_assoc.
Qed.

(** The normal close that the client read is the last frame. *)
Lemma last_close n fs frs (k : nat) r : frs = fs ++ [last_frame n] → no_normal fs → Close (Some r) ∈ take k frs →
  code r = Normal →
  r = mk_CloseReason Normal (Some (unsigned_to_string (u16_or_zero n))) ∧ str_concat (bins (drop k frs)) = EmptyString.
Proof.
  intros -> Hn Hi Hc. apply list_elem_of_lookup in Hi as [i Hi]. apply lookup_take_Some in Hi as [Hi Hlt].
  destruct r as [rc rd]. cbn in Hc. subst rc. apply lookup_app_Some in Hi as [Hi|[Hle Hi]].
  - by pose proof (Forall_lookup_1 _ _ _ _ Hn Hi).
  - destruct (i - length fs) as [|j] eqn:E; [|done]. injection Hi as <-. split; [done|].
    rewrite drop_ge; [done|]. rewrite length_app. cbn. lia.
Qed.

Lemma u16_bound n : (0 ≤ u16_or_zero n < 2 ^ 16)%Z.
Proof. unfold u16_or_zero. destruct (Z.leb_spec 0 n), (Z.ltb_spec n (2 ^ 16)); cbn; lia. Qed.

Lemma unsigned_to_string_ne n : (0 ≤ n < 2 ^ 16)%Z → str_is_empty (unsigned_to_string n) = false.
Proof.
  intros Hn. destruct (unsigned_to_string n) eqn:E; [|done].
  pose proof (parse_unsigned_to_string 16 n Hn) as Hp. by rewrite E in Hp.
Qed.

(** The code in the reason of the close is read back. *)
Lemma exit_code n e : (∀ err, e ≠ ReadFromUserFailed err) →
  exec_exit e (Some (mk_CloseReason Normal (Some (unsigned_to_string (u16_or_zero n))))) = Ok (u16_or_zero n).
Proof.
  intros He. pose proof (unsigned_to_string_ne _ (u16_bound n)) as H1.
  pose proof (parse_unsigned_to_string 16 _ (u16_bound n)) as H2. revert H1 H2.
  generalize (unsigned_to_string (u16_or_zero n)). intros text H1 H2.
  destruct e as [|err| |]; [|by destruct (He err)|..]; cbn; by rewrite H1, H2.
Qed.

(** The client waits for capacity. *)
Definition waits (c : client) : Prop :=
  user_failed c = false ∧ receiver c = Listening ∧ (cap_max c < messages_read c - cap_written c)%Z.

(** C6. However the threads of both sides, input, output, failures and time interleave: the server
    spawns at most one process, the command that was asked for; unless the server has closed the connection for
    a full buffer, the standard input of that process, followed by the message being written and those in
    the channel while the writing thread lives, is the beginning of the user's input, in order and without gaps;
    at most one message more than [MAX_MESSAGES_OUTSTANDING] is sent and not written; the client never
    finds that more was written than read; a message is refused only when the channel is full, the writing thread
    holds none and all the capacity and one more was used; and a client that waits for capacity does not wait for
    nothing: a message, a write, or a report is still under way. *)
Theorem exec_input_flow `{ExecText} path init whole t s :
  (Z.of_nat (str_len whole) < 2 ^ 64)%Z → reachable path init whole t s →
  (∀ r w, user (cl s) ≠ UserFailed (ServerCount r w)) ∧
  (children (sv s) = [] ∨ ∃ c, children (sv s) = [c] ∧ (∃ exec_id, args c = ctr_args path exec_id init) ∧
    (¬ refused (frames (sv s)) →
       (∃ rest, stdin c +:+ rest = whole) ∧
       (writer c ≠ WriterDone → ∃ rest, stdin c +:+ str_concat (hand c ++ channel c) +:+ rest = whole)) ∧
    (messages_read (cl s) ≤ written c + MAX_MESSAGES_OUTSTANDING + 1)%Z ∧
    (∀ data, write_tx c = true → sent (cl s) !! got s = Some (Binary data) → try_send data c = Full →
       writer c = Receiving ∧ messages_read (cl s) = (written c + MAX_MESSAGES_OUTSTANDING + 1)%Z) ∧
    (waits (cl s) → stopped (sv s) = false → ¬ refused (frames (sv s)) → writer c ≠ WriterDone →
       got s < length (sent (cl s)) ∨ hand c ++ channel c ≠ [] ∨ mailbox (sv s) ≠ [] ∨
       seen (cl s) < length (frames (sv s)))).
Proof.
  intros Hw Hr. split; [intros r w; by eapply no_server_count|].
  destruct (reachable_ok path init whole Hw _ _ Hr) as (_ & Hs & _). pose proof (reachable_caps path init whole Hw _ _ Hr) as Hcaps.
  unfold server_ok in Hs. destruct (children (sv s)) as [|c [|]] eqn:Ec; [by left| |done].
  destruct Hs as (_ & _ & [Ha _ _ Hstream]). right. exists c. split_and!; [done|done| | | |].
  - intros Hn. destruct (taken_input path init whole Hw _ _ Hr) as [rest Erest]. specialize (Hstream Hn). by eapply stream_input.
  - pose proof (cp_read _ _ Hcaps) as Hread. unfold written_of, views in Hread. by rewrite Ec in Hread.
  - intros data Htx Hm Hf. by eapply (refusal path init whole Hw).
  - intros (Hf & Hl & Hwait) Hst Hnr Hwr. by eapply (waiting_not_stuck path init whole Hw).
Qed.

(** C7. When the client has been told that the process ended, it exits with the code of the process
    (as 16 bits), and if the server knew that reading was complete, rather than wait no longer, what the client
    printed is exactly all that was read from the process. *)
Theorem exec_code_after_output `{ExecText} path init whole t s r :
  (Z.of_nat (str_len whole) < 2 ^ 64)%Z → reachable path init whole t s →
  ret (cl s) = Some r → code r = Normal →
  ∃ c n complete, children (sv s) = [c] ∧ waiter c = WaiterDone n complete ∧
    (∀ e, (∀ err, e ≠ ReadFromUserFailed err) → exec_exit e (ret (cl s)) = Ok (u16_or_zero n)) ∧
    (complete = true → stdout (cl s) = output c).
Proof.
  intros Hw Hr Er Ecode. destruct (reachable_out path init whole Hw _ _ Hr) as [[_ Ho] Hret].
  destruct (reachable_ok path init whole Hw _ _ Hr) as (_ & Hs & _).
  unfold ret_ok in Hret. destruct (receiver (cl s)) as [| |res] eqn:El; [congruence..|]. specialize (Hret _ Er).
  assert (Hnn : ¬ no_normal (frames (sv s))).
  { intros Hn. apply list_elem_of_lookup in Hret as [i Hi]. apply lookup_take_Some in Hi as [Hi _].
    pose proof (Forall_lookup_1 _ _ _ _ Hn Hi) as Hx. cbn in Hx. destruct r as [rc rd]. cbn in Ecode. by subst rc. }
  unfold server_ok in Hs. destruct (children (sv s)) as [|c [|]]; [by destruct Ho as (_ & ? & _)| |done].
  destruct Ho as [_ Ho]. destruct (waiter c) as [| |n complete] eqn:Ewt; [by destruct Ho..|].
  destruct Ho as [_ [(_ & ? & _)|[(_ & (fs & Ef & Hfs) & Hout)|[_ ?]]]]; [done| |done].
  destruct (last_close _ _ _ _ _ Ef Hfs Hret Ecode) as [-> Hseen].
  exists c, n, complete. split_and!; [done|done| |].
  - intros e He. rewrite Er. apply exit_code. exact He.
  - intros Hcmp. specialize (Hout Hcmp). unfold good in Hout. rewrite El, Er in Hout.
    unfold delivered in Hout. rewrite Hseen, str_app_nil_r in Hout. apply Hout. by eexists.
Qed.

(** ** A session, step by step *)

(** Texts for the witnesses: messages as numbers in binary. *)
Definition client_code (m : ClientMessage) : list string * string * option (option (Z * Z)) + (unit + Z * Z) :=
  match m with
  | ClientInitialize i => inl (command i, target i, (λ t, (λ z, (rows z, cols z)) <$> ExecServer.size t) <$> tty i)
  | ContentComplete => inr (inl tt)
  | Winch z => inr (inr (rows z, cols z))
  end.
Definition client_decode (x : list string * string * option (option (Z * Z)) + (unit + Z * Z)) : ClientMessage :=
  match x with
  | inl (c, t, o) => ClientInitialize (mk_Initialize c t ((λ o, mk_TtyInit ((λ z, mk_Size z.1 z.2) <$> o)) <$> o))
  | inr (inl _) => ContentComplete
  | inr (inr (r, c)) => Winch (mk_Size r c)
  end.
Lemma client_decode_code m : client_decode (client_code m) = m.
Proof. by destruct m as [[c t [[[[]|]]|]]| |[]]. Qed.

Definition example_text : ExecText.
Proof.
  refine {|
    client_text m := bits_to_string (encode (client_code m));
    client_of_text t := match decode (bits_of_string t) with Some x => Ok (client_decode x) | None => Err "invalid" end;
    server_text m := match m with ServerCapacity k =>
      bits_to_string (encode (max_messages_outstanding k, messages_written k)) end;
    server_of_text t := match decode (bits_of_string t) with
                        | Some (m, w) => Ok (ServerCapacity (mk_Capacity m w)) | None => Err "invalid" end |}.
  - intros m. rewrite bits_of_to_string, decode_encode. by rewrite client_decode_code.
  - intros [[m w]]. by rewrite bits_of_to_string, decode_encode.
Defined.

Definition example_init : Initialize := mk_Initialize ["cat"] "admin" None.


(** A schedule, run: some of the steps as a function. *)
Inductive turn := UserTurn | ReceiveTurn | StoreTurn | ActorTurn (p : Z) | MailTurn | ChildTurn (f : Child → Child * option actor_message).

Section run.
Context `{ExecText} (path : string).

Definition take_turn (a : turn) (s : session) : option session :=
  match a with
  | UserTurn => Some (mk_session (user_step true (cl s)) (sv s) (got s) (now s))
  | ReceiveTurn =>
      match receiver (cl s), frames (sv s) !! seen (cl s) with
      | Listening, Some m =>
          Some (mk_session (client_handle (now s) None m (set_seen (S (seen (cl s))) (cl s))) (sv s) (got s) (now s))
      | _, _ => None
      end
  | StoreTurn => Some (mk_session (store_written (cl s)) (sv s) (got s) (now s))
  | ActorTurn p =>
      match sent (cl s) !! got s with
      | Some m => Some (mk_session (cl s) (handle path "id" (Ok p) (now s) (Some m) (sv s)) (S (got s)) (now s))
      | None => None
      end
  | MailTurn =>
      match mailbox (sv s) with
      | m :: rest => Some (mk_session (cl s) (handle_actor m (set_mailbox rest (sv s))) (got s) (now s))
      | [] => None
      end
  | ChildTurn f =>
      match children (sv s) !! 0 with
      | Some c => Some (mk_session (cl s) (post (f c).2 (set_children (<[0:=(f c).1]> (children (sv s))) (sv s))) (got s) (now s))
      | None => None
      end
  end.

Definition turn_ok (a : turn) : Prop :=
  match a with ChildTurn f => ∀ c, child_action false c (f c) | _ => True end.

(** The actor stops at the end only. *)
Fixpoint take_turns (l : list turn) (s : session) : option session :=
  match l with
  | [] => Some s
  | a :: l => if stopped (sv s) then match a with ReceiveTurn => take_turn a s ≫= take_turns l | _ => None end
              else take_turn a s ≫= take_turns l
  end.

Lemma take_turn_step a s s' : turn_ok a → ended (cl s) = None → stopped (sv s) = false ∨ a = ReceiveTurn →
  take_turn a s = Some s' → step path s s' ∧ ended (cl s') = None.
Proof.
  intros Hok He Hst Ht. destruct a; cbn in Ht.
  - injection Ht as <-. split; [apply step_client; [done|constructor]|]. cbn. unfold user_step.
    destruct (user (cl s)); repeat case_match; done.
  - destruct (receiver (cl s)) eqn:Er; try done. destruct (_ !! _) as [m|] eqn:Em; [|done]. injection Ht as <-.
    split; [apply step_client; [done|by constructor]|]. cbn. destruct m; cbn; repeat case_match; done.
  - injection Ht as <-. split; [apply step_client; [done|constructor]|]. cbn. unfold store_written. by destruct (receiver (cl s)).
  - destruct (_ !! _) as [m|] eqn:Em; [|done]. injection Ht as <-. split; [|done]. apply step_server.
    destruct Hst as [Hst|]; [|done]. by constructor.
  - destruct (mailbox (sv s)) as [|m rest] eqn:Em; [done|]. injection Ht as <-. split; [|done]. apply step_server.
    destruct Hst as [Hst|]; [|done]. by constructor.
  - destruct (_ !! _) as [c|] eqn:Ec; [|done]. injection Ht as <-. split; [|done]. apply step_server.
    destruct Hst as [Hst|]; [|done]. econstructor; [done|]. rewrite Hst. apply Hok.
Qed.

Lemma take_turns_reachable init whole t l s s' : Forall turn_ok l → reachable path init whole t s → ended (cl s) = None →
  take_turns l s = Some s' → reachable path init whole t s'.
Proof.
  intros Hl. revert s. induction Hl as [|a l Ha _ IH]; cbn; intros s Hr He Ht; [by injection Ht as <-|].
  assert (Hx : (stopped (sv s) = false ∨ a = ReceiveTurn) ∧ take_turn a s ≫= take_turns l = Some s').
  { destruct (stopped (sv s)); [|by split; [left|]]. destruct a; try done. by split; [right|]. }
  destruct Hx as [Hst Hx]. destruct (take_turn a s) as [s1|] eqn:E; [|done].
  destruct (take_turn_step a s s1 Ha He Hst E) as [Hs1 He1]. eapply IH; [|done|done]. by eapply reachable_step.
Qed.
End run.

(** The command takes all the input, answers and ends with code 3. *)
Definition example_turns : list turn :=
  [ActorTurn 7; MailTurn; ReceiveTurn; StoreTurn; UserTurn; UserTurn; UserTurn; ActorTurn 7;
   ChildTurn (λ c, (writer_receive c, None)); ChildTurn writer_write; ChildTurn (λ c, (reader_read "yo" c, None));
   ChildTurn (reader_send false); MailTurn; ChildTurn (λ c, (reader_end c, None));
   ChildTurn (λ c, (waiter_exit (Exited 3) c, None)); ChildTurn (waiter_return false); MailTurn; ReceiveTurn; ReceiveTurn].

Lemma example_turns_ok : Forall turn_ok example_turns.
Proof.
  unfold example_turns. repeat (apply Forall_cons; split); try done; try apply Forall_nil; intros c; constructor; [done|cbn; lia].
Qed.

Lemma example_run : ∃ s c, @reachable example_text "/run/c.sock" example_init "hi" 0 s ∧ children (sv s) = [c] ∧
  stdin c = "hi" ∧ output c = "yo" ∧ waiter c = WaiterDone 3 true ∧
  ret (cl s) = Some (mk_CloseReason Normal (Some "3")).
Proof.
  set (r := @take_turns example_text "/run/c.sock" example_turns (@session_start example_text example_init "hi" 0)).
  assert (E : (s ← r; c ← children (sv s) !! 0;
      Some (length (children (sv s)), stdin c, output c, waiter c, ret (cl s))) =
    Some (1, "hi", "yo", WaiterDone 3 true, Some (mk_CloseReason Normal (Some "3")))) by (vm_compute; reflexivity).
  destruct r as [s|] eqn:Er; [|done]. cbn in E. destruct (children (sv s)) as [|c [|]] eqn:Ec; [done| |done].
  injection E as E1 E2 E3 E4. exists s, c. split_and!; [|done..].
  eapply take_turns_reachable; [apply example_turns_ok|apply reachable_start|done|exact Er].
Qed.

Lemma exec_input_flow_witness : ∃ s c, @reachable example_text "/run/c.sock" example_init "hi" 0 s ∧
  children (sv s) = [c] ∧ stdin c = "hi" ∧ (messages_read (cl s) ≤ written c + MAX_MESSAGES_OUTSTANDING + 1)%Z.
Proof.
  destruct example_run as (s & c & Hr & Ec & Es & _).
  destruct (@exec_input_flow example_text "/run/c.sock" example_init "hi" 0 s ltac:(done) Hr) as [_ [E|(c' & Ec' & _ & _ & Hb & _)]];
    [congruence|]. exists s, c. rewrite Ec in Ec'. injection Ec' as <-. split_and!; [exact Hr|exact Ec|exact Es|exact Hb].
Defined.

Lemma exec_code_after_output_witness : ∃ s c, @reachable example_text "/run/c.sock" example_init "hi" 0 s ∧
  children (sv s) = [c] ∧ output c = "yo" ∧ stdout (cl s) = "yo" ∧
  exec_exit (ServerReadEnded (Err CloseMarker)) (ret (cl s)) = Ok 3%Z.
Proof.
  destruct example_run as (s & c & Hr & Ec & _ & Eo & Ew & Er).
  destruct (@exec_code_after_output example_text "/run/c.sock" example_init "hi" 0 s _ ltac:(done) Hr Er eq_refl)
    as (c' & n & complete & Ec' & Ew' & Hx & Hout).
  rewrite Ec in Ec'. injection Ec' as <-. rewrite Ew in Ew'. injection Ew' as <- <-.
  exists s, c. split_and!; [exact Hr|exact Ec|exact Eo|by rewrite (Hout eq_refl)|by rewrite Hx].
Defined.
